(* ===== verification/_CoqProject ===== *)
-Q . S2P
Prelude.v
Programs.v
Json.v
MediaSession.v
MediaPump.v
MediaManager.v
MediaInvariant.v
MediaSafety.v
Encryption.v
Bencode.v
Outbox.v
Redis.v
Routing.v
Admission.v
Trunks.v
TrunkService.v
TrunkHealth.v
TrunkSafety.v
TrunkInvariant.v
TrunkOutcomes.v
TrunkProbes.v
TrunkValidate.v
CallStore.v
FreeSWITCH.v
Controller.v
Failover.v
Server.v
CallService.v
CallSafety.v
CallOutcomes.v
Translator.v
Idempotency.v
Webhooks.v
WebhookDelivery.v
WebhookSafety.v
WebhookOutcomes.v
Paths.v
ObjectStore.v
RecordingStore.v
StorageService.v
Recordings.v
RecordingJobs.v
RecordingSafety.v
RecordingStatements.v
RecordingPrograms.v
RecordingSystem.v
RecordingOutcomes.v
RetentionRuns.v
Secrets.v
IdentityStore.v
Identity.v
Tenancy.v
Access.v
IdentitySafety.v
IdentityStatements.v
IdentityPrograms.v
IdentitySystem.v
IdentityOutcomes.v
Providers.v
Composable.v
ComposableSafety.v
ComposableSpeech.v
MediaTokens.v
JsonValues.v
ConversationState.v
AgentStore.v
AgentProviders.v
Agents.v
AgentTools.v
AgentRuntime.v
AgentSafety.v
AgentStatements.v
AgentPrograms.v
AgentSystem.v
AgentOutcomes.v
AgentReadiness.v
AgentTickets.v
