(* ===== verification/Prelude.v ===== *)
(** * Verification of the Monogo server

    Monogo ([src/server], Go) is a multi-tenant telephony platform. An HTTP server
    and a worker share a PostgreSQL database, a Redis store and a NATS broker, and
    drive FreeSWITCH over its event socket and RTPEngine over UDP. This
    development models the parts that make and end calls, carry their media,
    administer trunks, deliver webhooks and run Voice Agents, and the platform parts
    they rest on.
    Paths below are relative to [src/server/internal/].

    ** The parts and their files

    Foundations:
    - [Prelude.v]: Go errors ([errors.Is], [errors.As]), results, the monad of
      methods that read and write a state and may fail, machine integers,
      functions of [strings] and [strconv], and the failures of external calls.
    - [Programs.v]: programs as trees of external calls, their interleavings, and a
      rely-guarantee logic for them.
    - [Json.v]: the JSON grammar, as far as [json.Valid] and "is an object" need it.
    - [Encryption.v]: [encoding/base64] and scoped credential encryption
      ([security/encryption]).

    Platform:
    - [Bencode.v]: the codec of the RTPEngine control protocol
      ([integrations/rtpengine/protocol.go], [model.go]).
    - [Outbox.v]: the transactional outbox ([platform/outbox],
      [database/queries/outbox.sql]): the table, the publishing worker, and any
      number of workers interleaved; its Module [Retry] is the retry policy.
    - [Redis.v]: the Redis client and its Lua scripts
      ([integrations/redis/cache.go]) over typed keys with expiry.
    - [Idempotency.v]: idempotent requests ([platform/idempotency],
      [platform/middleware/idempotency.go], [database/queries/idempotency.sql]).

    Calls:
    - [Routing.v]: error constructors ([pkg/apperror], Module [AppErr]) and call
      routing ([telephony/routing]) over the routing tables.
    - [Admission.v]: call channels and trunk leases
      ([runtime/calling/channel.go]) over [Redis.v].
    - [CallStore.v]: the table of calls with the guards of
      [database/queries/calls.sql], and the repository ([telephony/calls/repository.go])
      that writes an outbox event with every mutation.
    - [FreeSWITCH.v]: the event-socket client ([integrations/freeswitch]): frames,
      subscriptions, and every operation over an interface of the connection.
    - [Controller.v]: the call controller ([runtime/calling/controller.go]).
    - [Failover.v]: the attempts of an outbound route plan ([telephony/calls/failover.go]).
    - [Server.v]: one state for all of this, implementing the interfaces of
      [CallStore.v], [Routing.v] and [FreeSWITCH.v].
    - [CallService.v]: the call service ([telephony/calls/service.go],
      [lifecycle.go], [validation.go], [consumer.go], [jobs.go]).
    - [CallSafety.v], [CallOutcomes.v]: what its handlers guarantee.
    - [Translator.v]: FreeSWITCH events as call events
      ([runtime/calling/translator.go]) and the call part of the worker's event
      handler ([runtime/worker/consumers.go]).

    Media sessions ([media/session]):
    - [MediaSession.v]: configurations and the byte budget of the audio queue.
    - [MediaPump.v]: the goroutines of one attached session as a step relation.
    - [MediaManager.v]: the manager as a machine of threads that interleave at
      its locks and channels; [MediaInvariant.v], [MediaSafety.v]: its invariant
      and what follows from it.

    Media engines ([media/engine], [media/transport], [integrations/ai]):
    - [Providers.v]: the registry of providers ([media/provider], [integrations]).
    - [Composable.v]: the composable engine ([media/engine/composable]): the
      generations that speak, the conversation and the queues between its goroutines
      as a step relation; [ComposableSafety.v]: what is said, when and how much
      after an interruption; [ComposableSpeech.v]: what is spoken is what the
      language model wrote.
    - [MediaTokens.v]: the tokens FreeSWITCH presents to the media transport
      ([media/transport/token.go]).

    Webhooks ([platform/webhooks], [database/queries/webhook_*.sql]):
    - [Webhooks.v], [WebhookDelivery.v]: tables, service, ingestion, the delivery
      worker; [WebhookSafety.v], [WebhookOutcomes.v]: their properties.

    Trunks ([telephony/trunks], [database/queries/trunks.sql]):
    - [Trunks.v], [TrunkService.v], [TrunkHealth.v]: the tables with the
      constraints of the migrations, the service, the health prober.
    - [TrunkSafety.v]: every operation as an abstract transition;
      [TrunkInvariant.v]: consistency of the tables; [TrunkOutcomes.v]: tenancy,
      announcement and atomicity; [TrunkProbes.v]: health accounting and the SIP
      probe; [TrunkValidate.v]: dry runs against the router of [Routing.v].

    Recordings ([telephony/recordings], [platform/storage], [platform/retention],
    [integrations/s3]):
    - [Paths.v]: paths and object keys; [ObjectStore.v]: the S3 client and its
      guard against private addresses.
    - [RecordingStore.v]: tables and statements; [StorageService.v]: the stores of
      tenants; [Recordings.v], [RecordingJobs.v]: repository, service, consumer,
      ingestion, reconciliation, retention.
    - [RecordingSafety.v]: the invariant and the guarantee; [RecordingStatements.v],
      [RecordingPrograms.v], [RecordingSystem.v]: every statement and program keeps
      to them; [RecordingOutcomes.v], [RetentionRuns.v]: what follows.

    Identity and tenancy ([identity], [security], [tenancy],
    [platform/middleware]):
    - [Secrets.v]: password hashes, tokens and one-time codes.
    - [IdentityStore.v]: users, log-in transactions, challenges, sessions,
      organizations, members and organization tokens with their constraints and
      statements; [Identity.v], [Tenancy.v]: services, handlers and middleware.
    - [Access.v]: what the middleware has checked; [IdentitySafety.v]: the
      invariant and the guarantee; [IdentityStatements.v], [IdentityPrograms.v],
      [IdentitySystem.v]: every statement and request keeps to them;
      [IdentityOutcomes.v]: what follows.

    Voice Agents ([ai], [runtime/agent]):
    - [JsonValues.v]: what [encoding/json] makes of texts; [ConversationState.v]: what
      is remembered of a conversation, and its turns.
    - [AgentStore.v]: agents, their phone numbers, credentials and services, tools,
      executions, sessions and turns, with constraints, triggers and statements.
    - [AgentProviders.v], [Agents.v], [AgentTools.v]: the services ([ai/providers],
      [ai/agents], [ai/tools]) and the executor of tools; [AgentRuntime.v]: sessions,
      the attachment of calls to media sessions, and their control connections
      ([ai/conversations], [ai/orchestration], [runtime/agent]).
    - [AgentSafety.v]: the invariant and the guarantee; [AgentStatements.v],
      [AgentPrograms.v], [AgentSystem.v]: every statement and program keeps to them;
      [AgentOutcomes.v]: what follows; [AgentReadiness.v]: the report of readiness
      against the activation; [AgentTickets.v]: who may act for a tool call, as
      rights that programs hold and give up.

    A Go function that returns a value and an error is a function into [result]
    or a method [M W A], which also changes the state [W]; a SQL statement is a
    function on the table, its [WHERE] clause a guard; a transaction works on a
    copy that its commit installs; a Lua script is a composition of Redis
    commands; goroutines are threads of a step relation, one step for each
    stretch of code under one lock or for one channel operation. Code whose races
    between processes matter is a [prog] of [Programs.v]: each call is atomic, and
    anything may happen between two.

    ** External calls

    A call to the database, Redis, FreeSWITCH or the broker either succeeds, fails
    without effect, or takes effect while its caller sees an error ([fault]). A run
    has a script of such failures, and past its end every call succeeds. The safety
    theorems hold for every script; the theorems on complete success or complete
    compensation are about runs in which no call fails ([CallOutcomes.calm]),
    FreeSWITCH being free to answer with errors. Times are nanoseconds; ids the
    database or the program generates are fresh.

    ** What the theorems show

    - The database: whatever requests the call service handles and whatever
      fails, calls move along the edges of one state machine, and the outbox tells
      the life of every call ([service_refines_call_machine],
      [outbox_tells_call_history], [terminal_is_final], [mutate_atomic]).
    - Capacity: a trunk never holds more leases than its limit
      ([trunk_capacity]); creation and admission end with exactly one lease or
      with none ([Create_all_or_nothing], [AdmitInbound_all_or_nothing]); a
      terminal event gives the lease back ([terminal_event_frees_call]), and a
      late event takes it again ([late_event_reopens_lease]).
    - Tenancy and injection: control commands are sent only for calls of the
      tenant ([control_is_tenant_safe]); commands and dial strings cannot be
      broken out of ([operations_write_one_line], [freeSWITCHEgress_sound]);
      inbound calls are admitted on trusted headers only
      ([translated_admission_is_trusted]).
    - Events: a handled event has been applied, and what the agent runtime is
      told is current ([observed_event_is_applied], [attached_call_is_current]).
    - Failover: at most three carriers, none after a channel exists
      ([executeRoutePlan_log], [no_retry_with_channel]).
    - Delivery: a published event was sent, an unpublished one can be claimed
      again, one pass of the publisher is a run of the interleaved system
      ([published_was_sent], [unpublished_is_claimable], [publishBatch_refines]).
    - Idempotency: executions of one key do not overlap and an answer is replayed
      ([executions_do_not_overlap], [answer_is_replayed], [Handle_twice]).
    - Media sessions: a session is released once, no channel is closed twice, a
      drained manager is empty, [Stop] can return, queued audio stays in its
      budget, a barge-in silences what was queued, the engine hears in order
      ([session_released_once], [control_never_panics], [drained_is_empty],
      [Stop_can_return], [audio_queue_within_budget], [barge_in_silences],
      [engine_hears_in_order]).
    - Conversations with the composable engine: the history is what was said, an
      active response is of a generation that still runs, after an interruption at
      most one event of the old generation comes out, and the text spoken is the text
      generated ([conversation_history], [active_response_is_alive],
      [late_output_at_most_one], [speech_is_the_text]); a media token is accepted
      once, and one just issued is accepted ([token_accepted_once],
      [issued_token_is_accepted]).
    - Webhooks: requests stay in their tenant, live claims are disjoint, a
      delivery marked as succeeded was accepted, one pass settles every delivery
      it claimed ([requests_stay_in_tenant], [live_claims_are_disjoint],
      [succeeded_was_accepted], [deliverBatch_settles]).
    - Trunks: every request is a transition of an abstract trunk machine, keeps
      the tables consistent, stays in its tenant and is announced
      ([service_refines_trunk_machine], [trunk_store_stays_consistent],
      [trunk_requests_stay_in_tenant], [trunk_changes_are_announced]); targets are
      unhealthy at the threshold ([unhealthy_iff_threshold]) and a probing pass
      records what it measured ([Check_records_probes]); a dry run agrees with
      the router ([Validate_predicts_routing]).
    - Recordings: whatever interleaves and fails, a recording goes through its life
      and the outbox tells it, a completed one has its object, objects stay in
      their tenant, the staged file is kept until its upload
      ([recordings_refine_life], [completed_was_uploaded],
      [objects_stay_in_tenant], [staged_files_are_safe]); a pass of retention ends
      and deletes what is overdue and nothing else ([retention_pass]); the S3 client
      dials public addresses only ([dial_public_only]).
    - Identity: a session is opened only with a password of its user, and one that
      is revoked, over or of a disabled user stays dead ([sessions_are_earned],
      [dead_sessions_stay_dead]); the one-time codes never work, so a user without a
      password never gets in ([codes_never_work], [no_way_in_without_password]);
      a request that reaches a resource has shown what it must
      ([access_is_granted]); an organization keeps its owner, and only its
      administrators change its members and tokens ([organization_keeps_owner],
      [changes_are_administered]).
    - Voice Agents: a media node is sent what the session was made with and secrets of
      its organization ([media_gets_the_snapshot]); a session keeps what it was made
      with, and a call has one ([sessions_follow_activation]); a tool call acts once
      ([tool_runs_once]); the report of readiness is right about the activation
      ([readiness_predicts_activation]); turns are numbered without a gap
      ([turns_are_numbered]).
    - Codecs: round trips, totality and bounds of bencode, event-socket frames
      encrypted credentials and password hashes ([bencode_roundtrip],
      [bdecodeMap_total], [readFrame_roundtrip], [EncryptForScope_roundtrip],
      [password_roundtrip]).

    ** Parameters and fuel

    UUID printing and parsing ([UuidLib], with the laws [UuidLaws]), SHA-256, the
    chain of HTTP handlers behind the middleware, the text of an error, the
    signing and URL functions webhooks use ([WebhookLib]), authenticated
    encryption ([AEAD], with its laws [AEADLaws]), address parsing and MD5
    ([TrunkLib]), the answers of probed peers ([Network]), the S3 library and URL
    parsing ([S3Lib]), random nonces and PostgreSQL's class of spaces
    ([StorageLib]), MIME types ([MimeLib]), Argon2id and the random source
    ([SecretLib], with the laws [SecretLaws]), the order of [CITEXT] and the text
    of addresses ([IdentityLib]), what [jsonb] takes and the canonical text of JSON
    ([AgentLib]), the URL, address and signing functions of tools
    ([AgentTools.ToolLib]), and the media node, the control connections and FreeSWITCH
    as the agent runtime sees them ([AgentRuntime.Peers]) are parameters; the
    runs instantiate them. The decoders take the length of their input as fuel,
    which [bdecodeMap_total] and [readFrame_total] show to be enough; the rounds of
    retention have fuel, and more than the completed recordings is enough
    ([retention_pass]); other recursion is structural.

    ** Not modelled

    The connection management of the FreeSWITCH client, the ticker loops of the
    jobs (they only call the modelled passes), the NATS subscriptions, HTTP
    handlers other than those of identity and tenancy, logging, metrics other than
    the route and session metrics, SQL statements no code calls: they move bytes or
    wire parts together. The clients of speech and language services, the
    WebSocket transport and the client of the media node are the inputs of the engine,
    the sessions and the agent runtime. The registry of media nodes, SCIM tokens, phone
    numbers and the networking policy rest on parts modelled here and are outside the
    development. *)

From stdpp Require Export base gmap sets list strings pretty fin_maps.
From stdpp Require Import options sorting.
From Stdlib Require Export ZArith Lia Ascii.
From Stdlib Require Import Wf_nat.
#[local] Set Warnings "-register-all".

Declare Scope go_scope.
Delimit Scope go_scope with go.
#[global] Open Scope Z_scope.

(** ** Go errors

    An [error] value is a tree: a sentinel created by [errors.New] at package
    level (compared by identity, modelled by its name), a formatted error
    ([fmt.Errorf] without [%w]; the format and its arguments are kept apart), a
    wrapped error, a [*apperror.AppError], a [*calling.OriginateError], a
    network error (a value whose dynamic type implements [net.Error]; the flag
    is [Timeout()]) and the join of two errors. *)
Inductive error : Type :=
| Sentinel (name : string)
| Errorf (format : string) (args : list string)
| Wrapf (format : string) (args : list string) (inner : error)
| AppError (code : string) (message : string) (status : Z) (inner : option error)
| OriginateError (class : string) (sip_status : Z) (inner : option error)
| NetError (timeout : bool) (text : string)
| JoinErr (first second : error).

(** [errors.Is] for a sentinel target: walk the [Unwrap] tree. *)
Fixpoint errors_Is (e : error) (target : string) : bool :=
  match e with
  | Sentinel name => bool_decide (name = target)
  | Errorf _ _ => false
  | Wrapf _ _ inner => errors_Is inner target
  | AppError _ _ _ inner
  | OriginateError _ _ inner =>
      match inner with Some e' => errors_Is e' target | None => false end
  | NetError _ _ => false
  | JoinErr e1 e2 => errors_Is e1 target || errors_Is e2 target
  end.

(** [errors.As] for a [*calling.OriginateError] target: the first one met in a
    depth-first walk of the [Unwrap] tree, with its class and SIP status. *)
Fixpoint errors_As_Originate (e : error) : option (string * Z) :=
  match e with
  | OriginateError class sip _ => Some (class, sip)
  | Sentinel _ | Errorf _ _ | NetError _ _ => None
  | Wrapf _ _ inner => errors_As_Originate inner
  | AppError _ _ _ inner =>
      match inner with Some e' => errors_As_Originate e' | None => None end
  | JoinErr e1 e2 =>
      match errors_As_Originate e1 with
      | Some r => Some r
      | None => errors_As_Originate e2
      end
  end.

(** [errors.As] for a [net.Error] target; the result is [Timeout()]. *)
Fixpoint errors_As_Net (e : error) : option bool :=
  match e with
  | NetError timeout _ => Some timeout
  | Sentinel _ | Errorf _ _ => None
  | Wrapf _ _ inner => errors_As_Net inner
  | AppError _ _ _ inner
  | OriginateError _ _ inner =>
      match inner with Some e' => errors_As_Net e' | None => None end
  | JoinErr e1 e2 =>
      match errors_As_Net e1 with
      | Some r => Some r
      | None => errors_As_Net e2
      end
  end.

(** Sentinels of the standard library and of pgx the code compares against. *)
Definition ErrCanceled : string := "context canceled".
Definition ErrDeadlineExceeded : string := "context deadline exceeded".
Definition ErrEOF : string := "EOF".
Definition ErrNoRows : string := "no rows in result set".

(** ** Results

    A Go function that returns [(T, error)] and whose first result is the zero
    value on error is a function into [result T]. *)
Abbreviation result A := (A + error)%type.

Definition rbind {A B} (m : result A) (k : A -> result B) : result B :=
  match m with inl a => k a | inr e => inr e end.

Notation "'let?' x := m 'in' k" := (rbind m (fun x => k))
  (at level 10, x name, m at level 100, k at level 200) : go_scope.
Notation "'let?' ' p := m 'in' k" := (rbind m (fun p => k))
  (at level 10, p strict pattern, m at level 100, k at level 200) : go_scope.
#[global] Open Scope go_scope.

(** [if cond { return err }]. *)
Definition guard_err (cond : bool) (e : error) : result unit :=
  if cond then inr e else inl tt.

Lemma rbind_inl {A B} (a : A) (k : A -> result B) : rbind (inl a) k = k a.
Proof. reflexivity. Qed.
Lemma rbind_inr {A B} e (k : A -> result B) : rbind (inr e) k = inr e.
Proof. reflexivity. Qed.
Lemma rbind_assoc {A B C} (m : result A) (k : A -> result B) (h : B -> result C) :
  rbind (rbind m k) h = rbind m (fun a => rbind (k a) h).
Proof. by destruct m. Qed.
Lemma rbind_ok_inv {A B} (m : result A) (k : A -> result B) b :
  rbind m k = inl b -> exists a, m = inl a /\ k a = inl b.
Proof. destruct m; simpl; [eauto | done]. Qed.
Lemma guard_err_ok c e u : guard_err c e = inl u <-> c = false.
Proof. destruct c, u; simpl; naive_solver. Qed.
Lemma guard_err_err c e e' : guard_err c e = inr e' <-> c = true /\ e' = e.
Proof. destruct c; simpl; intuition congruence. Qed.

(** ** Errors of PostgreSQL

    A [*pgconn.PgError] is its SQLSTATE and the constraint it names. *)
Definition PgError (code constraint : string) : error := Errorf "SQLSTATE" [code; constraint].
(** [errors.As] for a [*pgconn.PgError] target: its code. *)
Fixpoint errors_As_Pg (e : error) : option string :=
  match e with
  | Errorf f args =>
      if bool_decide (f = "SQLSTATE") then head args else None
  | Wrapf _ _ inner => errors_As_Pg inner
  | AppError _ _ _ inner | OriginateError _ _ inner =>
      match inner with Some e' => errors_As_Pg e' | None => None end
  | JoinErr e1 e2 => match errors_As_Pg e1 with Some c => Some c | None => errors_As_Pg e2 end
  | Sentinel _ | NetError _ _ => None
  end.
Definition unique_violation (c : string) : error := PgError "23505" c.
Definition check_violation (c : string) : error := PgError "23514" c.
Definition no_rows {A} : result A := inr (Sentinel ErrNoRows).

(** What a Go call can do: return, return an error, panic. [OutOfFuel] is an
    artefact of the fuel, excluded where a function takes some. *)
Inductive outcome (A : Type) : Type :=
| Done (a : A)
| Failed (e : error)
| Panicked
| OutOfFuel.
Arguments Done {A} a.
Arguments Failed {A} e.
Arguments Panicked {A}.
Arguments OutOfFuel {A}.

(** ** Machine integers

    Go's [int] and [int64] are 64-bit two's complement, [int32] 32-bit. *)
Definition wrap_signed (w : Z) (z : Z) : Z :=
  (z + 2 ^ (w - 1)) mod 2 ^ w - 2 ^ (w - 1).
Definition int64 (z : Z) : Z := wrap_signed 64 z.
Definition int32 (z : Z) : Z := wrap_signed 32 z.
Definition min_int64 : Z := - 2 ^ 63.
Definition max_int64 : Z := 2 ^ 63 - 1.
Definition max_int32 : Z := 2 ^ 31 - 1.

Lemma int64_id z : min_int64 <= z <= max_int64 -> int64 z = z.
Proof.
  unfold int64, wrap_signed, min_int64, max_int64. intros H.
  rewrite Z.mod_small; lia.
Qed.
Lemma int64_range z : min_int64 <= int64 z <= max_int64.
Proof.
  unfold int64, wrap_signed, min_int64, max_int64.
  pose proof (Z.mod_pos_bound (z + 2 ^ (64 - 1)) (2 ^ 64) ltac:(lia)). lia.
Qed.

(** Go's integer division truncates toward zero. *)
Definition go_div (a b : Z) : Z := Z.quot a b.

(** Durations are [int64] nanoseconds. *)
Definition Nanosecond : Z := 1.
Definition Millisecond : Z := 1000000.
Definition Second : Z := 1000000000.
Definition Minute : Z := 60 * Second.
Definition Hour : Z := 60 * Minute.

(** ** UUIDs

    [uuid.UUID] is a 128-bit value; [uuid.Nil] is zero. The package that prints
    and parses them is outside the repository: its functions are the fields of
    an interface, its documented behaviour a class of laws. *)
Abbreviation UUID := Z (only parsing).
Definition uuid_Nil : UUID := 0.

Class UuidLib : Type := {
  uuid_String : UUID -> string;
  uuid_Parse : string -> option UUID;
}.

Class UuidLaws (U : UuidLib) : Prop := {
  uuid_String_inj : forall a b, uuid_String a = uuid_String b -> a = b;
  uuid_String_nonempty : forall a, uuid_String a <> "";
  uuid_Parse_String : forall a, uuid_Parse (uuid_String a) = Some a;
  uuid_Parse_empty : uuid_Parse "" = None;
}.

(** ** Go strings

    A Go [string] is a byte sequence: [string] of [Stdlib], one [ascii] per
    byte. *)
Definition byte_Z (c : ascii) : Z := Z.of_N (N_of_ascii c).
Definition byte_in (lo hi : Z) (c : ascii) : bool := (lo <=? byte_Z c) && (byte_Z c <=? hi).
Definition byte_is (n : Z) (c : ascii) : bool := byte_Z c =? n.

(** The encodings of the runes [unicode.IsSpace] accepts: six of one byte, two
    of two bytes (U+0085, U+00A0) and the three-byte ones (U+1680,
    U+2000..U+200A, U+2028, U+2029, U+202F, U+205F, U+3000). *)
Definition space1 (a : ascii) : bool := byte_in 9 13 a || byte_is 32 a.
Definition space2 (a b : ascii) : bool := byte_is 194 a && (byte_is 133 b || byte_is 160 b).
Definition space3 (a b c : ascii) : bool :=
  (byte_is 225 a && byte_is 154 b && byte_is 128 c)
  || (byte_is 226 a && byte_is 128 b &&
      (byte_in 128 138 c || byte_is 168 c || byte_is 169 c || byte_is 175 c))
  || (byte_is 226 a && byte_is 129 b && byte_is 159 c)
  || (byte_is 227 a && byte_is 128 b && byte_is 128 c).

(** Drop the leading runs of the patterns [p1], [p2], [p3]. *)
Section TrimBytes.
Context (p1 : ascii -> bool) (p2 : ascii -> ascii -> bool)
  (p3 : ascii -> ascii -> ascii -> bool).

Fixpoint trim_front (s : list ascii) : list ascii :=
  match s with
  | [] => []
  | a :: s1 =>
      if p1 a then trim_front s1 else
      match s1 with
      | [] => s
      | b :: s2 =>
          if p2 a b then trim_front s2 else
          match s2 with
          | [] => s
          | c :: s3 => if p3 a b c then trim_front s3 else s
          end
      end
  end.

(** No pattern matches at the front. *)
Definition front_clean (s : list ascii) : bool :=
  match s with
  | [] => true
  | a :: s1 =>
      negb (p1 a) &&
      match s1 with
      | [] => true
      | b :: s2 =>
          negb (p2 a b) && match s2 with [] => true | c :: _ => negb (p3 a b c) end
      end
  end.

Lemma trim_front_split (s : list ascii) : exists pre, s = pre ++ trim_front s.
Proof.
  induction s as [s IH] using (induction_ltof1 _ length); unfold ltof in IH.
  destruct s as [|a s1]; [by exists []|]. simpl.
  destruct (p1 a).
  { destruct (IH s1) as [pre Hp]; [simpl; lia|]. exists (a :: pre). simpl. congruence. }
  destruct s1 as [|b s2]; [by exists []|].
  destruct (p2 a b).
  { destruct (IH s2) as [pre Hp]; [simpl; lia|]. exists (a :: b :: pre). simpl. congruence. }
  destruct s2 as [|c s3]; [by exists []|].
  destruct (p3 a b c); [|by exists []].
  destruct (IH s3) as [pre Hp]; [simpl; lia|]. exists (a :: b :: c :: pre). simpl. congruence.
Qed.

Lemma trim_front_clean (s : list ascii) : front_clean (trim_front s) = true.
Proof.
  induction s as [s IH] using (induction_ltof1 _ length); unfold ltof in IH.
  destruct s as [|a s1]; [done|]. simpl.
  destruct (p1 a) eqn:E1; [apply IH; simpl; lia|].
  destruct s1 as [|b s2]; [by simpl; rewrite E1|].
  destruct (p2 a b) eqn:E2; [apply IH; simpl; lia|].
  destruct s2 as [|c s3]; [by simpl; rewrite E1, E2|].
  destruct (p3 a b c) eqn:E3; [apply IH; simpl; lia|].
  by simpl; rewrite E1, E2, E3.
Qed.

Lemma trim_front_id (s : list ascii) : front_clean s = true -> trim_front s = s.
Proof.
  destruct s as [|a [|b [|c s]]]; simpl; try done;
    rewrite ?andb_true_iff, ?negb_true_iff; intros; destruct_and?;
    repeat match goal with H : _ = false |- _ => rewrite H end; done.
Qed.

Lemma front_clean_prefix (s t : list ascii) :
  front_clean (s ++ t) = true -> front_clean s = true.
Proof.
  destruct s as [|a [|b [|c s]]]; simpl; try done;
    rewrite ?andb_true_iff, ?negb_true_iff; intuition.
Qed.
End TrimBytes.

Definition bytes_TrimLeft : list ascii -> list ascii := trim_front space1 space2 space3.
Definition bytes_TrimRight (s : list ascii) : list ascii :=
  reverse (trim_front space1 (fun a b => space2 b a) (fun a b c => space3 c b a) (reverse s)).
Definition bytes_TrimSpace (s : list ascii) : list ascii := bytes_TrimRight (bytes_TrimLeft s).

(** [strings.TrimSpace]. *)
Definition TrimSpace (s : string) : string :=
  String.string_of_list_ascii (bytes_TrimSpace (String.list_ascii_of_string s)).

Lemma bytes_TrimSpace_idem s : bytes_TrimSpace (bytes_TrimSpace s) = bytes_TrimSpace s.
Proof.
  unfold bytes_TrimSpace, bytes_TrimRight, bytes_TrimLeft.
  set (l := trim_front space1 space2 space3 s).
  set (r := trim_front _ _ _ (reverse l)).
  assert (trim_front space1 space2 space3 (reverse r) = reverse r) as ->.
  { apply trim_front_id.
    destruct (trim_front_split space1 (fun a b => space2 b a)
                (fun a b c => space3 c b a) (reverse l)) as [pre Hpre].
    fold r in Hpre. apply (front_clean_prefix _ _ _ _ (reverse pre)).
    rewrite <- reverse_app, <- Hpre, reverse_involutive. apply trim_front_clean. }
  rewrite reverse_involutive. f_equal. apply trim_front_id, trim_front_clean.
Qed.

Lemma TrimSpace_idem s : TrimSpace (TrimSpace s) = TrimSpace s.
Proof.
  unfold TrimSpace. rewrite String.list_ascii_of_string_of_list_ascii. f_equal.
  apply bytes_TrimSpace_idem.
Qed.

(** [strings.ToLower] and [strings.ToUpper]: the ASCII letters, and the non-ASCII
    runes whose image is an ASCII letter (U+0130 and U+212A going down, U+0131
    and U+017F going up). The other non-ASCII runes are kept: the code compares
    every result with ASCII words, which those runes cannot produce. *)
Definition lower_byte (c : ascii) : ascii :=
  if byte_in 65 90 c then ascii_of_N (N_of_ascii c + 32) else c.
Definition upper_byte (c : ascii) : ascii :=
  if byte_in 97 122 c then ascii_of_N (N_of_ascii c - 32) else c.

Fixpoint bytes_ToLower (s : list ascii) : list ascii :=
  match s with
  | [] => []
  | a :: s1 =>
      match s1 with
      | b :: s2 =>
          if byte_is 196 a && byte_is 176 b then "i"%char :: bytes_ToLower s2 else
          match s2 with
          | c :: s3 =>
              if byte_is 226 a && byte_is 132 b && byte_is 170 c
              then "k"%char :: bytes_ToLower s3
              else lower_byte a :: bytes_ToLower s1
          | [] => lower_byte a :: bytes_ToLower s1
          end
      | [] => [lower_byte a]
      end
  end.
Fixpoint bytes_ToUpper (s : list ascii) : list ascii :=
  match s with
  | [] => []
  | a :: s1 =>
      match s1 with
      | b :: s2 =>
          if byte_is 196 a && byte_is 177 b then "I"%char :: bytes_ToUpper s2 else
          if byte_is 197 a && byte_is 191 b then "S"%char :: bytes_ToUpper s2 else
          upper_byte a :: bytes_ToUpper s1
      | [] => [upper_byte a]
      end
  end.
Definition ToLower (s : string) : string :=
  String.string_of_list_ascii (bytes_ToLower (String.list_ascii_of_string s)).
Definition ToUpper (s : string) : string :=
  String.string_of_list_ascii (bytes_ToUpper (String.list_ascii_of_string s)).

(** [strings.EqualFold] against an ASCII word: letter by letter up to ASCII case,
    with the two non-ASCII case variants of ASCII letters (U+212A for [k] and
    U+017F for [s]). *)
Fixpoint fold_match (s word : list ascii) : bool :=
  match word with
  | [] => bool_decide (s = [])
  | c :: word' =>
      match s with
      | [] => false
      | a :: s1 =>
          (bool_decide (lower_byte a = lower_byte c) && fold_match s1 word')
          || match s1 with
             | b :: s2 =>
                 (bool_decide (lower_byte c = "s"%char) && byte_is 197 a && byte_is 191 b
                    && fold_match s2 word')
                 || match s2 with
                    | d :: s3 =>
                        bool_decide (lower_byte c = "k"%char) && byte_is 226 a
                          && byte_is 132 b && byte_is 170 d && fold_match s3 word'
                    | [] => false
                    end
             | [] => false
             end
      end
  end.
Definition EqualFold (s word : string) : bool :=
  fold_match (String.list_ascii_of_string s) (String.list_ascii_of_string word).

(** [strconv.ParseInt(s, 10, 64)] (and [strconv.Atoi] on a 64-bit platform):
    an optional sign and at least one decimal digit, in range. *)
Definition digit_value (c : ascii) : option Z :=
  if byte_in 48 57 c then Some (byte_Z c - 48) else None.
Fixpoint parse_digits (acc : Z) (s : list ascii) : option Z :=
  match s with
  | [] => Some acc
  | c :: s' => match digit_value c with
               | Some d => parse_digits (10 * acc + d) s'
               | None => None
               end
  end.
Definition parse_unsigned (s : list ascii) : option Z :=
  match s with [] => None | _ => parse_digits 0 s end.
Definition in_int64 (z : Z) : option Z :=
  if (min_int64 <=? z) && (z <=? max_int64) then Some z else None.
Definition bytes_ParseInt (s : list ascii) : option Z :=
  match s with
  | "-"%char :: s' => parse_unsigned s' ≫= fun z => in_int64 (- z)
  | "+"%char :: s' => parse_unsigned s' ≫= in_int64
  | _ => parse_unsigned s ≫= in_int64
  end.
Definition ParseInt (s : string) : option Z := bytes_ParseInt (String.list_ascii_of_string s).

(** [bytes.IndexByte]. *)
Fixpoint index_byte (c : ascii) (l : list ascii) : option nat :=
  match l with
  | [] => None
  | a :: l' => if decide (a = c) then Some O else S <$> index_byte c l'
  end.

(** [keys] of a map in [sort.Strings] order. *)
Definition sorted_keys {A} (m : list (string * A)) : list string :=
  merge_sort String.le m.*1.

Lemma index_byte_lt c l n : index_byte c l = Some n -> (n < length l)%nat.
Proof.
  revert n; induction l as [|a l IH]; intros n; simpl; [done|].
  case_decide; [naive_solver lia|]. rewrite fmap_Some. intros (m & Hm & ->).
  apply IH in Hm. lia.
Qed.

Lemma index_byte_app c l1 l2 :
  Forall (fun a => a <> c) l1 -> index_byte c (l1 ++ c :: l2) = Some (length l1).
Proof.
  induction 1 as [|a l1 Ha _ IH]; simpl; [by rewrite decide_True|].
  rewrite decide_False by done. by rewrite IH.
Qed.

(** *** Other functions of package [strings] *)

Definition bytes (s : string) : list ascii := String.list_ascii_of_string s.
Definition of_bytes (b : list ascii) : string := String.string_of_list_ascii b.
Definition dquote : ascii := ascii_of_N 34.
Definition CR : ascii := ascii_of_N 13.
Definition LF : ascii := ascii_of_N 10.

Definition ContainsAny (s : string) (chars : list ascii) : bool :=
  existsb (fun c => bool_decide (c ∈ chars)) (bytes s).
Fixpoint Join (l : list string) (sep : string) : string :=
  match l with
  | [] => ""
  | [s] => s
  | s :: l' => s +:+ sep +:+ Join l' sep
  end.
Definition HasPrefix (s prefix : string) : bool := String.prefix prefix s.
(** [strings.TrimSuffix] and [strings.TrimPrefix]. *)
Definition TrimSuffix (s suffix : string) : string :=
  let b := bytes s in let x := bytes suffix in
  let n := (length b - length x)%nat in
  if decide (length x <= length b)%nat then
    if decide (drop n b = x) then of_bytes (take n b) else s
  else s.
Definition TrimPrefix (s prefix : string) : string :=
  if HasPrefix s prefix then of_bytes (drop (length (bytes prefix)) (bytes s)) else s.
(** [strings.ReplaceAll] of one byte. *)
Definition ReplaceByte (s : string) (c : ascii) (by_ : list ascii) : string :=
  of_bytes (concat ((fun a => if decide (a = c) then by_ else [a]) <$> bytes s)).
(** [strings.Cut]. *)
Fixpoint bytes_Cut (b sep : list ascii) : option (list ascii * list ascii) :=
  if decide (take (length sep) b = sep) then Some ([], drop (length sep) b) else
  match b with
  | [] => None
  | c :: b' => (fun '(x, y) => (c :: x, y)) <$> bytes_Cut b' sep
  end.
Definition Cut (s sep : string) : option (string * string) :=
  (fun '(x, y) => (of_bytes x, of_bytes y)) <$> bytes_Cut (bytes s) (bytes sep).
Definition Contains (s sub : string) : bool := bool_decide (is_Some (Cut s sub)).
(** [strings.Split] at a byte. *)
Fixpoint bytes_Split (b : list ascii) (c : ascii) : list (list ascii) :=
  match b with
  | [] => [[]]
  | a :: b' =>
      if decide (a = c) then [] :: bytes_Split b' c else
      match bytes_Split b' c with
      | x :: l => (a :: x) :: l
      | [] => [[a]]
      end
  end.
Definition Split (s : string) (c : ascii) : list string := of_bytes <$> bytes_Split (bytes s) c.
(** [strings.TrimRight(s, "\r\n")]. *)
Definition is_crlf (c : ascii) : bool := bool_decide (c = CR) || bool_decide (c = LF).
Fixpoint drop_while (p : ascii -> bool) (b : list ascii) : list ascii :=
  match b with c :: b' => if p c then drop_while p b' else b | [] => [] end.
Definition bytes_TrimCRLF (b : list ascii) : list ascii := reverse (drop_while is_crlf (reverse b)).

(** ** Values PostgreSQL stores

    A [TEXT] value is valid UTF-8 without NUL; an [INTEGER] has 32 bits. *)
Definition is_cont (c : ascii) : bool := byte_in 128 191 c.
Fixpoint utf8_text (b : list ascii) : bool :=
  match b with
  | [] => true
  | a :: b1 =>
      if byte_in 1 127 a then utf8_text b1 else
      match b1 with
      | [] => false
      | c1 :: b2 =>
          if byte_in 194 223 a then is_cont c1 && utf8_text b2 else
          match b2 with
          | [] => false
          | c2 :: b3 =>
              if byte_is 224 a then byte_in 160 191 c1 && is_cont c2 && utf8_text b3 else
              if byte_is 237 a then byte_in 128 159 c1 && is_cont c2 && utf8_text b3 else
              if byte_in 225 239 a then is_cont c1 && is_cont c2 && utf8_text b3 else
              match b3 with
              | [] => false
              | c3 :: b4 =>
                  if byte_is 240 a then byte_in 144 191 c1 && is_cont c2 && is_cont c3 && utf8_text b4 else
                  if byte_is 244 a then byte_in 128 143 c1 && is_cont c2 && is_cont c3 && utf8_text b4 else
                  byte_in 241 243 a && is_cont c1 && is_cont c2 && is_cont c3 && utf8_text b4
              end
          end
      end
  end.
Definition is_text (s : string) : bool := utf8_text (bytes s).
Definition opt_text (s : option string) : bool := match s with Some s => is_text s | None => true end.
Definition is_integer (z : Z) : bool := (- 2 ^ 31 <=? z) && (z <=? max_int32).
(** [length(trim(s)) > 0]: SQL's [trim] removes spaces only. *)
Definition not_blank (s : string) : bool := existsb (fun c => negb (byte_is 32 c)) (bytes s).

(** ** Decimal formatting: [%d] *)
Definition digit_char (d : Z) : ascii := ascii_of_N (Z.to_N (48 + d)).
Fixpoint digits_fuel (fuel : nat) (n : Z) (acc : list ascii) : list ascii :=
  match fuel with
  | O => acc
  | S fuel' =>
      let acc' := digit_char (n mod 10) :: acc in
      if n <? 10 then acc' else digits_fuel fuel' (n / 10) acc'
  end.
Definition format_uint (n : Z) : list ascii := digits_fuel (S (Z.to_nat (Z.log2 n))) n [].
Definition format_int (z : Z) : list ascii :=
  if z <? 0 then "-"%char :: format_uint (- z) else format_uint z.
Definition show_int (z : Z) : string := String.string_of_list_ascii (format_int z).

Lemma parse_digits_nonneg s : forall acc z,
  0 <= acc -> parse_digits acc s = Some z -> 0 <= z.
Proof.
  induction s as [|c s IH]; simpl; intros acc z Ha; [naive_solver|].
  destruct (digit_value c) as [d|] eqn:E; [|done]. apply IH.
  unfold digit_value, byte_in in E. destruct (Z.leb_spec 48 (byte_Z c)); [|done].
  destruct (Z.leb_spec (byte_Z c) 57); [|done]. simpl in E. injection E as <-. lia.
Qed.

Definition is_digit (c : ascii) : bool := byte_in 48 57 c.

Lemma digit_char_value d : 0 <= d < 10 -> digit_value (digit_char d) = Some d.
Proof.
  intros H. assert (d = 0 \/ d = 1 \/ d = 2 \/ d = 3 \/ d = 4 \/ d = 5 \/ d = 6 \/ d = 7
    \/ d = 8 \/ d = 9) as Hd by lia.
  by repeat destruct Hd as [->|Hd]; subst.
Qed.
Lemma digit_char_is_digit d : 0 <= d < 10 -> is_digit (digit_char d) = true.
Proof.
  intros H. pose proof (digit_char_value d H) as Hd. unfold digit_value in Hd.
  unfold is_digit. by destruct (byte_in 48 57 (digit_char d)).
Qed.

Lemma digits_fuel_parse fuel : forall n acc,
  0 <= n < 2 ^ Z.of_nat fuel -> (0 < fuel)%nat ->
  parse_digits 0 (digits_fuel fuel n acc) = parse_digits n acc.
Proof.
  induction fuel as [|f IH]; intros n acc Hn Hf; [lia|]. cbn [digits_fuel].
  pose proof (Z.mod_pos_bound n 10 ltac:(lia)) as Hm.
  destruct (Z.ltb_spec n 10) as [Hlt|Hge].
  { cbn [parse_digits]. rewrite digit_char_value by done.
    f_equal. rewrite Z.mod_small by lia. lia. }
  rewrite Nat2Z.inj_succ, Z.pow_succ_r in Hn by lia.
  assert (f <> 0%nat) by (intros ->; simpl in Hn; lia).
  rewrite IH; [|split; [apply Z.div_pos; lia|apply Z.div_lt_upper_bound; lia]|lia].
  cbn [parse_digits]. rewrite digit_char_value by done. f_equal.
  pose proof (Z.div_mod n 10). lia.
Qed.

Lemma digits_fuel_Forall fuel : forall n acc, 0 <= n ->
  Forall (fun c => is_digit c = true) acc ->
  Forall (fun c => is_digit c = true) (digits_fuel fuel n acc).
Proof.
  induction fuel as [|f IH]; intros n acc Hn Hacc; [done|]. cbn [digits_fuel].
  assert (Forall (fun c => is_digit c = true) (digit_char (n mod 10) :: acc)).
  { constructor; [apply digit_char_is_digit, Z.mod_pos_bound; lia|done]. }
  destruct (n <? 10); [done|]. apply IH; [apply Z.div_pos; lia|done].
Qed.

Lemma digits_fuel_nonempty fuel n acc : (0 < fuel)%nat -> digits_fuel fuel n acc <> [].
Proof.
  revert n acc; induction fuel as [|[|f] IH]; intros n acc Hf; [lia| |].
  { simpl. by destruct (n <? 10). }
  cbn [digits_fuel] in *. destruct (n <? 10); [done|]. apply IH. lia.
Qed.

Lemma format_uint_digits n : 0 <= n -> Forall (fun c => is_digit c = true) (format_uint n).
Proof. intros. by apply digits_fuel_Forall. Qed.
Lemma format_uint_nonempty n : format_uint n <> [].
Proof. apply digits_fuel_nonempty. lia. Qed.

Lemma format_uint_parse n : 0 <= n -> parse_unsigned (format_uint n) = Some n.
Proof.
  intros Hn. unfold parse_unsigned, format_uint.
  destruct (digits_fuel _ _ _) eqn:E; [by apply digits_fuel_nonempty in E; [|lia]|].
  rewrite <- E, digits_fuel_parse; [done| |lia].
  rewrite Nat2Z.inj_succ, Z2Nat.id by apply Z.log2_nonneg.
  destruct (Z.eq_dec n 0) as [->|]; [simpl; lia|].
  pose proof (Z.log2_spec n ltac:(lia)). lia.
Qed.

Lemma digit_not_sign (c : ascii) (l : list ascii) :
  is_digit c = true -> bytes_ParseInt (c :: l) = parse_unsigned (c :: l) ≫= in_int64.
Proof.
  intros Hc. unfold bytes_ParseInt.
  destruct (decide (c = "-"%char)) as [->|Hm]; [done|].
  destruct (decide (c = "+"%char)) as [->|Hp]; [done|].
  destruct c as [[] [] [] [] [] [] [] []]; done.
Qed.

(** Printing an [int64] with [%d] and reading it back with [strconv.ParseInt]. *)
Lemma format_int_parse z :
  min_int64 <= z <= max_int64 -> bytes_ParseInt (format_int z) = Some z.
Proof.
  intros Hz. unfold format_int. destruct (Z.ltb_spec z 0).
  - unfold bytes_ParseInt. rewrite format_uint_parse by lia. simpl.
    unfold in_int64. rewrite Z.opp_involutive.
    by rewrite (proj2 (Z.leb_le _ _)), (proj2 (Z.leb_le _ _)) by lia.
  - pose proof (format_uint_digits z ltac:(lia)) as HF.
    destruct (format_uint z) as [|c l] eqn:E; [by apply format_uint_nonempty in E|].
    apply Forall_cons in HF as [Hc _]. rewrite digit_not_sign by done.
    rewrite <- E, format_uint_parse by lia. simpl. unfold in_int64.
    by rewrite (proj2 (Z.leb_le _ _)), (proj2 (Z.leb_le _ _)) by lia.
Qed.

(** ** External calls and their failures

    A call to the database, Redis, FreeSWITCH or the message broker either takes
    effect and returns, fails without effect, or takes effect while its caller
    sees an error (a timeout after the server committed). The failures of a run
    are a script, one entry per call in order; past its end every call succeeds.
    Theorems quantify over the script. *)
Inductive fault : Type := FOk | FBefore (e : error) | FAfter (e : error).

Class HasFaults (W : Type) : Type := {
  get_faults : W -> list fault;
  set_faults : list fault -> W -> W;
}.

Definition ext {W} `{HasFaults W} {A} (op : W -> result A * W) (w : W) : result A * W :=
  match get_faults w with
  | [] => op w
  | FOk :: fs => op (set_faults fs w)
  | FBefore e :: fs => (inr e, set_faults fs w)
  | FAfter e :: fs => (inr e, snd (op (set_faults fs w)))
  end.

(** A property of the state that ignores the script and that the operation
    preserves is preserved by the call, whatever fails. *)
Lemma ext_preserves {W} `{HasFaults W} {A} (P : W -> Prop) (op : W -> result A * W) w :
  (forall fs w, P w -> P (set_faults fs w)) ->
  (forall w, P w -> P (snd (op w))) ->
  P w -> P (snd (ext op w)).
Proof.
  intros Hs Ho Hw. unfold ext. destruct (get_faults w) as [|[] fs]; simpl; auto.
Qed.

(** A call that returns a value took effect. *)
Lemma ext_ok {W} `{HasFaults W} {A} (op : W -> result A * W) w a w' :
  ext op w = (inl a, w') ->
  exists fs, op (match get_faults w with [] => w | _ => set_faults fs w end) = (inl a, w').
Proof.
  unfold ext. destruct (get_faults w) as [|[] fs]; try done; eauto.
  by exists [].
Qed.

(** ** State and errors

    A method that reads and writes the state [W] and may return an error: the
    state is kept when it fails, as the effects of a Go method are. [attempt]
    gives the caller the error to look at ([if err != nil]). *)
Definition M (W A : Type) : Type := W -> result A * W.

Definition ret {W A} (a : A) : M W A := fun w => (inl a, w).
Definition throw {W A} (e : error) : M W A := fun w => (inr e, w).
Definition bind {W A B} (m : M W A) (k : A -> M W B) : M W B :=
  fun w => match m w with (inl a, w1) => k a w1 | (inr e, w1) => (inr e, w1) end.
Definition attempt {W A} (m : M W A) : M W (result A) :=
  fun w => (inl (fst (m w)), snd (m w)).
Definition gets {W A} (f : W -> A) : M W A := fun w => (inl (f w), w).
Definition modify {W} (f : W -> W) : M W unit := fun w => (inl tt, f w).
Definition lift {W A} (r : result A) : M W A := fun w => (r, w).
Definition throw_if {W} (c : bool) (e : error) : M W unit := if c then throw e else ret tt.

Notation "'let!' x := m 'in' k" := (bind m (fun x => k))
  (at level 10, x name, m at level 100, k at level 200) : go_scope.
Notation "'let!' ' p := m 'in' k" := (bind m (fun p => k))
  (at level 10, p strict pattern, m at level 100, k at level 200) : go_scope.
Notation "m ';;' k" := (bind m (fun _ => k)) (at level 100, right associativity) : go_scope.

(** [wrap f m]: [m] with its error rewritten by [f] ([if err != nil { return f(err) }]). *)
Definition wrap {W A} (f : error -> error) (m : M W A) : M W A :=
  fun w => match m w with (inl a, w1) => (inl a, w1) | (inr e, w1) => (inr (f e), w1) end.

(** [m] keeps the property [P] of the state, whatever it returns. *)
Definition keeps {W A} (P : W -> Prop) (m : M W A) : Prop := forall w, P w -> P (snd (m w)).

Section Keeps.
Context {W : Type} (P : W -> Prop).

Lemma keeps_ret {A} (a : A) : keeps P (ret a).
Proof. by intros w Hw. Qed.
Lemma keeps_throw {A} e : keeps P (throw (A := A) e).
Proof. by intros w Hw. Qed.
Lemma keeps_lift {A} (r : result A) : keeps P (lift r).
Proof. by intros w Hw. Qed.
Lemma keeps_gets {A} (f : W -> A) : keeps P (gets f).
Proof. by intros w Hw. Qed.
Lemma keeps_throw_if c e : keeps P (throw_if c e).
Proof. destruct c; [apply keeps_throw|apply keeps_ret]. Qed.
Lemma keeps_modify f : (forall w, P w -> P (f w)) -> keeps P (modify f).
Proof. unfold keeps, modify. auto. Qed.
Lemma keeps_bind {A B} (m : M W A) (k : A -> M W B) :
  keeps P m -> (forall a, keeps P (k a)) -> keeps P (bind m k).
Proof.
  intros Hm Hk w Hw. specialize (Hm w Hw). unfold bind.
  destruct (m w) as [[a|e] w1]; [by apply Hk|done].
Qed.
Lemma keeps_attempt {A} (m : M W A) : keeps P m -> keeps P (attempt m).
Proof. intros Hm w Hw. simpl. auto. Qed.
Lemma keeps_wrap {A} f (m : M W A) : keeps P m -> keeps P (wrap f m).
Proof. intros Hm w Hw. specialize (Hm w Hw). unfold wrap. by destruct (m w) as [[]]. Qed.
Lemma keeps_if {A} (b : bool) (m1 m2 : M W A) :
  keeps P m1 -> keeps P m2 -> keeps P (if b then m1 else m2).
Proof. by destruct b. Qed.
End Keeps.

Create HintDb keeps discriminated.
#[export] Hint Resolve keeps_ret keeps_throw keeps_lift keeps_gets keeps_throw_if keeps_attempt
  keeps_wrap keeps_if : keeps.

(** Decompose a goal [keeps P m] along the structure of [m]. *)
Ltac keeps_step :=
  lazymatch goal with
  | |- keeps _ (bind _ _) => apply keeps_bind; [|intros ?]
  | |- keeps _ (attempt _) => apply keeps_attempt
  | |- keeps _ (wrap _ _) => apply keeps_wrap
  | |- keeps _ (if ?b then _ else _) => destruct b
  | |- keeps _ (match ?x with _ => _ end) => destruct x
  | |- keeps _ (let _ := _ in _) => cbv zeta
  | |- forall _, _ => intros ?
  end.
Ltac keeps_tac := repeat keeps_step; eauto with keeps.

Lemma wrap_snd {W A} f (m : M W A) w : snd (wrap f m w) = snd (m w).
Proof. unfold wrap. by destruct (m w) as [[]]. Qed.

Lemma bind_ok {W A B} (m : M W A) (k : A -> M W B) w b w' :
  bind m k w = (inl b, w') -> exists a w1, m w = (inl a, w1) /\ k a w1 = (inl b, w').
Proof. unfold bind. destruct (m w) as [[a|e] w1]; [eauto|done]. Qed.

Lemma bind_eq {W A B} (m : M W A) (k : A -> M W B) w a w1 :
  m w = (inl a, w1) -> bind m k w = k a w1.
Proof. unfold bind. by intros ->. Qed.
Lemma bind_err {W A B} (m : M W A) (k : A -> M W B) w e w1 :
  m w = (inr e, w1) -> bind m k w = (inr e, w1).
Proof. unfold bind. by intros ->. Qed.

(** ** Invariants of transition systems *)

Lemma rtc_invariant {S} (step : S -> S -> Prop) (P : S -> Prop) s s' :
  P s -> (forall a b, step a b -> P a -> P b) -> rtc step s s' -> P s'.
Proof. intros Hs Hstep H. revert Hs. induction H; eauto. Qed.

(** ** Lists *)

Lemma list_ascii_app (a b : string) :
  String.list_ascii_of_string (a +:+ b)
  = String.list_ascii_of_string a ++ String.list_ascii_of_string b.
Proof. induction a as [|c a IH]; simpl; [done|]. f_equal. exact IH. Qed.

Lemma list_filter_all {A} (P : A -> Prop) `{forall x, Decision (P x)} (l : list A) :
  Forall P l -> filter P l = l.
Proof.
  induction 1 as [|x l Hx _ IH]; [done|]. by rewrite filter_cons_True, IH.
Qed.
Lemma list_filter_none {A} (P : A -> Prop) `{forall x, Decision (P x)} (l : list A) :
  Forall (fun x => ~ P x) l -> filter P l = [].
Proof.
  induction 1 as [|x l Hx _ IH]; [done|]. by rewrite filter_cons_False, IH.
Qed.

Lemma length_concat_ge {A} (l : list (list A)) :
  Forall (fun x => (1 <= length x)%nat) l -> (length l <= length (concat l))%nat.
Proof. induction 1; simpl; [lia|]. rewrite length_app. lia. Qed.

(** Two members with the same key are equal when keys are distinct. *)
Lemma NoDup_key_inj {A B} (f : A -> B) (l : list A) x y :
  NoDup (f <$> l) -> x ∈ l -> y ∈ l -> f x = f y -> x = y.
Proof.
  intros Hnd [i Hi]%list_elem_of_lookup [j Hj]%list_elem_of_lookup Hf.
  assert (i = j) as ->; [|congruence].
  eapply (NoDup_lookup (f <$> l)); [done|rewrite list_lookup_fmap, Hi; done|].
  rewrite list_lookup_fmap, Hj. simpl. by rewrite Hf.
Qed.

(** ** Tables

    The rows of a table after a change: those that were there, or new ones as [ok]. *)
Definition rows_ok {K} `{Countable K} {A} (old new : gmap K A) (ok : K -> A -> Prop) : Prop :=
  forall k a, new !! k = Some a -> old !! k = Some a \/ ok k a.
Lemma rows_same {K} `{Countable K} {A} (m : gmap K A) ok : rows_ok m m ok.
Proof. by left. Qed.
Lemma rows_insert {K} `{Countable K} {A} (m : gmap K A) k a (ok : K -> A -> Prop) :
  ok k a -> rows_ok m (<[k := a]> m) ok.
Proof. intros Ha k' a'. destruct (decide (k' = k)) as [->|Hne]; [rewrite lookup_insert_eq|rewrite lookup_insert_ne by done]; naive_solver. Qed.

(** ** A concrete instance of the UUID interface

    Decimal names: what the examples instantiate the interface with. *)
Definition decimal_uuid : UuidLib := {|
  uuid_String := show_int;
  uuid_Parse s := match String.list_ascii_of_string s with
                  | "-"%char :: s' => Z.opp <$> parse_unsigned s'
                  | s' => parse_unsigned s'
                  end;
|}.

Lemma decimal_uuid_parse z : @uuid_Parse decimal_uuid (show_int z) = Some z.
Proof.
  simpl. unfold show_int, format_int. rewrite String.list_ascii_of_string_of_list_ascii.
  destruct (Z.ltb_spec z 0).
  - rewrite format_uint_parse by lia. simpl. f_equal. lia.
  - pose proof (format_uint_digits z ltac:(lia)) as HF.
    destruct (format_uint z) as [|c l] eqn:E; [by apply format_uint_nonempty in E|].
    apply Forall_cons in HF as [Hc _]. rewrite <- (format_uint_parse z), E by lia.
    destruct (decide (c = "-"%char)) as [->|Hm]; [done|].
    destruct c as [[] [] [] [] [] [] [] []]; done.
Qed.

#[export] Instance decimal_uuid_laws : UuidLaws decimal_uuid.
Proof.
  split.
  - intros a b Hab. apply (f_equal (@uuid_Parse decimal_uuid)) in Hab.
    rewrite !decimal_uuid_parse in Hab. congruence.
  - intros a Ha. apply (f_equal (@uuid_Parse decimal_uuid)) in Ha.
    rewrite decimal_uuid_parse in Ha. done.
  - apply decimal_uuid_parse.
  - done.
Qed.
