(* ===== verification/Programs.v ===== *)
(** * Programs as trees of external calls

    Code whose goroutines and processes share the database, an object store and
    a file system is modelled as a tree: what a call answers selects the rest of
    the program. A call is atomic, everything else may happen between two calls.
    [run] executes one program alone; [sys_step] interleaves any number of them
    with each other and with the environment, each call failing or not as the
    scheduler likes. [safe] is a rely-guarantee logic for these programs: what a
    program knows between two calls must be stable under the steps of others. *)

From S2P Require Import Prelude.
Local Open Scope Z_scope.

Module Programs.

(** [Call]: an external call, which may fail; [Local]: one that cannot, such as
    [time.Now] or [uuid.New]. *)
Inductive prog (S A : Type) : Type :=
| Return (r : result A)
| Call {X : Type} (f : S -> result X * S) (k : result X -> prog S A)
| Local {X : Type} (f : S -> X * S) (k : X -> prog S A).
Arguments Return {S A} r.
Arguments Call {S A X} f k.
Arguments Local {S A X} f k.

Fixpoint andthen {S A B} (p : prog S A) (k : result A -> prog S B) : prog S B :=
  match p with
  | Return r => k r
  | Call f h => Call f (fun x => andthen (h x) k)
  | Local f h => Local f (fun x => andthen (h x) k)
  end.

(** The error monad of Go methods, with [attempt] to look at an error. *)
Definition done_ {S A} (a : A) : prog S A := Return (inl a).
Definition raise {S A} (e : error) : prog S A := Return (inr e).
Definition lift_ {S A} (r : result A) : prog S A := Return r.
Definition seq {S A B} (p : prog S A) (k : A -> prog S B) : prog S B :=
  andthen p (fun r => match r with inl a => k a | inr e => Return (inr e) end).
Definition attempt_ {S A} (p : prog S A) : prog S (result A) :=
  andthen p (fun r => Return (inl r)).
Definition wrap_ {S A} (f : error -> error) (p : prog S A) : prog S A :=
  andthen p (fun r => Return match r with inl a => inl a | inr e => inr (f e) end).
Definition raise_if {S} (c : bool) (e : error) : prog S unit := if c then raise e else done_ tt.
Definition call {S X} (f : S -> result X * S) : prog S X := Call f Return.
Definition local {S X} (f : S -> X * S) : prog S X := Local f (fun x => Return (inl x)).

(** A statement that reads, and one that writes or fails. *)
Definition query {S A} (f : S -> result A) : prog S A := call (fun s => (f s, s)).
Definition exec {S A} (f : S -> result (A * S)) : prog S A :=
  call (fun s => match f s with inl (a, s') => (inl a, s') | inr e => (inr e, s) end).

Declare Scope prog_scope.
Delimit Scope prog_scope with prog.
Notation "'let*' x := m 'in' k" := (seq m (fun x => k))
  (at level 10, x name, m at level 100, k at level 200) : prog_scope.
Notation "'let*' ' p := m 'in' k" := (seq m (fun p => k))
  (at level 10, p strict pattern, m at level 100, k at level 200) : prog_scope.
Notation "m ';*' k" := (seq m (fun _ => k)) (at level 100, right associativity) : prog_scope.
#[global] Open Scope prog_scope.

(** [for _, item := range items { if err := f(item); err != nil { return err } }]. *)
Fixpoint for_each {S A} (f : A -> prog S unit) (l : list A) : prog S unit :=
  match l with
  | [] => done_ tt
  | a :: l' => f a ;* for_each f l'
  end.

(** ** One program alone, with a script of failures *)
Definition answer {S X} (f : S -> result X * S) (c : fault) (s : S) : result X * S :=
  match c with
  | FOk => f s
  | FBefore e => (inr e, s)
  | FAfter e => (inr e, snd (f s))
  end.
Fixpoint run {S A} (p : prog S A) (fs : list fault) (s : S) : result A * S :=
  match p with
  | Return r => (r, s)
  | Call f k => let (x, s') := answer f (default FOk (head fs)) s in run (k x) (tail fs) s'
  | Local f k => let (x, s') := f s in run (k x) fs s'
  end.

(** ** Systems of programs *)
Inductive tstep {S A} : prog S A -> S -> prog S A -> S -> Prop :=
| step_call {X} (f : S -> result X * S) k c s x s' :
    answer f c s = (x, s') -> tstep (Call f k) s (k x) s'
| step_local {X} (f : S -> X * S) k s x s' :
    f s = (x, s') -> tstep (Local f k) s (k x) s'.

Section System.
Context {S : Type}.
(** The programs that may be started, and the moves of everything else. *)
Context (ops : prog S unit -> Prop) (env : S -> S -> Prop).

Inductive sys_step : S * list (prog S unit) -> S * list (prog S unit) -> Prop :=
| sys_start p s ts : ops p -> sys_step (s, ts) (s, p :: ts)
| sys_env s s' ts : env s s' -> sys_step (s, ts) (s', ts)
| sys_run ts1 p ts2 s p' s' :
    tstep p s p' s' -> sys_step (s, ts1 ++ p :: ts2) (s', ts1 ++ p' :: ts2).

Definition reachable (s0 : S) : S * list (prog S unit) -> Prop := rtc sys_step (s0, []).
End System.

(** What is done with a result nobody looks at. *)
Definition forget {S A} (p : prog S A) : prog S unit := andthen p (fun _ => Return (inl tt)).

(** ** The logic *)
Section Logic.
Context {S : Type} (I : S -> Prop) (G : S -> S -> Prop).

(** No step of a system whose programs keep to [I] and [G] invalidates [P]. *)
Definition stable (P : S -> Prop) : Prop := forall s s', I s -> I s' -> G s s' -> P s -> P s'.

(** A step from [s] to [s'] that keeps the invariant and the guarantee. *)
Definition allowed (s s' : S) : Prop := I s' /\ G s s'.

Fixpoint safe {A} (p : prog S A) (P : S -> Prop) (Q : result A -> S -> Prop) : Prop :=
  match p with
  | Return r => forall s, I s -> P s -> Q r s
  | @Call _ _ X f k => exists R : result X -> S -> Prop,
      (forall x, stable (R x)) /\
      (forall s, I s -> P s ->
         allowed s (snd (f s)) /\ R (fst (f s)) (snd (f s)) /\
         forall e, R (inr e) s /\ R (inr e) (snd (f s))) /\
      forall x, safe (k x) (R x) Q
  | @Local _ _ X f k => exists R : X -> S -> Prop,
      (forall x, stable (R x)) /\
      (forall s, I s -> P s -> allowed s (snd (f s)) /\ R (fst (f s)) (snd (f s))) /\
      forall x, safe (k x) (R x) Q
  end.

Lemma safe_conseq {A} (p : prog S A) (P P' : S -> Prop) (Q Q' : result A -> S -> Prop) :
  safe p P Q -> (forall s, I s -> P' s -> P s) -> (forall r s, I s -> Q r s -> Q' r s) -> safe p P' Q'.
Proof.
  revert P P'. induction p as [r|X f k IH|X f k IH]; simpl; intros P P' Hp HP HQ.
  - eauto.
  - destruct Hp as (R & Hst & Hf & Hk). exists R. split_and!; [done|eauto|]. intros x. eapply IH; eauto.
  - destruct Hp as (R & Hst & Hf & Hk). exists R. split_and!; [done|eauto|]. intros x. eapply IH; eauto.
Qed.
Lemma safe_pre {A} (p : prog S A) (P P' : S -> Prop) Q :
  (forall s, I s -> P' s -> P s) -> safe p P Q -> safe p P' Q.
Proof. intros HP Hp. by eapply safe_conseq. Qed.

Lemma safe_andthen {A B} (p : prog S A) (k : result A -> prog S B) P Q R :
  safe p P R -> (forall r, safe (k r) (R r) Q) -> safe (andthen p k) P Q.
Proof.
  revert P. induction p as [r|X f h IH|X f h IH]; simpl; intros P Hp Hk.
  - by eapply safe_pre; [|apply Hk].
  - destruct Hp as (T & Hst & Hf & Hh). exists T. split_and!; [done|done|]. intros x. by apply IH.
  - destruct Hp as (T & Hst & Hf & Hh). exists T. split_and!; [done|done|]. intros x. by apply IH.
Qed.
Lemma safe_seq {A B} (p : prog S A) (k : A -> prog S B) P (R : A -> S -> Prop) (Q : result B -> S -> Prop) :
  safe p P (fun r s => match r with inl a => R a s | inr e => Q (inr e) s end) ->
  (forall a, safe (k a) (R a) Q) -> safe (seq p k) P Q.
Proof. intros Hp Hk. eapply safe_andthen; [exact Hp|]. intros [a|e]; [apply Hk|]. by simpl. Qed.
Lemma safe_attempt {A} (p : prog S A) P (Q : result (result A) -> S -> Prop) :
  safe p P (fun r => Q (inl r)) -> safe (attempt_ p) P Q.
Proof. intros Hp. eapply safe_andthen; [exact Hp|]. by simpl. Qed.
Lemma safe_wrap {A} f (p : prog S A) P (Q : result A -> S -> Prop) :
  safe p P (fun r => Q match r with inl a => inl a | inr e => inr (f e) end) -> safe (wrap_ f p) P Q.
Proof. intros Hp. eapply safe_andthen; [exact Hp|]. by simpl. Qed.

(** The rule of a call: a stable [R] for its answers. *)
Lemma safe_call {X} (f : S -> result X * S) P (R : result X -> S -> Prop) :
  (forall x, stable (R x)) ->
  (forall s, I s -> P s -> allowed s (snd (f s)) /\ R (fst (f s)) (snd (f s)) /\
     forall e, R (inr e) s /\ R (inr e) (snd (f s))) ->
  safe (call f) P R.
Proof. intros Hst Hf. exists R. split_and!; [done|done|]. by simpl. Qed.
Lemma safe_local {X} (f : S -> X * S) P (R : X -> S -> Prop) :
  (forall x, stable (R x)) ->
  (forall s, I s -> P s -> allowed s (snd (f s)) /\ R (fst (f s)) (snd (f s))) ->
  safe (local f) P (fun r s => match r with inl x => R x s | inr _ => False end).
Proof. intros Hst Hf. exists R. split_and!; [done|done|]. by simpl. Qed.

Lemma stable_True : stable (fun _ => True).
Proof. done. Qed.
Lemma stable_pure (P : Prop) : stable (fun _ => P).
Proof. by intros s s' _ _ _. Qed.
Lemma stable_and P Q : stable P -> stable Q -> stable (fun s => P s /\ Q s).
Proof. intros HP HQ s s' Hi Hi' Hg [? ?]. split; eauto. Qed.
Lemma stable_ex {X} (P : X -> S -> Prop) : (forall x, stable (P x)) -> stable (fun s => exists x, P x s).
Proof. intros HP s s' Hi Hi' Hg [x Hx]. exists x. by apply (HP x s s'). Qed.
Lemma stable_impl (P : Prop) Q : (P -> stable Q) -> stable (fun s => P -> Q s).
Proof. intros HQ s s' Hi Hi' Hg H HP. by eapply (HQ HP s s'), H. Qed.

(** A program that keeps to [I] and [G] without knowing anything. *)
Definition harmless {A} (p : prog S A) : Prop := safe p (fun _ => True) (fun _ _ => True).

Lemma harmless_safe {A} (p : prog S A) P : harmless p -> safe p P (fun _ _ => True).
Proof. intros Hp. by eapply safe_conseq. Qed.
Lemma harmless_return {A} (r : result A) : harmless (Return r).
Proof. done. Qed.
Lemma harmless_andthen {A B} (p : prog S A) (k : result A -> prog S B) :
  harmless p -> (forall r, harmless (k r)) -> harmless (andthen p k).
Proof. intros Hp Hk. by eapply safe_andthen; [exact Hp|]. Qed.
Lemma harmless_seq {A B} (p : prog S A) (k : A -> prog S B) :
  harmless p -> (forall a, harmless (k a)) -> harmless (seq p k).
Proof. intros Hp Hk. apply harmless_andthen; [done|]. by intros [a|e]. Qed.
Lemma harmless_call {X} (f : S -> result X * S) :
  (forall s, I s -> allowed s (snd (f s))) -> harmless (call f).
Proof. intros Hf. apply (safe_call f _ (fun _ _ => True)); [by intros|]. naive_solver. Qed.
Lemma harmless_local {X} (f : S -> X * S) :
  (forall s, I s -> allowed s (snd (f s))) -> harmless (local f).
Proof.
  intros Hf. eapply safe_conseq; [apply (safe_local f (fun _ => True) (fun _ _ => True))|done|done].
  - by intros.
  - naive_solver.
Qed.
Lemma harmless_for_each {A} (f : A -> prog S unit) l :
  (forall a, harmless (f a)) -> harmless (for_each f l).
Proof. intros Hf. induction l as [|a l IH]; [done|]. by apply harmless_seq. Qed.

(** *** Triples

    What holds before still holds after, together with what a result says. *)
Lemma safe_frame {A} (p : prog S A) P Q (F : S -> Prop) :
  stable F -> safe p P Q -> safe p (fun s => P s /\ F s) (fun r s => Q r s /\ F s).
Proof.
  intros HF. revert P. induction p as [r|X f k IH|X f k IH]; simpl; intros P Hp.
  - intros s Hi [HP HFs]. auto.
  - destruct Hp as (R & HR & Hf & Hk). exists (fun x s => R x s /\ F s). split_and!.
    + intros x. by apply stable_and.
    + intros s Hi [HP HFs]. destruct (Hf s Hi HP) as ([Hi' Hg] & Hr & He).
      assert (F (snd (f s))) by (by apply (HF s)). split; [by split|]. split; [done|].
      intros e. destruct (He e). done.
    + intros x. by apply IH.
  - destruct Hp as (R & HR & Hf & Hk). exists (fun x s => R x s /\ F s). split_and!.
    + intros x. by apply stable_and.
    + intros s Hi [HP HFs]. destruct (Hf s Hi HP) as ([Hi' Hg] & Hr).
      assert (F (snd (f s))) by (by apply (HF s)). by split; [split|].
    + intros x. by apply IH.
Qed.

Definition triple {A} (P : S -> Prop) (p : prog S A) (R : A -> S -> Prop) : Prop :=
  safe p P (fun r s => P s /\ match r with inl a => R a s | inr _ => True end).

Section Triples.
Context (P : S -> Prop).

Lemma triple_done {A} (a : A) (R : A -> S -> Prop) :
  (forall s, I s -> P s -> R a s) -> triple P (done_ a) R.
Proof. intros HR s Hi HP. auto. Qed.
Lemma triple_raise {A} e (R : A -> S -> Prop) : triple P (raise e) R.
Proof. by intros s Hi HP. Qed.
Lemma triple_lift {A} (r : result A) (R : A -> S -> Prop) :
  (forall a, r = inl a -> forall s, I s -> P s -> R a s) -> triple P (lift_ r) R.
Proof. intros HR s Hi HP. destruct r; auto. Qed.
Lemma triple_raise_if c e (R : unit -> S -> Prop) :
  (c = false -> forall s, I s -> P s -> R tt s) -> triple P (raise_if c e) R.
Proof. intros HR. destruct c; [apply triple_raise|]. apply triple_done. auto. Qed.
Lemma triple_seq {A B} (p : prog S A) (k : A -> prog S B) (R : A -> S -> Prop) (Q : B -> S -> Prop) :
  triple P p R -> (forall a, triple (fun s => P s /\ R a s) (k a) Q) -> triple P (seq p k) Q.
Proof.
  intros Hp Hk. eapply safe_andthen; [exact Hp|]. intros [a|e]; [|by intros s Hi []].
  eapply safe_conseq; [apply Hk|done|]. by intros r s Hi [[]].
Qed.
Lemma triple_attempt {A} (p : prog S A) (R : A -> S -> Prop) :
  triple P p R -> triple P (attempt_ p) (fun r s => match r with inl a => R a s | inr _ => True end).
Proof. intros Hp. apply safe_attempt. exact Hp. Qed.
Lemma triple_wrap {A} f (p : prog S A) (R : A -> S -> Prop) : triple P p R -> triple P (wrap_ f p) R.
Proof. intros Hp. apply safe_wrap. eapply safe_conseq; [exact Hp|done|]. by intros [a|e]. Qed.
Lemma triple_post {A} (p : prog S A) (R R' : A -> S -> Prop) :
  triple P p R -> (forall a s, I s -> P s -> R a s -> R' a s) -> triple P p R'.
Proof. intros Hp HR. eapply safe_conseq; [exact Hp|done|]. intros [a|e] s Hi []; auto. Qed.

(** A fact that follows from what holds before may be used. *)
Lemma safe_false {A} (p : prog S A) Q : safe p (fun _ => False) Q.
Proof.
  induction p as [r|X f k IH|X f k IH]; simpl; [done| |].
  - exists (fun _ _ => False). split_and!; [by intros x s s'|done|done].
  - exists (fun _ _ => False). split_and!; [by intros x s s'|done|done].
Qed.
Lemma triple_fact {A} (F : Prop) `{!Decision F} (p : prog S A) (R : A -> S -> Prop) :
  (forall s, I s -> P s -> F) -> (F -> triple P p R) -> triple P p R.
Proof.
  intros HF Hp. destruct (decide F) as [HF'|HF']; [by apply Hp|].
  eapply safe_pre; [|apply safe_false]. intros s Hi HPs. by apply HF', (HF s).
Qed.

Context (HP : stable P).
Lemma triple_pre {A} (P0 : S -> Prop) (p : prog S A) (R : A -> S -> Prop) :
  (forall s, I s -> P s -> P0 s) -> triple P0 p R -> triple P p R.
Proof.
  intros H0 Hp. eapply safe_conseq; [exact (safe_frame _ _ _ P HP Hp)| |].
  - intros s Hi HPs. by split; [apply H0|].
  - by intros r s Hi [[]].
Qed.
Lemma triple_call {X} (f : S -> result X * S) (R : X -> S -> Prop) :
  (forall x, stable (R x)) ->
  (forall s, I s -> P s -> allowed s (snd (f s)) /\ forall x, fst (f s) = inl x -> R x (snd (f s))) ->
  triple P (call f) R.
Proof.
  intros HR Hf. apply safe_call.
  - intros x. apply stable_and; [done|]. destruct x; [apply HR|apply stable_pure].
  - intros s Hi HPs. destruct (Hf s Hi HPs) as [[Hi' Hg] Hr].
    assert (P (snd (f s))) by (by apply (HP s)). split; [by split|]. split; [|done].
    split; [done|]. destruct (fst (f s)) as [x|e]; auto.
Qed.
Lemma triple_local {X} (f : S -> X * S) (R : X -> S -> Prop) :
  (forall x, stable (R x)) ->
  (forall s, I s -> P s -> allowed s (snd (f s)) /\ R (fst (f s)) (snd (f s))) -> triple P (local f) R.
Proof.
  intros HR Hf. eapply safe_conseq; [apply (safe_local f P (fun x s => P s /\ R x s))|done|by intros [a|e] s Hi].
  - intros x. by apply stable_and.
  - intros s Hi HPs. destruct (Hf s Hi HPs) as [[Hi' Hg] Hr].
    split; [by split|]. split; [by apply (HP s)|done].
Qed.
Lemma triple_exec (G_refl : forall s, G s s) {X} (f : S -> result (X * S)) (R : X -> S -> Prop) :
  (forall x, stable (R x)) ->
  (forall s x s', I s -> P s -> f s = inl (x, s') -> allowed s s' /\ R x s') -> triple P (exec f) R.
Proof.
  intros HR Hf. apply triple_call; [done|]. intros s Hi HPs.
  destruct (f s) as [[x s']|e] eqn:Hfs; simpl.
  - destruct (Hf _ _ _ Hi HPs Hfs) as [Hok HRx]. split; [done|]. by intros y [= <-].
  - split; [by split|done].
Qed.
Lemma triple_query (G_refl : forall s, G s s) {X} (f : S -> result X) (R : X -> S -> Prop) :
  (forall x, stable (R x)) -> (forall s x, I s -> P s -> f s = inl x -> R x s) -> triple P (query f) R.
Proof. intros HR Hf. apply triple_call; [done|]. intros s Hi HPs. split; [by split|]. simpl. eauto. Qed.
Lemma triple_for_each {A} (f : A -> prog S unit) l :
  (forall a, a ∈ l -> triple P (f a) (fun _ _ => True)) -> triple P (for_each f l) (fun _ _ => True).
Proof.
  induction l as [|a l IH]; intros Hf; simpl; [by apply triple_done|].
  eapply triple_seq; [apply Hf; left|]. intros []. eapply safe_conseq; [apply IH| |].
  - intros x Hx. apply Hf. by right.
  - by intros s Hi [].
  - by intros [u|e] s Hi [].
Qed.
End Triples.
Lemma triple_harmless {A} (p : prog S A) (R : A -> S -> Prop) : triple (fun _ => True) p R -> harmless p.
Proof. intros Hp. eapply safe_conseq; [exact Hp|done|done]. Qed.

(** ** Soundness *)
Definition thread_ok (s : S) (p : prog S unit) : Prop :=
  exists P, stable P /\ P s /\ safe p P (fun _ _ => True).

Context (G_refl : forall s, G s s).

Lemma tstep_safe (p : prog S unit) s p' s' :
  tstep p s p' s' -> I s -> thread_ok s p -> I s' /\ G s s' /\ thread_ok s' p'.
Proof.
  intros Hs Hi (P & HP & Hps & Hsafe). destruct Hs as [X f k c s x s' Hx|X f k s x s' Hx]; simpl in Hsafe.
  - destruct Hsafe as (R & HR & Hf & Hk). destruct (Hf s Hi Hps) as ([Hi' Hg] & Hr & He).
    destruct c as [|e|e]; simpl in Hx.
    + rewrite Hx in *. simpl in *. split_and!; [done..|]. by exists (R x).
    + simplify_eq. split_and!; [done|done|]. exists (R (inr e)). split_and!; [done|apply He|done].
    + simplify_eq. split_and!; [done..|]. exists (R (inr e)). split_and!; [done|apply He|done].
  - destruct Hsafe as (R & HR & Hf & Hk). destruct (Hf s Hi Hps) as ([Hi' Hg] & Hr).
    rewrite Hx in *. simpl in *. split_and!; [done..|]. by exists (R x).
Qed.

Lemma thread_ok_stable s s' p : I s -> I s' -> G s s' -> thread_ok s p -> thread_ok s' p.
Proof. intros Hi Hi' Hg (P & HP & Hps & Hp). exists P. split_and!; [done|by apply (HP s s')|done]. Qed.

Definition sys_ok (c : S * list (prog S unit)) : Prop := I (fst c) /\ Forall (thread_ok (fst c)) (snd c).

Context (ops : prog S unit -> Prop) (env : S -> S -> Prop).
Context (ops_harmless : forall p, ops p -> harmless p).
Context (env_allowed : forall s s', I s -> env s s' -> allowed s s').

Lemma sys_step_ok c c' : sys_ok c -> sys_step ops env c c' -> sys_ok c' /\ G (fst c) (fst c').
Proof.
  intros [Hi Hts] Hs. destruct Hs as [p s ts Hp|s s' ts He|ts1 p ts2 s p' s' Hs]; simpl in *.
  - split; [|done]. split; [done|]. constructor; [|done]. exists (fun _ => True).
    split_and!; [apply stable_True|done|by apply ops_harmless].
  - destruct (env_allowed _ _ Hi He) as [Hi' Hg]. split; [|done]. split; [done|].
    eapply Forall_impl; [exact Hts|]. intros p. by apply thread_ok_stable.
  - apply Forall_app in Hts as [H1 [Hp H2]%Forall_cons].
    destruct (tstep_safe _ _ _ _ Hs Hi Hp) as (Hi' & Hg & Hp'). split; [|done]. split; [done|]. simpl.
    apply Forall_app. split; [|constructor; [done|]]; (eapply Forall_impl; [eassumption|]); intros q;
      by apply thread_ok_stable.
Qed.

(** Every reachable state satisfies the invariant, and every step from it the
    guarantee. *)
Theorem reachable_ok s0 c : I s0 -> reachable ops env s0 c -> sys_ok c.
Proof.
  intros Hi Hr. eapply (rtc_invariant _ sys_ok (s0, [])); [split; [exact Hi|constructor]| |exact Hr].
  intros a b Hs Ha. exact (proj1 (sys_step_ok a b Ha Hs)).
Qed.
Theorem reachable_moves s0 c c' :
  I s0 -> reachable ops env s0 c -> sys_step ops env c c' -> G (fst c) (fst c').
Proof. intros Hi Hr Hs. exact (proj2 (sys_step_ok c c' (reachable_ok s0 c Hi Hr) Hs)). Qed.
End Logic.

(** ** A program alone is one schedule of the system *)
Lemma run_steps {S} (ops : prog S unit -> Prop) env (p : prog S unit) fs s r s' ts :
  run p fs s = (r, s') ->
  rtc (sys_step ops env) (s, p :: ts) (s', Return r :: ts).
Proof.
  revert fs s. induction p as [q|X f k IH|X f k IH]; simpl; intros fs s Hr.
  - by simplify_eq.
  - destruct (answer f (default FOk (head fs)) s) as [x s1] eqn:Ha.
    eapply rtc_l; [|by eapply IH]. by apply (sys_run _ _ []), (step_call f k (default FOk (head fs))).
  - destruct (f s) as [x s1] eqn:Ha.
    eapply rtc_l; [|by eapply IH]. by apply (sys_run _ _ []), step_local.
Qed.

(** Alone, with failures, a program that keeps to a guarantee changes the state
    only as the guarantee says. *)
Lemma run_safe {S A} (I : S -> Prop) (G : S -> S -> Prop) `{!PreOrder G} (p : prog S A) P Q fs s r s' :
  safe I G p P Q -> I s -> P s -> run p fs s = (r, s') -> I s' /\ G s s' /\ Q r s'.
Proof.
  revert P fs s. induction p as [q|X f k IH|X f k IH]; simpl; intros P fs s Hp Hi HPs Hr.
  - simplify_eq. split_and!; [done|reflexivity|by apply Hp].
  - destruct Hp as (R & HR & Hf & Hk). destruct (Hf s Hi HPs) as ([Hi' Hg] & Hx & He).
    assert (exists x s1, answer f (default FOk (head fs)) s = (x, s1) /\ I s1 /\ G s s1 /\ R x s1)
      as (x & s1 & Ha & Hi1 & Hg1 & HR1).
    { destruct (default FOk (head fs)); simpl; [|by exists (inr e), s; split_and!; [..|reflexivity|apply He]|].
      - exists (fst (f s)), (snd (f s)). by destruct (f s).
      - exists (inr e), (snd (f s)). split_and!; [done..|apply He]. }
    rewrite Ha in Hr. destruct (IH x (R x) _ _ (Hk x) Hi1 HR1 Hr) as (? & ? & ?).
    split_and!; [done|by etrans|done].
  - destruct Hp as (R & HR & Hf & Hk). destruct (Hf s Hi HPs) as ([Hi' Hg] & Hx).
    destruct (f s) as [x s1]. simpl in *. destruct (IH x (R x) _ _ (Hk x) Hi' Hx Hr) as (? & ? & ?).
    split_and!; [done|by etrans|done].
Qed.

(** Its result is as the logic says, whatever the guarantee is. *)
Lemma run_post {S A} (I : S -> Prop) (G : S -> S -> Prop) (p : prog S A) P Q fs s r s' :
  safe I G p P Q -> I s -> P s -> run p fs s = (r, s') -> I s' /\ Q r s'.
Proof.
  revert P fs s. induction p as [q|X f k IH|X f k IH]; simpl; intros P fs s Hp Hi HPs Hr.
  - simplify_eq. split; [done|by apply Hp].
  - destruct Hp as (R & HR & Hf & Hk). destruct (Hf s Hi HPs) as ([Hi' _] & Hx & He).
    destruct (answer f (default FOk (head fs)) s) as [x s1] eqn:Ha.
    assert (I s1 /\ R x s1) as [Hi1 HR1]; [|exact (IH x (R x) _ _ (Hk x) Hi1 HR1 Hr)].
    destruct (default FOk (head fs)) as [|e|e]; simpl in Ha; simplify_eq.
    + by rewrite Ha in Hi', Hx.
    + split; [done|apply He].
    + split; [done|apply He].
  - destruct Hp as (R & HR & Hf & Hk). destruct (Hf s Hi HPs) as ([Hi' _] & Hx).
    destruct (f s) as [x s1]. exact (IH x (R x) _ _ (Hk x) Hi' Hx Hr).
Qed.

(** *** Running sequences *)
Lemma run_andthen {S A B} (p : prog S A) (k : result A -> prog S B) s :
  run (andthen p k) [] s = let (r, s') := run p [] s in run (k r) [] s'.
Proof.
  revert s. induction p as [q|X f h IH|X f h IH]; simpl; intros s; [done| |].
  - destruct (f s) as [x s1]. apply IH.
  - destruct (f s) as [x s1]. apply IH.
Qed.
Lemma run_seq {S A B} (p : prog S A) (k : A -> prog S B) s :
  run (seq p k) [] s =
    match run p [] s with (inl a, s') => run (k a) [] s' | (inr e, s') => (inr e, s') end.
Proof. unfold seq. rewrite run_andthen. by destruct (run p [] s) as [[a|e] s']. Qed.
Lemma run_wrap {S A} f (p : prog S A) s :
  run (wrap_ f p) [] s =
    match run p [] s with (inl a, s') => (inl a, s') | (inr e, s') => (inr (f e), s') end.
Proof. unfold wrap_. rewrite run_andthen. by destruct (run p [] s) as [[a|e] s']. Qed.
Lemma run_attempt {S A} (p : prog S A) s :
  run (attempt_ p) [] s = let (r, s') := run p [] s in (inl r, s').
Proof. unfold attempt_. rewrite run_andthen. by destruct (run p [] s) as [[a|e] s']. Qed.
Lemma run_call {S X} (f : S -> result X * S) s : run (call f) [] s = f s.
Proof. simpl. by destruct (f s). Qed.
End Programs.
