(* ===== verification/Json.v ===== *)
(** * JSON text, as [encoding/json] accepts it

    The byte-driven scanner of the Go standard library ([json.Valid], and the
    check [json.Unmarshal] makes first), with its stack of open objects and
    arrays and its limit on nesting; on top of it, what the server asks of raw
    JSON: whether it is an object. *)

From S2P Require Import Prelude.

Module Json.

(** What the scanner is inside of. *)
Inductive open := ObjectKey | ObjectValue | ArrayValue.
#[export] Instance open_eq_dec : EqDecision open.
Proof. solve_decision. Defined.

(** The scanner's [step] functions. *)
Inductive state :=
| BeginValueOrEmpty | BeginValue | BeginStringOrEmpty | BeginString | EndValue | EndTop
| InString | InStringEsc | InStringEscU (digits : nat)
| Neg | Int1 | Int0 | Dot | Dot0 | Exp | ExpSign | Exp0
| Literal (rest : list ascii).
#[export] Instance state_eq_dec : EqDecision state.
Proof. solve_decision. Defined.

Record scanner := { step : state; stack : list open }.
#[export] Instance scanner_eq_dec : EqDecision scanner.
Proof. solve_decision. Defined.

Definition maxNestingDepth : Z := 10000.
Definition depth (sc : scanner) : Z := Z.of_nat (length (stack sc)).
Definition reset : scanner := {| step := BeginValue; stack := [] |}.
Definition goto (s : state) (sc : scanner) : option scanner := Some {| step := s; stack := stack sc |}.
Definition push (s : state) (o : open) (sc : scanner) : option scanner :=
  if depth sc + 1 <=? maxNestingDepth
  then Some {| step := s; stack := o :: stack sc |} else None.
Definition pop (sc : scanner) : option scanner :=
  match stack sc with
  | _ :: [] | [] => Some {| step := EndTop; stack := [] |}
  | _ :: rest => Some {| step := EndValue; stack := rest |}
  end.

(** The scanner's own blanks: space, tab, carriage return, line feed. *)
Definition isSpace (c : ascii) : bool := byte_is 32 c || byte_is 9 c || byte_is 13 c || byte_is 10 c.
Definition is_char (a c : ascii) : bool := bool_decide (a = c).
Definition is_hex (c : ascii) : bool := byte_in 48 57 c || byte_in 97 102 c || byte_in 65 70 c.

(** [stateEndTop], [stateEndValue] and the other step functions. *)
Definition endTop (c : ascii) (sc : scanner) : option scanner :=
  if isSpace c then Some {| step := EndTop; stack := stack sc |} else None.
Definition endValue (c : ascii) (sc : scanner) : option scanner :=
  match stack sc with
  | [] => endTop c sc
  | top :: rest =>
      if isSpace c then goto EndValue sc else
      match top with
      | ObjectKey =>
          if is_char ":" c then Some {| step := BeginValue; stack := ObjectValue :: rest |} else None
      | ObjectValue =>
          if is_char "," c then Some {| step := BeginString; stack := ObjectKey :: rest |}
          else if is_char "}" c then pop sc else None
      | ArrayValue =>
          if is_char "," c then goto BeginValue sc
          else if is_char "]" c then pop sc else None
      end
  end.
Definition beginValue (c : ascii) (sc : scanner) : option scanner :=
  if isSpace c then goto (step sc) sc
  else if is_char "{" c then push BeginStringOrEmpty ObjectKey sc
  else if is_char "[" c then push BeginValueOrEmpty ArrayValue sc
  else if is_char dquote c then goto InString sc
  else if is_char "-" c then goto Neg sc
  else if is_char "0" c then goto Int0 sc
  else if is_char "t" c then goto (Literal (bytes "rue")) sc
  else if is_char "f" c then goto (Literal (bytes "alse")) sc
  else if is_char "n" c then goto (Literal (bytes "ull")) sc
  else if byte_in 49 57 c then goto Int1 sc
  else None.
Definition beginString (c : ascii) (sc : scanner) : option scanner :=
  if isSpace c then goto (step sc) sc else if is_char dquote c then goto InString sc else None.
Definition is_exp (c : ascii) : bool := is_char "e" c || is_char "E" c.

Definition scan (c : ascii) (sc : scanner) : option scanner :=
  match step sc with
  | BeginValueOrEmpty =>
      if isSpace c then goto BeginValueOrEmpty sc
      else if is_char "]" c then endValue c sc else beginValue c sc
  | BeginValue => beginValue c sc
  | BeginStringOrEmpty =>
      if isSpace c then goto BeginStringOrEmpty sc
      else if is_char "}" c
      then endValue c {| step := EndValue; stack := ObjectValue :: tail (stack sc) |}
      else beginString c sc
  | BeginString => beginString c sc
  | EndValue => endValue c sc
  | EndTop => endTop c sc
  | InString =>
      if is_char dquote c then goto EndValue sc
      else if is_char "\" c then goto InStringEsc sc
      else if byte_Z c <? 32 then None else goto InString sc
  | InStringEsc =>
      if existsb (fun x => is_char x c) [dquote; "b"%char; "f"%char; "n"%char; "r"%char; "t"%char;
                                         "\"%char; "/"%char] then goto InString sc
      else if is_char "u" c then goto (InStringEscU 3) sc else None
  | InStringEscU n =>
      if is_hex c then goto (match n with O => InString | S n' => InStringEscU n' end) sc else None
  | Neg =>
      if is_char "0" c then goto Int0 sc else if byte_in 49 57 c then goto Int1 sc else None
  | Int1 | Int0 =>
      if bool_decide (step sc = Int1) && is_digit c then goto Int1 sc
      else if is_char "." c then goto Dot sc
      else if is_exp c then goto Exp sc else endValue c sc
  | Dot => if is_digit c then goto Dot0 sc else None
  | Dot0 =>
      if is_digit c then goto Dot0 sc else if is_exp c then goto Exp sc else endValue c sc
  | Exp =>
      if is_char "+" c || is_char "-" c then goto ExpSign sc
      else if is_digit c then goto Exp0 sc else None
  | ExpSign => if is_digit c then goto Exp0 sc else None
  | Exp0 => if is_digit c then goto Exp0 sc else endValue c sc
  | Literal (a :: rest) =>
      if is_char a c then goto (match rest with [] => EndValue | _ => Literal rest end) sc else None
  | Literal [] => None
  end.

Fixpoint scan_all (b : list ascii) (sc : scanner) : option scanner :=
  match b with [] => Some sc | c :: b' => scan c sc ≫= scan_all b' end.
(** The end of the input counts as a blank. *)
Definition eof (sc : scanner) : bool :=
  match scan " " sc with Some sc' => bool_decide (step sc' = EndTop) | None => false end.
(** [json.Valid]. *)
Definition Valid (b : list ascii) : bool :=
  match scan_all b reset with Some sc => eof sc | None => false end.

Fixpoint first_byte (b : list ascii) : option ascii :=
  match b with [] => None | c :: b' => if isSpace c then first_byte b' else Some c end.

(** [json.Unmarshal] into a [map[string]json.RawMessage] gives a map for an
    object, leaves the nil map for [null] and fails otherwise. *)
Inductive unmarshalled := IsObject | IsNull | IsError.
Definition Unmarshal_map (b : list ascii) : unmarshalled :=
  if Valid b then
    match first_byte b with
    | Some c => if is_char "{" c then IsObject else if is_char "n" c then IsNull else IsError
    | None => IsError
    end
  else IsError.
Definition is_object (b : list ascii) : bool :=
  match Unmarshal_map b with IsObject => true | _ => false end.

(** ** Facts *)

Lemma scan_all_app b1 b2 sc : scan_all (b1 ++ b2) sc = scan_all b1 sc ≫= scan_all b2.
Proof.
  revert sc; induction b1 as [|c b1 IH]; intros sc; simpl; [done|].
  destruct (scan c sc); simpl; [apply IH|done].
Qed.
Lemma is_object_valid b : is_object b = true -> Valid b = true.
Proof. unfold is_object, Unmarshal_map. by destruct (Valid b). Qed.
Lemma is_object_nonempty b : is_object b = true -> b <> [].
Proof. by intros H ->. Qed.

End Json.
