(* ===== verification/MediaSession.v ===== *)
(** * Media sessions: formats, configuration, queues and metrics

    [server/internal/media/session]: [session.go] (formats, frames, session
    configuration, events and commands), [queue.go] (the bounded audio queue and
    its use by several goroutines) and [metrics.go]. The manager of sessions is
    [MediaManager.v], the goroutines that move audio are [MediaPump.v]. *)

From S2P Require Import Prelude Json.

Module MediaSession.

(** ** Formats and frames *)
Definition EngineEcho : string := "echo".
Definition EngineComposable : string := "composable".
Definition EngineIntegrated : string := "integrated".

Record AudioFormat := { SampleRateHz : Z; Channels : Z }.
#[export] Instance AudioFormat_eq_dec : EqDecision AudioFormat.
Proof. solve_decision. Defined.
Record EngineProfile := { prf_Input : AudioFormat; prf_Output : AudioFormat }.
Record AudioFrame := { fr_Data : list ascii; fr_Format : AudioFormat; fr_CapturedAt : Z }.
Record ConnectionMetadata := {
  cm_SessionID : UUID; cm_CallID : UUID; cm_ChannelID : UUID; cm_OrganizationID : UUID;
  cm_Format : AudioFormat;
}.

Definition AudioFormat_Validate (f : AudioFormat) : result unit :=
  if negb (existsb (Z.eqb (SampleRateHz f)) [8000; 16000; 24000; 48000])
  then inr (Errorf "unsupported sample rate %d Hz" [show_int (SampleRateHz f)]) else
  if negb (Channels f =? 1)
  then inr (Errorf "unsupported channel count %d" [show_int (Channels f)]) else inl tt.

Definition ProfileForEngine (engine : string) : result EngineProfile :=
  if bool_decide (engine = EngineEcho) || bool_decide (engine = EngineComposable) then
    let format := {| SampleRateHz := 16000; Channels := 1 |} in
    inl {| prf_Input := format; prf_Output := format |}
  else if bool_decide (engine = EngineIntegrated) then
    let format := {| SampleRateHz := 24000; Channels := 1 |} in
    inl {| prf_Input := format; prf_Output := format |}
  else inr (Errorf "unsupported media engine %q" [engine]).

Definition data_len (f : AudioFrame) : Z := Z.of_nat (length (fr_Data f)).
Definition AudioFrame_Validate (f : AudioFrame) : result unit :=
  let? _ := AudioFormat_Validate (fr_Format f) in
  if data_len f =? 0 then inr (Errorf "audio frame is empty" []) else
  if negb (Z.rem (data_len f) 2 =? 0)
  then inr (Errorf "PCM16 audio frame has odd byte length %d" [show_int (data_len f)]) else inl tt.

(** [AudioFrame.Duration], in [int64] arithmetic. *)
Definition Duration (f : AudioFrame) : Z :=
  if (SampleRateHz (fr_Format f) <=? 0) || (Channels (fr_Format f) <=? 0) || (data_len f =? 0)
  then 0 else
  let samples := go_div (data_len f) (int64 (2 * Channels (fr_Format f))) in
  go_div (int64 (samples * Second)) (SampleRateHz (fr_Format f)).

(** ** Session configuration *)
Record ProviderRuntime := {
  pr_Role : string; pr_Provider : string; pr_APIKey : string; pr_Config : list ascii;
}.
Record ToolDefinition := {
  td_ID : UUID; td_Name : string; td_Description : string; td_Parameters : list ascii;
}.
Record ToolResult := { tr_ToolCallID : string; tr_Name : string; tr_Content : string; tr_IsError : bool }.
Record Config := {
  cfg_ID : UUID; cfg_OrganizationID : UUID; cfg_CallID : UUID; cfg_ChannelID : UUID;
  cfg_Engine : string; cfg_InputFormat : AudioFormat; cfg_OutputFormat : AudioFormat;
  cfg_Language : string; cfg_Instructions : string; cfg_Voice : string;
  cfg_EngineConfig : list ascii; cfg_Tools : list ToolDefinition;
  cfg_Providers : list ProviderRuntime;
}.
#[export] Instance ProviderRuntime_eq_dec : EqDecision ProviderRuntime.
Proof. solve_decision. Defined.
#[export] Instance ToolDefinition_eq_dec : EqDecision ToolDefinition.
Proof. solve_decision. Defined.

(** The loops over providers and tools; [seen] is the map of the roles, or names,
    met so far. *)
Fixpoint validate_providers (seen : gset string) (l : list ProviderRuntime) : result unit :=
  match l with
  | [] => inl tt
  | p :: l' =>
      if bool_decide (pr_Role p = "") || bool_decide (pr_Provider p = "") || bool_decide (pr_APIKey p = "")
      then inr (Errorf "media provider role, provider, and api_key are required" []) else
      if bool_decide (pr_Role p ∈ seen)
      then inr (Errorf "duplicate media provider role %q" [pr_Role p]) else
      if negb (bool_decide (pr_Config p = [])) && negb (Json.is_object (pr_Config p))
      then inr (Errorf "media provider %q config must be a JSON object" [pr_Role p]) else
      validate_providers ({[pr_Role p]} ∪ seen) l'
  end.
Fixpoint validate_tools (seen : gset string) (l : list ToolDefinition) : result unit :=
  match l with
  | [] => inl tt
  | t :: l' =>
      if bool_decide (td_ID t = uuid_Nil) || bool_decide (td_Name t = "")
      then inr (Errorf "media tool id and name are required" []) else
      if bool_decide (td_Name t ∈ seen)
      then inr (Errorf "duplicate media tool name %q" [td_Name t]) else
      if negb (Json.is_object (td_Parameters t))
      then inr (Errorf "media tool %q parameters must be a JSON object" [td_Name t]) else
      validate_tools ({[td_Name t]} ∪ seen) l'
  end.

Definition Config_Validate (c : Config) : result unit :=
  if bool_decide (cfg_ID c = uuid_Nil) then inr (Errorf "session id is required" []) else
  if bool_decide (cfg_OrganizationID c = uuid_Nil) then inr (Errorf "organization id is required" []) else
  if bool_decide (cfg_CallID c = uuid_Nil) then inr (Errorf "call id is required" []) else
  if bool_decide (cfg_ChannelID c = uuid_Nil) then inr (Errorf "channel id is required" []) else
  let? profile := ProfileForEngine (cfg_Engine c) in
  match AudioFormat_Validate (cfg_InputFormat c) with
  | inr e => inr (Wrapf "input format: %w" [] e)
  | inl _ =>
  match AudioFormat_Validate (cfg_OutputFormat c) with
  | inr e => inr (Wrapf "output format: %w" [] e)
  | inl _ =>
  if negb (bool_decide (cfg_InputFormat c = prf_Input profile))
     || negb (bool_decide (cfg_OutputFormat c = prf_Output profile))
  then inr (Errorf "media engine %q requires input %+v and output %+v" [cfg_Engine c]) else
  if negb (bool_decide (cfg_EngineConfig c = [])) && negb (Json.is_object (cfg_EngineConfig c))
  then inr (Errorf "engine config must be a JSON object" []) else
  let? _ := validate_providers ∅ (cfg_Providers c) in
  validate_tools ∅ (cfg_Tools c)
  end end.

(** [Config.Equal] and its two loops. *)
Fixpoint toolDefinitionsEqual (left right : list ToolDefinition) : bool :=
  match left, right with
  | [], [] => true
  | l :: left', r :: right' =>
      bool_decide (td_ID l = td_ID r) && bool_decide (td_Name l = td_Name r)
      && bool_decide (td_Description l = td_Description r)
      && bool_decide (td_Parameters l = td_Parameters r) && toolDefinitionsEqual left' right'
  | _, _ => false
  end.
Fixpoint providerRuntimesEqual (left right : list ProviderRuntime) : bool :=
  match left, right with
  | [], [] => true
  | l :: left', r :: right' =>
      bool_decide (pr_Role l = pr_Role r) && bool_decide (pr_Provider l = pr_Provider r)
      && bool_decide (pr_APIKey l = pr_APIKey r)
      && bool_decide (pr_Config l = pr_Config r) && providerRuntimesEqual left' right'
  | _, _ => false
  end.
Definition Config_Equal (c other : Config) : bool :=
  bool_decide (cfg_ID c = cfg_ID other)
  && bool_decide (cfg_OrganizationID c = cfg_OrganizationID other)
  && bool_decide (cfg_CallID c = cfg_CallID other)
  && bool_decide (cfg_ChannelID c = cfg_ChannelID other)
  && bool_decide (cfg_Engine c = cfg_Engine other)
  && bool_decide (cfg_InputFormat c = cfg_InputFormat other)
  && bool_decide (cfg_OutputFormat c = cfg_OutputFormat other)
  && bool_decide (cfg_Language c = cfg_Language other)
  && bool_decide (cfg_Instructions c = cfg_Instructions other)
  && bool_decide (cfg_Voice c = cfg_Voice other)
  && bool_decide (cfg_EngineConfig c = cfg_EngineConfig other)
  && toolDefinitionsEqual (cfg_Tools c) (cfg_Tools other)
  && providerRuntimesEqual (cfg_Providers c) (cfg_Providers other).
Fixpoint find_provider (role : string) (l : list ProviderRuntime) : option ProviderRuntime :=
  match l with
  | [] => None
  | p :: l' => if bool_decide (pr_Role p = role) then Some p else find_provider role l'
  end.
Definition Provider (c : Config) (role : string) : option ProviderRuntime :=
  find_provider role (cfg_Providers c).

(** ** Events and commands *)
Definition EventSpeechStarted : string := "speech.started".
Definition EventSpeechStopped : string := "speech.stopped".
Definition EventResponseStarted : string := "response.started".
Definition EventResponseStopped : string := "response.stopped".
Definition EventError : string := "error".

Record FailureEvent := { fe_Source : string; fe_Code : string; fe_Message : string; fe_Terminal : bool }.
Record UsageEvent := { us_Input : Z; us_Output : Z; us_Total : Z }.
Record Event := {
  ev_Type : string; ev_Transcript : option string; ev_Response : option string;
  ev_ToolCall : option (string * string * list ascii); ev_Usage : option UsageEvent;
  ev_Failure : option FailureEvent; ev_OccurredAt : Z;
}.
(** An event with no payload. *)
Definition plain_event (type : string) (at_ : Z) : Event := {|
  ev_Type := type; ev_Transcript := None; ev_Response := None; ev_ToolCall := None;
  ev_Usage := None; ev_Failure := None; ev_OccurredAt := at_ |}.

Definition CommandInterrupt : string := "response.interrupt".
Definition CommandStop : string := "session.stop".
Definition CommandToolResult : string := "tool.result".
Record Command := { cmd_Type : string; cmd_ToolResult : option ToolResult }.
Definition Command_Validate (c : Command) : result unit :=
  if bool_decide (cmd_Type c = CommandInterrupt) || bool_decide (cmd_Type c = CommandStop) then
    match cmd_ToolResult c with
    | Some _ => inr (Errorf "media command %q does not accept a tool result" [cmd_Type c])
    | None => inl tt
    end
  else if bool_decide (cmd_Type c = CommandToolResult) then
    match cmd_ToolResult c with
    | None => inr (Errorf "tool_result is required" [])
    | Some r => if bool_decide (tr_ToolCallID r = "") then inr (Errorf "tool_call_id is required" []) else inl tt
    end
  else inr (Errorf "unsupported media command %q" [cmd_Type c]).

(** ** Runtime limits and failures *)
Definition ErrInputLatencyBudgetExceeded : string := "media input latency budget exceeded".
Definition ErrOutputLatencyBudgetExceeded : string := "media output latency budget exceeded".
Definition ErrFrameDurationExceeded : string := "media frame duration exceeded".
Definition ErrProviderStartTimeout : string := "media provider start timeout".
Definition ErrProviderWriteTimeout : string := "media provider write timeout".
Definition ErrPlaybackWriteTimeout : string := "media playback write timeout".
Definition ErrProviderFailure : string := "media provider failure".
Definition ErrSessionNotFound : string := "media session not found".
Definition ErrSessionAlreadyExists : string := "media session already exists".
Definition ErrSessionAlreadyAttached : string := "media session already attached".
Definition ErrControlAlreadyAttached : string := "media control already attached".
Definition ErrControlBackpressure : string := "media control event buffer is full".
Definition ErrManagerDraining : string := "media session manager is draining".
Definition ErrCapacityExceeded : string := "media session capacity exceeded".

Record RuntimeLimits := {
  MaxFrameDuration : Z; InputQueueDuration : Z; OutputQueueDuration : Z;
  ProviderStartTimeout : Z; ProviderWriteTimeout : Z; PlaybackWriteTimeout : Z;
}.
Definition DefaultRuntimeLimits : RuntimeLimits := {|
  MaxFrameDuration := 200 * Millisecond; InputQueueDuration := 400 * Millisecond;
  OutputQueueDuration := 800 * Millisecond; ProviderStartTimeout := 10 * Second;
  ProviderWriteTimeout := 2 * Second; PlaybackWriteTimeout := 2 * Second |}.
Definition RuntimeLimits_validate (l : RuntimeLimits) : result unit :=
  if (MaxFrameDuration l <=? 0) || (InputQueueDuration l <=? 0) || (OutputQueueDuration l <=? 0)
     || (ProviderStartTimeout l <=? 0) || (ProviderWriteTimeout l <=? 0) || (PlaybackWriteTimeout l <=? 0)
  then inr (Sentinel "media runtime limits must be positive") else inl tt.

Definition FailureAttachTimeout : string := "attach_timeout".
Definition FailureProviderTimeout : string := "provider_timeout".
Definition FailureTransport : string := "transport_failure".
(** [classifyFailure], [isNormalDisconnect] and [terminalFailureEvent] of
    [manager.go]. *)
Definition classifyFailure (e : error) : string :=
  if errors_Is e ErrInputLatencyBudgetExceeded then "input_backpressure"
  else if errors_Is e ErrOutputLatencyBudgetExceeded then "output_backpressure"
  else if errors_Is e ErrFrameDurationExceeded then "frame_too_large"
  else if errors_Is e ErrProviderStartTimeout || errors_Is e ErrProviderWriteTimeout then FailureProviderTimeout
  else if errors_Is e ErrPlaybackWriteTimeout then "playback_timeout"
  else if errors_Is e ErrProviderFailure then "provider_failure"
  else if errors_Is e ErrControlBackpressure then "control_backpressure"
  else FailureTransport.
Definition isNormalDisconnect (r : result unit) : bool :=
  match r with inl _ => true | inr e => errors_Is e ErrCanceled || errors_Is e ErrEOF end.
Definition terminalFailureEvent (reason message : string) (now : Z) : Event := {|
  ev_Type := EventError; ev_Transcript := None; ev_Response := None; ev_ToolCall := None; ev_Usage := None;
  ev_Failure := Some {| fe_Source := "media"; fe_Code := reason; fe_Message := message; fe_Terminal := true |};
  ev_OccurredAt := now |}.

(** ** Metrics

    The counters are [uint64]; they would wrap after 2^64 sessions, which is left
    out. *)
Record Metrics := {
  active : Z; started : Z; completed : Z; attachCount : Z; turnCount : Z; failures : gmap string Z;
}.
Definition newMetrics : Metrics := {|
  active := 0; started := 0; completed := 0; attachCount := 0; turnCount := 0; failures := ∅ |}.
Definition sessionStarted (m : Metrics) : Metrics := {|
  active := active m + 1; started := started m + 1; completed := completed m;
  attachCount := attachCount m; turnCount := turnCount m; failures := failures m |}.
Definition sessionRemoved (m : Metrics) : Metrics := {|
  active := (if active m =? 0 then 0 else active m - 1); started := started m; completed := completed m;
  attachCount := attachCount m; turnCount := turnCount m; failures := failures m |}.
Definition sessionCompleted (m : Metrics) : Metrics := {|
  active := active m; started := started m; completed := completed m + 1;
  attachCount := attachCount m; turnCount := turnCount m; failures := failures m |}.
Definition observeAttachLatency (m : Metrics) : Metrics := {|
  active := active m; started := started m; completed := completed m;
  attachCount := attachCount m + 1; turnCount := turnCount m; failures := failures m |}.
Definition failure (reason : string) (m : Metrics) : Metrics := {|
  active := active m; started := started m; completed := completed m;
  attachCount := attachCount m; turnCount := turnCount m;
  failures := <[reason := default 0 (failures m !! reason) + 1]> (failures m) |}.

(** ** The bounded audio queue

    [frames] is a channel of capacity 256. [Push] holds the lock throughout;
    [Pop] and [Clear] receive a frame first and account for it afterwards, under
    the lock, so that other goroutines run in between. *)
Record audioQueue := { q_frames : list AudioFrame; q_queued : Z; q_max : Z; q_overflow : string }.
Definition newAudioQueue (maxDuration : Z) (overflowErr : string) : audioQueue :=
  {| q_frames := []; q_queued := 0; q_max := maxDuration; q_overflow := overflowErr |}.
Definition Push (frame : AudioFrame) (q : audioQueue) : result audioQueue :=
  let duration := Duration frame in
  if q_max q <? int64 (q_queued q + duration) then inr (Sentinel (q_overflow q)) else
  if (length (q_frames q) <? 256)%nat
  then inl {| q_frames := q_frames q ++ [frame]; q_queued := int64 (q_queued q + duration);
              q_max := q_max q; q_overflow := q_overflow q |}
  else inr (Sentinel (q_overflow q)).
(** The receive of [Pop] and [Clear], and the accounting that follows it. *)
Definition take_frame (q : audioQueue) : option (AudioFrame * audioQueue) :=
  match q_frames q with
  | [] => None
  | f :: l => Some (f, {| q_frames := l; q_queued := q_queued q; q_max := q_max q; q_overflow := q_overflow q |})
  end.
Definition account (frame : AudioFrame) (q : audioQueue) : audioQueue :=
  let queued := int64 (q_queued q - Duration frame) in
  {| q_frames := q_frames q; q_queued := (if queued <? 0 then 0 else queued);
     q_max := q_max q; q_overflow := q_overflow q |}.
(** [Pop] and [Clear] run without interruption. *)
Definition Pop (q : audioQueue) : option (AudioFrame * audioQueue) :=
  '(f, q1) ← take_frame q; Some (f, account f q1).
Definition Clear (q : audioQueue) : audioQueue :=
  fold_left (fun q' f => account f q')
    (q_frames q) {| q_frames := []; q_queued := q_queued q; q_max := q_max q; q_overflow := q_overflow q |}.

(** Goroutines on one queue: [pending] are the frames received and not yet
    accounted for. *)
Record shared := { sh_queue : audioQueue; sh_pending : list AudioFrame }.
(** A frame the pump pushes: validated, and of less than 8 GiB. *)
Definition frame_ok (f : AudioFrame) : Prop := AudioFrame_Validate f = inl tt /\ data_len f < 2 ^ 33.
Inductive queue_step : shared -> shared -> Prop :=
| QPush q pending f q' : frame_ok f -> Push f q = inl q' ->
    queue_step {| sh_queue := q; sh_pending := pending |} {| sh_queue := q'; sh_pending := pending |}
| QTake q pending f q' : take_frame q = Some (f, q') ->
    queue_step {| sh_queue := q; sh_pending := pending |} {| sh_queue := q'; sh_pending := f :: pending |}
| QAccount q pending1 f pending2 :
    queue_step {| sh_queue := q; sh_pending := pending1 ++ f :: pending2 |}
               {| sh_queue := account f q; sh_pending := pending1 ++ pending2 |}.

(** * Properties *)

(** ** Configuration *)

(** A configuration the manager accepts. *)
Record well_formed (c : Config) : Prop := {
  wf_ids : cfg_ID c <> uuid_Nil /\ cfg_OrganizationID c <> uuid_Nil
           /\ cfg_CallID c <> uuid_Nil /\ cfg_ChannelID c <> uuid_Nil;
  wf_media : exists profile, ProfileForEngine (cfg_Engine c) = inl profile
             /\ cfg_InputFormat c = prf_Input profile /\ cfg_OutputFormat c = prf_Output profile;
  wf_engine : cfg_EngineConfig c = [] \/ Json.is_object (cfg_EngineConfig c) = true;
  wf_providers : Forall (fun p => pr_Role p <> "" /\ pr_Provider p <> "" /\ pr_APIKey p <> ""
                   /\ (pr_Config p = [] \/ Json.is_object (pr_Config p) = true)) (cfg_Providers c);
  wf_roles : NoDup (pr_Role <$> cfg_Providers c);
  wf_tools : Forall (fun t => td_ID t <> uuid_Nil /\ td_Name t <> ""
                   /\ Json.is_object (td_Parameters t) = true) (cfg_Tools c);
  wf_names : NoDup (td_Name <$> cfg_Tools c);
}.

Lemma profile_formats engine p : ProfileForEngine engine = inl p ->
  AudioFormat_Validate (prf_Input p) = inl tt /\ AudioFormat_Validate (prf_Output p) = inl tt
  /\ prf_Input p = prf_Output p.
Proof. unfold ProfileForEngine. repeat case_match; intros [= <-]; done. Qed.

Lemma json_or_empty b :
  negb (bool_decide (b = [])) && negb (Json.is_object b) = false <-> b = [] \/ Json.is_object b = true.
Proof. case_bool_decide; destruct (Json.is_object b); simpl; naive_solver. Qed.

Lemma validate_providers_iff l : forall seen, validate_providers seen l = inl tt <->
  Forall (fun p => pr_Role p <> "" /\ pr_Provider p <> "" /\ pr_APIKey p <> ""
          /\ (pr_Config p = [] \/ Json.is_object (pr_Config p) = true)) l
  /\ NoDup (pr_Role <$> l) /\ (forall p, p ∈ l -> pr_Role p ∉ seen).
Proof.
  induction l as [|p l IH]; intros seen; cbn [validate_providers].
  { split; [|done]. intros _. split_and!; [done|constructor|set_solver]. }
  rewrite fmap_cons, Forall_cons, NoDup_cons.
  destruct (bool_decide (pr_Role p = "") || _ || _) eqn:E1.
  { split; [done|]. intros (((H1 & H2 & H3 & _) & _) & _).
    by rewrite !bool_decide_eq_false_2 in E1. }
  apply orb_false_iff in E1 as [[H1 H2]%orb_false_iff H3]. rewrite bool_decide_eq_false in *.
  case_bool_decide as Hs; [split; [done|intros (_ & _ & Hn); destruct (Hn p); set_solver]|].
  destruct (negb _ && _) eqn:E2.
  { split; [done|]. intros (((_ & _ & _ & H4) & _) & _). apply json_or_empty in H4. congruence. }
  apply json_or_empty in E2. rewrite IH, list_elem_of_fmap. split.
  - intros (HF & Hnd & Hn). split_and!; auto.
    + intros (q & Hq & Hql). apply (Hn q Hql). set_solver.
    + intros q [->|Hq]%elem_of_cons; [done|]. specialize (Hn q Hq). set_solver.
  - intros ((_ & HF) & (Hnp & Hnd) & Hn). split_and!; auto.
    intros q Hq. rewrite elem_of_union, elem_of_singleton. intros [Heq|Hin].
    + apply Hnp. by exists q.
    + eapply Hn; [by right|done].
Qed.

Lemma validate_tools_iff l : forall seen, validate_tools seen l = inl tt <->
  Forall (fun t => td_ID t <> uuid_Nil /\ td_Name t <> "" /\ Json.is_object (td_Parameters t) = true) l
  /\ NoDup (td_Name <$> l) /\ (forall t, t ∈ l -> td_Name t ∉ seen).
Proof.
  induction l as [|t l IH]; intros seen; cbn [validate_tools].
  { split; [|done]. intros _. split_and!; [done|constructor|set_solver]. }
  rewrite fmap_cons, Forall_cons, NoDup_cons.
  destruct (bool_decide (td_ID t = uuid_Nil) || _) eqn:E1.
  { split; [done|]. intros (((H1 & H2 & _) & _) & _). by rewrite !bool_decide_eq_false_2 in E1. }
  apply orb_false_iff in E1 as [H1 H2]. rewrite bool_decide_eq_false in *.
  case_bool_decide as Hs; [split; [done|intros (_ & _ & Hn); destruct (Hn t); set_solver]|].
  destruct (Json.is_object (td_Parameters t)) eqn:E2; simpl.
  2: { split; [done|]. intros (((_ & _ & H4) & _) & _). congruence. }
  rewrite IH, list_elem_of_fmap. split.
  - intros (HF & Hnd & Hn). split_and!; auto.
    + intros (q & Hq & Hql). apply (Hn q Hql). set_solver.
    + intros q [->|Hq]%elem_of_cons; [done|]. specialize (Hn q Hq). set_solver.
  - intros ((_ & HF) & (Hnp & Hnd) & Hn). split_and!; auto.
    intros q Hq. rewrite elem_of_union, elem_of_singleton. intros [Heq|Hin].
    + apply Hnp. by exists q.
    + eapply Hn; [by right|done].
Qed.

Lemma Config_Validate_iff c : Config_Validate c = inl tt <-> well_formed c.
Proof.
  unfold Config_Validate.
  case_bool_decide as H1; [split; [done|intros [? _ _ _ _ _ _]; tauto]|].
  case_bool_decide as H2; [split; [done|intros [? _ _ _ _ _ _]; tauto]|].
  case_bool_decide as H3; [split; [done|intros [? _ _ _ _ _ _]; tauto]|].
  case_bool_decide as H4; [split; [done|intros [? _ _ _ _ _ _]; tauto]|].
  destruct (ProfileForEngine (cfg_Engine c)) as [pf|e] eqn:Ep; cbn [rbind].
  2: { split; [done|]. intros [_ (? & ? & _) _ _ _ _ _]. congruence. }
  pose proof (profile_formats _ _ Ep) as (Hi & Ho & _).
  destruct (AudioFormat_Validate (cfg_InputFormat c)) as [[]|] eqn:E1.
  2: { split; [done|]. intros [_ (? & ? & ? & ?) _ _ _ _ _]. congruence. }
  destruct (AudioFormat_Validate (cfg_OutputFormat c)) as [[]|] eqn:E2.
  2: { split; [done|]. intros [_ (? & ? & ? & ?) _ _ _ _ _]. congruence. }
  destruct (negb (bool_decide (cfg_InputFormat c = prf_Input pf)) || _) eqn:E3.
  { split; [done|]. intros [_ (pf' & Hpf & Ha & Hb) _ _ _ _ _].
    assert (pf' = pf) as -> by congruence. by rewrite !bool_decide_eq_true_2 in E3. }
  apply orb_false_iff in E3 as [Ha Hb]. rewrite negb_false_iff, bool_decide_eq_true in Ha, Hb.
  destruct (negb _ && _) eqn:E4.
  { split; [done|]. intros [_ _ H _ _ _ _]. apply json_or_empty in H. congruence. }
  apply json_or_empty in E4.
  pose proof (validate_providers_iff (cfg_Providers c) ∅) as Hp.
  pose proof (validate_tools_iff (cfg_Tools c) ∅) as Ht.
  assert (He : forall {A} (l : list A) (f : A -> string), forall x, x ∈ l -> f x ∉ (∅ : gset string)) by set_solver.
  destruct (validate_providers ∅ (cfg_Providers c)) as [[]|e]; cbn [rbind].
  - rewrite Ht. split.
    + intros (? & ? & _). destruct Hp as [Hp _]. destruct Hp as (? & ? & _); [done|]. split; eauto 10.
    + intros []. split_and!; [done..|set_solver].
  - split; [done|]. intros []. destruct Hp as [_ Hp]. discriminate Hp. split_and!; [done..|set_solver].
Qed.

(** C32: A session configuration is accepted exactly when it is well formed: its
    identifiers are not nil, its formats are those of its engine, its raw
    configurations are JSON objects, and no two providers share a role and no two
    tools a name. *)
Theorem Config_Validate_spec c : Config_Validate c = inl tt <-> well_formed c.
Proof. apply Config_Validate_iff. Qed.

Lemma find_provider_in role l p : NoDup (pr_Role <$> l) ->
  find_provider role l = Some p <-> p ∈ l /\ pr_Role p = role.
Proof.
  induction l as [|q l IH]; intros Hnd; cbn [find_provider]; [set_solver|].
  rewrite fmap_cons, NoDup_cons in Hnd. destruct Hnd as [Hq Hnd].
  case_bool_decide as Hr.
  - split; [intros [= ->]; set_solver|]. intros [[->|Hp]%elem_of_cons Hpr]; [done|].
    destruct Hq. rewrite Hr, <- Hpr. apply list_elem_of_fmap_2. exact Hp.
  - rewrite IH by done. rewrite elem_of_cons. split; [tauto|]. intros [[->|?] ?]; [done|tauto].
Qed.

(** Equality of configurations is what [Equal] decides. *)
Lemma toolDefinitionsEqual_iff l : forall r, toolDefinitionsEqual l r = true <-> l = r.
Proof.
  induction l as [|x l IH]; intros [|y r]; cbn [toolDefinitionsEqual]; [done..|].
  rewrite !andb_true_iff, !bool_decide_eq_true, IH. split; [|by intros [= -> ->]].
  intros ((((? & ?) & ?) & ?) & ->). destruct x, y; simpl in *. congruence.
Qed.
Lemma providerRuntimesEqual_iff l : forall r, providerRuntimesEqual l r = true <-> l = r.
Proof.
  induction l as [|x l IH]; intros [|y r]; cbn [providerRuntimesEqual]; [done..|].
  rewrite !andb_true_iff, !bool_decide_eq_true, IH. split; [|by intros [= -> ->]].
  intros ((((? & ?) & ?) & ?) & ->). destruct x, y; simpl in *. congruence.
Qed.
Lemma Config_Equal_iff c d : Config_Equal c d = true <-> c = d.
Proof.
  unfold Config_Equal.
  rewrite !andb_true_iff, !bool_decide_eq_true, toolDefinitionsEqual_iff, providerRuntimesEqual_iff.
  split; [|by intros ->]. intros H. destruct c, d; simpl in *. decompose [and] H. congruence.
Qed.

(** ** Durations *)

(** The duration of a valid frame is its number of samples over its rate, without
    overflow. *)
Lemma Duration_exact f : frame_ok f ->
  Duration f = data_len f / 2 * Second / SampleRateHz (fr_Format f) /\ 0 <= Duration f < 2 ^ 62.
Proof.
  intros [Hv Hlen]. unfold AudioFrame_Validate, AudioFormat_Validate in Hv.
  destruct (existsb (Z.eqb (SampleRateHz (fr_Format f))) _) eqn:Er; simpl in Hv; [|done].
  destruct (Channels (fr_Format f) =? 1) eqn:Ec; simpl in Hv; [|done].
  destruct (data_len f =? 0) eqn:E0; [done|].
  apply Z.eqb_eq in Ec. apply Z.eqb_neq in E0. apply existsb_exists in Er as (r & Hr & Hrate%Z.eqb_eq).
  assert (0 <= data_len f) by (unfold data_len; lia).
  assert (8000 <= SampleRateHz (fr_Format f) <= 48000).
  { rewrite Hrate. simpl in Hr. repeat destruct Hr as [<-|Hr]; lia || done. }
  unfold Duration. rewrite Ec, (proj2 (Z.leb_gt _ _)), (proj2 (Z.eqb_neq _ _) E0) by lia. cbn [orb].
  replace (1 <=? 0) with false by done. cbn [orb].
  rewrite (int64_id (2 * 1)) by (unfold min_int64, max_int64; lia). unfold go_div.
  change (2 * 1) with 2. rewrite (Z.quot_div_nonneg (data_len f) 2) by lia.
  pose proof (Z.div_le_upper_bound (data_len f) 2 (2 ^ 32) ltac:(lia) ltac:(lia)).
  pose proof (Z.div_pos (data_len f) 2 ltac:(lia) ltac:(lia)).
  rewrite int64_id by (unfold min_int64, max_int64, Second; lia).
  rewrite Z.quot_div_nonneg by (unfold Second; lia). split; [done|]. split.
  - apply Z.div_pos; unfold Second; lia.
  - apply Z.div_lt_upper_bound; unfold Second; lia.
Qed.

(** ** The queue stays within its latency budget *)

Definition total (l : list AudioFrame) : Z := foldr (fun f n => Duration f + n) 0 l.
Record queue_ok (q : audioQueue) (pending : list AudioFrame) : Prop := {
  qo_queued : q_queued q = total (q_frames q) + total pending;
  qo_budget : q_queued q <= q_max q;
  qo_length : (length (q_frames q) <= 256)%nat;
  qo_frames : Forall frame_ok (q_frames q ++ pending);
}.

Lemma total_app l1 l2 : total (l1 ++ l2) = total l1 + total l2.
Proof. induction l1 as [|f l1 IH]; simpl; [done|]. rewrite IH. lia. Qed.
Lemma total_nonneg l : Forall frame_ok l -> 0 <= total l.
Proof. induction 1 as [|f l Hf _ IH]; simpl; [done|]. pose proof (Duration_exact f Hf). lia. Qed.
Lemma queue_ok_total q pending : queue_ok q pending ->
  0 <= total (q_frames q) /\ 0 <= total pending.
Proof. intros [_ _ _ [H1 H2]%Forall_app]. split; by apply total_nonneg. Qed.

Lemma new_queue_ok budget err : 0 <= budget -> queue_ok (newAudioQueue budget err) [].
Proof. intros. by split; simpl; try lia. Qed.
Lemma Push_ok f q q' pending : q_max q <= 2 ^ 62 -> frame_ok f -> Push f q = inl q' ->
  queue_ok q pending -> queue_ok q' pending /\ q_frames q' = q_frames q ++ [f] /\ q_max q' = q_max q.
Proof.
  intros Hmax Hf HP Hq. pose proof (queue_ok_total _ _ Hq) as [? ?]. destruct Hq as [Hd Hb Hl HF].
  pose proof (Duration_exact f Hf) as [_ Hr].
  unfold Push in HP. rewrite (int64_id (q_queued q + Duration f)) in HP
    by (unfold min_int64, max_int64; lia).
  destruct (Z.ltb_spec (q_max q) (q_queued q + Duration f)); [done|].
  destruct (Nat.ltb_spec (length (q_frames q)) 256); [|done]. injection HP as <-.
  split; [|done]. split; cbn [q_frames q_queued q_max].
  - rewrite total_app. simpl. lia.
  - lia.
  - rewrite length_app. simpl. lia.
  - rewrite Forall_app in *. destruct HF. split; [|done]. apply Forall_app. auto.
Qed.
Lemma take_frame_ok f q q' pending : take_frame q = Some (f, q') -> queue_ok q pending ->
  queue_ok q' (f :: pending) /\ q_frames q = f :: q_frames q' /\ q_max q' = q_max q.
Proof.
  unfold take_frame. destruct (q_frames q) as [|g l] eqn:E; [done|]. intros [= -> <-] [Hd Hb Hl HF].
  rewrite E in *. split; [|done]. split; cbn [q_frames q_queued q_max]; [simpl in *; lia|done|simpl in *; lia|].
  by rewrite <- Permutation_middle.
Qed.
Lemma account_ok f q pending pending' : pending ≡ₚ f :: pending' -> q_max q <= 2 ^ 62 ->
  queue_ok q pending -> queue_ok (account f q) pending'.
Proof.
  intros Hp Hmax Hq. assert (Hq' : queue_ok q (f :: pending')).
  { destruct Hq as [Hd Hb Hl HF]. split; [|done..|by rewrite <- Hp].
    rewrite Hd. f_equal. clear -Hp. induction Hp; simpl in *; lia. }
  clear Hq. pose proof (queue_ok_total _ _ Hq') as [? ?]. destruct Hq' as [Hd Hb Hl HF].
  apply Forall_app in HF as [HF1 [Hf HF2]%Forall_cons].
  pose proof (Duration_exact f Hf) as [_ Hr]. pose proof (total_nonneg _ HF2).
  unfold account. simpl in Hd. rewrite int64_id by (unfold min_int64, max_int64; lia).
  destruct (Z.ltb_spec (q_queued q - Duration f) 0); [lia|].
  split; simpl; [lia|lia|done|]. by apply Forall_app.
Qed.

Lemma queue_step_ok s s' : q_max (sh_queue s) <= 2 ^ 62 -> queue_step s s' ->
  queue_ok (sh_queue s) (sh_pending s) ->
  queue_ok (sh_queue s') (sh_pending s') /\ q_max (sh_queue s') = q_max (sh_queue s).
Proof.
  intros Hmax Hs Hq. revert Hmax Hq.
  destruct Hs as [q pending f q' Hf HP|q pending f q' HT|q p1 f p2]; intros Hmax Hq; cbn [sh_queue sh_pending] in *.
  - pose proof (Push_ok f q q' pending Hmax Hf HP Hq). tauto.
  - pose proof (take_frame_ok f q q' pending HT Hq). tauto.
  - split; [|done]. eapply account_ok; [|done..]. by rewrite Permutation_middle.
Qed.

(** C30: Whatever goroutines push, pop and clear in any interleaving, the audio
    held in a queue never exceeds its latency budget nor 256 frames, and the
    accounted duration is that of the frames queued or being removed. *)
Theorem audio_queue_within_budget budget err s :
  0 <= budget <= 2 ^ 62 ->
  rtc queue_step {| sh_queue := newAudioQueue budget err; sh_pending := [] |} s ->
  total (q_frames (sh_queue s)) <= budget /\ (length (q_frames (sh_queue s)) <= 256)%nat
  /\ q_queued (sh_queue s) = total (q_frames (sh_queue s)) + total (sh_pending s)
  /\ 0 <= q_queued (sh_queue s) <= budget.
Proof.
  intros Hb Hrun.
  assert (queue_ok (sh_queue s) (sh_pending s) /\ q_max (sh_queue s) = budget) as [Hq Hmax].
  { eapply (rtc_invariant _ (fun s => queue_ok (sh_queue s) (sh_pending s) /\ q_max (sh_queue s) = budget));
      [|clear Hrun s|exact Hrun].
    - split; [apply new_queue_ok; lia|done].
    - intros a b Hab [Hq Hm]. destruct (queue_step_ok a b) as [? Hm']; [lia|done..|].
      split; [done|congruence]. }
  pose proof (queue_ok_total _ _ Hq) as [? ?]. destruct Hq as [Hd Hle Hl _]. split_and!; lia.
Qed.

(** One sample at 16 kHz: pushed, received, and not yet accounted for. *)
Definition ex_format : AudioFormat := {| SampleRateHz := 16000; Channels := 1 |}.
Definition ex_frame : AudioFrame :=
  {| fr_Data := bytes "ab"; fr_Format := ex_format; fr_CapturedAt := 0 |}.
Definition ex_queue : audioQueue := newAudioQueue (400 * Millisecond) ErrInputLatencyBudgetExceeded.
Definition ex_shared : shared :=
  {| sh_queue := {| q_frames := []; q_queued := 62500; q_max := 400 * Millisecond;
                    q_overflow := ErrInputLatencyBudgetExceeded |}; sh_pending := [ex_frame] |}.
Lemma audio_queue_within_budget_witness : q_queued (sh_queue ex_shared) <= 400 * Millisecond.
Proof.
  refine (proj2 (proj2 (proj2 (proj2 (audio_queue_within_budget (400 * Millisecond)
    ErrInputLatencyBudgetExceeded ex_shared _ _))))).
  - by vm_compute.
  - eapply rtc_l; [apply (QPush _ _ ex_frame); [by split|vm_compute; reflexivity]|].
    eapply rtc_l; [apply (QTake _ _ ex_frame); vm_compute; reflexivity|].
    apply rtc_refl.
Defined.

End MediaSession.
