(* ===== verification/MediaPump.v ===== *)
(** * The pump of a media session

    The five goroutines [pump] starts for an attached connection
    ([server/internal/media/session/manager.go]): receive from the connection, send
    to the engine, receive from the engine, play to the connection, and handle the
    engine's events, with the barge-in that silences playback when the caller
    speaks. They share two audio queues and two atomic flags; [pump_step]
    interleaves them. A goroutine stops at an error, which the error group keeps if
    it is the first and which cancels the others. The turn-latency metric is left
    out. *)

From S2P Require Import Prelude Json MediaSession.
Import MediaSession.

Module MediaPump.

(** ** Goroutines *)
Inductive receiver := RWait | RPush (f : AudioFrame) | RDone.
Inductive provider := PWait | PAccount (f : AudioFrame) | PSend (f : AudioFrame) | PDone.
Inductive output := OWait | OCheck (f : AudioFrame) | OPush (f : AudioFrame) | ODone.
Inductive player :=
| YWait | YAccount (f : AudioFrame) | YCheck (f : AudioFrame) | YMark (f : AudioFrame)
| YSend (f : AudioFrame) | YDone.
Inductive events :=
| EWait | EPublish (e : Event) | EHandle (e : Event) | ESuppress | EClear | EAccount (f : AudioFrame)
| EInterrupt | EClearPlayback | EDone.

(** What the outside sees of playback: frames handed to the connection, barge-ins,
    and responses that lift the suppression. *)
Inductive heard := Played (f : AudioFrame) | BargedIn | Resumed.

Record pump := {
  pm_in : audioQueue; pm_out : audioQueue; pm_active : bool; pm_suppress : bool;
  pm_receiver : receiver; pm_provider : provider; pm_output : output; pm_player : player; pm_events : events;
  pm_err : option error;
  pm_pushed : list AudioFrame; pm_sent : list AudioFrame; pm_heard : list heard;
}.

(** What the outside answers. *)
Inductive input :=
| IProceed
| IFrame (f : AudioFrame)
| IEvent (e : Event)
| IClosed
| IContext (e : error)
| IResult (r : result unit)
| ITimeout.

Section Pump.
Context (limits : RuntimeLimits).

Definition newPump : pump := {|
  pm_in := newAudioQueue (InputQueueDuration limits) ErrInputLatencyBudgetExceeded;
  pm_out := newAudioQueue (OutputQueueDuration limits) ErrOutputLatencyBudgetExceeded;
  pm_active := false; pm_suppress := false; pm_receiver := RWait; pm_provider := PWait; pm_output := OWait;
  pm_player := YWait; pm_events := EWait; pm_err := None; pm_pushed := []; pm_sent := []; pm_heard := [] |}.

Definition upd_in q pushed s := {| pm_in := q; pm_out := pm_out s; pm_active := pm_active s; pm_suppress := pm_suppress s;
  pm_receiver := pm_receiver s; pm_provider := pm_provider s; pm_output := pm_output s; pm_player := pm_player s;
  pm_events := pm_events s; pm_err := pm_err s; pm_pushed := pushed; pm_sent := pm_sent s; pm_heard := pm_heard s |}.
Definition upd_out q s := {| pm_in := pm_in s; pm_out := q; pm_active := pm_active s; pm_suppress := pm_suppress s;
  pm_receiver := pm_receiver s; pm_provider := pm_provider s; pm_output := pm_output s; pm_player := pm_player s;
  pm_events := pm_events s; pm_err := pm_err s; pm_pushed := pm_pushed s; pm_sent := pm_sent s; pm_heard := pm_heard s |}.
Definition flags active suppress hs s := {| pm_in := pm_in s; pm_out := pm_out s; pm_active := active; pm_suppress := suppress;
  pm_receiver := pm_receiver s; pm_provider := pm_provider s; pm_output := pm_output s; pm_player := pm_player s;
  pm_events := pm_events s; pm_err := pm_err s; pm_pushed := pm_pushed s; pm_sent := pm_sent s; pm_heard := pm_heard s ++ hs |}.
Definition sent f s := {| pm_in := pm_in s; pm_out := pm_out s; pm_active := pm_active s; pm_suppress := pm_suppress s;
  pm_receiver := pm_receiver s; pm_provider := pm_provider s; pm_output := pm_output s; pm_player := pm_player s;
  pm_events := pm_events s; pm_err := pm_err s; pm_pushed := pm_pushed s; pm_sent := pm_sent s ++ [f]; pm_heard := pm_heard s |}.
Definition goto r p o y e s := {| pm_in := pm_in s; pm_out := pm_out s; pm_active := pm_active s; pm_suppress := pm_suppress s;
  pm_receiver := r; pm_provider := p; pm_output := o; pm_player := y; pm_events := e;
  pm_err := pm_err s; pm_pushed := pm_pushed s; pm_sent := pm_sent s; pm_heard := pm_heard s |}.
Definition at_receiver r s := goto r (pm_provider s) (pm_output s) (pm_player s) (pm_events s) s.
Definition at_provider p s := goto (pm_receiver s) p (pm_output s) (pm_player s) (pm_events s) s.
Definition at_output o s := goto (pm_receiver s) (pm_provider s) o (pm_player s) (pm_events s) s.
Definition at_player y s := goto (pm_receiver s) (pm_provider s) (pm_output s) y (pm_events s) s.
Definition at_events e s := goto (pm_receiver s) (pm_provider s) (pm_output s) (pm_player s) e s.
(** The error group keeps the first error. *)
Definition fails (e : error) s := {| pm_in := pm_in s; pm_out := pm_out s; pm_active := pm_active s; pm_suppress := pm_suppress s;
  pm_receiver := pm_receiver s; pm_provider := pm_provider s; pm_output := pm_output s; pm_player := pm_player s;
  pm_events := pm_events s; pm_err := (match pm_err s with Some e' => Some e' | None => Some e end);
  pm_pushed := pm_pushed s; pm_sent := pm_sent s; pm_heard := pm_heard s |}.

(** The checks on a frame from either side. *)
Definition check_frame (f : AudioFrame) : result unit :=
  let? _ := AudioFrame_Validate f in
  if MaxFrameDuration limits <? Duration f then inr (Sentinel ErrFrameDurationExceeded) else inl tt.

(** Receive from the connection and queue. *)
Definition run_receiver (inp : input) (s : pump) : option pump :=
  match pm_receiver s, inp with
  | RWait, IFrame f =>
      match check_frame f with
      | inr e => Some (at_receiver RDone (fails e s))
      | inl _ => Some (at_receiver (RPush f) s)
      end
  | RWait, IContext e => Some (at_receiver RDone (fails e s))
  | RPush f, IProceed =>
      match Push f (pm_in s) with
      | inl q => Some (at_receiver RWait (upd_in q (pm_pushed s ++ [f]) s))
      | inr e => Some (at_receiver RDone (fails e s))
      end
  | _, _ => None
  end.

(** [<-groupCtx.Done()]: some goroutine has failed, or the caller's context ended. *)
Definition cancelled (inp : input) (s : pump) : option error :=
  match inp with
  | IContext e => Some e
  | _ => match pm_err s with Some _ => Some (Sentinel ErrCanceled) | None => None end
  end.

(** Take from the queue and send to the engine. *)
Definition run_provider (inp : input) (s : pump) : option pump :=
  match pm_provider s with
  | PWait =>
      match inp, take_frame (pm_in s) with
      | IProceed, Some (f, q) => Some (at_provider (PAccount f) (upd_in q (pm_pushed s) s))
      | _, _ => match cancelled inp s with Some e => Some (at_provider PDone (fails e s)) | None => None end
      end
  | PAccount f => Some (at_provider (PSend f) (upd_in (account f (pm_in s)) (pm_pushed s) s))
  | PSend f =>
      match inp with
      | ITimeout => Some (at_provider PDone (fails (Sentinel ErrProviderWriteTimeout) (sent f s)))
      | IResult (inr e) => Some (at_provider PDone (fails e (sent f s)))
      | IResult (inl _) => Some (at_provider PWait (sent f s))
      | _ => None
      end
  | PDone => None
  end.

(** Receive from the engine and queue, unless playback is suppressed. *)
Definition run_output (inp : input) (s : pump) : option pump :=
  match pm_output s with
  | OWait =>
      match inp with
      | IFrame f =>
          match check_frame f with
          | inr e => Some (at_output ODone (fails e s))
          | inl _ => Some (at_output (OCheck f) s)
          end
      | IClosed => Some (at_output ODone (fails (Sentinel ErrEOF) s))
      | _ => match cancelled inp s with Some e => Some (at_output ODone (fails e s)) | None => None end
      end
  | OCheck f => Some (at_output (if pm_suppress s then OWait else OPush f) s)
  | OPush f =>
      match Push f (pm_out s) with
      | inl q => Some (at_output OWait (upd_out q s))
      | inr e => Some (at_output ODone (fails e s))
      end
  | ODone => None
  end.

(** Take from the queue and play, unless playback is suppressed. *)
Definition run_player (inp : input) (s : pump) : option pump :=
  match pm_player s with
  | YWait =>
      match inp, take_frame (pm_out s) with
      | IProceed, Some (f, q) => Some (at_player (YAccount f) (upd_out q s))
      | _, _ => match cancelled inp s with Some e => Some (at_player YDone (fails e s)) | None => None end
      end
  | YAccount f => Some (at_player (YCheck f) (upd_out (account f (pm_out s)) s))
  | YCheck f => Some (at_player (if pm_suppress s then YWait else YMark f) s)
  | YMark f => Some (at_player (YSend f) (flags true (pm_suppress s) [] s))
  | YSend f =>
      let s' := flags (pm_active s) (pm_suppress s) [Played f] s in
      match inp with
      | ITimeout => Some (at_player YDone (fails (Sentinel ErrPlaybackWriteTimeout) s'))
      | IResult (inr e) => Some (at_player YDone (fails e s'))
      | IResult (inl _) => Some (at_player YWait s')
      | _ => None
      end
  | YDone => None
  end.

(** Publish the engine's events and act on them. *)
Definition handle_event (e : Event) (s : pump) : pump :=
  if bool_decide (ev_Type e = EventError) then
    match ev_Failure e with
    | Some f => if fe_Terminal f
                then at_events EDone (fails (Wrapf "%w: %s" [fe_Message f] (Sentinel ErrProviderFailure)) s)
                else at_events EWait s
    | None => at_events EWait s
    end
  else if bool_decide (ev_Type e = EventResponseStarted) then
    at_events EWait (flags true false [Resumed] s)
  else if bool_decide (ev_Type e = EventResponseStopped) then
    at_events EWait (flags false (pm_suppress s) [] s)
  else if bool_decide (ev_Type e = EventSpeechStarted) then
    if pm_active s then at_events ESuppress (flags false (pm_suppress s) [] s) else at_events EWait s
  else at_events EWait s.

Definition run_events (inp : input) (s : pump) : option pump :=
  match pm_events s with
  | EWait =>
      match inp with
      | IEvent e => Some (at_events (EPublish e) s)
      | IClosed => Some (at_events EDone (fails (Sentinel ErrEOF) s))
      | _ => match cancelled inp s with Some e => Some (at_events EDone (fails e s)) | None => None end
      end
  | EPublish e =>
      match inp with
      | IResult (inr err) => Some (at_events EDone (fails err s))
      | IResult (inl _) => Some (at_events (EHandle e) s)
      | _ => None
      end
  | EHandle e => Some (handle_event e s)
  | ESuppress => Some (at_events EClear (flags (pm_active s) true [BargedIn] s))
  | EClear =>
      match take_frame (pm_out s) with
      | Some (f, q) => Some (at_events (EAccount f) (upd_out q s))
      | None => Some (at_events EInterrupt s)
      end
  | EAccount f => Some (at_events EClear (upd_out (account f (pm_out s)) s))
  | EInterrupt =>
      match inp with
      | IResult (inr e) => Some (at_events EDone (fails e s))
      | IResult (inl _) => Some (at_events EClearPlayback s)
      | _ => None
      end
  | EClearPlayback =>
      match inp with
      | IResult (inr e) => Some (at_events EDone (fails e s))
      | IResult (inl _) => Some (at_events EWait s)
      | _ => None
      end
  | EDone => None
  end.

Definition run_one (g : nat) (inp : input) (s : pump) : option pump :=
  match g with
  | 0%nat => run_receiver inp s | 1%nat => run_provider inp s | 2%nat => run_output inp s
  | 3%nat => run_player inp s | 4%nat => run_events inp s | _ => None
  end.
(** Frames are of less than 8 GiB. *)
Definition small (inp : input) : Prop := match inp with IFrame f => data_len f < 2 ^ 33 | _ => True end.
Definition pump_step (s s' : pump) : Prop := exists g inp, small inp /\ run_one g inp s = Some s'.
Definition all_done (s : pump) : bool :=
  match pm_receiver s, pm_provider s, pm_output s, pm_player s, pm_events s with
  | RDone, PDone, ODone, YDone, EDone => true | _, _, _, _, _ => false
  end.

(** * Properties *)

(** Frames played since playback was suppressed, [None] when it is not. *)
Definition hear (acc : option nat) (h : heard) : option nat :=
  match h with
  | Resumed => None
  | BargedIn => match acc with None => Some 0%nat | _ => acc end
  | Played _ => S <$> acc
  end.
Definition since_suppressed (l : list heard) : option nat := fold_left hear l None.
(** Frames past the check of the player. *)
Definition in_flight (s : pump) : nat := match pm_player s with YMark _ | YSend _ => 1 | _ => 0 end.

Definition provider_pending (s : pump) : list AudioFrame :=
  match pm_provider s with PAccount f => [f] | _ => [] end.
Definition provider_holds (s : pump) : list AudioFrame :=
  match pm_provider s with PAccount f | PSend f => [f] | _ => [] end.
Definition output_pending (s : pump) : list AudioFrame :=
  match pm_player s with YAccount f => [f] | _ => [] end
  ++ match pm_events s with EAccount f => [f] | _ => [] end.
(** Frames checked and about to be pushed. *)
Definition checked (s : pump) : list AudioFrame :=
  match pm_receiver s with RPush f => [f] | _ => [] end
  ++ match pm_output s with OCheck f | OPush f => [f] | _ => [] end.

Record pump_ok (s : pump) : Prop := {
  po_in : queue_ok (pm_in s) (provider_pending s);
  po_out : queue_ok (pm_out s) (output_pending s);
  po_in_max : q_max (pm_in s) = InputQueueDuration limits;
  po_out_max : q_max (pm_out s) = OutputQueueDuration limits;
  po_checked : Forall frame_ok (checked s);
  po_fifo : pm_pushed s = pm_sent s ++ provider_holds s ++ q_frames (pm_in s);
  po_suppress : pm_suppress s = bool_decide (is_Some (since_suppressed (pm_heard s)));
  po_heard : forall n, since_suppressed (pm_heard s) = Some n -> (n + in_flight s <= 1)%nat;
}.

Lemma check_frame_ok f : data_len f < 2 ^ 33 -> check_frame f = inl tt -> frame_ok f.
Proof.
  unfold check_frame. destruct (AudioFrame_Validate f) as [[]|] eqn:E; simpl; [|done]. by split.
Qed.
Lemma since_snoc l h : since_suppressed (l ++ [h]) = hear (since_suppressed l) h.
Proof. unfold since_suppressed. by rewrite fold_left_app. Qed.

Section Invariant.
Context (Hin : 0 <= InputQueueDuration limits <= 2 ^ 62) (Hout : 0 <= OutputQueueDuration limits <= 2 ^ 62).

Lemma pump_ok_new : pump_ok newPump.
Proof. split; simpl; try done; try (apply new_queue_ok; lia). Qed.

Ltac unchanged := split; simpl; try done; try (rewrite ?app_nil_r; done).

Lemma receiver_ok inp s s' : small inp -> run_receiver inp s = Some s' -> pump_ok s -> pump_ok s'.
Proof.
  unfold run_receiver. intros Hs Hr [H1 H2 H3 H4 H5 H6 H7 H8].
  destruct (pm_receiver s) eqn:E; unfold checked in H5; rewrite E in H5; destruct inp; try done.
  - destruct (check_frame f) as [[]|] eqn:Ec; simplify_eq; unchanged.
    unfold checked. simpl. constructor; [by apply check_frame_ok|done].
  - simplify_eq. unchanged.
  - apply Forall_cons in H5 as [Hf H5].
    destruct (Push f (pm_in s)) as [q|] eqn:Ep; simplify_eq; unchanged.
    + eapply Push_ok in Ep as (? & _); [exact H|rewrite H3; lia|done|done].
    + eapply Push_ok in Ep as (_ & _ & ->); [done|rewrite H3; lia|done|done].
    + eapply Push_ok in Ep as (_ & -> & _); [|rewrite H3; lia|done|done].
      change (provider_holds _) with (provider_holds s). by rewrite H6, <- !app_assoc.
Qed.
Lemma provider_ok inp s s' : run_provider inp s = Some s' -> pump_ok s -> pump_ok s'.
Proof.
  unfold run_provider. intros Hr [H1 H2 H3 H4 H5 H6 H7 H8].
  unfold provider_pending in H1. unfold provider_holds in H6.
  destruct (pm_provider s) eqn:E; [| | |done].
  - assert (forall e, pump_ok (at_provider PDone (fails e s))) by (intros; unchanged).
    destruct (take_frame (pm_in s)) as [[f q]|] eqn:Et; repeat case_match; simplify_eq; try done.
    pose proof (take_frame_ok _ _ _ _ Et H1) as (Hq & Hf & Hm).
    unchanged; [by rewrite Hm|]. rewrite H6, Hf. done.
  - simplify_eq. unchanged. apply (account_ok f _ [f]); [done|rewrite H3; lia|done].
  - destruct inp as [| | | | |[[]|]|]; simplify_eq; unchanged; rewrite H6; by rewrite <- app_assoc.
Qed.
Lemma output_ok inp s s' : small inp -> run_output inp s = Some s' -> pump_ok s -> pump_ok s'.
Proof.
  unfold run_output. intros Hs Hr [H1 H2 H3 H4 H5 H6 H7 H8].
  unfold checked in H5. apply Forall_app in H5 as [H5 H5'].
  destruct (pm_output s) eqn:E; [| | |done].
  - destruct inp; try (destruct (cancelled _ s); [|done]);
      try (destruct (check_frame f) as [[]|] eqn:Ec); simplify_eq; unchanged;
      unfold checked; simpl; apply Forall_app; split; try done.
    constructor; [by apply check_frame_ok|done].
  - simplify_eq. destruct (pm_suppress s) eqn:Es; unchanged; try (by rewrite Es); unfold checked; simpl; apply Forall_app; by split.
  - apply Forall_cons in H5' as [Hf _].
    destruct (Push f (pm_out s)) as [q|] eqn:Ep; simplify_eq; unchanged;
      try (unfold checked; simpl; apply Forall_app; by split).
    + eapply Push_ok in Ep as (? & _); [exact H|rewrite H4; lia|done|done].
    + eapply Push_ok in Ep as (_ & _ & ->); [done|rewrite H4; lia|done|done].
Qed.
Lemma player_ok inp s s' : run_player inp s = Some s' -> pump_ok s -> pump_ok s'.
Proof.
  unfold run_player. intros Hr [H1 H2 H3 H4 H5 H6 H7 H8].
  unfold output_pending in H2. unfold in_flight in H8.
  destruct (pm_player s) eqn:E; [| | | | |done].
  - assert (forall e, pump_ok (at_player YDone (fails e s))) by (intros; unchanged).
    destruct (take_frame (pm_out s)) as [[f q]|] eqn:Et; destruct inp;
      try (destruct (cancelled _ s); by simplify_eq). simplify_eq.
    pose proof (take_frame_ok _ _ _ _ Et H2) as (Hq & Hf & Hm). unchanged. by rewrite Hm.
  - simplify_eq. unchanged. apply (account_ok f _ ([f] ++ match pm_events s with EAccount f => [f] | _ => [] end));
      [done|rewrite H4; lia|done].
  - simplify_eq. destruct (pm_suppress s) eqn:Es; unchanged; [by rewrite Es|by rewrite Es|].
    intros n Hn. rewrite Hn in H7. by rewrite bool_decide_eq_true_2 in H7 by eauto.
  - simplify_eq. unchanged.
  - destruct inp as [| | | | |[[]|]|]; simplify_eq; unchanged; rewrite since_snoc; simpl;
      destruct (since_suppressed (pm_heard s)) as [n|]; simpl; try done;
      intros n' [= <-]; specialize (H8 n eq_refl); unfold in_flight; simpl; lia.
Qed.
Lemma events_ok inp s s' : run_events inp s = Some s' -> pump_ok s -> pump_ok s'.
Proof.
  unfold run_events. intros Hr [H1 H2 H3 H4 H5 H6 H7 H8].
  unfold output_pending in H2. set (pl := match pm_player s with YAccount f => [f] | _ => [] end) in H2.
  destruct (pm_events s) eqn:E; [| | | | | | | |done].
  - destruct inp; try (destruct (cancelled _ s); [|done]); simplify_eq; unchanged.
  - destruct inp as [| | | | |[[]|]|]; simplify_eq; unchanged.
  - simplify_eq. unfold handle_event. repeat case_match; unchanged; rewrite ?since_snoc; simpl; try done; congruence.
  - simplify_eq. unchanged; rewrite since_snoc; simpl; destruct (since_suppressed (pm_heard s)) as [n|] eqn:En; try done.
    intros n' [= <-]. unfold in_flight. simpl. destruct (pm_player s); lia.
  - destruct (take_frame (pm_out s)) as [[f q]|] eqn:Et; simplify_eq; unchanged.
    + pose proof (take_frame_ok _ _ _ _ Et H2) as (Hq & _). unfold output_pending. simpl.
      rewrite app_nil_r in Hq. destruct (pm_player s); try done. 
      destruct Hq; split; simpl in *; try done; [lia|]. by rewrite (Permutation_swap f f0).
    + pose proof (take_frame_ok _ _ _ _ Et H2) as (_ & _ & Hm). by rewrite Hm.
  - simplify_eq. unchanged.
    apply (account_ok f _ (pl ++ [f]) (pl ++ [])); [by rewrite app_nil_r, Permutation_app_comm|rewrite H4; lia|done].
  - destruct inp as [| | | | |[[]|]|]; simplify_eq; unchanged.
  - destruct inp as [| | | | |[[]|]|]; simplify_eq; unchanged.
Qed.
Lemma pump_step_ok s s' : pump_step s s' -> pump_ok s -> pump_ok s'.
Proof.
  intros ([|[|[|[|[|g]]]]] & inp & Hs & Hr) Hok; simpl in Hr; [..|done];
    eauto using receiver_ok, provider_ok, output_ok, player_ok, events_ok.
Qed.
Lemma pump_reachable s : rtc pump_step newPump s -> pump_ok s.
Proof. apply rtc_invariant; [apply pump_ok_new|]. intros. by eapply pump_step_ok. Qed.

(** C31: After a barge-in has suppressed playback, and until the engine starts a new
    response, at most one more frame reaches the connection, however the goroutines
    are scheduled: the one already past the player's check. *)
Theorem barge_in_silences s n : rtc pump_step newPump s ->
  since_suppressed (pm_heard s) = Some n -> (n <= 1)%nat.
Proof. intros H Hn. pose proof (po_heard _ (pump_reachable s H) n Hn). lia. Qed.

(** The engine gets the frames queued from the connection in order, without
    loss or duplication, and neither queue exceeds its latency budget. *)
Theorem engine_hears_in_order s : rtc pump_step newPump s ->
  pm_pushed s = pm_sent s ++ provider_holds s ++ q_frames (pm_in s)
  /\ total (q_frames (pm_in s)) <= InputQueueDuration limits
  /\ total (q_frames (pm_out s)) <= OutputQueueDuration limits.
Proof.
  intros H. destruct (pump_reachable s H) as [H1 H2 H3 H4 _ H6 _ _].
  pose proof (queue_ok_total _ _ H1). pose proof (queue_ok_total _ _ H2).
  destruct H1, H2. split_and!; [done|lia..].
Qed.
End Invariant.
End Pump.

(** ** A run

    The engine answers, a frame of its answer is on its way to the connection, and
    the caller starts to speak. *)
Fixpoint schedule (l : list (nat * input)) (s : pump) : option pump :=
  match l with [] => Some s | (g, inp) :: l' => run_one DefaultRuntimeLimits g inp s ≫= schedule l' end.
Lemma schedule_run l : forall s s', Forall (fun e => small e.2) l -> schedule l s = Some s' ->
  rtc (pump_step DefaultRuntimeLimits) s s'.
Proof.
  induction l as [|[g inp] l IH]; simpl; intros s s' Hs H; [injection H as <-; apply rtc_refl|].
  apply Forall_cons in Hs as [Hi Hs]. destruct (run_one _ g inp s) as [s1|] eqn:E; [|done].
  eapply rtc_l; [by exists g, inp|]. by apply IH.
Qed.
Definition ex_events (type : string) : list (nat * input) :=
  [(4%nat, IEvent (plain_event type 0)); (4%nat, IResult (inl tt)); (4%nat, IProceed)].
Definition ex_barge : list (nat * input) :=
  [(0%nat, IFrame ex_frame); (0%nat, IProceed); (1%nat, IProceed)]
  ++ ex_events EventResponseStarted
  ++ [(2%nat, IFrame ex_frame); (2%nat, IProceed); (2%nat, IProceed)]
  ++ repeat (3%nat, IProceed) 4 ++ ex_events EventSpeechStarted
  ++ [(4%nat, IProceed); (3%nat, IResult (inl tt))].
Definition ex_pump : pump := default (newPump DefaultRuntimeLimits) (schedule ex_barge (newPump DefaultRuntimeLimits)).
Lemma ex_pump_run : rtc (pump_step DefaultRuntimeLimits) (newPump DefaultRuntimeLimits) ex_pump.
Proof.
  apply schedule_run with ex_barge; [|vm_compute; reflexivity].
  repeat constructor; vm_compute; done.
Qed.
Lemma barge_in_silences_witness : since_suppressed (pm_heard ex_pump) = Some 1%nat /\ (1 <= 1)%nat.
Proof.
  assert (H : since_suppressed (pm_heard ex_pump) = Some 1%nat) by (vm_compute; reflexivity).
  split; [exact H|].
  refine (barge_in_silences DefaultRuntimeLimits _ _ ex_pump 1 ex_pump_run H); by vm_compute.
Defined.
Lemma engine_hears_in_order_witness :
  pm_pushed ex_pump = pm_sent ex_pump ++ provider_holds ex_pump ++ q_frames (pm_in ex_pump).
Proof. refine (proj1 (engine_hears_in_order DefaultRuntimeLimits _ _ ex_pump ex_pump_run)); by vm_compute. Defined.
End MediaPump.
