(* ===== verification/MediaManager.v ===== *)
(** * The media session manager

    [server/internal/media/session/manager.go]. The manager runs in many
    goroutines at once: calls of its methods, the pump of every attached
    connection, attachment timers and the goroutines [Drain] starts. A goroutine is
    a program counter [pc]; [exec] runs it from one point at which other goroutines
    can be scheduled to the next: a critical section of the manager or of a session,
    a channel operation, an atomic counter. [Inductive step] interleaves them.

    A session is known by the address of its [managedSession]; [heap] holds them
    all, [sessions] is the manager's map. [Start] keeps the manager locked while the
    engine starts, so it is one step, whose outcome is an input. The pump is seen
    from here only through the events it publishes and the error it returns
    ([MediaPump.v] has its goroutines). Failing to start after the timeout, engines
    and connections are outside: they answer through the inputs. *)

From S2P Require Import Prelude Json MediaSession.
Import MediaSession.

Module MediaManager.

(** ** State *)
Inductive timer := NoTimer | Armed | Stopped | Fired.
Inductive once := NotRun | Running | Ran.
#[export] Instance timer_eq_dec : EqDecision timer.
Proof. solve_decision. Defined.
#[export] Instance once_eq_dec : EqDecision once.
Proof. solve_decision. Defined.

(** [managedSession]: its attachment, its control channel, its end. *)
Record attachment := { at_attached : bool; at_timer : timer; at_connection : option ConnectionMetadata }.
Record control := { ct_control : option nat; ct_open : bool; ct_done : bool }.
Record ending := {
  en_finished : bool; en_once : once; en_cancelled : bool; en_stream_closes : nat;
  en_connection_closes : nat; en_complete : bool;
}.
Record managed := { m_config : Config; m_at : attachment; m_ct : control; m_en : ending }.
(** A control channel: the session it was made for, its buffer of capacity 64. *)
Record channel := { ch_session : nat; ch_buffer : list Event; ch_closed : bool }.

Record world := {
  sessions : gmap Z nat; heap : gmap nat managed; chans : gmap nat channel;
  engines : gset string; capacity : Z; draining : bool; changed : bool; metrics : Metrics;
  panicked : bool;
}.
Definition set_sessions s w := {| sessions := s; heap := heap w; chans := chans w; engines := engines w;
  capacity := capacity w; draining := draining w; changed := changed w; metrics := metrics w; panicked := panicked w |}.
Definition set_heap h w := {| sessions := sessions w; heap := h; chans := chans w; engines := engines w;
  capacity := capacity w; draining := draining w; changed := changed w; metrics := metrics w; panicked := panicked w |}.
Definition set_chans c w := {| sessions := sessions w; heap := heap w; chans := c; engines := engines w;
  capacity := capacity w; draining := draining w; changed := changed w; metrics := metrics w; panicked := panicked w |}.
Definition set_draining d w := {| sessions := sessions w; heap := heap w; chans := chans w; engines := engines w;
  capacity := capacity w; draining := d; changed := changed w; metrics := metrics w; panicked := panicked w |}.
Definition set_changed d w := {| sessions := sessions w; heap := heap w; chans := chans w; engines := engines w;
  capacity := capacity w; draining := draining w; changed := d; metrics := metrics w; panicked := panicked w |}.
Definition upd_metrics f w := {| sessions := sessions w; heap := heap w; chans := chans w; engines := engines w;
  capacity := capacity w; draining := draining w; changed := changed w; metrics := f (metrics w); panicked := panicked w |}.
Definition panic w := {| sessions := sessions w; heap := heap w; chans := chans w; engines := engines w;
  capacity := capacity w; draining := draining w; changed := changed w; metrics := metrics w; panicked := true |}.

Definition upd_at (f : attachment -> attachment) (m : managed) : managed :=
  {| m_config := m_config m; m_at := f (m_at m); m_ct := m_ct m; m_en := m_en m |}.
Definition upd_ct (f : control -> control) (m : managed) : managed :=
  {| m_config := m_config m; m_at := m_at m; m_ct := f (m_ct m); m_en := m_en m |}.
Definition upd_en (f : ending -> ending) (m : managed) : managed :=
  {| m_config := m_config m; m_at := m_at m; m_ct := m_ct m; m_en := f (m_en m) |}.
Definition set_finished e := {| en_finished := true; en_once := en_once e; en_cancelled := en_cancelled e;
  en_stream_closes := en_stream_closes e; en_connection_closes := en_connection_closes e; en_complete := en_complete e |}.
Definition set_once o e := {| en_finished := en_finished e; en_once := o; en_cancelled := en_cancelled e;
  en_stream_closes := en_stream_closes e; en_connection_closes := en_connection_closes e; en_complete := en_complete e |}.
Definition set_cancelled e := {| en_finished := en_finished e; en_once := en_once e; en_cancelled := true;
  en_stream_closes := en_stream_closes e; en_connection_closes := en_connection_closes e; en_complete := en_complete e |}.
Definition close_stream e := {| en_finished := en_finished e; en_once := en_once e; en_cancelled := en_cancelled e;
  en_stream_closes := S (en_stream_closes e); en_connection_closes := en_connection_closes e; en_complete := en_complete e |}.
Definition close_connection e := {| en_finished := en_finished e; en_once := en_once e; en_cancelled := en_cancelled e;
  en_stream_closes := en_stream_closes e; en_connection_closes := S (en_connection_closes e); en_complete := en_complete e |}.
(** [markComplete]: [completeOnce] lets only the first caller close the channel. *)
Definition set_complete e := {| en_finished := en_finished e; en_once := en_once e; en_cancelled := en_cancelled e;
  en_stream_closes := en_stream_closes e; en_connection_closes := en_connection_closes e; en_complete := true |}.
Definition stop_timer (t : timer) : timer := match t with Armed => Stopped | t => t end.
Definition stop_at a := {| at_attached := at_attached a; at_timer := stop_timer (at_timer a);
  at_connection := at_connection a |}.
Definition no_control c := {| ct_control := None; ct_open := false; ct_done := ct_done c |}.
Definition close_done c := {| ct_control := ct_control c; ct_open := ct_open c; ct_done := true |}.

(** ** [NewManager] *)
Definition NewManager (cap : Z) (attachTimeout : Z) (es : gset string) (limits : RuntimeLimits)
    : result world :=
  if cap <=? 0 then inr (Errorf "media session capacity must be positive" []) else
  if bool_decide (es = ∅) then inr (Errorf "at least one media engine is required" []) else
  if attachTimeout <=? 0 then inr (Errorf "media attachment timeout must be positive" []) else
  let? _ := RuntimeLimits_validate limits in
  inl {| sessions := ∅; heap := ∅; chans := ∅; engines := es; capacity := cap; draining := false;
         changed := false; metrics := newMetrics; panicked := false |}.

(** ** Goroutines *)

(** What a goroutine does after [finish], and after [remove]. *)
Inductive after_finish :=
| ToStop (id : UUID)
| ToAttach (id : UUID) (err : result unit)
| ToTimer (id : UUID)
| ToDrainGo.
Inductive after_remove :=
| RReturn (r : result unit)
| RDrain (rest : list (UUID * nat)).

Inductive pc :=
| StartCall (cfg : Config)
| AttachLookup (conn : ConnectionMetadata)
| AttachEnter (p : nat) (conn : ConnectionMetadata)
| Pumping (p : nat) (id : UUID)
| AttachFailed (p : nat) (id : UUID) (err : error)
| AttachPublish (p : nat) (id : UUID) (err : error)
| Finish (p : nat) (k : after_finish)
| FinishResources (p : nat) (attached : bool) (k : after_finish)
| CancelContext (p : nat) (attached : bool) (k : after_finish)
| CloseControl (p : nat) (attached : bool) (k : after_finish)
| CloseChannels (p : nat) (c : option nat) (attached : bool) (k : after_finish)
| CloseStream (p : nat) (attached : bool) (k : after_finish)
| CloseConnection (p : nat) (attached : bool) (k : after_finish)
| CompleteUnattached (p : nat) (attached : bool) (k : after_finish)
| OnceReturn (p : nat) (k : after_finish)
| Finished (p : nat) (k : after_finish)
| MarkComplete (p : nat) (id : UUID) (err : result unit)
| WaitComplete (p : nat) (id : UUID)
| Remove (id : UUID) (p : nat) (k : after_remove)
| CountRemoved (k : after_remove)
| CountCompleted (k : after_remove)
| Notify (k : after_remove)
| TimerPublish (id : UUID) (p : nat)
| TimerEnter (id : UUID) (p : nat)
| StopLookup (id : UUID)
| DrainBegin
| DrainWait (rest : list (UUID * nat))
| DrainLoop
| DrainIdle
| ControlLookup (id : UUID)
| ControlEnter (p : nat)
| ControlAttached (p : nat) (c : nat)
| ControlClose (p : nat)
| CommandCall (id : UUID) (p : nat) (cmd : Command)
| Interrupt (p : nat)
| InterruptStream (p : nat) (conn : bool)
| InterruptPlayback (p : nat)
| SubmitToolResult (p : nat)
| SubmitStream (p : nat)
| Returned (r : result unit).

(** What the outside decides at a step: an engine that starts, fails or is late;
    the pump publishing an event or returning; the context of the caller ending; a
    stream or connection answering. *)
Inductive input :=
| Proceed
| EngineStarted
| EngineFailed (e : error)
| EngineLate
| PumpEvent (ev : Event)
| PumpReturns (r : result unit)
| ContextDone (e : error)
| Answers (r : result unit).

Section Exec.
(** The text of an error, and the clock. *)
Context (error_text : error -> string) (now : Z).

(** [Ready], [Active], [SessionIDs] and [Config]. *)
Definition Ready (w : world) : bool := negb (draining w) && (Z.of_nat (size (sessions w)) <? capacity w).
Definition Active (w : world) : Z := Z.of_nat (size (sessions w)).
Definition SessionIDs (w : world) : gset Z := dom (sessions w).
Definition live_config (w : world) (id : UUID) : option Config :=
  p ← sessions w !! id; m ← heap w !! p; Some (m_config m).

(** Update the session at [p]. *)
Definition with_managed (p : nat) (f : managed -> managed) (w : world) : world :=
  match heap w !! p with Some m => set_heap (<[p := f m]> (heap w)) w | None => w end.

(** [Manager.Start], under the manager's lock. *)
Definition Start (cfg : Config) (inp : input) (w : world) : option (world * result unit) :=
  match Config_Validate cfg with
  | inr e => Some (w, inr e)
  | inl _ =>
  if draining w then Some (w, inr (Sentinel ErrManagerDraining)) else
  if bool_decide (is_Some (sessions w !! cfg_ID cfg)) then Some (w, inr (Sentinel ErrSessionAlreadyExists)) else
  if capacity w <=? Z.of_nat (size (sessions w)) then Some (w, inr (Sentinel ErrCapacityExceeded)) else
  if negb (bool_decide (cfg_Engine cfg ∈ engines w))
  then Some (w, inr (Errorf "media engine %q is not configured" [cfg_Engine cfg])) else
  match inp with
  | EngineFailed e => Some (w, inr (Wrapf "start media engine: %w" [] e))
  | EngineLate => Some (upd_metrics (failure FailureProviderTimeout) w, inr (Sentinel ErrProviderStartTimeout))
  | EngineStarted =>
      let p := fresh (dom (heap w)) in
      let m := {| m_config := cfg;
                  m_at := {| at_attached := false; at_timer := Armed; at_connection := None |};
                  m_ct := {| ct_control := None; ct_open := false; ct_done := false |};
                  m_en := {| en_finished := false; en_once := NotRun; en_cancelled := false;
                             en_stream_closes := 0; en_connection_closes := 0; en_complete := false |} |} in
      Some (upd_metrics sessionStarted
              (set_heap (<[p := m]> (heap w)) (set_sessions (<[cfg_ID cfg := p]> (sessions w)) w)), inl tt)
  | _ => None
  end
  end.

(** [managedSession.publish]; sending on a closed channel panics. *)
Definition publish (p : nat) (ev : Event) (w : world) : world * result unit :=
  match heap w !! p with
  | Some m =>
      match ct_control (m_ct m) with
      | Some c =>
          if ct_open (m_ct m) then
            match chans w !! c with
            | Some ch =>
                if ch_closed ch then (panic w, inl tt) else
                if (length (ch_buffer ch) <? 64)%nat
                then (set_chans (<[c := {| ch_session := ch_session ch; ch_buffer := ch_buffer ch ++ [ev];
                                           ch_closed := false |}]> (chans w)) w, inl tt)
                else (w, inr (Sentinel ErrControlBackpressure))
            | None => (w, inl tt)
            end
          else (w, inl tt)
      | None => (w, inl tt)
      end
  | None => (w, inl tt)
  end.

(** [close(ch)]; closing a closed channel panics. *)
Definition close_chan (c : nat) (w : world) : world :=
  match chans w !! c with
  | Some ch => if ch_closed ch then panic w
               else set_chans (<[c := {| ch_session := ch_session ch; ch_buffer := ch_buffer ch; ch_closed := true |}]>
                                 (chans w)) w
  | None => w
  end.

(** The checks of [Attach] before its critical section. *)
Definition attach_mismatch (cfg : Config) (conn : ConnectionMetadata) : option error :=
  if negb (bool_decide (cm_CallID conn = cfg_CallID cfg)) || negb (bool_decide (cm_ChannelID conn = cfg_ChannelID cfg))
     || negb (bool_decide (cm_OrganizationID conn = cfg_OrganizationID cfg))
  then Some (Errorf "media connection identity does not match session" []) else
  if negb (bool_decide (cm_Format conn = cfg_InputFormat cfg)) || negb (bool_decide (cm_Format conn = cfg_OutputFormat cfg))
  then Some (Errorf "media connection format does not match session" []) else None.

(** The lookup and the critical section of [Attach]. *)
Definition attach_lookup (conn : ConnectionMetadata) (w : world) : pc :=
  match sessions w !! cm_SessionID conn with
  | Some p => AttachEnter p conn
  | None => Returned (inr (Sentinel ErrSessionNotFound))
  end.
Definition attach_enter (p : nat) (conn : ConnectionMetadata) (m : managed) (w : world) : world * pc :=
  match attach_mismatch (m_config m) conn with
  | Some e => (w, Returned (inr e))
  | None =>
      if at_attached (m_at m) then (w, Returned (inr (Sentinel ErrSessionAlreadyAttached))) else
      if en_finished (m_en m) || en_cancelled (m_en m) then (w, Returned (inr (Sentinel ErrSessionNotFound))) else
      (upd_metrics observeAttachLatency
         (with_managed p (upd_at (fun a => {| at_attached := true; at_timer := stop_timer (at_timer a);
                                              at_connection := Some conn |})) w),
       Pumping p (cm_SessionID conn))
  end.

(** [AttachControl]: the channel it makes, and [ControlAttachment.Close]. *)
Definition control_enter (p : nat) (m : managed) (w : world) : world * pc :=
  if en_finished (m_en m) || en_cancelled (m_en m) then (w, Returned (inr (Sentinel ErrSessionNotFound))) else
  if ct_open (m_ct m) then (w, Returned (inr (Sentinel ErrControlAlreadyAttached))) else
  let c := fresh (dom (chans w)) in
  (with_managed p (upd_ct (fun t => {| ct_control := Some c; ct_open := true; ct_done := ct_done t |}))
     (set_chans (<[c := {| ch_session := p; ch_buffer := []; ch_closed := false |}]> (chans w)) w),
   ControlAttached p c).
Definition control_close (p : nat) (m : managed) (w : world) : world :=
  match ct_control (m_ct m) with
  | Some c => if ct_open (m_ct m) then close_chan c (with_managed p (upd_ct no_control) w) else w
  | None => w
  end.

(** The critical section of [remove]. *)
Definition remove_session (id : UUID) (p : nat) (k : after_remove) (w : world) : world * pc :=
  if bool_decide (sessions w !! id = Some p)
  then (set_sessions (delete id (sessions w)) w, CountRemoved k) else (w, Notify k).
Definition resume (k : after_remove) : pc :=
  match k with RReturn r => Returned r | RDrain rest => DrainWait rest end.

(** [pump]'s error as [Attach] returns it. *)
Definition attach_result (r : result unit) : result unit := if isNormalDisconnect r then inl tt else r.

(** [Attach], the pump aside; [markComplete] is its last step on the session. *)
Definition exec_attach (inp : input) (c : pc) (w : world) : option (world * pc * list pc) :=
  match c with
  | AttachLookup conn => Some (w, attach_lookup conn w, [])
  | AttachEnter p conn => m ← heap w !! p; let '(w', c') := attach_enter p conn m w in Some (w', c', [])
  | Pumping p id =>
      match inp with
      | PumpEvent ev => Some (fst (publish p ev w), Pumping p id, [])
      | PumpReturns r =>
          match r with
          | inr e => if isNormalDisconnect r then Some (w, Finish p (ToAttach id (attach_result r)), [])
                     else Some (w, AttachFailed p id e, [])
          | inl _ => Some (w, Finish p (ToAttach id (attach_result r)), [])
          end
      | _ => None
      end
  | AttachFailed p id e => Some (upd_metrics (failure (classifyFailure e)) w, AttachPublish p id e, [])
  | AttachPublish p id e =>
      let w' := if errors_Is e ErrProviderFailure then w
                else fst (publish p (terminalFailureEvent (classifyFailure e) (error_text e) now) w) in
      Some (w', Finish p (ToAttach id (attach_result (inr e))), [])
  | MarkComplete p id err => Some (with_managed p (upd_en set_complete) w, Remove id p (RReturn err), [])
  | _ => None
  end.
(** [finish], [finishResources] and [closeControl], and where the goroutine goes on. *)
Definition exec_finish (inp : input) (c : pc) (w : world) : option (world * pc * list pc) :=
  match c with
  | Finish p k =>
      m ← heap w !! p;
      Some (with_managed p (fun m => upd_at stop_at (upd_en set_finished m)) w,
            FinishResources p (at_attached (m_at m)) k, [])
  | FinishResources p a k =>
      m ← heap w !! p;
      match en_once (m_en m) with
      | NotRun => Some (with_managed p (upd_en (set_once Running)) w, CancelContext p a k, [])
      | Running => None
      | Ran => Some (w, Finished p k, [])
      end
  | CancelContext p a k => Some (with_managed p (upd_en set_cancelled) w, CloseControl p a k, [])
  | CloseControl p a k =>
      m ← heap w !! p;
      Some (with_managed p (upd_ct no_control) w, CloseChannels p (ct_control (m_ct m)) a k, [])
  | CloseChannels p ch a k =>
      m ← heap w !! p;
      let w1 := match ch with Some c => close_chan c w | None => w end in
      Some (if ct_done (m_ct m) then panic w1 else with_managed p (upd_ct close_done) w1, CloseStream p a k, [])
  | CloseStream p a k => Some (with_managed p (upd_en close_stream) w, CloseConnection p a k, [])
  | CloseConnection p a k =>
      m ← heap w !! p;
      Some (match at_connection (m_at m) with
            | Some _ => with_managed p (upd_en close_connection) w | None => w end,
            CompleteUnattached p a k, [])
  | CompleteUnattached p a k =>
      Some (if a then w else with_managed p (upd_en set_complete) w, OnceReturn p k, [])
  | OnceReturn p k => Some (with_managed p (upd_en (set_once Ran)) w, Finished p k, [])
  | Finished p k =>
      match k with
      | ToStop id => Some (w, WaitComplete p id, [])
      | ToAttach id err => Some (w, MarkComplete p id err, [])
      | ToTimer id => Some (upd_metrics (failure FailureAttachTimeout) w, Remove id p (RReturn (inl tt)), [])
      | ToDrainGo => Some (w, Returned (inl tt), [])
      end
  | _ => None
  end.
(** [remove], with the two counters and the notification after its critical section. *)
Definition exec_remove (inp : input) (c : pc) (w : world) : option (world * pc * list pc) :=
  match c with
  | Remove id p k => let '(w', c') := remove_session id p k w in Some (w', c', [])
  | CountRemoved k => Some (upd_metrics sessionRemoved w, CountCompleted k, [])
  | CountCompleted k => Some (upd_metrics sessionCompleted w, Notify k, [])
  | Notify k => Some (set_changed true w, resume k, [])
  | _ => None
  end.
(** The function of the attachment timer, and [finishUnattached]. *)
Definition exec_timer (inp : input) (c : pc) (w : world) : option (world * pc * list pc) :=
  match c with
  | TimerPublish id p =>
      Some (fst (publish p (terminalFailureEvent FailureAttachTimeout "media session attachment timed out" now) w),
            TimerEnter id p, [])
  | TimerEnter id p =>
      m ← heap w !! p;
      if en_finished (m_en m) || at_attached (m_at m) then Some (w, Returned (inl tt), [])
      else Some (with_managed p (upd_en set_finished) w, FinishResources p false (ToTimer id), [])
  | _ => None
  end.
(** [Stop]. *)
Definition exec_stop (inp : input) (c : pc) (w : world) : option (world * pc * list pc) :=
  match c with
  | StopLookup id =>
      match sessions w !! id with
      | Some p => Some (w, Finish p (ToStop id), [])
      | None => Some (w, Returned (inr (Sentinel ErrSessionNotFound)), [])
      end
  | WaitComplete p id =>
      match inp with
      | ContextDone e => Some (w, Returned (inr e), [])
      | _ => m ← heap w !! p;
             if en_complete (m_en m) then Some (w, Remove id p (RReturn (inl tt)), []) else None
      end
  | _ => None
  end.
(** [Drain]. *)
Definition exec_drain (inp : input) (c : pc) (w : world) : option (world * pc * list pc) :=
  match c with
  | DrainBegin =>
      let snapshot := map_to_list (sessions w) in
      Some (set_draining true w, DrainWait snapshot, List.map (fun e => Finish e.2 ToDrainGo) snapshot)
  | DrainWait [] => Some (w, DrainLoop, [])
  | DrainWait ((id, p) :: rest) =>
      match inp with
      | ContextDone e => Some (w, Returned (inr e), [])
      | _ => m ← heap w !! p;
             if en_complete (m_en m) then Some (w, Remove id p (RDrain rest), []) else None
      end
  | DrainLoop =>
      if bool_decide (sessions w = ∅) then Some (w, Returned (inl tt), []) else Some (w, DrainIdle, [])
  | DrainIdle =>
      match inp with
      | ContextDone e => Some (w, Returned (inr e), [])
      | _ => if changed w then Some (set_changed false w, DrainLoop, []) else None
      end
  | _ => None
  end.
(** [AttachControl], [ControlAttachment.Close] and [ControlAttachment.Command]. *)
Definition exec_control (inp : input) (c : pc) (w : world) : option (world * pc * list pc) :=
  match c with
  | ControlLookup id =>
      if bool_decide (id = uuid_Nil) then Some (w, Returned (inr (Errorf "media session id is required" [])), []) else
      match sessions w !! id with
      | Some p => Some (w, ControlEnter p, [])
      | None => Some (w, Returned (inr (Sentinel ErrSessionNotFound)), [])
      end
  | ControlEnter p => m ← heap w !! p; let '(w', c') := control_enter p m w in Some (w', c', [])
  | ControlAttached p _ => Some (w, ControlClose p, [])
  | ControlClose p => m ← heap w !! p; Some (control_close p m w, Returned (inl tt), [])
  | CommandCall id p cmd =>
      match Command_Validate cmd with
      | inr e => Some (w, Returned (inr e), [])
      | inl _ => Some (w, if bool_decide (cmd_Type cmd = CommandInterrupt) then Interrupt p
                          else if bool_decide (cmd_Type cmd = CommandStop) then StopLookup id
                          else SubmitToolResult p, [])
      end
  | _ => None
  end.
(** [interrupt] and [submitToolResult]. *)
Definition exec_command (inp : input) (c : pc) (w : world) : option (world * pc * list pc) :=
  match c with
  | Interrupt p =>
      m ← heap w !! p;
      if en_finished (m_en m) then Some (w, Returned (inr (Sentinel ErrSessionNotFound)), [])
      else Some (w, InterruptStream p (bool_decide (is_Some (at_connection (m_at m)))), [])
  | InterruptStream p conn =>
      match inp with
      | Answers (inr e) => Some (w, Returned (inr e), [])
      | Answers (inl _) => Some (w, if conn then InterruptPlayback p else Returned (inl tt), [])
      | _ => None
      end
  | InterruptPlayback p => match inp with Answers r => Some (w, Returned r, []) | _ => None end
  | SubmitToolResult p =>
      m ← heap w !! p;
      if en_finished (m_en m) then Some (w, Returned (inr (Sentinel ErrSessionNotFound)), [])
      else Some (w, SubmitStream p, [])
  | SubmitStream p => match inp with Answers r => Some (w, Returned r, []) | _ => None end
  | _ => None
  end.

(** One step of a goroutine. *)
Definition exec (inp : input) (c : pc) (w : world) : option (world * pc * list pc) :=
  match c with
  | StartCall cfg => '(w', r) ← Start cfg inp w; Some (w', Returned r, [])
  | AttachLookup _ | AttachEnter _ _ | Pumping _ _ | AttachFailed _ _ _ | AttachPublish _ _ _ | MarkComplete _ _ _ => exec_attach inp c w
  | Finish _ _ | FinishResources _ _ _ | CancelContext _ _ _ | CloseControl _ _ _ | CloseChannels _ _ _ _ | CloseStream _ _ _ | CloseConnection _ _ _ | CompleteUnattached _ _ _ | OnceReturn _ _ | Finished _ _ => exec_finish inp c w
  | Remove _ _ _ | CountRemoved _ | CountCompleted _ | Notify _ => exec_remove inp c w
  | TimerPublish _ _ | TimerEnter _ _ => exec_timer inp c w
  | StopLookup _ | WaitComplete _ _ => exec_stop inp c w
  | DrainBegin | DrainWait _ | DrainLoop | DrainIdle => exec_drain inp c w
  | ControlLookup _ | ControlEnter _ | ControlAttached _ _ | ControlClose _ | CommandCall _ _ _ => exec_control inp c w
  | Interrupt _ | InterruptStream _ _ | InterruptPlayback _ | SubmitToolResult _ | SubmitStream _ => exec_command inp c w
  | Returned _ => None
  end.

(** ** The system

    A goroutine runs to its next scheduling point; a method is called; an
    attachment timer fires; the reader of a control channel takes an event. *)
Definition is_call (w : world) (c : pc) : Prop :=
  match c with
  | StartCall _ | AttachLookup _ | StopLookup _ | DrainBegin | ControlLookup _ => True
  | CommandCall id p _ => exists m, heap w !! p = Some m /\ cfg_ID (m_config m) = id
  | _ => False
  end.
Definition fire (a : attachment) : attachment :=
  {| at_attached := at_attached a; at_timer := Fired; at_connection := at_connection a |}.

Inductive step : world * list pc -> world * list pc -> Prop :=
| StepRun w pcs i c inp w' c' spawned :
    pcs !! i = Some c -> exec inp c w = Some (w', c', spawned) ->
    step (w, pcs) (w', <[i := c']> pcs ++ spawned)
| StepCall w pcs c : is_call w c -> step (w, pcs) (w, pcs ++ [c])
| StepTimer w pcs p m :
    heap w !! p = Some m -> at_timer (m_at m) = Armed ->
    step (w, pcs) (with_managed p (upd_at fire) w, pcs ++ [TimerPublish (cfg_ID (m_config m)) p])
| StepReceive w pcs x ch ev rest :
    chans w !! x = Some ch -> ch_buffer ch = ev :: rest ->
    step (w, pcs)
      (set_chans (<[x := {| ch_session := ch_session ch; ch_buffer := rest; ch_closed := ch_closed ch |}]>
                    (chans w)) w, pcs).
End Exec.
End MediaManager.
