(* ===== verification/MediaInvariant.v ===== *)
(** * The invariant of the media session manager

    What is true of the interleaved system of [MediaManager.v] in every state, and
    that every step of a goroutine keeps it. It has a part for each goroutine
    ([local]: what it knows at its program counter), one for each session
    ([session_ok]) and counts over the goroutines; [effect] is what a step may do to
    what the others know. [MediaSafety.v] draws the conclusions. *)

From S2P Require Import Prelude Json MediaSession MediaManager.
Import MediaSession MediaManager.

Module MediaInvariant.

(** ** Who acts on a session *)

(** The goroutine runs the body of [finishOnce]. *)
Definition runner (p : nat) (c : pc) : nat :=
  match c with
  | CancelContext q _ _ | CloseControl q _ _ | CloseChannels q _ _ _ | CloseStream q _ _
  | CloseConnection q _ _ | CompleteUnattached q _ _ | OnceReturn q _ => Nat.b2n (bool_decide (p = q))
  | _ => 0
  end.
Definition attach_owned (p q : nat) (k : after_finish) : nat :=
  match k with ToAttach _ _ => Nat.b2n (bool_decide (p = q)) | _ => 0 end.
(** The goroutine is the [Attach] that owns the pump, until [markComplete]. *)
Definition owner (p : nat) (c : pc) : nat :=
  match c with
  | Pumping q _ | AttachFailed q _ _ | AttachPublish q _ _ | MarkComplete q _ _ => Nat.b2n (bool_decide (p = q))
  | Finish q k | FinishResources q _ k | CancelContext q _ k | CloseControl q _ k | CloseChannels q _ _ k
  | CloseStream q _ k | CloseConnection q _ k | CompleteUnattached q _ k | OnceReturn q k
  | Finished q k => attach_owned p q k
  | _ => 0
  end.
(** The goroutine has yet to count the session it removed. *)
Definition uncounted_removed (c : pc) : nat := match c with CountRemoved _ => 1 | _ => 0 end.
Definition uncounted_completed (c : pc) : nat :=
  match c with CountRemoved _ | CountCompleted _ => 1 | _ => 0 end.
Definition total (f : pc -> nat) (pcs : list pc) : nat := sum_list_with f pcs.

(** ** Assertions *)
Definition session_at (w : world) (p : nat) (P : managed -> Prop) : Prop :=
  exists m, heap w !! p = Some m /\ P m.
Definition id_of (m : managed) : UUID := cfg_ID (m_config m).
Definition attached (m : managed) : bool := at_attached (m_at m).
Definition finished (m : managed) : bool := en_finished (m_en m).
Definition complete (m : managed) : bool := en_complete (m_en m).
Definition connection_closes (m : managed) : nat :=
  match at_connection (m_at m) with Some _ => 1 | None => 0 end.

(** How far [finishOnce] has come: [n] of its steps are done. *)
Record stage (n : nat) (m : managed) : Prop := {
  sg_cancelled : en_cancelled (m_en m) = (1 <=? n)%nat;
  sg_control : (2 <= n)%nat -> ct_control (m_ct m) = None;
  sg_done : ct_done (m_ct m) = (3 <=? n)%nat;
  sg_stream : en_stream_closes (m_en m) = Nat.b2n (4 <=? n)%nat;
  sg_connection : en_connection_closes (m_en m) = if (5 <=? n)%nat then connection_closes m else 0%nat;
  sg_complete : (6 <= n)%nat -> attached m = false -> complete m = true;
}.
Definition running (n : nat) (a : bool) (m : managed) : Prop :=
  en_once (m_en m) = Running /\ finished m = true /\ attached m = a /\ stage n m.
Definition ended (m : managed) : Prop := en_once (m_en m) = Ran /\ finished m = true.

(** What [Finish] is going to do fits the session. *)
Definition fits (k : after_finish) (m : managed) : Prop :=
  match k with
  | ToAttach id _ => id_of m = id /\ attached m = true
  | ToStop id => id_of m = id
  | ToTimer id => id_of m = id /\ finished m = true /\ attached m = false
  | ToDrainGo => True
  end.

(** What a draining goroutine knows: nothing starts any more, and the sessions
    left are those it has yet to wait for. *)
Definition drains (w : world) (rest : list (UUID * nat)) : Prop :=
  draining w = true /\ (forall id p, sessions w !! id = Some p -> (id, p) ∈ rest)
  /\ Forall (fun e => session_at w e.2 (fun m => id_of m = e.1)) rest.
Definition drains_after (w : world) (k : after_remove) (l : list (UUID * nat)) : Prop :=
  match k with RDrain rest => drains w (l ++ rest) | RReturn _ => True end.

Definition local (w : world) (c : pc) : Prop :=
  match c with
  | StartCall _ | AttachLookup _ | StopLookup _ | DrainBegin | ControlLookup _ | Returned _
  | InterruptStream _ _ | InterruptPlayback _ | SubmitStream _ => True
  | AttachEnter p conn => session_at w p (fun m => id_of m = cm_SessionID conn)
  | Pumping p id | AttachFailed p id _ | AttachPublish p id _ =>
      session_at w p (fun m => id_of m = id /\ attached m = true)
  | Finish p k => session_at w p (fits k)
  | FinishResources p a k => session_at w p (fun m => fits k m /\ finished m = true /\ attached m = a)
  | CancelContext p a k => session_at w p (fun m => fits k m /\ running 0 a m)
  | CloseControl p a k => session_at w p (fun m => fits k m /\ running 1 a m)
  | CloseChannels p x a k =>
      session_at w p (fun m => fits k m /\ running 2 a m) /\
      (forall c, x = Some c -> exists ch, chans w !! c = Some ch /\ ch_session ch = p /\ ch_closed ch = false)
  | CloseStream p a k => session_at w p (fun m => fits k m /\ running 3 a m)
  | CloseConnection p a k => session_at w p (fun m => fits k m /\ running 4 a m)
  | CompleteUnattached p a k => session_at w p (fun m => fits k m /\ running 5 a m)
  | OnceReturn p k => session_at w p (fun m => fits k m /\ exists a, running 6 a m)
  | Finished p k => session_at w p (fun m => fits k m /\ ended m)
  | MarkComplete p id _ => session_at w p (fun m => id_of m = id /\ attached m = true /\ ended m)
  | WaitComplete p id => session_at w p (fun m => id_of m = id /\ ended m)
  | Remove id p k => session_at w p (fun m => id_of m = id /\ complete m = true /\ finished m = true)
                     /\ drains_after w k [(id, p)]
  | CountRemoved k | CountCompleted k | Notify k => drains_after w k []
  | TimerPublish id p | TimerEnter id p => session_at w p (fun m => id_of m = id)
  | DrainWait rest => drains w rest
  | DrainLoop => drains w []
  | DrainIdle => False
  | ControlEnter p | ControlAttached p _ | ControlClose p | Interrupt p | SubmitToolResult p =>
      session_at w p (fun _ => True)
  | CommandCall id p _ => session_at w p (fun m => id_of m = id)
  end.

(** What a completed session has let go of: its context is cancelled, its control
    channel closed, its stream closed once, its connection closed once. *)
Definition released (m : managed) : Prop :=
  en_cancelled (m_en m) = true /\ ct_control (m_ct m) = None /\ ct_done (m_ct m) = true
  /\ en_stream_closes (m_en m) = 1%nat /\ en_connection_closes (m_en m) = connection_closes m.

Record session_ok (w : world) (p : nat) (m : managed) : Prop := {
  so_open : ct_open (m_ct m) = bool_decide (is_Some (ct_control (m_ct m)));
  so_control : forall x, ct_control (m_ct m) = Some x ->
    exists ch, chans w !! x = Some ch /\ ch_session ch = p /\ ch_closed ch = false;
  so_connection : attached m = bool_decide (is_Some (at_connection (m_at m)));
  so_notrun : en_once (m_en m) = NotRun -> stage 0 m;
  so_ran : en_once (m_en m) = Ran -> stage 6 m;
  so_finished : en_once (m_en m) <> NotRun -> finished m = true;
  so_complete : complete m = true -> finished m = true;
  so_released : complete m = true -> released m;
  so_live : complete m = false -> sessions w !! id_of m = Some p;
}.

Record inv (w : world) (pcs : list pc) : Prop := {
  inv_local : Forall (local w) pcs;
  inv_sessions : forall id p, sessions w !! id = Some p -> session_at w p (fun m => id_of m = id);
  inv_session : forall p m, heap w !! p = Some m -> session_ok w p m;
  inv_runner : forall p m, heap w !! p = Some m ->
    total (runner p) pcs = Nat.b2n (bool_decide (en_once (m_en m) = Running));
  inv_owner : forall p m, heap w !! p = Some m ->
    total (owner p) pcs = Nat.b2n (attached m && negb (complete m));
  inv_capacity : Z.of_nat (size (sessions w)) <= capacity w;
  inv_active : active (metrics w) = Z.of_nat (size (sessions w) + total uncounted_removed pcs);
  inv_started : started (metrics w) =
    completed (metrics w) + Z.of_nat (size (sessions w) + total uncounted_completed pcs);
  inv_panic : panicked w = false;
}.

(** ** Changes of a session *)

(** By a goroutine outside [finishOnce], and by the one that runs it. *)
Record other_change (m m' : managed) : Prop := {
  oc_config : m_config m' = m_config m;
  oc_finished : finished m = true -> finished m' = true;
  oc_attached : attached m = true -> attached m' = true;
  oc_frozen : finished m = true -> m_at m' = stop_at (m_at m) \/ m_at m' = m_at m
                                   \/ m_at m' = fire (m_at m);
  oc_complete : complete m = true -> complete m' = true;
  oc_cancelled : en_cancelled (m_en m') = en_cancelled (m_en m);
  oc_done : ct_done (m_ct m') = ct_done (m_ct m);
  oc_stream : en_stream_closes (m_en m') = en_stream_closes (m_en m);
  oc_closes : en_connection_closes (m_en m') = en_connection_closes (m_en m);
  oc_once : en_once (m_en m) <> NotRun -> en_once (m_en m') = en_once (m_en m);
  oc_control : finished m = true -> ct_control (m_ct m) = None -> ct_control (m_ct m') = None;
}.
Record run_change (m m' : managed) : Prop := {
  rc_config : m_config m' = m_config m;
  rc_at : m_at m' = m_at m;
  rc_finished : finished m' = finished m;
  rc_complete : complete m = true -> complete m' = true;
  rc_once : en_once (m_en m) = Running;
}.

#[export] Instance other_change_refl : Reflexive other_change.
Proof. intros m. split; auto. Qed.

Lemma with_managed_lookup p f w q :
  heap (with_managed p f w) !! q = if decide (q = p) then f <$> heap w !! q else heap w !! q.
Proof.
  unfold with_managed. destruct (heap w !! p) eqn:E; simpl; case_decide; subst; rewrite ?E; simpl.
  - by rewrite lookup_insert_eq.
  - by rewrite lookup_insert_ne.
  - done.
  - done.
Qed.
Lemma with_managed_rest p f w : let w' := with_managed p f w in
  sessions w' = sessions w /\ chans w' = chans w /\ draining w' = draining w /\ capacity w' = capacity w
  /\ metrics w' = metrics w /\ panicked w' = panicked w /\ changed w' = changed w.
Proof. unfold with_managed. by destruct (heap w !! p). Qed.

Lemma session_at_mono w w' p (P Q : managed -> Prop) :
  session_at w p P ->
  (forall m, heap w !! p = Some m -> exists m', heap w' !! p = Some m' /\ (P m -> Q m')) ->
  session_at w' p Q.
Proof. intros (m & Hm & HP) H. destruct (H m Hm) as (m' & Hm' & HQ). exists m'. auto. Qed.
Lemma session_at_impl w p (P Q : managed -> Prop) :
  session_at w p P -> (forall m, P m -> Q m) -> session_at w p Q.
Proof. intros (m & Hm & HP) H. exists m. auto. Qed.

(** What a goroutine knows of a session stays true while others run. *)
Definition changes (r : bool) (m m' : managed) : Prop := other_change m m' \/ (r = true /\ run_change m m').

Lemma changes_config r m m' : changes r m m' -> id_of m' = id_of m.
Proof. unfold id_of. intros [H|[_ H]]; [by rewrite (oc_config _ _ H)|by rewrite (rc_config _ _ H)]. Qed.
Lemma changes_attached r m m' : changes r m m' -> attached m = true -> attached m' = true.
Proof. unfold attached. intros [H|[_ H]] Ha; [by apply (oc_attached _ _ H)|by rewrite (rc_at _ _ H)]. Qed.
Lemma changes_finished r m m' : changes r m m' -> finished m = true -> finished m' = true.
Proof. intros [H|[_ H]] Ha; [by apply (oc_finished _ _ H)|by rewrite (rc_finished _ _ H)]. Qed.
Lemma changes_complete r m m' : changes r m m' -> complete m = true -> complete m' = true.
Proof. intros [H|[_ H]] Ha; [by apply (oc_complete _ _ H)|by apply (rc_complete _ _ H)]. Qed.
Lemma changes_frozen r m m' : changes r m m' -> finished m = true ->
  attached m' = attached m /\ at_connection (m_at m') = at_connection (m_at m).
Proof.
  unfold attached. intros [H|[_ H]] Ha; [|by rewrite (rc_at _ _ H)].
  by destruct (oc_frozen _ _ H Ha) as [E|[E|E]]; rewrite E.
Qed.
Lemma changes_fits r m m' k : changes r m m' -> fits k m -> fits k m'.
Proof.
  intros H. pose proof (changes_config _ _ _ H). pose proof (changes_attached _ _ _ H).
  destruct k; simpl; try (intuition congruence). intros (Hid & Hf & Ha).
  pose proof (changes_finished _ _ _ H Hf). destruct (changes_frozen _ _ _ H Hf) as [Ha' _].
  split_and!; congruence.
Qed.
Lemma changes_ended r m m' : changes r m m' -> ended m -> ended m'.
Proof.
  intros H [Ho Hf]. split; [|by eapply changes_finished].
  destruct H as [H|[_ H]]; [|by rewrite (rc_once _ _ H) in Ho].
  rewrite (oc_once _ _ H), Ho; [done|by rewrite Ho].
Qed.
Lemma changes_stage n m m' : other_change m m' -> finished m = true -> stage n m -> stage n m'.
Proof.
  intros H Hf [H1 H2 H3 H4 H5 H6]. pose proof (changes_frozen false m m' (or_introl H) Hf) as [Ha Hc].
  split.
  - by rewrite (oc_cancelled _ _ H).
  - intros Hn. apply (oc_control _ _ H Hf). auto.
  - by rewrite (oc_done _ _ H).
  - by rewrite (oc_stream _ _ H).
  - rewrite (oc_closes _ _ H), H5. unfold connection_closes. by rewrite Hc.
  - intros Hn. rewrite Ha. intros. apply (oc_complete _ _ H). auto.
Qed.
Lemma changes_running n a m m' : changes false m m' -> running n a m -> running n a m'.
Proof.
  intros [H|[? _]] (Ho & Hf & Ha & Hs); [|done]. split_and!.
  - rewrite (oc_once _ _ H); [done|by rewrite Ho].
  - by apply (oc_finished _ _ H).
  - rewrite <- Ha. by apply (changes_frozen false m m' (or_introl H)).
  - by apply changes_stage with m.
Qed.

(** ** What a step does to the world *)
Record effect (c : pc) (w w' : world) : Prop := {
  ef_heap : forall p m, heap w !! p = Some m ->
    exists m', heap w' !! p = Some m' /\ changes (bool_decide (runner p c = 1%nat)) m m';
  ef_chans : forall x ch, chans w !! x = Some ch ->
    exists ch', chans w' !! x = Some ch' /\ ch_session ch' = ch_session ch
      /\ (ch_closed ch' = ch_closed ch \/ runner (ch_session ch) c = 1%nat
          \/ session_at w (ch_session ch) (fun m => ct_control (m_ct m) = Some x));
  ef_drain : draining w = true -> draining w' = true /\ sessions w' ⊆ sessions w;
}.

Lemma drains_effect c w w' rest : effect c w w' -> drains w rest -> drains w' rest.
Proof.
  intros [Hh _ Hd] (Hdr & Hs & HF). destruct (Hd Hdr) as [? Hsub]. split_and!; [done| |].
  - intros id p Hp. apply Hs. by eapply lookup_weaken.
  - eapply Forall_impl; [exact HF|]. intros [id p] Hat. eapply session_at_mono; [exact Hat|].
    intros m Hm. destruct (Hh p m Hm) as (m' & ? & Hc). exists m'. split; [done|].
    by rewrite (changes_config _ _ _ Hc).
Qed.

(** Steps of [c] keep what another goroutine [d] knows. *)
Lemma local_effect c d w w' : effect c w w' ->
  (forall p, (runner p c + runner p d <= 1)%nat) -> local w d -> local w' d.
Proof.
  intros He Hr Hd.
  assert (Hany : forall p (P Q : managed -> Prop), session_at w p P ->
    (forall r m m', changes r m m' -> P m -> Q m') -> session_at w' p Q).
  { intros p P Q HP HPQ. eapply session_at_mono; [exact HP|]. intros m Hm.
    destruct (ef_heap _ _ _ He p m Hm) as (m' & ? & Hc). eauto. }
  assert (Hrun : forall p (P Q : managed -> Prop), runner p d = 1%nat -> session_at w p P ->
    (forall m m', changes false m m' -> P m -> Q m') -> session_at w' p Q).
  { intros p P Q Hone HP HPQ. eapply session_at_mono; [exact HP|]. intros m Hm.
    destruct (ef_heap _ _ _ He p m Hm) as (m' & ? & Hc). rewrite bool_decide_eq_false_2 in Hc; [eauto|].
    specialize (Hr p). lia. }
  assert (Hself : forall p : nat, Nat.b2n (bool_decide (p = p)) = 1%nat) by (intros; by rewrite bool_decide_eq_true_2).
  destruct d; simpl in Hd |- *; try done;
    try (eapply Hany; [exact Hd|]; simpl; intros r m m' Hc;
         pose proof (changes_config _ _ _ Hc); pose proof (changes_attached _ _ _ Hc);
         pose proof (changes_finished _ _ _ Hc); pose proof (changes_complete _ _ _ Hc);
         pose proof (changes_ended _ _ _ Hc); intuition congruence);
    try (eapply Hrun; [by apply Hself|exact Hd|]; simpl; intros m m' Hc [? ?]; split;
         [by eapply changes_fits|by eapply changes_running]);
    try (by eapply drains_effect).
  - eapply Hany; [exact Hd|]. intros r m m' Hc. by apply changes_fits with r.
  - eapply Hany; [exact Hd|]. intros r m m' Hc (Hf & Hfin & Ha). split_and!.
    + by apply changes_fits with r m. + by apply changes_finished with r m.
    + rewrite <- Ha. by apply changes_frozen with r.
  - destruct Hd as [Hd Hx]. split.
    + eapply Hrun; [by apply Hself|exact Hd|]. simpl. intros m m' Hc [? ?].
      split; [by eapply changes_fits|by eapply changes_running].
    + intros x ->. destruct (Hx x eq_refl) as (ch & Hch & Hses & Hcl).
      destruct (ef_chans _ _ _ He x ch Hch) as (ch' & Hch' & Hses' & Hor).
      exists ch'. split_and!; [done|congruence|]. destruct Hor as [->|[Hone|Hat]]; [done|exfalso..].
      * specialize (Hr p). rewrite Hses in Hone. simpl in Hr. rewrite Hself in Hr. lia.
      * rewrite Hses in Hat. destruct Hat as (m & Hm & Hcx). destruct Hd as (m0 & Hm0 & _ & _ & _ & _ & Hs).
        assert (m0 = m) as -> by congruence. by rewrite (sg_control _ _ Hs) in Hcx.
  - eapply Hrun; [by apply Hself|exact Hd|]. simpl. intros m m' Hc [? [a ?]].
    split; [by eapply changes_fits|]. exists a. by eapply changes_running.
  - eapply Hany; [exact Hd|]. intros r m m' Hc [? ?].
    split; [by eapply changes_fits|by eapply changes_ended].
  - destruct Hd as [Hd Hk]. split.
    + eapply Hany; [exact Hd|]. intros r m m' Hc (? & ? & ?).
      split_and!; [by rewrite (changes_config _ _ _ Hc)|by eapply changes_complete|by eapply changes_finished].
    + destruct k; [done|]. simpl in *. by eapply drains_effect.
  - destruct k; [done|]. simpl in *. by eapply drains_effect.
  - destruct k; [done|]. simpl in *. by eapply drains_effect.
  - destruct k; [done|]. simpl in *. by eapply drains_effect.
Qed.

(** ** Effects of the steps *)
Definition sessions_ok (w : world) : Prop := forall p m, heap w !! p = Some m -> session_ok w p m.

Lemma changes_refl r m : changes r m m.
Proof. left. reflexivity. Qed.
#[local] Hint Resolve changes_refl : core.

(** The parts of the world the assertions read. *)
Lemma effect_same c w w' : heap w' = heap w -> chans w' = chans w ->
  (draining w = true -> draining w' = true) -> sessions w' = sessions w -> effect c w w'.
Proof. intros Hh Hc Hd Hs. split; rewrite ?Hh, ?Hc, ?Hs; eauto. Qed.
Lemma effect_managed c p f w w1 :
  (forall m, heap w !! p = Some m -> changes (bool_decide (runner p c = 1%nat)) m (f m)) ->
  effect c w w1 -> heap w1 = heap w -> effect c w (with_managed p f w1).
Proof.
  intros Hf [_ Hc Hd] Hh. destruct (with_managed_rest p f w1) as (Es & Ec & Ed & _). simpl in *. split.
  - intros q m Hm. rewrite with_managed_lookup, Hh, Hm.
    destruct (decide (q = p)) as [->|]; simpl; eauto.
  - by rewrite Ec.
  - by rewrite Es, Ed.
Qed.
Lemma effect_metrics c f w w' : effect c w w' -> effect c w (upd_metrics f w').
Proof. by intros [? ? ?]. Qed.
Lemma effect_refl c w : effect c w w.
Proof. by apply effect_same. Qed.
Lemma effect_sub c s w : s ⊆ sessions w -> effect c w (set_sessions s w).
Proof. intros Hs. split; simpl; eauto. Qed.

(** Publishing changes the buffer of an open channel of the session at most. *)
Definition rebuffer (x : nat) (ch : channel) (buf : list Event) (w : world) : world :=
  set_chans (<[x := {| ch_session := ch_session ch; ch_buffer := buf; ch_closed := ch_closed ch |}]> (chans w)) w.
Lemma rebuffer_effect c x ch buf w : chans w !! x = Some ch -> effect c w (rebuffer x ch buf w).
Proof.
  intros Hx. split; simpl; [eauto| |eauto]. intros y ch' Hy.
  destruct (decide (y = x)) as [->|Hne]; [|rewrite lookup_insert_ne by done; eauto].
  rewrite lookup_insert_eq. eexists. split; [done|]. simplify_eq. auto.
Qed.
Lemma publish_cases p ev w : sessions_ok w ->
  fst (publish p ev w) = w \/ exists x ch buf, chans w !! x = Some ch /\ ch_closed ch = false
    /\ fst (publish p ev w) = rebuffer x ch buf w.
Proof.
  intros Hok. unfold publish. destruct (heap w !! p) as [m|] eqn:Em; [|by left].
  destruct (ct_control (m_ct m)) as [x|] eqn:Ex; [|by left].
  destruct (ct_open (m_ct m)); [|by left].
  destruct (so_control _ _ _ (Hok p m Em) x Ex) as (ch & Hch & _ & Hcl). rewrite Hch, Hcl.
  destruct (_ <? 64)%nat; [|by left]. right. exists x, ch, (ch_buffer ch ++ [ev]).
  unfold rebuffer. rewrite Hcl. auto.
Qed.
Lemma publish_effect c p ev w : sessions_ok w -> effect c w (fst (publish p ev w)).
Proof.
  intros Hok. destruct (publish_cases p ev w Hok) as [->|(x & ch & buf & Hch & _ & ->)];
    [apply effect_refl|by apply rebuffer_effect].
Qed.

(** Closing an open channel. *)
Lemma close_chan_open x w ch : chans w !! x = Some ch -> ch_closed ch = false ->
  close_chan x w = set_chans (<[x := {| ch_session := ch_session ch; ch_buffer := ch_buffer ch; ch_closed := true |}]>
                                (chans w)) w.
Proof. intros Hx Hc. unfold close_chan. by rewrite Hx, Hc. Qed.
Lemma close_effect c x w ch : chans w !! x = Some ch -> ch_closed ch = false ->
  runner (ch_session ch) c = 1%nat \/ session_at w (ch_session ch) (fun m => ct_control (m_ct m) = Some x) ->
  effect c w (close_chan x w).
Proof.
  intros Hx Hcl Hor. rewrite (close_chan_open x w ch) by done. split; simpl; [eauto| |eauto].
  intros y ch' Hy. destruct (decide (y = x)) as [->|Hne]; [|rewrite lookup_insert_ne by done; eauto].
  rewrite lookup_insert_eq. eexists. split; [done|]. simplify_eq. simpl. tauto.
Qed.

Lemma stop_timer_frozen m : m_at (upd_at stop_at (upd_en set_finished m)) = stop_at (m_at m).
Proof. done. Qed.
Lemma bool_runner (p : nat) : bool_decide (Nat.b2n (bool_decide (p = p)) = 1%nat) = true.
Proof. by rewrite (bool_decide_eq_true_2 (p = p)). Qed.

(** The updates of the code, as changes. *)
Lemma chg_run f m : en_once (m_en m) = Running -> (forall m, m_config (f m) = m_config m) ->
  (forall m, m_at (f m) = m_at m) -> (forall m, finished (f m) = finished m) ->
  (forall m, complete m = true -> complete (f m) = true) -> changes true m (f m).
Proof. intros. right. split; [done|]. by split; auto. Qed.
Ltac chg_other := left; split; unfold finished, attached, complete in *; simpl in *; intros; auto; try congruence.
Lemma chg_finish r m : changes r m (upd_at stop_at (upd_en set_finished m)).
Proof. chg_other. Qed.
Lemma chg_finished r m : changes r m (upd_en set_finished m).
Proof. chg_other. Qed.
Lemma chg_once r m : en_once (m_en m) = NotRun -> changes r m (upd_en (set_once Running) m).
Proof. chg_other. Qed.
Lemma chg_complete r m : changes r m (upd_en set_complete m).
Proof. chg_other. Qed.
Lemma chg_fire r m : changes r m (upd_at fire m).
Proof. chg_other. Qed.
Lemma chg_attach r conn m : finished m = false ->
  changes r m (upd_at (fun a => {| at_attached := true; at_timer := stop_timer (at_timer a);
                                   at_connection := Some conn |}) m).
Proof. chg_other. Qed.
Lemma chg_control r x m : finished m = false ->
  changes r m (upd_ct (fun t => {| ct_control := Some x; ct_open := true; ct_done := ct_done t |}) m).
Proof. chg_other. Qed.
Lemma chg_no_control r m : changes r m (upd_ct no_control m).
Proof. chg_other. Qed.
#[local] Hint Resolve chg_finish chg_finished chg_once chg_complete chg_fire chg_attach chg_control
  chg_no_control : core.

Section Safety.
Context (error_text : error -> string) (now : Z).

Lemma Start_cases cfg inp w w' r : Start cfg inp w = Some (w', r) ->
  w' = w \/ w' = upd_metrics (failure FailureProviderTimeout) w \/
  (Config_Validate cfg = inl tt /\ draining w = false /\ sessions w !! cfg_ID cfg = None
   /\ Z.of_nat (size (sessions w)) < capacity w /\ inp = EngineStarted /\ r = inl tt).
Proof.
  unfold Start. destruct (Config_Validate cfg) as [[]|e]; [|intros [= <- <-]; auto].
  destruct (draining w) eqn:Ed; [intros [= <- <-]; auto|].
  case_bool_decide as Hs; [intros [= <- <-]; auto|].
  destruct (Z.leb_spec (capacity w) (Z.of_nat (size (sessions w)))); [intros [= <- <-]; auto|].
  destruct (negb _); [intros [= <- <-]; auto|].
  destruct inp; intros [= <- <-]; auto. right; right.
  split_and!; try done. by apply eq_None_not_Some.
Qed.
(** The session [Start] makes. *)
Definition new_managed (cfg : Config) : managed := {|
  m_config := cfg; m_at := {| at_attached := false; at_timer := Armed; at_connection := None |};
  m_ct := {| ct_control := None; ct_open := false; ct_done := false |};
  m_en := {| en_finished := false; en_once := NotRun; en_cancelled := false; en_stream_closes := 0;
             en_connection_closes := 0; en_complete := false |} |}.
Definition new_session (cfg : Config) (w : world) : world :=
  let p := fresh (dom (heap w)) in
  upd_metrics sessionStarted
    (set_heap (<[p := new_managed cfg]> (heap w)) (set_sessions (<[cfg_ID cfg := p]> (sessions w)) w)).
Lemma fresh_heap (w : world) : heap w !! fresh (dom (heap w)) = None.
Proof. apply not_elem_of_dom. apply is_fresh. Qed.
Lemma fresh_chans (w : world) : chans w !! fresh (dom (chans w)) = None.
Proof. apply not_elem_of_dom. apply is_fresh. Qed.

Lemma Start_new cfg inp w w' r : Start cfg inp w = Some (w', r) ->
  (sessions w' = sessions w /\ heap w' = heap w /\ chans w' = chans w /\ draining w' = draining w
   /\ capacity w' = capacity w /\ panicked w' = panicked w /\ active (metrics w') = active (metrics w)
   /\ started (metrics w') = started (metrics w) /\ completed (metrics w') = completed (metrics w)) \/
  (draining w = false /\ sessions w !! cfg_ID cfg = None /\ Z.of_nat (size (sessions w)) < capacity w
   /\ w' = new_session cfg w).
Proof.
  intros H. destruct (Start_cases _ _ _ _ _ H) as [->|[->|(Hv & Hd & Hs & Hc & -> & ->)]];
    [by left; split_and!..|].
  right. split_and!; try done. unfold Start in H. rewrite Hv, Hd, bool_decide_eq_false_2 in H
    by (rewrite Hs; by intros []).
  destruct (Z.leb_spec (capacity w) (Z.of_nat (size (sessions w)))); [lia|].
  destruct (negb _); [discriminate|]. by injection H as <-.
Qed.

(** A ready manager starts any valid session it does not hold yet. *)
Lemma Start_when_ready cfg w : Ready w = true -> Config_Validate cfg = inl tt ->
  sessions w !! cfg_ID cfg = None -> cfg_Engine cfg ∈ engines w ->
  Start cfg EngineStarted w = Some (new_session cfg w, inl tt).
Proof.
  unfold Ready, Start. rewrite andb_true_iff, negb_true_iff, Z.ltb_lt. intros [Hd Hs] -> Hn He.
  rewrite Hd, bool_decide_eq_false_2 by (rewrite Hn; by intros []).
  destruct (Z.leb_spec (capacity w) (Z.of_nat (size (sessions w)))); [lia|].
  by rewrite bool_decide_eq_true_2.
Qed.
Lemma new_session_effect c cfg w : draining w = false -> effect c w (new_session cfg w).
Proof.
  intros Hd. split; simpl; [| |by rewrite Hd]; [|eauto].
  intros p m Hm. exists m. split; [|done]. rewrite lookup_insert_ne; [done|].
  intros <-. by rewrite fresh_heap in Hm.
Qed.
Definition new_chan (p : nat) (w : world) : world :=
  set_chans (<[fresh (dom (chans w)) := {| ch_session := p; ch_buffer := []; ch_closed := false |}]> (chans w)) w.
Lemma new_chan_effect c p w : effect c w (new_chan p w).
Proof.
  split; simpl; [eauto| |eauto]. intros x ch Hx. exists ch. split; [|auto].
  rewrite lookup_insert_ne; [done|]. intros <-. by rewrite fresh_chans in Hx.
Qed.
Lemma control_close_effect c p m w : sessions_ok w -> heap w !! p = Some m -> effect c w (control_close p m w).
Proof.
  intros Hok Hm. unfold control_close. destruct (ct_control (m_ct m)) as [x|] eqn:Hx; [|apply effect_refl].
  destruct (ct_open (m_ct m)); [|apply effect_refl].
  destruct (so_control _ _ _ (Hok p m Hm) x Hx) as (ch & Hch & Hses & Hcl).
  assert (He : effect c w (close_chan x w)).
  { apply close_effect with ch; [done..|]. right. rewrite Hses. by exists m. }
  assert (Heq : close_chan x (with_managed p (upd_ct no_control) w) = with_managed p (upd_ct no_control) (close_chan x w)).
  { rewrite (close_chan_open x w ch) by done. unfold with_managed. simpl. rewrite Hm.
    by rewrite (close_chan_open x _ ch). }
  rewrite Heq. apply effect_managed; [auto|done|]. by rewrite (close_chan_open x w ch).
Qed.

Lemma exec_effect inp c w w' c' sp :
  sessions_ok w -> local w c -> exec error_text now inp c w = Some (w', c', sp) -> effect c w w'.
Proof.
  intros Hok Hl He.
  assert (Hpub : forall d p ev, effect d w (fst (publish p ev w))) by (intros; by apply publish_effect).
  pose proof (effect_refl c w) as Hrefl.
  assert (Hrun : forall p n a f w1, effect c w w1 -> heap w1 = heap w -> runner p c = 1%nat ->
    session_at w p (running n a) -> (forall m, m_config (f m) = m_config m) ->
    (forall m, m_at (f m) = m_at m) -> (forall m, finished (f m) = finished m) ->
    (forall m, complete m = true -> complete (f m) = true) -> effect c w (with_managed p f w1)).
  { intros p n a f w1 He1 Hh1 Hr (m0 & Hm0 & Hrn & _) H1 H2 H3 H4. apply effect_managed; [|done..].
    intros m Hm. rewrite Hr. apply chg_run; try done. congruence. }
  destruct c; cbn [exec exec_attach exec_finish exec_remove exec_timer exec_stop exec_drain exec_control exec_command] in He; simpl in Hl.
  all: try (simplify_option_eq; by auto using effect_metrics).
  all: try (repeat case_match; simplify_eq; by auto using effect_metrics, effect_same).
  all: try (match type of Hl with session_at _ _ _ => pose proof Hl as (m & Hm & Hm') end;
            try rewrite Hm in He; simpl in He; repeat case_match; simplify_eq;
            auto using effect_managed, effect_same;
            try (eapply Hrun; [auto|auto|simpl; by rewrite (bool_decide_eq_true_2 (_ = _))|
                   eapply session_at_impl; [exact Hl|intros ? [? ?]; eassumption] | done.. ])).
  - destruct (Start cfg inp w) as [[w1 r]|] eqn:E; simplify_eq/=.
    destruct (Start_new _ _ _ _ _ E) as [(? & ? & ? & Hd & _)|(Hd & _ & _ & ->)].
    + apply effect_same; try done. by rewrite Hd.
    + by apply new_session_effect.
  - match goal with H : attach_enter _ _ _ _ = _ |- _ => rename H into He end.
    unfold attach_enter in He. repeat case_match; simplify_eq; auto.
    apply effect_metrics, effect_managed; [|done..]. intros m' Hm''. simplify_eq.
    apply chg_attach. by match goal with H : _ || _ = false |- _ => apply orb_false_iff in H as [? _] end.
  - apply effect_managed; [|done..]. intros m' Hm''. simplify_eq. by apply chg_once.
  - destruct Hl as [(m & Hm & Hf & Hrn) Hx]. rewrite Hm in He. simpl in He.
    rewrite (sg_done _ _ (proj2 (proj2 (proj2 Hrn)))) in He. simpl in He. simplify_eq.
    set (w1 := match c with Some x => close_chan x w | None => w end).
    assert (heap w1 = heap w /\ effect (CloseChannels p c attached0 k) w w1) as [Hh He1].
    { subst w1. destruct c as [x|]; [|split; [done|apply effect_refl]]. destruct (Hx x eq_refl) as (ch & Hch & Hses & Hcl).
      split; [by rewrite (close_chan_open x w ch)|]. apply close_effect with ch; [done..|]. left.
      simpl. by rewrite Hses, (bool_decide_eq_true_2 (p = p)). }
    eapply Hrun; [exact He1|exact Hh|simpl; by rewrite (bool_decide_eq_true_2 (p = p))| |done..].
    exists m. split; [done|]. exact Hrn.
  - destruct Hm' as (Hf & a & Hrn).
    eapply Hrun; [auto|auto|simpl; by rewrite (bool_decide_eq_true_2 (p = p))| |done..].
    exists m. split; [done|]. exact Hrn.
  - unfold remove_session in He. case_bool_decide; simplify_eq; [|done].
    apply effect_sub, delete_subseteq.
  - repeat (case_match || simplify_option_eq); apply effect_refl.
  - match goal with H : control_enter _ _ _ = _ |- _ => rename H into He end.
    unfold control_enter in He. repeat case_match; simplify_eq; auto.
    apply effect_managed; [|by apply (new_chan_effect _ p)|done].
    intros m' Hm''. simplify_eq. apply chg_control.
    by match goal with H : _ || _ = false |- _ => apply orb_false_iff in H as [? _] end.
  - by apply control_close_effect.
Qed.
End Safety.

(** ** What a goroutine knows after its own step *)
Lemma fits_same m m' k : fits k m -> id_of m' = id_of m -> attached m' = attached m ->
  (finished m = true -> finished m' = true) -> fits k m'.
Proof. intros H Hi Ha Hf. destruct k; simpl in *; rewrite ?Hi, ?Ha; try done. naive_solver. Qed.
Lemma sess_with p f w (P Q : managed -> Prop) :
  session_at w p P -> (forall m, P m -> Q (f m)) -> session_at (with_managed p f w) p Q.
Proof.
  intros (m & Hm & HP) H. exists (f m). split; [|auto].
  rewrite with_managed_lookup, decide_True by done. by rewrite Hm.
Qed.
Lemma sess_upd p f w m (Q : managed -> Prop) :
  heap w !! p = Some m -> Q (f m) -> session_at (with_managed p f w) p Q.
Proof. intros Hm HQ. by apply sess_with with (eq m); [exists m|intros ? <-]. Qed.
Lemma publish_heap p ev w : heap (fst (publish p ev w)) = heap w.
Proof. unfold publish. by repeat case_match. Qed.
Lemma sess_heap w w' p P : heap w' = heap w -> session_at w p P -> session_at w' p P.
Proof. unfold session_at. by intros ->. Qed.

(** The steps of [finishOnce] advance the stage. *)
Lemma run_cancel a m : running 0 a m -> running 1 a (upd_en set_cancelled m).
Proof. intros (? & ? & ? & []). split_and!; try done; split; simpl in *; try done; lia. Qed.
Lemma run_control a m : running 1 a m -> running 2 a (upd_ct no_control m).
Proof. intros (? & ? & ? & []). split_and!; try done; split; simpl in *; try done; lia. Qed.
Lemma run_done a m : running 2 a m -> running 3 a (upd_ct close_done m).
Proof. intros (? & ? & ? & []). split_and!; try done; split; simpl in *; auto; lia. Qed.
Lemma run_stream a m : running 3 a m -> running 4 a (upd_en close_stream m).
Proof.
  intros (? & ? & ? & []). split_and!; try done; split; simpl in *; auto; try lia; by rewrite sg_stream0.
Qed.
Lemma run_connection a m : running 4 a m ->
  running 5 a (match at_connection (m_at m) with Some _ => upd_en close_connection m | None => m end).
Proof.
  intros (? & ? & ? & []). unfold running, finished, attached in *.
  destruct (at_connection (m_at m)) eqn:E; split_and!; try done; split; simpl in *; auto; try lia;
    unfold connection_closes; simpl; rewrite E; congruence.
Qed.
Lemma run_complete a m : running 5 a m -> running 6 a (if a then m else upd_en set_complete m).
Proof.
  unfold running, finished, attached. intros (? & ? & Ha & []). destruct a; split_and!; try done; split; simpl in *; auto.
  unfold attached. congruence.
Qed.

Lemma session_match p w (f : managed -> managed) (b : managed -> bool) m : heap w !! p = Some m ->
  (if b m then with_managed p f w else w) = with_managed p (fun m => if b m then f m else m) w.
Proof.
  intros Hm. unfold with_managed. rewrite Hm. destruct (b m); [done|].
  rewrite insert_id by done. by destruct w.
Qed.

Lemma drains_remove w id p rest : drains w ((id, p) :: rest) ->
  drains (fst (remove_session id p (RDrain rest) w)) rest.
Proof.
  intros (Hd & Hs & HF). apply Forall_cons in HF as [_ HF]. unfold remove_session.
  case_bool_decide as Hid; simpl.
  - split_and!; [done| |exact HF]. simpl. intros id' p' [Hne Hp']%lookup_delete_Some.
    specialize (Hs id' p' Hp'). apply elem_of_cons in Hs as [[= -> ->]|?]; done.
  - split_and!; [done| |exact HF]. intros id' p' Hp'.
    specialize (Hs id' p' Hp'). apply elem_of_cons in Hs as [[= -> ->]|?]; done.
Qed.

Lemma drains_nil w : drains w [] -> sessions w = ∅.
Proof.
  intros (_ & Hs & _). apply map_empty. intros id. destruct (sessions w !! id) as [p|] eqn:E; [|done].
  specialize (Hs id p E). by apply elem_of_nil in Hs.
Qed.

Section Local.
Context (error_text : error -> string) (now : Z).

Lemma exec_local inp c w w' c' sp :
  sessions_ok w -> (forall id p, sessions w !! id = Some p -> session_at w p (fun m => id_of m = id)) ->
  local w c -> exec error_text now inp c w = Some (w', c', sp) -> local w' c' /\ Forall (local w') sp.
Proof.
  intros Hok Hss Hl He. pose proof (exec_effect _ _ _ _ _ _ _ _ Hok Hl He) as Heff.
  destruct c; cbn [exec exec_attach exec_finish exec_remove exec_timer exec_stop exec_drain exec_control exec_command] in He; simpl in Hl.
  all: try (simplify_option_eq; by split).
  all: try (repeat case_match; simplify_eq; by split).
  - destruct (Start cfg inp w) as [[w1 r]|]; simplify_eq/=. by split.
  - simplify_eq. unfold attach_lookup. destruct (sessions w' !! _) as [q|] eqn:E; split; try done. exact (Hss _ _ E).
  - destruct Hl as (m & Hm & Hid). rewrite Hm in He. simpl in He. unfold attach_enter in He.
    repeat case_match; simplify_eq; split; try done. eapply (sess_heap (with_managed p _ w)); [done|].
    apply (sess_upd _ _ _ m); [done|]. done.
  - repeat case_match; simplify_eq; split; try done.
    eapply sess_heap; [apply publish_heap|exact Hl].
  - simplify_eq. split; [|done]. eapply sess_heap; [|exact Hl]. case_match; [done|apply publish_heap].
  - destruct Hl as (m & Hm & Hf). rewrite Hm in He. simplify_eq/=. split; [|done].
    exists (upd_at stop_at (upd_en set_finished m)). rewrite with_managed_lookup, decide_True by done.
    rewrite Hm. split; [done|]. split_and!; try done. by apply (fits_same m).
  - destruct Hl as (m & Hm & Hf & Hfin & Ha). rewrite Hm in He. simpl in He.
    destruct (en_once (m_en m)) eqn:Eo; simplify_eq; split; try done.
    + apply (sess_upd _ _ _ m); [done|]. split; [by apply (fits_same m)|]. split_and!; try done.
      pose proof (so_notrun _ _ _ (Hok p m Hm) Eo) as []. by split.
    + exists m. done.
  - simplify_eq. split; [|done]. eapply sess_with; [exact Hl|]. intros m [? ?].
    split; [by apply (fits_same m)|by apply run_cancel].
  - destruct Hl as (m & Hm & Hf & Hrn). rewrite Hm in He. simplify_eq/=. split; [|done]. split.
    + apply (sess_upd _ _ _ m); [done|]. split; [by apply (fits_same m)|by apply run_control].
    + intros x Hx. destruct (with_managed_rest p (upd_ct no_control) w) as (_ & -> & _).
      by apply (so_control _ _ _ (Hok p m Hm)).
  - destruct Hl as [(m & Hm & Hf & Hrn) Hx]. rewrite Hm in He. simpl in He.
    rewrite (sg_done _ _ (proj2 (proj2 (proj2 Hrn)))) in He. simplify_eq/=. split; [|done].
    apply (sess_upd _ _ _ m); [|split; [by apply (fits_same m)|by apply run_done]].
    destruct c as [x|]; [|done]. unfold close_chan. by repeat case_match.
  - simplify_eq. split; [|done]. eapply sess_with; [exact Hl|]. intros m [? ?].
    split; [by apply (fits_same m)|by apply run_stream].
  - destruct Hl as (m & Hm & Hf & Hrn). rewrite Hm in He. simplify_eq/=. split; [|done].
    apply run_connection in Hrn. destruct (at_connection (m_at m)) eqn:E; [|by exists m].
    exists (upd_en close_connection m). rewrite with_managed_lookup, decide_True, Hm by done.
    split; [done|]. split; [by apply (fits_same m)|done].
  - simplify_eq. split; [|done]. destruct attached0.
    + eapply session_at_impl; [exact Hl|]. intros m [? Hr]. apply run_complete in Hr. eauto.
    + eapply sess_with; [exact Hl|]. intros m [? Hr]. apply run_complete in Hr. split; [by apply (fits_same m)|eauto].
  - simplify_eq. split; [|done]. eapply sess_with; [exact Hl|]. intros m (? & a & ? & ? & ?).
    split; [by apply (fits_same m)|done].
  - destruct k; simplify_eq; split; try done; simpl.
    + eapply session_at_impl; [exact Hl|]. naive_solver.
    + split; [|done]. destruct Hl as (m & Hm & (Hid & Hfin & Ha) & Ho & _).
      exists m. split_and!; try done. by apply (sg_complete _ _ (so_ran _ _ _ (Hok p m Hm) Ho)).
  - simplify_eq. split; [|done]. split; [|done]. eapply sess_with; [exact Hl|]. intros m (? & ? & ? & ?). done.
  - destruct Hl as (m & Hm & Hid & Ho & Hfin). rewrite Hm in He. simpl in He.
    repeat case_match; simplify_eq; split; try done; (split; [|done]); exists m; done.
  - destruct Hl as [Hat Hk]. destruct (remove_session id p k w) as [w1 c1] eqn:E. simplify_eq. split; [|done].
    assert (Hd : drains_after w' k []).
    { destruct k as [r|rest]; [done|]. simpl in Hk. apply drains_remove in Hk. by rewrite E in Hk. }
    unfold remove_session in E. case_bool_decide; by simplify_eq.
  - simplify_eq. split; [|done]. by destruct k.
  - simplify_eq. split; [|done]. eapply sess_heap; [apply publish_heap|exact Hl].
  - destruct Hl as (m & Hm & Hid). rewrite Hm in He. simpl in He. case_match; simplify_eq; split; try done.
    apply (sess_upd _ _ _ m); [done|]. split_and!; try done; unfold attached; simpl;
      by match goal with H : _ || _ = false |- _ => apply orb_false_iff in H as [_ ?] end.
  - destruct (sessions w !! id) as [q|] eqn:E; simplify_eq; split; try done. exact (Hss _ _ E).
  - simplify_eq. assert (Hd : drains (set_draining true w) (map_to_list (sessions w))).
    { split_and!; [done|intros; by apply elem_of_map_to_list|]. apply Forall_forall. intros [id p] Hin.
      apply (Hss id p). by apply elem_of_map_to_list. }
    split; [exact Hd|]. destruct Hd as (_ & _ & Hd). apply Forall_map. eapply Forall_impl; [exact Hd|].
    intros e He. eapply session_at_impl; [exact He|done].
  - destruct rest as [|[id p] rest]; [simplify_eq; by split|].
    destruct inp; try (simplify_eq; by split).
    all: destruct Hl as (Hd & Hs & HF); pose proof HF as [(m & Hm & Hid) _]%Forall_cons; simpl in Hm;
      rewrite Hm in He; simpl in He; destruct (en_complete (m_en m)) eqn:Ec; simplify_eq;
      (split; [|done]); (split; [|by split_and!]); exists m; split_and!; try done;
      by apply (so_complete _ _ _ (Hok p m Hm)).
  - rewrite bool_decide_eq_true_2 in He by by apply drains_nil. by simplify_eq.
  - repeat case_match; simplify_eq; split; try done. eapply session_at_impl; [eapply Hss; eassumption|done].
  - destruct Hl as (m & Hm & _). rewrite Hm in He. simpl in He. unfold control_enter in He.
    repeat case_match; simplify_eq; split; try done. by apply (sess_upd _ _ _ m).
  - repeat case_match; simplify_eq; split; try done; eapply session_at_impl; [exact Hl|done|exact Hl|done].
  - destruct Hl as (m & Hm & _). rewrite Hm in He. simpl in He. repeat case_match; simplify_eq; by split.
  - destruct Hl as (m & Hm & _). rewrite Hm in He. simpl in He. repeat case_match; simplify_eq; by split.
Qed.
End Local.

(** ** Sessions stay consistent *)
Lemma ok_frame w w' : sessions_ok w -> heap w' = heap w -> sessions w' = sessions w ->
  (forall x ch, chans w !! x = Some ch -> exists ch', chans w' !! x = Some ch'
     /\ ch_session ch' = ch_session ch /\ ch_closed ch' = ch_closed ch) -> sessions_ok w'.
Proof.
  intros Hok Hh Hs Hc p m Hm. rewrite Hh in Hm. destruct (Hok p m Hm). split; try done.
  - intros x Hx. destruct (so_control0 x Hx) as (ch & Hch & Hses & Hcl).
    destruct (Hc x ch Hch) as (ch' & ? & Es & Ec). exists ch'. by rewrite Es, Ec.
  - by rewrite Hs.
Qed.
Lemma ok_same w w' : sessions_ok w -> heap w' = heap w -> sessions w' = sessions w -> chans w' = chans w ->
  sessions_ok w'.
Proof. intros Hok Hh Hs Hc. apply ok_frame with w; try done. rewrite Hc. eauto. Qed.
Lemma ok_metrics f w : sessions_ok w -> sessions_ok (upd_metrics f w).
Proof. intros Hok. by apply ok_same with w. Qed.
Lemma ok_managed p f w m : sessions_ok w -> heap w !! p = Some m -> session_ok w p (f m) ->
  sessions_ok (with_managed p f w).
Proof.
  intros Hok Hm Hf q m' Hq. destruct (with_managed_rest p f w) as (Es & Ec & _).
  rewrite with_managed_lookup in Hq. destruct (decide (q = p)) as [->|].
  - rewrite Hm in Hq. injection Hq as <-. destruct Hf. by split; rewrite ?Es, ?Ec.
  - destruct (Hok q m' Hq). by split; rewrite ?Es, ?Ec.
Qed.
Lemma close_chan_heap x w : heap (close_chan x w) = heap w.
Proof. unfold close_chan. by repeat case_match. Qed.
Lemma ok_close x w : sessions_ok w ->
  (forall q m, heap w !! q = Some m -> ct_control (m_ct m) <> Some x) -> sessions_ok (close_chan x w).
Proof.
  intros Hok Hx q m Hm. rewrite close_chan_heap in Hm. pose proof (Hok q m Hm) as Hq. unfold close_chan.
  destruct (chans w !! x) as [ch|]; [|done]. destruct (ch_closed ch); destruct Hq; split; try done.
  intros y Hy. simpl. rewrite lookup_insert_ne; [by apply so_control0|].
  intros <-. by apply (Hx q m Hm).
Qed.
Lemma ok_publish p ev w : sessions_ok w -> sessions_ok (fst (publish p ev w)).
Proof.
  intros Hok. destruct (publish_cases p ev w Hok) as [->|(x & ch & buf & Hch & _ & ->)]; [done|].
  apply ok_frame with w; try done. intros y ch' Hy. unfold rebuffer. simpl.
  destruct (decide (y = x)) as [->|]; [|rewrite lookup_insert_ne by done; eauto].
  rewrite lookup_insert_eq. simplify_eq. eauto.
Qed.
(** The channel a session controls is its own. *)
Lemma control_unique w p q m m' x : sessions_ok w -> heap w !! p = Some m -> heap w !! q = Some m' ->
  ct_control (m_ct m) = Some x -> ct_control (m_ct m') = Some x -> p = q.
Proof.
  intros Hok Hm Hm' Hx Hx'. destruct (so_control _ _ _ (Hok p m Hm) x Hx) as (ch & ? & ? & _).
  destruct (so_control _ _ _ (Hok q m' Hm') x Hx') as (ch' & ? & ? & _). congruence.
Qed.

Lemma ok_new_session cfg w : sessions_ok w -> sessions w !! cfg_ID cfg = None ->
  sessions_ok (new_session cfg w).
Proof.
  intros Hok Hn p m Hm. simpl in Hm. apply lookup_insert_Some in Hm as [[<- <-]|[Hne Hm]].
  - split; simpl; try done; [intros _; split; simpl; try done; lia|].
    intros _. by rewrite lookup_insert_eq.
  - destruct (Hok p m Hm). split; try done. simpl. intros Hc. rewrite lookup_insert_ne; [by apply so_live0|].
    intros Heq. specialize (so_live0 Hc). congruence.
Qed.
Lemma ok_remove id p k w : sessions_ok w -> session_at w p (fun m => complete m = true) ->
  sessions_ok (fst (remove_session id p k w)).
Proof.
  intros Hok (m0 & Hm0 & Hc0). unfold remove_session. case_bool_decide as Hid; [|done].
  intros q m Hm. simpl in Hm. destruct (Hok q m Hm). split; try done. simpl. intros Hc.
  rewrite lookup_delete_ne; [by apply so_live0|]. intros Heq. specialize (so_live0 Hc). congruence.
Qed.
Lemma ok_control_enter p m w w' c' : sessions_ok w -> heap w !! p = Some m ->
  control_enter p m w = (w', c') -> sessions_ok w'.
Proof.
  intros Hok Hm. unfold control_enter.
  destruct (en_finished (m_en m) || en_cancelled (m_en m)) eqn:Ef; [by intros [= <- <-]|].
  apply orb_false_iff in Ef as [Ef _].
  destruct (ct_open (m_ct m)) eqn:Eo; [by intros [= <- <-]|]. intros [= <- <-].
  assert (Hok' : sessions_ok (new_chan p w)).
  { apply ok_frame with w; try done. intros x ch Hx. exists ch. unfold new_chan. simpl.
    rewrite lookup_insert_ne; [done|]. intros <-. by rewrite fresh_chans in Hx. }
  apply ok_managed with m; [done|done|]. destruct (Hok' p m Hm). split; simpl; try done.
  - intros x [= <-]. unfold new_chan. simpl. rewrite lookup_insert_eq. eauto.
  - intros Hn. specialize (so_notrun0 Hn). destruct so_notrun0. split; simpl; try done; lia.
  - intros Hr. unfold finished in *. rewrite so_finished0 in Ef; [done|]. by rewrite Hr.
  - intros Hc. unfold finished in *. by rewrite so_complete0 in Ef.
Qed.
Lemma ok_attach_enter p conn m w w' c' : sessions_ok w -> heap w !! p = Some m ->
  attach_enter p conn m w = (w', c') -> sessions_ok w'.
Proof.
  intros Hok Hm. unfold attach_enter. destruct (attach_mismatch _ _); [by intros [= <- <-]|].
  destruct (at_attached (m_at m)); [by intros [= <- <-]|].
  destruct (en_finished (m_en m) || en_cancelled (m_en m)) eqn:Ef; [by intros [= <- <-]|].
  apply orb_false_iff in Ef as [Ef _]. intros [= <- <-].
  apply ok_metrics, ok_managed with m; [done|done|].
  destruct (Hok p m Hm). split; simpl; try done.
  - intros Hn. specialize (so_notrun0 Hn). destruct so_notrun0. split; simpl; try done; lia.
  - intros Hr. unfold finished in *. rewrite so_finished0 in Ef; [done|]. by rewrite Hr.
  - intros Hc. unfold finished in *. by rewrite so_complete0 in Ef.
Qed.
Lemma ok_control_close p m w : sessions_ok w -> heap w !! p = Some m -> sessions_ok (control_close p m w).
Proof.
  intros Hok Hm. unfold control_close. destruct (ct_control (m_ct m)) as [x|] eqn:Ex; [|done].
  destruct (ct_open (m_ct m)); [|done]. apply ok_close.
  - apply ok_managed with m; [done|done|]. destruct (Hok p m Hm). split; simpl; try done.
    + intros Hn. destruct (so_notrun0 Hn). by split.
    + intros Hr. destruct (so_ran0 Hr). split; simpl; auto.
    + intros Hc. by destruct (so_released0 Hc) as (? & ? & ? & ? & ?).
  - intros q m' Hq. rewrite with_managed_lookup in Hq. destruct (decide (q = p)) as [->|Hne].
    + rewrite Hm in Hq. by simplify_eq/=.
    + intros Hx. apply Hne. by eapply control_unique.
Qed.

(** Until the stream is closed the session is not complete. *)
Lemma running_incomplete w p n a m : (n <= 3)%nat -> running n a m -> session_ok w p m -> complete m = false.
Proof.
  intros Hn (_ & _ & _ & Hst) Hs. destruct (complete m) eqn:Hc; [|done].
  destruct (so_released _ _ _ Hs Hc) as (_ & _ & _ & Hone & _).
  rewrite (sg_stream _ _ Hst) in Hone. destruct (Nat.leb_spec 4 n); [lia|done].
Qed.
Lemma stage_released n m : (5 <= n)%nat -> stage n m -> released m.
Proof.
  intros Hn []. unfold released. destruct n as [|[|[|[|[|n]]]]]; try lia. simpl in *.
  split_and!; try done. apply sg_control0. lia.
Qed.

Section Exec.
Context (error_text : error -> string) (now : Z).

Lemma exec_ok inp c w w' c' sp :
  sessions_ok w -> local w c -> exec error_text now inp c w = Some (w', c', sp) -> sessions_ok w'.
Proof.
  intros Hok Hl He.
  assert (Hpub : forall p ev, sessions_ok (fst (publish p ev w))) by (intros; by apply ok_publish).
  assert (Hrun : forall p n a f, session_at w p (fun m => running n a m) ->
    (forall m, running n a m -> session_ok w p m -> session_ok w p (f m)) ->
    sessions_ok (with_managed p f w)).
  { intros p n a f (m & Hm & Hr) Hf. apply ok_managed with m; auto. }
  destruct c; cbn [exec exec_attach exec_finish exec_remove exec_timer exec_stop exec_drain exec_control exec_command] in He; simpl in Hl.
  all: try (simplify_option_eq; by auto using ok_metrics).
  all: try (repeat case_match; simplify_eq; by auto using ok_metrics).
  all: try (match type of Hl with session_at _ _ _ => pose proof Hl as (m & Hm & Hm') end;
            try rewrite Hm in He; simpl in He; repeat case_match; simplify_eq; eauto 2 using
              ok_metrics, ok_attach_enter, ok_control_enter, ok_control_close).
  - destruct (Start cfg inp w) as [[w1 r]|] eqn:E; simplify_eq/=.
    destruct (Start_new _ _ _ _ _ E) as [(? & ? & ? & _)|(_ & Hn & _ & ->)].
    + by apply ok_same with w.
    + by apply ok_new_session.
  - apply ok_managed with m; [done|done|]. destruct (Hok p m Hm). split; simpl; try done.
    + intros Hn. destruct (so_notrun0 Hn). by split.
    + intros Hr. destruct (so_ran0 Hr). by split.
  - apply ok_managed with m; [done|done|]. destruct Hm' as (_ & Hf & _).
    destruct (Hok p m Hm). by split.
  - simplify_eq. apply Hrun with 0%nat attached0; [eapply session_at_impl; [exact Hl|tauto]|].
    intros m' Hrn Hs. pose proof (running_incomplete w p 0 _ m' ltac:(lia) Hrn Hs) as Hi.
    destruct Hrn as (Ho & Hf & _), Hs. split; simpl; unfold complete in *; simpl; try done; congruence.
  - apply Hrun with 1%nat attached0; [eapply session_at_impl; [exact Hl|tauto]|].
    intros m' Hrn Hs. pose proof (running_incomplete w p 1 _ m' ltac:(lia) Hrn Hs) as Hi.
    destruct Hrn as (Ho & Hf & _), Hs. split; simpl; unfold complete in *; simpl; try done; congruence.
  - destruct Hl as [(m & Hm & Hf & Hrn) Hx]. rewrite Hm in He. simpl in He.
    pose proof Hrn as (Ho & Hfin & _ & Hst).
    rewrite (sg_done _ _ Hst) in He. simplify_eq/=.
    assert (Hok1 : sessions_ok (match c with Some x => close_chan x w | None => w end)).
    { destruct c as [x|]; [|done]. apply ok_close; [done|]. intros q m' Hq Hcx.
      destruct (Hx x eq_refl) as (ch & Hch & Hses & _).
      destruct (so_control _ _ _ (Hok q m' Hq) x Hcx) as (ch' & Hch' & Hses' & _).
      assert (q = p) as -> by congruence. simplify_eq. by rewrite (sg_control _ _ Hst) in Hcx. }
    apply ok_managed with m; [done|destruct c; [by rewrite close_chan_heap|done]|].
    assert (Hm1 : heap (match c with Some x => close_chan x w | None => w end) !! p = Some m)
      by (destruct c; [by rewrite close_chan_heap|done]).
    pose proof (running_incomplete _ p 2 _ m ltac:(lia) Hrn (Hok1 p m Hm1)) as Hi.
    destruct (Hok1 p m Hm1). split; simpl; unfold complete in *; simpl; try done; congruence.
  - simplify_eq. apply Hrun with 3%nat attached0; [eapply session_at_impl; [exact Hl|tauto]|].
    intros m' Hrn Hs. pose proof (running_incomplete w p 3 _ m' ltac:(lia) Hrn Hs) as Hi.
    destruct Hrn as (Ho & Hf & _), Hs. split; simpl; unfold complete in *; simpl; try done; congruence.
  - destruct Hm' as (_ & Ho & Hf & _ & Hst).
    apply ok_managed with m; [done|done|]. destruct (Hok p m Hm). split; simpl; try done; try congruence.
    intros Hc. destruct (so_released0 Hc) as (_ & _ & _ & _ & Hx). rewrite (sg_connection _ _ Hst) in Hx.
    unfold connection_closes in Hx. by destruct (at_connection (m_at m)).
  - apply Hrun with 5%nat false; [eapply session_at_impl; [exact Hl|tauto]|].
    intros m' (Ho & Hf & _ & Hst) []. apply stage_released in Hst; [|lia].
    split; simpl; try done; congruence.
  - destruct Hm' as (_ & a & Hrn). apply Hrun with 6%nat a; [by exists m|].
    intros m' (Ho & Hf & _ & Hst) []. split; simpl; try done. intros _. destruct Hst; by split.
  - apply ok_managed with m; [done|done|]. destruct Hm' as (_ & _ & Ho & Hf).
    destruct (Hok p m Hm). pose proof (stage_released 6 m ltac:(lia) (so_ran0 Ho)).
    split; simpl; try done; [congruence|]. intros _. destruct (so_ran0 Ho). by split.
  - destruct (remove_session id p k w) as [w1 c1] eqn:E. simplify_eq.
    change w' with (fst (w', c')). rewrite <- E. apply ok_remove; [done|].
    eapply session_at_impl; [apply Hl|]. naive_solver.
  - simplify_eq. by apply ok_same with w.
  - apply ok_managed with m; [done|done|].
    match goal with H : _ || _ = false |- _ => apply orb_false_iff in H as [Hf Ha] end.
    destruct (Hok p m Hm). split; simpl; try done.
    + intros Hn. destruct (so_notrun0 Hn). by split.
    + intros Hr. destruct (so_ran0 Hr). by split.
  - simplify_eq. by apply ok_same with w.
  - repeat (case_match || simplify_option_eq); done.
Qed.
End Exec.

(** ** Counts *)
Definition is_running (m : managed) : nat := Nat.b2n (bool_decide (en_once (m_en m) = Running)).
Definition is_owned (m : managed) : nat := Nat.b2n (attached m && negb (complete m)).

Lemma self_count (p : nat) : Nat.b2n (bool_decide (p = p)) = 1%nat.
Proof. by rewrite bool_decide_eq_true_2. Qed.
Lemma no_session p c w : local w c -> heap w !! p = None -> runner p c = 0%nat /\ owner p c = 0%nat.
Proof.
  intros Hl Hp.
  assert (H : forall q (P : managed -> Prop), session_at w q P -> Nat.b2n (bool_decide (p = q)) = 0%nat).
  { intros q P (m & Hm & _). rewrite bool_decide_eq_false_2; [done|congruence]. }
  assert (Hk : forall q (P : managed -> Prop) k, session_at w q P -> attach_owned p q k = 0%nat).
  { intros q P [] Hq; simpl; try done. by apply (H q P). }
  destruct c; simpl in *; try done; try (match type of Hl with _ /\ _ => destruct Hl as [Hl ?] end);
    (split; [try done; by eapply H|try done; first [by eapply H|by eapply Hk]]).
Qed.

(** A step moves the counts of a session together with the fields they count. *)
Definition balanced (q : nat) (w w' : world) (c c' : pc) (sp : list pc) : Prop :=
  forall m m', heap w !! q = Some m -> heap w' !! q = Some m' ->
  (runner q c' + total (runner q) sp + is_running m = runner q c + is_running m')%nat
  /\ (owner q c' + total (owner q) sp + is_owned m = owner q c + is_owned m')%nat.
Lemma balanced_same q w w' c c' sp : heap w' = heap w ->
  (runner q c' + total (runner q) sp = runner q c)%nat -> (owner q c' + total (owner q) sp = owner q c)%nat ->
  balanced q w w' c c' sp.
Proof. intros Hh Hr Ho m m' Hm Hm'. rewrite Hh in Hm'. simplify_eq. lia. Qed.
Lemma balanced_upd q w w' p f m0 c c' : heap w' = heap (with_managed p f w) -> heap w !! p = Some m0 ->
  (q <> p -> runner q c' = runner q c /\ owner q c' = owner q c) ->
  (q = p -> (runner p c' + is_running m0 = runner p c + is_running (f m0))%nat
            /\ (owner p c' + is_owned m0 = owner p c + is_owned (f m0))%nat) ->
  balanced q w w' c c' [].
Proof.
  intros Hh Hm0 Hne Heq m m' Hm Hm'. rewrite Hh, with_managed_lookup, Hm in Hm'. unfold total. simpl.
  case_decide as Hq; simplify_eq/=; [destruct (Heq eq_refl)|destruct (Hne Hq)]; lia.
Qed.
Lemma other_count (q p : nat) : q <> p -> Nat.b2n (bool_decide (q = p)) = 0%nat.
Proof. intros. by rewrite bool_decide_eq_false_2. Qed.
Lemma other_owned (q p : nat) k : q <> p -> attach_owned q p k = 0%nat.
Proof. intros. destruct k; simpl; try done. by apply other_count. Qed.
Ltac count_step p f m :=
  apply (balanced_upd _ _ _ p f m); [try done|try done
    |intros Hn; simpl; rewrite ?(other_count _ _ Hn), ?(other_owned _ _ _ Hn); try done
    |intros ->; simpl; unfold is_running, is_owned, attached, complete; simpl; rewrite ?self_count; try done].
Lemma spawned_zero (f : pc -> nat) (l : list (Z * nat)) : (forall q, f (Finish q ToDrainGo) = 0%nat) ->
  total f (List.map (fun e => Finish e.2 ToDrainGo) l) = 0%nat.
Proof. intros Hf. induction l as [|e l IH]; simpl; [done|]. unfold total in *. simpl. by rewrite Hf. Qed.

Section Counts.
Context (error_text : error -> string) (now : Z).

Lemma exec_balanced inp c w w' c' sp q :
  sessions_ok w -> local w c ->
  (forall p m, heap w !! p = Some m -> owner p c = 1%nat -> attached m = true /\ complete m = false) ->
  exec error_text now inp c w = Some (w', c', sp) -> balanced q w w' c c' sp.
Proof.
  intros Hok Hl Hown He.
  assert (Hat : forall p P, session_at w p P -> exists m, heap w !! p = Some m /\ P m) by auto.
  destruct c; cbn [exec exec_attach exec_finish exec_remove exec_timer exec_stop exec_drain exec_control exec_command] in He; simpl in Hl.
  all: try (simplify_option_eq; by apply balanced_same).
  all: try (repeat case_match; simplify_option_eq; by apply balanced_same; [try done; apply publish_heap|..]).
  all: try (match type of Hl with session_at _ _ _ => pose proof Hl as (m & Hm & Hm') end;
            try rewrite Hm in He; simpl in He; repeat case_match; simplify_eq;
            first [by apply balanced_same; [try done; apply publish_heap|..]
                  |match goal with |- balanced _ _ (with_managed ?p ?f _) _ _ _ => count_step p f m end]).
  - destruct (Start cfg inp w) as [[w1 r]|] eqn:E; simplify_eq/=.
    destruct (Start_new _ _ _ _ _ E) as [(_ & Hh & _)|(_ & _ & _ & ->)]; [by apply balanced_same|].
    intros m m' Hm Hm'. simpl in Hm'.
    rewrite lookup_insert_ne in Hm' by (intros <-; by rewrite fresh_heap in Hm). by simplify_eq.
  - simplify_eq. unfold attach_lookup. case_match; by apply balanced_same.
  - destruct Hl as (m & Hm & _). rewrite Hm in He. simpl in He. unfold attach_enter in He.
    repeat case_match; simplify_eq; try by apply balanced_same.
    match goal with H : _ || _ = false |- _ => apply orb_false_iff in H as [Hf _] end.
    match goal with |- balanced _ _ (upd_metrics _ (with_managed p ?f _)) _ _ _ => count_step p f m end.
    split; [done|]. destruct (en_complete (m_en m)) eqn:Hc.
    { pose proof (so_complete _ _ _ (Hok p m Hm) Hc). unfold finished in *. congruence. }
    by match goal with H : at_attached _ = false |- _ => rewrite H end.
  - by match goal with H : en_once _ = NotRun |- _ => rewrite H end.
  - destruct Hl as [(m & Hm & _ & _ & _ & _ & Hst) _]. rewrite Hm in He. simpl in He.
    rewrite (sg_done _ _ Hst) in He. simplify_eq/=.
    assert (Hh : heap (match c with Some x => close_chan x w | None => w end) = heap w)
      by (destruct c; [apply close_chan_heap|done]).
    count_step p (upd_ct close_done) m. unfold with_managed. by rewrite Hh, Hm.
  - destruct Hm' as (_ & _ & _ & Ha & _). unfold attached in Ha. by rewrite Ha.
  - destruct Hm' as (_ & a & Ho & _). by rewrite Ho.
  - destruct (Hown p m Hm) as [Ha Hc]; [simpl; by rewrite self_count|].
    unfold attached, complete in *. by rewrite Ha, Hc.
  - destruct (remove_session id p k w) as [w1 c1] eqn:E. simplify_eq. unfold remove_session in E.
    case_bool_decide; simplify_eq; by apply balanced_same.
  - simplify_eq. by apply balanced_same; destruct k.
  - simplify_eq. apply balanced_same; [done|simpl..]; by rewrite spawned_zero.
  - destruct rest as [|[id p] rest]; [simplify_eq; by apply balanced_same|].
    repeat (case_match || simplify_option_eq); by apply balanced_same.
  - destruct Hl as (m & Hm & _). rewrite Hm in He. simpl in He. unfold control_enter in He.
    repeat case_match; simplify_eq; try by apply balanced_same.
    match goal with |- balanced _ _ (with_managed p ?f _) _ _ _ => count_step p f m end.
    unfold with_managed. simpl. by rewrite Hm.
  - destruct Hl as (m & Hm & _). rewrite Hm in He. simplify_eq/=. unfold control_close.
    destruct (ct_control (m_ct m)) as [x|]; [|by apply balanced_same].
    destruct (ct_open (m_ct m)); [|by apply balanced_same].
    count_step p (upd_ct no_control) m. apply close_chan_heap.
Qed.
End Counts.

(** ** The manager's map, its metrics, and panics *)
Record quiet (w w' : world) : Prop := {
  qt_sessions : sessions w' = sessions w;
  qt_capacity : capacity w' = capacity w;
  qt_active : active (metrics w') = active (metrics w);
  qt_started : started (metrics w') = started (metrics w);
  qt_completed : completed (metrics w') = completed (metrics w);
}.
Inductive counted (w : world) : pc -> world -> pc -> list pc -> Prop :=
| CQuiet c w' c' sp : quiet w w' -> uncounted_removed c' = uncounted_removed c ->
    uncounted_completed c' = uncounted_completed c -> total uncounted_removed sp = 0%nat ->
    total uncounted_completed sp = 0%nat -> counted w c w' c' sp
| CStart cfg r : draining w = false -> sessions w !! cfg_ID cfg = None -> Z.of_nat (size (sessions w)) < capacity w ->
    counted w (StartCall cfg) (new_session cfg w) (Returned r) []
| CRemove id p k : sessions w !! id = Some p ->
    counted w (Remove id p k) (set_sessions (delete id (sessions w)) w) (CountRemoved k) []
| CRemoved k : counted w (CountRemoved k) (upd_metrics sessionRemoved w) (CountCompleted k) []
| CCompleted k : counted w (CountCompleted k) (upd_metrics sessionCompleted w) (Notify k) [].

Lemma quiet_refl w : quiet w w.
Proof. by split. Qed.
Lemma quiet_managed p f w : quiet w (with_managed p f w).
Proof. unfold with_managed. by destruct (heap w !! p). Qed.
Lemma quiet_publish p ev w : quiet w (fst (publish p ev w)).
Proof. unfold publish. by repeat case_match. Qed.
Lemma quiet_close x w : quiet w (close_chan x w).
Proof. unfold close_chan. by repeat case_match. Qed.
Lemma quiet_trans w1 w2 w3 : quiet w1 w2 -> quiet w2 w3 -> quiet w1 w3.
Proof. intros [] []. split; congruence. Qed.
Lemma quiet_control_close p m w : quiet w (control_close p m w).
Proof.
  unfold control_close. repeat case_match; try apply quiet_refl.
  eapply quiet_trans; [apply quiet_managed|apply quiet_close].
Qed.
Lemma quiet_observe f w : active (f (metrics w)) = active (metrics w) ->
  started (f (metrics w)) = started (metrics w) -> completed (f (metrics w)) = completed (metrics w) ->
  forall w', quiet w w' -> metrics w' = metrics w -> quiet w (upd_metrics f w').
Proof. intros Ha Hs Hc w' [] Hm. by split; simpl; rewrite ?Hm. Qed.
#[local] Hint Resolve quiet_refl quiet_managed quiet_publish quiet_control_close : core.

Section Counted.
Context (error_text : error -> string) (now : Z).
Ltac quiet_case := apply CQuiet; [solve [eauto]|done..].

Lemma exec_counted inp c w w' c' sp : exec error_text now inp c w = Some (w', c', sp) -> counted w c w' c' sp.
Proof.
  intros He. destruct c; cbn [exec exec_attach exec_finish exec_remove exec_timer exec_stop exec_drain exec_control exec_command] in He.
  all: try (simplify_option_eq; by (constructor || quiet_case)).
  all: try (repeat (case_match || simplify_option_eq); by (constructor || quiet_case)).
  - destruct (Start cfg inp w) as [[w1 r]|] eqn:E; simplify_eq/=.
    destruct (Start_new _ _ _ _ _ E) as [(? & ? & ? & ? & ? & ? & ? & ? & ?)|(? & ? & ? & ->)].
    + by apply CQuiet.
    + by constructor.
  - simplify_eq. unfold attach_lookup. case_match; quiet_case.
  - destruct (heap w !! p) as [m|] eqn:Hm; simpl in He; [|done]. unfold attach_enter in He.
    repeat case_match; simplify_eq; try quiet_case.
    apply CQuiet; [|done..]. by apply quiet_observe; [..|apply quiet_managed|apply with_managed_rest].
  - destruct (heap w !! p) as [m|] eqn:Hm; simpl in He; [|done]. simplify_eq.
    assert (quiet w (match c with Some x => close_chan x w | None => w end)) as Hq
      by (destruct c; [apply quiet_close|done]).
    apply CQuiet; [|done..]. destruct (ct_done (m_ct m)); [by destruct Hq|].
    eapply quiet_trans; [exact Hq|apply quiet_managed].
  - unfold remove_session in He. case_bool_decide; simplify_eq; [by constructor|quiet_case].
  - simplify_eq. destruct k; apply CQuiet; done.
  - simplify_eq. apply CQuiet; [done..| |]; by apply spawned_zero.
  - destruct (heap w !! p) as [m|] eqn:Hm; simpl in He; [|done]. unfold control_enter in He.
    repeat case_match; simplify_eq; try quiet_case.
    apply CQuiet; [|done..]. eapply quiet_trans; [|apply quiet_managed]. done.
Qed.

(** No step panics: channels are closed by their owner only, and once. *)
Lemma close_no_panic x ch w : chans w !! x = Some ch -> ch_closed ch = false ->
  panicked (close_chan x w) = panicked w.
Proof. intros Hx Hc. by rewrite (close_chan_open x w ch). Qed.
Lemma managed_panicked p f w : panicked (with_managed p f w) = panicked w.
Proof. unfold with_managed. by destruct (heap w !! p). Qed.

Lemma exec_no_panic inp c w w' c' sp : sessions_ok w -> local w c ->
  exec error_text now inp c w = Some (w', c', sp) -> panicked w' = panicked w.
Proof.
  intros Hok Hl He.
  assert (Hpub : forall p ev, panicked (fst (publish p ev w)) = panicked w).
  { intros p ev. destruct (publish_cases p ev w Hok) as [->|(x & ch & buf & _ & _ & ->)]; done. }
  pose proof managed_panicked as Hman.
  destruct c; cbn [exec exec_attach exec_finish exec_remove exec_timer exec_stop exec_drain exec_control exec_command] in He; simpl in Hl.
  all: try (simplify_option_eq; by auto).
  all: try (repeat (case_match || simplify_option_eq); by auto).
  - destruct (Start cfg inp w) as [[w1 r]|] eqn:E; simplify_eq/=.
    by destruct (Start_new _ _ _ _ _ E) as [(? & ? & ? & ? & ? & ? & _)|(_ & _ & _ & ->)].
  - destruct (heap w !! p) as [m|]; simpl in He; [|done]. unfold attach_enter in He.
    repeat case_match; simplify_eq; try done. simpl. apply Hman.
  - destruct Hl as [(m & Hm & _ & _ & _ & _ & Hst) Hx]. rewrite Hm in He. simpl in He.
    rewrite (sg_done _ _ Hst) in He. simplify_eq/=. rewrite Hman. destruct c as [x|]; [|done].
    destruct (Hx x eq_refl) as (ch & Hch & _ & Hcl). by apply (close_no_panic x ch).
  - unfold remove_session in He. by case_bool_decide; simplify_eq.
  - destruct (heap w !! p) as [m|]; simpl in He; [|done]. unfold control_enter in He.
    repeat case_match; simplify_eq; try done. by rewrite Hman.
  - destruct Hl as (m & Hm & _). rewrite Hm in He. simplify_eq/=. unfold control_close.
    destruct (ct_control (m_ct m)) as [x|] eqn:Ex; [|done]. destruct (ct_open (m_ct m)); [|done].
    destruct (so_control _ _ _ (Hok p m Hm) x Ex) as (ch & Hch & _ & Hcl).
    rewrite (close_no_panic x ch); [apply Hman| |done].
    by destruct (with_managed_rest p (upd_ct no_control) w) as (_ & -> & _).
Qed.

Lemma dom_managed p f w : dom (heap (with_managed p f w)) = dom (heap w).
Proof.
  unfold with_managed. destruct (heap w !! p) eqn:E; [|done]. simpl. apply dom_insert_lookup_L. by exists m.
Qed.
Lemma dom_control_close p m w : dom (heap (control_close p m w)) = dom (heap w).
Proof. unfold control_close. repeat case_match; try done. rewrite close_chan_heap. apply dom_managed. Qed.
Lemma exec_dom inp c w w' c' sp : exec error_text now inp c w = Some (w', c', sp) ->
  dom (heap w') = dom (heap w) \/ exists cfg, c = StartCall cfg /\ w' = new_session cfg w /\ sp = []
    /\ (exists r, c' = Returned r) /\ sessions w !! cfg_ID cfg = None.
Proof.
  intros He. pose proof dom_managed as Hman. pose proof dom_control_close as Hcc.
  assert (Hpub : forall p ev, dom (heap (fst (publish p ev w))) = dom (heap w)) by (intros; by rewrite publish_heap).
  destruct c; cbn [exec exec_attach exec_finish exec_remove exec_timer exec_stop exec_drain exec_control exec_command] in He.
  all: try (left; simplify_option_eq; by auto).
  all: try (left; repeat (case_match || simplify_option_eq); by auto).
  - destruct (Start cfg inp w) as [[w1 r]|] eqn:E; simplify_eq/=.
    destruct (Start_new _ _ _ _ _ E) as [(_ & -> & _)|(_ & Hn & _ & ->)]; [by left|right; eauto 10].
  - left. destruct (heap w !! p) as [m|]; simpl in He; [|done]. unfold attach_enter in He.
    repeat case_match; simplify_eq; try done. apply Hman.
  - left. destruct (heap w !! p) as [m|]; simpl in He; [|done]. simplify_eq.
    destruct (ct_done (m_ct m)); [|rewrite Hman]; destruct c; try done; simpl; by rewrite close_chan_heap.
  - left. unfold remove_session in He. by case_bool_decide; simplify_eq.
  - left. destruct (heap w !! p) as [m|]; simpl in He; [|done]. unfold control_enter in He.
    repeat case_match; simplify_eq; try done. by rewrite Hman.
Qed.

(** ** The invariant is preserved *)
Lemma total_insert f pcs i c c' sp : pcs !! i = Some c ->
  (total f (<[i := c']> pcs ++ sp) + f c = total f pcs + f c' + total f sp)%nat.
Proof.
  unfold total. rewrite sum_list_with_app. revert i. induction pcs as [|d pcs IH]; intros [|i]; simpl; try done.
  - intros [= ->]. lia.
  - intros H. specialize (IH i H). lia.
Qed.
Lemma total_one f pcs i c : pcs !! i = Some c -> (f c <= total f pcs)%nat.
Proof.
  unfold total. revert i. induction pcs as [|y pcs IH]; intros [|j]; simpl; try done; [intros [= ->]; lia|].
  intros H. specialize (IH j H). lia.
Qed.
Lemma total_two f pcs i j c d : pcs !! i = Some c -> pcs !! j = Some d -> i <> j ->
  (f c + f d <= total f pcs)%nat.
Proof.
  unfold total. revert i j. induction pcs as [|x pcs IH]; intros [|i] [|j]; simpl; try done.
  - intros [= ->] H _. pose proof (total_one f pcs j d H). unfold total in *. lia.
  - intros H [= ->] _. pose proof (total_one f pcs i c H). unfold total in *. lia.
  - intros H1 H2 Hne. specialize (IH i j H1 H2). lia.
Qed.
Lemma total_witness f pcs : (0 < total f pcs)%nat -> exists j d, pcs !! j = Some d /\ (0 < f d)%nat.
Proof.
  unfold total. induction pcs as [|d pcs IH]; simpl; [lia|]. intros H.
  destruct (decide (0 < f d)%nat) as [Hd|Hd]; [by exists 0%nat, d|].
  destruct IH as (j & e & Hj & He); [lia|]. by exists (S j), e.
Qed.
Lemma total_zero f pcs : Forall (fun c => f c = 0%nat) pcs -> total f pcs = 0%nat.
Proof. unfold total. induction 1 as [|c pcs Hc _ IH]; simpl; lia. Qed.

Lemma inv_runner_le w pcs p i j c d : inv w pcs -> pcs !! i = Some c -> pcs !! j = Some d -> i <> j ->
  (runner p c + runner p d <= 1)%nat.
Proof.
  intros Hinv Hc Hd Hne. destruct (heap w !! p) as [m|] eqn:Hm.
  - pose proof (total_two (runner p) pcs i j c d Hc Hd Hne). pose proof (inv_runner _ _ Hinv p m Hm).
    destruct (bool_decide _); simpl in *; lia.
  - pose proof (Forall_lookup_1 _ _ _ _ (inv_local _ _ Hinv) Hc) as Hlc.
    pose proof (Forall_lookup_1 _ _ _ _ (inv_local _ _ Hinv) Hd) as Hld.
    destruct (no_session p c w Hlc Hm), (no_session p d w Hld Hm). lia.
Qed.
Lemma inv_owner_one w pcs i c p m : inv w pcs -> pcs !! i = Some c -> heap w !! p = Some m ->
  owner p c = 1%nat -> attached m = true /\ complete m = false.
Proof.
  intros Hinv Hc Hm Ho. pose proof (total_one (owner p) pcs i c Hc). pose proof (inv_owner _ _ Hinv p m Hm).
  destruct (attached m), (complete m); simpl in *; try lia; done.
Qed.
(** The goroutines know of no session outside the heap. *)
Lemma inv_absent w pcs p : inv w pcs -> heap w !! p = None ->
  total (runner p) pcs = 0%nat /\ total (owner p) pcs = 0%nat.
Proof.
  intros Hinv Hp. pose proof (inv_local _ _ Hinv) as Hl.
  split; apply total_zero; eapply Forall_impl; try exact Hl; intros c Hc;
    by destruct (no_session p c w Hc Hp).
Qed.

Lemma inv_exec_local w pcs i c inp w' c' sp : inv w pcs -> pcs !! i = Some c ->
  exec error_text now inp c w = Some (w', c', sp) -> Forall (local w') (<[i := c']> pcs ++ sp).
Proof.
  intros Hinv Hi He. pose proof (Forall_lookup_1 _ _ _ _ (inv_local _ _ Hinv) Hi) as Hl.
  pose proof (exec_effect _ _ _ _ _ _ _ _ (inv_session _ _ Hinv) Hl He) as Heff.
  destruct (exec_local _ _ _ _ _ _ _ _ (inv_session _ _ Hinv) (inv_sessions _ _ Hinv) Hl He) as [Hc' Hsp].
  apply Forall_app. split; [|done]. apply Forall_lookup. intros j d Hd.
  destruct (decide (i = j)) as [->|Hne].
  - rewrite list_lookup_insert_eq in Hd by (by eapply lookup_lt_Some). by injection Hd as <-.
  - rewrite list_lookup_insert_ne in Hd by done.
    eapply local_effect; [exact Heff| |exact (Forall_lookup_1 _ _ _ _ (inv_local _ _ Hinv) Hd)].
    intros p. by apply inv_runner_le with w pcs i j.
Qed.

Lemma inv_exec_counts w pcs i c inp w' c' sp p m' : inv w pcs -> pcs !! i = Some c ->
  exec error_text now inp c w = Some (w', c', sp) -> heap w' !! p = Some m' ->
  total (runner p) (<[i := c']> pcs ++ sp) = is_running m'
  /\ total (owner p) (<[i := c']> pcs ++ sp) = is_owned m'.
Proof.
  intros Hinv Hi He Hm'. pose proof (Forall_lookup_1 _ _ _ _ (inv_local _ _ Hinv) Hi) as Hl.
  pose proof (total_insert (runner p) pcs i c c' sp Hi). pose proof (total_insert (owner p) pcs i c c' sp Hi).
  destruct (heap w !! p) as [m|] eqn:Hm.
  - destruct (exec_balanced error_text now inp c w w' c' sp p (inv_session _ _ Hinv) Hl) with m m' as [Hr Ho]; try done.
    { intros q mq Hq. by apply inv_owner_one with w pcs i. }
    pose proof (inv_runner _ _ Hinv p m Hm) as Hr'. pose proof (inv_owner _ _ Hinv p m Hm) as Ho'.
    fold (is_running m) in Hr'. fold (is_owned m) in Ho'. lia.
  - destruct (inv_absent w pcs p Hinv Hm) as [Hr0 Ho0]. destruct (no_session p c w Hl Hm) as [Hrc Hoc].
    destruct (exec_dom _ _ _ _ _ _ He) as [Hdom|(cfg & -> & -> & -> & [r ->] & _)].
    + apply not_elem_of_dom in Hm. rewrite <- Hdom in Hm. apply not_elem_of_dom in Hm. congruence.
    + simpl in Hm'. apply lookup_insert_Some in Hm' as [[<- <-]|[_ ?]]; [|congruence].
      unfold is_running, is_owned, total in *. simpl in *. lia.
Qed.

Lemma inv_exec_sessions w pcs i c inp w' c' sp id p : inv w pcs -> pcs !! i = Some c ->
  exec error_text now inp c w = Some (w', c', sp) -> sessions w' !! id = Some p ->
  session_at w' p (fun m => id_of m = id).
Proof.
  intros Hinv Hi He Hp. pose proof (Forall_lookup_1 _ _ _ _ (inv_local _ _ Hinv) Hi) as Hl.
  pose proof (exec_effect _ _ _ _ _ _ _ _ (inv_session _ _ Hinv) Hl He) as Heff.
  assert (Hold : sessions w !! id = Some p -> session_at w' p (fun m => id_of m = id)).
  { intros Hw. eapply session_at_mono; [exact (inv_sessions _ _ Hinv id p Hw)|]. intros m Hm.
    destruct (ef_heap _ _ _ Heff p m Hm) as (m' & ? & Hc). exists m'. split; [done|].
    by rewrite (changes_config _ _ _ Hc). }
  destruct (exec_counted _ _ _ _ _ _ He) as [c0 w1 c1 sp1 Hq _ _ _ _|cfg r Hd Hn Hs|id' p' k Hp'|k|k].
  - apply Hold. by rewrite <- (qt_sessions _ _ Hq).
  - simpl in Hp. apply lookup_insert_Some in Hp as [[<- <-]|[_ Hp]]; [|auto].
    exists (new_managed cfg). split; [|done]. simpl. by rewrite lookup_insert_eq.
  - simpl in Hp. apply lookup_delete_Some in Hp as [_ Hp]. auto.
  - auto.
  - auto.
Qed.

Lemma inv_exec w pcs i c inp w' c' sp : inv w pcs -> pcs !! i = Some c ->
  exec error_text now inp c w = Some (w', c', sp) -> inv w' (<[i := c']> pcs ++ sp).
Proof.
  intros Hinv Hi He. pose proof (Forall_lookup_1 _ _ _ _ (inv_local _ _ Hinv) Hi) as Hl.
  pose proof (exec_counted _ _ _ _ _ _ He) as Hcnt.
  pose proof (total_insert uncounted_removed pcs i c c' sp Hi) as Hr.
  pose proof (total_insert uncounted_completed pcs i c c' sp Hi) as Hc.
  pose proof (total_one uncounted_removed pcs i c Hi) as Hone.
  pose proof (inv_active _ _ Hinv) as Ha. pose proof (inv_started _ _ Hinv) as Hs.
  pose proof (inv_capacity _ _ Hinv) as Hcap.
  assert (Hnum : Z.of_nat (size (sessions w')) <= capacity w'
    /\ active (metrics w') = Z.of_nat (size (sessions w') + total uncounted_removed (<[i := c']> pcs ++ sp))
    /\ started (metrics w') = completed (metrics w')
         + Z.of_nat (size (sessions w') + total uncounted_completed (<[i := c']> pcs ++ sp))).
  { destruct Hcnt as [c w1 c1 sp1 [-> -> -> -> ->] Hc1 Hc2 Hc3 Hc4|cfg r Hd Hn Hlt|id p k Hp|k|k].
    - lia.
    - simpl in *. rewrite map_size_insert_None by done. unfold total in *. simpl in *. lia.
    - simpl in *. assert (is_Some (sessions w !! id)) as Hsome by by exists p.
      rewrite map_size_delete_Some by done.
      assert (size (sessions w) <> 0%nat) by (apply map_size_ne_0_lookup_2 with id; done).
      unfold total in *. simpl in *. lia.
    - simpl in *. destruct (Z.eqb_spec (active (metrics w)) 0); unfold total in *; simpl in *; lia.
    - simpl in *. unfold total in *; simpl in *; lia. }
  destruct Hnum as (Hn1 & Hn2 & Hn3). split.
  - by apply inv_exec_local with w c inp.
  - intros id p. by apply inv_exec_sessions with w pcs i c inp c' sp.
  - by apply (exec_ok _ _ _ _ _ _ _ _ (inv_session _ _ Hinv) Hl He).
  - intros p m' Hm'. by apply (inv_exec_counts w pcs i c inp w' c' sp).
  - intros p m' Hm'. by apply (inv_exec_counts w pcs i c inp w' c' sp).
  - done.
  - done.
  - done.
  - rewrite (exec_no_panic _ _ _ _ _ _ (inv_session _ _ Hinv) Hl He). apply (inv_panic _ _ Hinv).
Qed.
End Counted.

End MediaInvariant.
