(* ===== verification/MediaSafety.v ===== *)
(** * What the media session manager guarantees

    Consequences of [MediaInvariant.v]: the capacity bound, one pump per session,
    resources closed once, no panic on a control channel, a drained manager is
    empty, exact metrics, a waiting [Stop] can return; and an executable scheduler
    for the runs that instantiate them. *)

From S2P Require Import Prelude Json MediaSession MediaManager MediaInvariant.
Import MediaSession MediaManager MediaInvariant.

Module MediaSafety.

Section Reachable.
Context (error_text : error -> string) (now : Z).

(** ** The invariant holds in every reachable state *)
Lemma inv_new cap timeout es limits w : NewManager cap timeout es limits = inl w -> inv w [].
Proof.
  unfold NewManager. destruct (Z.leb_spec cap 0); [done|]. case_bool_decide; [done|].
  destruct (timeout <=? 0); [done|]. destruct (RuntimeLimits_validate limits) as [[]|]; simpl; [|done].
  intros [= <-]. split; simpl; rewrite ?map_size_empty; try done; lia.
Qed.

Lemma inv_spawn w pcs c : inv w pcs -> local w c -> (forall p, runner p c = 0%nat /\ owner p c = 0%nat) ->
  uncounted_removed c = 0%nat -> uncounted_completed c = 0%nat -> inv w (pcs ++ [c]).
Proof.
  intros Hinv Hl Hro Hr Hc.
  assert (Ht : forall f, f c = 0%nat -> total f (pcs ++ [c]) = total f pcs).
  { intros f Hf. unfold total. rewrite sum_list_with_app. simpl. lia. }
  destruct Hinv. split; try done.
  - apply Forall_app. split; [done|]. by constructor.
  - intros p m Hm. rewrite Ht; [by apply inv_runner0|apply Hro].
  - intros p m Hm. rewrite Ht; [by apply inv_owner0|apply Hro].
  - by rewrite Ht.
  - by rewrite Ht.
Qed.

Lemma runner_le_one p d : (runner p d <= 1)%nat.
Proof. destruct d; simpl; try lia; unfold Nat.b2n; destruct (bool_decide _); lia. Qed.
(** A change of the world that is nobody's step. *)
Lemma inv_world w w' pcs : inv w pcs -> effect (Returned (inl tt)) w w' -> quiet w w' ->
  sessions_ok w' -> panicked w' = panicked w -> dom (heap w') = dom (heap w) ->
  (forall p m m', heap w !! p = Some m -> heap w' !! p = Some m' ->
     is_running m' = is_running m /\ is_owned m' = is_owned m) -> inv w' pcs.
Proof.
  intros Hinv He [Hs Hcap Ha Hst Hco] Hok Hp Hdom Hcnt.
  assert (Hback : forall p m', heap w' !! p = Some m' -> exists m, heap w !! p = Some m).
  { intros p m' Hm'. assert (p ∈ dom (heap w)) as [m ?]%elem_of_dom; [|by exists m].
    rewrite <- Hdom. by apply elem_of_dom. }
  destruct Hinv. split; rewrite ?Hs, ?Hcap, ?Ha, ?Hst, ?Hco, ?Hp; try done.
  - eapply Forall_impl; [exact inv_local0|]. intros d Hd. eapply local_effect; [exact He| |exact Hd].
    intros p. apply runner_le_one.
  - intros id p Hp'. eapply session_at_mono; [by apply inv_sessions0|]. intros m Hm.
    destruct (ef_heap _ _ _ He p m Hm) as (m' & ? & Hc). exists m'. split; [done|].
    by rewrite (changes_config _ _ _ Hc).
  - intros p m' Hm'. destruct (Hback p m' Hm') as [m Hm]. rewrite (inv_runner0 p m Hm).
    symmetry. apply (Hcnt p m m' Hm Hm').
  - intros p m' Hm'. destruct (Hback p m' Hm') as [m Hm]. rewrite (inv_owner0 p m Hm).
    symmetry. apply (Hcnt p m m' Hm Hm').
Qed.

Lemma inv_timer w pcs p m : inv w pcs -> heap w !! p = Some m -> inv (with_managed p (upd_at fire) w) pcs.
Proof.
  intros Hinv Hm. pose proof (inv_session _ _ Hinv) as Hok. apply (inv_world w); try done.
  - apply effect_managed; [intros; apply chg_fire|apply effect_refl|done].
  - apply quiet_managed.
  - apply ok_managed with m; [done|done|]. destruct (Hok p m Hm). split; simpl; try done.
    + intros Hn. destruct (so_notrun0 Hn). by split.
    + intros Hr. destruct (so_ran0 Hr). by split.
  - apply managed_panicked.
  - apply dom_managed.
  - intros q m1 m2 H1 H2. rewrite with_managed_lookup, H1 in H2. case_decide; by simplify_eq/=.
Qed.
Lemma inv_receive w pcs x ch buf : inv w pcs -> chans w !! x = Some ch -> inv (rebuffer x ch buf w) pcs.
Proof.
  intros Hinv Hx. apply (inv_world w); try done.
  - by apply rebuffer_effect.
  - apply ok_frame with w; [exact (inv_session _ _ Hinv)|done..|]. intros y ch' Hy. simpl.
    destruct (decide (y = x)) as [->|]; [|rewrite lookup_insert_ne by done; eauto].
    rewrite lookup_insert_eq. simplify_eq. eauto.
  - intros p m m' Hm Hm'. simpl in Hm'. by simplify_eq.
Qed.

Lemma inv_step s s' : (step error_text now) s s' -> inv (fst s) (snd s) -> inv (fst s') (snd s').
Proof.
  intros [w pcs i c inp w' c' sp Hi He|w pcs c Hc|w pcs p m Hm Ht|w pcs x ch ev rest Hx Hb] Hinv; simpl in *.
  - by apply (inv_exec error_text now w pcs i c inp).
  - apply inv_spawn; try done; destruct c; try done.
  - apply inv_spawn; try done; [by apply inv_timer with m|]. simpl.
    apply (sess_upd _ _ _ m); [done|]. done.
  - by apply (inv_receive w).
Qed.

Section Manager.
Context (cap timeout : Z) (es : gset string) (limits : RuntimeLimits) (w0 : world)
  (Hnew : NewManager cap timeout es limits = inl w0).

Lemma inv_reachable w pcs : rtc (step error_text now) (w0, []) (w, pcs) -> inv w pcs.
Proof.
  intros H. apply (rtc_invariant (step error_text now) (fun s => inv (fst s) (snd s)) (w0, []) (w, pcs)); [|apply inv_step|done].
  by apply inv_new with cap timeout es limits.
Qed.
Lemma capacity_reachable w pcs : rtc (step error_text now) (w0, []) (w, pcs) -> capacity w = cap.
Proof.
  intros H. apply (rtc_invariant (step error_text now) (fun s => capacity (fst s) = cap) (w0, []) (w, pcs)); [| |done].
  - simpl. revert Hnew. unfold NewManager. repeat case_match; try done; simpl; try done.
    destruct (RuntimeLimits_validate limits); simpl; try done. by intros [= <-].
  - intros a b Hab <-. destruct Hab as [w1 pcs1 i c inp w' c' sp Hi He| |w1 pcs1 p m Hm Ht|]; simpl; try done.
    + by destruct (exec_counted _ _ _ _ _ _ _ _ He) as [? ? ? ? []|? ? ? ? ?| | |].
    + apply with_managed_rest.
Qed.

(** The manager never holds more sessions than its capacity. *)
Theorem media_capacity w pcs : rtc (step error_text now) (w0, []) (w, pcs) -> Z.of_nat (size (sessions w)) <= cap.
Proof.
  intros H. rewrite <- (capacity_reachable w pcs H). apply (inv_capacity w pcs). by apply inv_reachable.
Qed.

(** C28: A session is pumped by at most one goroutine. Once it is complete it is
    pumped by none, its context is cancelled, its control channel closed, its
    stream closed exactly once and its connection, if it had one, closed exactly
    once. *)
Theorem session_released_once w pcs p m : rtc (step error_text now) (w0, []) (w, pcs) -> heap w !! p = Some m ->
  (forall i j a b, pcs !! i = Some (Pumping p a) -> pcs !! j = Some (Pumping p b) -> i = j)
  /\ (complete m = true -> released m /\ forall i a, pcs !! i <> Some (Pumping p a)).
Proof.
  intros H Hm. pose proof (inv_reachable w pcs H) as Hinv. pose proof (inv_owner _ _ Hinv p m Hm) as Ho.
  assert (Hself : forall a, owner p (Pumping p a) = 1%nat) by (intros; simpl; apply self_count).
  split.
  - intros i j a b Hi Hj. destruct (decide (i = j)) as [|Hne]; [done|exfalso].
    pose proof (total_two (owner p) pcs i j _ _ Hi Hj Hne) as Ht. rewrite !Hself, Ho in Ht.
    destruct (attached m && negb (complete m)); simpl in Ht; lia.
  - intros Hc. split; [by apply (so_released _ _ _ (inv_session _ _ Hinv p m Hm))|].
    intros i a Hi. destruct (inv_owner_one w pcs i _ p m Hinv Hi Hm (Hself a)). congruence.
Qed.

(** No goroutine sends on a closed control channel or closes a channel twice. *)
Theorem control_never_panics w pcs : rtc (step error_text now) (w0, []) (w, pcs) -> panicked w = false.
Proof. intros H. apply (inv_panic w pcs). by apply inv_reachable. Qed.

(** A [Drain] that has waited for the sessions it saw finds the manager empty,
    every session complete and no pump running: it returns without waiting for
    further changes. *)
Theorem drained_is_empty w pcs i : rtc (step error_text now) (w0, []) (w, pcs) ->
  pcs !! i <> Some DrainIdle /\
  (pcs !! i = Some DrainLoop -> sessions w = ∅ /\
     (forall p m, heap w !! p = Some m -> complete m = true) /\
     exec error_text now Proceed DrainLoop w = Some (w, Returned (inl tt), [])).
Proof.
  intros H. pose proof (inv_reachable w pcs H) as Hinv. split.
  { intros Hi. exact (Forall_lookup_1 _ _ _ _ (inv_local _ _ Hinv) Hi). }
  intros Hi. pose proof (drains_nil w (Forall_lookup_1 _ _ _ _ (inv_local _ _ Hinv) Hi)) as He.
  split_and!; [done| |simpl; by rewrite bool_decide_eq_true_2].
  intros p m Hm. destruct (complete m) eqn:Hc; [done|].
  pose proof (so_live _ _ _ (inv_session _ _ Hinv p m Hm) Hc) as Hl. rewrite He in Hl. by rewrite lookup_empty in Hl.
Qed.

(** The gauge of active sessions is the number of sessions held plus those
    removed and about to be counted, and every started session is active or counted
    as completed, so that the metrics are exact whenever nothing is being removed. *)
Theorem media_metrics_exact w pcs : rtc (step error_text now) (w0, []) (w, pcs) ->
  active (metrics w) = Z.of_nat (size (sessions w) + total uncounted_removed pcs)
  /\ started (metrics w) = completed (metrics w) + Z.of_nat (size (sessions w) + total uncounted_completed pcs).
Proof.
  intros H. pose proof (inv_reachable w pcs H) as Hinv. split; [apply (inv_active _ _ Hinv)|apply (inv_started _ _ Hinv)].
Qed.

(** ** A stopped session completes *)
Lemma own_step w pcs i c inp w' c' : pcs !! i = Some c -> exec error_text now inp c w = Some (w', c', []) ->
  (step error_text now) (w, pcs) (w', <[i := c']> pcs).
Proof. intros Hi He. rewrite <- (app_nil_r (<[i := c']> pcs)). by apply StepRun with c inp. Qed.

(** The steps the owner of a pump has to take before [markComplete] when
    [finishOnce] has run. *)
Definition rank (d : pc) : nat :=
  match d with
  | Pumping _ _ => 6 | AttachFailed _ _ _ => 5 | AttachPublish _ _ _ => 4 | Finish _ _ => 3
  | FinishResources _ _ _ => 2 | Finished _ _ => 1 | _ => 0
  end.
Lemma owner_advances w p m d : heap w !! p = Some m -> ended m -> owner p d = 1%nat -> runner p d = 0%nat ->
  (exists id err, d = MarkComplete p id err) \/
  exists inp w' d', exec error_text now inp d w = Some (w', d', []) /\ owner p d' = 1%nat
                    /\ runner p d' = 0%nat /\ (rank d' < rank d)%nat.
Proof.
  intros Hm [Ho _] Hown Hrun.
  assert (Hb : forall q, Nat.b2n (bool_decide (p = q)) = 1%nat -> q = p) by (intros q; by case_bool_decide).
  assert (Hk : forall q k, attach_owned p q k = 1%nat -> q = p /\ exists id err, k = ToAttach id err).
  { intros q [] Hq; simpl in Hq; try done. split; [by apply Hb|eauto]. }
  pose proof (self_count p) as Hself.
  destruct d; simpl in Hown, Hrun; try done;
    try (apply Hk in Hown as [-> (id' & err' & ->)]; try congruence); try (apply Hb in Hown as ->).
  - right. exists (PumpReturns (inl tt)), w, (Finish p (ToAttach id (inl tt))). simpl. by split_and!; try lia.
  - right. exists Proceed. do 2 eexists. split; [reflexivity|]. simpl. split_and!; try done; lia.
  - right. exists Proceed. do 2 eexists. split; [reflexivity|]. simpl. split_and!; try done; lia.
  - right. exists Proceed. simpl. rewrite Hm. simpl. do 2 eexists. split; [reflexivity|].
    simpl. split_and!; try done; lia.
  - right. exists Proceed. simpl. rewrite Hm. simpl. rewrite Ho. do 2 eexists. split; [reflexivity|].
    simpl. split_and!; try done; lia.
  - right. exists Proceed. do 2 eexists. split; [reflexivity|]. simpl. split_and!; try done; lia.
  - left. eauto.
Qed.
Lemma ended_no_runner w pcs p m j d : inv w pcs -> heap w !! p = Some m -> ended m -> pcs !! j = Some d ->
  runner p d = 0%nat.
Proof.
  intros Hinv Hm [Ho _] Hj. pose proof (total_one (runner p) pcs j d Hj) as Ht.
  rewrite (inv_runner _ _ Hinv p m Hm), Ho in Ht. simpl in Ht. lia.
Qed.
Lemma owner_completes n : forall w pcs p m j d, inv w pcs -> heap w !! p = Some m -> ended m ->
  pcs !! j = Some d -> owner p d = 1%nat -> (rank d <= n)%nat ->
  exists w' pcs' m', rtc (step error_text now) (w, pcs) (w', pcs') /\ inv w' pcs' /\ heap w' !! p = Some m' /\ complete m' = true
    /\ forall i, i <> j -> pcs' !! i = pcs !! i.
Proof.
  induction n as [|n IH]; intros w pcs p m j d Hinv Hm He Hj Hown Hrank;
    (destruct (owner_advances w p m d Hm He Hown (ended_no_runner _ _ _ _ _ _ Hinv Hm He Hj))
       as [(id & err & ->)|(inp & w1 & d1 & Hex & Ho1 & _ & Hlt)]; [|try lia]).
  1, 2: exists (with_managed p (upd_en set_complete) w), (<[j := Remove id p (RReturn err)]> pcs), (upd_en set_complete m);
    pose proof (inv_exec error_text now w pcs j _ Proceed _ _ [] Hinv Hj eq_refl) as Hinv'; rewrite app_nil_r in Hinv';
    split_and!; try done; [by apply rtc_once, (own_step _ _ _ (MarkComplete p id err) Proceed)|by rewrite with_managed_lookup, decide_True, Hm|
      intros i Hi; by rewrite list_lookup_insert_ne].
  pose proof (inv_exec error_text now w pcs j _ inp _ _ [] Hinv Hj Hex) as Hinv1. rewrite app_nil_r in Hinv1.
  pose proof (Forall_lookup_1 _ _ _ _ (inv_local _ _ Hinv) Hj) as Hl.
  destruct (ef_heap _ _ _ (exec_effect _ _ _ _ _ _ _ _ (inv_session _ _ Hinv) Hl Hex) p m Hm) as (m1 & Hm1 & Hch).
  destruct (IH w1 (<[j := d1]> pcs) p m1 j d1) as (w' & pcs' & m' & Hr & ? & ? & ? & Hi); try done.
  - by apply changes_ended with (1 := Hch).
  - by apply list_lookup_insert_eq, (lookup_lt_Some _ _ _ Hj).
  - lia.
  - exists w', pcs', m'. split_and!; try done; [eapply rtc_l; [by eapply own_step|done]|].
    intros i Hne. rewrite Hi by done. by rewrite list_lookup_insert_ne.
Qed.

(** One goroutine running alone. *)
Inductive solo : world -> pc -> world -> pc -> Prop :=
| solo_refl w c : solo w c w c
| solo_step inp w c w1 c1 w' c' : exec error_text now inp c w = Some (w1, c1, []) -> solo w1 c1 w' c' ->
    solo w c w' c'.
Lemma solo_run w c w' c' : solo w c w' c' -> forall pcs i, pcs !! i = Some c ->
  rtc (step error_text now) (w, pcs) (w', <[i := c']> pcs).
Proof.
  induction 1 as [w c|inp w c w1 c1 w' c' He _ IH]; intros pcs i Hi.
  - by rewrite list_insert_id.
  - eapply rtc_l; [by apply own_step with (2 := He)|].
    rewrite <- (list_insert_insert_eq pcs i c' c1). apply IH.
    by apply list_lookup_insert_eq, (lookup_lt_Some _ _ _ Hi).
Qed.

(** From the moment its session is complete, [Stop] returns on its own. *)
Lemma stop_returns w pcs i p id m : pcs !! i = Some (WaitComplete p id) -> heap w !! p = Some m ->
  complete m = true ->
  exists w' pcs', rtc (step error_text now) (w, pcs) (w', pcs') /\ pcs' !! i = Some (Returned (inl tt)).
Proof.
  intros Hi Hm Hc.
  assert (Hnotify : forall w1, solo w1 (Notify (RReturn (inl tt))) (set_changed true w1) (Returned (inl tt))).
  { intros w1. eapply (solo_step Proceed); [reflexivity|apply solo_refl]. }
  assert (exists w', solo w (Remove id p (RReturn (inl tt))) w' (Returned (inl tt))) as [w' Hs].
  { destruct (remove_session id p (RReturn (inl tt)) w) as [w1 c1] eqn:E.
    assert (He : exec error_text now Proceed (Remove id p (RReturn (inl tt))) w = Some (w1, c1, []))
      by (cbn [exec exec_attach exec_finish exec_remove exec_timer exec_stop exec_drain exec_control exec_command]; by rewrite E).
    unfold remove_session in E. case_bool_decide; simplify_eq.
    - eexists. eapply solo_step; [exact He|]. eapply (solo_step Proceed); [reflexivity|].
      eapply (solo_step Proceed); [reflexivity|]. apply Hnotify.
    - eexists. eapply solo_step; [exact He|]. apply Hnotify. }
  assert (Hw : exec error_text now Proceed (WaitComplete p id) w = Some (w, Remove id p (RReturn (inl tt)), [])).
  { simpl. rewrite Hm. simpl. unfold complete in Hc. by rewrite Hc. }
  apply (solo_step _ _ _ _ _ _ _ Hw) in Hs.
  exists w', (<[i := Returned (inl tt)]> pcs). split; [by apply solo_run with (1 := Hs)|].
  by apply list_lookup_insert_eq, (lookup_lt_Some _ _ _ Hi).
Qed.

End Manager.
End Reachable.

(** ** Runs

    Schedules as lists of actions, executed. *)
Inductive action :=
| Run (i : nat) (inp : input) | Call (c : pc) | TimerFires (p : nat).
Definition call_ok (c : pc) : bool :=
  match c with
  | StartCall _ | AttachLookup _ | StopLookup _ | DrainBegin | ControlLookup _ => true | _ => false
  end.
Definition ex_text (e : error) : string := match e with Sentinel n => n | _ => "" end.
Definition do_action (a : action) (s : world * list pc) : option (world * list pc) :=
  let '(w, pcs) := s in
  match a with
  | Run i inp => c ← pcs !! i; '(w', c', sp) ← exec ex_text 0 inp c w; Some (w', <[i := c']> pcs ++ sp)
  | Call c => if call_ok c then Some (w, pcs ++ [c]) else None
  | TimerFires p =>
      m ← heap w !! p;
      if bool_decide (at_timer (m_at m) = Armed)
      then Some (with_managed p (upd_at fire) w, pcs ++ [TimerPublish (cfg_ID (m_config m)) p]) else None
  end.
Fixpoint schedule (l : list action) (s : world * list pc) : option (world * list pc) :=
  match l with [] => Some s | a :: l' => do_action a s ≫= schedule l' end.

Lemma do_action_step a s s' : do_action a s = Some s' -> step ex_text 0 s s'.
Proof.
  destruct s as [w pcs]. destruct a as [i inp|c|p]; simpl; intros H.
  - destruct (pcs !! i) as [c|] eqn:Hi; [|done]. simpl in H.
    destruct (exec ex_text 0 inp c w) as [[[w' c'] sp]|] eqn:He; [|done]. injection H as <-.
    by apply StepRun with c inp.
  - destruct (call_ok c) eqn:Hc; [|done]. injection H as <-. apply StepCall. by destruct c.
  - destruct (heap w !! p) as [m|] eqn:Hm; [|done]. simpl in H. case_bool_decide; [|done]. injection H as <-.
    by apply StepTimer.
Qed.
Lemma manager_schedule_run l : forall s s', schedule l s = Some s' -> rtc (step ex_text 0) s s'.
Proof.
  induction l as [|a l IH]; simpl; intros s s' H; [injection H as <-; apply rtc_refl|].
  destruct (do_action a s) as [s1|] eqn:E; [|done]. eapply rtc_l; [by apply do_action_step with (1 := E)|].
  by apply IH.
Qed.

(** A manager with room for one session, a session of the echo engine, its connection. *)
Definition ex_manager : world := {|
  sessions := ∅; heap := ∅; chans := ∅; engines := {[EngineEcho]}; capacity := 1; draining := false;
  changed := false; metrics := newMetrics; panicked := false |}.
Definition ex_config : Config := {|
  cfg_ID := 1; cfg_OrganizationID := 2; cfg_CallID := 3; cfg_ChannelID := 4; cfg_Engine := EngineEcho;
  cfg_InputFormat := ex_format; cfg_OutputFormat := ex_format; cfg_Language := ""; cfg_Instructions := "";
  cfg_Voice := ""; cfg_EngineConfig := []; cfg_Tools := []; cfg_Providers := [] |}.
Definition ex_connection : ConnectionMetadata := {|
  cm_SessionID := 1; cm_CallID := 3; cm_ChannelID := 4; cm_OrganizationID := 2; cm_Format := ex_format |}.
Definition runs (i n : nat) : list action := repeat (Run i Proceed) n.
Definition ex_state (l : list action) : world * list pc := default (ex_manager, []) (schedule l (ex_manager, [])).
Definition ex_heap (s : world * list pc) (p : nat) : managed := default (new_managed ex_config) (heap (fst s) !! p).

Lemma ex_manager_new : NewManager 1 (30 * Second) {[EngineEcho]} DefaultRuntimeLimits = inl ex_manager.
Proof. vm_compute. reflexivity. Qed.
Definition runs_through (l : list action) : bool :=
  match schedule l (ex_manager, []) with Some _ => true | None => false end.
Lemma ex_state_run l : runs_through l = true ->
  rtc (step ex_text 0) (ex_manager, []) (fst (ex_state l), snd (ex_state l)).
Proof.
  intros H. rewrite <- surjective_pairing. apply manager_schedule_run with l. unfold ex_state, runs_through in *.
  by destruct (schedule l (ex_manager, [])).
Qed.

(** A session starts, a connection attaches, and another method stops the session. *)
Definition attached_then_stopped : list action :=
  [Call (StartCall ex_config); Run 0 EngineStarted; Call (AttachLookup ex_connection)] ++ runs 1 2
  ++ [Call (StopLookup 1)] ++ runs 2 11.
(** A session starts and the manager is drained. *)
Definition started_then_drained : list action :=
  [Call (StartCall ex_config); Run 0 EngineStarted; Call DrainBegin; Run 1 Proceed] ++ runs 2 10 ++ runs 1 6.
(** A control attachment, a timer that fires, and a connection that attaches before
    the goroutine of the timer takes its first step. *)
Definition attach_at_timeout : list action :=
  [Call (StartCall ex_config); Run 0 EngineStarted; Call (ControlLookup 1)] ++ runs 1 2
  ++ [TimerFires 0; Call (AttachLookup ex_connection)] ++ runs 3 2 ++ runs 2 2.
Lemma ex_stopped_run : rtc (step ex_text 0) (ex_manager, [])
  (fst (ex_state attached_then_stopped), snd (ex_state attached_then_stopped)).
Proof. apply ex_state_run. vm_compute. reflexivity. Qed.
Lemma ex_drained_run : rtc (step ex_text 0) (ex_manager, [])
  (fst (ex_state started_then_drained), snd (ex_state started_then_drained)).
Proof. apply ex_state_run. vm_compute. reflexivity. Qed.
Lemma ex_timeout_run : rtc (step ex_text 0) (ex_manager, [])
  (fst (ex_state attach_at_timeout), snd (ex_state attach_at_timeout)).
Proof. apply ex_state_run. vm_compute. reflexivity. Qed.

(** The goroutine of an attachment timer reports the time-out before it looks
    whether a connection has attached: a control channel can receive the terminal
    failure [attach_timeout] of a session that is attached, pumped and alive. *)
Theorem attach_timeout_of_attached_session : exists w pcs p m x ch ev,
  rtc (step ex_text 0) (ex_manager, []) (w, pcs)
  /\ heap w !! p = Some m /\ attached m = true /\ finished m = false
  /\ pcs = [Returned (inl tt); ControlAttached p x; Returned (inl tt); Pumping p (id_of m)]
  /\ ct_control (m_ct m) = Some x /\ chans w !! x = Some ch /\ ch_buffer ch = [ev]
  /\ ev = terminalFailureEvent FailureAttachTimeout "media session attachment timed out" 0.
Proof.
  exists (fst (ex_state attach_at_timeout)), (snd (ex_state attach_at_timeout)), 0%nat,
    (ex_heap (ex_state attach_at_timeout) 0), 0%nat,
    {| ch_session := 0; ch_closed := false;
       ch_buffer := [terminalFailureEvent FailureAttachTimeout "media session attachment timed out" 0] |}.
  eexists. split; [exact ex_timeout_run|].
  split_and!; vm_compute; reflexivity.
Qed.

Lemma media_capacity_witness :
  Z.of_nat (size (sessions (fst (ex_state attached_then_stopped)))) <= 1.
Proof.
  exact (media_capacity ex_text 0 1 (30 * Second) {[EngineEcho]} DefaultRuntimeLimits ex_manager ex_manager_new
    _ _ ex_stopped_run).
Defined.
Lemma session_released_once_witness : released (ex_heap (ex_state started_then_drained) 0).
Proof.
  refine (proj1 (proj2 (session_released_once ex_text 0 1 (30 * Second) {[EngineEcho]} DefaultRuntimeLimits
    ex_manager ex_manager_new _ _ 0 _ ex_drained_run _) _)); vm_compute; reflexivity.
Defined.
Lemma control_never_panics_witness : panicked (fst (ex_state attach_at_timeout)) = false.
Proof.
  exact (control_never_panics ex_text 0 1 (30 * Second) {[EngineEcho]} DefaultRuntimeLimits ex_manager ex_manager_new
    _ _ ex_timeout_run).
Defined.
Lemma drained_is_empty_witness : sessions (fst (ex_state started_then_drained)) = ∅.
Proof.
  refine (proj1 (proj2 (drained_is_empty ex_text 0 1 (30 * Second) {[EngineEcho]} DefaultRuntimeLimits ex_manager
    ex_manager_new _ _ 1 ex_drained_run) _)).
  vm_compute. reflexivity.
Defined.
Lemma media_metrics_exact_witness : active (metrics (fst (ex_state attached_then_stopped))) = 1.
Proof.
  rewrite (proj1 (media_metrics_exact ex_text 0 1 (30 * Second) {[EngineEcho]} DefaultRuntimeLimits ex_manager
    ex_manager_new _ _ ex_stopped_run)).
  vm_compute. reflexivity.
Defined.

End MediaSafety.
