(* ===== verification/Encryption.v ===== *)
(** * Encryption of stored credentials

    [security/encryption]: the unpadded URL-safe Base64 of the Go standard
    library, and the cipher that binds a secret to the scope of its owner. The
    AEAD (AES-GCM) and the random nonces are parameters. *)

From S2P Require Import Prelude.
Local Open Scope Z_scope.

(** ** Base64 ([base64.RawURLEncoding]) *)
Module Base64.

Definition byte_of (z : Z) : ascii := ascii_of_N (Z.to_N z).
(** The alphabet: letters, digits, [-] and [_]. *)
Definition digit (z : Z) : ascii :=
  byte_of (if z <? 26 then 65 + z else if z <? 52 then 71 + z else if z <? 62 then z - 4
           else if z =? 62 then 45 else 95).
Definition value (c : ascii) : option Z :=
  let n := byte_Z c in
  if (65 <=? n) && (n <=? 90) then Some (n - 65) else
  if (97 <=? n) && (n <=? 122) then Some (n - 71) else
  if (48 <=? n) && (n <=? 57) then Some (n + 4) else
  if n =? 45 then Some 62 else if n =? 95 then Some 63 else None.

(** Three bytes are four digits; what is left is padded with zero bits and not
    with characters. *)
Fixpoint EncodeToString (b : list ascii) : list ascii :=
  match b with
  | a :: b :: c :: rest =>
      let n := byte_Z a * 65536 + byte_Z b * 256 + byte_Z c in
      digit (n / 262144) :: digit (n / 4096 mod 64) :: digit (n / 64 mod 64) :: digit (n mod 64)
        :: EncodeToString rest
  | [a; b] =>
      let n := byte_Z a * 65536 + byte_Z b * 256 in
      [digit (n / 262144); digit (n / 4096 mod 64); digit (n / 64 mod 64)]
  | [a] => let n := byte_Z a * 65536 in [digit (n / 262144); digit (n / 4096 mod 64)]
  | [] => []
  end.

(** The decoder skips line ends, refuses any other character and a single digit
    left over, and ignores the spare bits of the last group. *)
Fixpoint decode_digits (v : list Z) : option (list ascii) :=
  match v with
  | w :: x :: y :: z :: rest =>
      let n := w * 262144 + x * 4096 + y * 64 + z in
      (fun l => byte_of (n / 65536) :: byte_of (n / 256 mod 256) :: byte_of (n mod 256) :: l)
        <$> decode_digits rest
  | [w; x; y] => let n := w * 262144 + x * 4096 + y * 64 in Some [byte_of (n / 65536); byte_of (n / 256 mod 256)]
  | [w; x] => let n := w * 262144 + x * 4096 in Some [byte_of (n / 65536)]
  | [_] => None
  | [] => Some []
  end.
Definition DecodeString (s : list ascii) : option (list ascii) :=
  mapM value (filter (fun c => negb (is_crlf c) = true) s) ≫= decode_digits.

(** *** Decoding what was encoded *)
Lemma byte_Z_bounds c : 0 <= byte_Z c < 256.
Proof. unfold byte_Z. pose proof (N_ascii_bounded c). lia. Qed.
Lemma byte_Z_of z : 0 <= z < 256 -> byte_Z (byte_of z) = z.
Proof. intros H. unfold byte_Z, byte_of. rewrite N_ascii_embedding; lia. Qed.
Lemma byte_of_Z c : byte_of (byte_Z c) = c.
Proof. unfold byte_of, byte_Z. rewrite N2Z.id. apply ascii_N_embedding. Qed.

Lemma byte_of_eq z c : z = byte_Z c -> byte_of z = c.
Proof. intros ->. apply byte_of_Z. Qed.

Lemma value_digit z : 0 <= z < 64 -> value (digit z) = Some z.
Proof.
  intros H. assert (Hall : forallb (fun i => bool_decide (value (digit (Z.of_nat i)) = Some (Z.of_nat i))) (seq 0 64) = true)
    by (vm_compute; reflexivity).
  rewrite forallb_forall in Hall. specialize (Hall (Z.to_nat z)). rewrite bool_decide_eq_true, Z2Nat.id in Hall by lia.
  apply Hall, in_seq. lia.
Qed.
Lemma digit_not_crlf z : 0 <= z < 64 -> negb (is_crlf (digit z)) = true.
Proof.
  intros H. assert (Hall : forallb (fun i => negb (is_crlf (digit (Z.of_nat i)))) (seq 0 64) = true)
    by (vm_compute; reflexivity).
  rewrite forallb_forall in Hall. specialize (Hall (Z.to_nat z)). rewrite Z2Nat.id in Hall by lia.
  apply Hall, in_seq. lia.
Qed.

(** Digits are read back as their values. *)
Lemma read_digits l : Forall (fun z => 0 <= z < 64) l ->
  mapM value (filter (fun c => negb (is_crlf c) = true) (digit <$> l)) = Some l.
Proof.
  induction 1 as [|z l Hz _ IH]; [done|]. rewrite fmap_cons, filter_cons_True by (by apply digit_not_crlf).
  simpl. rewrite value_digit by done. simpl. by rewrite IH.
Qed.
Fixpoint digits (b : list ascii) : list Z :=
  match b with
  | a :: b :: c :: rest =>
      let n := byte_Z a * 65536 + byte_Z b * 256 + byte_Z c in
      n / 262144 :: n / 4096 mod 64 :: n / 64 mod 64 :: n mod 64 :: digits rest
  | [a; b] => let n := byte_Z a * 65536 + byte_Z b * 256 in [n / 262144; n / 4096 mod 64; n / 64 mod 64]
  | [a] => let n := byte_Z a * 65536 in [n / 262144; n / 4096 mod 64]
  | [] => []
  end.
(** Induction by groups of three bytes. *)
Lemma triples (P : list ascii -> Prop) : P [] -> (forall a, P [a]) -> (forall a b, P [a; b]) ->
  (forall a b c l, P l -> P (a :: b :: c :: l)) -> forall l, P l.
Proof.
  intros H0 H1 H2 H3 l. enough (P l /\ (forall a, P (a :: l)) /\ (forall a b, P (a :: b :: l))) by tauto.
  induction l as [|x l (IH0 & IH1 & IH2)]; [done|]. split_and!; auto.
Qed.
Lemma encode_digits b : EncodeToString b = digit <$> digits b.
Proof. induction b as [|a|a b|a b c l IH] using triples; try done. cbn -[Z.div Z.modulo]. by rewrite IH. Qed.
Ltac bytes_bounds :=
  repeat match goal with |- context [byte_Z ?c] =>
    lazymatch goal with H : 0 <= byte_Z c < 256 |- _ => fail | _ => pose proof (byte_Z_bounds c) end end.
Lemma digits_range b : Forall (fun z => 0 <= z < 64) (digits b).
Proof.
  induction b as [|a|a b|a b c l IH] using triples; [constructor|..]; cbn -[Z.div Z.modulo];
    repeat constructor; try exact IH; bytes_bounds; Z.to_euclidean_division_equations; lia.
Qed.
Lemma decode_encode_digits b : decode_digits (digits b) = Some b.
Proof.
  induction b as [|a|a b|a b c l IH] using triples; [done|..]; cbn -[Z.div Z.modulo].
  - do 2 f_equal. apply byte_of_eq. bytes_bounds. Z.to_euclidean_division_equations; lia.
  - f_equal. f_equal; [|f_equal]; apply byte_of_eq; bytes_bounds; Z.to_euclidean_division_equations; lia.
  - rewrite IH. simpl. f_equal.
    set (n := byte_Z a * 65536 + byte_Z b * 256 + byte_Z c).
    assert (Hn : n / 262144 * 262144 + n / 4096 mod 64 * 4096 + n / 64 mod 64 * 64 + n mod 64 = n)
      by (Z.to_euclidean_division_equations; lia).
    rewrite Hn. unfold n. clear n Hn.
    f_equal; [|f_equal; [|f_equal]]; apply byte_of_eq; bytes_bounds; Z.to_euclidean_division_equations; lia.
Qed.
Lemma DecodeString_EncodeToString b : DecodeString (EncodeToString b) = Some b.
Proof.
  unfold DecodeString. rewrite encode_digits, read_digits by apply digits_range. simpl. apply decode_encode_digits.
Qed.
End Base64.

(** ** The cipher (encryption.go) *)
Module Encryption.

(** The AEAD of a key, and what is relied on: opening what was sealed with the
    same nonce and associated data gives the plaintext. *)
Class AEAD := {
  Seal : list ascii -> list ascii -> list ascii -> list ascii;
  Open : list ascii -> list ascii -> list ascii -> option (list ascii);
}.
Class AEADLaws (A : AEAD) : Prop := {
  open_seal nonce plaintext ad : Open nonce (Seal nonce plaintext ad) ad = Some plaintext;
}.

Definition NonceSize : nat := 12.
Definition scopedEnvelopeVersion : string := "v1".

(** [New]: a key of AES of 128, 192 or 256 bits. *)
Definition New (encodedKey : string) : result (list ascii) :=
  match Base64.DecodeString (bytes encodedKey) with
  | None => inr (Errorf "decode credential encryption key: %w" [])
  | Some key =>
      if bool_decide (length key ∈ [16; 24; 32]%nat) then inl key
      else inr (Errorf "initialize credential encryption: %w" [])
  end.

Definition scopedAssociatedData (scope : string) : result (list ascii) :=
  let scope := TrimSpace scope in
  if bool_decide (scope = "") then inr (Errorf "credential encryption scope is required" [])
  else inl (bytes ("leamout:credential:" +:+ scopedEnvelopeVersion +:+ ":" +:+ scope)).

Section Cipher.
Context {A : AEAD}.

(** [nonce]: what the random reader gives. *)
Definition sealed (nonce : list ascii) (plaintext : string) (ad : list ascii) : string :=
  of_bytes (Base64.EncodeToString (nonce ++ Seal nonce (bytes plaintext) ad)).
Definition Encrypt (nonce : list ascii) (plaintext : string) : string := sealed nonce plaintext [].
Definition EncryptForScope (nonce : list ascii) (scope plaintext : string) : result string :=
  let? ad := scopedAssociatedData scope in
  inl (scopedEnvelopeVersion +:+ "." +:+ sealed nonce plaintext ad).

Definition decrypt (encoded : string) (ad : list ascii) : result string :=
  match Base64.DecodeString (bytes encoded) with
  | None => inr (Errorf "decode encrypted credential: %w" [])
  | Some s =>
      if (length s <? NonceSize)%nat then inr (Errorf "encrypted credential is truncated" []) else
      match Open (take NonceSize s) (drop NonceSize s) ad with
      | Some p => inl (of_bytes p)
      | None => inr (Errorf "decrypt credential: %w" [])
      end
  end.
Definition Decrypt (encoded : string) : result string := decrypt encoded [].
Definition DecryptForScope (scope encoded : string) : result string :=
  let? ad := scopedAssociatedData scope in
  match Cut encoded "." with
  | Some (version, payload) =>
      if bool_decide (version = scopedEnvelopeVersion) then decrypt payload ad
      else inr (Errorf "unsupported scoped credential envelope" [])
  | None => inr (Errorf "unsupported scoped credential envelope" [])
  end.
End Cipher.

(** ** Round trips *)
Lemma bytes_of_bytes b : bytes (of_bytes b) = b.
Proof. apply String.list_ascii_of_string_of_list_ascii. Qed.
Lemma of_bytes_bytes s : of_bytes (bytes s) = s.
Proof. apply String.string_of_list_ascii_of_string. Qed.

Lemma digit_not_dot z : 0 <= z < 64 -> Base64.digit z <> "."%char.
Proof.
  intros H Heq. assert (Hv : Base64.value "." = None) by (vm_compute; reflexivity).
  rewrite <- Heq, Base64.value_digit in Hv by done. done.
Qed.
Lemma encoded_no_dot b : "."%char ∉ Base64.EncodeToString b.
Proof.
  rewrite Base64.encode_digits. intros (z & Hz & Hin)%list_elem_of_fmap.
  pose proof (Base64.digits_range b) as Hd. rewrite Forall_forall in Hd. by apply (digit_not_dot z (Hd z Hin)).
Qed.
Lemma bytes_Cut_none b c : c ∉ b -> bytes_Cut b [c] = None.
Proof.
  induction b as [|x b IH]; intros Hc; [done|]. rewrite not_elem_of_cons in Hc.
  cbn [bytes_Cut length take]. rewrite take_0. rewrite decide_False by (intros [= ->]; by destruct Hc).
  by rewrite IH by tauto.
Qed.

Lemma open_sealed {A : AEAD} {HA : AEADLaws A} nonce p ad : length nonce = NonceSize ->
  decrypt (sealed nonce p ad) ad = inl p.
Proof.
  intros Hn. unfold decrypt, sealed. rewrite bytes_of_bytes, Base64.DecodeString_EncodeToString.
  rewrite length_app, Hn. case_match eqn:Hl; [apply Nat.ltb_lt in Hl; lia|].
  rewrite <- Hn, take_app_length, drop_app_length, open_seal, of_bytes_bytes. done.
Qed.

Lemma Cut_scoped s : Cut (scopedEnvelopeVersion +:+ "." +:+ s) "." = Some (scopedEnvelopeVersion, s).
Proof.
  unfold Cut, bytes. rewrite !list_ascii_app. simpl. rewrite ?take_0, ?drop_0. simpl.
  do 2 f_equal. apply (of_bytes_bytes s).
Qed.

Lemma scoped_roundtrip {A : AEAD} {HA : AEADLaws A} nonce scope scope' plaintext encoded :
  length nonce = NonceSize -> EncryptForScope nonce scope plaintext = inl encoded ->
  TrimSpace scope' = TrimSpace scope -> DecryptForScope scope' encoded = inl plaintext.
Proof.
  intros Hn He Hs. unfold EncryptForScope in He. apply rbind_ok_inv in He as (ad & Had & [= <-]).
  unfold DecryptForScope. assert (scopedAssociatedData scope' = inl ad) as ->.
  { unfold scopedAssociatedData in *. by rewrite Hs. }
  rewrite rbind_inl, Cut_scoped, bool_decide_eq_true_2 by done. by apply open_sealed.
Qed.

(** A secret sealed for a scope is read back under the same scope (up to surrounding
    blanks); a value sealed without a scope is refused where a scope is required,
    and a scoped one where none is. *)
Theorem EncryptForScope_roundtrip {A : AEAD} {HA : AEADLaws A} nonce scope plaintext encoded :
  length nonce = NonceSize -> EncryptForScope nonce scope plaintext = inl encoded ->
  (forall scope', TrimSpace scope' = TrimSpace scope -> DecryptForScope scope' encoded = inl plaintext)
  /\ (exists e, DecryptForScope scope (Encrypt nonce plaintext) = inr e)
  /\ (exists e, Decrypt encoded = inr e).
Proof.
  intros Hn He. split; [by intros scope'; apply (scoped_roundtrip nonce)|].
  unfold EncryptForScope in He. apply rbind_ok_inv in He as (ad & Had & [= <-]). split.
  - unfold DecryptForScope. rewrite Had, rbind_inl. unfold Cut, Encrypt, sealed. rewrite bytes_of_bytes.
    rewrite (bytes_Cut_none _ "."%char) by apply encoded_no_dot. by eexists.
  - unfold Decrypt, decrypt. match goal with |- context [Base64.DecodeString ?x] => assert (Base64.DecodeString x = None) as -> end;
      [|by eexists].
    unfold Base64.DecodeString, bytes. rewrite !list_ascii_app. simpl.
    done.
Qed.

(** A stand-in for the AEAD: the associated data in front of the plaintext. *)
Definition toy_aead : AEAD := {|
  Seal _ p ad := ad ++ p;
  Open _ c ad := if decide (take (length ad) c = ad) then Some (drop (length ad) c) else None |}.
#[export] Instance toy_aead_laws : AEADLaws toy_aead.
Proof. split. intros n p ad. simpl. by rewrite take_app_length, decide_True, drop_app_length. Qed.
Definition toy_nonce : list ascii := repeat "n"%char 12.
Definition toy_sealed : string :=
  match EncryptForScope (A := toy_aead) toy_nonce "organization:1" "secret" with inl e => e | inr _ => "" end.
Lemma EncryptForScope_roundtrip_witness : DecryptForScope (A := toy_aead) " organization:1" toy_sealed = inl "secret"%string.
Proof.
  apply (EncryptForScope_roundtrip (A := toy_aead) toy_nonce "organization:1" "secret" toy_sealed);
    vm_compute; reflexivity.
Defined.
End Encryption.
