(* ===== verification/Bencode.v ===== *)
(** * RTPengine control protocol

    The bencode codec and the request/response framing of
    [server/internal/integrations/rtpengine/protocol.go]. A Go [any] built by the
    client is a [bvalue], a [[]byte] a [list ascii], a [string] a [string], a Go
    map an association list with distinct keys in iteration order. The decoder
    works, as in the source, on the whole buffer and an offset. *)

From stdpp Require Import sorting.
From S2P Require Import Prelude.
#[local] Set Warnings "-register-all".
Local Open Scope Z_scope.

(** The dynamic types [encodeValue] switches on; [BOther] is any other type,
    with the name [%T] prints. *)
Inductive bvalue : Type :=
| BString (s : string)
| BBytes (b : list ascii)
| BInt (z : Z)
| BInt64 (z : Z)
| BBool (b : bool)
| BStrings (l : list string)
| BList (l : list bvalue)
| BDict (m : list (string * bvalue))
| BOther (type_name : string).

(** [map[string]any] lookups and assignment. *)
Fixpoint assoc_get {A} (k : string) (m : list (string * A)) : option A :=
  match m with
  | [] => None
  | (k', v) :: m' => if decide (k' = k) then Some v else assoc_get k m'
  end.
Fixpoint assoc_set {A} (k : string) (v : A) (m : list (string * A)) : list (string * A) :=
  match m with
  | [] => [(k, v)]
  | (k', v') :: m' => if decide (k' = k) then (k, v) :: m' else (k', v') :: assoc_set k v m'
  end.

(** ** Encoding *)

Definition encode_bytes (b : list ascii) : list ascii :=
  format_int (Z.of_nat (length b)) ++ ":"%char :: b.
Definition encode_string (s : string) : list ascii :=
  encode_bytes (String.list_ascii_of_string s).
Definition encode_int (z : Z) : list ascii := "i"%char :: format_int z ++ ["e"%char].

(** The loop over [keys] of the [map[string]any] case: [encs] holds the encoding
    of every entry. *)
Fixpoint encode_entries (keys : list string) (encs : list (string * result (list ascii)))
    : result (list ascii) :=
  match keys with
  | [] => inl []
  | key :: keys' =>
      match assoc_get key encs with
      | Some (inl v) =>
          let? rest := encode_entries keys' encs in
          inl (encode_string key ++ v ++ rest)
      | Some (inr e) => inr e
      | None => inr (Errorf "unsupported bencode type %T" ["<nil>"])
      end
  end.

Fixpoint encodeValue (value : bvalue) : result (list ascii) :=
  match value with
  | BString s => inl (encode_string s)
  | BBytes b => inl (encode_bytes b)
  | BInt z | BInt64 z => inl (encode_int z)
  | BBool b => inl (if b then encode_int 1 else encode_int 0)
  | BStrings l => inl ("l"%char :: concat (encode_string <$> l) ++ ["e"%char])
  | BList l =>
      let? body :=
        (fix go (l : list bvalue) : result (list ascii) :=
           match l with
           | [] => inl []
           | item :: l' =>
               let? b := encodeValue item in let? rest := go l' in inl (b ++ rest)
           end) l in
      inl ("l"%char :: body ++ ["e"%char])
  | BDict m =>
      let encs := (fix go (m : list (string * bvalue)) :=
                     match m with
                     | [] => []
                     | (k, v) :: m' => (k, encodeValue v) :: go m'
                     end) m in
      let? body := encode_entries (sorted_keys m) encs in
      inl ("d"%char :: body ++ ["e"%char])
  | BOther name => inr (Errorf "unsupported bencode type %T" [name])
  end.

(** [bencode]. *)
Definition bencode (value : bvalue) : result (list ascii) := encodeValue value.

(** ** Decoding *)

(** The integer case: [data[offset] = 'i']. *)
Definition decode_int (data : list ascii) (offset : nat) : outcome (bvalue * nat) :=
  match index_byte "e"%char (drop (offset + 1) data) with
  | None => Failed (Errorf "unterminated bencode integer" [])
  | Some n =>
      let end_ := (n + (offset + 1))%nat in
      match bytes_ParseInt (take (end_ - (offset + 1)) (drop (offset + 1) data)) with
      | None => Failed (Errorf "invalid bencode integer: %w" [])
      | Some value => Done (BInt64 value, end_ + 1)%nat
      end
  end.

(** The default case: a string. [end := start + length] is an [int] addition
    and wraps; slicing with [end < start] panics. *)
Definition decode_string (data : list ascii) (offset : nat) : outcome (bvalue * nat) :=
  match index_byte ":"%char (drop offset data) with
  | None | Some O => Failed (Errorf "invalid bencode string" [])
  | Some n =>
      let colon := (n + offset)%nat in
      match bytes_ParseInt (take (colon - offset) (drop offset data)) with
      | None => Failed (Errorf "invalid bencode string length" [])
      | Some len =>
          if len <? 0 then Failed (Errorf "invalid bencode string length" []) else
          let start := (colon + 1)%nat in
          let end_ := int64 (Z.of_nat start + len) in
          if Z.of_nat (length data) <? end_ then Failed (Errorf "truncated bencode string" [])
          else if end_ <? Z.of_nat start then Panicked
          else Done (BString (String.string_of_list_ascii
                                (take (Z.to_nat end_ - start) (drop start data))),
                     Z.to_nat end_)
      end
  end.

Fixpoint decodeValue (fuel : nat) (data : list ascii) (offset : nat) {struct fuel}
    : outcome (bvalue * nat) :=
  match fuel with
  | O => OutOfFuel
  | S fuel' =>
      match data !! offset with
      | None => Failed (Errorf "truncated bencode value" [])
      | Some "d"%char => decode_dict fuel' data (offset + 1)%nat []
      | Some "l"%char => decode_list fuel' data (offset + 1)%nat []
      | Some "i"%char => decode_int data offset
      | Some _ => decode_string data offset
      end
  end
(** The loop of the dictionary case, with the map built so far. *)
with decode_dict (fuel : nat) (data : list ascii) (offset : nat)
    (res : list (string * bvalue)) {struct fuel} : outcome (bvalue * nat) :=
  match fuel with
  | O => OutOfFuel
  | S fuel' =>
      match data !! offset with
      | None => Failed (Errorf "unterminated bencode dictionary" [])
      | Some "e"%char => Done (BDict res, offset + 1)%nat
      | Some _ =>
          match decodeValue fuel' data offset with
          | Done (BString key, next) =>
              match decodeValue fuel' data next with
              | Done (value, next') => decode_dict fuel' data next' (assoc_set key value res)
              | Failed e => Failed e
              | Panicked => Panicked
              | OutOfFuel => OutOfFuel
              end
          | Done _ => Failed (Errorf "bencode dictionary key is not a string" [])
          | Failed e => Failed e
          | Panicked => Panicked
          | OutOfFuel => OutOfFuel
          end
      end
  end
(** The loop of the list case, with the slice built so far. *)
with decode_list (fuel : nat) (data : list ascii) (offset : nat) (res : list bvalue)
    {struct fuel} : outcome (bvalue * nat) :=
  match fuel with
  | O => OutOfFuel
  | S fuel' =>
      match data !! offset with
      | None => Failed (Errorf "unterminated bencode list" [])
      | Some "e"%char => Done (BList res, offset + 1)%nat
      | Some _ =>
          match decodeValue fuel' data offset with
          | Done (value, next) => decode_list fuel' data next (res ++ [value])
          | Failed e => Failed e
          | Panicked => Panicked
          | OutOfFuel => OutOfFuel
          end
      end
  end.

(** A byte costs at most two calls: this fuel never runs out. *)
Definition decode_fuel (data : list ascii) : nat := (2 * length data + 1)%nat.

Definition bdecodeMap (data : list ascii) : outcome (list (string * bvalue)) :=
  match decodeValue (decode_fuel data) data 0 with
  | Done (value, offset) =>
      if negb (Nat.eqb offset (length data))
      then Failed (Errorf "trailing data after bencode value" [])
      else match value with
           | BDict m => Done m
           | _ => Failed (Errorf "RTPEngine response is not a dictionary" [])
           end
  | Failed e => Failed e
  | Panicked => Panicked
  | OutOfFuel => OutOfFuel
  end.

(** ** Framing *)

(** [newCookie]: 24 hexadecimal digits from [crypto/rand]; the randomness is an
    argument ([inr] when the source fails). *)
Definition encodeRequest (command : string) (params : list (string * bvalue))
    (newCookie : result string) : result (list ascii * string) :=
  if decide (command = "") then inr (Errorf "RTPEngine command is required" []) else
  let payload := assoc_set "command" (BString command) params in
  match bencode (BDict payload) with
  | inr e => inr (Wrapf "encode RTPEngine request: %w" [] e)
  | inl body =>
      match newCookie with
      | inr e => inr (Wrapf "generate RTPEngine cookie: %w" [] e)
      | inl cookie =>
          inl (String.list_ascii_of_string cookie ++ " "%char :: body, cookie)
      end
  end.

Record Response := { Result : string; Error : string; Data : list (string * bvalue) }.

Definition stringValue (value : option bvalue) : string :=
  match value with Some (BString s) => s | _ => "" end.

Definition Response_OK (r : Response) : bool := EqualFold (Result r) "ok".

Definition Response_String (r : Response) (key : string) : string :=
  stringValue (assoc_get key (Data r)).

Definition Response_RequiredString (r : Response) (key : string) : result string :=
  let value := TrimSpace (Response_String r key) in
  if decide (value = "") then inr (Errorf "RTPEngine response field %q is required" [key])
  else inl value.

(** [decodeResponse]: the response, if any, is returned beside the error when
    RTPengine reports a failure. *)
Definition decodeResponse (packet : list ascii) (cookie : string)
    : outcome (Response * option error) :=
  match index_byte " "%char packet with
  | None => Failed (Errorf "invalid RTPEngine response cookie" [])
  | Some n =>
      if negb (bool_decide (take n packet = String.list_ascii_of_string cookie))
      then Failed (Errorf "invalid RTPEngine response cookie" [])
      else
        match bdecodeMap (drop (n + 1) packet) with
        | Done values =>
            let response := {| Result := stringValue (assoc_get "result" values);
                               Error := stringValue (assoc_get "error-reason" values);
                               Data := values |} in
            if Response_OK response then Done (response, None)
            else Done (response, Some (Errorf "RTPEngine request failed: %s" [Error response]))
        | Failed e => Failed (Wrapf "decode RTPEngine response: %w" [] e)
        | Panicked => Panicked
        | OutOfFuel => OutOfFuel
        end
  end.

(** ** Termination: the decoder never runs out of fuel *)

Lemma decode_int_progress data o v o' :
  decode_int data o = Done (v, o') -> (o < o' <= length data)%nat.
Proof.
  unfold decode_int. destruct (index_byte _ _) as [n|] eqn:E; [|done].
  apply index_byte_lt in E. rewrite length_drop in E.
  destruct (bytes_ParseInt _); [|done]. intros [= <- <-]. lia.
Qed.

Lemma decode_string_progress data o v o' :
  decode_string data o = Done (v, o') -> (o < o' <= length data)%nat.
Proof.
  unfold decode_string. destruct (index_byte _ _) as [[|n]|] eqn:E; try done.
  apply index_byte_lt in E. rewrite length_drop in E.
  destruct (bytes_ParseInt _) as [len|]; [|done].
  destruct (len <? 0); [done|].
  cbv zeta. generalize (int64 (Z.of_nat (S n + o + 1) + len)). intros e.
  destruct (Z.ltb_spec (Z.of_nat (length data)) e); [done|].
  destruct (Z.ltb_spec e (Z.of_nat (S n + o + 1))); [done|]. intros [= <- <-]. lia.
Qed.

(** Case split on the byte [decodeValue] and the loops look at. *)
Ltac case_byte c :=
  destruct c as [[] [] [] [] [] [] [] []]; try reflexivity.

Lemma decodeValue_eq fuel data o :
  decodeValue (S fuel) data o =
  match data !! o with
  | None => Failed (Errorf "truncated bencode value" [])
  | Some c =>
      if decide (c = "d"%char) then decode_dict fuel data (o + 1)%nat [] else
      if decide (c = "l"%char) then decode_list fuel data (o + 1)%nat [] else
      if decide (c = "i"%char) then decode_int data o else decode_string data o
  end.
Proof. cbn [decodeValue]. destruct (data !! o) as [c|]; [|done]. case_byte c. Qed.

Lemma decode_dict_eq fuel data o res :
  decode_dict (S fuel) data o res =
  match data !! o with
  | None => Failed (Errorf "unterminated bencode dictionary" [])
  | Some c =>
      if decide (c = "e"%char) then Done (BDict res, o + 1)%nat else
      match decodeValue fuel data o with
      | Done (BString key, next) =>
          match decodeValue fuel data next with
          | Done (value, next') => decode_dict fuel data next' (assoc_set key value res)
          | Failed e => Failed e
          | Panicked => Panicked
          | OutOfFuel => OutOfFuel
          end
      | Done _ => Failed (Errorf "bencode dictionary key is not a string" [])
      | Failed e => Failed e
      | Panicked => Panicked
      | OutOfFuel => OutOfFuel
      end
  end.
Proof. cbn [decode_dict]. destruct (data !! o) as [c|]; [|done]. case_byte c. Qed.

Lemma decode_list_eq fuel data o res :
  decode_list (S fuel) data o res =
  match data !! o with
  | None => Failed (Errorf "unterminated bencode list" [])
  | Some c =>
      if decide (c = "e"%char) then Done (BList res, o + 1)%nat else
      match decodeValue fuel data o with
      | Done (value, next) => decode_list fuel data next (res ++ [value])
      | Failed e => Failed e
      | Panicked => Panicked
      | OutOfFuel => OutOfFuel
      end
  end.
Proof. cbn [decode_list]. destruct (data !! o) as [c|]; [|done]. case_byte c. Qed.

(** Every successful call consumes input and stays in the buffer. *)
Lemma decode_progress fuel data :
  (forall o v o', decodeValue fuel data o = Done (v, o') -> (o < o' <= length data)%nat) /\
  (forall o r v o', decode_dict fuel data o r = Done (v, o') -> (o < o' <= length data)%nat) /\
  (forall o r v o', decode_list fuel data o r = Done (v, o') -> (o < o' <= length data)%nat).
Proof.
  induction fuel as [|fuel (IHv & IHd & IHl)]; [done|].
  split; [|split].
  - intros o v o'. rewrite decodeValue_eq. destruct (data !! o) eqn:E; [|done].
    apply lookup_lt_Some in E. repeat case_decide.
    + intros ?%IHd. lia.
    + intros ?%IHl. lia.
    + apply decode_int_progress.
    + apply decode_string_progress.
  - intros o r v o'. rewrite decode_dict_eq. destruct (data !! o) eqn:E; [|done].
    apply lookup_lt_Some in E. case_decide; [intros [= <- <-]; lia|].
    destruct (decodeValue fuel data o) as [[[] n]| | |] eqn:E1; try done.
    destruct (decodeValue fuel data n) as [[w n']| | |] eqn:E2; try done.
    intros ?%IHd. apply IHv in E1, E2. lia.
  - intros o r v o'. rewrite decode_list_eq. destruct (data !! o) eqn:E; [|done].
    apply lookup_lt_Some in E. case_decide; [intros [= <- <-]; lia|].
    destruct (decodeValue fuel data o) as [[w n]| | |] eqn:E1; try done.
    intros ?%IHl. apply IHv in E1. lia.
Qed.

Lemma decode_int_fuel data o : decode_int data o <> OutOfFuel.
Proof. unfold decode_int. by repeat case_match. Qed.
Lemma decode_string_fuel data o : decode_string data o <> OutOfFuel.
Proof. unfold decode_string. by repeat case_match. Qed.

Lemma decode_fuel_enough fuel data :
  (forall o, (2 * (length data - o) + 1 <= fuel)%nat -> decodeValue fuel data o <> OutOfFuel) /\
  (forall o r, (2 * (length data - o) + 2 <= fuel)%nat ->
     decode_dict fuel data o r <> OutOfFuel) /\
  (forall o r, (2 * (length data - o) + 2 <= fuel)%nat ->
     decode_list fuel data o r <> OutOfFuel).
Proof.
  induction fuel as [|fuel (IHv & IHd & IHl)]; [repeat split; intros; lia|].
  pose proof (decode_progress fuel data) as (Hpv & _ & _).
  split; [|split].
  - intros o Hf. rewrite decodeValue_eq. destruct (data !! o) eqn:E; [|done].
    apply lookup_lt_Some in E. repeat case_decide.
    + apply IHd. lia.
    + apply IHl. lia.
    + apply decode_int_fuel.
    + apply decode_string_fuel.
  - intros o r Hf. rewrite decode_dict_eq. destruct (data !! o) eqn:E; [|done].
    apply lookup_lt_Some in E. case_decide; [done|].
    pose proof (IHv o ltac:(lia)) as H1.
    destruct (decodeValue fuel data o) as [[[] n]| | |] eqn:E1; try done.
    apply Hpv in E1. pose proof (IHv n ltac:(lia)) as H2.
    destruct (decodeValue fuel data n) as [[w n']| | |] eqn:E2; try done.
    apply Hpv in E2. apply IHd. lia.
  - intros o r Hf. rewrite decode_list_eq. destruct (data !! o) eqn:E; [|done].
    apply lookup_lt_Some in E. case_decide; [done|].
    pose proof (IHv o ltac:(lia)) as H1.
    destruct (decodeValue fuel data o) as [[w n]| | |] eqn:E1; try done.
    apply Hpv in E1. apply IHl. lia.
Qed.

(** ** Round trip *)

(** Induction over [bvalue] with the hypothesis on the items of lists and maps. *)
Section BvalueInd.
Context (P : bvalue -> Prop).
Context (Hleaf : forall v, match v with BList _ | BDict _ => True | _ => P v end).
Context (Hlist : forall l, Forall P l -> P (BList l)).
Context (Hdict : forall m, Forall (fun kv => P kv.2) m -> P (BDict m)).

Fixpoint bvalue_deep_ind (v : bvalue) : P v :=
  match v with
  | BList l => Hlist l ((fix go (l : list bvalue) : Forall P l :=
      match l with
      | [] => Forall_nil_2 _
      | x :: l' => Forall_cons_2 _ x l' (bvalue_deep_ind x) (go l')
      end) l)
  | BDict m => Hdict m ((fix go (m : list (string * bvalue)) : Forall (fun kv => P kv.2) m :=
      match m with
      | [] => Forall_nil_2 _
      | kv :: m' => Forall_cons_2 _ kv m' (bvalue_deep_ind kv.2) (go m')
      end) m)
  | BString s => Hleaf (BString s)
  | BBytes b => Hleaf (BBytes b)
  | BInt z => Hleaf (BInt z)
  | BInt64 z => Hleaf (BInt64 z)
  | BBool b => Hleaf (BBool b)
  | BStrings l => Hleaf (BStrings l)
  | BOther n => Hleaf (BOther n)
  end.
End BvalueInd.

(** The values [bencode] accepts: integers that fit [int64], maps with distinct
    keys, no other dynamic type. *)
Fixpoint encodable (v : bvalue) : Prop :=
  match v with
  | BString _ | BBytes _ | BBool _ | BStrings _ => True
  | BInt z | BInt64 z => min_int64 <= z <= max_int64
  | BList l => (fix go l := match l with [] => True | x :: l' => encodable x /\ go l' end) l
  | BDict m =>
      NoDup m.*1 /\
      (fix go (m : list (string * bvalue)) :=
         match m with [] => True | kv :: m' => encodable kv.2 /\ go m' end) m
  | BOther _ => False
  end.

(** A map with its entries in key order. *)
Definition sort_entries {A} (m : list (string * A)) : list (string * A) :=
  omap (fun k => pair k <$> assoc_get k m) (sorted_keys m).

(** What comes back from the wire: byte strings as strings, integers and
    booleans as [int64], typed slices as [[]any], maps in key order. *)
Fixpoint canon (v : bvalue) : bvalue :=
  match v with
  | BString s => BString s
  | BBytes b => BString (String.string_of_list_ascii b)
  | BInt z | BInt64 z => BInt64 z
  | BBool b => BInt64 (if b then 1 else 0)
  | BStrings l => BList (BString <$> l)
  | BList l => BList (List.map canon l)
  | BDict m => BDict (sort_entries (List.map (fun kv => (kv.1, canon kv.2)) m))
  | BOther n => BOther n
  end.

(** [enc] is decoded to [cv] wherever it stands in a buffer. *)
Definition reads_back (enc : list ascii) (cv : bvalue) : Prop :=
  (exists c rest, enc = c :: rest /\ c <> "e"%char) /\
  forall pre post fuel,
    (2 * length enc + 1 <= fuel)%nat ->
    Z.of_nat (length (pre ++ enc ++ post)) <= max_int64 ->
    decodeValue fuel (pre ++ enc ++ post) (length pre) = Done (cv, length pre + length enc)%nat.


Lemma digits_avoid c l :
  is_digit c = false -> Forall (fun a => is_digit a = true) l -> Forall (fun a => a <> c) l.
Proof. intros Hc H. apply (Forall_impl _ _ _ H). intros a Ha ->. congruence. Qed.

Lemma format_int_avoid c z :
  is_digit c = false -> c <> "-"%char -> Forall (fun a => a <> c) (format_int z).
Proof.
  intros Hc Hm. unfold format_int. destruct (Z.ltb_spec z 0).
  - constructor; [done|]. apply digits_avoid; [done|]. apply format_uint_digits. lia.
  - apply digits_avoid; [done|]. by apply format_uint_digits.
Qed.

Lemma lookup_enc {A} (pre : list A) c rest post :
  (pre ++ (c :: rest) ++ post) !! length pre = Some c.
Proof. by apply list_lookup_middle. Qed.
Lemma drop_enc {A} (pre l : list A) n : drop (length pre + n) (pre ++ l) = drop n l.
Proof. rewrite drop_app_ge by lia. f_equal. lia. Qed.

Lemma reads_back_int z : min_int64 <= z <= max_int64 -> reads_back (encode_int z) (BInt64 z).
Proof.
  intros Hz. unfold encode_int. split; [by eexists "i"%char, _|].
  intros pre post [|fuel] Hf _; [lia|].
  rewrite decodeValue_eq, lookup_enc, !decide_False, decide_True by done.
  unfold decode_int. rewrite drop_enc. simpl. rewrite drop_0, <- app_assoc. simpl.
  rewrite index_byte_app by by apply format_int_avoid.
  rewrite Nat.add_sub, take_app_length, format_int_parse by done.
  rewrite length_app. simpl. do 2 f_equal. lia.
Qed.

Lemma decode_string_at pre ds b post :
  ds <> [] -> Forall (fun a => is_digit a = true) ds ->
  bytes_ParseInt ds = Some (Z.of_nat (length b)) ->
  Z.of_nat (length (pre ++ (ds ++ ":"%char :: b) ++ post)) <= max_int64 ->
  decode_string (pre ++ (ds ++ ":"%char :: b) ++ post) (length pre)
  = Done (BString (String.string_of_list_ascii b),
          length pre + length (ds ++ ":"%char :: b))%nat.
Proof.
  intros Hne Hd Hp Hlen. unfold decode_string. rewrite drop_app_length.
  rewrite <- app_assoc, <- app_comm_cons, index_byte_app by by apply (digits_avoid ":"%char).
  destruct (length ds) as [|k] eqn:Ek; [by apply nil_length_inv in Ek|]. rewrite <- Ek. clear k Ek.
  rewrite Nat.add_sub, take_app_length, Hp.
  assert (Hl : length (pre ++ ds ++ ":"%char :: b ++ post)
               = (length pre + length ds + 1 + length b + length post)%nat).
  { rewrite !length_app. cbn [length]. rewrite length_app. lia. }
  rewrite <- app_assoc, <- app_comm_cons in Hlen. rewrite Hl in *.
  rewrite (proj2 (Z.ltb_ge _ 0)) by lia.
  rewrite int64_id by (unfold min_int64; lia).
  rewrite !(proj2 (Z.ltb_ge _ _)) by lia.
  replace (Z.to_nat (Z.of_nat (length ds + length pre + 1) + Z.of_nat (length b)) -
           (length ds + length pre + 1))%nat with (length b) by lia.
  replace (length ds + length pre + 1)%nat with (length pre + (length ds + 1))%nat by lia.
  rewrite !drop_enc. simpl. rewrite drop_0, take_app_length.
  do 2 f_equal. rewrite length_app. cbn [length]. lia.
Qed.

Lemma reads_back_bytes b :
  reads_back (encode_bytes b) (BString (String.string_of_list_ascii b)).
Proof.
  unfold encode_bytes.
  assert (Hds : exists c l, format_int (Z.of_nat (length b)) = c :: l /\
                Forall (fun a => is_digit a = true) (c :: l)).
  { unfold format_int. destruct (Z.ltb_spec (Z.of_nat (length b)) 0); [lia|].
    pose proof (format_uint_digits (Z.of_nat (length b)) ltac:(lia)).
    destruct (format_uint _) as [|c l] eqn:E; [by apply format_uint_nonempty in E|eauto]. }
  destruct Hds as (c & l & Hcl & Hd). rewrite Hcl.
  assert (Hc : is_digit c = true) by by apply Forall_cons in Hd as [? _].
  split. { exists c, (l ++ ":"%char :: b). split; [done|]. by intros ->. }
  intros pre post [|fuel] Hf Hlen; [lia|].
  rewrite decodeValue_eq, <- app_comm_cons, lookup_enc, !decide_False by (by intros ->).
  apply (decode_string_at pre (c :: l)); [done|done| |done].
  rewrite <- Hcl. apply format_int_parse. unfold min_int64.
  rewrite !length_app in Hlen. cbn [length] in Hlen. lia.
Qed.

Lemma reads_back_string s : reads_back (encode_string s) (BString s).
Proof.
  pose proof (reads_back_bytes (String.list_ascii_of_string s)) as H.
  by rewrite String.string_of_list_ascii_of_string in H.
Qed.

(** ** Lists and maps *)

Lemma rebracket {A} (p e b q r : list A) :
  p ++ ((e ++ b) ++ q) ++ r = p ++ e ++ (b ++ q ++ r) /\
  p ++ e ++ (b ++ q ++ r) = (p ++ e) ++ (b ++ q) ++ r.
Proof. by rewrite <- !app_assoc. Qed.

Lemma decode_list_items encs cvs :
  Forall2 reads_back encs cvs ->
  forall pre post fuel res,
    (2 * (length (concat encs) + 1) <= fuel)%nat ->
    Z.of_nat (length (pre ++ (concat encs ++ ["e"%char]) ++ post)) <= max_int64 ->
    decode_list fuel (pre ++ (concat encs ++ ["e"%char]) ++ post) (length pre) res
    = Done (BList (res ++ cvs), length pre + length (concat encs ++ ["e"%char]))%nat.
Proof.
  induction 1 as [|enc cv encs cvs [(c & rest & -> & Hc) Henc] _ IH];
    intros pre post [|fuel] res Hf Hlen; try (simpl in Hf; lia).
  - cbn [concat]. rewrite decode_list_eq, app_nil_l, lookup_enc, decide_True, app_nil_r by done.
    done.
  - cbn [concat] in *. rewrite length_app in Hf. cbn [length] in Hf.
    destruct (rebracket pre (c :: rest) (concat encs) ["e"%char] post) as [E1 E2].
    rewrite decode_list_eq, E1, lookup_enc, decide_False by done. rewrite E1 in Hlen.
    rewrite Henc by (done || (cbn [length]; lia)).
    rewrite E2 in Hlen |- *. rewrite <- length_app, IH by (done || lia).
    rewrite <- app_assoc, !length_app. cbn [length app]. f_equal. f_equal. lia.
Qed.

(** An entry of a map: its key, the encoding of its value, the value read back. *)
Definition entry_code (e : string * list ascii * bvalue) : list ascii :=
  encode_string e.1.1 ++ e.1.2.
Definition entry_value (e : string * list ascii * bvalue) : string * bvalue := (e.1.1, e.2).

Lemma assoc_set_fresh {A} k (v : A) m : k ∉ m.*1 -> assoc_set k v m = m ++ [(k, v)].
Proof.
  induction m as [|[k' v'] m IH]; simpl; [done|]. rewrite not_elem_of_cons. intros [? ?].
  rewrite decide_False by done. by rewrite IH.
Qed.

Lemma decode_dict_step pre k enc cv tail fuel res :
  reads_back enc cv ->
  (2 * length (encode_string k ++ enc) + 1 <= fuel)%nat ->
  Z.of_nat (length (pre ++ (encode_string k ++ enc) ++ tail)) <= max_int64 ->
  decode_dict (S fuel) (pre ++ (encode_string k ++ enc) ++ tail) (length pre) res
  = decode_dict fuel (pre ++ (encode_string k ++ enc) ++ tail)
      (length (pre ++ (encode_string k ++ enc))) (assoc_set k cv res).
Proof.
  intros [_ Henc] Hf Hlen. rewrite length_app in Hf.
  destruct (reads_back_string k) as [(c & rest & Hk & Hc) Hkey].
  set (D := pre ++ (encode_string k ++ enc) ++ tail) in *.
  assert (E1 : D = pre ++ encode_string k ++ (enc ++ tail)) by by unfold D; rewrite <- !app_assoc.
  assert (E2 : D = (pre ++ encode_string k) ++ enc ++ tail) by by rewrite E1, <- !app_assoc.
  assert (D !! length pre = Some c) as Hlk by (rewrite E1, Hk; apply lookup_enc).
  assert (decodeValue fuel D (length pre)
          = Done (BString k, length pre + length (encode_string k))%nat) as Hdk.
  { rewrite E1 in Hlen |- *. apply Hkey; [lia|done]. }
  assert (decodeValue fuel D (length pre + length (encode_string k))
          = Done (cv, length (pre ++ (encode_string k ++ enc)))) as Hdv.
  { rewrite E2 in Hlen |- *. rewrite <- length_app, Henc by (done || lia).
    by rewrite app_assoc, (length_app _ enc). }
  by rewrite decode_dict_eq, Hlk, decide_False, Hdk, Hdv by done.
Qed.

Lemma decode_dict_items items :
  Forall (fun e => reads_back e.1.2 e.2) items ->
  forall pre post fuel res,
    NoDup (res.*1 ++ (entry_value <$> items).*1) ->
    (2 * (length (concat (entry_code <$> items)) + 1) <= fuel)%nat ->
    Z.of_nat (length (pre ++ (concat (entry_code <$> items) ++ ["e"%char]) ++ post))
      <= max_int64 ->
    decode_dict fuel (pre ++ (concat (entry_code <$> items) ++ ["e"%char]) ++ post)
      (length pre) res
    = Done (BDict (res ++ (entry_value <$> items)),
            length pre + length (concat (entry_code <$> items) ++ ["e"%char]))%nat.
Proof.
  induction 1 as [|[[k enc] cv] items Henc Hit IH];
    intros pre post [|fuel] res Hnd Hf Hlen; try (simpl in Hf; lia).
  - simpl concat. rewrite decode_dict_eq, app_nil_l, lookup_enc, decide_True by done.
    by rewrite app_nil_r.
  - rewrite fmap_cons in *. cbn [concat] in *. rewrite length_app in Hf.
    set (body := concat (entry_code <$> items)) in *.
    assert (entry_code (k, enc, cv) = encode_string k ++ enc) as Hent by done.
    rewrite Hent in *. clear Hent. simpl in Henc.
    assert (0 < length (encode_string k ++ enc))%nat.
    { rewrite length_app. destruct (reads_back_string k) as [(?&?&->&?) _]. cbn [length]. lia. }
    destruct (rebracket pre (encode_string k ++ enc) body ["e"%char] post) as [E1 E2].
    rewrite E1 in Hlen |- *. rewrite (decode_dict_step pre k enc cv) by (done || lia).
    rewrite E2 in Hlen |- *.
    rewrite !fmap_cons in Hnd. simpl in Hnd.
    rewrite assoc_set_fresh, IH; [| |lia|done|].
    + rewrite !length_app, <- (app_assoc res). cbn [length]. do 2 f_equal. lia.
    + rewrite fmap_app, <- app_assoc. done.
    + apply NoDup_app in Hnd as (_ & Hnd & _). intros Hin. by apply (Hnd _ Hin); left.
Qed.

Lemma assoc_get_map {A B} (f : A -> B) k m :
  assoc_get k (List.map (fun kv => (kv.1, f kv.2)) m) = f <$> assoc_get k m.
Proof. induction m as [|[k' v'] m IH]; simpl; [done|]. by case_decide. Qed.

Lemma assoc_get_elem {A} k (m : list (string * A)) :
  k ∈ m.*1 -> exists v, assoc_get k m = Some v /\ (k, v) ∈ m.
Proof.
  induction m as [|[k' v'] m IH]; simpl; [by intros ?%elem_of_nil|].
  rewrite elem_of_cons. case_decide as E; [subst; eexists; split; [done|by left]|].
  intros [->|Hin]; [done|]. destruct (IH Hin) as (v & ? & ?). exists v. split; [done|by right].
Qed.

Lemma sorted_keys_perm {A} (m : list (string * A)) : sorted_keys m ≡ₚ m.*1.
Proof. apply merge_sort_Permutation. Qed.

Lemma sorted_keys_map {A B} (f : string * A -> B) m :
  sorted_keys (List.map (fun kv => (kv.1, f kv)) m) = sorted_keys m.
Proof.
  unfold sorted_keys. f_equal. induction m as [|[k v] m IH]; [done|].
  csimpl. by rewrite IH.
Qed.

(** The two local fixpoints of [encodeValue], as maps over the items. *)
Lemma encodeValue_list l :
  encodeValue (BList l) =
  rbind (foldr (fun item rest => rbind (encodeValue item) (fun b =>
           rbind rest (fun r => inl (b ++ r)))) (inl []) l)
    (fun body => inl ("l"%char :: body ++ ["e"%char])).
Proof. reflexivity. Qed.
Lemma encodeValue_dict m :
  encodeValue (BDict m) =
  rbind (encode_entries (sorted_keys m) (List.map (fun kv => (kv.1, encodeValue kv.2)) m))
    (fun body => inl ("d"%char :: body ++ ["e"%char])).
Proof.
  cbn [encodeValue]. do 2 f_equal. induction m as [|[k v] m IH]; [done|]. simpl. by f_equal.
Qed.

(** [v] has an encoding, and it is read back as [canon v]. *)
Definition codec_ok (v : bvalue) : Prop :=
  exists enc, encodeValue v = inl enc /\ reads_back enc (canon v).

Lemma codec_list l : Forall codec_ok l -> exists encs,
  foldr (fun item rest => rbind (encodeValue item) (fun b =>
           rbind rest (fun r => inl (b ++ r)))) (inl []) l = inl (concat encs) /\
  Forall2 reads_back encs (List.map canon l).
Proof.
  induction 1 as [|v l (enc & He & Hr) _ (encs & Hes & Hrs)]; [by exists []|].
  exists (enc :: encs). simpl. rewrite He, Hes. split; [done|by constructor].
Qed.

Lemma codec_entries m keys :
  Forall (fun kv => codec_ok kv.2) m -> keys ⊆ m.*1 -> exists items,
  encode_entries keys (List.map (fun kv => (kv.1, encodeValue kv.2)) m)
    = inl (concat (entry_code <$> items)) /\
  Forall (fun e => reads_back e.1.2 e.2) items /\
  (entry_value <$> items).*1 = keys /\
  entry_value <$> items =
    omap (fun k => pair k <$> assoc_get k (List.map (fun kv => (kv.1, canon kv.2)) m)) keys.
Proof.
  intros Hm. induction keys as [|k keys IH]; intros Hk; [by exists []|].
  destruct IH as (items & Hi1 & Hi2 & Hi3 & Hi4); [set_solver|].
  destruct (assoc_get_elem k m) as (v & Hv & Hin); [set_solver|].
  rewrite Forall_forall in Hm. destruct (Hm _ Hin) as (enc & He & Hr).
  exists ((k, enc, canon v) :: items). simpl in He, Hr.
  rewrite !fmap_cons. cbn [encode_entries]. rewrite assoc_get_map, Hv. cbn [fmap option_fmap option_map].
  rewrite He, Hi1. repeat split; [|by constructor|by f_equal|].
  - simpl. unfold entry_code at 2. simpl. by rewrite <- app_assoc.
  - csimpl. rewrite assoc_get_map, Hv. simpl. by rewrite Hi4.
Qed.

Lemma reads_back_list encs cvs :
  Forall2 reads_back encs cvs -> reads_back ("l"%char :: concat encs ++ ["e"%char]) (BList cvs).
Proof.
  intros Hl. split; [by eexists "l"%char, _|]. intros pre post [|fuel] Hf Hlen; [lia|].
  rewrite decodeValue_eq, lookup_enc, decide_False, decide_True by done.
  assert (E : forall x l (t : list ascii), pre ++ (x :: l) ++ t = (pre ++ [x]) ++ l ++ t)
    by (intros; by rewrite <- app_assoc).
  rewrite E in Hlen |- *. replace (length pre + 1)%nat with (length (pre ++ ["l"%char]))
    by (rewrite length_app; simpl; lia).
  cbn [length] in Hf. rewrite length_app in Hf. cbn [length] in Hf.
  rewrite (decode_list_items _ _ Hl) by (done || lia).
  rewrite length_app. cbn [length app]. do 2 f_equal. lia.
Qed.

Lemma reads_back_dict items :
  Forall (fun e => reads_back e.1.2 e.2) items -> NoDup (entry_value <$> items).*1 ->
  reads_back ("d"%char :: concat (entry_code <$> items) ++ ["e"%char])
    (BDict (entry_value <$> items)).
Proof.
  intros Hi Hnd. split; [by eexists "d"%char, _|]. intros pre post [|fuel] Hf Hlen; [lia|].
  rewrite decodeValue_eq, lookup_enc, decide_True by done.
  assert (E : forall x l (t : list ascii), pre ++ (x :: l) ++ t = (pre ++ [x]) ++ l ++ t)
    by (intros; by rewrite <- app_assoc).
  rewrite E in Hlen |- *. replace (length pre + 1)%nat with (length (pre ++ ["d"%char]))
    by (rewrite length_app; simpl; lia).
  cbn [length] in Hf. rewrite length_app in Hf. cbn [length] in Hf.
  rewrite (decode_dict_items _ Hi) by (done || lia).
  rewrite length_app. cbn [length app]. do 2 f_equal. lia.
Qed.

Lemma encode_strings_reads_back l :
  reads_back ("l"%char :: concat (encode_string <$> l) ++ ["e"%char]) (BList (BString <$> l)).
Proof.
  apply reads_back_list. induction l as [|s l IH]; [constructor|].
  rewrite !fmap_cons. constructor; [apply reads_back_string|done].
Qed.

Lemma encodable_codec_ok v : encodable v -> codec_ok v.
Proof.
  revert v. apply (bvalue_deep_ind (fun v => encodable v -> codec_ok v));
    [intros v|intros l IH|intros m IH].
  - unfold codec_ok. destruct v; try done; simpl; intros Hv; eexists; (split; [done|]).
    + apply reads_back_string.
    + apply reads_back_bytes.
    + by apply reads_back_int.
    + by apply reads_back_int.
    + destruct b; by apply reads_back_int.
    + apply encode_strings_reads_back.
  - intros Hv. destruct (codec_list l) as (encs & He & Hr).
    { simpl in Hv. induction IH; [constructor|]. destruct Hv. constructor; auto. }
    exists ("l"%char :: concat encs ++ ["e"%char]). split; [|by apply reads_back_list].
    by rewrite encodeValue_list, He.
  - intros [Hnd Hv]. assert (Forall (fun kv => codec_ok kv.2) m) as Hm.
    { clear Hnd. induction IH; [constructor|]. destruct Hv. constructor; auto. }
    destruct (codec_entries m (sorted_keys m) Hm) as (items & He & Hr & Hk & Hc).
    { intros k. by rewrite sorted_keys_perm. }
    exists ("d"%char :: concat (entry_code <$> items) ++ ["e"%char]).
    rewrite encodeValue_dict, He. split; [done|].
    cbn [canon]. unfold sort_entries. rewrite sorted_keys_map, <- Hc.
    apply reads_back_dict; [done|]. by rewrite Hk, sorted_keys_perm.
Qed.

(** ** Properties *)

Lemma bencode_roundtrip_aux m :
  encodable (BDict m) ->
  exists body, bencode (BDict m) = inl body /\
    (Z.of_nat (length body) <= max_int64 ->
     bdecodeMap body = Done (sort_entries (List.map (fun kv => (kv.1, canon kv.2)) m))).
Proof.
  intros Hm. destruct (encodable_codec_ok _ Hm) as (body & He & _ & Hr).
  exists body. split; [done|]. intros Hlen.
  specialize (Hr [] [] (decode_fuel body) ltac:(unfold decode_fuel; lia)).
  rewrite app_nil_l, app_nil_r in Hr. specialize (Hr Hlen).
  unfold bdecodeMap. simpl in Hr. by rewrite Hr, Nat.eqb_refl.
Qed.

(** for every map of encodable values, [bencode] succeeds, and [bdecodeMap] applied to
    its output returns the same map, in key order, with each value as the wire
    carries it: byte slices as strings, integers and booleans as [int64], typed
    slices as [[]any]. *)
Theorem bencode_roundtrip m :
  encodable (BDict m) ->
  exists body, bencode (BDict m) = inl body /\
    (Z.of_nat (length body) <= max_int64 ->
     bdecodeMap body = Done (sort_entries (List.map (fun kv => (kv.1, canon kv.2)) m))).
Proof. exact (bencode_roundtrip_aux m). Qed.

Definition sample_request : list (string * bvalue) :=
  [("sdp", BBytes ["v"; "="; "0"]%char); ("flags", BStrings ["trust-address"; "symmetric"]);
   ("call-id", BString "a:e"); ("port", BInt (-17)); ("ice", BBool true)].

Lemma bencode_roundtrip_witness :
  encodable (BDict sample_request) /\
  exists body, bencode (BDict sample_request) = inl body /\
    (Z.of_nat (length body) <= max_int64 ->
     bdecodeMap body =
     Done (sort_entries (List.map (fun kv => (kv.1, canon kv.2)) sample_request))).
Proof.
  assert (H : encodable (BDict sample_request)).
  { split; [|by vm_compute]. apply (bool_decide_unpack _). by vm_compute. }
  split; [exact H|]. exact (bencode_roundtrip sample_request H).
Defined.

Example sample_request_bytes :
  String.string_of_list_ascii <$> (match bencode (BDict sample_request) with
                                   | inl b => Some b | inr _ => None end)
  = Some "d7:call-id3:a:e5:flagsl13:trust-address9:symmetrice3:icei1e4:porti-17e3:sdp3:v=0e".
Proof. by vm_compute. Qed.

(** decoding terminates on every packet: neither [bdecodeMap] nor any nested
    call runs out of the fuel [decode_fuel], and a successful decoding consumed
    exactly the buffer or reported trailing data. *)
Theorem bdecodeMap_total data :
  bdecodeMap data <> OutOfFuel /\
  forall v o, decodeValue (decode_fuel data) data 0 = Done (v, o) -> (0 < o <= length data)%nat.
Proof.
  split.
  - pose proof (decode_fuel_enough (decode_fuel data) data) as (H & _ & _).
    specialize (H 0%nat ltac:(unfold decode_fuel; lia)). unfold bdecodeMap.
    by repeat case_match.
  - intros v o H. by apply (proj1 (decode_progress _ _)) in H.
Qed.

(** The encoding of a map does not depend on Go's map iteration order. *)
Theorem bencode_map_order m m' :
  m ≡ₚ m' -> NoDup m.*1 -> bencode (BDict m) = bencode (BDict m').
Proof.
  intros Hp Hnd. unfold bencode. rewrite !encodeValue_dict.
  assert (Hk : sorted_keys m = sorted_keys m').
  { apply (Sorted_unique String.le); [apply Sorted_merge_sort, _..|].
    rewrite !sorted_keys_perm. by rewrite Hp. }
  rewrite <- Hk. f_equal. generalize (sorted_keys m). intros keys.
  assert (Hg : forall k, assoc_get k m = assoc_get k m').
  { intros k. revert Hnd. clear Hk. induction Hp as [|[k0 v0] l l' Hp IH|[k1 v1] [k2 v2] l|l l2 l3 H1 IH1 H2 IH2];
      intros Hnd; simpl in *.
    - done.
    - apply NoDup_cons in Hnd as [_ Hnd]. by rewrite IH.
    - apply NoDup_cons in Hnd as [Hn _]. repeat case_decide; try done. subst. set_solver.
    - rewrite IH1 by done. apply IH2. by rewrite <- H1. }
  induction keys as [|k keys IH]; [done|]. cbn [encode_entries].
  by rewrite !assoc_get_map, Hg, IH.
Qed.

Lemma bencode_map_order_witness :
  bencode (BDict [("b", BInt 1); ("a", BBool false)])
  = bencode (BDict [("a", BBool false); ("b", BInt 1)]).
Proof.
  apply (bencode_map_order [("b", BInt 1); ("a", BBool false)]
           [("a", BBool false); ("b", BInt 1)]).
  - apply perm_swap.
  - apply (bool_decide_unpack _). by vm_compute.
Defined.

(** what a string header does. With [len] the declared length, the decoder
    returns the [len] bytes after the colon when they are in the buffer, reports
    a truncated string when they are not and the end offset fits [int], and
    panics when [start + length] overflows [int]. *)
Theorem decode_string_bounds ds len rest :
  ds <> [] -> Forall (fun a => is_digit a = true) ds ->
  bytes_ParseInt ds = Some len ->
  let data := ds ++ ":"%char :: rest in
  let start := Z.of_nat (length ds) + 1 in
  Z.of_nat (length data) <= max_int64 ->
  decode_string data 0 =
    if max_int64 <? start + len then Panicked
    else if Z.of_nat (length data) <? start + len
         then Failed (Errorf "truncated bencode string" [])
         else Done (BString (String.string_of_list_ascii (take (Z.to_nat len) rest)),
                    Z.to_nat (start + len)).
Proof.
  intros Hne Hd Hp data start Hlen. unfold decode_string, data. rewrite drop_0.
  rewrite index_byte_app by by apply (digits_avoid ":"%char).
  destruct (length ds) as [|k] eqn:Ek; [by apply nil_length_inv in Ek|]. rewrite <- Ek.
  rewrite Nat.add_0_r, Nat.sub_0_r, take_app_length, Hp.
  assert (0 <= len <= max_int64) as Hr.
  { destruct ds as [|c l]; [done|]. pose proof Hd as Hd'. apply Forall_cons in Hd as [Hc _].
    rewrite digit_not_sign in Hp by done.
    destruct (parse_unsigned (c :: l)) as [z|] eqn:Ez; [|done]. simpl in Hp.
    assert (0 <= z) by by apply (parse_digits_nonneg (c :: l) 0 z ltac:(lia)).
    unfold in_int64 in Hp. destruct (min_int64 <=? z); [|done].
    destruct (Z.leb_spec z max_int64); [|done]. simpl in Hp. injection Hp as <-. lia. }
  rewrite (proj2 (Z.ltb_ge len 0)) by lia.
  replace (Z.of_nat (length ds + 1)) with start by (unfold start; lia).
  assert (Hdl : Z.of_nat (length (ds ++ ":"%char :: rest)) = start + Z.of_nat (length rest)).
  { rewrite length_app. cbn [length]. unfold start. lia. }
  fold data in Hdl |- *. rewrite Hdl in Hlen |- *.
  destruct (Z.ltb_spec max_int64 (start + len)).
  - assert (int64 (start + len) = start + len - 2 ^ 64) as ->.
    { unfold int64, wrap_signed, max_int64, min_int64 in *. simpl Z.sub at 3.
      replace (start + len + 2 ^ (64 - 1)) with ((start + len - 2 ^ 63) + 1 * 2 ^ 64) by lia.
      rewrite Z.mod_add, Z.mod_small by lia. lia. }
    unfold max_int64 in *. rewrite (proj2 (Z.ltb_ge _ _)) by lia.
    by rewrite (proj2 (Z.ltb_lt _ _)) by lia.
  - rewrite int64_id by (unfold min_int64; lia).
    destruct (Z.ltb_spec (start + Z.of_nat (length rest)) (start + len)); [done|].
    rewrite (proj2 (Z.ltb_ge _ _)) by lia.
    do 4 f_equal. unfold data. rewrite drop_app_ge by lia.
    replace (length ds + 1 - length ds)%nat with 1%nat by lia. simpl. rewrite drop_0.
    f_equal. unfold start. lia.
Qed.

Lemma decode_string_bounds_witness :
  decode_string ["9";"2";"2";"3";"3";"7";"2";"0";"3";"6";"8";"5";"4";"7";"7";"5";"8";"0";"7";":";"x"]%char 0
  = Panicked.
Proof.
  exact (decode_string_bounds
    ["9";"2";"2";"3";"3";"7";"2";"0";"3";"6";"8";"5";"4";"7";"7";"5";"8";"0";"7"]%char
    9223372036854775807 ["x"]%char ltac:(discriminate)
    ltac:(apply (bool_decide_unpack _); by vm_compute) ltac:(by vm_compute)
    ltac:(by vm_compute)).
Defined.

(** A reply whose dictionary holds such a header crashes the client's reader. *)
Lemma overlong_header_panics :
  decodeResponse (String.list_ascii_of_string "c0 d6:result9223372036854775807:oke") "c0"
  = Panicked.
Proof. by vm_compute. Qed.

(** a reply framed with the cookie of the request is accepted exactly with
    that cookie, its data are the dictionary sent, and it is reported as an error
    exactly when its [result] is not [ok] up to case. *)
Theorem decodeResponse_framing cookie m :
  encodable (BDict m) -> Forall (fun a => a <> " "%char) (String.list_ascii_of_string cookie) ->
  exists body, bencode (BDict m) = inl body /\
    let packet := String.list_ascii_of_string cookie ++ " "%char :: body in
    (forall cookie', cookie' <> cookie ->
       decodeResponse packet cookie' = Failed (Errorf "invalid RTPEngine response cookie" [])) /\
    (Z.of_nat (length body) <= max_int64 ->
     exists resp err, decodeResponse packet cookie = Done (resp, err) /\
       Data resp = sort_entries (List.map (fun kv => (kv.1, canon kv.2)) m) /\
       (err = None <-> EqualFold (stringValue (assoc_get "result" (Data resp))) "ok" = true)).
Proof.
  intros Hm Hc. destruct (bencode_roundtrip_aux m Hm) as (body & He & Hr).
  exists body. split; [done|]. intros packet. unfold decodeResponse, packet.
  rewrite index_byte_app by done. rewrite take_app_length. split.
  - intros cookie' Hne. rewrite bool_decide_false; [done|].
    intros Heq%(f_equal String.string_of_list_ascii).
    rewrite !String.string_of_list_ascii_of_string in Heq. congruence.
  - intros Hlen. rewrite bool_decide_true, drop_enc by done. simpl. rewrite drop_0, (Hr Hlen).
    unfold Response_OK. simpl.
    destruct (EqualFold _ "ok") eqn:E; eexists _, _; (split; [done|]); simpl; rewrite E; naive_solver.
Qed.

Lemma decodeResponse_framing_witness :
  exists body, bencode (BDict [("result", BString "OK")]) = inl body /\
    let packet := String.list_ascii_of_string "0a1b" ++ " "%char :: body in
    (forall cookie', cookie' <> "0a1b" ->
       decodeResponse packet cookie' = Failed (Errorf "invalid RTPEngine response cookie" [])) /\
    (Z.of_nat (length body) <= max_int64 ->
     exists resp err, decodeResponse packet "0a1b" = Done (resp, err) /\
       Data resp = sort_entries (List.map (fun kv => (kv.1, canon kv.2)) [("result", BString "OK")]) /\
       (err = None <-> EqualFold (stringValue (assoc_get "result" (Data resp))) "ok" = true)).
Proof.
  apply (decodeResponse_framing "0a1b" [("result", BString "OK")]).
  - split; [apply NoDup_singleton|by vm_compute].
  - apply (bool_decide_unpack _). by vm_compute.
Defined.
