(* ===== verification/Outbox.v ===== *)
(** * Transactional outbox

    [server/internal/platform/outbox]: the table operations of the outbox queries,
    the subject and header preparation of [publisher.go] and the publishing job
    of [jobs.go], with its retry delays. Several workers run the job against one
    table: [Outbox.step] interleaves their database and broker calls. *)

From stdpp Require Import sorting.
From S2P Require Import Prelude.
Local Open Scope Z_scope.

(** ** Retry delays (shared by the outbox and the webhook delivery job)

    [for i := int32(1); i < attempt && delay < max; i++ { delay *= 2; ... }]: [n]
    is the number of values of [i] left. *)
Module Retry.
Fixpoint doubling (n : nat) (delay max : Z) : Z :=
  match n with
  | O => if max <? delay then max else delay
  | S n' =>
      if delay <? max then
        let delay' := int64 (delay * 2) in
        if max <=? delay' then max else doubling n' delay' max
      else if max <? delay then max else delay
  end.

(** [retryDelay]. *)
Definition retryDelay (base max : Z) (attempt : Z) : Z :=
  doubling (Z.to_nat (attempt - 1)) base max.

(** [durationSeconds]. *)
Definition durationSeconds (v : Z) : Z :=
  let seconds := go_div v Second in
  if seconds <? 1 then 1
  else if max_int32 <? seconds then max_int32 else seconds.

Lemma doubling_spec n : forall delay max,
  0 < delay -> 0 < max <= 2 ^ 62 ->
  doubling n delay max = Z.min max (delay * 2 ^ Z.of_nat n).
Proof.
  induction n as [|n IH]; intros delay max Hd Hm; cbn [doubling].
  { rewrite Z.mul_1_r. destruct (Z.ltb_spec max delay); lia. }
  pose proof (Z.pow_pos_nonneg 2 (Z.of_nat n) ltac:(lia) ltac:(lia)) as Hp.
  rewrite Nat2Z.inj_succ, Z.pow_succ_r by lia.
  destruct (Z.ltb_spec delay max).
  - rewrite int64_id by (unfold min_int64, max_int64; lia).
    destruct (Z.leb_spec max (delay * 2)); [nia|]. rewrite IH by lia. f_equal. lia.
  - destruct (Z.ltb_spec max delay); nia.
Qed.

(** the retry delay of attempt [a] is the base delay doubled [a - 1] times and
    capped at the maximum; no doubling overflows [int64], for any maximum up
    to 2^62 ns. *)
Theorem retryDelay_exponential base max attempt :
  0 < base -> 0 < max <= 2 ^ 62 ->
  retryDelay base max attempt = Z.min max (base * 2 ^ Z.max 0 (attempt - 1)).
Proof.
  intros Hb Hm. unfold retryDelay. rewrite doubling_spec by done.
  by replace (Z.of_nat (Z.to_nat (attempt - 1))) with (Z.max 0 (attempt - 1)) by lia.
Qed.

Lemma retryDelay_exponential_witness :
  retryDelay (2 * Second) (5 * Minute) 4 = Z.min (5 * Minute) (2 * Second * 2 ^ Z.max 0 (4 - 1)).
Proof. apply (retryDelay_exponential (2 * Second) (5 * Minute) 4); unfold Minute, Second; lia. Defined.

(** The seconds handed to the database are positive and fit [int32]. *)
Lemma durationSeconds_range v : 1 <= durationSeconds v <= max_int32.
Proof.
  unfold durationSeconds, max_int32. cbv zeta. generalize (go_div v Second). intros s.
  destruct (Z.ltb_spec s 1); [lia|]. destruct (Z.ltb_spec (2 ^ 31 - 1) s); lia.
Qed.
End Retry.

Module Outbox.
(** A row of [outbox_events]. [Headers] is the stored JSON object as
    [json.Unmarshal] into [map[string]string] reads it. *)
Record OutboxEvent := {
  ID : UUID;
  Subject : string;
  AggregateType : string;
  AggregateID : UUID;
  Payload : string;
  Headers : result (gmap string string);
  AvailableAt : Z;
  PublishedAt : option Z;
  Attempts : Z;
  LastError : option error;
  LockedAt : option Z;
  LockedBy : option string;
  CreatedAt : Z;
  UpdatedAt : Z;
}.

(** ** Queries (database/queries/outbox.sql) *)

Definition claimable (now : Z) (e : OutboxEvent) : bool :=
  match PublishedAt e, LockedAt e with
  | None, None => AvailableAt e <=? now
  | _, _ => false
  end.

Definition claim_le (a b : OutboxEvent) : Prop :=
  AvailableAt a < AvailableAt b \/ (AvailableAt a = AvailableAt b /\ CreatedAt a <= CreatedAt b).
#[global] Instance claim_le_dec : RelDecision claim_le.
Proof. intros a b. unfold claim_le. apply _. Defined.

(** The ids [ClaimPendingEvents] locks: the first [batch] claimable rows. *)
Definition claim_ids (now batch : Z) (t : list OutboxEvent) : list UUID :=
  take (Z.to_nat batch) (ID <$> merge_sort claim_le (filter (fun e => claimable now e = true) t)).

Definition lock_row (now : Z) (worker : string) (e : OutboxEvent) : OutboxEvent :=
  {| ID := ID e; Subject := Subject e; AggregateType := AggregateType e;
     AggregateID := AggregateID e; Payload := Payload e; Headers := Headers e;
     AvailableAt := AvailableAt e; PublishedAt := PublishedAt e;
     Attempts := Attempts e + 1; LastError := LastError e;
     LockedAt := Some now; LockedBy := Some worker;
     CreatedAt := CreatedAt e; UpdatedAt := now |}.

Definition publish_row (now : Z) (e : OutboxEvent) : OutboxEvent :=
  {| ID := ID e; Subject := Subject e; AggregateType := AggregateType e;
     AggregateID := AggregateID e; Payload := Payload e; Headers := Headers e;
     AvailableAt := AvailableAt e; PublishedAt := Some now;
     Attempts := Attempts e; LastError := None;
     LockedAt := None; LockedBy := None; CreatedAt := CreatedAt e; UpdatedAt := now |}.

Definition fail_row (now : Z) (cause : error) (delay_seconds : Z) (e : OutboxEvent)
    : OutboxEvent :=
  {| ID := ID e; Subject := Subject e; AggregateType := AggregateType e;
     AggregateID := AggregateID e; Payload := Payload e; Headers := Headers e;
     AvailableAt := now + delay_seconds * Second; PublishedAt := PublishedAt e;
     Attempts := Attempts e; LastError := Some cause;
     LockedAt := None; LockedBy := None; CreatedAt := CreatedAt e; UpdatedAt := now |}.

Definition unlock_row (now : Z) (e : OutboxEvent) : OutboxEvent :=
  {| ID := ID e; Subject := Subject e; AggregateType := AggregateType e;
     AggregateID := AggregateID e; Payload := Payload e; Headers := Headers e;
     AvailableAt := AvailableAt e; PublishedAt := PublishedAt e;
     Attempts := Attempts e; LastError := LastError e;
     LockedAt := None; LockedBy := None; CreatedAt := CreatedAt e; UpdatedAt := now |}.

(** [UPDATE ... WHERE p]. *)
Definition update (p : OutboxEvent -> bool) (f : OutboxEvent -> OutboxEvent)
    (t : list OutboxEvent) : list OutboxEvent :=
  (fun e => if p e then f e else e) <$> t.

(** [ClaimPendingEvents], with the rows [RETURNING *] yields. *)
Definition ClaimPendingEvents (now : Z) (worker : string) (batch : Z) (t : list OutboxEvent)
    : list OutboxEvent * list OutboxEvent :=
  let ids := claim_ids now batch t in
  let t' := update (fun e => bool_decide (ID e ∈ ids)) (lock_row now worker) t in
  (filter (fun e => ID e ∈ ids) t', t').

Definition unpublished_id (id : UUID) (e : OutboxEvent) : bool :=
  bool_decide (ID e = id) && bool_decide (PublishedAt e = None).

Definition MarkEventPublished (now : Z) (id : UUID) : list OutboxEvent -> list OutboxEvent :=
  update (unpublished_id id) (publish_row now).

Definition MarkEventFailed (now : Z) (id : UUID) (cause : error) (delay : Z)
    : list OutboxEvent -> list OutboxEvent :=
  update (unpublished_id id) (fail_row now cause delay).

Definition is_stale (now timeout_seconds : Z) (e : OutboxEvent) : bool :=
  match PublishedAt e, LockedAt e with
  | None, Some l => l <? now - timeout_seconds * Second
  | _, _ => false
  end.
Definition ReleaseStaleLocks (now timeout_seconds : Z) : list OutboxEvent -> list OutboxEvent :=
  update (is_stale now timeout_seconds) (unlock_row now).

(** [InsertOutboxEvent]; [id] is the identifier the database generates. *)
Definition InsertOutboxEvent (now : Z) (id : UUID) (subject aggregate_type : string)
    (aggregate_id : UUID) (payload : string) (headers : gmap string string)
    (available_at : option Z) (t : list OutboxEvent) : OutboxEvent * list OutboxEvent :=
  let e := {| ID := id; Subject := subject; AggregateType := aggregate_type;
              AggregateID := aggregate_id; Payload := payload; Headers := inl headers;
              AvailableAt := default now available_at; PublishedAt := None;
              Attempts := 0; LastError := None; LockedAt := None; LockedBy := None;
              CreatedAt := now; UpdatedAt := now |} in
  (e, t ++ [e]).

(** ** Publisher (publisher.go) *)

Definition EventsSubjectPrefix : string := "leamout.event.".

(** [strings.ContainsAny(subject, " \t\r\n*> ")]. *)
Definition subject_forbidden (c : ascii) : bool :=
  byte_is 32 c || byte_is 9 c || byte_is 13 c || byte_is 10 c || byte_is 42 c || byte_is 62 c.

Definition eventSubject (subject : string) : result string :=
  let subject := TrimSpace subject in
  if decide (subject = "") then inr (Errorf "outbox event subject is required" []) else
  if existsb subject_forbidden (String.list_ascii_of_string subject)
  then inr (Errorf "invalid outbox event subject %q" [subject]) else
  if String.prefix EventsSubjectPrefix subject then inl subject
  else inl (EventsSubjectPrefix +:+ subject).

Record Message := {
  msg_Subject : string;
  msg_Payload : string;
  msg_Headers : gmap string string;
  msg_ID : string;
}.

Section Publisher.
Context {U : UuidLib}.

(** [Publish] up to the broker call: what is handed to [PublishWithOptions]. *)
Definition prepare (event : OutboxEvent) : result Message :=
  let? subject := eventSubject (Subject event) in
  match Headers event with
  | inr e => inr (Wrapf "decode outbox event %s headers: %w" [uuid_String (ID event)] e)
  | inl headers =>
      let headers := <["X-Leamout-Event-ID" := uuid_String (ID event)]> headers in
      let headers := <["X-Leamout-Aggregate-Type" := AggregateType event]> headers in
      let headers := <["X-Leamout-Aggregate-ID" := uuid_String (AggregateID event)]> headers in
      inl {| msg_Subject := subject; msg_Payload := Payload event;
             msg_Headers := headers; msg_ID := uuid_String (ID event) |}
  end.
End Publisher.

(** The database and the broker, as one worker sees them. *)
Record World := {
  now : Z;
  table : list OutboxEvent;
  broker : list Message;
  faults : list fault;
}.
#[export] Instance World_faults : HasFaults World := {|
  get_faults := faults;
  set_faults fs w := {| now := now w; table := table w; broker := broker w; faults := fs |};
|}.
Definition set_table (t : list OutboxEvent) (w : World) : World :=
  {| now := now w; table := t; broker := broker w; faults := faults w |}.
Definition send (m : Message) (w : World) : World :=
  {| now := now w; table := table w; broker := broker w ++ [m]; faults := faults w |}.

Record Config := {
  WorkerID : string; BatchSize : Z; LockTimeout : Z; RetryBaseDelay : Z; RetryMaxDelay : Z;
}.

(** The defaults [NewPublisherJob] fills in; an error when the worker id is empty. *)
Definition NewPublisherJob (c : Config) : result Config :=
  if decide (WorkerID c = "") then inr (Errorf "outbox publisher worker id is required" []) else
  let base := if RetryBaseDelay c <=? 0 then 2 * Second else RetryBaseDelay c in
  inl {| WorkerID := WorkerID c;
         BatchSize := if BatchSize c <=? 0 then 100 else BatchSize c;
         LockTimeout := if LockTimeout c <=? 0 then 60 * Second else LockTimeout c;
         RetryBaseDelay := base;
         RetryMaxDelay := if RetryMaxDelay c <? base then 5 * Minute else RetryMaxDelay c |}.

Section Job.
Context {U : UuidLib}.

Definition Publish (event : OutboxEvent) (w : World) : result unit * World :=
  match prepare event with
  | inr e => (inr e, w)
  | inl m =>
      match ext (fun w => (inl tt, send m w)) w with
      | (inl _, w') => (inl tt, w')
      | (inr e, w') => (inr (Wrapf "publish outbox event %s: %w" [msg_ID m] e), w')
      end
  end.

Definition exec (f : list OutboxEvent -> list OutboxEvent) (w : World) : result unit * World :=
  ext (fun w => (inl tt, set_table (f (table w)) w)) w.

(** The loop of [publishBatch]. *)
Fixpoint publish_events (c : Config) (events : list OutboxEvent) (w : World)
    : result unit * World :=
  match events with
  | [] => (inl tt, w)
  | event :: rest =>
      match Publish event w with
      | (inr err, w1) =>
          let delay := Retry.retryDelay (RetryBaseDelay c) (RetryMaxDelay c) (Attempts event) in
          match exec (MarkEventFailed (now w1) (ID event) err
                        (Retry.durationSeconds delay)) w1 with
          | (inr e, w2) =>
              (inr (Wrapf "mark outbox event %s failed after publish error: %w"
                      [uuid_String (ID event)] e), w2)
          | (inl _, w2) => publish_events c rest w2
          end
      | (inl _, w1) =>
          match exec (MarkEventPublished (now w1) (ID event)) w1 with
          | (inr e, w2) =>
              (inr (Wrapf "mark outbox event %s published: %w" [uuid_String (ID event)] e), w2)
          | (inl _, w2) => publish_events c rest w2
          end
      end
  end.

(** [Repository.ClaimPending]: the claimed rows, the table updated. *)
Definition claim (c : Config) (w : World) : result (list OutboxEvent) * World :=
  (inl (fst (ClaimPendingEvents (now w) (WorkerID c) (BatchSize c) (table w))),
   set_table (snd (ClaimPendingEvents (now w) (WorkerID c) (BatchSize c) (table w))) w).

Definition publishBatch (c : Config) (w : World) : result unit * World :=
  match ext (claim c) w with
  | (inr e, w1) => (inr (Wrapf "claim pending outbox events: %w" [] e), w1)
  | (inl events, w1) => publish_events c events w1
  end.

Definition releaseStaleLocks (c : Config) (w : World) : result unit * World :=
  match exec (ReleaseStaleLocks (now w) (Retry.durationSeconds (LockTimeout c))) w with
  | (inr e, w1) => (inr (Wrapf "release stale outbox locks: %w" [] e), w1)
  | (inl _, w1) => (inl tt, w1)
  end.

(** ** Interleaving of several workers

    What a worker does between two calls is local, so the calls are the atomic
    steps. A worker in [Holding events] has claimed [events]; in [Sent e rest]
    its broker call for [e] succeeded; in [NotSent] it failed, with or without
    the message having reached the broker. A step of the table that fails
    without effect aborts the batch. *)
Inductive phase : Type :=
| Idle
| Holding (events : list OutboxEvent)
| Sent (event : OutboxEvent) (rest : list OutboxEvent)
| NotSent (event : OutboxEvent) (cause : error) (rest : list OutboxEvent).

Record System := {
  s_now : Z;
  s_table : list OutboxEvent;
  s_broker : list Message;
  s_workers : gmap string phase;
}.

Definition worker_phase (s : System) (wk : string) : phase := default Idle (s_workers s !! wk).
Definition with_worker (s : System) (wk : string) (p : phase) (t : list OutboxEvent)
    (b : list Message) : System :=
  {| s_now := s_now s; s_table := t; s_broker := b; s_workers := <[wk := p]> (s_workers s) |}.

Inductive step : System -> System -> Prop :=
| step_tick s d : 0 <= d ->
    step s {| s_now := s_now s + d; s_table := s_table s; s_broker := s_broker s;
              s_workers := s_workers s |}
| step_insert s id subject aty aid payload headers avail :
    id ∉ ID <$> s_table s ->
    step s {| s_now := s_now s;
              s_table := snd (InsertOutboxEvent (s_now s) id subject aty aid payload headers
                                avail (s_table s));
              s_broker := s_broker s; s_workers := s_workers s |}
| step_claim s wk batch rows t' :
    worker_phase s wk = Idle ->
    ClaimPendingEvents (s_now s) wk batch (s_table s) = (rows, t') ->
    step s (with_worker s wk (Holding rows) t' (s_broker s))
| step_done s wk :
    worker_phase s wk = Holding [] ->
    step s (with_worker s wk Idle (s_table s) (s_broker s))
| step_send s wk e rest m :
    worker_phase s wk = Holding (e :: rest) -> prepare e = inl m ->
    step s (with_worker s wk (Sent e rest) (s_table s) (s_broker s ++ [m]))
| step_send_ambiguous s wk e rest m err :
    worker_phase s wk = Holding (e :: rest) -> prepare e = inl m ->
    step s (with_worker s wk (NotSent e err rest) (s_table s) (s_broker s ++ [m]))
| step_send_failed s wk e rest err :
    worker_phase s wk = Holding (e :: rest) ->
    step s (with_worker s wk (NotSent e err rest) (s_table s) (s_broker s))
| step_mark_published s wk e rest p :
    worker_phase s wk = Sent e rest -> p = Holding rest \/ p = Idle ->
    step s (with_worker s wk p (MarkEventPublished (s_now s) (ID e) (s_table s)) (s_broker s))
| step_mark_failed s wk e err rest delay p :
    worker_phase s wk = NotSent e err rest -> p = Holding rest \/ p = Idle ->
    step s (with_worker s wk p (MarkEventFailed (s_now s) (ID e) err delay (s_table s))
              (s_broker s))
| step_abort s wk :
    step s (with_worker s wk Idle (s_table s) (s_broker s))
| step_release s timeout :
    step s {| s_now := s_now s; s_table := ReleaseStaleLocks (s_now s) timeout (s_table s);
              s_broker := s_broker s; s_workers := s_workers s |}.
End Job.

(** ** Lemmas on the table operations *)

Lemma update_Forall (P : OutboxEvent -> Prop) p f t :
  (forall e, e ∈ t -> p e = true -> P e -> P (f e)) -> Forall P t -> Forall P (update p f t).
Proof.
  intros Hf Ht. unfold update. rewrite Forall_fmap, Forall_forall in *.
  intros e He. simpl. destruct (p e) eqn:E; auto.
Qed.

Lemma update_ids p f t : (forall e, ID (f e) = ID e) -> ID <$> update p f t = ID <$> t.
Proof.
  intros Hf. unfold update. induction t as [|e t IH]; [done|]. rewrite !fmap_cons.
  f_equal; [|exact IH]. by destruct (p e).
Qed.

Lemma update_lookup (p : OutboxEvent -> bool) f (t : list OutboxEvent) (e : OutboxEvent) : e ∈ t -> (if p e then f e else e) ∈ update p f t.
Proof. intros He. unfold update. apply list_elem_of_fmap. eauto. Qed.

Lemma claimable_spec now e :
  claimable now e = true <-> PublishedAt e = None /\ LockedAt e = None /\ AvailableAt e <= now.
Proof.
  unfold claimable. destruct (PublishedAt e), (LockedAt e); rewrite ?Z.leb_le; intuition congruence.
Qed.

Lemma claim_ids_claimable now batch (t : list OutboxEvent) (e : OutboxEvent) :
  NoDup (ID <$> t) -> e ∈ t -> ID e ∈ claim_ids now batch t -> claimable now e = true.
Proof.
  intros Hnd He Hin. unfold claim_ids in Hin. apply subseteq_take in Hin.
  rewrite merge_sort_Permutation in Hin. apply list_elem_of_fmap in Hin as (e' & Hid & He').
  apply list_elem_of_filter in He' as [Hc He'].
  by rewrite (NoDup_key_inj ID t e e' Hnd He He' Hid).
Qed.

(** ** Invariant of the interleaved system *)
Section Invariant.
Context {U : UuidLib}.

(** The message of the row is in the broker's log. *)
Definition was_sent (b : list Message) (e : OutboxEvent) : Prop :=
  uuid_String (ID e) ∈ msg_ID <$> b.

Definition row_ok (b : list Message) (e : OutboxEvent) : Prop :=
  (LockedAt e = None <-> LockedBy e = None) /\
  0 <= Attempts e /\
  (is_Some (PublishedAt e) -> LockedAt e = None /\ was_sent b e).

Definition phase_ok (b : list Message) (p : phase) : Prop :=
  match p with Sent e _ => was_sent b e | _ => True end.

Definition inv (s : System) : Prop :=
  NoDup (ID <$> s_table s) /\
  Forall (row_ok (s_broker s)) (s_table s) /\
  map_Forall (fun _ p => phase_ok (s_broker s) p) (s_workers s).

Lemma was_sent_mono b m e : was_sent b e -> was_sent (b ++ [m]) e.
Proof. unfold was_sent. rewrite fmap_app, elem_of_app. auto. Qed.
Lemma row_ok_mono b m e : row_ok b e -> row_ok (b ++ [m]) e.
Proof. unfold row_ok. intros (? & ? & Hp). split_and!; [done..|]. intros Hs. destruct (Hp Hs). auto using was_sent_mono. Qed.
Lemma phase_ok_mono b m p : phase_ok b p -> phase_ok (b ++ [m]) p.
Proof. destruct p; simpl; auto using was_sent_mono. Qed.
Lemma row_ok_id b e e' :
  ID e' = ID e -> (LockedAt e' = None <-> LockedBy e' = None) -> 0 <= Attempts e' ->
  (is_Some (PublishedAt e') -> LockedAt e' = None /\ was_sent b e) -> row_ok b e'.
Proof. intros Hid ? ? ?. unfold row_ok, was_sent in *. by rewrite Hid. Qed.

Lemma prepare_msg_ID e m : prepare e = inl m -> msg_ID m = uuid_String (ID e).
Proof.
  unfold prepare. destruct (eventSubject _); simpl; [|done].
  destruct (Headers e); [|done]. by intros [= <-].
Qed.
Lemma was_sent_now b e m : prepare e = inl m -> was_sent (b ++ [m]) e.
Proof.
  intros Hm. unfold was_sent. rewrite fmap_app, elem_of_app. right.
  simpl. rewrite (prepare_msg_ID _ _ Hm). by left.
Qed.

Lemma worker_phase_ok s wk : inv s -> phase_ok (s_broker s) (worker_phase s wk).
Proof.
  intros (_ & _ & Hw). unfold worker_phase.
  destruct (s_workers s !! wk) eqn:E; [by apply (Hw wk)|done].
Qed.

(** Changing one worker's phase and updating rows without touching the broker. *)
Lemma inv_update s wk p pr f :
  inv s -> (forall e, ID (f e) = ID e) -> phase_ok (s_broker s) p ->
  (forall e, e ∈ s_table s -> pr e = true -> row_ok (s_broker s) e -> row_ok (s_broker s) (f e)) ->
  inv (with_worker s wk p (update pr f (s_table s)) (s_broker s)).
Proof.
  intros (Hnd & Hr & Hw) Hid Hp Hf. split_and!; simpl.
  - by rewrite update_ids.
  - by apply update_Forall.
  - by apply map_Forall_insert_2.
Qed.
Lemma inv_phase s wk p :
  inv s -> phase_ok (s_broker s) p ->
  inv (with_worker s wk p (s_table s) (s_broker s)).
Proof. intros (Hnd & Hr & Hw) Hp. split_and!; simpl; [done..|]. by apply map_Forall_insert_2. Qed.
Lemma inv_send s wk p m :
  inv s -> phase_ok (s_broker s ++ [m]) p ->
  inv (with_worker s wk p (s_table s) (s_broker s ++ [m])).
Proof.
  intros (Hnd & Hr & Hw) Hp. split_and!; simpl; [done| |].
  - eapply Forall_impl; [exact Hr|]. intros e. apply row_ok_mono.
  - apply map_Forall_insert_2; [done|]. intros i q Hi. apply phase_ok_mono. by eapply Hw.
Qed.

Lemma lock_row_ok b now wk e :
  claimable now e = true -> row_ok b e -> row_ok b (lock_row now wk e).
Proof.
  intros (Hp & _ & _)%claimable_spec (_ & Ha & _).
  apply (row_ok_id b e); simpl; [done|done|lia|]. rewrite Hp. by intros [? ?].
Qed.
Lemma publish_row_ok b now e : was_sent b e -> row_ok b e -> row_ok b (publish_row now e).
Proof. intros Hs (_ & Ha & _). by apply (row_ok_id b e). Qed.
Lemma unlocked_row_ok b e e' :
  ID e' = ID e -> PublishedAt e' = PublishedAt e -> Attempts e' = Attempts e ->
  LockedAt e' = None -> LockedBy e' = None -> row_ok b e -> row_ok b e'.
Proof.
  intros Hid Hp Ha Hl Hb (_ & ? & Hs). apply (row_ok_id b e); rewrite ?Hl, ?Hb, ?Hp, ?Ha; try done.
  intros Hreach. split; [done|]. by apply Hs.
Qed.

Lemma step_inv s s' : step s s' -> inv s -> inv s'.
Proof.
  intros Hst Hinv. pose proof (worker_phase_ok s) as Hph.
  destruct Hst as
    [s d Hd|s id sub aty aid pl hd av Hid|s wk batch rows t' Hp Hc|s wk Hp|s wk e rest m Hp Hm
    |s wk e rest m err Hp Hm|s wk e rest err Hp|s wk e rest p Hp Hq|s wk e err rest delay p Hp Hq
    |s wk|s timeout].
  - exact Hinv.
  - destruct Hinv as (Hnd & Hr & Hw). split_and!; simpl; [| |done].
    + rewrite fmap_app. apply NoDup_app. split_and!; [done| |apply NoDup_singleton].
      intros x Hx ->%list_elem_of_singleton. done.
    + rewrite Forall_app. split; [done|]. apply Forall_singleton.
      split_and!; simpl; [done|lia|by intros [? ?]].
  - unfold ClaimPendingEvents in Hc. injection Hc as _ <-. destruct Hinv as (Hnd & ? & ?) eqn:E.
    apply inv_update; [done|done|done|]. intros e He Hin Hok.
    apply lock_row_ok; [|done]. apply bool_decide_eq_true in Hin.
    by apply (claim_ids_claimable _ batch (s_table s)).
  - by apply inv_phase.
  - apply inv_send; [done|]. by apply was_sent_now.
  - by apply inv_send.
  - by apply inv_phase.
  - apply inv_update; [done|done|by destruct Hq as [-> | ->]|].
    intros e' _ Hu Hok. apply publish_row_ok; [|done].
    specialize (Hph wk Hinv). rewrite Hp in Hph. simpl in Hph.
    unfold unpublished_id in Hu. apply andb_true_iff in Hu as [Hu _].
    apply bool_decide_eq_true in Hu. unfold was_sent in *. by rewrite Hu.
  - apply inv_update; [done|done|by destruct Hq as [-> | ->]|].
    intros e' _ _ Hok. by apply (unlocked_row_ok _ e').
  - by apply inv_phase.
  - destruct Hinv as (Hnd & Hr & Hw). unfold ReleaseStaleLocks.
    split_and!; simpl; [| |done].
    + by rewrite update_ids.
    + apply update_Forall; [|done]. intros e _ _ Hok. by apply (unlocked_row_ok _ e).
Qed.

Definition init (t : Z) : System :=
  {| s_now := t; s_table := []; s_broker := []; s_workers := ∅ |}.

Lemma reachable_inv t s : rtc step (init t) s -> inv s.
Proof.
  revert s. apply (rtc_ind_r inv (init t)); [|by intros; eapply step_inv].
  split_and!; simpl; [constructor|constructor|apply map_Forall_empty].
Qed.

(** C9: whatever the interleaving of workers, failures and stale-lock releases, an
    event marked published has had its message accepted by the broker, and
    holds no lock. *)
Theorem published_was_sent t s e :
  rtc step (init t) s -> e ∈ s_table s -> is_Some (PublishedAt e) ->
  uuid_String (ID e) ∈ msg_ID <$> s_broker s /\ LockedAt e = None /\ LockedBy e = None.
Proof.
  intros (_ & Hr & _)%reachable_inv He Hp. rewrite Forall_forall in Hr.
  destruct (Hr e He) as (Hlb & _ & Hs). destruct (Hs Hp) as [Hl Hsent].
  split; [exact Hsent|]. split; [done|]. by apply Hlb.
Qed.

Lemma update_keeps_published p f t e pt :
  (forall e', p e' = true -> PublishedAt e' = Some pt ->
              ID (f e') = ID e' /\ PublishedAt (f e') = Some pt) ->
  e ∈ t -> PublishedAt e = Some pt ->
  exists e', e' ∈ update p f t /\ ID e' = ID e /\ PublishedAt e' = Some pt.
Proof.
  intros Hf He Hp. eexists. split; [by apply update_lookup|].
  destruct (p e) eqn:E; [by apply Hf|done].
Qed.

Lemma step_keeps_published s s' (e : OutboxEvent) pt :
  step s s' -> e ∈ s_table s -> PublishedAt e = Some pt ->
  exists e', e' ∈ s_table s' /\ ID e' = ID e /\ PublishedAt e' = Some pt.
Proof.
  intros Hst He Hp. destruct Hst as
    [s d Hd|s id sub aty aid pl hd av Hid|s wk batch rows t' _ Hc|s wk _|s wk e0 rest m _ _
    |s wk e0 rest m err _ _|s wk e0 rest err _|s wk e0 rest p _ _|s wk e0 err rest delay p _ _
    |s wk|s timeout]; simpl; try by exists e.
  - exists e. split; [|done]. apply elem_of_app. by left.
  - unfold ClaimPendingEvents in Hc. injection Hc as _ <-.
    by apply (update_keeps_published _ _ _ e).
  - apply (update_keeps_published _ _ _ e); [|done..]. intros e' Hu Hp'.
    unfold unpublished_id in Hu. rewrite Hp', andb_false_r in Hu. done.
  - apply (update_keeps_published _ _ _ e); [|done..]. intros e' Hu Hp'.
    unfold unpublished_id in Hu. rewrite Hp', andb_false_r in Hu. done.
  - by apply (update_keeps_published _ _ _ e).
Qed.

(** Publication is final: no later claim, failure report, lock release or
    second publication changes the publication time of an event or removes it. *)
Theorem publication_final s s' (e : OutboxEvent) pt :
  rtc step s s' -> e ∈ s_table s -> PublishedAt e = Some pt ->
  exists e', e' ∈ s_table s' /\ ID e' = ID e /\ PublishedAt e' = Some pt.
Proof.
  intros H. revert e. induction H as [s|s s1 s' Hst _ IH]; intros e He Hp; [by exists e|].
  destruct (step_keeps_published _ _ _ _ Hst He Hp) as (e1 & He1 & Hid & Hp1).
  destruct (IH e1 He1 Hp1) as (e2 & ? & ? & ?). exists e2. split_and!; [done|congruence|done].
Qed.

(** ** The job is a run of the interleaved system *)

Definition sys (w : World) (ws : gmap string phase) : System :=
  {| s_now := now w; s_table := table w; s_broker := broker w; s_workers := ws |}.

Lemma with_worker_sys w w' ws wk p t b :
  now w' = now w -> table w' = t -> broker w' = b ->
  with_worker (sys w ws) wk p t b = sys w' (<[wk := p]> ws).
Proof. intros Hn <- <-. unfold with_worker, sys. simpl. by rewrite Hn. Qed.

Lemma Publish_cases e w r w1 :
  Publish e w = (r, w1) ->
  now w1 = now w /\ table w1 = table w /\
  match r with
  | inl _ => exists m, prepare e = inl m /\ broker w1 = broker w ++ [m]
  | inr _ => broker w1 = broker w \/
             exists m, prepare e = inl m /\ broker w1 = broker w ++ [m]
  end.
Proof.
  unfold Publish. destruct (prepare e) as [m|err]; [|intros [= <- <-]; auto].
  unfold ext. simpl. destruct (faults w) as [|[|err|err] fs]; intros [= <- <-]; simpl; eauto 10.
Qed.

Lemma exec_cases f w r w1 :
  exec f w = (r, w1) ->
  now w1 = now w /\ broker w1 = broker w /\
  match r with
  | inl _ => table w1 = f (table w)
  | inr _ => table w1 = table w \/ table w1 = f (table w)
  end.
Proof.
  unfold exec, ext. simpl. destruct (faults w) as [|[|err|err] fs]; intros [= <- <-]; simpl; auto.
Qed.

Lemma worker_phase_insert w ws wk p : worker_phase (sys w (<[wk := p]> ws)) wk = p.
Proof. unfold worker_phase. simpl. by rewrite lookup_insert_eq. Qed.

Ltac one_step C :=
  eapply rtc_l; [eapply C; [by apply worker_phase_insert|eauto..]|].
(** Rewrite the reached state as a [sys], the phase of the worker overwritten. *)
Ltac as_sys w' := rewrite (with_worker_sys _ w') by (done || congruence);
                  rewrite ?insert_insert_eq.

Lemma publish_events_steps c wk events : forall w ws,
  rtc step (sys w (<[wk := Holding events]> ws))
           (sys (snd (publish_events c events w)) (<[wk := Idle]> ws)).
Proof.
  induction events as [|e rest IH]; intros w ws; cbn [publish_events].
  { one_step step_done. as_sys w. apply rtc_refl. }
  destruct (Publish e w) as [[u|err] w1] eqn:EP;
    apply Publish_cases in EP as (Hn1 & Ht1 & Hb1).
  - destruct Hb1 as (m & Hm & Hb1). one_step step_send. as_sys w1.
    destruct (exec _ w1) as [[u2|err2] w2] eqn:EX;
      apply exec_cases in EX as (Hn2 & Hb2 & Ht2); simpl.
    + one_step (fun s => step_mark_published s wk e rest (Holding rest)). as_sys w2. apply IH.
    + destruct Ht2 as [Ht2|Ht2].
      * eapply rtc_l; [eapply step_abort with (wk := wk)|]. as_sys w2. apply rtc_refl.
      * one_step (fun s => step_mark_published s wk e rest Idle). as_sys w2. apply rtc_refl.
  - assert (rtc step (sys w (<[wk := Holding (e :: rest)]> ws))
              (sys w1 (<[wk := NotSent e err rest]> ws))) as Hs1.
    { destruct Hb1 as [Hb1|(m & Hm & Hb1)].
      - one_step step_send_failed. as_sys w1. apply rtc_refl.
      - one_step step_send_ambiguous. as_sys w1. apply rtc_refl. }
    etrans; [exact Hs1|].
    destruct (exec _ w1) as [[u2|err2] w2] eqn:EX;
      apply exec_cases in EX as (Hn2 & Hb2 & Ht2); simpl.
    + one_step (fun s d => step_mark_failed s wk e err rest d (Holding rest)). as_sys w2. apply IH.
    + destruct Ht2 as [Ht2|Ht2].
      * eapply rtc_l; [eapply step_abort with (wk := wk)|]. as_sys w2. apply rtc_refl.
      * one_step (fun s d => step_mark_failed s wk e err rest d Idle). as_sys w2. apply rtc_refl.
Qed.

(** one pass of [publishBatch], whatever its calls do, is a run of the
    interleaved system that starts with the worker idle, leaves it idle and
    touches no other worker. *)
Theorem publishBatch_refines c w ws :
  worker_phase (sys w ws) (WorkerID c) = Idle ->
  rtc step (sys w ws) (sys (snd (publishBatch c w)) (<[WorkerID c := Idle]> ws)).
Proof.
  intros Hidle. unfold publishBatch.
  assert (Habort : forall w1, now w1 = now w -> table w1 = table w -> broker w1 = broker w ->
            rtc step (sys w ws) (sys w1 (<[WorkerID c := Idle]> ws))).
  { intros w1 Hn Ht Hb. eapply rtc_l; [eapply step_abort with (wk := WorkerID c)|].
    as_sys w1. apply rtc_refl. }
  assert (Hclaim : forall w0, now w0 = now w -> table w0 = table w -> broker w0 = broker w ->
            exists rows, fst (claim c w0) = inl rows /\
              step (sys w ws) (sys (snd (claim c w0)) (<[WorkerID c := Holding rows]> ws))).
  { intros w0 Hn Ht Hb. eexists. split; [done|].
    rewrite <- (with_worker_sys w (snd (claim c w0)) ws _ _ _ (broker w)) by done.
    eapply (step_claim (sys w ws) _ (BatchSize c)); [done|].
    simpl. rewrite Hn, Ht. apply surjective_pairing. }
  unfold ext. destruct (get_faults w) as [|[|err|err] fs].
  1: destruct (Hclaim w) as (rows & Hr & Hs); [done..|].
  3: by apply Habort.
  2,3: destruct (Hclaim (set_faults fs w)) as (rows & Hr & Hs); [done..|].
  all: destruct (claim c _) as [r w1]; cbn [fst snd] in *; subst r; (eapply rtc_l; [exact Hs|]).
  1,2: apply publish_events_steps.
  eapply rtc_l; [eapply step_abort with (wk := WorkerID c)|]. as_sys w1. apply rtc_refl.
Qed.

(** ** No event is stuck *)

Lemma update_table_in (p : OutboxEvent -> bool) f (t : list OutboxEvent) (e : OutboxEvent) :
  e ∈ t -> (p e = true -> ID (f e) = ID e /\ PublishedAt (f e) = PublishedAt e) ->
  exists e', e' ∈ update p f t /\ e' = (if p e then f e else e) /\
             ID e' = ID e /\ PublishedAt e' = PublishedAt e.
Proof.
  intros He Hf. eexists. split; [by apply update_lookup|]. split; [done|].
  destruct (p e); auto.
Qed.

(** no unpublished event is ever stuck. From every reachable state, whatever
    worker holds its lock, once the lock timeout and the retry delay have
    passed a stale-lock release followed by a claim by any idle worker whose
    batch covers the table hands the event to that worker. *)
Theorem unpublished_is_claimable t s e wk (timeout : Z) :
  rtc step (init t) s -> e ∈ s_table s -> PublishedAt e = None ->
  worker_phase s wk = Idle ->
  exists s' rows e', rtc step s s' /\ worker_phase s' wk = Holding rows /\
    e' ∈ rows /\ ID e' = ID e /\ LockedBy e' = Some wk.
Proof.
  intros Hreach He Hp Hidle. pose proof (reachable_inv _ _ Hreach) as (Hnd & _ & _).
  set (t1 := Z.max (s_now s) (Z.max (AvailableAt e) (default 0 (LockedAt e) + timeout * Second + 1))).
  set (tb := ReleaseStaleLocks t1 timeout (s_table s)).
  set (s2 := {| s_now := t1; s_table := tb; s_broker := s_broker s; s_workers := s_workers s |}).
  assert (Hs2 : rtc step s s2).
  { eapply rtc_l; [eapply (step_tick s (t1 - s_now s)); unfold t1; lia|].
    eapply rtc_l; [eapply (step_release _ timeout)|]. simpl.
    replace (s_now s + (t1 - s_now s)) with t1 by lia. apply rtc_refl. }
  destruct (update_table_in (is_stale t1 timeout) (unlock_row t1) (s_table s) e He)
    as (e1 & He1 & Hdef & Hid1 & Hp1); [done|].
  assert (Hc1 : claimable t1 e1 = true).
  { apply claimable_spec. rewrite Hp1. split; [done|]. subst e1. unfold is_stale. rewrite Hp.
    destruct (LockedAt e) as [l|] eqn:El; simpl; [|split; [done|unfold t1; lia]].
    rewrite (proj2 (Z.ltb_lt _ _)) by (unfold t1; simpl; lia). split; [done|]. simpl. unfold t1; lia. }
  set (batch := Z.of_nat (length tb)).
  assert (Hin : ID e1 ∈ claim_ids t1 batch tb).
  { unfold claim_ids, batch. rewrite Nat2Z.id, take_ge.
    - rewrite merge_sort_Permutation. apply list_elem_of_fmap. exists e1. split; [done|].
      apply list_elem_of_filter. by split.
    - rewrite length_fmap, merge_sort_Permutation. apply length_filter. }
  destruct (ClaimPendingEvents t1 wk batch tb) as [rows t'] eqn:EC.
  exists (with_worker s2 wk (Holding rows) t' (s_broker s2)), rows, (lock_row t1 wk e1).
  split_and!.
  - eapply rtc_r; [exact Hs2|]. by eapply step_claim.
  - unfold worker_phase. simpl. by rewrite lookup_insert_eq.
  - unfold ClaimPendingEvents in EC. injection EC as <- _. apply list_elem_of_filter.
    split; [done|]. pose proof (update_lookup
      (fun e => bool_decide (ID e ∈ claim_ids t1 batch tb)) (lock_row t1 wk) tb e1 He1) as Hu.
    simpl in Hu. destruct (bool_decide_reflect (ID e1 ∈ claim_ids t1 batch tb)); done.
  - done.
  - done.
Qed.
End Invariant.

(** ** A run: one event, one worker *)
Section Run.
#[local] Existing Instance decimal_uuid.

Definition ex_row : OutboxEvent :=
  fst (InsertOutboxEvent 5 1 "call.created" "call" 2 "{}" ∅ None []).
Definition ex_config : Config :=
  {| WorkerID := "w"; BatchSize := 10; LockTimeout := Minute; RetryBaseDelay := 2 * Second;
     RetryMaxDelay := 5 * Minute |}.
Definition ex_world : World := {| now := 5; table := [ex_row]; broker := []; faults := [] |}.
Definition ex_inserted : System :=
  {| s_now := 5; s_table := [ex_row]; s_broker := []; s_workers := ∅ |}.
Definition ex_published_row : OutboxEvent := publish_row 5 (lock_row 5 "w" ex_row).
Definition ex_message : Message :=
  match prepare ex_row with
  | inl m => m
  | inr _ => {| msg_Subject := ""; msg_Payload := ""; msg_Headers := ∅; msg_ID := "" |}
  end.
Definition ex_published : System :=
  {| s_now := 5; s_table := [ex_published_row]; s_broker := [ex_message];
     s_workers := {["w" := Holding []]} |}.

Lemma ex_run_insert : rtc step (init 5) ex_inserted.
Proof.
  apply rtc_once. apply (step_insert (init 5) 1 "call.created" "call" 2 "{}" ∅ None).
  simpl. set_solver.
Qed.
Lemma ex_run_publish : rtc step ex_inserted ex_published.
Proof.
  eapply rtc_l; [eapply (step_claim _ "w" 10); [reflexivity|vm_compute; reflexivity]|].
  eapply rtc_l; [apply (step_send _ "w" (lock_row 5 "w" ex_row) [] ex_message); reflexivity|].
  eapply rtc_l; [apply (step_mark_published _ "w" (lock_row 5 "w" ex_row) [] (Holding []));
                 [reflexivity|by left]|].
  unfold with_worker. simpl. rewrite !insert_insert_eq. apply rtc_refl.
Qed.

Lemma published_was_sent_witness :
  uuid_String 1 ∈ msg_ID <$> s_broker ex_published /\
  LockedAt ex_published_row = None /\ LockedBy ex_published_row = None.
Proof.
  apply (published_was_sent 5 ex_published ex_published_row);
    [etrans; [apply ex_run_insert|apply ex_run_publish]|by left|by eexists].
Defined.

Lemma publication_final_witness :
  exists e', e' ∈ s_table ex_published /\ ID e' = 1 /\ PublishedAt e' = Some 5.
Proof.
  apply (publication_final ex_published ex_published ex_published_row 5);
    [apply rtc_refl|by left|reflexivity].
Defined.

Lemma publishBatch_refines_witness :
  rtc step (sys ex_world ∅) (sys (snd (publishBatch ex_config ex_world)) {["w" := Idle]}) /\
  ID <$> table (snd (publishBatch ex_config ex_world)) = [1].
Proof. split; [apply (publishBatch_refines ex_config ex_world ∅)|]; reflexivity. Defined.

Lemma unpublished_is_claimable_witness :
  exists s' rows e', rtc step ex_inserted s' /\ worker_phase s' "w" = Holding rows /\
    e' ∈ rows /\ ID e' = 1 /\ LockedBy e' = Some "w".
Proof.
  apply (unpublished_is_claimable 5 ex_inserted ex_row "w" 60);
    [apply ex_run_insert|by left|reflexivity..].
Defined.
End Run.
End Outbox.
