(* ===== verification/Redis.v ===== *)
(** * Redis client

    [server/internal/integrations/redis/cache.go]: the commands the client and its
    Lua scripts send, over one keyspace with typed values and key expiry, and
    the client's methods. A script runs atomically and keeps the effects of the
    commands before a failing one. Scores are the millisecond timestamps the
    client computes; the server has a clock of its own. *)

From S2P Require Import Prelude.

Module Redis.
Inductive value : Type :=
| VStr (s : string)
| VZset (members : gmap string Z)
| VHash (fields : gmap string string).

(** [e_exp]: the server time, in milliseconds, after which the key is gone. *)
Record entry := { e_val : value; e_exp : option Z }.
Record Store := { s_now : Z; s_keys : gmap string entry }.

Definition live (now : Z) (e : entry) : bool :=
  match e_exp e with Some t => now <=? t | None => true end.

Definition lookup_key (k : string) (s : Store) : option entry :=
  match s_keys s !! k with
  | Some e => if live (s_now s) e then Some e else None
  | None => None
  end.
Definition put (k : string) (v : value) (exp : option Z) (s : Store) : Store :=
  {| s_now := s_now s; s_keys := <[k := {| e_val := v; e_exp := exp |}]> (s_keys s) |}.
Definition del (k : string) (s : Store) : Store :=
  {| s_now := s_now s; s_keys := delete k (s_keys s) |}.
Definition expiry (k : string) (s : Store) : option Z :=
  match lookup_key k s with Some e => e_exp e | None => None end.

Definition WRONGTYPE : error := Errorf "WRONGTYPE" [].
Definition ErrNil : string := "redis: nil".

(** ** Commands *)

Definition get_str (k : string) (s : Store) : result (option string) :=
  match lookup_key k s with
  | None => inl None
  | Some {| e_val := VStr v |} => inl (Some v)
  | Some _ => inr WRONGTYPE
  end.
Definition get_zset (k : string) (s : Store) : result (gmap string Z) :=
  match lookup_key k s with
  | None => inl ∅
  | Some {| e_val := VZset m |} => inl m
  | Some _ => inr WRONGTYPE
  end.
Definition get_hash (k : string) (s : Store) : result (gmap string string) :=
  match lookup_key k s with
  | None => inl ∅
  | Some {| e_val := VHash m |} => inl m
  | Some _ => inr WRONGTYPE
  end.

(** A collection that becomes empty is removed with its expiry; a write to an
    existing key keeps the expiry. *)
Definition write_zset (k : string) (m : gmap string Z) (s : Store) : Store :=
  if decide (m = ∅) then del k s else put k (VZset m) (expiry k s) s.

Definition read {A} (f : Store -> result A) : M Store A := fun s => (f s, s).

(** The integer a string value stands for: canonical decimal, 64 bits. *)
Definition counter_value (v : string) : option Z :=
  match ParseInt v with
  | Some z => if decide (show_int z = v) then Some z else None
  | None => None
  end.
Definition not_an_integer : error := Errorf "ERR value is not an integer or out of range" [].
Definition counter_add (v : option string) (d : Z) : result Z :=
  match counter_value (default "0" v) with
  | None => inr not_an_integer
  | Some z => if (min_int64 <=? z + d) && (z + d <=? max_int64) then inl (z + d)
              else inr (Errorf "ERR increment or decrement would overflow" [])
  end.

Definition GET (k : string) : M Store string :=
  let! v := read (get_str k) in
  match v with Some s => ret s | None => throw (Sentinel ErrNil) end.
(** [ttl] in milliseconds; none stores the value without expiry. *)
Definition SET (k v : string) (ttl : option Z) : M Store unit :=
  modify (fun s => put k (VStr v) ((fun t => s_now s + t) <$> ttl) s).
Definition DEL (ks : list string) : M Store unit :=
  modify (fun s => fold_left (fun s k => del k s) ks s).
Definition EXISTS (k : string) : M Store Z :=
  gets (fun s => match lookup_key k s with Some _ => 1 | None => 0 end).
Definition INCR (k : string) : M Store Z :=
  let! v := read (get_str k) in
  let! z := lift (counter_add v 1) in
  modify (fun s => put k (VStr (show_int z)) (expiry k s) s);;
  ret z.
(** A TTL that is not positive deletes the key. *)
Definition PEXPIRE (k : string) (ms : Z) : M Store unit :=
  modify (fun s => match lookup_key k s with
                   | None => s
                   | Some e => if ms <=? 0 then del k s
                               else put k (e_val e) (Some (s_now s + ms)) s
                   end).
Definition ZREMRANGEBYSCORE_upto (k : string) (max : Z) : M Store unit :=
  let! m := read (get_zset k) in
  modify (write_zset k (filter (fun '(_, score) => max < score) m)).
Definition ZSCORE (k member : string) : M Store (option Z) :=
  let! m := read (get_zset k) in ret (m !! member).
Definition ZADD (k : string) (score : Z) (member : string) : M Store unit :=
  let! m := read (get_zset k) in modify (write_zset k (<[member := score]> m)).
Definition ZREM (k member : string) : M Store unit :=
  let! m := read (get_zset k) in modify (write_zset k (delete member m)).
Definition ZCARD (k : string) : M Store Z :=
  let! m := read (get_zset k) in ret (Z.of_nat (size m)).
Definition HEXISTS (k field : string) : M Store bool :=
  let! m := read (get_hash k) in ret (bool_decide (is_Some (m !! field))).
Definition HLEN (k : string) : M Store Z :=
  let! m := read (get_hash k) in ret (Z.of_nat (size m)).
Definition HSET (k field v : string) : M Store unit :=
  let! m := read (get_hash k) in
  modify (fun s => put k (VHash (<[field := v]> m)) (expiry k s) s).
Definition HINCRBY (k field : string) (d : Z) : M Store unit :=
  let! m := read (get_hash k) in
  let! z := lift (counter_add (m !! field) d) in
  modify (fun s => put k (VHash (<[field := show_int z]> m)) (expiry k s) s).
Definition HGETALL (k : string) : M Store (gmap string string) := read (get_hash k).

(** ** Client methods (cache.go) *)

(** The receiver and the context: [nil] or not. *)
Inductive Client := NilClient | Connected.
Inductive Ctx := NilCtx | Background.

Definition validate (c : Client) : M Store unit :=
  match c with NilClient => throw (Errorf "redis client is nil" []) | Connected => ret tt end.
Definition validateKey (c : Client) (key : string) : M Store unit :=
  validate c;;
  throw_if (bool_decide (key = "")) (Errorf "redis key is required" []).
Definition is_nil (ctx : Ctx) : bool := match ctx with NilCtx => true | Background => false end.
Definition ctx_required (ctx : Ctx) : M Store unit :=
  throw_if (is_nil ctx) (Errorf "redis context is nil" []).

(** [time.Duration.Milliseconds]. *)
Definition Milliseconds (d : Z) : Z := go_div d Millisecond.

Definition Get (c : Client) (ctx : Ctx) (key : string) : M Store string :=
  validateKey c key;; ctx_required ctx;; GET key.

Definition Set_ (c : Client) (ctx : Ctx) (key value : string) (ttl : Z) : M Store unit :=
  validateKey c key;; ctx_required ctx;;
  SET key value (if ttl <=? 0 then None else Some (Z.max 1 (Milliseconds ttl))).

Definition Delete (c : Client) (ctx : Ctx) (keys : list string) : M Store unit :=
  validate c;; ctx_required ctx;;
  match keys with
  | [] => ret tt
  | _ =>
      throw_if (existsb (fun k => bool_decide (k = "")) keys)
        (Errorf "redis key is required" []);;
      DEL keys
  end.

Definition Exists (c : Client) (ctx : Ctx) (key : string) : M Store bool :=
  validateKey c key;; ctx_required ctx;;
  let! count := EXISTS key in ret (0 <? count).

Definition fixed_window_script (key : string) (window_ms limit : Z) : M Store bool :=
  let! current := INCR key in
  (if current =? 1 then PEXPIRE key window_ms else ret tt);;
  ret (current <=? limit).

Definition AllowFixedWindow (c : Client) (ctx : Ctx) (key : string) (limit window : Z)
    : M Store bool :=
  validateKey c key;; ctx_required ctx;;
  throw_if (limit <=? 0) (Errorf "rate limit must be positive" []);;
  throw_if (window <=? 0) (Errorf "rate limit window must be positive" []);;
  wrap (Wrapf "apply Redis fixed-window rate limit: %w" [])
    (fixed_window_script key (Milliseconds window) limit).

Definition acquire_script (cps_key leases_key : string)
    (now max_cps max_concurrent score : Z) (lease : string) (ttl_ms : Z) : M Store string :=
  ZREMRANGEBYSCORE_upto leases_key now;;
  let! existing := ZSCORE leases_key lease in
  match existing with
  | Some _ =>
      ZADD leases_key score lease;;
      PEXPIRE leases_key ttl_ms;;
      ret "ok"
  | None =>
      let! cps := INCR cps_key in
      (if cps =? 1 then PEXPIRE cps_key 1000 else ret tt);;
      if max_cps <? cps then ret "cps" else
      let! card := ZCARD leases_key in
      if max_concurrent <=? card then ret "concurrent" else
      ZADD leases_key score lease;;
      PEXPIRE leases_key ttl_ms;;
      ret "ok"
  end.

Definition cps_key (prefix : string) : string := prefix +:+ ":cps".
Definition leases_key (prefix : string) : string := prefix +:+ ":leases".

(** [now]: the clock of the caller, in milliseconds. *)
Definition AcquireCallLease (c : Client) (ctx : Ctx) (now : Z) (prefix leaseID : string)
    (maxCPS maxConcurrent ttl : Z) : M Store (bool * string) :=
  validateKey c prefix;;
  throw_if (is_nil ctx || bool_decide (leaseID = "") || (maxCPS <=? 0)
              || (maxConcurrent <=? 0) || (ttl <=? 0))
    (Errorf "valid call lease context, id, limits, and TTL are required" []);;
  let! reason := wrap (Wrapf "acquire Redis call lease: %w" [])
    (acquire_script (cps_key prefix) (leases_key prefix) now maxCPS maxConcurrent
       (now + Milliseconds ttl) leaseID (Milliseconds ttl)) in
  ret (bool_decide (reason = "ok"), reason).

Definition bind_script (key leaseID callID : string) : M Store bool :=
  let! score := ZSCORE key leaseID in
  match score with
  | None => ret false
  | Some score => ZREM key leaseID;; ZADD key score callID;; ret true
  end.

Definition BindCallLease (c : Client) (ctx : Ctx) (prefix leaseID callID : string)
    : M Store unit :=
  validateKey c prefix;;
  throw_if (is_nil ctx || bool_decide (leaseID = "") || bool_decide (callID = ""))
    (Errorf "call lease context, lease id, and call id are required" []);;
  let! bound := wrap (Wrapf "bind Redis call lease: %w" [])
    (bind_script (leases_key prefix) leaseID callID) in
  throw_if (negb bound) (Errorf "call lease expired before binding" []).

Definition ReleaseCallLease (c : Client) (ctx : Ctx) (prefix callOrLeaseID : string)
    : M Store unit :=
  validateKey c prefix;;
  throw_if (is_nil ctx || bool_decide (callOrLeaseID = ""))
    (Errorf "call lease context and id are required" []);;
  wrap (Wrapf "release Redis call lease: %w" []) (ZREM (leases_key prefix) callOrLeaseID).

Definition RefreshCallLease (c : Client) (ctx : Ctx) (now : Z) (prefix callID : string) (ttl : Z)
    : M Store unit :=
  validateKey c prefix;;
  throw_if (is_nil ctx || bool_decide (callID = "") || (ttl <=? 0))
    (Errorf "call lease context, id, and TTL are required" []);;
  wrap (Wrapf "refresh Redis call lease: %w" [])
    (ZADD (leases_key prefix) (now + Milliseconds ttl) callID);;
  wrap (Wrapf "expire refreshed Redis call leases: %w" [])
    (PEXPIRE (leases_key prefix) (Milliseconds ttl)).

Definition counters_key : string := "telecom:metrics:counters".
Definition gauges_key : string := "telecom:metrics:gauges".

Definition metric_required (ctx : Ctx) (field : string) (maxSeries : Z) : M Store unit :=
  throw_if (is_nil ctx || bool_decide (field = "") || (maxSeries <=? 0))
    (Errorf "metric context, field, and series limit are required" []).

(** The guard both metric scripts start with. *)
Definition series_allowed (key field : string) (maxSeries : Z) : M Store bool :=
  let! known := HEXISTS key field in
  if known then ret true else
  let! len := HLEN key in ret (negb (maxSeries <=? len)).

Definition IncrementMetric (ctx : Ctx) (field : string) (maxSeries : Z) : M Store unit :=
  metric_required ctx field maxSeries;;
  wrap (Wrapf "increment shared telecom metric: %w" [])
    (let! allowed := series_allowed counters_key field maxSeries in
     if allowed then HINCRBY counters_key field 1 else ret tt).

(** [value]: the decimal text the client library prints for the [float64]. *)
Definition SetMetricGauge (ctx : Ctx) (field value : string) (maxSeries : Z) : M Store unit :=
  metric_required ctx field maxSeries;;
  wrap (Wrapf "set shared telecom metric gauge: %w" [])
    (let! allowed := series_allowed gauges_key field maxSeries in
     if allowed then HSET gauges_key field value else ret tt).

Definition TelecomMetrics (ctx : Ctx) : M Store (gmap string string * gmap string string) :=
  throw_if (is_nil ctx) (Errorf "metric context is required" []);;
  let! counters := wrap (Wrapf "read shared telecom counters: %w" []) (HGETALL counters_key) in
  let! gauges := wrap (Wrapf "read shared telecom gauges: %w" []) (HGETALL gauges_key) in
  ret (counters, gauges).

(** ** Keys are independent *)

Lemma lookup_put k v exp s :
  lookup_key k (put k v exp s) =
  let e := {| e_val := v; e_exp := exp |} in if live (s_now s) e then Some e else None.
Proof. unfold lookup_key, put. simpl. by rewrite lookup_insert_eq. Qed.
Lemma lookup_put_ne k k' v exp s : k <> k' -> lookup_key k (put k' v exp s) = lookup_key k s.
Proof. intros. unfold lookup_key, put. simpl. by rewrite lookup_insert_ne. Qed.
Lemma lookup_del k s : lookup_key k (del k s) = None.
Proof. unfold lookup_key, del. simpl. by rewrite lookup_delete_eq. Qed.
Lemma lookup_del_ne k k' s : k <> k' -> lookup_key k (del k' s) = lookup_key k s.
Proof. intros. unfold lookup_key, del. simpl. by rewrite lookup_delete_ne. Qed.
(** The expiry kept by a write does not kill the key. *)
Lemma live_expiry k v s : live (s_now s) {| e_val := v; e_exp := expiry k s |} = true.
Proof.
  unfold expiry, lookup_key, live. simpl. destruct (s_keys s !! k) as [e|]; [|done].
  destruct (e_exp e) as [t|] eqn:E; simpl; [|by rewrite E].
  destruct (s_now s <=? t) eqn:E'; [by rewrite E|done].
Qed.
Lemma lookup_put_keep k v s :
  lookup_key k (put k v (expiry k s) s) = Some {| e_val := v; e_exp := expiry k s |}.
Proof. rewrite lookup_put. cbv zeta. by rewrite live_expiry. Qed.

Lemma get_zset_write k m s : get_zset k (write_zset k m s) = inl m.
Proof.
  unfold get_zset, write_zset. case_decide as E.
  - rewrite lookup_del. by subst.
  - by rewrite lookup_put_keep.
Qed.

(** A computation that leaves the key [k] alone. *)
Definition frames {A} (k : string) (m : M Store A) : Prop :=
  forall o, keeps (fun s => lookup_key k s = o) m.

Section Frames.
Context (k k' : string) (Hne : k <> k').
Lemma frames_write_zset (f : Store -> gmap string Z) :
  frames k (modify (fun s => write_zset k' (f s) s)).
Proof.
  intros o. apply keeps_modify. intros s Hs. unfold write_zset.
  case_decide; rewrite ?lookup_del_ne, ?lookup_put_ne by done; done.
Qed.
Lemma frames_put (f : Store -> value) g : frames k (modify (fun s => put k' (f s) (g s) s)).
Proof. intros o. apply keeps_modify. intros s Hs. by rewrite lookup_put_ne. Qed.
Lemma frames_read {A} (f : Store -> result A) : frames k (read f).
Proof. intros o s Hs. done. Qed.
Lemma frames_PEXPIRE ms : frames k (PEXPIRE k' ms).
Proof.
  intros o. apply keeps_modify. intros s Hs. destruct (lookup_key k' s); [|done].
  destruct (ms <=? 0); by rewrite ?lookup_del_ne, ?lookup_put_ne.
Qed.
End Frames.
#[export] Hint Extern 1 (keeps (fun s => lookup_key _ s = _) _) =>
  (apply frames_write_zset || apply frames_put || apply frames_read || apply frames_PEXPIRE);
  done : keeps.

Lemma frames_INCR k k' : k <> k' -> frames k (INCR k').
Proof. intros ? o. unfold INCR. keeps_tac. Qed.
Lemma frames_ZADD k k' score m : k <> k' -> frames k (ZADD k' score m).
Proof. intros ? o. unfold ZADD. keeps_tac. Qed.
Lemma frames_ZREM k k' m : k <> k' -> frames k (ZREM k' m).
Proof. intros ? o. unfold ZREM. keeps_tac. Qed.
Lemma frames_ZREMRANGE k k' n : k <> k' -> frames k (ZREMRANGEBYSCORE_upto k' n).
Proof. intros ? o. unfold ZREMRANGEBYSCORE_upto. keeps_tac. Qed.
Lemma frames_SET k k' v ttl : k <> k' -> frames k (SET k' v ttl).
Proof. intros ? o. unfold SET. keeps_tac. Qed.
Lemma frames_ZSCORE k k' m : frames k (ZSCORE k' m).
Proof. intros o. unfold ZSCORE. keeps_tac. Qed.
Lemma frames_ZCARD k k' : frames k (ZCARD k').
Proof. intros o. unfold ZCARD. keeps_tac. Qed.
Lemma frames_GET k k' : frames k (GET k').
Proof. intros o. unfold GET. keeps_tac. Qed.
#[export] Hint Extern 1 (keeps (fun s => lookup_key _ s = _) _) =>
  (apply frames_INCR || apply frames_ZADD || apply frames_ZREM || apply frames_ZREMRANGE
   || apply frames_SET || apply frames_ZSCORE || apply frames_ZCARD || apply frames_GET);
  done : keeps.

(** ** Leases: the members of a sorted set, and their number *)

Definition leases (k : string) (s : Store) : gmap string Z :=
  match get_zset k s with inl m => m | inr _ => ∅ end.
Definition purge (now : Z) (m : gmap string Z) : gmap string Z :=
  filter (fun '(_, score) => now < score) m.

Lemma leases_frame {A} k (m : M Store A) s :
  frames k m -> leases k (snd (m s)) = leases k s.
Proof.
  intros Hf. unfold leases, get_zset. by rewrite (Hf (lookup_key k s) s eq_refl).
Qed.
Lemma leases_write k m s : leases k (write_zset k m s) = m.
Proof. unfold leases. by rewrite get_zset_write. Qed.
Lemma leases_PEXPIRE k ms s :
  leases k (snd (PEXPIRE k ms s)) = leases k s \/ leases k (snd (PEXPIRE k ms s)) = ∅.
Proof.
  unfold PEXPIRE, modify. simpl. unfold leases, get_zset.
  destruct (lookup_key k s) as [e|] eqn:E; [|by rewrite E; left].
  destruct (Z.leb_spec ms 0); [rewrite lookup_del; by right|].
  rewrite lookup_put. unfold live. simpl. rewrite (proj2 (Z.leb_le _ _)) by lia.
  destruct e; by left.
Qed.
(** A key with a positive TTL is alive. *)
Lemma leases_PEXPIRE_pos k ms s : 0 < ms -> leases k (snd (PEXPIRE k ms s)) = leases k s.
Proof.
  intros Hms. unfold PEXPIRE, modify. simpl. unfold leases, get_zset.
  destruct (lookup_key k s) as [e|] eqn:E; [|by rewrite E].
  rewrite (proj2 (Z.leb_gt _ _)) by lia. rewrite lookup_put. unfold live. simpl.
  rewrite (proj2 (Z.leb_le _ _)) by lia. by destruct e.
Qed.

Lemma size_purge now m : (size (purge now m) <= size m)%nat.
Proof. apply map_subseteq_size, map_filter_subseteq. Qed.
Lemma size_insert_present {A} (m : gmap string A) i x :
  is_Some (m !! i) -> size (<[i := x]> m) = size m.
Proof. intros [y Hy]. by rewrite map_size_insert, Hy. Qed.
Lemma size_insert_le {A} (m : gmap string A) i x : (size (<[i := x]> m) <= S (size m))%nat.
Proof. rewrite map_size_insert. destruct (m !! i); simpl; lia. Qed.
(** Renaming a member does not add one. *)
Lemma size_rename (m : gmap string Z) i j x :
  is_Some (m !! i) -> (size (<[j := x]> (delete i m)) <= size m)%nat.
Proof.
  intros [y Hy]. pose proof (size_insert_le (delete i m) j x).
  rewrite map_size_delete, Hy in H. simpl in H.
  assert (size m <> 0%nat) by (rewrite map_size_ne_0_lookup; eauto). lia.
Qed.

(** ** The commands on a sorted set *)

Lemma ZREMRANGE_run k now m s :
  get_zset k s = inl m ->
  ZREMRANGEBYSCORE_upto k now s = (inl tt, write_zset k (purge now m) s).
Proof. intros H. unfold ZREMRANGEBYSCORE_upto, bind, read, modify. by rewrite H. Qed.
Lemma ZSCORE_run k i m s : get_zset k s = inl m -> ZSCORE k i s = (inl (m !! i), s).
Proof. intros H. unfold ZSCORE, bind, read. by rewrite H. Qed.
Lemma ZCARD_run k m s : get_zset k s = inl m -> ZCARD k s = (inl (Z.of_nat (size m)), s).
Proof. intros H. unfold ZCARD, bind, read. by rewrite H. Qed.
Lemma ZADD_run k score i m s :
  get_zset k s = inl m -> ZADD k score i s = (inl tt, write_zset k (<[i := score]> m) s).
Proof. intros H. unfold ZADD, bind, read, modify. by rewrite H. Qed.
Lemma ZREM_run k i m s :
  get_zset k s = inl m -> ZREM k i s = (inl tt, write_zset k (delete i m) s).
Proof. intros H. unfold ZREM, bind, read, modify. by rewrite H. Qed.
Lemma PEXPIRE_run k ms s : fst (PEXPIRE k ms s) = inl tt.
Proof. done. Qed.
Lemma zset_leases k s m : get_zset k s = inl m -> leases k s = m.
Proof. unfold leases. by intros ->. Qed.
Lemma zset_frame {A} k (m : M Store A) s : frames k m -> get_zset k (snd (m s)) = get_zset k s.
Proof. intros Hf. unfold get_zset. by rewrite (Hf (lookup_key k s) s eq_refl). Qed.

(** The tail of both branches that grant a lease. *)
Definition grant (k : string) (score : Z) (lease : string) (ttl : Z) : M Store string :=
  ZADD k score lease;; PEXPIRE k ttl;; ret "ok".
Lemma grant_run k score lease ttl m s :
  get_zset k s = inl m ->
  fst (grant k score lease ttl s) = inl "ok" /\
  (leases k (snd (grant k score lease ttl s)) = <[lease := score]> m \/
   leases k (snd (grant k score lease ttl s)) = ∅) /\
  (0 < ttl -> leases k (snd (grant k score lease ttl s)) = <[lease := score]> m).
Proof.
  intros Hm. set (s1 := write_zset k (<[lease := score]> m) s).
  assert (grant k score lease ttl s = (inl "ok", snd (PEXPIRE k ttl s1))) as ->.
  { unfold grant. by rewrite (bind_eq _ _ _ _ _ (ZADD_run _ score lease _ _ Hm)). }
  pose proof (leases_write k (<[lease := score]> m) s) as Hw. fold s1 in Hw.
  split; [done|]. rewrite <- Hw. split; [apply leases_PEXPIRE|].
  intros Ht. simpl snd. by apply leases_PEXPIRE_pos.
Qed.

(** The counter step of the script. *)
Definition count_cps (k : string) : M Store Z :=
  let! cps := INCR k in (if cps =? 1 then PEXPIRE k 1000 else ret tt);; ret cps.
Lemma frames_count_cps k k' : k <> k' -> frames k (count_cps k').
Proof. intros ? o. unfold count_cps. keeps_tac. Qed.
Lemma count_cps_run k v n s :
  get_str k s = inl v -> counter_add v 1 = inl n -> fst (count_cps k s) = inl n.
Proof.
  intros Hv Hn. unfold count_cps, INCR, bind, read, lift, modify. rewrite Hv, Hn. simpl.
  by destruct (n =? 1).
Qed.

(** The script once expired leases are purged. *)
Lemma acquire_script_run ck lk now cps conc score lease ttl s m :
  get_zset lk s = inl m ->
  acquire_script ck lk now cps conc score lease ttl s =
  let s1 := write_zset lk (purge now m) s in
  if decide (is_Some (purge now m !! lease)) then grant lk score lease ttl s1 else
  match count_cps ck s1 with
  | (inr e, s2) => (inr e, s2)
  | (inl n, s2) =>
      if cps <? n then (inl "cps", s2) else
      (let! card := ZCARD lk in
       if conc <=? card then ret "concurrent" else grant lk score lease ttl) s2
  end.
Proof.
  intros Hm. unfold acquire_script. cbv zeta.
  rewrite (bind_eq _ _ _ _ _ (ZREMRANGE_run _ now _ _ Hm)).
  pose proof (get_zset_write lk (purge now m) s) as H1.
  rewrite (bind_eq _ _ _ _ _ (ZSCORE_run _ lease _ _ H1)).
  destruct (purge now m !! lease) as [z|].
  { by rewrite decide_True by eauto. }
  rewrite decide_False by (by intros [? ?]).
  unfold count_cps, grant, bind. destruct (INCR ck _) as [[n|e] s2]; [|done].
  destruct ((if n =? 1 then PEXPIRE ck 1000 else ret tt) s2) as [[u|e] s3]; [|done].
  unfold ret. by destruct (cps <? n).
Qed.

Lemma acquire_script_bound ck lk now cps conc score lease ttl n s :
  ck <> lk -> conc <= Z.of_nat n ->
  (size (leases lk s) <= n)%nat ->
  (size (leases lk (snd (acquire_script ck lk now cps conc score lease ttl s))) <= n)%nat.
Proof.
  intros Hne Hc Hs. destruct (get_zset lk s) as [m|e] eqn:Hm.
  2: { unfold acquire_script, ZREMRANGEBYSCORE_upto, bind, read. by rewrite Hm. }
  rewrite (acquire_script_run _ _ _ _ _ _ _ _ _ _ Hm). cbv zeta.
  apply zset_leases in Hm. rewrite Hm in Hs.
  pose proof (size_purge now m) as Hp.
  pose proof (get_zset_write lk (purge now m) s) as H1.
  set (s1 := write_zset lk (purge now m) s) in *.
  case_decide as Hin.
  { destruct (grant_run _ score lease ttl _ _ H1) as (_ & [->| ->] & _); [|rewrite map_size_empty; lia].
    rewrite size_insert_present by done. lia. }
  pose proof (zset_frame lk (count_cps ck) s1 (frames_count_cps lk ck (not_eq_sym Hne))) as H2.
  rewrite H1 in H2. destruct (count_cps ck s1) as [[v|e] s2]; simpl in H2 |- *.
  2: { rewrite (zset_leases _ _ _ H2). lia. }
  destruct (cps <? v); [simpl; rewrite (zset_leases _ _ _ H2); lia|].
  rewrite (bind_eq _ _ _ _ _ (ZCARD_run _ _ _ H2)).
  destruct (Z.leb_spec conc (Z.of_nat (size (purge now m)))).
  { simpl. rewrite (zset_leases _ _ _ H2). lia. }
  destruct (grant_run _ score lease ttl _ _ H2) as (_ & [->| ->] & _); [|rewrite map_size_empty; lia].
  pose proof (size_insert_le (purge now m) lease score). lia.
Qed.

Lemma frames_grant k k' score lease ttl : k <> k' -> frames k (grant k' score lease ttl).
Proof. intros ? o. unfold grant. keeps_tac. Qed.

(** The two keys of a limiter differ, whatever the prefixes. *)
Lemma keys_differ p q : cps_key p <> leases_key q.
Proof.
  unfold cps_key, leases_key. intros H. apply (f_equal String.list_ascii_of_string) in H.
  rewrite !list_ascii_app in H. apply (f_equal reverse) in H.
  rewrite !reverse_app in H. discriminate H.
Qed.
(** With valid arguments the method is the script and its verdict. *)
Lemma AcquireCallLease_run now prefix lease cps conc ttl s :
  prefix <> "" -> lease <> "" -> 0 < cps -> 0 < conc -> 0 < ttl ->
  AcquireCallLease Connected Background now prefix lease cps conc ttl s =
  match acquire_script (cps_key prefix) (leases_key prefix) now cps conc (now + Milliseconds ttl)
          lease (Milliseconds ttl) s with
  | (inl r, s') => (inl (bool_decide (r = "ok"), r), s')
  | (inr e, s') => (inr (Wrapf "acquire Redis call lease: %w" [] e), s')
  end.
Proof.
  intros Hp Hl Hcps Hconc Httl. unfold AcquireCallLease, validateKey, bind, wrap. simpl.
  rewrite !bool_decide_false, !(proj2 (Z.leb_gt _ _)) by done. simpl.
  by destruct (acquire_script _ _ _ _ _ _ _ _ _) as [[]].
Qed.

(** the decision of [AcquireCallLease] on every branch, with [m'] the leases
    that have not expired and [n] the attempts of this second including this one. A
    lease that is already held is renewed without an attempt being counted;
    otherwise the rate is tested before the capacity, and only a granted
    request changes the leases. *)
Theorem AcquireCallLease_spec now prefix lease cps conc ttl s m v n :
  prefix <> "" -> lease <> "" -> 0 < cps -> 0 < conc -> Millisecond <= ttl ->
  get_zset (leases_key prefix) s = inl m ->
  get_str (cps_key prefix) s = inl v -> counter_add v 1 = inl n ->
  let r := AcquireCallLease Connected Background now prefix lease cps conc ttl s in
  let m' := purge now m in
  let granted := <[lease := now + Milliseconds ttl]> m' in
  if decide (is_Some (m' !! lease))
  then fst r = inl (true, "ok") /\ leases (leases_key prefix) (snd r) = granted /\
       get_str (cps_key prefix) (snd r) = inl v
  else if cps <? n
  then fst r = inl (false, "cps") /\ leases (leases_key prefix) (snd r) = m'
  else if conc <=? Z.of_nat (size m')
  then fst r = inl (false, "concurrent") /\ leases (leases_key prefix) (snd r) = m'
  else fst r = inl (true, "ok") /\ leases (leases_key prefix) (snd r) = granted.
Proof.
  intros Hp Hl Hcps Hconc Httl Hm Hv Hn. cbv zeta.
  assert (0 < Milliseconds ttl) as Hms by (apply Z.quot_str_pos; unfold Millisecond in *; lia).
  set (lk := leases_key prefix) in *. set (ck := cps_key prefix) in *.
  assert (ck <> lk) as Hne by apply keys_differ.
  rewrite AcquireCallLease_run by (done || unfold Millisecond in *; lia). fold ck lk.
  rewrite (acquire_script_run _ _ _ _ _ _ _ _ _ _ Hm).
  cbv zeta. pose proof (get_zset_write lk (purge now m) s) as H1.
  assert (Hck : get_str ck (write_zset lk (purge now m) s) = inl v).
  { rewrite <- Hv. unfold get_str, write_zset.
    case_decide; rewrite ?lookup_del_ne, ?lookup_put_ne by done; done. }
  set (s1 := write_zset lk (purge now m) s) in *.
  assert (Hgrant : forall s0, get_zset lk s0 = inl (purge now m) ->
    exists s', grant lk (now + Milliseconds ttl) lease (Milliseconds ttl) s0 = (inl "ok", s') /\
      leases lk s' = <[lease := now + Milliseconds ttl]> (purge now m) /\
      get_str ck s' = get_str ck s0).
  { intros s0 H0. destruct (grant_run lk (now + Milliseconds ttl) lease (Milliseconds ttl) _ _ H0)
      as (Hr & _ & Hlv). pose proof (frames_grant ck lk (now + Milliseconds ttl) lease
      (Milliseconds ttl) Hne (lookup_key ck s0) s0 eq_refl) as Hf.
    destruct (grant _ _ _ _ s0) as [r s']. simpl in *. subst r. exists s'.
    split; [done|]. split; [auto|]. unfold get_str. by rewrite Hf. }
  case_decide as Hin.
  { destruct (Hgrant s1 H1) as (s' & -> & ? & Hk). simpl. by rewrite Hk, Hck. }
  pose proof (count_cps_run ck v n s1 Hck Hn) as Hc.
  pose proof (zset_frame lk (count_cps ck) s1 (frames_count_cps lk ck (not_eq_sym Hne))) as H2.
  rewrite H1 in H2. destruct (count_cps ck s1) as [r s2]. simpl in Hc, H2. subst r.
  destruct (cps <? n); [split; [done|]; by apply zset_leases|].
  rewrite (bind_eq _ _ _ _ _ (ZCARD_run _ _ _ H2)).
  destruct (conc <=? _); [split; [done|]; by apply zset_leases|].
  by destruct (Hgrant s2 H2) as (s' & -> & ? & _).
Qed.

Definition ex_store (now : Z) : Store :=
  {| s_now := now;
     s_keys := {["t:leases" := {| e_val := VZset {["old" := 5; "live" := 5000]}; e_exp := None |}]} |}.

Lemma AcquireCallLease_spec_witness :
  let r := AcquireCallLease Connected Background 1000 "t" "new" 10 2 Hour (ex_store 1000) in
  fst r = inl (true, "ok") /\
  leases "t:leases" (snd r) = {["live" := 5000; "new" := 3601000]}.
Proof.
  pose proof (AcquireCallLease_spec 1000 "t" "new" 10 2 Hour (ex_store 1000)
    {["old" := 5; "live" := 5000]} None 1 ltac:(done) ltac:(done) ltac:(done) ltac:(done)
    ltac:(done) ltac:(vm_compute; reflexivity) ltac:(vm_compute; reflexivity)
    ltac:(vm_compute; reflexivity)) as H.
  vm_compute in H |- *. exact H.
Defined.

(** ** The fixed window *)

Definition at_time (t : Z) (s : Store) : Store := {| s_now := t; s_keys := s_keys s |}.

(** Calls for one key at the server times [ts]. *)
Fixpoint arrivals (key : string) (limit window : Z) (ts : list Z) : M Store (list bool) :=
  match ts with
  | [] => ret []
  | t :: ts' =>
      modify (at_time t);;
      let! b := AllowFixedWindow Connected Background key limit window in
      let! bs := arrivals key limit window ts' in
      ret (b :: bs)
  end.

Lemma AllowFixedWindow_run key limit window s :
  key <> "" -> 0 < limit -> 0 < window ->
  AllowFixedWindow Connected Background key limit window s =
  wrap (Wrapf "apply Redis fixed-window rate limit: %w" [])
    (fixed_window_script key (Milliseconds window) limit) s.
Proof.
  intros. unfold AllowFixedWindow, validateKey, bind. simpl.
  by rewrite bool_decide_false, !(proj2 (Z.leb_gt _ _)) by done.
Qed.

Lemma show_int_counter z d :
  0 <= z -> z + d <= max_int64 -> 0 <= d -> counter_add (Some (show_int z)) d = inl (z + d).
Proof.
  intros Hz Hd Hd0. unfold counter_add, counter_value, ParseInt. simpl.
  unfold show_int at 1. rewrite String.list_ascii_of_string_of_list_ascii.
  rewrite format_int_parse by (unfold min_int64, max_int64 in *; lia).
  rewrite decide_True by done.
  by rewrite !(proj2 (Z.leb_le _ _)) by (unfold min_int64, max_int64 in *; lia).
Qed.

(** The counter stands at [i] and lives until [e]. *)
Definition counting (key : string) (i e : Z) (s : Store) : Prop :=
  s_keys s !! key = Some {| e_val := VStr (show_int i); e_exp := Some e |}.

Lemma window_next key limit window i e t s :
  key <> "" -> 0 < limit -> 0 < window -> t <= e -> 0 < i < max_int64 -> counting key i e s ->
  exists s', AllowFixedWindow Connected Background key limit window (at_time t s)
               = (inl (i + 1 <=? limit), s') /\ counting key (i + 1) e s'.
Proof.
  intros Hk Hl Hw Ht Hi Hc. rewrite AllowFixedWindow_run by done.
  assert (He : lookup_key key (at_time t s)
               = Some {| e_val := VStr (show_int i); e_exp := Some e |}).
  { unfold lookup_key. simpl. rewrite Hc. unfold live. simpl.
    by rewrite (proj2 (Z.leb_le _ _)) by lia. }
  unfold wrap, fixed_window_script, INCR, bind, read, lift, modify, get_str, expiry. rewrite He.
  rewrite show_int_counter by lia. simpl. rewrite (proj2 (Z.eqb_neq _ _)) by lia. simpl.
  eexists. split; [done|]. unfold counting. simpl. by rewrite lookup_insert_eq.
Qed.

Lemma window_first key limit window t s :
  key <> "" -> 0 < limit -> Millisecond <= window -> lookup_key key (at_time t s) = None ->
  exists s', AllowFixedWindow Connected Background key limit window (at_time t s)
               = (inl (1 <=? limit), s') /\ counting key 1 (t + Milliseconds window) s'.
Proof.
  intros Hk Hl Hw He. assert (0 < Milliseconds window) as Hms
    by (apply Z.quot_str_pos; unfold Millisecond in *; lia).
  rewrite AllowFixedWindow_run by (done || unfold Millisecond in *; lia).
  unfold wrap, fixed_window_script, INCR, PEXPIRE, bind, read, lift, modify, get_str, expiry.
  rewrite He. simpl. rewrite lookup_put. cbv zeta. unfold live at 1. simpl.
  rewrite (proj2 (Z.leb_gt (Milliseconds window) 0)) by lia. eexists. split; [done|].
  unfold counting. simpl. by rewrite lookup_insert_eq.
Qed.

Lemma arrivals_counting key limit window e ts :
  key <> "" -> 0 < limit -> 0 < window -> Forall (fun t => t <= e) ts ->
  forall i s, 0 < i -> i + Z.of_nat (length ts) <= max_int64 -> counting key i e s ->
  fst (arrivals key limit window ts s)
    = inl ((fun j => j <? limit) <$> seqZ i (Z.of_nat (length ts))).
Proof.
  intros Hk Hl Hw HF. induction HF as [|t ts Ht HF IH]; intros i s Hi Hmax Hc; [done|].
  cbn [length] in *. rewrite Nat2Z.inj_succ in *.
  destruct (window_next key limit window i e t s) as (s' & Hr & Hc'); try done; [lia|].
  cbn [arrivals]. unfold modify, bind. cbv beta iota. rewrite Hr.
  specialize (IH (i + 1) s' ltac:(lia) ltac:(lia) Hc').
  destruct (arrivals key limit window ts s') as [r s'']. simpl in IH. subst r. simpl.
  rewrite (seqZ_cons i) by lia. rewrite Z.pred_succ, fmap_cons. change (i + 1) with (Z.succ i). repeat f_equal.
  destruct (Z.leb_spec (Z.succ i) limit), (Z.ltb_spec i limit); lia || done.
Qed.

(** of the calls for a key that arrive within the window the first one opens,
    exactly the first [limit] are allowed. *)
Theorem fixed_window_limit key limit window t0 ts s :
  key <> "" -> 0 < limit -> Millisecond <= window ->
  lookup_key key (at_time t0 s) = None ->
  Forall (fun t => t <= t0 + Milliseconds window) ts ->
  Z.of_nat (length ts) < max_int64 ->
  fst (arrivals key limit window (t0 :: ts) s)
    = inl ((fun j => j <? limit) <$> seqZ 0 (Z.of_nat (length (t0 :: ts)))).
Proof.
  intros Hk Hl Hw He HF Hlen.
  destruct (window_first key limit window t0 s) as (s' & Hr & Hc); try done.
  cbn [arrivals]. unfold modify, bind. cbv beta iota. rewrite Hr.
  pose proof (arrivals_counting key limit window _ ts Hk Hl ltac:(unfold Millisecond in *; lia)
                HF 1 s' ltac:(lia) ltac:(lia) Hc) as IH.
  destruct (arrivals key limit window ts s') as [r s'']. simpl in IH. subst r. simpl.
  rewrite (seqZ_cons 0) by lia. replace (Z.pred _) with (Z.of_nat (length ts)) by lia.
  rewrite fmap_cons. repeat f_equal. destruct (Z.leb_spec 1 limit), (Z.ltb_spec 0 limit); lia || done.
Qed.

Lemma fixed_window_limit_witness :
  fst (arrivals "webrtc" 2 Minute [100; 200; 60100] (ex_store 0)) = inl [true; true; false].
Proof.
  apply (fixed_window_limit "webrtc" 2 Minute 100 [200; 60100] (ex_store 0));
    [done|lia|unfold Minute, Second, Millisecond; lia|vm_compute; reflexivity| |done].
  repeat constructor; vm_compute; discriminate.
Defined.

(** ** Metric series *)

Definition series (k : string) (s : Store) : gmap string string :=
  match get_hash k s with inl m => m | inr _ => ∅ end.

(** A metric call, its error ignored as [metrics.go] does. *)
Inductive metric_op := Increment (field : string) | Gauge (field value : string).
Definition run_metric (maxSeries : Z) (op : metric_op) : M Store (result unit) :=
  match op with
  | Increment field => attempt (IncrementMetric Background field maxSeries)
  | Gauge field value => attempt (SetMetricGauge Background field value maxSeries)
  end.
Fixpoint run_metrics (maxSeries : Z) (ops : list metric_op) : M Store unit :=
  match ops with
  | [] => ret tt
  | op :: ops' => run_metric maxSeries op;; run_metrics maxSeries ops'
  end.

Definition series_bounded (n : nat) (s : Store) : Prop :=
  (size (series counters_key s) <= n)%nat /\ (size (series gauges_key s) <= n)%nat.

Lemma series_put k v s : series k (put k (VHash v) (expiry k s) s) = v.
Proof. unfold series, get_hash. by rewrite lookup_put_keep. Qed.
Lemma series_put_ne k k' v exp s : k <> k' -> series k (put k' v exp s) = series k s.
Proof. intros. unfold series, get_hash. by rewrite lookup_put_ne. Qed.

(** The guard, then a write of [field], to a value that may fail to compute. *)
Lemma guarded_write_bound {X} k k' field maxSeries (v : gmap string string -> result X)
    (show : X -> string) n s :
  k <> k' -> 0 < maxSeries <= Z.of_nat n ->
  (size (series k s) <= n)%nat -> (size (series k' s) <= n)%nat ->
  let m := (let! allowed := series_allowed k field maxSeries in
            if allowed then
              let! m := read (get_hash k) in
              let! x := lift (v m) in
              modify (fun s => put k (VHash (<[field := show x]> m)) (expiry k s) s)
            else ret tt) in
  (size (series k (snd (m s))) <= n)%nat /\ (size (series k' (snd (m s))) <= n)%nat.
Proof.
  intros Hne Hmax Hs Hs'. unfold series_allowed, HEXISTS, HLEN, bind, read. cbv zeta.
  unfold series in Hs. destruct (get_hash k s) as [m|e] eqn:Hm.
  2: { simpl. unfold series at 1. rewrite Hm. done. }
  unfold ret. simpl. destruct (bool_decide_reflect (is_Some (m !! field))) as [Hin|Hin]; simpl.
  - rewrite Hm. simpl. unfold lift. destruct (v m) as [x|e]; simpl.
    + rewrite series_put, series_put_ne by done. split; [|done].
      by rewrite size_insert_present by done.
    + unfold series at 1. by rewrite Hm.
  - rewrite Hm. simpl. destruct (Z.leb_spec maxSeries (Z.of_nat (size m))); simpl.
    { unfold series at 1. by rewrite Hm. }
    rewrite Hm. simpl. unfold lift. destruct (v m) as [x|e]; simpl.
    + rewrite series_put, series_put_ne by done. split; [|done].
      pose proof (size_insert_le m field (show x)). lia.
    + unfold series at 1. by rewrite Hm.
Qed.

Lemma run_metric_bound maxSeries op n s :
  maxSeries <= Z.of_nat n -> series_bounded n s ->
  series_bounded n (snd (run_metric maxSeries op s)).
Proof.
  intros Hmax [H1 H2]. destruct op as [field|field v]; unfold run_metric, attempt; cbn [snd];
    unfold IncrementMetric, SetMetricGauge, metric_required, throw_if;
    (destruct (is_nil Background || bool_decide (field = "") || (maxSeries <=? 0)) eqn:E; [done|]);
    rewrite (bind_eq (ret tt) _ s tt s eq_refl), wrap_snd;
    apply orb_false_elim in E as [_ Hpos%Z.leb_gt].
  - exact (guarded_write_bound counters_key gauges_key field maxSeries
      (fun m => counter_add (m !! field) 1) show_int n s ltac:(done) ltac:(lia) H1 H2).
  - destruct (guarded_write_bound gauges_key counters_key field maxSeries
      (fun m => inl v) id n s ltac:(done) ltac:(lia) H2 H1) as [? ?]. by split.
Qed.

(** However many counters and gauges are reported under a limit on the
    series, no more series than the limit exist: new names are refused. *)
Theorem metric_series_bounded maxSeries ops s :
  series_bounded (Z.to_nat maxSeries) s ->
  series_bounded (Z.to_nat maxSeries) (snd (run_metrics maxSeries ops s)).
Proof.
  destruct (Z.leb_spec maxSeries 0) as [Hneg|Hpos].
  - assert (Hid : forall op s, snd (run_metric maxSeries op s) = s).
    { intros op s0. destruct op; simpl; unfold IncrementMetric, SetMetricGauge, metric_required;
        rewrite (proj2 (Z.leb_le maxSeries 0)) by done; by rewrite orb_true_r. }
    intros Hs. induction ops as [|op ops IH]; [done|]. cbn [run_metrics].
    unfold bind. specialize (Hid op s). destruct op; simpl in *; rewrite Hid; exact IH.
  - revert s. induction ops as [|op ops IH]; intros s Hs; [done|]. cbn [run_metrics].
    pose proof (run_metric_bound maxSeries op (Z.to_nat maxSeries) s ltac:(lia) Hs) as H1. unfold bind.
    destruct op; simpl in *; by apply IH.
Qed.

Lemma metric_series_bounded_witness :
  series_bounded 1 (snd (run_metrics 1 [Increment "a"; Increment "b"; Increment "a"; Gauge "g" "0.5"]
                           (ex_store 0))) /\
  series counters_key (snd (run_metrics 1 [Increment "a"; Increment "b"; Increment "a"] (ex_store 0)))
    = {["a" := "2"]}.
Proof.
  split; [|vm_compute; reflexivity].
  apply (metric_series_bounded 1); split; vm_compute; lia.
Defined.

(** ** What the client methods leave alone, and what they add to a lease set *)

Section ClientFrames.
Context (k : string) (c : Client) (ctx : Ctx).

Ltac client := intros; intros o;
  unfold AcquireCallLease, acquire_script, BindCallLease, bind_script, ReleaseCallLease,
    RefreshCallLease, Set_, Get, Delete, DEL, validateKey, validate, ctx_required; keeps_tac.

Lemma frames_AcquireCallLease now p lease cps conc ttl :
  k <> cps_key p -> k <> leases_key p ->
  frames k (AcquireCallLease c ctx now p lease cps conc ttl).
Proof. client. Qed.
Lemma frames_BindCallLease p a b : k <> leases_key p -> frames k (BindCallLease c ctx p a b).
Proof. client. Qed.
Lemma frames_ReleaseCallLease p a : k <> leases_key p -> frames k (ReleaseCallLease c ctx p a).
Proof. client. Qed.
Lemma frames_RefreshCallLease now p a ttl :
  k <> leases_key p -> frames k (RefreshCallLease c ctx now p a ttl).
Proof. client. Qed.
Lemma frames_Set k' v ttl : k <> k' -> frames k (Set_ c ctx k' v ttl).
Proof. client. Qed.
Lemma frames_Get k' : frames k (Get c ctx k').
Proof. client. Qed.
Lemma frames_Delete k' : k <> k' -> frames k (Delete c ctx [k']).
Proof. client. apply keeps_modify. simpl. intros s Hs. by rewrite lookup_del_ne. Qed.
End ClientFrames.

(** The number of leases of [k] does not grow over [n]. *)
Definition bounds {A} (k : string) (n : nat) (m : M Store A) : Prop :=
  keeps (fun s => (size (leases k s) <= n)%nat) m.

Lemma bounds_frame {A} k n (m : M Store A) : frames k m -> bounds k n m.
Proof. intros Hf s Hs. by rewrite leases_frame. Qed.
Lemma bounds_read {A} k n (f : Store -> result A) : bounds k n (read f).
Proof. intros s Hs. done. Qed.
Lemma bounds_PEXPIRE k n ms : bounds k n (PEXPIRE k ms).
Proof.
  intros s Hs. destruct (leases_PEXPIRE k ms s) as [->| ->]; [done|].
  rewrite map_size_empty. lia.
Qed.
Lemma bounds_ZREM k n i : bounds k n (ZREM k i).
Proof.
  intros s Hs. destruct (get_zset k s) as [m|e] eqn:Hm.
  - rewrite (ZREM_run _ i _ _ Hm). simpl. rewrite leases_write.
    rewrite (zset_leases _ _ _ Hm) in Hs. etrans; [|exact Hs].
    apply map_subseteq_size, delete_subseteq.
  - unfold ZREM, bind, read. by rewrite Hm.
Qed.
Lemma ZADD_known k n score i s :
  is_Some (leases k s !! i) -> (size (leases k s) <= n)%nat ->
  (size (leases k (snd (ZADD k score i s))) <= n)%nat.
Proof.
  intros Hi Hs. destruct (get_zset k s) as [m|e] eqn:Hm.
  - rewrite (ZADD_run _ score i _ _ Hm). simpl. rewrite leases_write.
    rewrite (zset_leases _ _ _ Hm) in Hs, Hi. by rewrite size_insert_present.
  - unfold ZADD, bind, read. by rewrite Hm.
Qed.
Lemma bounds_bind_script k n a b : bounds k n (bind_script k a b).
Proof.
  intros s Hs. destruct (get_zset k s) as [m|e] eqn:Hm.
  2: { unfold bind_script, ZSCORE, bind, read. by rewrite Hm. }
  unfold bind_script. rewrite (bind_eq _ _ _ _ _ (ZSCORE_run _ a _ _ Hm)).
  destruct (m !! a) as [score|] eqn:Ha; [|done].
  rewrite (bind_eq _ _ _ _ _ (ZREM_run _ a _ _ Hm)).
  rewrite (bind_eq _ _ _ _ _ (ZADD_run _ score b _ _ (get_zset_write _ _ _))). simpl.
  rewrite leases_write. rewrite (zset_leases _ _ _ Hm) in Hs.
  pose proof (size_rename m a b score ltac:(eauto)). lia.
Qed.

Lemma bounds_ReleaseCallLease c ctx p n a :
  bounds (leases_key p) n (ReleaseCallLease c ctx p a).
Proof.
  unfold bounds, ReleaseCallLease, validateKey, validate. keeps_tac. apply bounds_ZREM.
Qed.
Lemma bounds_BindCallLease c ctx p n a b :
  bounds (leases_key p) n (BindCallLease c ctx p a b).
Proof.
  unfold bounds, BindCallLease, validateKey, validate. keeps_tac. apply bounds_bind_script.
Qed.
Lemma bounds_AcquireCallLease c ctx now p lease cps conc ttl n :
  conc <= Z.of_nat n ->
  bounds (leases_key p) n (AcquireCallLease c ctx now p lease cps conc ttl).
Proof.
  intros Hc. unfold bounds, AcquireCallLease, validateKey, validate. keeps_tac.
  intros s Hs. apply acquire_script_bound; [apply keys_differ|done|done].
Qed.
Lemma RefreshCallLease_known c ctx now p a ttl n s :
  is_Some (leases (leases_key p) s !! a) ->
  (size (leases (leases_key p) s) <= n)%nat ->
  (size (leases (leases_key p) (snd (RefreshCallLease c ctx now p a ttl s))) <= n)%nat.
Proof.
  intros Ha Hs. unfold RefreshCallLease, validateKey, validate, throw_if.
  destruct c; [done|]. unfold bind at 1. unfold bind at 1. simpl.
  destruct (bool_decide (p = "")); [done|]. simpl. unfold bind at 1.
  destruct (is_nil ctx || _ || _); [done|]. simpl.
  pose proof (ZADD_known _ n (now + Milliseconds ttl) a s Ha Hs) as H1.
  unfold bind, wrap at 1. destruct (ZADD _ _ _ s) as [[u|e] s1]; [|done]. simpl in H1.
  rewrite wrap_snd. by apply bounds_PEXPIRE.
Qed.
Lemma leases_tick k s t : s_now s <= t ->
  leases k (at_time t s) = leases k s \/ leases k (at_time t s) = ∅.
Proof.
  intros Ht. unfold leases, get_zset, lookup_key, live. simpl.
  destruct (s_keys s !! k) as [[v [x|]]|]; simpl; try by left.
  destruct (Z.leb_spec t x), (Z.leb_spec (s_now s) x); auto. lia.
Qed.
End Redis.
