(* ===== verification/Routing.v ===== *)
(** * Call routing

    [server/internal/telephony/routing]: normalisation and validation of routing
    requests, the inbound context query, and the outbound routes of a customer
    trunk, over the tables the queries read. *)

From stdpp Require Import sorting.
From S2P Require Import Prelude.

(** ** Application errors (pkg/apperror) *)
Module AppErr.
Definition NewNotFound (message : string) : error := AppError "NOT_FOUND" message 404 None.
Definition NewBadRequest (message : string) : error := AppError "BAD_REQUEST" message 400 None.
Definition NewUnauthorized (message : string) : error := AppError "UNAUTHORIZED" message 401 None.
Definition NewForbidden (message : string) : error := AppError "FORBIDDEN" message 403 None.
Definition NewPayloadTooLarge (message : string) : error := AppError "PAYLOAD_TOO_LARGE" message 413 None.
Definition NewConflict (message : string) : error := AppError "CONFLICT" message 409 None.
Definition NewTooManyRequests (message : string) : error :=
  AppError "TOO_MANY_REQUESTS" message 429 None.
Definition NewInternal (message : string) (err : error) : error :=
  AppError "INTERNAL_ERROR" message 500 (Some err).
Definition NewServiceUnavailable (message : string) (err : error) : error :=
  AppError "SERVICE_UNAVAILABLE" message 503 (Some err).
End AppErr.
Export AppErr.

Module Routing.
(** ** model.go *)

Record Limits := { MaxCPS : Z; MaxConcurrentCalls : Z }.

Record InboundRequest := {
  ir_OrganizationID : UUID;
  ir_VoiceAgentID : UUID;
  ir_PhoneNumberID : UUID;
  ir_VoiceAgentBindingID : UUID;
  ir_TrunkID : UUID;
  ir_CalledNumber : string;
}.
Record InboundDecision := { id_Request : InboundRequest; id_Limits : Limits }.

Record OutboundRequest := {
  or_OrganizationID : UUID;
  or_TrunkID : option UUID;
  or_Destination : string;
}.
Record OutboundRoute := {
  TrunkID : UUID;
  TrunkEndpointID : UUID;
  Host : string;
  Port : Z;
  Transport : string;
  RouteLimits : Limits;
}.
Record OutboundDecision := { DestinationDigits : string; Routes : list OutboundRoute }.
Definition Primary (d : OutboundDecision) : option OutboundRoute := head (Routes d).

(** ** The rows the queries read *)

Record Trunk := {
  t_ID : UUID; t_OrganizationID : UUID; t_Status : string; t_Direction : string;
  t_InboundEnabled : bool; t_MaxCps : Z; t_MaxConcurrentCalls : Z;
}.
Record TrunkEndpoint := {
  e_ID : UUID; e_OrganizationID : UUID; e_TrunkID : UUID; e_Host : string; e_Port : Z;
  e_Transport : string; e_Direction : string; e_Priority : Z; e_Weight : Z; e_Enabled : bool;
  e_HealthStatus : string; e_CreatedAt : Z;
}.
Record Binding := {
  b_ID : UUID; b_OrganizationID : UUID; b_VoiceAgentID : UUID; b_PhoneNumberID : UUID;
}.
Record PhoneNumber := {
  p_ID : UUID; p_OrganizationID : UUID; p_Number : string; p_TrunkID : option UUID;
  p_Status : string; p_VoiceEnabled : bool;
}.
Record VoiceAgent := { a_ID : UUID; a_OrganizationID : UUID; a_Status : string }.
Record Organization := { o_ID : UUID; o_Status : string; o_Deleted : bool }.
Record Tables := {
  trunks : list Trunk; endpoints : list TrunkEndpoint; bindings : list Binding;
  phone_numbers : list PhoneNumber; voice_agents : list VoiceAgent;
  organizations : list Organization;
}.

(** ** Queries *)

Definition first_row {A} (l : list A) : result A :=
  match l with x :: _ => inl x | [] => inr (Sentinel ErrNoRows) end.

Definition GetTrunkByID (id org : UUID) (d : Tables) : result Trunk :=
  first_row (filter (fun t => t_ID t = id /\ t_OrganizationID t = org) (trunks d)).

Definition outbound_direction (dir : string) : bool :=
  bool_decide (dir = "outbound") || bool_decide (dir = "bidirectional").

(** [ORDER BY priority ASC, weight DESC, created_at ASC]. *)
Definition endpoint_le (a b : TrunkEndpoint) : Prop :=
  e_Priority a < e_Priority b \/ (e_Priority a = e_Priority b /\
    (e_Weight b < e_Weight a \/ (e_Weight a = e_Weight b /\ e_CreatedAt a <= e_CreatedAt b))).
#[export] Instance endpoint_le_dec : RelDecision endpoint_le.
Proof. intros a b. unfold endpoint_le. apply _. Defined.

#[export] Instance endpoint_le_total : Total endpoint_le.
Proof. intros a b. unfold endpoint_le. lia. Qed.
#[export] Instance endpoint_le_trans : Transitive endpoint_le.
Proof. intros a b c. unfold endpoint_le. lia. Qed.

Definition ListActiveOutboundTrunkEndpoints (trunk org : UUID) (d : Tables) : list TrunkEndpoint :=
  merge_sort endpoint_le
    (filter (fun e => e_TrunkID e = trunk /\ e_OrganizationID e = org /\ e_Enabled e = true /\
                      outbound_direction (e_Direction e) = true /\
                      Exists (fun t => t_ID t = trunk /\ t_OrganizationID t = org /\
                                       t_Status t = "active" /\
                                       outbound_direction (t_Direction t) = true) (trunks d))
       (endpoints d)).

(** An agent of the organisation, active, in an active organisation. *)
Definition agent_active (d : Tables) (agent org : UUID) : bool :=
  existsb (fun a => bool_decide (a_ID a = agent /\ a_OrganizationID a = org /\ a_Status a = "active"))
    (voice_agents d).
Definition GetVoiceAgentBindingByID (id org : UUID) (d : Tables) : result Binding :=
  first_row (filter (fun b => b_ID b = id /\ b_OrganizationID b = org /\
      agent_active d (b_VoiceAgentID b) org = true /\
      Exists (fun o => o_ID o = org /\ o_Status o = "active" /\ o_Deleted o = false) (organizations d))
    (bindings d)).

(** [GetInboundCallContext]: the limits of the trunk of the matching number. *)
Definition inbound_trunks (req : InboundRequest) (d : Tables) : list Trunk :=
  filter (fun t => t_ID t = ir_TrunkID req /\ t_Status t = "active" /\ t_InboundEnabled t = true /\
                   t_OrganizationID t = ir_OrganizationID req) (trunks d).
Definition inbound_eligible (req : InboundRequest) (d : Tables) : Prop :=
  Exists (fun p => p_ID p = ir_PhoneNumberID req /\ p_OrganizationID p = ir_OrganizationID req /\
                   p_Number p = ir_CalledNumber req /\ p_TrunkID p = Some (ir_TrunkID req) /\
                   p_Status p = "active" /\ p_VoiceEnabled p = true) (phone_numbers d) /\
  Exists (fun b => b_ID b = ir_VoiceAgentBindingID req /\ b_PhoneNumberID b = ir_PhoneNumberID req /\
                   b_OrganizationID b = ir_OrganizationID req /\
                   b_VoiceAgentID b = ir_VoiceAgentID req) (bindings d) /\
  agent_active d (ir_VoiceAgentID req) (ir_OrganizationID req) = true /\
  Exists (fun o => o_ID o = ir_OrganizationID req /\ o_Status o = "active" /\ o_Deleted o = false)
    (organizations d).
#[export] Instance inbound_eligible_dec req d : Decision (inbound_eligible req d).
Proof. unfold inbound_eligible. apply _. Defined.
Definition GetInboundCallContext (req : InboundRequest) (d : Tables) : result Limits :=
  if decide (inbound_eligible req d) then
    let? t := first_row (inbound_trunks req d) in
    inl {| MaxCPS := t_MaxCps t; MaxConcurrentCalls := t_MaxConcurrentCalls t |}
  else inr (Sentinel ErrNoRows).

(** ** validation.go *)

Definition normalizeInboundRequest (req : InboundRequest) : InboundRequest :=
  {| ir_OrganizationID := ir_OrganizationID req; ir_VoiceAgentID := ir_VoiceAgentID req;
     ir_PhoneNumberID := ir_PhoneNumberID req; ir_VoiceAgentBindingID := ir_VoiceAgentBindingID req;
     ir_TrunkID := ir_TrunkID req; ir_CalledNumber := TrimSpace (ir_CalledNumber req) |}.
Definition validateInboundRequest (req : InboundRequest) : result unit :=
  if decide (ir_OrganizationID req = uuid_Nil) then inr (NewBadRequest "organization_id is required") else
  if decide (ir_VoiceAgentID req = uuid_Nil) then inr (NewBadRequest "voice_agent_id is required") else
  if decide (ir_PhoneNumberID req = uuid_Nil) then inr (NewBadRequest "phone_number_id is required") else
  if decide (ir_VoiceAgentBindingID req = uuid_Nil)
  then inr (NewBadRequest "voice_agent_binding_id is required") else
  if decide (ir_TrunkID req = uuid_Nil) then inr (NewBadRequest "trunk_id is required") else
  if decide (ir_CalledNumber req = "") then inr (NewBadRequest "called_number is required") else inl tt.
Definition normalizeOutboundRequest (req : OutboundRequest) : OutboundRequest :=
  {| or_OrganizationID := or_OrganizationID req; or_TrunkID := or_TrunkID req;
     or_Destination := TrimSpace (or_Destination req) |}.
Definition validateOutboundRequest (req : OutboundRequest) : result unit :=
  if decide (or_OrganizationID req = uuid_Nil) then inr (NewBadRequest "organization_id is required") else
  if decide (or_TrunkID req = Some uuid_Nil) then inr (NewBadRequest "trunk_id is invalid") else
  if decide (or_Destination req = "") then inr (NewBadRequest "destination is required") else inl tt.

(** The pattern [^\+[1-9][0-9]{6,14}$]. *)
Definition managedE164 (value : string) : bool :=
  match bytes value with
  | "+"%char :: c :: l =>
      byte_in 49 57 c && forallb (byte_in 48 57) l && (6 <=? Z.of_nat (length l)) && (Z.of_nat (length l) <=? 14)
  | _ => false
  end.
(** [value[:index]] at the first [c], if any. *)
Definition before (value : string) (c : ascii) : string :=
  match index_byte c (bytes value) with
  | Some n => of_bytes (take n (bytes value))
  | None => value
  end.
Definition managedDestination (value : string) : result (string * string) :=
  let value := TrimSpace value in
  let lower := ToLower value in
  let value := if HasPrefix lower "sip:" || HasPrefix lower "tel:"
               then of_bytes (drop 4 (bytes value)) else value in
  let value := before value "@"%char in
  let value := before value ";"%char in
  if negb (managedE164 value) then inr (NewBadRequest "managed destination must be an E.164 number")
  else inl (value, TrimPrefix value "+").

(** ** repository.go and service.go *)

Class HasRouting (W : Type) : Type := {
  rt_faults :: HasFaults W;
  tables : W -> Tables;
}.

Section Service.
Context {W : Type} {HR : HasRouting W}.

Definition query {A} (f : Tables -> result A) : M W A := ext (fun w => (f (tables w), w)).

Definition GetInboundContext (req : InboundRequest) : M W Limits :=
  let! binding := query (GetVoiceAgentBindingByID (ir_VoiceAgentBindingID req) (ir_OrganizationID req)) in
  throw_if (negb (bool_decide (b_VoiceAgentID binding = ir_VoiceAgentID req))
              || negb (bool_decide (b_PhoneNumberID binding = ir_PhoneNumberID req)))
    (Sentinel ErrNoRows);;
  query (GetInboundCallContext req).

(** The loop over the endpoints. *)
Fixpoint outbound_routes (trunk : Trunk) (endpoints : list TrunkEndpoint) : result (list OutboundRoute) :=
  match endpoints with
  | [] => inl []
  | e :: rest =>
      if decide (e_HealthStatus e = "unhealthy") then outbound_routes trunk rest else
      if (e_Port e <? 1) || (65535 <? e_Port e)
      then inr (Errorf "invalid trunk endpoint port: %d" [show_int (e_Port e)]) else
      let? routes := outbound_routes trunk rest in
      inl ({| TrunkID := t_ID trunk; TrunkEndpointID := e_ID e; Host := e_Host e; Port := e_Port e;
              Transport := e_Transport e;
              RouteLimits := {| MaxCPS := t_MaxCps trunk;
                                MaxConcurrentCalls := t_MaxConcurrentCalls trunk |} |} :: routes)
  end.

Definition ResolveBYOCOutbound (org trunkID : UUID) : M W (list OutboundRoute) :=
  let! trunk := query (GetTrunkByID trunkID org) in
  throw_if (negb (bool_decide (t_Status trunk = "active")) || negb (outbound_direction (t_Direction trunk)))
    (Sentinel ErrNoRows);;
  let! endpoints := query (fun d => inl (ListActiveOutboundTrunkEndpoints trunkID org d)) in
  let! routes := lift (outbound_routes trunk endpoints) in
  match routes with [] => throw (Sentinel ErrNoRows) | _ => ret routes end.

(** The translation of a repository error. *)
Definition route_error (no_rows internal : string) (err : error) : error :=
  if errors_Is err ErrNoRows then NewNotFound no_rows else NewInternal internal err.

(** The policy of the service is [DefaultPolicy]. *)
Definition ResolveInbound (req : InboundRequest) : M W InboundDecision :=
  let req := normalizeInboundRequest req in
  lift (validateInboundRequest req);;
  let! limits := wrap (route_error "no eligible inbound route" "resolve inbound route")
    (GetInboundContext req) in
  ret {| id_Request := req; id_Limits := limits |}.

Definition ResolveOutbound (req : OutboundRequest) : M W OutboundDecision :=
  let req := normalizeOutboundRequest req in
  lift (validateOutboundRequest req);;
  match or_TrunkID req with
  | None => throw (NewBadRequest "trunk_id is required for outbound calls")
  | Some trunk =>
      let! routes := wrap (route_error "no eligible outbound route" "resolve outbound route")
        (ResolveBYOCOutbound (or_OrganizationID req) trunk) in
      ret {| DestinationDigits := ""; Routes := routes |}
  end.
End Service.

(** ** What the decisions say *)

Definition route_of (t : Trunk) (e : TrunkEndpoint) : OutboundRoute := {|
  TrunkID := t_ID t; TrunkEndpointID := e_ID e; Host := e_Host e; Port := e_Port e;
  Transport := e_Transport e;
  RouteLimits := {| MaxCPS := t_MaxCps t; MaxConcurrentCalls := t_MaxConcurrentCalls t |} |}.

(** An endpoint the trunk may dial out of. *)
Record eligible (d : Tables) (org trunk : UUID) (e : TrunkEndpoint) : Prop := {
  el_row : e ∈ endpoints d;
  el_trunk : e_TrunkID e = trunk;
  el_org : e_OrganizationID e = org;
  el_enabled : e_Enabled e = true;
  el_direction : outbound_direction (e_Direction e) = true;
  el_healthy : e_HealthStatus e <> "unhealthy";
}.

Lemma first_row_inv {A} (l : list A) x : first_row l = inl x -> x ∈ l.
Proof. destruct l; simpl; [done|]. intros [= ->]. by left. Qed.

Lemma outbound_routes_inv t es routes :
  outbound_routes t es = inl routes ->
  routes = route_of t <$> filter (fun e => e_HealthStatus e <> "unhealthy") es /\
  Forall (fun e => e_HealthStatus e <> "unhealthy" -> 1 <= e_Port e <= 65535) es.
Proof.
  revert routes. induction es as [|e es IH]; intros routes; simpl.
  { intros [= <-]. by split. }
  case_decide as Hh.
  { intros [-> HF]%IH. rewrite filter_cons_False by (intros Hn; by apply Hn). split; [done|].
    constructor; [done|exact HF]. }
  destruct ((e_Port e <? 1) || (65535 <? e_Port e)) eqn:Hp; [done|].
  apply orb_false_iff in Hp as [Hp1%Z.ltb_ge Hp2%Z.ltb_ge].
  destruct (outbound_routes t es) as [routes'|]; [|done]. simpl. intros [= <-].
  destruct (IH routes' eq_refl) as [-> HF]. rewrite filter_cons_True by done.
  split; [done|]. by constructor.
Qed.

Lemma ListActive_elem d org trunk t e :
  t ∈ trunks d -> t_ID t = trunk -> t_OrganizationID t = org -> t_Status t = "active" ->
  outbound_direction (t_Direction t) = true ->
  e ∈ filter (fun e => e_HealthStatus e <> "unhealthy") (ListActiveOutboundTrunkEndpoints trunk org d)
  <-> eligible d org trunk e.
Proof.
  intros Ht H1 H2 H3 H4. unfold ListActiveOutboundTrunkEndpoints.
  rewrite list_elem_of_filter, merge_sort_Permutation, list_elem_of_filter. split.
  - intros (Hh & (? & ? & ? & ? & _) & He). by constructor.
  - intros [? ? ? ? ? ?]. split_and!; try done. apply Exists_exists. by exists t.
Qed.

Lemma StronglySorted_filter {A} (R : relation A) (P : A -> Prop) `{forall x, Decision (P x)} l :
  StronglySorted R l -> StronglySorted R (filter P l).
Proof.
  induction 1 as [|x l _ IH HF]; [constructor|]. rewrite filter_cons. case_decide; [|done].
  constructor; [done|]. rewrite Forall_forall in *. intros y [_ Hy]%list_elem_of_filter. auto.
Qed.

Section ServiceLaws.
Context {W : Type} {HR : HasRouting W}.
(** The script of failures does not touch the tables. *)
Context (tables_faults : forall fs w, tables (set_faults (HasFaults := rt_faults) fs w) = tables w).

Lemma query_inv {A} (f : Tables -> result A) w a w' :
  query f w = (inl a, w') -> f (tables w) = inl a /\ tables w' = tables w.
Proof.
  unfold query, ext. destruct (get_faults w) as [|[|e|e] fs]; intros [= Hf <-];
    rewrite ?tables_faults in *; done.
Qed.

(** a successful outbound resolution lists exactly the eligible endpoints of the
    requested trunk, which belongs to the organisation, is active and may dial
    out; best priority first, then heaviest, then oldest; each with a valid port
    and the trunk's limits. There is at least one. *)
Theorem ResolveOutbound_sound req w dec w' :
  ResolveOutbound req w = (inl dec, w') ->
  exists trunkID t es, or_TrunkID req = Some trunkID /\ t ∈ trunks (tables w) /\
    t_ID t = trunkID /\ t_OrganizationID t = or_OrganizationID req /\ t_Status t = "active" /\
    outbound_direction (t_Direction t) = true /\
    Routes dec = route_of t <$> es /\ es <> [] /\ Sorted endpoint_le es /\
    (forall e, e ∈ es <-> eligible (tables w) (or_OrganizationID req) trunkID e) /\
    Forall (fun e => 1 <= e_Port e <= 65535) es.
Proof.
  unfold ResolveOutbound. intros (u & w1 & Hv & H)%bind_ok.
  unfold lift in Hv. injection Hv as Hv <-. simpl in H.
  destruct (or_TrunkID req) as [trunkID|] eqn:Et; [|done].
  apply bind_ok in H as (routes & w2 & Hr & H). injection H as <- _.
  unfold wrap in Hr. destruct (ResolveBYOCOutbound _ _ w) as [[r|e] w3] eqn:E; [|done].
  injection Hr as <- <-. unfold ResolveBYOCOutbound in E.
  apply bind_ok in E as (t & w4 & [Ht Hw4]%query_inv & E).
  apply bind_ok in E as ([] & w5 & Hg & E). unfold throw_if in Hg.
  destruct (_ || _) eqn:Eg in Hg; [done|]. injection Hg as <-.
  apply orb_false_iff in Eg as [Es Ed]. apply negb_false_iff, bool_decide_eq_true in Es.
  apply negb_false_iff in Ed.
  apply bind_ok in E as (es & w6 & [He Hw6]%query_inv & E). injection He as He.
  apply bind_ok in E as (routes & w7 & Hl & E). unfold lift in Hl. injection Hl as Hl <-.
  apply outbound_routes_inv in Hl as [Hroutes Hports].
  assert (r = routes /\ routes <> []) as [-> Hne] by (destruct routes; [done|injection E as <- _; by split]).
  rewrite Hw4 in He. apply first_row_inv, list_elem_of_filter in Ht as [[Hid Horg] Ht].
  exists trunkID, t, (filter (fun e => e_HealthStatus e <> "unhealthy") es). split_and!; try done.
  - intros Hnil. rewrite Hroutes, Hnil in Hne. done.
  - rewrite <- He. apply StronglySorted_Sorted, StronglySorted_filter, Sorted_StronglySorted;
      [apply _|]. apply (Sorted_merge_sort _).
  - intros e. rewrite <- He. by apply (ListActive_elem _ _ _ t).
  - rewrite Forall_forall in Hports |- *. intros e [Hh Hin]%list_elem_of_filter. eauto.
Qed.
End ServiceLaws.

(** a managed destination is accepted exactly when, freed of its scheme, host
    and parameters, it is an E.164 number; its digits are the number without the
    plus sign. *)
Theorem managedDestination_sound value normalized digits :
  managedDestination value = inl (normalized, digits) ->
  normalized = "+" +:+ digits /\ (7 <= length (bytes digits) <= 15)%nat /\
  Forall (fun c => 48 <= byte_Z c <= 57) (bytes digits) /\
  exists c l, bytes digits = c :: l /\ c <> "0"%char.
Proof.
  unfold managedDestination. destruct (managedE164 _) eqn:E; [|done]. cbn [negb].
  intros [= <- <-]. set (v := before _ ";"%char) in *. clearbody v. unfold managedE164 in E.
  destruct (bytes v) as [|c0 [|c l]] eqn:Ev; [done|by destruct c0 as [[] [] [] [] [] [] [] []]|].
  assert (c0 = "+"%char) as ->.
  { destruct (decide (c0 = "+"%char)) as [|Hne]; [done|]. exfalso.
    destruct c0 as [[] [] [] [] [] [] [] []]; done. }
  rewrite !andb_true_iff, !Z.leb_le, forallb_forall in E. destruct E as [[[Hc Hl] H6] H14].
  assert (Hv : v = "+" +:+ of_bytes (c :: l)).
  { unfold bytes in Ev. rewrite <- (String.string_of_list_ascii_of_string v), Ev. done. }
  assert (Hp : TrimPrefix v "+" = of_bytes (c :: l)).
  { subst v. unfold TrimPrefix, HasPrefix. simpl. unfold of_bytes, bytes.
    by rewrite String.list_ascii_of_string_of_list_ascii. }
  rewrite Hp. split; [done|]. unfold bytes, of_bytes.
  rewrite !String.list_ascii_of_string_of_list_ascii. split; [simpl; lia|]. split.
  - constructor.
    + unfold byte_in in Hc. rewrite andb_true_iff, !Z.leb_le in Hc. lia.
    + apply Forall_forall. intros d Hd%list_elem_of_In%Hl. unfold byte_in in Hd.
      rewrite andb_true_iff, !Z.leb_le in Hd. lia.
  - exists c, l. split; [done|]. intros ->. by vm_compute in Hc.
Qed.
Lemma managedDestination_sound_witness :
  (7 <= length (bytes "442071838750") <= 15)%nat /\
  managedDestination "tel:+442071838750;phone-context=example.com" = inl ("+442071838750", "442071838750") /\
  exists e, managedDestination "+01234567" = inr e.
Proof.
  split; [|split; [vm_compute; reflexivity|eexists; vm_compute; reflexivity]].
  apply (managedDestination_sound "tel:+442071838750;phone-context=example.com" "+442071838750" "442071838750").
  vm_compute. reflexivity.
Defined.

(** ** A routing table *)
Section Run.
Record Cell := { c_tables : Tables; c_faults : list fault }.
#[local] Instance Cell_faults : HasFaults Cell := {|
  get_faults := c_faults; set_faults fs w := {| c_tables := c_tables w; c_faults := fs |} |}.
#[local] Instance Cell_routing : HasRouting Cell := {| rt_faults := Cell_faults; tables := c_tables |}.

Definition ex_trunk : Trunk := {|
  t_ID := 9; t_OrganizationID := 5; t_Status := "active"; t_Direction := "bidirectional";
  t_InboundEnabled := true; t_MaxCps := 10; t_MaxConcurrentCalls := 2 |}.
Definition ex_endpoint (id prio : Z) (health : string) : TrunkEndpoint := {|
  e_ID := id; e_OrganizationID := 5; e_TrunkID := 9; e_Host := "sip.example.net"; e_Port := 5060;
  e_Transport := "udp"; e_Direction := "outbound"; e_Priority := prio; e_Weight := 1; e_Enabled := true;
  e_HealthStatus := health; e_CreatedAt := 0 |}.
Definition ex_tables : Tables := {|
  trunks := [ex_trunk];
  endpoints := [ex_endpoint 1 20 "healthy"; ex_endpoint 2 10 "unknown"; ex_endpoint 3 5 "unhealthy"];
  bindings := []; phone_numbers := []; voice_agents := []; organizations := [] |}.
Definition ex_routing : Cell := {| c_tables := ex_tables; c_faults := [] |}.
Definition ex_out : OutboundRequest := {|
  or_OrganizationID := 5; or_TrunkID := Some 9; or_Destination := "+15550101" |}.
Definition ex_decision : OutboundDecision := {|
  DestinationDigits := "";
  Routes := [route_of ex_trunk (ex_endpoint 2 10 "unknown"); route_of ex_trunk (ex_endpoint 1 20 "healthy")] |}.

Lemma ResolveOutbound_sound_witness :
  ResolveOutbound ex_out ex_routing = (inl ex_decision, ex_routing) /\
  exists trunkID t es, or_TrunkID ex_out = Some trunkID /\ t ∈ trunks ex_tables /\
    t_ID t = trunkID /\ Routes ex_decision = route_of t <$> es.
Proof.
  assert (H : ResolveOutbound ex_out ex_routing = (inl ex_decision, ex_routing))
    by (vm_compute; reflexivity).
  split; [exact H|].
  destruct (ResolveOutbound_sound (HR := Cell_routing) (fun fs w => eq_refl (c_tables w)) ex_out ex_routing ex_decision ex_routing H)
    as (trunkID & t & es & ? & ? & ? & _ & _ & _ & ? & _).
  by exists trunkID, t, es.
Defined.
End Run.
End Routing.
