(* ===== verification/Admission.v ===== *)
(** * Call channels and trunk admission

    [server/internal/runtime/calling/channel.go]: the channel of an active call
    and the lease limiter of a trunk, over the Redis client of [Redis.v]. Several
    servers share the store: [Admission.step] is one method call of any of them. *)

From S2P Require Import Prelude Redis Routing.
Import Redis.
Import (hints) Routing.
Abbreviation Limits := Routing.Limits.
Abbreviation MaxCPS := Routing.MaxCPS.
Abbreviation MaxConcurrentCalls := Routing.MaxConcurrentCalls.

Module Admission.
Definition ErrChannelUnavailable : string := "active call channel unavailable".
Definition ErrAdmissionCPS : string := "trunk CPS limit exceeded".
Definition ErrAdmissionConcurrent : string := "trunk concurrent call limit exceeded".

Definition callAdmissionLeaseTTL : Z := 26 * Hour.

Section Limiter.
Context {U : UuidLib}.

Definition channelKey (callID : UUID) : string := "telecom:calls:channel:" +:+ uuid_String callID.
Definition admissionPrefix (trunkID : UUID) : string :=
  "telecom:admission:trunk:" +:+ uuid_String trunkID.

(** ** ChannelStore *)

Definition ChannelStore_Bind (callID : UUID) (channelID : string) : M Store unit :=
  let channelID := TrimSpace channelID in
  throw_if (bool_decide (callID = uuid_Nil) || bool_decide (channelID = ""))
    (Errorf "call id and channel id are required" []);;
  Set_ Connected Background (channelKey callID) channelID (24 * Hour).

Definition ChannelStore_Get (callID : UUID) : M Store string :=
  throw_if (bool_decide (callID = uuid_Nil)) (Errorf "call id is required" []);;
  let! r := attempt (Get Connected Background (channelKey callID)) in
  match r with
  | inr err =>
      if errors_Is err ErrNil then throw (Sentinel ErrChannelUnavailable) else throw err
  | inl channelID =>
      let channelID := TrimSpace channelID in
      throw_if (bool_decide (channelID = "")) (Sentinel ErrChannelUnavailable);;
      ret channelID
  end.

Definition ChannelStore_Delete (callID : UUID) : M Store unit :=
  throw_if (bool_decide (callID = uuid_Nil)) (Errorf "call id is required" []);;
  Delete Connected Background [channelKey callID].

(** ** AdmissionLimiter; [now] is the clock of the calling server, in ms *)

Definition Acquire (now : Z) (trunkID : UUID) (leaseID : string) (limits : Limits)
    : M Store unit :=
  throw_if (bool_decide (trunkID = uuid_Nil) || bool_decide (leaseID = ""))
    (Errorf "trunk id and lease id are required" []);;
  throw_if ((MaxCPS limits <? 1) || (MaxConcurrentCalls limits <? 1))
    (Errorf "trunk admission limits must be positive" []);;
  let! ' (allowed, reason) := wrap (Wrapf "acquire trunk call lease: %w" [])
    (AcquireCallLease Connected Background now (admissionPrefix trunkID) leaseID
       (MaxCPS limits) (MaxConcurrentCalls limits) callAdmissionLeaseTTL) in
  if (allowed : bool) then ret tt else
  if decide (reason = "cps") then throw (Sentinel ErrAdmissionCPS) else
  if decide (reason = "concurrent") then throw (Sentinel ErrAdmissionConcurrent) else
  throw (Errorf "trunk admission rejected: %s" [reason]).

Definition Bind (trunkID : UUID) (leaseID : string) (callID : UUID) : M Store unit :=
  throw_if (bool_decide (trunkID = uuid_Nil) || bool_decide (leaseID = "")
              || bool_decide (callID = uuid_Nil))
    (Errorf "trunk id, lease id, and call id are required" []);;
  BindCallLease Connected Background (admissionPrefix trunkID) leaseID (uuid_String callID).

Definition Release (trunkID : UUID) (callOrLeaseID : string) : M Store unit :=
  throw_if (bool_decide (trunkID = uuid_Nil) || bool_decide (callOrLeaseID = ""))
    (Errorf "trunk id and call or lease id are required" []);;
  ReleaseCallLease Connected Background (admissionPrefix trunkID) callOrLeaseID.

Definition Refresh (now : Z) (trunkID callID : UUID) : M Store unit :=
  throw_if (bool_decide (trunkID = uuid_Nil) || bool_decide (callID = uuid_Nil))
    (Errorf "trunk id and call id are required" []);;
  RefreshCallLease Connected Background now (admissionPrefix trunkID) (uuid_String callID)
    callAdmissionLeaseTTL.

(** ** The servers interleaved

    Every step is one method call, whatever it returns, or time passing on
    the Redis server. [Acquire] runs with limits up to [cap]; [Refresh] with a
    lease the trunk already holds. *)
Definition trunk_leases (trunkID : UUID) (s : Store) : gmap string Z :=
  leases (leases_key (admissionPrefix trunkID)) s.

Inductive step (cap : UUID -> nat) : Store -> Store -> Prop :=
| step_tick s d : 0 <= d -> step cap s (at_time (s_now s + d) s)
| step_acquire s now trunk lease limits :
    MaxConcurrentCalls limits <= Z.of_nat (cap trunk) ->
    step cap s (snd (Acquire now trunk lease limits s))
| step_bind s trunk lease call : step cap s (snd (Bind trunk lease call s))
| step_release s trunk lease : step cap s (snd (Release trunk lease s))
| step_refresh s now trunk call :
    is_Some (trunk_leases trunk s !! uuid_String call) ->
    step cap s (snd (Refresh now trunk call s))
| step_channel_bind s call channel : step cap s (snd (ChannelStore_Bind call channel s))
| step_channel_get s call : step cap s (snd (ChannelStore_Get call s))
| step_channel_delete s call : step cap s (snd (ChannelStore_Delete call s)).

(** ** Keys of different trunks and calls *)
Context {UL : UuidLaws U}.

Lemma leases_key_inj t t' :
  leases_key (admissionPrefix t) = leases_key (admissionPrefix t') -> t = t'.
Proof.
  unfold leases_key, admissionPrefix. intros H.
  apply (f_equal String.list_ascii_of_string) in H. rewrite !list_ascii_app in H.
  apply app_inv_tail, app_inv_head in H. apply uuid_String_inj.
  rewrite <- (String.string_of_list_ascii_of_string (uuid_String t)), H.
  apply String.string_of_list_ascii_of_string.
Qed.
Lemma channelKey_inj c c' : channelKey c = channelKey c' -> c = c'.
Proof. intros H. apply uuid_String_inj. by injection H. Qed.
Lemma channel_not_lease call t : leases_key (admissionPrefix t) <> channelKey call.
Proof. discriminate. Qed.
Lemma channel_not_cps call t : channelKey call <> cps_key (admissionPrefix t).
Proof. discriminate. Qed.

Definition capacity_ok (cap : UUID -> nat) (s : Store) : Prop :=
  forall trunk, (size (trunk_leases trunk s) <= cap trunk)%nat.

(** A method on the limiter of [t] bounds the leases of every trunk when it
    bounds those of [t]. *)
Lemma capacity_method {A} cap (t : UUID) (m : M Store A) s :
  (forall t', t' <> t -> frames (leases_key (admissionPrefix t')) m) ->
  ((size (trunk_leases t s) <= cap t)%nat -> (size (trunk_leases t (snd (m s))) <= cap t)%nat) ->
  capacity_ok cap s -> capacity_ok cap (snd (m s)).
Proof.
  intros Hf Hb Hs t'. destruct (decide (t' = t)) as [->|Hne]; [by apply Hb|].
  unfold trunk_leases. rewrite leases_frame by auto. apply Hs.
Qed.

Lemma other_lease_key t t' : t' <> t ->
  leases_key (admissionPrefix t') <> leases_key (admissionPrefix t).
Proof. intros H E. by apply leases_key_inj in E. Qed.

Lemma step_capacity cap s s' : step cap s s' -> capacity_ok cap s -> capacity_ok cap s'.
Proof.
  intros Hst Hs. destruct Hst as
    [s d Hd|s now t lease limits Hc|s t lease call|s t lease|s now t call Hin|s call ch|s call|s call].
  - intros t. unfold trunk_leases. destruct (leases_tick (leases_key (admissionPrefix t)) s
      (s_now s + d) ltac:(lia)) as [->| ->]; [apply Hs|rewrite map_size_empty; lia].
  - apply (capacity_method cap t); [|clear Hs|done].
    + intros t' Ht o. unfold Acquire. keeps_tac. apply frames_AcquireCallLease;
        [apply not_eq_sym, keys_differ|by apply other_lease_key].
    + revert s. unfold trunk_leases. change (bounds (leases_key (admissionPrefix t)) (cap t)
        (Acquire now t lease limits)). unfold bounds, Acquire. keeps_tac.
      by apply bounds_AcquireCallLease.
  - apply (capacity_method cap t); [|clear Hs|done].
    + intros t' Ht o. unfold Bind. keeps_tac. by apply frames_BindCallLease, other_lease_key.
    + revert s. change (bounds (leases_key (admissionPrefix t)) (cap t) (Bind t lease call)).
      unfold bounds, Bind. keeps_tac. apply bounds_BindCallLease.
  - apply (capacity_method cap t); [|clear Hs|done].
    + intros t' Ht o. unfold Release. keeps_tac.
      by apply frames_ReleaseCallLease, other_lease_key.
    + revert s. change (bounds (leases_key (admissionPrefix t)) (cap t) (Release t lease)).
      unfold bounds, Release. keeps_tac. apply bounds_ReleaseCallLease.
  - apply (capacity_method cap t); [|clear Hs|done].
    + intros t' Ht o. unfold Refresh. keeps_tac.
      by apply frames_RefreshCallLease, other_lease_key.
    + intros Hb. unfold Refresh, throw_if. destruct (_ || _); [done|].
      rewrite (bind_eq (ret tt) _ s tt s eq_refl). by apply RefreshCallLease_known.
  - intros t. unfold trunk_leases. rewrite leases_frame; [apply Hs|]. intros o.
    unfold ChannelStore_Bind. keeps_tac; apply frames_Set, channel_not_lease.
  - intros t. unfold trunk_leases. rewrite leases_frame; [apply Hs|]. intros o.
    unfold ChannelStore_Get. keeps_tac; apply frames_Get.
  - intros t. unfold trunk_leases. rewrite leases_frame; [apply Hs|]. intros o.
    unfold ChannelStore_Delete. keeps_tac; apply frames_Delete, channel_not_lease.
Qed.


(** ** The channel store *)

Lemma TrimSpace_nonempty_idem ch : TrimSpace (TrimSpace ch) = TrimSpace ch.
Proof. apply TrimSpace_idem. Qed.

Lemma ChannelStore_Get_lookup call s :
  call <> uuid_Nil ->
  ChannelStore_Get call s =
  match get_str (channelKey call) s with
  | inl (Some v) => if decide (TrimSpace v = "") then (inr (Sentinel ErrChannelUnavailable), s)
                    else (inl (TrimSpace v), s)
  | inl None => (inr (Sentinel ErrChannelUnavailable), s)
  | inr e => (inr e, s)
  end.
Proof.
  intros Hc. unfold ChannelStore_Get. rewrite bool_decide_false by done.
  unfold throw_if, attempt, bind, Get, validateKey, GET, read, bind. simpl.
  destruct (get_str (channelKey call) s) as [[v|]|e] eqn:E; simpl; try done.
  - destruct (decide (TrimSpace v = "")) as [Hv|Hv].
    + by rewrite bool_decide_true.
    + by rewrite bool_decide_false.
  - unfold get_str in E. destruct (lookup_key _ s) as [[[]]|]; try discriminate; by injection E as <-.
Qed.

(** a bound channel is found for 24 hours, whatever else is bound, and not
    after; unbinding it makes it unavailable, and unbinding another call does not. *)
Theorem channel_binding call ch s t other :
  call <> uuid_Nil -> TrimSpace ch <> "" -> other <> call -> s_now s <= t ->
  let s1 := snd (ChannelStore_Bind call ch s) in
  fst (ChannelStore_Bind call ch s) = inl tt /\
  fst (ChannelStore_Get call (at_time t s1))
    = (if t <=? s_now s + 86400000 then inl (TrimSpace ch)
       else inr (Sentinel ErrChannelUnavailable)) /\
  fst (ChannelStore_Get call (at_time t (snd (ChannelStore_Delete call s1))))
    = inr (Sentinel ErrChannelUnavailable) /\
  fst (ChannelStore_Get call (at_time t (snd (ChannelStore_Delete other s1))))
    = fst (ChannelStore_Get call (at_time t s1)) /\
  fst (ChannelStore_Get call (at_time t (snd (ChannelStore_Bind other ch s1))))
    = fst (ChannelStore_Get call (at_time t s1)).
Proof.
  intros Hc Hch Ho Ht.
  assert (HB : forall c s0, c <> uuid_Nil -> ChannelStore_Bind c ch s0 =
    (inl tt, put (channelKey c) (VStr (TrimSpace ch)) (Some (s_now s0 + 86400000)) s0)).
  { intros c s0 Hne. unfold ChannelStore_Bind, throw_if. by rewrite !bool_decide_false by done. }
  assert (HD : forall c s0, c <> uuid_Nil ->
    snd (ChannelStore_Delete c s0) = del (channelKey c) s0).
  { intros c s0 Hne. unfold ChannelStore_Delete, throw_if. by rewrite bool_decide_false by done. }
  assert (Hk : other <> uuid_Nil -> channelKey call <> channelKey other).
  { intros _ E. by apply channelKey_inj in E. }
  cbv zeta. rewrite (HB call s Hc). cbn [fst snd]. split; [done|].
  rewrite !ChannelStore_Get_lookup by done. rewrite (HD call) by done.
  set (s1 := put _ _ _ s).
  assert (Hsame : forall s2, s_keys s2 !! channelKey call = s_keys s1 !! channelKey call ->
    get_str (channelKey call) (at_time t s2) = get_str (channelKey call) (at_time t s1)).
  { intros s2 H2. unfold get_str, lookup_key. simpl. by rewrite H2. }
  split_and!.
  - unfold get_str, lookup_key, s1. simpl. rewrite lookup_insert_eq. unfold live. simpl.
    destruct (t <=? s_now s + 86400000); [|done]. rewrite TrimSpace_idem.
    by rewrite decide_False.
  - unfold get_str, lookup_key. simpl. by rewrite lookup_delete_eq.
  - destruct (decide (other = uuid_Nil)) as [->|Hn]; [done|]. rewrite HD by done.
    rewrite Hsame; [by repeat case_match|]. simpl. by rewrite lookup_delete_ne by (symmetry; auto).
  - destruct (decide (other = uuid_Nil)) as [->|Hn]; [done|]. rewrite HB by done. simpl snd.
    rewrite Hsame; [by repeat case_match|]. simpl. by rewrite (lookup_insert_ne _ (channelKey other)) by (symmetry; auto).
Qed.

(** ** What each method leaves for the call it is given *)

Definition trunk_zset (trunk : UUID) (s : Store) : result (gmap string Z) :=
  get_zset (leases_key (admissionPrefix trunk)) s.

Lemma Release_frees trunk lease s :
  trunk <> uuid_Nil -> lease <> "" -> trunk_leases trunk (snd (Release trunk lease s)) !! lease = None.
Proof.
  intros Ht Hl. unfold Release, throw_if. rewrite !bool_decide_false by done.
  rewrite (bind_eq (ret tt) _ s tt s eq_refl). unfold ReleaseCallLease, validateKey, validate, throw_if.
  rewrite !bool_decide_false by done. simpl. repeat rewrite (bind_eq (ret tt) _ s tt s eq_refl).
  rewrite wrap_snd. unfold trunk_leases, ZREM, bind, read, modify. simpl.
  destruct (get_zset _ s) as [m|e] eqn:E; simpl.
  - rewrite leases_write. apply lookup_delete_eq.
  - unfold leases. by rewrite E.
Qed.
Lemma Release_other trunk lease s t :
  t <> trunk -> trunk_leases t (snd (Release trunk lease s)) = trunk_leases t s.
Proof.
  intros Hne. apply leases_frame. intros o. unfold Release. keeps_tac.
  by apply frames_ReleaseCallLease, other_lease_key.
Qed.
Lemma Release_none t trunk lease s x :
  trunk_leases t s !! x = None -> trunk_leases t (snd (Release trunk lease s)) !! x = None.
Proof.
  destruct (decide (t = trunk)) as [->|Hne]; [|by rewrite Release_other].
  revert s. change (keeps (fun s => trunk_leases trunk s !! x = None) (Release trunk lease)).
  unfold Release, ReleaseCallLease, validateKey, validate. keeps_tac. clear. intros s Hs.
  unfold trunk_leases, ZREM, bind, read, modify in *.
  destruct (get_zset _ s) as [m|e] eqn:E; [|done]. simpl. rewrite leases_write.
  rewrite (zset_leases _ _ _ E) in Hs. apply lookup_delete_None. by right.
Qed.
Lemma Delete_leases call s t : trunk_leases t (snd (ChannelStore_Delete call s)) = trunk_leases t s.
Proof.
  apply leases_frame. intros o. unfold ChannelStore_Delete. keeps_tac.
  apply frames_Delete, channel_not_lease.
Qed.
Lemma Release_channel trunk lease s call :
  lookup_key (channelKey call) (snd (Release trunk lease s)) = lookup_key (channelKey call) s.
Proof.
  assert (H : frames (channelKey call) (Release trunk lease)); [|by apply (H _ s)].
  intros o. unfold Release. keeps_tac.
  apply frames_ReleaseCallLease, not_eq_sym, channel_not_lease.
Qed.
Lemma Delete_channel call s :
  call <> uuid_Nil -> lookup_key (channelKey call) (snd (ChannelStore_Delete call s)) = None.
Proof.
  intros H. unfold ChannelStore_Delete, throw_if. rewrite bool_decide_false by done. simpl.
  apply lookup_del.
Qed.
Lemma Get_unbound call s :
  call <> uuid_Nil -> lookup_key (channelKey call) s = None ->
  fst (ChannelStore_Get call s) = inr (Sentinel ErrChannelUnavailable).
Proof. intros Hc Hk. rewrite ChannelStore_Get_lookup by done. unfold get_str. by rewrite Hk. Qed.

(** A refresh that Redis can serve leaves the lease with a full term. *)
Lemma Refresh_run now trunk call s m :
  trunk <> uuid_Nil -> call <> uuid_Nil -> trunk_zset trunk s = inl m ->
  fst (Refresh now trunk call s) = inl tt /\
  trunk_leases trunk (snd (Refresh now trunk call s)) !! uuid_String call = Some (now + 93600000) /\
  forall c, lookup_key (channelKey c) (snd (Refresh now trunk call s)) = lookup_key (channelKey c) s.
Proof.
  intros Ht Hc Hm. assert (Hne : uuid_String call <> "") by apply uuid_String_nonempty.
  assert (Hf : forall c, frames (channelKey c) (Refresh now trunk call)).
  { intros c o. unfold Refresh. keeps_tac. apply frames_RefreshCallLease, not_eq_sym, channel_not_lease. }
  assert (fst (Refresh now trunk call s) = inl tt /\
    trunk_leases trunk (snd (Refresh now trunk call s)) !! uuid_String call = Some (now + 93600000))
    as [? ?]; [|split_and!; [done..|intros c; by apply (Hf c _ s)]].
  unfold Refresh, throw_if. rewrite !bool_decide_false by done.
  rewrite (bind_eq (ret tt) _ s tt s eq_refl).
  unfold RefreshCallLease, validateKey, validate, throw_if.
  rewrite !bool_decide_false by done. simpl. repeat rewrite (bind_eq (ret tt) _ s tt s eq_refl).
  unfold bind, wrap, trunk_zset in *. rewrite (ZADD_run _ _ _ _ _ Hm). split; [done|].
  unfold trunk_leases. change (snd _) with
    (snd (PEXPIRE (leases_key (admissionPrefix trunk)) (Milliseconds callAdmissionLeaseTTL)
      (write_zset (leases_key (admissionPrefix trunk))
         (<[uuid_String call := now + Milliseconds callAdmissionLeaseTTL]> m) s))).
  rewrite leases_PEXPIRE_pos by done. rewrite leases_write. by rewrite lookup_insert_eq.
Qed.

Lemma ChannelStore_Bind_run call ch s :
  call <> uuid_Nil -> TrimSpace ch <> "" ->
  fst (ChannelStore_Bind call ch s) = inl tt /\
  fst (ChannelStore_Get call (snd (ChannelStore_Bind call ch s))) = inl (TrimSpace ch) /\
  (forall t, lookup_key (leases_key (admissionPrefix t)) (snd (ChannelStore_Bind call ch s))
             = lookup_key (leases_key (admissionPrefix t)) s).
Proof.
  intros Hc Hch. unfold ChannelStore_Bind, throw_if. rewrite !bool_decide_false by done.
  simpl. split_and!; [done| |].
  - rewrite ChannelStore_Get_lookup by done. unfold get_str. simpl.
    rewrite lookup_put. cbv zeta. unfold live. simpl. rewrite (proj2 (Z.leb_le _ _)) by lia.
    rewrite TrimSpace_idem. by rewrite decide_False.
  - intros t. apply lookup_put_ne, channel_not_lease.
Qed.

(** A request for a lease the trunk does not hold: granted, or no lease of that name is left. *)
Lemma acquire_script_new ck lk now cps conc score lease ttl s :
  ck <> lk -> 0 < ttl -> leases lk s !! lease = None ->
  let r := acquire_script ck lk now cps conc score lease ttl s in
  (fst r = inl "ok" /\ is_Some (leases lk (snd r) !! lease)) \/
  (fst r <> inl "ok" /\ leases lk (snd r) !! lease = None).
Proof.
  intros Hne Httl Hnone. cbv zeta. destruct (get_zset lk s) as [m|e] eqn:Hm.
  2: { right. unfold acquire_script, ZREMRANGEBYSCORE_upto, bind, read. by rewrite Hm. }
  rewrite (acquire_script_run _ _ _ _ _ _ _ _ _ _ Hm). cbv zeta.
  rewrite (zset_leases _ _ _ Hm) in Hnone.
  assert (Hp : purge now m !! lease = None) by by apply map_lookup_filter_None_2; left.
  rewrite decide_False by (rewrite Hp; by intros [? ?]).
  pose proof (get_zset_write lk (purge now m) s) as H1. set (s1 := write_zset lk _ s) in *.
  pose proof (zset_frame lk (count_cps ck) s1 (frames_count_cps lk ck (not_eq_sym Hne))) as H2.
  rewrite H1 in H2. destruct (count_cps ck s1) as [[v|e] s2]; simpl in H2 |- *.
  2: { right. by rewrite (zset_leases _ _ _ H2). }
  destruct (cps <? v); [right; simpl; by rewrite (zset_leases _ _ _ H2)|].
  rewrite (bind_eq _ _ _ _ _ (ZCARD_run _ _ _ H2)).
  destruct (conc <=? _); [right; simpl; by rewrite (zset_leases _ _ _ H2)|].
  left. destruct (grant_run lk score lease ttl _ _ H2) as (Hr & _ & Hl). split; [done|].
  rewrite (Hl Httl), lookup_insert_eq. by eexists.
Qed.

Lemma Acquire_new now trunk lease limits s :
  trunk_leases trunk s !! lease = None ->
  let r := Acquire now trunk lease limits s in
  match fst r with
  | inl _ => trunk <> uuid_Nil /\ lease <> "" /\ is_Some (trunk_leases trunk (snd r) !! lease)
  | inr _ => trunk_leases trunk (snd r) !! lease = None
  end /\ forall t, t <> trunk -> trunk_leases t (snd r) = trunk_leases t s.
Proof.
  intros Hnone. cbv zeta. split.
  2: { intros t Ht. apply leases_frame. intros o. unfold Acquire. keeps_tac.
       apply frames_AcquireCallLease; [apply not_eq_sym, keys_differ|by apply other_lease_key]. }
  unfold Acquire, throw_if.
  destruct (bool_decide_reflect (trunk = uuid_Nil)); [done|].
  destruct (bool_decide_reflect (lease = "")); [done|]. simpl.
  rewrite (bind_eq (ret tt) _ s tt s eq_refl).
  destruct (Z.ltb_spec (MaxCPS limits) 1); [done|].
  destruct (Z.ltb_spec (MaxConcurrentCalls limits) 1); [done|]. simpl.
  rewrite (bind_eq (ret tt) _ s tt s eq_refl).
  assert (Hpre : admissionPrefix trunk <> "") by done.
  destruct (acquire_script_new (cps_key (admissionPrefix trunk)) (leases_key (admissionPrefix trunk))
    now (MaxCPS limits) (MaxConcurrentCalls limits) (now + Milliseconds callAdmissionLeaseTTL) lease
    (Milliseconds callAdmissionLeaseTTL) s (keys_differ _ _) ltac:(done) Hnone) as [[Hr Hl]|[Hr Hl]];
    unfold bind, wrap; rewrite AcquireCallLease_run by (done || lia);
    destruct (acquire_script _ _ _ _ _ _ _ _ s) as [[r|e] s']; simpl in *; try done.
  - injection Hr as ->. done.
  - rewrite bool_decide_false by congruence. by repeat case_decide.
Qed.

(** Only the lease asked for can appear. *)
Lemma Acquire_other_lease now t trunk lease limits y s :
  y <> lease -> trunk_leases t s !! y = None ->
  trunk_leases t (snd (Acquire now trunk lease limits s)) !! y = None.
Proof.
  intros Hy Hs. destruct (decide (t = trunk)) as [->|Hne].
  2: { unfold trunk_leases. rewrite leases_frame; [done|]. intros o. unfold Acquire. keeps_tac.
       apply frames_AcquireCallLease; [apply not_eq_sym, keys_differ|by apply other_lease_key]. }
  revert s Hs. set (lk := leases_key (admissionPrefix trunk)).
  change (keeps (fun s => leases lk s !! y = None) (Acquire now trunk lease limits)).
  assert (Hadd : forall z, keeps (fun s => leases lk s !! y = None) (ZADD lk z lease)).
  { intros z s Hs. unfold ZADD, bind, read, modify. destruct (get_zset lk s) as [m|e] eqn:E; [|done].
    simpl. rewrite leases_write, lookup_insert_ne by done. by rewrite (zset_leases _ _ _ E) in Hs. }
  assert (Hpx : forall k z, keeps (fun s => leases lk s !! y = None) (PEXPIRE k z)).
  { intros k z s Hs. destruct (decide (k = lk)) as [->|Hk].
    - destruct (leases_PEXPIRE lk z s) as [->| ->]; [done|apply lookup_empty].
    - rewrite leases_frame; [done|]. by apply frames_PEXPIRE, not_eq_sym. }
  assert (Hinc : keeps (fun s => leases lk s !! y = None) (INCR (cps_key (admissionPrefix trunk)))).
  { intros s Hs. rewrite leases_frame; [done|]. apply frames_INCR, not_eq_sym, keys_differ. }
  assert (Hrd : forall A (f : Store -> result A), keeps (fun s => leases lk s !! y = None) (read f)).
  { intros A f s Hs. done. }
  unfold Acquire, AcquireCallLease, acquire_script, validateKey, validate, ZSCORE, ZCARD. fold lk. keeps_tac.
  intros s Hs. unfold ZREMRANGEBYSCORE_upto, bind, read, modify.
  destruct (get_zset lk s) as [m|e] eqn:E; [|done]. simpl. rewrite leases_write.
  rewrite (zset_leases _ _ _ E) in Hs. by apply map_lookup_filter_None_2; left.
Qed.

Lemma Bind_held trunk lease call s x :
  trunk <> uuid_Nil -> lease <> "" -> call <> uuid_Nil -> trunk_leases trunk s !! lease = Some x ->
  fst (Bind trunk lease call s) = inl tt /\
  trunk_leases trunk (snd (Bind trunk lease call s))
    = <[uuid_String call := x]> (delete lease (trunk_leases trunk s)) /\
  forall t, t <> trunk -> trunk_leases t (snd (Bind trunk lease call s)) = trunk_leases t s.
Proof.
  intros Ht Hl Hc Hx. apply and_assoc. split.
  2: { intros t Hne. apply leases_frame. intros o. unfold Bind. keeps_tac.
       by apply frames_BindCallLease, other_lease_key. }
  unfold trunk_leases in *. destruct (get_zset (leases_key (admissionPrefix trunk)) s) as [m|e] eqn:Hm.
  2: { unfold leases in Hx. by rewrite Hm in Hx. }
  rewrite (zset_leases _ _ _ Hm) in *.
  unfold Bind, throw_if. rewrite !bool_decide_false by done. simpl.
  rewrite (bind_eq (ret tt) _ s tt s eq_refl). unfold BindCallLease, validateKey, validate, throw_if.
  rewrite !bool_decide_false by (done || apply uuid_String_nonempty). simpl.
  repeat rewrite (bind_eq (ret tt) _ s tt s eq_refl). unfold bind_script, wrap, bind.
  rewrite (ZSCORE_run _ lease _ _ Hm), Hx. rewrite (ZREM_run _ lease _ _ Hm).
  rewrite (ZADD_run _ _ _ _ _ (get_zset_write _ (delete lease m) s)). simpl.
  split; [done|]. apply leases_write.
Qed.
End Limiter.

(** ** Runs *)
Section Run.
#[local] Existing Instance decimal_uuid.

Definition ex_limits : Limits := {| Routing.MaxCPS := 5; Routing.MaxConcurrentCalls := 1 |}.
Definition ex_empty : Store := {| s_now := 0; s_keys := ∅ |}.
(** Two calls compete for a trunk of one line. *)
Definition ex_full : Store := snd (Acquire 0 7 "b" ex_limits (snd (Acquire 0 7 "a" ex_limits ex_empty))).


Lemma channel_binding_witness :
  fst (ChannelStore_Get 3 (at_time 5 (snd (ChannelStore_Bind 3 " chan-1 " ex_empty)))) = inl "chan-1".
Proof.
  destruct (channel_binding 3 " chan-1 " ex_empty 5 4) as (_ & H & _); try done.
Defined.
End Run.
End Admission.
