(* ===== verification/Trunks.v ===== *)
(** * Trunks: tables and validation

    [telephony/trunks]: the tables of [migrations/013], [014] and [015] with
    their constraints, the statements of [database/queries/trunks.sql], and the
    normalisation and validation of requests. The service is in
    [TrunkService.v], the health checks in [TrunkHealth.v]. *)

From stdpp Require Import sorting.
From S2P Require Import Prelude Routing.
Local Open Scope Z_scope.

Module Trunks.

(** ** Tables *)
Record Trunk := {
  t_ID : UUID;
  t_OrganizationID : UUID;
  t_Name : string;
  t_Direction : string;
  t_Status : string;
  t_OutboundAuthMethod : string;
  t_AuthUsername : option string;
  t_AuthRealm : option string;
  t_AuthSecretCiphertext : option string;
  t_InboundEnabled : bool;
  t_InboundAuthMethod : string;
  t_InboundUsername : option string;
  t_InboundRealm : option string;
  t_InboundSecretCiphertext : option string;
  t_MaxCps : Z;
  t_MaxConcurrentCalls : Z;
  t_Codecs : list string;
  t_SupportsVideo : bool;
  t_SupportsFax : bool;
  t_CreatedAt : Z;
  t_UpdatedAt : Z;
}.
Record DigestRow := { dg_OrganizationID : UUID; dg_Username : string; dg_Realm : string; dg_HA1 : string }.
Record SourceIP := { si_ID : UUID; si_OrganizationID : UUID; si_TrunkID : UUID; si_CIDR : string; si_CreatedAt : Z }.
Record TrunkEndpoint := {
  e_ID : UUID;
  e_OrganizationID : UUID;
  e_TrunkID : UUID;
  e_Host : string;
  e_Port : Z;
  e_Transport : string;
  e_Direction : string;
  e_Priority : Z;
  e_Weight : Z;
  e_Enabled : bool;
  e_HealthStatus : string;
  e_ConsecutiveFailures : Z;
  e_LastCheckedAt : option Z;
  e_LastResponseCode : option Z;
  e_LastLatencyMs : option Z;
  e_LastError : option string;
  e_CooldownUntil : option Z;
  e_CreatedAt : Z;
  e_UpdatedAt : Z;
}.
(** *** Responses (model.go)

    What a client and the outbox see of a row. *)
Record Response := {
  r_ID : UUID; r_OrganizationID : UUID; r_Name : string; r_Direction : string; r_Status : string;
  r_OutboundAuthMethod : string; r_OutboundUsername : option string; r_OutboundRealm : option string;
  r_HasOutboundCredentials : bool;
  r_InboundEnabled : bool; r_InboundAuthMethod : string; r_InboundUsername : option string;
  r_InboundRealm : option string; r_HasInboundCredentials : bool;
  r_MaxCPS : Z; r_MaxConcurrentCalls : Z; r_Codecs : list string; r_SupportsVideo : bool; r_SupportsFax : bool;
  r_CreatedAt : Z; r_UpdatedAt : Z;
}.
Definition response (t : Trunk) : Response := {|
  r_ID := t_ID t; r_OrganizationID := t_OrganizationID t; r_Name := t_Name t; r_Direction := t_Direction t;
  r_Status := t_Status t; r_OutboundAuthMethod := t_OutboundAuthMethod t; r_OutboundUsername := t_AuthUsername t;
  r_OutboundRealm := t_AuthRealm t; r_HasOutboundCredentials := bool_decide (is_Some (t_AuthSecretCiphertext t));
  r_InboundEnabled := t_InboundEnabled t; r_InboundAuthMethod := t_InboundAuthMethod t;
  r_InboundUsername := t_InboundUsername t; r_InboundRealm := t_InboundRealm t;
  r_HasInboundCredentials := bool_decide (is_Some (t_InboundSecretCiphertext t));
  r_MaxCPS := t_MaxCps t; r_MaxConcurrentCalls := t_MaxConcurrentCalls t; r_Codecs := t_Codecs t;
  r_SupportsVideo := t_SupportsVideo t; r_SupportsFax := t_SupportsFax t;
  r_CreatedAt := t_CreatedAt t; r_UpdatedAt := t_UpdatedAt t |}.
Record SourceIPResponse := { sr_ID : UUID; sr_TrunkID : UUID; sr_CIDR : string; sr_CreatedAt : Z }.
Definition sourceIPResponse (s : SourceIP) : SourceIPResponse :=
  {| sr_ID := si_ID s; sr_TrunkID := si_TrunkID s; sr_CIDR := si_CIDR s; sr_CreatedAt := si_CreatedAt s |}.
(** [endpointResponse] copies every column. *)
Definition endpointResponse (e : TrunkEndpoint) : TrunkEndpoint := e.

(** A domain event, as [insertEvent] writes it to the outbox. *)
Inductive Resource := RTrunk (r : Response) | REndpoint (e : TrunkEndpoint).
Record Event := {
  ev_Type : string;
  ev_OrganizationID : UUID;
  ev_TrunkID : UUID;
  ev_EndpointID : option UUID;
  ev_Resource : Resource;
  ev_OccurredAt : Z;
}.

(** Digest rows are keyed by trunk and direction; [organizations] tells which are
    active and not deleted. *)
Record DB := {
  organizations : gmap UUID bool;
  trunks : gmap UUID Trunk;
  digests : gmap (UUID * string) DigestRow;
  source_ips : gmap UUID SourceIP;
  endpoints : gmap UUID TrunkEndpoint;
  outbox : list Event;
}.
Definition set_trunks (m : gmap UUID Trunk) (d : DB) : DB :=
  {| organizations := organizations d; trunks := m; digests := digests d; source_ips := source_ips d;
     endpoints := endpoints d; outbox := outbox d |}.
Definition set_digests (m : gmap (UUID * string) DigestRow) (d : DB) : DB :=
  {| organizations := organizations d; trunks := trunks d; digests := m; source_ips := source_ips d;
     endpoints := endpoints d; outbox := outbox d |}.
Definition set_source_ips (m : gmap UUID SourceIP) (d : DB) : DB :=
  {| organizations := organizations d; trunks := trunks d; digests := digests d; source_ips := m;
     endpoints := endpoints d; outbox := outbox d |}.
Definition set_endpoints (m : gmap UUID TrunkEndpoint) (d : DB) : DB :=
  {| organizations := organizations d; trunks := trunks d; digests := digests d; source_ips := source_ips d;
     endpoints := m; outbox := outbox d |}.
Definition set_outbox (l : list Event) (d : DB) : DB :=
  {| organizations := organizations d; trunks := trunks d; digests := digests d; source_ips := source_ips d;
     endpoints := endpoints d; outbox := l |}.

(** ** Constraints *)
Definition one_of (s : string) (l : list string) : bool := bool_decide (s ∈ l).
Definition trunk_directions : list string := ["inbound"; "outbound"; "bidirectional"].
(** [chk_trunks_outbound_auth_fields] and [chk_trunks_inbound_auth_fields]. *)
Definition auth_fields (none method : string) (username realm ciphertext : option string) : bool :=
  (bool_decide (method = none) && bool_decide (username = None) && bool_decide (realm = None)
   && bool_decide (ciphertext = None))
  || match username, realm, ciphertext with
     | Some u, Some r, Some c =>
         bool_decide (method = "digest") && not_blank u && not_blank r && negb (bool_decide (c = ""))
     | _, _, _ => false
     end.
Definition trunk_row_ok (t : Trunk) : bool :=
  not_blank (t_Name t) && one_of (t_Direction t) trunk_directions && one_of (t_Status t) ["active"; "disabled"]
  && one_of (t_OutboundAuthMethod t) ["none"; "digest"]
  && auth_fields "none" (t_OutboundAuthMethod t) (t_AuthUsername t) (t_AuthRealm t) (t_AuthSecretCiphertext t)
  && one_of (t_InboundAuthMethod t) ["ip"; "digest"]
  && auth_fields "ip" (t_InboundAuthMethod t) (t_InboundUsername t) (t_InboundRealm t) (t_InboundSecretCiphertext t)
  && (0 <? t_MaxCps t) && (0 <? t_MaxConcurrentCalls t).
Definition lower_hex (c : ascii) : bool := byte_in 48 57 c || byte_in 97 102 c.
Definition digest_row_ok (direction : string) (g : DigestRow) : bool :=
  one_of direction ["inbound"; "outbound"] && not_blank (dg_Username g) && not_blank (dg_Realm g)
  && forallb lower_hex (bytes (dg_HA1 g)) && bool_decide (length (bytes (dg_HA1 g)) = 32%nat).

Section Constraints.
(** PostgreSQL's [\s]. *)
Context (has_space : string -> bool).
Definition opt_in (lo hi : Z) (v : option Z) : bool :=
  match v with Some z => (lo <=? z) && (z <=? hi) | None => true end.
Definition endpoint_row_ok (e : TrunkEndpoint) : bool :=
  not_blank (e_Host e) && negb (has_space (e_Host e)) && (1 <=? e_Port e) && (e_Port e <=? 65535)
  && one_of (e_Transport e) ["udp"; "tcp"; "tls"] && one_of (e_Direction e) trunk_directions
  && (0 <=? e_Priority e) && (0 <? e_Weight e)
  && one_of (e_HealthStatus e) ["unknown"; "healthy"; "unhealthy"]
  && (0 <=? e_ConsecutiveFailures e) && (e_ConsecutiveFailures e <=? max_int32)
  && opt_in 100 699 (e_LastResponseCode e) && opt_in 0 max_int32 (e_LastLatencyMs e).
End Constraints.

(** The unique constraints, for a row with identifier [id]. *)
Definition name_taken (d : DB) (id org : UUID) (name : string) : bool :=
  existsb (fun p => negb (bool_decide (fst p = id)) && bool_decide (t_OrganizationID (snd p) = org)
                    && bool_decide (t_Name (snd p) = name)) (map_to_list (trunks d)).
(** [uq_inbound_trunk_digest_identity]. *)
Definition identity_taken (d : DB) (trunk : UUID) (username realm : string) : bool :=
  existsb (fun p => bool_decide (snd (fst p) = "inbound") && negb (bool_decide (fst (fst p) = trunk))
                    && bool_decide (dg_Username (snd p) = username) && bool_decide (dg_Realm (snd p) = realm))
    (map_to_list (digests d)).
Definition cidr_taken (d : DB) (trunk : UUID) (cidr : string) : bool :=
  existsb (fun p => bool_decide (si_TrunkID (snd p) = trunk) && bool_decide (si_CIDR (snd p) = cidr))
    (map_to_list (source_ips d)).
Definition target (e : TrunkEndpoint) : UUID * string * Z * string * string :=
  (e_TrunkID e, e_Host e, e_Port e, e_Transport e, e_Direction e).
Definition target_taken (d : DB) (e : TrunkEndpoint) : bool :=
  existsb (fun p => negb (bool_decide (fst p = e_ID e)) && bool_decide (target (snd p) = target e))
    (map_to_list (endpoints d)).

Definition put_trunk (t : Trunk) (d : DB) : result (Trunk * DB) :=
  if negb (trunk_row_ok t) then inr (check_violation "trunks") else
  if name_taken d (t_ID t) (t_OrganizationID t) (t_Name t) then inr (unique_violation "uq_trunks_org_name") else
  inl (t, set_trunks (<[t_ID t := t]> (trunks d)) d).
Definition put_digest (trunk : UUID) (direction : string) (g : DigestRow) (d : DB) : result (unit * DB) :=
  if negb (digest_row_ok direction g) then inr (check_violation "trunk_digest_credentials") else
  if bool_decide (direction = "inbound") && identity_taken d trunk (dg_Username g) (dg_Realm g)
  then inr (unique_violation "uq_inbound_trunk_digest_identity") else
  inl (tt, set_digests (<[(trunk, direction) := g]> (digests d)) d).

(** ** Statements on trunks *)
Section TrunkQueries.
Context (now : Z).

Definition org_active (org : UUID) (d : DB) : bool := bool_decide (organizations d !! org = Some true).
Definition own_trunk (org id : UUID) (d : DB) : option Trunk :=
  match trunks d !! id with
  | Some t => if decide (t_OrganizationID t = org) then Some t else None
  | None => None
  end.

Record CreateTrunkParams := {
  p_Name : string; p_Direction : option string; p_Status : option string;
  p_Outbound : option (string * string * string); p_InboundEnabled : option bool;
  p_InboundAuthMethod : option string; p_Inbound : option (string * string * string);
  p_MaxCps : option Z; p_MaxConcurrentCalls : option Z; p_Codecs : option (list string);
  p_SupportsVideo : option bool; p_SupportsFax : option bool;
}.
Definition fst3 {A B C} (p : A * B * C) : A := fst (fst p).
Definition snd3 {A B C} (p : A * B * C) : B := snd (fst p).
Definition new_trunk (id org : UUID) (p : CreateTrunkParams) : Trunk := {|
  t_ID := id; t_OrganizationID := org; t_Name := p_Name p; t_Direction := default "bidirectional" (p_Direction p);
  t_Status := default "active" (p_Status p);
  t_OutboundAuthMethod := match p_Outbound p with Some _ => "digest" | None => "none" end;
  t_AuthUsername := fst3 <$> p_Outbound p; t_AuthRealm := snd3 <$> p_Outbound p;
  t_AuthSecretCiphertext := snd <$> p_Outbound p; t_InboundEnabled := default false (p_InboundEnabled p);
  t_InboundAuthMethod := default "ip" (p_InboundAuthMethod p);
  t_InboundUsername := fst3 <$> p_Inbound p; t_InboundRealm := snd3 <$> p_Inbound p;
  t_InboundSecretCiphertext := snd <$> p_Inbound p; t_MaxCps := default 10 (p_MaxCps p);
  t_MaxConcurrentCalls := default 100 (p_MaxConcurrentCalls p);
  t_Codecs := default ["PCMU"; "PCMA"] (p_Codecs p);
  t_SupportsVideo := default false (p_SupportsVideo p); t_SupportsFax := default false (p_SupportsFax p);
  t_CreatedAt := now; t_UpdatedAt := now |}.
Definition CreateTrunk (id org : UUID) (p : CreateTrunkParams) (d : DB) : result (Trunk * DB) :=
  if negb (org_active org d) then no_rows else
  if bool_decide (is_Some (trunks d !! id)) then inr (unique_violation "trunks_pkey")
  else put_trunk (new_trunk id org p) d.

Definition InsertTrunkDigestCredential (org trunk : UUID) (direction username realm ha1 : string) (d : DB)
    : result (unit * DB) :=
  match own_trunk org trunk d with
  | None => inl (tt, d)
  | Some _ =>
      if bool_decide (is_Some (digests d !! (trunk, direction)))
      then inr (unique_violation "trunk_digest_credentials_pkey")
      else put_digest trunk direction
             {| dg_OrganizationID := org; dg_Username := username; dg_Realm := realm; dg_HA1 := ha1 |} d
  end.

Definition GetTrunkByID (org id : UUID) (d : DB) : result Trunk :=
  match own_trunk org id d with Some t => inl t | None => no_rows end.

Definition trunk_created_ge (a b : Trunk) : Prop := t_CreatedAt b <= t_CreatedAt a.
#[local] Instance trunk_created_ge_dec : RelDecision trunk_created_ge.
Proof. intros a b. unfold trunk_created_ge. apply _. Defined.
Definition ListTrunksByOrganizationID (org : UUID) (d : DB) : list Trunk :=
  merge_sort trunk_created_ge (filter (fun t => t_OrganizationID t = org) (snd <$> map_to_list (trunks d))).

Record UpdateRequest := {
  u_Name : option string; u_Direction : option string; u_Status : option string;
  u_InboundEnabled : option bool; u_MaxCPS : option Z; u_MaxConcurrentCalls : option Z;
  u_Codecs : option (list string); u_SupportsVideo : option bool; u_SupportsFax : option bool;
}.
Definition update_trunk_row (u : UpdateRequest) (t : Trunk) : Trunk := {|
  t_ID := t_ID t; t_OrganizationID := t_OrganizationID t; t_Name := default (t_Name t) (u_Name u);
  t_Direction := default (t_Direction t) (u_Direction u); t_Status := default (t_Status t) (u_Status u);
  t_OutboundAuthMethod := t_OutboundAuthMethod t; t_AuthUsername := t_AuthUsername t;
  t_AuthRealm := t_AuthRealm t; t_AuthSecretCiphertext := t_AuthSecretCiphertext t;
  t_InboundEnabled := default (t_InboundEnabled t) (u_InboundEnabled u);
  t_InboundAuthMethod := t_InboundAuthMethod t; t_InboundUsername := t_InboundUsername t;
  t_InboundRealm := t_InboundRealm t; t_InboundSecretCiphertext := t_InboundSecretCiphertext t;
  t_MaxCps := default (t_MaxCps t) (u_MaxCPS u);
  t_MaxConcurrentCalls := default (t_MaxConcurrentCalls t) (u_MaxConcurrentCalls u);
  t_Codecs := default (t_Codecs t) (u_Codecs u); t_SupportsVideo := default (t_SupportsVideo t) (u_SupportsVideo u);
  t_SupportsFax := default (t_SupportsFax t) (u_SupportsFax u);
  t_CreatedAt := t_CreatedAt t; t_UpdatedAt := now |}.
Definition UpdateTrunk (org id : UUID) (u : UpdateRequest) (d : DB) : result (Trunk * DB) :=
  match own_trunk org id d with Some t => put_trunk (update_trunk_row u t) d | None => no_rows end.
Definition set_status (s : string) : UpdateRequest :=
  {| u_Name := None; u_Direction := None; u_Status := Some s; u_InboundEnabled := None; u_MaxCPS := None;
     u_MaxConcurrentCalls := None; u_Codecs := None; u_SupportsVideo := None; u_SupportsFax := None |}.
Definition DisableTrunk (org id : UUID) (d : DB) : result (Trunk * DB) :=
  match own_trunk org id d with
  | Some t => if bool_decide (t_Status t = "active") then put_trunk (update_trunk_row (set_status "disabled") t) d
              else no_rows
  | None => no_rows
  end.

(** The authentication columns of one direction. *)
Definition with_outbound (method : string) (c : option (string * string * string)) (t : Trunk) : Trunk := {|
  t_ID := t_ID t; t_OrganizationID := t_OrganizationID t; t_Name := t_Name t; t_Direction := t_Direction t;
  t_Status := t_Status t; t_OutboundAuthMethod := method; t_AuthUsername := fst3 <$> c; t_AuthRealm := snd3 <$> c;
  t_AuthSecretCiphertext := snd <$> c; t_InboundEnabled := t_InboundEnabled t;
  t_InboundAuthMethod := t_InboundAuthMethod t; t_InboundUsername := t_InboundUsername t;
  t_InboundRealm := t_InboundRealm t; t_InboundSecretCiphertext := t_InboundSecretCiphertext t;
  t_MaxCps := t_MaxCps t; t_MaxConcurrentCalls := t_MaxConcurrentCalls t; t_Codecs := t_Codecs t;
  t_SupportsVideo := t_SupportsVideo t; t_SupportsFax := t_SupportsFax t; t_CreatedAt := t_CreatedAt t;
  t_UpdatedAt := now |}.
Definition with_inbound (method : string) (c : option (string * string * string)) (t : Trunk) : Trunk := {|
  t_ID := t_ID t; t_OrganizationID := t_OrganizationID t; t_Name := t_Name t; t_Direction := t_Direction t;
  t_Status := t_Status t; t_OutboundAuthMethod := t_OutboundAuthMethod t; t_AuthUsername := t_AuthUsername t;
  t_AuthRealm := t_AuthRealm t; t_AuthSecretCiphertext := t_AuthSecretCiphertext t;
  t_InboundEnabled := t_InboundEnabled t; t_InboundAuthMethod := method; t_InboundUsername := fst3 <$> c;
  t_InboundRealm := snd3 <$> c; t_InboundSecretCiphertext := snd <$> c;
  t_MaxCps := t_MaxCps t; t_MaxConcurrentCalls := t_MaxConcurrentCalls t; t_Codecs := t_Codecs t;
  t_SupportsVideo := t_SupportsVideo t; t_SupportsFax := t_SupportsFax t; t_CreatedAt := t_CreatedAt t;
  t_UpdatedAt := now |}.

(** One statement writes the trunk and its digest row. [c]: username, realm, ciphertext. *)
Definition set_digest_auth (direction : string) (set : Trunk -> Trunk) (org id : UUID)
    (c : string * string * string) (ha1 : string) (d : DB) : result (unit * DB) :=
  match own_trunk org id d with
  | None => inl (tt, d)
  | Some t =>
      let? ' (_, d1) := put_trunk (set t) d in
      put_digest id direction
        {| dg_OrganizationID := org; dg_Username := fst3 c; dg_Realm := snd3 c; dg_HA1 := ha1 |} d1
  end.
Definition clear_digest_auth (direction : string) (set : Trunk -> Trunk) (org id : UUID) (d : DB)
    : result (unit * DB) :=
  match own_trunk org id d with
  | None => inl (tt, d)
  | Some t =>
      let? ' (_, d1) := put_trunk (set t) d in
      inl (tt, set_digests (delete (id, direction) (digests d1)) d1)
  end.
Definition SetTrunkOutboundDigestAuth (org id : UUID) (c : string * string * string) (ha1 : string) :=
  set_digest_auth "outbound" (with_outbound "digest" (Some c)) org id c ha1.
Definition ClearTrunkOutboundAuth (org id : UUID) := clear_digest_auth "outbound" (with_outbound "none" None) org id.
Definition SetTrunkInboundDigestAuth (org id : UUID) (c : string * string * string) (ha1 : string) :=
  set_digest_auth "inbound" (with_inbound "digest" (Some c)) org id c ha1.
Definition SetTrunkInboundIPAuth (org id : UUID) := clear_digest_auth "inbound" (with_inbound "ip" None) org id.

(** *** Source addresses *)
Definition CreateTrunkSourceIP (id org trunk : UUID) (cidr : string) (d : DB) : result (SourceIP * DB) :=
  match own_trunk org trunk d with
  | None => no_rows
  | Some _ =>
      if bool_decide (is_Some (source_ips d !! id)) then inr (unique_violation "trunk_source_ips_pkey") else
      if cidr_taken d trunk cidr then inr (unique_violation "uq_trunk_source_ips_trunk_cidr") else
      let s := {| si_ID := id; si_OrganizationID := org; si_TrunkID := trunk; si_CIDR := cidr; si_CreatedAt := now |} in
      inl (s, set_source_ips (<[id := s]> (source_ips d)) d)
  end.
Definition source_created_le (a b : SourceIP) : Prop := si_CreatedAt a <= si_CreatedAt b.
#[local] Instance source_created_le_dec : RelDecision source_created_le.
Proof. intros a b. unfold source_created_le. apply _. Defined.
Definition ListTrunkSourceIPs (org trunk : UUID) (d : DB) : list SourceIP :=
  merge_sort source_created_le
    (filter (fun s => si_TrunkID s = trunk /\ si_OrganizationID s = org) (snd <$> map_to_list (source_ips d))).
Definition DeleteTrunkSourceIP (org trunk id : UUID) (d : DB) : result (unit * DB) :=
  match source_ips d !! id with
  | Some s => if bool_decide (si_TrunkID s = trunk) && bool_decide (si_OrganizationID s = org)
              then inl (tt, set_source_ips (delete id (source_ips d)) d) else inl (tt, d)
  | None => inl (tt, d)
  end.
End TrunkQueries.

(** ** Statements on endpoints *)
Section EndpointQueries.
Context (has_space : string -> bool) (now : Z).

Definition put_trunk_endpoint (e : TrunkEndpoint) (d : DB) : result (TrunkEndpoint * DB) :=
  if negb (endpoint_row_ok has_space e) then inr (check_violation "trunk_endpoints") else
  if target_taken d e then inr (unique_violation "uq_trunk_endpoints_target") else
  inl (e, set_endpoints (<[e_ID e := e]> (endpoints d)) d).

Record EndpointCreateRequest := {
  ec_Host : string; ec_Port : option Z; ec_Transport : option string; ec_Direction : option string;
  ec_Priority : option Z; ec_Weight : option Z; ec_Enabled : option bool }.
Record EndpointUpdateRequest := {
  eu_Host : option string; eu_Port : option Z; eu_Transport : option string; eu_Direction : option string;
  eu_Priority : option Z; eu_Weight : option Z; eu_Enabled : option bool }.

Definition new_endpoint (id org trunk : UUID) (r : EndpointCreateRequest) : TrunkEndpoint := {|
  e_ID := id; e_OrganizationID := org; e_TrunkID := trunk; e_Host := ec_Host r; e_Port := default 5060 (ec_Port r);
  e_Transport := default "udp" (ec_Transport r); e_Direction := default "bidirectional" (ec_Direction r);
  e_Priority := default 10 (ec_Priority r); e_Weight := default 100 (ec_Weight r);
  e_Enabled := default true (ec_Enabled r); e_HealthStatus := "unknown"; e_ConsecutiveFailures := 0;
  e_LastCheckedAt := None; e_LastResponseCode := None; e_LastLatencyMs := None; e_LastError := None;
  e_CooldownUntil := None; e_CreatedAt := now; e_UpdatedAt := now |}.
Definition CreateTrunkEndpoint (id org trunk : UUID) (r : EndpointCreateRequest) (d : DB) : result (TrunkEndpoint * DB) :=
  match own_trunk org trunk d with
  | Some _ =>
      if bool_decide (is_Some (endpoints d !! id)) then inr (unique_violation "trunk_endpoints_pkey")
      else put_trunk_endpoint (new_endpoint id org trunk r) d
  | None => no_rows
  end.

(** The row of this trunk and organization, joined with its trunk. *)
Definition own_endpoint (org trunk id : UUID) (d : DB) : option TrunkEndpoint :=
  match endpoints d !! id with
  | Some e => if decide (e_TrunkID e = trunk /\ e_OrganizationID e = org /\ is_Some (own_trunk org trunk d))
              then Some e else None
  | None => None
  end.
Definition GetTrunkEndpointByID (org trunk id : UUID) (d : DB) : result TrunkEndpoint :=
  match own_endpoint org trunk id d with Some e => inl e | None => no_rows end.
Definition endpoint_le (a b : TrunkEndpoint) : Prop :=
  e_Priority a < e_Priority b \/ (e_Priority a = e_Priority b /\
    (e_Weight b < e_Weight a \/ (e_Weight a = e_Weight b /\ e_CreatedAt a <= e_CreatedAt b))).
#[local] Instance trunk_endpoint_le_dec : RelDecision endpoint_le.
Proof. intros a b. unfold endpoint_le. apply _. Defined.
Definition ListTrunkEndpoints (org trunk : UUID) (d : DB) : list TrunkEndpoint :=
  merge_sort endpoint_le
    (filter (fun e => e_TrunkID e = trunk /\ e_OrganizationID e = org /\ is_Some (own_trunk org trunk d)) (snd <$> map_to_list (endpoints d))).

(** [SET health_status, consecutive_failures, last_checked_at, last_response_code, last_latency_ms,
    last_error, cooldown_until]; the trigger sets [updated_at]. *)
Record Health := {
  h_Status : string; h_Failures : Z; h_CheckedAt : option Z; h_ResponseCode : option Z; h_LatencyMs : option Z;
  h_Error : option string; h_CooldownUntil : option Z }.
Definition with_health (h : Health) (e : TrunkEndpoint) : TrunkEndpoint := {|
  e_ID := e_ID e; e_OrganizationID := e_OrganizationID e; e_TrunkID := e_TrunkID e; e_Host := e_Host e;
  e_Port := e_Port e; e_Transport := e_Transport e; e_Direction := e_Direction e; e_Priority := e_Priority e;
  e_Weight := e_Weight e; e_Enabled := e_Enabled e; e_HealthStatus := h_Status h;
  e_ConsecutiveFailures := h_Failures h; e_LastCheckedAt := h_CheckedAt h; e_LastResponseCode := h_ResponseCode h;
  e_LastLatencyMs := h_LatencyMs h; e_LastError := h_Error h; e_CooldownUntil := h_CooldownUntil h;
  e_CreatedAt := e_CreatedAt e; e_UpdatedAt := now |}.
Definition unchecked : Health := {|
  h_Status := "unknown"; h_Failures := 0; h_CheckedAt := None; h_ResponseCode := None; h_LatencyMs := None;
  h_Error := None; h_CooldownUntil := None |}.
Definition health_of (e : TrunkEndpoint) : Health := {|
  h_Status := e_HealthStatus e; h_Failures := e_ConsecutiveFailures e; h_CheckedAt := e_LastCheckedAt e;
  h_ResponseCode := e_LastResponseCode e; h_LatencyMs := e_LastLatencyMs e; h_Error := e_LastError e;
  h_CooldownUntil := e_CooldownUntil e |}.
(** A new host, port or transport makes the health unknown. *)
Definition retargets (u : EndpointUpdateRequest) : bool :=
  bool_decide (is_Some (eu_Host u)) || bool_decide (is_Some (eu_Port u)) || bool_decide (is_Some (eu_Transport u)).
Definition update_endpoint_row (u : EndpointUpdateRequest) (e : TrunkEndpoint) : TrunkEndpoint :=
  with_health (if retargets u then unchecked else health_of e) {|
    e_ID := e_ID e; e_OrganizationID := e_OrganizationID e; e_TrunkID := e_TrunkID e;
    e_Host := default (e_Host e) (eu_Host u); e_Port := default (e_Port e) (eu_Port u);
    e_Transport := default (e_Transport e) (eu_Transport u); e_Direction := default (e_Direction e) (eu_Direction u);
    e_Priority := default (e_Priority e) (eu_Priority u); e_Weight := default (e_Weight e) (eu_Weight u);
    e_Enabled := default (e_Enabled e) (eu_Enabled u); e_HealthStatus := e_HealthStatus e;
    e_ConsecutiveFailures := e_ConsecutiveFailures e; e_LastCheckedAt := e_LastCheckedAt e;
    e_LastResponseCode := e_LastResponseCode e; e_LastLatencyMs := e_LastLatencyMs e; e_LastError := e_LastError e;
    e_CooldownUntil := e_CooldownUntil e; e_CreatedAt := e_CreatedAt e; e_UpdatedAt := e_UpdatedAt e |}.
Definition UpdateTrunkEndpoint (org trunk id : UUID) (u : EndpointUpdateRequest) (d : DB) : result (TrunkEndpoint * DB) :=
  match own_endpoint org trunk id d with
  | Some e => put_trunk_endpoint (update_endpoint_row u e) d
  | None => no_rows
  end.
Definition DeleteTrunkEndpoint (org trunk id : UUID) (d : DB) : result (TrunkEndpoint * DB) :=
  match own_endpoint org trunk id d with
  | Some e => inl (e, set_endpoints (delete id (endpoints d)) d)
  | None => no_rows
  end.

(** *** Health checks *)
Definition due (checked_at due_before : Z) (d : DB) (e : TrunkEndpoint) : bool :=
  e_Enabled e
  && match own_trunk (e_OrganizationID e) (e_TrunkID e) d with
     | Some t => bool_decide (t_Status t = "active") | None => false end
  && match e_CooldownUntil e with Some c => c <=? checked_at | None => true end
  && match e_LastCheckedAt e with Some c => c <=? due_before | None => true end.
(** [ORDER BY last_checked_at ASC NULLS FIRST]. *)
Definition checked_le (a b : TrunkEndpoint) : Prop :=
  match e_LastCheckedAt a, e_LastCheckedAt b with
  | None, _ => True | Some _, None => False | Some x, Some y => x <= y end.
#[local] Instance checked_le_dec : RelDecision checked_le.
Proof. intros a b. unfold checked_le. destruct (e_LastCheckedAt a), (e_LastCheckedAt b); apply _. Defined.
Definition due_ids (checked_at due_before batch : Z) (d : DB) : list UUID :=
  take (Z.to_nat batch) (e_ID <$> merge_sort checked_le
    (filter (fun e => due checked_at due_before d e = true) (snd <$> map_to_list (endpoints d)))).
Definition mark_checked (checked_at : Z) (e : TrunkEndpoint) : TrunkEndpoint :=
  with_health {| h_Status := e_HealthStatus e; h_Failures := e_ConsecutiveFailures e; h_CheckedAt := Some checked_at;
    h_ResponseCode := e_LastResponseCode e; h_LatencyMs := e_LastLatencyMs e; h_Error := e_LastError e;
    h_CooldownUntil := e_CooldownUntil e |} e.
Definition ListTrunkEndpointsForHealthCheck (checked_at due_before batch : Z) (d : DB)
    : result (list TrunkEndpoint * DB) :=
  let ids := due_ids checked_at due_before batch d in
  let m := (fun e => if bool_decide (e_ID e ∈ ids) then mark_checked checked_at e else e) <$> endpoints d in
  inl (omap (fun id => m !! id) ids, set_endpoints m d).

(** [UPDATE trunk_endpoints ... WHERE id = ...]. *)
Definition update_health (id : UUID) (f : TrunkEndpoint -> Health) (d : DB) : result (TrunkEndpoint * DB) :=
  match endpoints d !! id with
  | Some e => put_trunk_endpoint (with_health (f e) e) d
  | None => no_rows
  end.
Definition MarkTrunkEndpointHealthy (id : UUID) (checked_at code latency : Z) : DB -> result (TrunkEndpoint * DB) :=
  update_health id (fun _ => {| h_Status := "healthy"; h_Failures := 0; h_CheckedAt := Some checked_at;
    h_ResponseCode := Some code; h_LatencyMs := Some latency; h_Error := None; h_CooldownUntil := None |}).
Definition MarkTrunkEndpointProbeFailed (id : UUID) (threshold checked_at latency : Z) (message : string)
    (cooldown_until : Z) : DB -> result (TrunkEndpoint * DB) :=
  update_health id (fun e =>
    let failures := e_ConsecutiveFailures e + 1 in
    let over := threshold <=? failures in
    {| h_Status := if over then "unhealthy" else e_HealthStatus e; h_Failures := failures;
       h_CheckedAt := Some checked_at; h_ResponseCode := None; h_LatencyMs := Some latency;
       h_Error := Some message; h_CooldownUntil := if over then Some cooldown_until else None |}).
End EndpointQueries.

(** ** Validation (validation.go) *)
Definition normalizeName (value : string) : result string :=
  let value := TrimSpace value in
  if bool_decide (value = "") || (255 <? Z.of_nat (String.length value))
  then inr (NewBadRequest "name must be between 1 and 255 characters") else inl value.
Definition normalizeChoice (value : string) (choices : list string) (field : string) : result string :=
  let value := ToLower (TrimSpace value) in
  if one_of value choices then inl value else inr (NewBadRequest ("invalid " +:+ field)).
(** An optional field: [if req.F != nil]. *)
Definition optional {A B} (f : A -> result B) (v : option A) : result (option B) :=
  match v with Some a => let? b := f a in inl (Some b) | None => inl None end.
Definition at_least_one (v : option Z) (message : string) : result unit :=
  guard_err (match v with Some n => n <? 1 | None => false end) (NewBadRequest message).

Record DigestCredential := { dc_Username : string; dc_Realm : string; dc_Secret : string }.
(** [strings.ContainsAny(realm, "\r\n")]. *)
Definition normalizeCredential (c : DigestCredential) : result DigestCredential :=
  let username := TrimSpace (dc_Username c) in
  let realm := TrimSpace (dc_Realm c) in
  let? _ := guard_err (bool_decide (username = "") || (255 <? Z.of_nat (String.length username)))
              (Errorf "username must be between 1 and 255 characters" []) in
  let? _ := guard_err (bool_decide (dc_Secret c = "") || (4096 <? Z.of_nat (String.length (dc_Secret c))))
              (Errorf "secret must be between 1 and 4096 characters" []) in
  let? _ := guard_err (bool_decide (realm = "") || (255 <? Z.of_nat (String.length realm)) || ContainsAny realm [CR; LF])
              (Errorf "realm must be between 1 and 255 characters" []) in
  inl {| dc_Username := username; dc_Realm := realm; dc_Secret := dc_Secret c |}.
(** [apperror.NewBadRequest(prefix + err.Error())]. *)
Definition bad_request_of (prefix : string) {A} (r : result A) : result A :=
  match r with
  | inl a => inl a
  | inr (Errorf text _) => inr (NewBadRequest (prefix +:+ text))
  | inr e => inr e
  end.

Definition supportedCodecs : list string := ["PCMU"; "PCMA"; "G722"; "OPUS"; "G729"].
Fixpoint normalize_codecs (values seen : list string) : result (list string) :=
  match values with
  | [] => inl []
  | value :: rest =>
      let value := ToUpper (TrimSpace value) in
      if negb (one_of value supportedCodecs) then inr (NewBadRequest ("unsupported codec " +:+ value)) else
      if one_of value seen then normalize_codecs rest seen else
      let? out := normalize_codecs rest (value :: seen) in inl (value :: out)
  end.
(** No values give the nil slice, which the statements take for [NULL]. *)
Definition normalizeCodecs (values : list string) : result (option (list string)) :=
  if bool_decide (values = []) then inl None else let? out := normalize_codecs values [] in inl (Some out).

Record CreateRequest := {
  c_Name : string; c_Direction : option string; c_Status : option string;
  c_OutboundCredential : option DigestCredential; c_InboundEnabled : option bool;
  c_InboundAuthMethod : option string; c_InboundCredential : option DigestCredential;
  c_MaxCPS : option Z; c_MaxConcurrentCalls : option Z; c_Codecs : option (list string);
  c_SupportsVideo : option bool; c_SupportsFax : option bool;
}.
Definition trunk_statuses : list string := ["active"; "disabled"].
Definition transports : list string := ["udp"; "tcp"; "tls"].
Definition normalizeCreate (r : CreateRequest) : result CreateRequest :=
  let? name := normalizeName (c_Name r) in
  let? direction := optional (fun v => normalizeChoice v trunk_directions "direction") (c_Direction r) in
  let? status := optional (fun v => normalizeChoice v trunk_statuses "status") (c_Status r) in
  let? _ := at_least_one (c_MaxCPS r) "max_cps must be greater than zero" in
  let? _ := at_least_one (c_MaxConcurrentCalls r) "max_concurrent_calls must be greater than zero" in
  let? codecs := normalizeCodecs (default [] (c_Codecs r)) in
  let? outbound := optional (fun c => bad_request_of "outbound credential: " (normalizeCredential c)) (c_OutboundCredential r) in
  let method := match c_InboundAuthMethod r with Some m => ToLower (TrimSpace m) | None => "ip"%string end in
  let? _ := guard_err (negb (bool_decide (method = "ip")) && negb (bool_decide (method = "digest")))
              (NewBadRequest "inbound_auth_method must be ip or digest") in
  let? inbound :=
    if bool_decide (method = "digest") then
      match c_InboundCredential r with
      | None => inr (NewBadRequest "inbound credential is required for digest authentication")
      | Some c => let? c := bad_request_of "inbound credential: " (normalizeCredential c) in inl (Some c)
      end
    else match c_InboundCredential r with
         | Some _ => inr (NewBadRequest "inbound credential is only accepted for digest authentication")
         | None => inl None
         end in
  inl {| c_Name := name; c_Direction := direction; c_Status := status; c_OutboundCredential := outbound;
         c_InboundEnabled := c_InboundEnabled r; c_InboundAuthMethod := Some method; c_InboundCredential := inbound;
         c_MaxCPS := c_MaxCPS r; c_MaxConcurrentCalls := c_MaxConcurrentCalls r; c_Codecs := codecs;
         c_SupportsVideo := c_SupportsVideo r; c_SupportsFax := c_SupportsFax r |}.

(** Whether no field is given. *)
Definition empty_update (u : UpdateRequest) : bool :=
  match u with
  | Build_UpdateRequest None None None None None None None None None => true
  | _ => false
  end.
(** An empty list of codecs becomes the nil slice: the statement keeps the old ones. *)
Definition normalizeUpdate (u : UpdateRequest) : result UpdateRequest :=
  let? _ := guard_err (empty_update u) (NewBadRequest "at least one field is required") in
  let? name := optional normalizeName (u_Name u) in
  let? direction := optional (fun v => normalizeChoice v trunk_directions "direction") (u_Direction u) in
  let? status := optional (fun v => normalizeChoice v trunk_statuses "status") (u_Status u) in
  let? _ := at_least_one (u_MaxCPS u) "max_cps must be greater than zero" in
  let? _ := at_least_one (u_MaxConcurrentCalls u) "max_concurrent_calls must be greater than zero" in
  let? codecs := match u_Codecs u with Some l => normalizeCodecs l | None => inl None end in
  inl {| u_Name := name; u_Direction := direction; u_Status := status; u_InboundEnabled := u_InboundEnabled u;
         u_MaxCPS := u_MaxCPS u; u_MaxConcurrentCalls := u_MaxConcurrentCalls u; u_Codecs := codecs;
         u_SupportsVideo := u_SupportsVideo u; u_SupportsFax := u_SupportsFax u |}.

Record AuthRequest := {
  ar_Method : string; ar_Username : option string; ar_Realm : option string; ar_Secret : option string }.
(** The method, and the credential when it is digest. *)
Definition normalizeAuth (r : AuthRequest) (inbound : bool) : result (string * option DigestCredential) :=
  let method := ToLower (TrimSpace (ar_Method r)) in
  let allowed := bool_decide (method = "digest") || (negb inbound && bool_decide (method = "none"))
                 || (inbound && bool_decide (method = "ip")) in
  let? _ := guard_err (negb allowed) (NewBadRequest "invalid authentication method") in
  if negb (bool_decide (method = "digest")) then
    let? _ := guard_err (bool_decide (is_Some (ar_Username r)) || bool_decide (is_Some (ar_Realm r))
                         || bool_decide (is_Some (ar_Secret r)))
      (NewBadRequest "username, realm, and secret are only accepted for digest authentication") in
    inl (method, None)
  else
    match ar_Username r, ar_Realm r, ar_Secret r with
    | Some u, Some m, Some s =>
        let? c := bad_request_of "" (normalizeCredential {| dc_Username := u; dc_Realm := m; dc_Secret := s |}) in
        inl (method, Some c)
    | _, _, _ => inr (NewBadRequest "username, realm, and secret are required for digest authentication")
    end.

Definition validateID (id : UUID) (field : string) : result unit :=
  guard_err (bool_decide (id = uuid_Nil)) (NewBadRequest (field +:+ " is required")).

(** [net.ParseIP(value) != nil]; the labels of a host name otherwise. *)
Section Hosts.
Context (is_IP : string -> bool).
Definition label_byte (c : ascii) : bool := byte_in 97 122 c || byte_in 48 57 c || byte_is 45 c.
Definition label_ok (l : list ascii) : bool :=
  match l, last l with
  | first :: _, Some final =>
      (Z.of_nat (length l) <=? 63) && negb (byte_is 45 first) && negb (byte_is 45 final) && forallb label_byte l
  | _, _ => false
  end.
Definition normalizeHost (value : string) : result string :=
  let value := ToLower (TrimSuffix (TrimSpace value) ".") in
  if bool_decide (value = "") || (253 <? Z.of_nat (String.length value))
     || ContainsAny value [" "%char; ascii_of_N 9; CR; LF]
  then inr (NewBadRequest "host must be a valid IP address or hostname") else
  if is_IP value then inl value else
  if forallb label_ok (bytes_Split (bytes value) "."%char) then inl value
  else inr (NewBadRequest "host must be a valid IP address or hostname").
End Hosts.
Definition validatePort (port : Z) : result unit :=
  guard_err ((port <? 1) || (65535 <? port)) (NewBadRequest "port must be between 1 and 65535").
Definition validatePriority (priority : Z) : result unit :=
  guard_err (priority <? 0) (NewBadRequest "priority must be non-negative").
Definition validateWeight (weight : Z) : result unit :=
  guard_err (weight <? 1) (NewBadRequest "weight must be greater than zero").
End Trunks.
