(* ===== verification/TrunkService.v ===== *)
(** * The trunk service

    [telephony/trunks]: the repository and the service, which validates the
    requests of one organization, seals the secrets of its trunks, and writes a
    domain event in the transaction of every change to a trunk or an endpoint. *)

From S2P Require Import Prelude Encryption Routing Trunks.
Local Open Scope Z_scope.

Module TrunkService.
Import Trunks Encryption.

(** Code of other packages: PostgreSQL's [\s], [net.ParseIP(s) != nil],
    [netip.ParsePrefix] (the text of the masked prefix), MD5 in hexadecimal, and
    the bytes the [n]th read of the random source gives. *)
Class TrunkLib := {
  has_space : string -> bool;
  is_IP : string -> bool;
  ParsePrefix : string -> option string;
  md5_hex : string -> string;
  random_nonce : Z -> list ascii;
}.
Class TrunkLibLaws (T : TrunkLib) : Prop := {
  md5_hex_digits s : forallb lower_hex (bytes (md5_hex s)) = true /\ length (bytes (md5_hex s)) = 32%nat;
  nonce_length n : length (random_nonce n) = NonceSize;
}.

(** ** The state of a process *)
Record World := { w_db : DB; w_now : Z; w_next : UUID; w_faults : list fault }.
Definition with_db (d : DB) (w : World) : World :=
  {| w_db := d; w_now := w_now w; w_next := w_next w; w_faults := w_faults w |}.
Definition skip_id (w : World) : World :=
  {| w_db := w_db w; w_now := w_now w; w_next := w_next w + 1; w_faults := w_faults w |}.
#[export] Instance TrunkWorld_faults : HasFaults World := {|
  get_faults := w_faults;
  set_faults fs w := {| w_db := w_db w; w_now := w_now w; w_next := w_next w; w_faults := fs |} |}.
Definition query {A} (f : DB -> result A) : M World A := ext (fun w => (f (w_db w), w)).
Definition exec {A} (f : Z -> DB -> result (A * DB)) : M World A :=
  ext (fun w => match f (w_now w) (w_db w) with
                | inl (a, d) => (inl a, with_db d w)
                | inr e => (inr e, w)
                end).
(** A statement of a transaction, on the copy [d] of the tables the transaction sees. *)
Definition exec_tx {A} (f : Z -> DB -> result (A * DB)) (d : DB) : M World (A * DB) :=
  ext (fun w => (f (w_now w) d, w)).
Definition fresh : M World UUID := fun w => (inl (w_next w), skip_id w).

Section Service.
Context {T : TrunkLib} {A : AEAD} {U : UuidLib}.

(** [ComputeHA1MD5] of [pkg/hasher]. *)
Definition ComputeHA1MD5 (username domain password : string) : string :=
  md5_hex (Join [username; domain; password] ":").
Definition parseCIDR (value : string) : result string :=
  match ParsePrefix (TrimSpace value) with
  | Some prefix => inl prefix
  | None => inr (NewBadRequest "cidr must be a valid network prefix")
  end.

(** ** The repository (repository.go) *)
Definition Repo_Get (org id : UUID) : M World Trunk := query (GetTrunkByID org id).
Definition Repo_List (org : UUID) : M World (list Trunk) := query (fun d => inl (ListTrunksByOrganizationID org d)).
Definition SetOutboundDigest (org id : UUID) (username realm ciphertext ha1 : string) : M World unit :=
  exec (fun now => SetTrunkOutboundDigestAuth now org id (username, realm, ciphertext) ha1).
Definition ClearOutbound (org id : UUID) : M World unit := exec (fun now => ClearTrunkOutboundAuth now org id).
Definition SetInboundDigest (org id : UUID) (username realm ciphertext ha1 : string) : M World unit :=
  exec (fun now => SetTrunkInboundDigestAuth now org id (username, realm, ciphertext) ha1).
Definition SetInboundIP (org id : UUID) : M World unit := exec (fun now => SetTrunkInboundIPAuth now org id).
Definition Repo_CreateSourceIP (org trunk : UUID) (cidr : string) : M World SourceIP :=
  let! id := fresh in exec (fun now => CreateTrunkSourceIP now id org trunk cidr).
Definition Repo_ListSourceIPs (org trunk : UUID) : M World (list SourceIP) :=
  query (fun d => inl (ListTrunkSourceIPs org trunk d)).
Definition Repo_DeleteSourceIP (org trunk id : UUID) : M World unit :=
  exec (fun _ => DeleteTrunkSourceIP org trunk id).
Definition Repo_ListEndpoints (org trunk : UUID) : M World (list TrunkEndpoint) :=
  query (fun d => inl (ListTrunkEndpoints org trunk d)).
Definition Repo_GetEndpoint (org trunk id : UUID) : M World TrunkEndpoint :=
  query (GetTrunkEndpointByID org trunk id).

(** ** The service (service.go) *)
Record Service := { s_db : bool; s_cipher : bool }.
Context (s : Service).

Definition readError (message : string) (e : error) : error :=
  if errors_Is e ErrNoRows then NewNotFound message else NewInternal message e.
Definition writeError (message : string) (e : error) : error :=
  let code := default "" (errors_As_Pg e) in
  if bool_decide (code = "23505") then NewConflict "trunk resource already exists" else
  if one_of code ["23503"; "23514"; "23502"] then NewBadRequest message else
  if errors_Is e ErrNoRows then NewNotFound message else NewInternal message e.
Definition unavailable : error :=
  AppError "SERVICE_UNAVAILABLE" "trunk credential store is unavailable" 503 None.

Definition credentialScope (org trunk : UUID) (direction : string) : string :=
  "organization:" +:+ uuid_String org +:+ ":trunk:" +:+ uuid_String trunk +:+ ":" +:+ direction.
(** [s.cipher.EncryptForScope], which reads the random source. *)
Definition encrypt (org id : UUID) (direction secret : string) : M World string :=
  wrap (NewInternal ("encrypt " +:+ direction +:+ " trunk credential")) (
    let! n := ext fresh in
    lift (EncryptForScope (random_nonce n) (credentialScope org id direction) secret)).

Definition EventTrunkCreated : string := "trunk.created".
Definition EventTrunkUpdated : string := "trunk.updated".
Definition EventTrunkDisabled : string := "trunk.disabled".
Definition EventTrunkEndpointCreated : string := "trunk.endpoint.created".
Definition EventTrunkEndpointUpdated : string := "trunk.endpoint.updated".
Definition EventTrunkEndpointDeleted : string := "trunk.endpoint.deleted".
Definition new_event (type : string) (t : Trunk) (endpoint : option UUID) (resource : Resource) (now : Z) : Event :=
  {| ev_Type := type; ev_OrganizationID := t_OrganizationID t; ev_TrunkID := t_ID t; ev_EndpointID := endpoint;
     ev_Resource := resource; ev_OccurredAt := now |}.
Definition insertEvent (type : string) (t : Trunk) (endpoint : option UUID) (resource : Resource) (d : DB)
    : M World DB :=
  let! ' (_, d') := wrap (Wrapf "insert trunk outbox event: %w" [])
    (exec_tx (fun now d => inl (tt, set_outbox (outbox d ++ [new_event type t endpoint resource now]) d)) d) in
  ret d'.

Definition require_db : M World unit :=
  throw_if (negb (s_db s)) (Errorf "trunk database is required for domain events" []).
Definition begin : M World DB := ext (gets w_db).
Definition commit (d : DB) : M World unit := ext (modify (with_db d)).

Definition mutateTrunk (type : string) (mutation : Z -> DB -> result (Trunk * DB)) : M World Trunk :=
  require_db;;
  let! d0 := wrap (Wrapf "begin trunk transaction: %w" []) begin in
  let! ' (item, d1) := exec_tx mutation d0 in
  let! d2 := insertEvent type item None (RTrunk (response item)) d1 in
  wrap (Wrapf "commit trunk transaction: %w" []) (commit d2);;
  ret item.
Definition mutateEndpoint (type : string) (mutation : Z -> DB -> result (TrunkEndpoint * DB)) : M World TrunkEndpoint :=
  require_db;;
  let! d0 := wrap (Wrapf "begin trunk endpoint transaction: %w" []) begin in
  let! ' (item, d1) := exec_tx mutation d0 in
  let! ' (t, _) := exec_tx (fun _ d => let? t := GetTrunkByID (e_OrganizationID item) (e_TrunkID item) d in inl (t, d)) d1 in
  let! d2 := insertEvent type t (Some (e_ID item)) (REndpoint (endpointResponse item)) d1 in
  wrap (Wrapf "commit trunk endpoint transaction: %w" []) (commit d2);;
  ret item.

(** *** Trunks *)
(** The sealed secret of a credential, and its HA1. *)
Definition seal (org id : UUID) (direction : string) (c : option DigestCredential)
    : M World (option (string * string * string * string)) :=
  match c with
  | None => ret None
  | Some c =>
      let! v := encrypt org id direction (dc_Secret c) in
      ret (Some (dc_Username c, dc_Realm c, v, ComputeHA1MD5 (dc_Username c) (dc_Realm c) (dc_Secret c)))
  end.
Definition insert_digest (org id : UUID) (direction : string) (c : option (string * string * string * string))
    (d : DB) : M World DB :=
  match c with
  | None => ret d
  | Some (username, realm, _, ha1) =>
      let! ' (_, d') := wrap (writeError (direction +:+ " trunk credentials could not be created"))
        (exec_tx (fun _ => InsertTrunkDigestCredential org id direction username realm ha1) d) in
      ret d'
  end.
Definition create_params (r : CreateRequest) (outbound inbound : option (string * string * string * string))
    : CreateTrunkParams := {|
  p_Name := c_Name r; p_Direction := c_Direction r; p_Status := c_Status r; p_Outbound := fst <$> outbound;
  p_InboundEnabled := c_InboundEnabled r; p_InboundAuthMethod := c_InboundAuthMethod r; p_Inbound := fst <$> inbound;
  p_MaxCps := c_MaxCPS r; p_MaxConcurrentCalls := c_MaxConcurrentCalls r; p_Codecs := c_Codecs r;
  p_SupportsVideo := c_SupportsVideo r; p_SupportsFax := c_SupportsFax r |}.
Definition Create (org : UUID) (r : CreateRequest) : M World Trunk :=
  lift (validateID org "organization_id");;
  let! r := lift (normalizeCreate r) in
  throw_if (negb (s_db s) || negb (s_cipher s)) unavailable;;
  let! id := fresh in
  let! outbound := seal org id "outbound" (c_OutboundCredential r) in
  let! inbound := seal org id "inbound" (c_InboundCredential r) in
  let! d0 := wrap (NewInternal "begin trunk creation") begin in
  let! ' (item, d1) := wrap (writeError "trunk could not be created")
    (exec_tx (fun now => CreateTrunk now id org (create_params r outbound inbound)) d0) in
  let! d2 := insert_digest org id "outbound" outbound d1 in
  let! d3 := insert_digest org id "inbound" inbound d2 in
  let! d4 := insertEvent EventTrunkCreated item None (RTrunk (response item)) d3 in
  wrap (NewInternal "commit trunk creation") (commit d4);;
  ret item.

Definition List_ (org : UUID) : M World (list Trunk) :=
  lift (validateID org "organization_id");;
  wrap (NewInternal "list trunks") (Repo_List org).
Definition Get (org id : UUID) : M World Trunk :=
  lift (validateID org "organization_id");;
  lift (validateID id "trunk_id");;
  wrap (readError "trunk not found") (Repo_Get org id).

Definition Update (org id : UUID) (u : UpdateRequest) : M World Trunk :=
  Get org id;;
  let! u := lift (normalizeUpdate u) in
  wrap (writeError "trunk not found") (mutateTrunk EventTrunkUpdated (fun now => UpdateTrunk now org id u)).
Definition Delete (org id : UUID) : M World unit :=
  let! item := Get org id in
  if bool_decide (t_Status item = "disabled") then ret tt else
  wrap (writeError "trunk not found") (mutateTrunk EventTrunkDisabled (fun now => DisableTrunk now org id));;
  ret tt.

(** *** Authentication *)
Definition SetOutboundAuth (org id : UUID) (r : AuthRequest) : M World unit :=
  let! ' (_, c) := lift (normalizeAuth r false) in
  Get org id;;
  match c with
  | None => ClearOutbound org id
  | Some c =>
      throw_if (negb (s_cipher s)) unavailable;;
      let! v := encrypt org id "outbound" (dc_Secret c) in
      SetOutboundDigest org id (dc_Username c) (dc_Realm c) v
        (ComputeHA1MD5 (dc_Username c) (dc_Realm c) (dc_Secret c))
  end.
Definition ClearOutboundAuth (org id : UUID) : M World unit := Get org id;; ClearOutbound org id.
Definition SetInboundAuth (org id : UUID) (r : AuthRequest) : M World unit :=
  let! ' (_, c) := lift (normalizeAuth r true) in
  Get org id;;
  match c with
  | None => SetInboundIP org id
  | Some c =>
      throw_if (negb (s_cipher s)) unavailable;;
      let! v := encrypt org id "inbound" (dc_Secret c) in
      SetInboundDigest org id (dc_Username c) (dc_Realm c) v
        (ComputeHA1MD5 (dc_Username c) (dc_Realm c) (dc_Secret c))
  end.
Definition ClearInboundAuth (org id : UUID) : M World unit := Get org id;; SetInboundIP org id.

(** *** Source addresses *)
Definition CreateSourceIP (org id : UUID) (value : string) : M World SourceIPResponse :=
  Get org id;;
  let! cidr := lift (parseCIDR value) in
  let! row := wrap (writeError "trunk source IP could not be created") (Repo_CreateSourceIP org id cidr) in
  ret (sourceIPResponse row).
Definition ListSourceIPs (org id : UUID) : M World (list SourceIPResponse) :=
  Get org id;;
  let! rows := wrap (NewInternal "list trunk source IPs") (Repo_ListSourceIPs org id) in
  ret (sourceIPResponse <$> rows).
Definition DeleteSourceIP (org id source : UUID) : M World unit :=
  Get org id;;
  throw_if (bool_decide (source = uuid_Nil)) (NewBadRequest "source_ip_id is required");;
  Repo_DeleteSourceIP org id source.

(** *** Endpoints *)
Definition validate_opt (f : Z -> result unit) (v : option Z) : result unit :=
  match v with Some n => f n | None => inl tt end.
Definition normalize_endpoint_create (r : EndpointCreateRequest) : result EndpointCreateRequest :=
  let? host := normalizeHost is_IP (ec_Host r) in
  let? _ := validate_opt validatePort (ec_Port r) in
  let? transport := optional (fun v => normalizeChoice v transports "transport") (ec_Transport r) in
  let? direction := optional (fun v => normalizeChoice v trunk_directions "direction") (ec_Direction r) in
  let? _ := validate_opt validatePriority (ec_Priority r) in
  let? _ := validate_opt validateWeight (ec_Weight r) in
  inl {| ec_Host := host; ec_Port := ec_Port r; ec_Transport := transport; ec_Direction := direction;
         ec_Priority := ec_Priority r; ec_Weight := ec_Weight r; ec_Enabled := ec_Enabled r |}.
Definition CreateEndpoint (org trunk : UUID) (r : EndpointCreateRequest) : M World TrunkEndpoint :=
  Get org trunk;;
  let! r := lift (normalize_endpoint_create r) in
  let! id := fresh in
  wrap (writeError "trunk endpoint not found")
    (mutateEndpoint EventTrunkEndpointCreated (fun now => CreateTrunkEndpoint has_space now id org trunk r)).
Definition ListEndpoints (org trunk : UUID) : M World (list TrunkEndpoint) :=
  Get org trunk;;
  wrap (NewInternal "list trunk endpoints") (Repo_ListEndpoints org trunk).
Definition GetEndpoint (org trunk id : UUID) : M World TrunkEndpoint :=
  Get org trunk;;
  lift (validateID id "endpoint_id");;
  wrap (readError "trunk endpoint not found") (Repo_GetEndpoint org trunk id).
Definition empty_endpoint_update (u : EndpointUpdateRequest) : bool :=
  match u with Build_EndpointUpdateRequest None None None None None None None => true | _ => false end.
Definition normalize_endpoint_update (u : EndpointUpdateRequest) : result EndpointUpdateRequest :=
  let? _ := guard_err (empty_endpoint_update u) (NewBadRequest "at least one field is required") in
  let? host := optional (normalizeHost is_IP) (eu_Host u) in
  let? _ := validate_opt validatePort (eu_Port u) in
  let? transport := optional (fun v => normalizeChoice v transports "transport") (eu_Transport u) in
  let? direction := optional (fun v => normalizeChoice v trunk_directions "direction") (eu_Direction u) in
  let? _ := validate_opt validatePriority (eu_Priority u) in
  let? _ := validate_opt validateWeight (eu_Weight u) in
  inl {| eu_Host := host; eu_Port := eu_Port u; eu_Transport := transport; eu_Direction := direction;
         eu_Priority := eu_Priority u; eu_Weight := eu_Weight u; eu_Enabled := eu_Enabled u |}.
Definition UpdateEndpoint (org trunk id : UUID) (u : EndpointUpdateRequest) : M World TrunkEndpoint :=
  GetEndpoint org trunk id;;
  let! u := lift (normalize_endpoint_update u) in
  wrap (writeError "trunk endpoint not found")
    (mutateEndpoint EventTrunkEndpointUpdated (fun now => UpdateTrunkEndpoint has_space now org trunk id u)).
Definition DeleteEndpoint (org trunk id : UUID) : M World unit :=
  GetEndpoint org trunk id;;
  wrap (writeError "trunk endpoint not found")
    (mutateEndpoint EventTrunkEndpointDeleted (fun _ => DeleteTrunkEndpoint org trunk id));;
  ret tt.

(** *** Validation of a stored trunk *)
Record ValidationResponse := { Valid : bool; Errors : list string; Warnings : list string }.
Definition outbound_errors (t : Trunk) : list string :=
  if bool_decide (t_OutboundAuthMethod t = "digest")
     && (bool_decide (t_AuthSecretCiphertext t = None) || bool_decide (t_AuthRealm t = None))
  then ["outbound digest credentials and realm are missing"] else [].
Definition inbound_errors (org id : UUID) (t : Trunk) : M World (list string) :=
  if negb (t_InboundEnabled t) then ret [] else
  if bool_decide (t_InboundAuthMethod t = "digest") then
    ret (if bool_decide (t_InboundSecretCiphertext t = None) || bool_decide (t_InboundRealm t = None)
         then ["inbound digest credentials and realm are missing"] else [])
  else if bool_decide (t_InboundAuthMethod t = "ip") then
    let! sources := ListSourceIPs org id in
    ret (if bool_decide (sources = []) then ["inbound IP authentication requires at least one source CIDR"] else [])
  else ret ["inbound authentication method is invalid"].
Definition outward (direction : string) : bool := one_of direction ["outbound"; "bidirectional"].
Definition endpoint_errors (t : Trunk) (es : list TrunkEndpoint) : list string :=
  if negb (outward (t_Direction t)) then [] else
  let enabled := filter (fun e => e_Enabled e && outward (e_Direction e) = true) es in
  let routable := filter (fun e => e_HealthStatus e <> "unhealthy") enabled in
  if bool_decide (enabled = []) then ["trunk has no enabled outbound endpoint"] else
  if bool_decide (routable = []) then ["trunk has no healthy outbound endpoint"] else [].
Definition Validate (org id : UUID) : M World ValidationResponse :=
  let! t := Get org id in
  let! inbound := inbound_errors org id t in
  let! es := wrap (NewInternal "list trunk endpoints") (Repo_ListEndpoints org id) in
  let errors := outbound_errors t ++ inbound ++ endpoint_errors t es in
  ret {| Valid := bool_decide (errors = []); Errors := errors;
         Warnings := if bool_decide (t_Status t = "active") then [] else ["trunk is disabled"] |}.
End Service.
End TrunkService.
