(* ===== verification/TrunkHealth.v ===== *)
(** * Trunk health checks

    [telephony/trunks/health.go]: the job that claims the endpoints due for a
    check, probes each with a SIP OPTIONS request and records the outcome. The
    network is a parameter. *)

From S2P Require Import Prelude Encryption Routing Trunks TrunkService.
Local Open Scope Z_scope.

Module TrunkHealth.
Import Trunks TrunkService.

(** ** SIP messages *)
(** [strings.Fields]: the runs of bytes between white space. *)
Definition flush (field : list ascii) (rest : list (list ascii)) : list (list ascii) :=
  if bool_decide (field = []) then rest else field :: rest.
Fixpoint fields_from (field s : list ascii) : list (list ascii) :=
  match s with
  | [] => flush field []
  | a :: s1 =>
      if space1 a then flush field (fields_from [] s1) else
      match s1 with
      | b :: s2 =>
          if space2 a b then flush field (fields_from [] s2) else
          match s2 with
          | c :: s3 => if space3 a b c then flush field (fields_from [] s3) else fields_from (field ++ [a]) s1
          | [] => fields_from (field ++ [a]) s1
          end
      | [] => fields_from (field ++ [a]) s1
      end
  end.
Definition Fields (s : string) : list string := of_bytes <$> fields_from [] (bytes s).

(** [net.JoinHostPort]. *)
Definition JoinHostPort (host port : string) : string :=
  if Contains host ":" then "[" +:+ host +:+ "]:" +:+ port else host +:+ ":" +:+ port.

(** The request; [id]: the hexadecimal digits of the random bytes. *)
Definition crlf : string := of_bytes [CR; LF].
Definition request_lines (target transport id : string) : list string := [
  "OPTIONS sip:" +:+ target +:+ " SIP/2.0";
  "Via: SIP/2.0/" +:+ ToUpper transport +:+ " 127.0.0.1:5060;branch=z9hG4bK-" +:+ id +:+ ";rport";
  "Max-Forwards: 1";
  "From: <sip:health@localhost>;tag=" +:+ id;
  "To: <sip:" +:+ target +:+ ">";
  "Call-ID: " +:+ id +:+ "@localhost";
  "CSeq: 1 OPTIONS";
  "Contact: <sip:health@127.0.0.1:5060>";
  "Content-Length: 0"].
Definition optionsRequest (id host : string) (port : Z) (transport : string) : string :=
  let target := JoinHostPort host (show_int port) in
  String.concat "" ((fun l => l +:+ crlf) <$> request_lines target transport id) +:+ crlf.

(** [strings.SplitN(value, "\n", 2)[0]]. *)
Definition first_line (b : list ascii) : list ascii :=
  match index_byte LF b with Some n => take n b | None => b end.
Definition parseSIPStatus (value : string) : result Z :=
  let line := TrimSpace (of_bytes (first_line (bytes value))) in
  match Fields line with
  | version :: code :: _ =>
      if negb (bool_decide (version = "SIP/2.0")) then inr (Errorf "endpoint returned an invalid SIP response" []) else
      match ParseInt code with
      | Some n => if (n <? 100) || (699 <? n) then inr (Errorf "endpoint returned an invalid SIP status" []) else inl n
      | None => inr (Errorf "endpoint returned an invalid SIP status" [])
      end
  | _ => inr (Errorf "endpoint returned an invalid SIP response" [])
  end.
(** [reader.ReadString('\n')]: the bytes that arrive, and the error the stream ends with. *)
Definition readSIPStatus (stream : list ascii * error) : result Z :=
  match index_byte LF (fst stream) with
  | Some n => parseSIPStatus (of_bytes (take (S n) (fst stream)))
  | None => inr (Wrapf "read SIP response: %w" [] (snd stream))
  end.

(** ** The prober

    A connection is dialled, written to and read; reading gives what arrives before
    the deadline of the context. *)
Class Network (Conn : Type) := {
  dial : string -> string -> M World Conn;
  tls_client : string -> Conn -> Conn;
  conn_write : Conn -> string -> M World unit;
  read_packet : Conn -> M World (list ascii);
  read_stream : Conn -> World -> (list ascii * error) * World;
  probe_id : Z -> string;
}.
Section Job.
Context {T : TrunkLib} {Conn : Type} {N : Network Conn}.

Definition probeStream (conn : Conn) (payload : string) : M World Z :=
  wrap (Wrapf "write SIP OPTIONS: %w" []) (conn_write conn payload);;
  fun w => let '(stream, w1) := read_stream conn w in (readSIPStatus stream, w1).
Definition udp_buffer : nat := Z.to_nat 65536.
Definition probeUDP (address payload : string) : M World Z :=
  let! conn := wrap (Wrapf "dial SIP UDP endpoint: %w" []) (dial "udp" address) in
  wrap (Wrapf "write SIP OPTIONS: %w" []) (conn_write conn payload);;
  let! packet := wrap (Wrapf "read SIP response: %w" []) (read_packet conn) in
  lift (parseSIPStatus (of_bytes (take udp_buffer packet))).
(** [ServerName]: the one configured, else the host unless it is an address. *)
Definition server_name (configured host : string) : string :=
  if bool_decide (configured = "") && negb (is_IP host) then host else configured.
Definition SIPOptions_Probe (configured : string) (e : TrunkEndpoint) : M World Z :=
  let address := JoinHostPort (e_Host e) (show_int (e_Port e)) in
  let! n := wrap (Wrapf "generate SIP probe id: %w" []) (ext fresh) in
  let payload := optionsRequest (probe_id n) (e_Host e) (e_Port e) (e_Transport e) in
  if bool_decide (e_Transport e = "udp") then probeUDP address payload else
  if bool_decide (e_Transport e = "tls") then
    let! raw := wrap (Wrapf "dial SIP TLS endpoint: %w" []) (dial "tcp" address) in
    probeStream (tls_client (server_name configured (e_Host e)) raw) payload
  else if bool_decide (e_Transport e = "tcp") then
    let! conn := wrap (Wrapf "dial SIP endpoint: %w" []) (dial "tcp" address) in
    probeStream conn payload
  else throw (Errorf "unsupported SIP transport %q" [e_Transport e]).
End Job.

(** ** The job *)
Record HealthCheckConfig := {
  Interval : Z; EndpointTimeout : Z; FailureThreshold : Z; Cooldown : Z; BatchSize : Z }.
Definition DefaultHealthCheckConfig : HealthCheckConfig := {|
  Interval := 30 * Second; EndpointTimeout := 3 * Second; FailureThreshold := 3; Cooldown := 2 * Minute;
  BatchSize := 100 |}.
Definition or_default (v d : Z) : Z := if v <=? 0 then d else v.
Definition NewHealthCheckJob (has_repo has_prober : bool) (c : HealthCheckConfig) : result HealthCheckConfig :=
  if negb (has_repo && has_prober)
  then inr (Errorf "trunk health check requires repository and prober" []) else
  let d := DefaultHealthCheckConfig in
  inl {| Interval := or_default (Interval c) (Interval d);
         EndpointTimeout := or_default (EndpointTimeout c) (EndpointTimeout d);
         FailureThreshold := or_default (FailureThreshold c) (FailureThreshold d);
         Cooldown := or_default (Cooldown c) (Cooldown d);
         BatchSize := or_default (BatchSize c) (BatchSize d) |}.

Section Check.
Context {T : TrunkLib}.
(** [err.Error()], and the prober under the job's timeout. *)
Context (error_text : error -> string) (Probe : TrunkEndpoint -> M World Z) (c : HealthCheckConfig).

Definition ListForHealthCheck (checked_at due_before batch : Z) : M World (list TrunkEndpoint) :=
  exec (fun now => ListTrunkEndpointsForHealthCheck now checked_at due_before batch).
Definition MarkHealthy (id : UUID) (checked_at code latency : Z) : M World unit :=
  exec (fun now d => let? ' (_, d') := MarkTrunkEndpointHealthy has_space now id checked_at code latency d in inl (tt, d')).
Definition MarkProbeFailed (id : UUID) (checked_at latency : Z) (message : string) (threshold cooldown_until : Z)
    : M World unit :=
  exec (fun now d => let? ' (_, d') := MarkTrunkEndpointProbeFailed has_space now id threshold checked_at latency message
                                         cooldown_until d in inl (tt, d')).

Definition latency_ms (started finished : Z) : Z := int32 (Z.max (go_div (finished - started) Millisecond) 0).
(** [message[:500]]. *)
Definition truncate_message (m : string) : string := of_bytes (take 500 (bytes m)).
Definition check_one (e : TrunkEndpoint) : M World unit :=
  let! started := gets w_now in
  let! r := attempt (Probe e) in
  let! finished := gets w_now in
  let latency := latency_ms started finished in
  match r with
  | inl code => wrap (Wrapf "mark trunk endpoint healthy: %w" []) (MarkHealthy (e_ID e) finished code latency)
  | inr err =>
      wrap (Wrapf "mark trunk endpoint failed: %w" [])
        (MarkProbeFailed (e_ID e) finished latency (truncate_message (error_text err)) (FailureThreshold c)
           (finished + Cooldown c))
  end.
Fixpoint check_all (es : list TrunkEndpoint) : M World unit :=
  match es with [] => ret tt | e :: es => check_one e;; check_all es end.
Definition Check : M World unit :=
  let! now := gets w_now in
  let! es := wrap (Wrapf "claim trunk endpoints: %w" [])
    (ListForHealthCheck now (now - Interval c) (BatchSize c)) in
  check_all es.
End Check.
End TrunkHealth.
