(* ===== verification/TrunkSafety.v ===== *)
(** * What the trunk service guarantees

    Every operation of the service is one transition of a store machine, or none,
    whatever fails ([service_refines_trunk_machine]); from it follow the
    consistency of stored credentials and the isolation of tenants. *)

From S2P Require Import Prelude Encryption Routing Trunks TrunkService TrunkHealth.
Local Open Scope Z_scope.

Module TrunkSafety.
Import Trunks Encryption TrunkService TrunkHealth.

(** ** Triples of methods

    From tables [d], the method leaves them or makes them satisfy [P], whatever it
    returns; a value it returns satisfies [Q] with the tables at the end. *)
Definition effect {V} (d : DB) (P : DB -> Prop) (Q : V -> DB -> Prop) (m : M World V) : Prop :=
  forall w, w_db w = d ->
    (w_db (snd (m w)) = d \/ P (w_db (snd (m w))))
    /\ forall a, fst (m w) = inl a -> Q a (w_db (snd (m w))).
Definition nothing : DB -> Prop := fun _ => False.

Section Effects.
Context (d : DB).

Lemma faults_keep_db fs w : w_db w = d -> w_db (set_faults fs w) = d.
Proof. by intros <-. Qed.

Lemma effect_weaken {V} (P P' : DB -> Prop) (Q Q' : V -> DB -> Prop) m :
  effect d P Q m -> (forall x, P x -> P' x) -> (forall a x, Q a x -> Q' a x) -> effect d P' Q' m.
Proof. intros H HP HQ w Hw. destruct (H w Hw) as [H1 H2]. naive_solver. Qed.
Lemma effect_ret {V} P (Q : V -> DB -> Prop) a : Q a d -> effect d P Q (ret a).
Proof. intros H w Hw. simpl. split; [by left|]. intros b [= <-]. by rewrite Hw. Qed.
Lemma effect_throw {V} P (Q : V -> DB -> Prop) e : effect d P Q (throw e).
Proof. intros w Hw. simpl. split; [by left|done]. Qed.
Lemma effect_throw_if P (Q : unit -> DB -> Prop) c e : (c = false -> Q tt d) -> effect d P Q (throw_if c e).
Proof. destruct c; intros H; [apply effect_throw|by apply effect_ret, H]. Qed.
Lemma effect_lift {V} P (Q : V -> DB -> Prop) r : (forall a, r = inl a -> Q a d) -> effect d P Q (lift r).
Proof. intros H w Hw. simpl. split; [by left|]. intros a Ha. rewrite Hw. auto. Qed.
Lemma effect_wrap {V} P (Q : V -> DB -> Prop) f m : effect d P Q m -> effect d P Q (wrap f m).
Proof.
  intros H w Hw. destruct (H w Hw) as [H1 H2]. unfold wrap. destruct (m w) as [[a|e] w1]; simpl in *; [done|].
  split; [done|]. done.
Qed.
(** A reading step, then the rest. *)
Lemma effect_read {V V'} P (Q : V' -> DB -> Prop) (R : V -> Prop) (m : M World V) k :
  effect d nothing (fun a _ => R a) m -> (forall a, R a -> effect d P Q (k a)) -> effect d P Q (bind m k).
Proof.
  intros Hm Hk w Hw. destruct (Hm w Hw) as [[H1|[]] H2]. unfold bind.
  destruct (m w) as [[a|e] w1]; simpl in *; [by apply Hk; [apply H2|]|]. split; [by left|done].
Qed.
(** A writing step, then a value. *)
Lemma effect_then {V V'} P (Q : V -> DB -> Prop) (Q' : V' -> DB -> Prop) (m : M World V) k :
  effect d P Q m -> (forall a d', Q a d' -> effect d' nothing Q' (k a)) -> effect d P Q' (bind m k).
Proof.
  intros Hm Hk w Hw. destruct (Hm w Hw) as [H1 H2]. unfold bind.
  destruct (m w) as [[a|e] w1] eqn:E; simpl in *; [|done].
  destruct (Hk a _ (H2 a eq_refl) w1 eq_refl) as [[Hr|[]] H3]. rewrite Hr in *. split; [done|].
  intros b Hb. specialize (H3 b Hb). by rewrite ?Hr in H3.
Qed.
Lemma effect_ext_read {V} P (Q : V -> DB -> Prop) (op : World -> result V * World) :
  (forall w, w_db w = d -> w_db (snd (op w)) = d /\ forall a, fst (op w) = inl a -> Q a d) ->
  effect d P Q (ext op).
Proof.
  intros H w Hw. unfold ext. destruct (get_faults w) as [|[] fs].
  - destruct (H w Hw) as [-> H2]. split; [by left|done].
  - destruct (H (set_faults fs w) (faults_keep_db fs w Hw)) as [Hr H2]. rewrite Hr. split; [by left|done].
  - split; [left; by apply faults_keep_db|done].
  - destruct (H (set_faults fs w) (faults_keep_db fs w Hw)) as [Hr _]. simpl. split; [by left|done].
Qed.
Lemma effect_query {V} P (Q : V -> DB -> Prop) (f : DB -> result V) :
  (forall a, f d = inl a -> Q a d) -> effect d P Q (query f).
Proof. intros H. apply effect_ext_read. intros w Hw. simpl. rewrite Hw. auto. Qed.
Lemma effect_exec_tx {V} P (Q : V * DB -> DB -> Prop) (f : Z -> DB -> result (V * DB)) x :
  (forall now a, f now x = inl a -> Q a d) -> effect d P Q (exec_tx f x).
Proof. intros H. apply effect_ext_read. intros w Hw. simpl. eauto. Qed.
Lemma effect_begin P : effect d P (fun a _ => a = d) begin.
Proof. apply effect_ext_read. intros w Hw. simpl. split; [done|]. intros a [= <-]. done. Qed.
Lemma effect_fresh P : effect d P (fun _ d' => d' = d) fresh.
Proof. intros w Hw. simpl. split; [by left|]. done. Qed.
Lemma effect_ext_write {V} (P : DB -> Prop) (Q : V -> DB -> Prop) (op : World -> result V * World) :
  (forall w, w_db w = d -> (w_db (snd (op w)) = d \/ P (w_db (snd (op w)))) /\
     forall a, fst (op w) = inl a -> Q a (w_db (snd (op w)))) -> effect d P Q (ext op).
Proof.
  intros H w Hw. unfold ext.
  destruct (get_faults w) as [|[] fs]; [by apply H|by apply H, faults_keep_db| |].
  - split; [left; by apply faults_keep_db|done].
  - destruct (H (set_faults fs w) (faults_keep_db fs w Hw)) as [Hr _]. simpl. by split.
Qed.
Lemma effect_exec {V} (P : DB -> Prop) (Q : V -> DB -> Prop) (f : Z -> DB -> result (V * DB)) :
  (forall now a d', f now d = inl (a, d') -> P d' /\ Q a d') -> effect d P Q (exec f).
Proof.
  intros H. apply effect_ext_write. intros w Hw. rewrite Hw.
  destruct (f (w_now w) d) as [[a d']|e] eqn:E; simpl; [|split; [by left|done]].
  destruct (H _ _ _ E). split; [by right|]. by intros ? [= <-].
Qed.
Lemma effect_commit (P : DB -> Prop) d' : P d' -> effect d P (fun _ x => x = d') (commit d').
Proof. intros H. apply effect_ext_write. intros w Hw. simpl. split; [by right|]. done. Qed.
End Effects.

(** ** The store machine

    The requests that change the store, and what each one may do to it: one
    statement, or one transaction whose last row is the event of the change. *)
Inductive op :=
| OpCreate (org : UUID) (r : CreateRequest)
| OpUpdate (org id : UUID) (u : UpdateRequest)
| OpDelete (org id : UUID)
| OpSetOutbound (org id : UUID) (r : AuthRequest)
| OpSetInbound (org id : UUID) (r : AuthRequest)
| OpClearOutbound (org id : UUID)
| OpClearInbound (org id : UUID)
| OpCreateSourceIP (org id : UUID) (value : string)
| OpDeleteSourceIP (org id source : UUID)
| OpCreateEndpoint (org trunk : UUID) (r : EndpointCreateRequest)
| OpUpdateEndpoint (org trunk id : UUID) (u : EndpointUpdateRequest)
| OpDeleteEndpoint (org trunk id : UUID).
Definition op_org (o : op) : UUID :=
  match o with
  | OpCreate org _ | OpUpdate org _ _ | OpDelete org _ | OpSetOutbound org _ _ | OpSetInbound org _ _
  | OpClearOutbound org _ | OpClearInbound org _ | OpCreateSourceIP org _ _ | OpDeleteSourceIP org _ _
  | OpCreateEndpoint org _ _ | OpUpdateEndpoint org _ _ _ | OpDeleteEndpoint org _ _ => org
  end.

Section Machine.
Context {T : TrunkLib} {A : AEAD} {U : UuidLib} (s : Service).

Definition run_op (o : op) : M World unit :=
  match o with
  | OpCreate org r => Create s org r;; ret tt
  | OpUpdate org id u => Update s org id u;; ret tt
  | OpDelete org id => Delete s org id
  | OpSetOutbound org id r => SetOutboundAuth s org id r
  | OpSetInbound org id r => SetInboundAuth s org id r
  | OpClearOutbound org id => ClearOutboundAuth org id
  | OpClearInbound org id => ClearInboundAuth org id
  | OpCreateSourceIP org id value => CreateSourceIP org id value;; ret tt
  | OpDeleteSourceIP org id source => DeleteSourceIP org id source
  | OpCreateEndpoint org trunk r => CreateEndpoint s org trunk r;; ret tt
  | OpUpdateEndpoint org trunk id u => UpdateEndpoint s org trunk id u;; ret tt
  | OpDeleteEndpoint org trunk id => DeleteEndpoint s org trunk id
  end.

(** A credential as it is stored: username, realm, sealed secret and HA1. *)
Definition stored : Type := (string * string * string * string)%type.
Definition sealed_for (org id : UUID) (direction : string) (c : stored) : Prop :=
  let '(username, realm, ciphertext, ha1) := c in
  exists secret, DecryptForScope (credentialScope org id direction) ciphertext = inl secret
    /\ ha1 = ComputeHA1MD5 username realm secret.
Definition all_sealed_for (org id : UUID) (direction : string) (c : option stored) : Prop :=
  match c with Some c => sealed_for org id direction c | None => True end.
Definition insert_stored (org id : UUID) (direction : string) (c : option stored) (d : DB) : result DB :=
  match c with
  | None => inl d
  | Some (username, realm, _, ha1) =>
      let? ' (_, d') := InsertTrunkDigestCredential org id direction username realm ha1 d in inl d'
  end.
Definition log (type : string) (t : Trunk) (endpoint : option UUID) (resource : Resource) (now : Z) (d : DB) : DB :=
  set_outbox (outbox d ++ [new_event type t endpoint resource now]) d.
Definition log_trunk (type : string) (t : Trunk) : Z -> DB -> DB := log type t None (RTrunk (response t)).
Definition log_endpoint (type : string) (t : Trunk) (e : TrunkEndpoint) : Z -> DB -> DB :=
  log type t (Some (e_ID e)) (REndpoint e).

Inductive transition (d : DB) : op -> DB -> Prop :=
| tr_create org r r' id outbound inbound now t d1 d2 d3 now' :
    normalizeCreate r = inl r' ->
    (c_OutboundCredential r' = None <-> outbound = None) ->
    (c_InboundCredential r' = None <-> inbound = None) ->
    all_sealed_for org id "outbound" outbound -> all_sealed_for org id "inbound" inbound ->
    CreateTrunk now id org (create_params r' outbound inbound) d = inl (t, d1) ->
    insert_stored org id "outbound" outbound d1 = inl d2 ->
    insert_stored org id "inbound" inbound d2 = inl d3 ->
    transition d (OpCreate org r) (log_trunk EventTrunkCreated t now' d3)
| tr_update org id u u' now t d1 now' :
    normalizeUpdate u = inl u' -> UpdateTrunk now org id u' d = inl (t, d1) ->
    transition d (OpUpdate org id u) (log_trunk EventTrunkUpdated t now' d1)
| tr_delete org id now t d1 now' :
    DisableTrunk now org id d = inl (t, d1) ->
    transition d (OpDelete org id) (log_trunk EventTrunkDisabled t now' d1)
| tr_set_outbound org id r username realm ciphertext ha1 now d1 :
    is_Some (own_trunk org id d) -> sealed_for org id "outbound" (username, realm, ciphertext, ha1) ->
    SetTrunkOutboundDigestAuth now org id (username, realm, ciphertext) ha1 d = inl (tt, d1) ->
    transition d (OpSetOutbound org id r) d1
| tr_set_inbound org id r username realm ciphertext ha1 now d1 :
    is_Some (own_trunk org id d) -> sealed_for org id "inbound" (username, realm, ciphertext, ha1) ->
    SetTrunkInboundDigestAuth now org id (username, realm, ciphertext) ha1 d = inl (tt, d1) ->
    transition d (OpSetInbound org id r) d1
| tr_clear_outbound org id o now d1 :
    o = OpClearOutbound org id \/ (exists r, o = OpSetOutbound org id r) ->
    is_Some (own_trunk org id d) -> ClearTrunkOutboundAuth now org id d = inl (tt, d1) -> transition d o d1
| tr_clear_inbound org id o now d1 :
    o = OpClearInbound org id \/ (exists r, o = OpSetInbound org id r) ->
    is_Some (own_trunk org id d) -> SetTrunkInboundIPAuth now org id d = inl (tt, d1) -> transition d o d1
| tr_create_source org id value cidr source now row d1 :
    parseCIDR value = inl cidr -> CreateTrunkSourceIP now source org id cidr d = inl (row, d1) ->
    transition d (OpCreateSourceIP org id value) d1
| tr_delete_source org id source d1 :
    is_Some (own_trunk org id d) -> DeleteTrunkSourceIP org id source d = inl (tt, d1) ->
    transition d (OpDeleteSourceIP org id source) d1
| tr_create_endpoint org trunk r r' id now t e d1 now' :
    normalize_endpoint_create r = inl r' -> CreateTrunkEndpoint has_space now id org trunk r' d = inl (e, d1) ->
    own_trunk org trunk d1 = Some t ->
    transition d (OpCreateEndpoint org trunk r) (log_endpoint EventTrunkEndpointCreated t e now' d1)
| tr_update_endpoint org trunk id u u' now t e d1 now' :
    normalize_endpoint_update u = inl u' -> UpdateTrunkEndpoint has_space now org trunk id u' d = inl (e, d1) ->
    own_trunk org trunk d1 = Some t ->
    transition d (OpUpdateEndpoint org trunk id u) (log_endpoint EventTrunkEndpointUpdated t e now' d1)
| tr_delete_endpoint org trunk id t e d1 now' :
    DeleteTrunkEndpoint org trunk id d = inl (e, d1) -> own_trunk org trunk d1 = Some t ->
    transition d (OpDeleteEndpoint org trunk id) (log_endpoint EventTrunkEndpointDeleted t e now' d1).
(** A request that succeeds without a transition: disabling a disabled trunk. *)
Inductive idle (d : DB) : op -> Prop :=
| idle_delete org id t : own_trunk org id d = Some t -> t_Status t = "disabled" -> idle d (OpDelete org id).
Definition finished (d : DB) (o : op) (d' : DB) : Prop := transition d o d' \/ (idle d o /\ d' = d).

(** ** What the steps of the handlers do *)
Lemma effect_validateID d (P : DB -> Prop) id field : effect d P (fun _ _ => True) (lift (validateID id field)).
Proof. by apply effect_lift. Qed.
Lemma effect_get d org id : effect d nothing (fun t _ => own_trunk org id d = Some t) (Get org id).
Proof.
  unfold Get. eapply effect_read; [apply effect_validateID|cbv beta; intros _ _].
  eapply effect_read; [apply effect_validateID|cbv beta; intros _ _].
  apply effect_wrap, effect_query. intros t. unfold GetTrunkByID. by case_match; intros [= ->].
Qed.
Lemma effect_get_endpoint d org trunk id :
  effect d nothing (fun e _ => own_endpoint org trunk id d = Some e) (GetEndpoint org trunk id).
Proof.
  unfold GetEndpoint. eapply effect_read; [apply effect_get|cbv beta; intros _ _].
  eapply effect_read; [apply effect_validateID|cbv beta; intros _ _].
  apply effect_wrap, effect_query. intros t. unfold GetTrunkEndpointByID. by case_match; intros [= ->].
Qed.
Lemma effect_insertEvent d type t ep res d1 :
  effect d nothing (fun x _ => exists now, x = log type t ep res now d1) (insertEvent type t ep res d1).
Proof.
  unfold insertEvent. eapply (effect_read d _ _ (fun a => exists now, snd a = log type t ep res now d1)).
  - apply effect_wrap, effect_exec_tx. intros now a [= <-]. by exists now.
  - intros [[] d'] [now Hd]. apply effect_ret. by exists now.
Qed.
Lemma effect_require_db d P : effect d P (fun _ _ => True) (require_db s).
Proof. by apply effect_throw_if. Qed.

Lemma effect_commit_ret {V} d (P : DB -> Prop) d' f (a : V) :
  P d' -> effect d P (fun _ x => P x) (wrap f (commit d');; ret a).
Proof.
  intros HP. eapply (effect_then d _ (fun _ x => x = d')); [by apply effect_wrap, effect_commit|].
  intros _ x ->. by apply effect_ret.
Qed.
Lemma effect_mutateTrunk d (P : DB -> Prop) type mutation :
  (forall now t d1 now', mutation now d = inl (t, d1) -> P (log_trunk type t now' d1)) ->
  effect d P (fun _ d' => P d') (mutateTrunk s type mutation).
Proof.
  intros H. unfold mutateTrunk. eapply effect_read; [apply effect_require_db|cbv beta; intros _ _].
  eapply effect_read; [apply effect_wrap, effect_begin|cbv beta; intros ? ->].
  eapply (effect_read d _ _ (fun a => exists now, mutation now d = inl a)).
  { apply effect_exec_tx. eauto. }
  intros [t d1] [now Hm]. eapply effect_read; [apply effect_insertEvent|cbv beta; intros d2 [now' ->]].
  apply effect_commit_ret. by eapply H.
Qed.
Lemma effect_mutateEndpoint d (P : DB -> Prop) type mutation :
  (forall now e d1 now' t, mutation now d = inl (e, d1) ->
     own_trunk (e_OrganizationID e) (e_TrunkID e) d1 = Some t -> P (log_endpoint type t e now' d1)) ->
  effect d P (fun _ d' => P d') (mutateEndpoint s type mutation).
Proof.
  intros H. unfold mutateEndpoint. eapply effect_read; [apply effect_require_db|cbv beta; intros _ _].
  eapply effect_read; [apply effect_wrap, effect_begin|cbv beta; intros ? ->].
  eapply (effect_read d _ _ (fun a => exists now, mutation now d = inl a)).
  { apply effect_exec_tx. eauto. }
  intros [e d1] [now Hm].
  eapply (effect_read d _ _ (fun a => own_trunk (e_OrganizationID e) (e_TrunkID e) d1 = Some (fst a))).
  { apply effect_exec_tx. intros ? [t x]. unfold GetTrunkByID. case_match; simpl; by intros [= -> ->]. }
  intros [t ?] Ht. eapply effect_read; [apply effect_insertEvent|cbv beta; intros d2 [now' ->]].
  apply effect_commit_ret. by eapply H.
Qed.

Section Refinement.
Context {TL : TrunkLibLaws T} {HA : AEADLaws A}.

Lemma effect_encrypt d org id direction secret :
  effect d nothing (fun v _ => DecryptForScope (credentialScope org id direction) v = inl secret)
    (encrypt org id direction secret).
Proof.
  unfold encrypt. apply effect_wrap.
  eapply (effect_read d _ _ (fun _ => True)).
  { apply effect_ext_read. intros w Hw. simpl. done. }
  intros n _. apply effect_lift. intros v Hv. eapply scoped_roundtrip; [apply nonce_length|done|done].
Qed.
Lemma effect_seal d org id direction c :
  effect d nothing (fun x _ => (c = None <-> x = None) /\ all_sealed_for org id direction x) (seal org id direction c).
Proof.
  destruct c as [c|]; simpl; [|by apply effect_ret].
  eapply effect_read; [apply effect_encrypt|cbv beta; intros v Hv]. apply effect_ret. split; [split; intros [=]|by exists (dc_Secret c)].
Qed.
Lemma effect_insert_digest d org id direction c d1 :
  effect d nothing (fun x _ => insert_stored org id direction c d1 = inl x) (insert_digest org id direction c d1).
Proof.
  destruct c as [[[[u r] v] h]|]; simpl; [|by apply effect_ret].
  eapply (effect_read d _ _ (fun a => InsertTrunkDigestCredential org id direction u r h d1 = inl a)).
  { apply effect_wrap, effect_exec_tx. eauto. }
  intros [[] x] Hx. apply effect_ret. by rewrite Hx.
Qed.

Definition does {V} (o : op) (m : M World V) : Prop :=
  forall d, effect d (transition d o) (fun _ d' => finished d o d') m.

Lemma effect_ended {V V'} d o (m : M World V) (f : V -> V') :
  effect d (transition d o) (fun _ d' => transition d o d') m ->
  effect d (transition d o) (fun _ d' => finished d o d') (let! a := m in ret (f a)).
Proof. intros H. eapply effect_then; [done|]. intros a d' Hd. apply effect_ret. by left. Qed.
Lemma effect_ended' {V} d o (m : M World V) :
  effect d (transition d o) (fun _ d' => transition d o d') m ->
  effect d (transition d o) (fun _ d' => finished d o d') m.
Proof. intros H. eapply effect_weaken; [done..|]. intros a d' Hd. by left. Qed.

Lemma does_create org r : does (OpCreate org r) (Create s org r;; ret tt).
Proof.
  intros d. apply effect_ended. unfold Create.
  eapply effect_read; [apply effect_validateID|cbv beta; intros _ _].
  eapply (effect_read d _ _ (fun r' => normalizeCreate r = inl r')); [by apply effect_lift|cbv beta; intros r' Hr].
  eapply (effect_read d _ _ (fun _ => True)); [by apply effect_throw_if|cbv beta; intros _ _].
  eapply (effect_read d _ _ (fun _ => True)).
  { intros w Hw. simpl. split; [by left|done]. }
  intros id _.
  eapply effect_read; [apply effect_seal|cbv beta; intros outbound [Ho1 Ho2]].
  eapply effect_read; [apply effect_seal|cbv beta; intros inbound [Hi1 Hi2]].
  eapply effect_read; [apply effect_wrap, effect_begin|cbv beta; intros ? ->].
  eapply (effect_read d _ _ (fun a => exists now, CreateTrunk now id org (create_params r' outbound inbound) d = inl a)).
  { apply effect_wrap, effect_exec_tx. eauto. }
  intros [t d1] [now Ht].
  eapply effect_read; [apply effect_insert_digest|cbv beta; intros d2 Hd2].
  eapply effect_read; [apply effect_insert_digest|cbv beta; intros d3 Hd3].
  eapply effect_read; [apply effect_insertEvent|cbv beta; intros d4 [now' ->]].
  apply effect_commit_ret. apply (tr_create d org r r' id outbound inbound now t d1 d2 d3 now'); assumption.
Qed.
Lemma does_update org id u : does (OpUpdate org id u) (Update s org id u;; ret tt).
Proof.
  intros d. apply effect_ended. unfold Update.
  eapply effect_read; [apply effect_get|cbv beta; intros t Ht].
  eapply (effect_read d _ _ (fun u' => normalizeUpdate u = inl u')); [by apply effect_lift|cbv beta; intros u' Hu].
  apply effect_wrap, effect_mutateTrunk. intros. by eapply tr_update.
Qed.
Lemma does_delete org id : does (OpDelete org id) (Delete s org id).
Proof.
  intros d. unfold Delete. eapply effect_read; [apply effect_get|cbv beta; intros t Ht].
  destruct (bool_decide _) eqn:Es; [apply bool_decide_eq_true in Es; apply effect_ret; right; split; [by apply (idle_delete d org id t)|done]|].
  apply effect_ended, effect_wrap, effect_mutateTrunk. intros. by eapply tr_delete.
Qed.
Lemma does_clear_outbound org id o : o = OpClearOutbound org id \/ (exists r, o = OpSetOutbound org id r) ->
  forall d t, own_trunk org id d = Some t ->
  effect d (transition d o) (fun _ d' => finished d o d') (ClearOutbound org id).
Proof. intros Ho d t Ht. apply effect_ended', effect_exec. intros now [] d' Hd. split; (eapply tr_clear_outbound; [done|by eexists|done]). Qed.
Lemma does_clear_inbound org id o : o = OpClearInbound org id \/ (exists r, o = OpSetInbound org id r) ->
  forall d t, own_trunk org id d = Some t ->
  effect d (transition d o) (fun _ d' => finished d o d') (SetInboundIP org id).
Proof. intros Ho d t Ht. apply effect_ended', effect_exec. intros now [] d' Hd. split; (eapply tr_clear_inbound; [done|by eexists|done]). Qed.
Lemma does_set_outbound org id r : does (OpSetOutbound org id r) (SetOutboundAuth s org id r).
Proof.
  intros d. unfold SetOutboundAuth. eapply (effect_read d _ _ (fun _ => True)); [by apply effect_lift|cbv beta; intros [method c] _].
  eapply effect_read; [apply effect_get|cbv beta; intros t Ht].
  destruct c as [c|]; [|eapply does_clear_outbound; eauto].
  eapply (effect_read d _ _ (fun _ => True)); [by apply effect_throw_if|cbv beta; intros _ _].
  eapply effect_read; [apply effect_encrypt|cbv beta; intros v Hv].
  apply effect_ended', effect_exec. intros now [] d' Hd. split; (eapply tr_set_outbound; [by eexists|by exists (dc_Secret c)|done]).
Qed.
Lemma does_set_inbound org id r : does (OpSetInbound org id r) (SetInboundAuth s org id r).
Proof.
  intros d. unfold SetInboundAuth. eapply (effect_read d _ _ (fun _ => True)); [by apply effect_lift|cbv beta; intros [method c] _].
  eapply effect_read; [apply effect_get|cbv beta; intros t Ht].
  destruct c as [c|]; [|eapply does_clear_inbound; eauto].
  eapply (effect_read d _ _ (fun _ => True)); [by apply effect_throw_if|cbv beta; intros _ _].
  eapply effect_read; [apply effect_encrypt|cbv beta; intros v Hv].
  apply effect_ended', effect_exec. intros now [] d' Hd. split; (eapply tr_set_inbound; [by eexists|by exists (dc_Secret c)|done]).
Qed.
Lemma does_create_source org id value : does (OpCreateSourceIP org id value) (CreateSourceIP org id value;; ret tt).
Proof.
  intros d. apply effect_ended. unfold CreateSourceIP.
  eapply effect_read; [apply effect_get|cbv beta; intros t Ht].
  eapply (effect_read d _ _ (fun c => parseCIDR value = inl c)); [by apply effect_lift|cbv beta; intros cidr Hc].
  eapply (effect_then d _ (fun _ d' => transition d (OpCreateSourceIP org id value) d')).
  { apply effect_wrap. unfold Repo_CreateSourceIP.
    eapply (effect_read d _ _ (fun _ => True)); [intros w Hw; simpl; split; [by left|done]|cbv beta; intros n _].
    apply effect_exec. intros now row d' Hd. split; by eapply tr_create_source. }
  intros row d' Hd. by apply effect_ret.
Qed.
Lemma does_delete_source org id source : does (OpDeleteSourceIP org id source) (DeleteSourceIP org id source).
Proof.
  intros d. unfold DeleteSourceIP. eapply effect_read; [apply effect_get|cbv beta; intros t Ht].
  eapply (effect_read d _ _ (fun _ => True)); [by apply effect_throw_if|cbv beta; intros _ _].
  apply effect_ended', effect_exec. intros now [] d' Hd. split; (eapply tr_delete_source; [by eexists|done]).
Qed.

(** The row an endpoint statement returns is one of this trunk. *)
Lemma put_trunk_endpoint_inv hs e d e' d' : put_trunk_endpoint hs e d = inl (e', d') ->
  e' = e /\ d' = set_endpoints (<[e_ID e := e]> (endpoints d)) d /\ endpoint_row_ok hs e = true
  /\ target_taken d e = false.
Proof.
  unfold put_trunk_endpoint. destruct (endpoint_row_ok hs e); [|done]. simpl.
  destruct (target_taken d e); [done|]. by intros [= <- <-].
Qed.
Lemma own_endpoint_inv org trunk id d e : own_endpoint org trunk id d = Some e ->
  endpoints d !! id = Some e /\ e_TrunkID e = trunk /\ e_OrganizationID e = org /\ is_Some (own_trunk org trunk d).
Proof. unfold own_endpoint. destruct (endpoints d !! id) as [e'|]; [|done]. case_decide; [|done]. intros [= ->]. tauto. Qed.
Lemma does_create_endpoint org trunk r : does (OpCreateEndpoint org trunk r) (CreateEndpoint s org trunk r;; ret tt).
Proof.
  intros d. apply effect_ended. unfold CreateEndpoint.
  eapply effect_read; [apply effect_get|cbv beta; intros t0 Ht0].
  eapply (effect_read d _ _ (fun r' => normalize_endpoint_create r = inl r')); [by apply effect_lift|cbv beta; intros r' Hr].
  eapply (effect_read d _ _ (fun _ => True)); [intros w Hw; simpl; split; [by left|done]|cbv beta; intros n _].
  apply effect_wrap, effect_mutateEndpoint. intros now e d1 now' t He Ht.
  eapply tr_create_endpoint; [done..|]. unfold CreateTrunkEndpoint in He. rewrite Ht0 in He.
  destruct (bool_decide _); [done|].
  by apply put_trunk_endpoint_inv in He as (-> & _).
Qed.
Lemma does_update_endpoint org trunk id u : does (OpUpdateEndpoint org trunk id u) (UpdateEndpoint s org trunk id u;; ret tt).
Proof.
  intros d. apply effect_ended. unfold UpdateEndpoint.
  eapply effect_read; [apply effect_get_endpoint|cbv beta; intros e0 He0].
  eapply (effect_read d _ _ (fun u' => normalize_endpoint_update u = inl u')); [by apply effect_lift|cbv beta; intros u' Hu].
  apply effect_wrap, effect_mutateEndpoint. intros now e d1 now' t He Ht.
  eapply tr_update_endpoint; [done..|]. unfold UpdateTrunkEndpoint in He. rewrite He0 in He.
  apply own_endpoint_inv in He0 as (_ & H1 & H2 & _).
  apply put_trunk_endpoint_inv in He as (-> & _). simpl in Ht. by rewrite H1, H2 in Ht.
Qed.
Lemma does_delete_endpoint org trunk id : does (OpDeleteEndpoint org trunk id) (DeleteEndpoint s org trunk id).
Proof.
  intros d. unfold DeleteEndpoint. eapply effect_read; [apply effect_get_endpoint|cbv beta; intros e0 He0].
  apply effect_ended, effect_wrap, effect_mutateEndpoint. intros now e d1 now' t He Ht.
  eapply tr_delete_endpoint; [done|]. unfold DeleteTrunkEndpoint in He. rewrite He0 in He.
  injection He as <- <-. apply own_endpoint_inv in He0 as (_ & H1 & H2 & _). by rewrite H1, H2 in Ht.
Qed.
Lemma does_run_op o : does o (run_op o).
Proof.
  destruct o; simpl.
  - apply does_create.
  - apply does_update.
  - apply does_delete.
  - apply does_set_outbound.
  - apply does_set_inbound.
  - intros d. eapply effect_read; [apply effect_get|cbv beta; intros t Ht]. eapply does_clear_outbound; eauto.
  - intros d. eapply effect_read; [apply effect_get|cbv beta; intros t Ht]. eapply does_clear_inbound; eauto.
  - apply does_create_source.
  - apply does_delete_source.
  - apply does_create_endpoint.
  - apply does_update_endpoint.
  - apply does_delete_endpoint.
Qed.
End Refinement.
End Machine.
End TrunkSafety.
