(* ===== verification/TrunkInvariant.v ===== *)
(** * The invariant of the trunk store

    What every statement of the service and of the health job keeps: rows satisfy
    their constraints and belong to an existing trunk of their organization, and
    the credential columns of a trunk agree with its digest rows. *)

From S2P Require Import Prelude Encryption Routing Trunks TrunkService TrunkHealth TrunkSafety.
Local Open Scope Z_scope.

Module TrunkInvariant.
Import Trunks Encryption TrunkService TrunkHealth TrunkSafety.

Section Invariant.
Context {T : TrunkLib} {A : AEAD} {U : UuidLib}.

(** ** The invariant of the store *)
Definition auth (direction : string) (t : Trunk) : string * option string * option string * option string :=
  if bool_decide (direction = "outbound")
  then (t_OutboundAuthMethod t, t_AuthUsername t, t_AuthRealm t, t_AuthSecretCiphertext t)
  else (t_InboundAuthMethod t, t_InboundUsername t, t_InboundRealm t, t_InboundSecretCiphertext t).
(** The columns of one direction against its digest row: both say digest, with one
    username and realm, and the HA1 of the secret that the ciphertext opens to for
    this trunk; or neither holds a credential. *)
Definition agree (org id : UUID) (direction : string) (a : string * option string * option string * option string)
    (row : option DigestRow) : Prop :=
  match a with
  | (method, Some u, Some r, Some c) =>
      method = "digest" /\ exists h,
        row = Some {| dg_OrganizationID := org; dg_Username := u; dg_Realm := r; dg_HA1 := h |}
        /\ sealed_for org id direction (u, r, c, h)
  | (method, None, None, None) => method <> "digest" /\ row = None
  | _ => False
  end.
Definition side (d : DB) (id : UUID) (direction : string) : Prop :=
  match trunks d !! id with
  | Some t => agree (t_OrganizationID t) id direction (auth direction t) (digests d !! (id, direction))
  | None => digests d !! (id, direction) = None
  end.
Definition owns (d : DB) (org trunk : UUID) : Prop :=
  exists t, trunks d !! trunk = Some t /\ t_OrganizationID t = org.
Definition clean_host (h : string) : bool := negb (ContainsAny h [" "%char; ascii_of_N 9; CR; LF]).
Record store_wf (d : DB) : Prop := {
  wf_trunks id t : trunks d !! id = Some t -> t_ID t = id /\ trunk_row_ok t = true;
  wf_endpoints id e : endpoints d !! id = Some e ->
    e_ID e = id /\ endpoint_row_ok has_space e = true /\ clean_host (e_Host e) = true
    /\ owns d (e_OrganizationID e) (e_TrunkID e);
  wf_sources id x : source_ips d !! id = Some x -> si_ID x = id /\ owns d (si_OrganizationID x) (si_TrunkID x);
  wf_outbound id : side d id "outbound";
  wf_inbound id : side d id "inbound";
}.

Lemma side_frame d d' id direction : trunks d' !! id = trunks d !! id ->
  digests d' !! (id, direction) = digests d !! (id, direction) -> side d id direction -> side d' id direction.
Proof. unfold side. by intros -> ->. Qed.
(** The tables other than the trunks may change at will for the trunk rows. *)
Lemma owns_trunks d d' org trunk : trunks d' = trunks d -> owns d org trunk -> owns d' org trunk.
Proof. unfold owns. by intros ->. Qed.
Lemma store_wf_same d d' : trunks d' = trunks d -> digests d' = digests d -> source_ips d' = source_ips d ->
  endpoints d' = endpoints d -> store_wf d -> store_wf d'.
Proof.
  intros Ht Hg Hs He [H1 H2 H3 H4 H5]. split.
  - by rewrite Ht.
  - intros id e. rewrite He. intros (? & ? & ? & ?)%H2. eauto using owns_trunks.
  - intros id x. rewrite Hs. intros (? & ?)%H3. eauto using owns_trunks.
  - intros id. eapply side_frame, H4; by rewrite ?Ht, ?Hg.
  - intros id. eapply side_frame, H5; by rewrite ?Ht, ?Hg.
Qed.
Lemma store_wf_log d type t ep res now : store_wf d -> store_wf (log type t ep res now d).
Proof. by apply store_wf_same. Qed.

Lemma put_trunk_inv t d t' d' : put_trunk t d = inl (t', d') ->
  t' = t /\ d' = set_trunks (<[t_ID t := t]> (trunks d)) d /\ trunk_row_ok t = true
  /\ name_taken d (t_ID t) (t_OrganizationID t) (t_Name t) = false.
Proof.
  unfold put_trunk. destruct (trunk_row_ok t); [|done]. simpl. destruct (name_taken _ _ _ _); [done|].
  by intros [= <- <-].
Qed.
Lemma put_digest_inv id direction g d d' : put_digest id direction g d = inl (tt, d') ->
  d' = set_digests (<[(id, direction) := g]> (digests d)) d /\ digest_row_ok direction g = true.
Proof.
  unfold put_digest. destruct (digest_row_ok direction g); [|done]. simpl. destruct (_ && _); [done|].
  by intros [= <-].
Qed.
Lemma own_trunk_inv org id d t : own_trunk org id d = Some t -> trunks d !! id = Some t /\ t_OrganizationID t = org.
Proof. unfold own_trunk. destruct (trunks d !! id); [|done]. case_decide; [|done]. by intros [= ->]. Qed.

(** Writing a trunk row of the same owner. *)
Lemma owns_insert d t t0 org trunk : trunks d !! t_ID t = Some t0 -> t_OrganizationID t = t_OrganizationID t0 ->
  owns d org trunk -> owns (set_trunks (<[t_ID t := t]> (trunks d)) d) org trunk.
Proof.
  intros H0 Ho (x & Hx & Hxo). unfold owns. simpl. destruct (decide (trunk = t_ID t)) as [->|Hn].
  - exists t. rewrite lookup_insert_eq. split; [done|]. congruence.
  - exists x. by rewrite lookup_insert_ne.
Qed.
(** A trunk row and the digest rows of that trunk are replaced. *)
Lemma store_wf_trunk d t t0 g : store_wf d -> trunks d !! t_ID t = Some t0 ->
  t_OrganizationID t = t_OrganizationID t0 -> trunk_row_ok t = true ->
  (forall id direction, id <> t_ID t -> g !! (id, direction) = digests d !! (id, direction)) ->
  agree (t_OrganizationID t) (t_ID t) "outbound" (auth "outbound" t) (g !! (t_ID t, "outbound"%string)) ->
  agree (t_OrganizationID t) (t_ID t) "inbound" (auth "inbound" t) (g !! (t_ID t, "inbound"%string)) ->
  store_wf (set_digests g (set_trunks (<[t_ID t := t]> (trunks d)) d)).
Proof.
  intros [H1 H2 H3 H4 H5] H0 Ho Hok Hg Hout Hin. split; simpl.
  - intros id x [[<- <-]|[Hn Hx]]%lookup_insert_Some; [done|auto].
  - intros id e (? & ? & ? & Hw)%H2. split_and!; [done..|]. exact (owns_insert d t t0 _ _ H0 Ho Hw).
  - intros id x (? & Hw)%H3. split; [done|]. exact (owns_insert d t t0 _ _ H0 Ho Hw).
  - intros id. unfold side. simpl. destruct (decide (id = t_ID t)) as [->|Hn].
    + by rewrite lookup_insert_eq.
    + rewrite lookup_insert_ne, Hg by done. apply H4.
  - intros id. unfold side. simpl. destruct (decide (id = t_ID t)) as [->|Hn].
    + by rewrite lookup_insert_eq.
    + rewrite lookup_insert_ne, Hg by done. apply H5.
Qed.
(** The authentication columns stay. *)
Lemma store_wf_columns d t t0 : store_wf d -> trunks d !! t_ID t = Some t0 ->
  t_OrganizationID t = t_OrganizationID t0 -> trunk_row_ok t = true ->
  auth "outbound" t = auth "outbound" t0 -> auth "inbound" t = auth "inbound" t0 ->
  store_wf (set_trunks (<[t_ID t := t]> (trunks d)) d).
Proof.
  intros Hd H0 Ho Hok Hout Hin. pose proof (wf_outbound d Hd (t_ID t)) as Hso.
  pose proof (wf_inbound d Hd (t_ID t)) as Hsi. unfold side in Hso, Hsi. rewrite H0 in Hso, Hsi.
  apply (store_wf_trunk d t t0 (digests d)); rewrite ?Ho, ?Hout, ?Hin; auto.
Qed.

(** The row constraint ties the method to the presence of a credential. *)
Lemma trunk_row_auth t direction : direction = "outbound" \/ direction = "inbound" -> trunk_row_ok t = true ->
  match auth direction t with
  | (method, Some _, Some _, Some _) => method = "digest"
  | (method, None, None, None) => method <> "digest"
  | _ => False
  end.
Proof.
  unfold trunk_row_ok. rewrite !andb_true_iff. intros Hd [[[[[[[[_ _] _] _] Ho] _] Hi] _] _].
  unfold auth_fields in Ho, Hi.
  rewrite orb_true_iff, !andb_true_iff, !bool_decide_eq_true in Ho, Hi.
  destruct Hd as [-> | ->]; simpl.
  - destruct (t_AuthUsername t), (t_AuthRealm t), (t_AuthSecretCiphertext t);
      destruct Ho as [Ho|Ho]; rewrite ?andb_true_iff, ?bool_decide_eq_true in Ho; intuition congruence.
  - destruct (t_InboundUsername t), (t_InboundRealm t), (t_InboundSecretCiphertext t);
      destruct Hi as [Hi|Hi]; rewrite ?andb_true_iff, ?bool_decide_eq_true in Hi; intuition congruence.
Qed.
Lemma agree_none org id direction t row : direction = "outbound" \/ direction = "inbound" -> trunk_row_ok t = true ->
  auth direction t = (fst3 (fst (auth direction t)), None, None, None) -> row = None -> agree org id direction (auth direction t) row.
Proof.
  intros Hd Hok Ha ->. pose proof (trunk_row_auth t direction Hd Hok) as H. rewrite Ha in *. done.
Qed.
Lemma agree_some org id direction t u r v h : direction = "outbound" \/ direction = "inbound" -> trunk_row_ok t = true ->
  auth direction t = (fst3 (fst (auth direction t)), Some u, Some r, Some v) -> sealed_for org id direction (u, r, v, h) ->
  agree org id direction (auth direction t)
    (Some {| dg_OrganizationID := org; dg_Username := u; dg_Realm := r; dg_HA1 := h |}).
Proof.
  intros Hd Hok Ha Hs. pose proof (trunk_row_auth t direction Hd Hok) as H. rewrite Ha in *. simpl. eauto.
Qed.

(** *** Every statement keeps the invariant *)
Lemma wf_UpdateTrunk now org id u d t d' : store_wf d -> UpdateTrunk now org id u d = inl (t, d') -> store_wf d'.
Proof.
  intros Hd. unfold UpdateTrunk. destruct (own_trunk org id d) as [t0|] eqn:E; [|done].
  apply own_trunk_inv in E as [E _]. destruct (wf_trunks d Hd id t0 E) as [Hid _].
  intros (-> & -> & Hok & _)%put_trunk_inv. eapply store_wf_columns; [done|by simpl; rewrite Hid|done..].
Qed.
Lemma wf_DisableTrunk now org id d t d' : store_wf d -> DisableTrunk now org id d = inl (t, d') -> store_wf d'.
Proof.
  intros Hd. unfold DisableTrunk. destruct (own_trunk org id d) as [t0|] eqn:E; [|done]. case_bool_decide; [|done].
  intros Hp. eapply (wf_UpdateTrunk now org id); [done|]. unfold UpdateTrunk. by rewrite E.
Qed.
Lemma wf_set_digest direction set now org id u r v h d d' :
  direction = "outbound" /\ set = with_outbound now "digest" (Some (u, r, v))
  \/ direction = "inbound" /\ set = with_inbound now "digest" (Some (u, r, v)) ->
  store_wf d -> sealed_for org id direction (u, r, v, h) ->
  set_digest_auth direction set org id (u, r, v) h d = inl (tt, d') -> store_wf d'.
Proof.
  intros Hset Hd Hs. unfold set_digest_auth. destruct (own_trunk org id d) as [t0|] eqn:E.
  2:{ by intros [= <-]. }
  apply own_trunk_inv in E as [E Ho]. destruct (wf_trunks d Hd id t0 E) as [Hid _].
  intros Hp. apply rbind_ok_inv in Hp as ([t d1] & (-> & -> & Hok & _)%put_trunk_inv & (-> & _)%put_digest_inv).
  pose proof (wf_outbound d Hd id) as Hso. pose proof (wf_inbound d Hd id) as Hsi. unfold side in Hso, Hsi.
  rewrite E in Hso, Hsi.
  destruct Hset as [[-> ->]|[-> ->]];
    (eapply (store_wf_trunk d _ t0); [done|simpl; by rewrite Hid|done|done| | |]); simpl; rewrite ?Hid.
  - intros id' dir' Hn. apply lookup_insert_ne. congruence.
  - rewrite lookup_insert_eq, Ho. split; [done|]. by exists h.
  - rewrite lookup_insert_ne by congruence. exact Hsi.
  - intros id' dir' Hn. apply lookup_insert_ne. congruence.
  - rewrite lookup_insert_ne by congruence. exact Hso.
  - rewrite lookup_insert_eq, Ho. split; [done|]. by exists h.
Qed.
Lemma wf_clear_digest direction set now org id d d' :
  direction = "outbound" /\ set = with_outbound now "none" None
  \/ direction = "inbound" /\ set = with_inbound now "ip" None ->
  store_wf d -> clear_digest_auth direction set org id d = inl (tt, d') -> store_wf d'.
Proof.
  intros Hset Hd. unfold clear_digest_auth. destruct (own_trunk org id d) as [t0|] eqn:E.
  2:{ by intros [= <-]. }
  apply own_trunk_inv in E as [E Ho]. destruct (wf_trunks d Hd id t0 E) as [Hid _].
  intros Hp. apply rbind_ok_inv in Hp as ([t d1] & (-> & -> & Hok & _)%put_trunk_inv & [= <-]).
  pose proof (wf_outbound d Hd id) as Hso. pose proof (wf_inbound d Hd id) as Hsi. unfold side in Hso, Hsi.
  rewrite E in Hso, Hsi.
  destruct Hset as [[-> ->]|[-> ->]];
    (eapply (store_wf_trunk d _ t0); [done|simpl; by rewrite Hid|done|done| | |]); simpl; rewrite ?Hid.
  - intros id' dir' Hn. apply lookup_delete_ne. congruence.
  - by rewrite lookup_delete_eq.
  - rewrite lookup_delete_ne by congruence. exact Hsi.
  - intros id' dir' Hn. apply lookup_delete_ne. congruence.
  - rewrite lookup_delete_ne by congruence. exact Hso.
  - by rewrite lookup_delete_eq.
Qed.

(** *** Creation *)
Lemma insert_stored_inv org id direction c d d' t : own_trunk org id d = Some t ->
  insert_stored org id direction c d = inl d' ->
  trunks d' = trunks d /\ source_ips d' = source_ips d /\ endpoints d' = endpoints d
  /\ outbox d' = outbox d /\ organizations d' = organizations d
  /\ digests d' = match c with
       | Some (u, r, _, h) => <[(id, direction) := {| dg_OrganizationID := org; dg_Username := u; dg_Realm := r; dg_HA1 := h |}]> (digests d)
       | None => digests d
       end.
Proof.
  intros Ho. destruct c as [[[[u r] v] h]|]; simpl; [|by intros [= <-]].
  intros Hp. apply rbind_ok_inv in Hp as ([[] x] & Hi & [= <-]). unfold InsertTrunkDigestCredential in Hi.
  rewrite Ho in Hi. destruct (bool_decide _); [done|]. by apply put_digest_inv in Hi as [-> _].
Qed.
Lemma agree_new now org id p direction c : direction = "outbound" /\ p_Outbound p = fst <$> c
    \/ direction = "inbound" /\ p_Inbound p = fst <$> c ->
  trunk_row_ok (new_trunk now id org p) = true -> all_sealed_for org id direction c ->
  agree org id direction (auth direction (new_trunk now id org p))
    (match c with Some (u, r, _, h) => Some {| dg_OrganizationID := org; dg_Username := u; dg_Realm := r; dg_HA1 := h |}
     | None => None end).
Proof.
  intros Hp Hok Hs. assert (Hd : direction = "outbound" \/ direction = "inbound") by tauto.
  assert (Ha : auth direction (new_trunk now id org p) = (fst3 (fst (auth direction (new_trunk now id org p))),
    fst3 <$> (fst <$> c), snd3 <$> (fst <$> c), snd <$> (fst <$> c)))
    by (destruct Hp as [[-> <-]|[-> <-]]; done).
  destruct c as [[[[u r] v] h]|].
  - by apply (agree_some org id direction _ u r v h).
  - by apply agree_none.
Qed.
Lemma wf_create now org id p outbound inbound d t d1 d2 d3 : store_wf d ->
  p_Outbound p = fst <$> outbound -> p_Inbound p = fst <$> inbound ->
  all_sealed_for org id "outbound" outbound -> all_sealed_for org id "inbound" inbound ->
  CreateTrunk now id org p d = inl (t, d1) ->
  insert_stored org id "outbound" outbound d1 = inl d2 -> insert_stored org id "inbound" inbound d2 = inl d3 ->
  store_wf d3.
Proof.
  intros Hd Hpo Hpi Hso Hsi Hc Hd2 Hd3. unfold CreateTrunk in Hc. destruct (org_active org d); [|done]. simpl in Hc.
  destruct (bool_decide (is_Some (trunks d !! id))) eqn:En; [done|].
  apply bool_decide_eq_false, eq_None_not_Some in En. apply put_trunk_inv in Hc as (-> & -> & Hok & _). simpl in *.
  set (t := new_trunk now id org p) in *.
  assert (Hown : forall x, trunks x = <[id := t]> (trunks d) -> own_trunk org id x = Some t).
  { intros x Hx. unfold own_trunk. rewrite Hx, lookup_insert_eq. by rewrite decide_True. }
  destruct (insert_stored_inv _ _ _ _ _ _ t (Hown (set_trunks (<[id := t]> (trunks d)) d) eq_refl) Hd2) as (T2 & S2 & E2 & _ & _ & G2).
  destruct (insert_stored_inv _ _ _ _ _ _ t (Hown _ T2) Hd3) as (T3 & S3 & E3 & _ & _ & G3).
  pose proof (wf_outbound d Hd id) as Ho. pose proof (wf_inbound d Hd id) as Hi. unfold side in Ho, Hi.
  rewrite En in Ho, Hi.
  assert (Hkeep : forall o x, owns d o x -> owns d3 o x).
  { intros o x (t' & Ht' & Hto). exists t'. rewrite T3, T2. simpl. split; [|done].
    rewrite lookup_insert_ne; [done|]. intros ->. congruence. }
  assert (Hg : forall i dir, i <> id -> digests d3 !! (i, dir) = digests d !! (i, dir)).
  { intros i dir Hn. rewrite G3, G2. simpl.
    destruct inbound as [[[[??]?]?]|], outbound as [[[[??]?]?]|]; rewrite ?lookup_insert_ne by congruence; done. }
  split.
  - intros i x. rewrite T3, T2. simpl. intros [[<- <-]|[_ Hx]]%lookup_insert_Some; [done|]. by apply Hd.
  - intros i e. rewrite E3, E2. simpl. intros (? & ? & ? & ?)%Hd. eauto.
  - intros i e. rewrite S3, S2. simpl. intros (? & ?)%Hd. eauto.
  - intros i. unfold side. rewrite T3, T2. simpl. destruct (decide (i = id)) as [->|Hn].
    + rewrite lookup_insert_eq. pose proof (agree_new now org id p "outbound" outbound (or_introl (conj eq_refl Hpo)) Hok Hso) as Hagree.
      rewrite G3, G2. simpl. destruct outbound as [[[[u r] v] h]|], inbound as [[[[??]?]?]|];
        rewrite ?(lookup_insert_ne _ (id, "inbound"%string)) by congruence; rewrite ?lookup_insert_eq, ?Ho; exact Hagree.
    + rewrite lookup_insert_ne, Hg by done. apply Hd.
  - intros i. unfold side. rewrite T3, T2. simpl. destruct (decide (i = id)) as [->|Hn].
    + rewrite lookup_insert_eq. pose proof (agree_new now org id p "inbound" inbound (or_intror (conj eq_refl Hpi)) Hok Hsi) as Hagree.
      rewrite G3, G2. simpl. destruct inbound as [[[[u r] v] h]|], outbound as [[[[??]?]?]|];
        rewrite ?lookup_insert_eq; rewrite ?(lookup_insert_ne _ (id, "outbound"%string)) by congruence; rewrite ?Hi; exact Hagree.
    + rewrite lookup_insert_ne, Hg by done. apply Hd.
Qed.

(** *** Source addresses and endpoints *)
Lemma wf_sources_put d m : store_wf d ->
  (forall id x, m !! id = Some x -> si_ID x = id /\ owns d (si_OrganizationID x) (si_TrunkID x)) ->
  store_wf (set_source_ips m d).
Proof.
  intros [H1 H2 H3 H4 H5] Hm. split; try done.
Qed.
Lemma own_owns org id d t : own_trunk org id d = Some t -> owns d org id.
Proof. intros [? ?]%own_trunk_inv. by exists t. Qed.
Lemma wf_CreateTrunkSourceIP now id org trunk cidr d row d' : store_wf d ->
  CreateTrunkSourceIP now id org trunk cidr d = inl (row, d') -> store_wf d'.
Proof.
  intros Hd. unfold CreateTrunkSourceIP. destruct (own_trunk org trunk d) eqn:E; [|done].
  destruct (bool_decide _); [done|]. destruct (cidr_taken _ _ _); [done|]. intros [= <- <-].
  apply wf_sources_put; [done|]. intros i x [[<- <-]|[_ Hx]]%lookup_insert_Some; [|by apply Hd].
  simpl. eauto using own_owns.
Qed.
Lemma wf_DeleteTrunkSourceIP org trunk id d d' : store_wf d ->
  DeleteTrunkSourceIP org trunk id d = inl (tt, d') -> store_wf d'.
Proof.
  intros Hd. unfold DeleteTrunkSourceIP. destruct (source_ips d !! id); [|by intros [= <-]].
  destruct (_ && _); intros [= <-]; [|done]. apply wf_sources_put; [done|].
  intros i x [_ Hx]%lookup_delete_Some. by apply Hd.
Qed.

Definition endpoint_wf (d : DB) (e : TrunkEndpoint) : Prop :=
  endpoint_row_ok has_space e = true /\ clean_host (e_Host e) = true /\ owns d (e_OrganizationID e) (e_TrunkID e).
Lemma wf_endpoints_put d m : store_wf d ->
  (forall id e, m !! id = Some e -> e_ID e = id /\ endpoint_wf d e) -> store_wf (set_endpoints m d).
Proof. intros [H1 H2 H3 H4 H5] Hm. split; try done. Qed.
Lemma wf_put_trunk_endpoint e d e' d' : store_wf d -> clean_host (e_Host e) = true ->
  owns d (e_OrganizationID e) (e_TrunkID e) -> put_trunk_endpoint has_space e d = inl (e', d') -> store_wf d'.
Proof.
  intros Hd Hc Ho (-> & -> & Hok & _)%put_trunk_endpoint_inv. apply wf_endpoints_put; [done|].
  intros i x [[<- <-]|[_ Hx]]%lookup_insert_Some; [done|by apply Hd].
Qed.
Lemma normalizeHost_clean v h : normalizeHost is_IP v = inl h -> clean_host h = true.
Proof.
  unfold normalizeHost, clean_host. set (x := ToLower _).
  destruct (ContainsAny x _) eqn:E; [by rewrite orb_true_r|].
  destruct (_ || _); [done|]. destruct (is_IP x); [by intros [= <-]; rewrite E|].
  destruct (forallb _ _); [|done]. by intros [= <-]; rewrite E.
Qed.
Lemma wf_CreateTrunkEndpoint now id org trunk r r' d e d' : store_wf d ->
  normalize_endpoint_create r = inl r' -> CreateTrunkEndpoint has_space now id org trunk r' d = inl (e, d') -> store_wf d'.
Proof.
  intros Hd Hr. unfold CreateTrunkEndpoint. destruct (own_trunk org trunk d) eqn:E; [|done].
  destruct (bool_decide _); [done|]. apply wf_put_trunk_endpoint; [done| |by eapply own_owns].
  unfold normalize_endpoint_create in Hr. repeat (apply rbind_ok_inv in Hr as (? & ? & Hr)).
  injection Hr as <-. simpl. by eapply normalizeHost_clean.
Qed.
Lemma wf_UpdateTrunkEndpoint now org trunk id u u' d e d' : store_wf d ->
  normalize_endpoint_update u = inl u' -> UpdateTrunkEndpoint has_space now org trunk id u' d = inl (e, d') -> store_wf d'.
Proof.
  intros Hd Hu. unfold UpdateTrunkEndpoint. destruct (own_endpoint org trunk id d) as [e0|] eqn:E; [|done].
  apply own_endpoint_inv in E as (E & _). destruct (wf_endpoints d Hd id e0 E) as (_ & _ & Hc & Ho).
  apply wf_put_trunk_endpoint; [done| |done]. simpl.
  unfold normalize_endpoint_update in Hu. do 2 (apply rbind_ok_inv in Hu as (? & ? & Hu)).
  repeat (apply rbind_ok_inv in Hu as (? & ? & Hu)). injection Hu as <-. simpl.
  destruct (eu_Host u) as [h|]; simpl in *.
  - match goal with H : rbind (normalizeHost _ _) _ = _ |- _ => apply rbind_ok_inv in H as (h' & Hh & [= <-]) end.
    by eapply normalizeHost_clean.
  - match goal with H : inl None = inl _ |- _ => injection H as <- end. done.
Qed.
Lemma wf_DeleteTrunkEndpoint org trunk id d e d' : store_wf d -> DeleteTrunkEndpoint org trunk id d = inl (e, d') -> store_wf d'.
Proof.
  intros Hd. unfold DeleteTrunkEndpoint. destruct (own_endpoint org trunk id d); [|done]. intros [= <- <-].
  apply wf_endpoints_put; [done|]. intros i x [_ Hx]%lookup_delete_Some. by apply Hd.
Qed.

(** *** Health statements *)
Lemma wf_update_health now id f d e d' : store_wf d -> update_health has_space now id f d = inl (e, d') -> store_wf d'.
Proof.
  intros Hd. unfold update_health. destruct (endpoints d !! id) as [e0|] eqn:E; [|done].
  destruct (wf_endpoints d Hd id e0 E) as (_ & _ & Hc & Ho). by apply wf_put_trunk_endpoint.
Qed.
Lemma wf_claim now checked_at due_before batch d es d' : store_wf d ->
  ListTrunkEndpointsForHealthCheck now checked_at due_before batch d = inl (es, d') -> store_wf d'.
Proof.
  intros Hd. unfold ListTrunkEndpointsForHealthCheck. intros [= _ <-]. apply wf_endpoints_put; [done|].
  intros i e. rewrite lookup_fmap. intros (e0 & He & ->)%fmap_Some. destruct (wf_endpoints d Hd i e0 He) as (? & ? & ? & ?).
  destruct (bool_decide _); done.
Qed.

(** ** The system *)
Lemma wf_transition d o d' : store_wf d -> transition d o d' -> store_wf d'.
Proof.
  intros Hd [org r r' id outbound inbound now t d1 d2 d3 now' | | |? ? ? ? ? ? ? ? ? ? Hs Hx|? ? ? ? ? ? ? ? ? ? Hs Hx|? ? ? ? ? _ _ Hx|? ? ? ? ? _ _ Hx| | | | | ];
    try apply store_wf_log.
  - by apply (wf_create now org id (create_params r' outbound inbound) outbound inbound d t d1 d2 d3).
  - by eapply wf_UpdateTrunk.
  - by eapply wf_DisableTrunk.
  - eapply wf_set_digest, Hx; eauto.
  - eapply wf_set_digest, Hx; eauto.
  - eapply wf_clear_digest, Hx; eauto.
  - eapply wf_clear_digest, Hx; eauto.
  - by eapply wf_CreateTrunkSourceIP.
  - by eapply wf_DeleteTrunkSourceIP.
  - by eapply wf_CreateTrunkEndpoint.
  - by eapply wf_UpdateTrunkEndpoint.
  - by eapply wf_DeleteTrunkEndpoint.
Qed.
End Invariant.
End TrunkInvariant.
