(* ===== verification/TrunkOutcomes.v ===== *)
(** * Outcomes of the trunk service and of the health checks *)

From S2P Require Import Prelude Encryption Routing Trunks TrunkService TrunkHealth TrunkSafety TrunkInvariant.
Local Open Scope Z_scope.

Module TrunkOutcomes.
Import Trunks Encryption TrunkService TrunkHealth TrunkSafety TrunkInvariant.

Section Outcomes.
Context {T : TrunkLib} {TL : TrunkLibLaws T} {A : AEAD} {HA : AEADLaws A} {U : UuidLib}.

(** ** The system

    Requests of any tenant on any process, the statements of the health jobs, and
    whatever else happens outside these tables. The jobs share one failure threshold. *)
Inductive step (threshold : Z) (w w' : World) : Prop :=
| step_request s o : w' = snd (run_op s o w) -> step threshold w w'
| step_claim checked_at due_before batch : w' = snd (ListForHealthCheck checked_at due_before batch w) -> step threshold w w'
| step_healthy id checked_at code latency : w' = snd (MarkHealthy id checked_at code latency w) -> step threshold w w'
| step_failed id checked_at latency message cooldown :
    w' = snd (MarkProbeFailed id checked_at latency message threshold cooldown w) -> step threshold w w'
| step_elsewhere : trunks (w_db w') = trunks (w_db w) -> digests (w_db w') = digests (w_db w) ->
    source_ips (w_db w') = source_ips (w_db w) -> endpoints (w_db w') = endpoints (w_db w) -> step threshold w w'.


Lemma moves s o w : w_db (snd (run_op s o w)) = w_db w \/ transition (w_db w) o (w_db (snd (run_op s o w))).
Proof. apply (does_run_op s o (w_db w) w eq_refl). Qed.

Lemma wf_exec {V} (f : Z -> DB -> result (V * DB)) w : store_wf (w_db w) ->
  (forall now a d', f now (w_db w) = inl (a, d') -> store_wf d') -> store_wf (w_db (snd (exec f w))).
Proof.
  intros Hw Hf. destruct (effect_exec (w_db w) store_wf (fun _ _ => True) f) with (w := w) as [[-> |H] _]; eauto.
Qed.
Lemma wf_step threshold w w' : step threshold w w' -> store_wf (w_db w) -> store_wf (w_db w').
Proof.
  intros [s o ->|c b n ->|id c code l -> |id c l m k ->|H1 H2 H3 H4] Hw.
  - destruct (moves s o w) as [-> |H]; [done|]. by eapply wf_transition.
  - apply wf_exec; [done|]. intros. by eapply wf_claim.
  - apply wf_exec; [done|]. intros now [] d' ([e x] & Hm & [= <-])%rbind_ok_inv. by eapply wf_update_health.
  - apply wf_exec; [done|]. intros now [] d' ([e x] & Hm & [= <-])%rbind_ok_inv. by eapply wf_update_health.
  - by eapply store_wf_same.
Qed.

(** C35: From a consistent store (an empty one is), whatever requests and health
    checks run and whatever fails: rows satisfy their constraints and belong to
    an existing trunk of their organization, hosts hold no blanks, and for each
    trunk and direction either neither the columns nor the digest table hold a
    credential, or both hold the same username and realm and the digest table the
    HA1 of the secret that the ciphertext opens to under that trunk's scope. *)
Theorem trunk_store_stays_consistent threshold w w' :
  rtc (step threshold) w w' -> store_wf (w_db w) -> store_wf (w_db w').
Proof. intros Hr Hw. by apply (rtc_invariant (step threshold) (fun w => store_wf (w_db w)) w w'); [|exact (wf_step threshold)|]. Qed.

(** ** Tenants *)
Definition elsewhere (org : UUID) (d : DB) :=
  (filter (fun kv => t_OrganizationID kv.2 <> org) (trunks d),
   filter (fun kv => dg_OrganizationID kv.2 <> org) (digests d),
   filter (fun kv => si_OrganizationID kv.2 <> org) (source_ips d),
   filter (fun kv => e_OrganizationID kv.2 <> org) (endpoints d),
   filter (fun ev => ev_OrganizationID ev <> org) (outbox d)).

Section OwnRows.
Context {K : Type} `{Countable K} {V : Type} (owner : V -> UUID) (org : UUID).
Lemma filter_insert_own (m : gmap K V) k v : (forall x, m !! k = Some x -> owner x = org) -> owner v = org ->
  filter (fun kv => owner kv.2 <> org) (<[k := v]> m) = filter (fun kv => owner kv.2 <> org) m.
Proof.
  intros Hm Hv. apply map_eq. intros i. apply option_eq. intros x. rewrite !map_lookup_filter_Some.
  destruct (decide (i = k)) as [->|Hn]; [|by rewrite lookup_insert_ne].
  rewrite lookup_insert_eq. simpl. split; [by intros [[= <-] ?]|]. intros [Hx Ho]. by specialize (Hm x Hx).
Qed.
Lemma filter_delete_own (m : gmap K V) k : (forall x, m !! k = Some x -> owner x = org) ->
  filter (fun kv => owner kv.2 <> org) (delete k m) = filter (fun kv => owner kv.2 <> org) m.
Proof.
  intros Hm. apply map_eq. intros i. apply option_eq. intros x. rewrite !map_lookup_filter_Some.
  destruct (decide (i = k)) as [->|Hn]; [|by rewrite lookup_delete_ne].
  rewrite lookup_delete_eq. simpl. split; [by intros [[=] ?]|]. intros [Hx Ho]. by specialize (Hm x Hx).
Qed.
End OwnRows.

Lemma wf_digest_owner d id direction x : store_wf d -> direction = "outbound" \/ direction = "inbound" ->
  digests d !! (id, direction) = Some x -> exists t, trunks d !! id = Some t /\ t_OrganizationID t = dg_OrganizationID x.
Proof.
  intros Hd Hdir Hx. assert (Hs : side d id direction) by (destruct Hdir as [-> | ->]; apply Hd).
  unfold side in Hs. rewrite Hx in Hs. destruct (trunks d !! id) as [t|]; [|done]. exists t. split; [done|].
  unfold agree in Hs. destruct (auth direction t) as [[[m [u|]] [r|]] [c|]]; try done; [|naive_solver].
  destruct Hs as (_ & h & [= ->] & _). done.
Qed.
Lemma elsewhere_log org d type t ep res now : t_OrganizationID t = org ->
  elsewhere org (log type t ep res now d) = elsewhere org d.
Proof.
  intros Ho. unfold elsewhere, log. simpl. rewrite filter_app.
  rewrite (filter_cons_False _ (new_event _ _ _ _ _)) by (simpl; by intros ?). by rewrite filter_nil, app_nil_r.
Qed.
Lemma elsewhere_put_trunk org t0 t d t' d' : store_wf d -> trunks d !! t_ID t = Some t0 -> t_OrganizationID t0 = org ->
  t_OrganizationID t = org -> put_trunk t d = inl (t', d') -> elsewhere org d' = elsewhere org d.
Proof.
  intros Hd H0 Ho0 Ho (-> & -> & _)%put_trunk_inv. unfold elsewhere. simpl.
  rewrite (filter_insert_own t_OrganizationID org); [done| |done]. congruence.
Qed.
Lemma elsewhere_UpdateTrunk org now id u d t d' : store_wf d -> UpdateTrunk now org id u d = inl (t, d') ->
  elsewhere org d' = elsewhere org d /\ t_OrganizationID t = org /\ t_ID t = id /\ outbox d' = outbox d /\ trunks d' !! id = Some t.
Proof.
  intros Hd. unfold UpdateTrunk. destruct (own_trunk org id d) as [t0|] eqn:E; [|done].
  apply own_trunk_inv in E as [E Ho]. destruct (wf_trunks d Hd id t0 E) as [Hid _]. intros Hp.
  pose proof Hp as (-> & -> & _)%put_trunk_inv. split_and!; try done.
  - eapply elsewhere_put_trunk, Hp; try done. simpl. by rewrite Hid.
  - simpl. by rewrite Hid, lookup_insert_eq.
Qed.
Lemma elsewhere_set_digest direction set org id c h d d' : direction = "outbound" \/ direction = "inbound" ->
  (forall t, t_ID (set t) = t_ID t /\ t_OrganizationID (set t) = t_OrganizationID t) -> store_wf d ->
  set_digest_auth direction set org id c h d = inl (tt, d') -> elsewhere org d' = elsewhere org d /\ outbox d' = outbox d.
Proof.
  intros Hdir Hset Hd. unfold set_digest_auth. destruct (own_trunk org id d) as [t0|] eqn:E; [|by intros [= <-]].
  apply own_trunk_inv in E as [E Ho]. destruct (wf_trunks d Hd id t0 E) as [Hid _]. destruct (Hset t0) as [Hs1 Hs2].
  intros Hp. apply rbind_ok_inv in Hp as ([t d1] & Hp & (-> & _)%put_digest_inv).
  assert (He : elsewhere org d1 = elsewhere org d) by (apply (elsewhere_put_trunk org t0 (set t0) d t d1); congruence).
  apply put_trunk_inv in Hp as (-> & -> & _). split; [|done]. rewrite <- He. unfold elsewhere. simpl.
  rewrite (filter_insert_own dg_OrganizationID org); [done| |done].
  intros x Hx. destruct (wf_digest_owner d id direction x Hd Hdir Hx) as (t & Ht & Hto). congruence.
Qed.
Lemma elsewhere_clear_digest direction set org id d d' : direction = "outbound" \/ direction = "inbound" ->
  (forall t, t_ID (set t) = t_ID t /\ t_OrganizationID (set t) = t_OrganizationID t) -> store_wf d ->
  clear_digest_auth direction set org id d = inl (tt, d') -> elsewhere org d' = elsewhere org d /\ outbox d' = outbox d.
Proof.
  intros Hdir Hset Hd. unfold clear_digest_auth. destruct (own_trunk org id d) as [t0|] eqn:E; [|by intros [= <-]].
  apply own_trunk_inv in E as [E Ho]. destruct (wf_trunks d Hd id t0 E) as [Hid _]. destruct (Hset t0) as [Hs1 Hs2].
  intros Hp. apply rbind_ok_inv in Hp as ([t d1] & Hp & [= <-]).
  assert (He : elsewhere org d1 = elsewhere org d) by (apply (elsewhere_put_trunk org t0 (set t0) d t d1); congruence).
  apply put_trunk_inv in Hp as (-> & -> & _). split; [|done]. rewrite <- He. unfold elsewhere. simpl.
  rewrite (filter_delete_own dg_OrganizationID org); [done|].
  intros x Hx. destruct (wf_digest_owner d id direction x Hd Hdir Hx) as (t & Ht & Hto). congruence.
Qed.
Lemma elsewhere_insert_stored org id direction c d d' t : direction = "outbound" \/ direction = "inbound" ->
  own_trunk org id d = Some t -> insert_stored org id direction c d = inl d' -> elsewhere org d' = elsewhere org d.
Proof.
  intros Hdir Ho. destruct c as [[[[u r] v] h]|]; simpl; [|by intros [= <-]].
  intros Hp. apply rbind_ok_inv in Hp as ([[] x] & Hi & [= <-]). unfold InsertTrunkDigestCredential in Hi.
  rewrite Ho in Hi. destruct (bool_decide _) eqn:En; [done|]. apply bool_decide_eq_false, eq_None_not_Some in En.
  apply put_digest_inv in Hi as [-> _]. unfold elsewhere. simpl.
  by rewrite (filter_insert_own dg_OrganizationID org) by (done || congruence).
Qed.

Lemma elsewhere_create org now id p outbound inbound d t d1 d2 d3 :
  CreateTrunk now id org p d = inl (t, d1) ->
  insert_stored org id "outbound" outbound d1 = inl d2 -> insert_stored org id "inbound" inbound d2 = inl d3 ->
  elsewhere org d3 = elsewhere org d /\ outbox d3 = outbox d /\ t_OrganizationID t = org /\ t_ID t = id
  /\ trunks d !! id = None /\ trunks d3 !! id = Some t.
Proof.
  unfold CreateTrunk. destruct (org_active org d); [|done]. simpl.
  destruct (bool_decide (is_Some (trunks d !! id))) eqn:En; [done|].
  apply bool_decide_eq_false, eq_None_not_Some in En. intros Hp Hd2 Hd3.
  apply put_trunk_inv in Hp as (-> & -> & _). simpl in *. set (t := new_trunk now id org p) in *.
  assert (Hown : forall x, trunks x = <[id := t]> (trunks d) -> own_trunk org id x = Some t).
  { intros x Hx. unfold own_trunk. rewrite Hx, lookup_insert_eq. by rewrite decide_True. }
  pose proof (Hown (set_trunks (<[id := t]> (trunks d)) d) eq_refl) as Ho1.
  destruct (insert_stored_inv _ _ _ _ _ _ t Ho1 Hd2) as (T2 & _ & _ & O2 & _).
  pose proof (Hown _ T2) as Ho2.
  destruct (insert_stored_inv _ _ _ _ _ _ t Ho2 Hd3) as (T3 & _ & _ & O3 & _).
  split_and!; [|by rewrite O3, O2|done|done|done|rewrite T3, T2; apply lookup_insert_eq].
  rewrite (elsewhere_insert_stored org id "inbound" inbound d2 d3 t) by auto.
  rewrite (elsewhere_insert_stored org id "outbound" outbound (set_trunks (<[id := t]> (trunks d)) d) d2 t) by auto.
  unfold elsewhere. simpl. rewrite (filter_insert_own t_OrganizationID org); [done| |done]. congruence.
Qed.
Lemma elsewhere_put_endpoint org e d e' d' : e_OrganizationID e = org ->
  (forall x, endpoints d !! e_ID e = Some x -> e_OrganizationID x = org) ->
  put_trunk_endpoint has_space e d = inl (e', d') ->
  elsewhere org d' = elsewhere org d /\ outbox d' = outbox d /\ e' = e /\ endpoints d' !! e_ID e = Some e.
Proof.
  intros Ho Hx (-> & -> & _)%put_trunk_endpoint_inv. split_and!; [|done|done|simpl; apply lookup_insert_eq].
  unfold elsewhere. simpl. by rewrite (filter_insert_own e_OrganizationID org).
Qed.

(** What the outbox says of a change: the event carries the row that was stored. *)
Definition announces_trunk (type : string) (org id : UUID) (d d' : DB) : Prop :=
  exists t now, outbox d' = outbox d ++ [new_event type t None (RTrunk (response t)) now]
    /\ t_OrganizationID t = org /\ t_ID t = id /\ trunks d' !! id = Some t.
Definition announces_endpoint (type : string) (org trunk id : UUID) (e : TrunkEndpoint) (d d' : DB) : Prop :=
  exists t now, outbox d' = outbox d ++ [new_event type t (Some id) (REndpoint e) now]
    /\ own_trunk org trunk d' = Some t /\ t_ID t = trunk /\ e_ID e = id /\ e_TrunkID e = trunk /\ e_OrganizationID e = org.
Definition announced (d : DB) (o : op) (d' : DB) : Prop :=
  match o with
  | OpCreate org _ => exists id, trunks d !! id = None /\ announces_trunk EventTrunkCreated org id d d'
  | OpUpdate org id _ => announces_trunk EventTrunkUpdated org id d d'
  | OpDelete org id => announces_trunk EventTrunkDisabled org id d d'
      /\ (forall t, trunks d' !! id = Some t -> t_Status t = "disabled"%string)
  | OpCreateEndpoint org trunk _ => exists id e, endpoints d !! id = None /\ endpoints d' !! id = Some e
      /\ announces_endpoint EventTrunkEndpointCreated org trunk id e d d'
  | OpUpdateEndpoint org trunk id _ => exists e, endpoints d' !! id = Some e
      /\ announces_endpoint EventTrunkEndpointUpdated org trunk id e d d'
  | OpDeleteEndpoint org trunk id => exists e, endpoints d !! id = Some e /\ endpoints d' !! id = None
      /\ announces_endpoint EventTrunkEndpointDeleted org trunk id e d d'
  | _ => outbox d' = outbox d
  end.
Lemma own_trunk_wf_id d org id t : store_wf d -> own_trunk org id d = Some t -> t_ID t = id /\ t_OrganizationID t = org.
Proof. intros Hd [E Ho]%own_trunk_inv. split; [|done]. by apply (wf_trunks d Hd). Qed.

Lemma create_facts d org r id now t d1 d2 d3 p outbound inbound now' :
  CreateTrunk now id org p d = inl (t, d1) ->
  insert_stored org id "outbound" outbound d1 = inl d2 -> insert_stored org id "inbound" inbound d2 = inl d3 ->
  elsewhere org (log_trunk EventTrunkCreated t now' d3) = elsewhere org d
  /\ announced d (OpCreate org r) (log_trunk EventTrunkCreated t now' d3).
Proof.
  intros Hc H2 H3. destruct (elsewhere_create _ _ _ _ _ _ _ _ _ _ _ Hc H2 H3) as (He & Hout & Ho & Hid & Hnew & Hin).
  split; [by unfold log_trunk; rewrite elsewhere_log|]. exists id. split; [done|]. exists t, now'.
  split_and!; [by simpl; rewrite Hout|done..].
Qed.
Lemma update_facts d org id now u t d1 now' type : store_wf d -> UpdateTrunk now org id u d = inl (t, d1) ->
  elsewhere org (log_trunk type t now' d1) = elsewhere org d /\ announces_trunk type org id d (log_trunk type t now' d1).
Proof.
  intros Hd Hu. destruct (elsewhere_UpdateTrunk _ _ _ _ _ _ _ Hd Hu) as (He & Ho & Hid & Hout & Hin).
  split; [by unfold log_trunk; rewrite elsewhere_log|]. exists t, now'. split_and!; [by simpl; rewrite Hout|done..].
Qed.
Lemma disable_facts d org id now t d1 now' : store_wf d -> DisableTrunk now org id d = inl (t, d1) ->
  elsewhere org (log_trunk EventTrunkDisabled t now' d1) = elsewhere org d
  /\ announced d (OpDelete org id) (log_trunk EventTrunkDisabled t now' d1).
Proof.
  intros Hd Hu. unfold DisableTrunk in Hu. destruct (own_trunk org id d) as [t0|] eqn:E; [|done].
  destruct (bool_decide _); [|done].
  assert (Hst : t_Status t = "disabled"%string) by (by apply put_trunk_inv in Hu as (-> & _)).
  assert (Hx : UpdateTrunk now org id (set_status "disabled") d = inl (t, d1)) by (unfold UpdateTrunk; by rewrite E).
  destruct (update_facts d org id now _ t d1 now' EventTrunkDisabled Hd Hx) as (He & Ha). split; [done|]. split; [done|].
  destruct (elsewhere_UpdateTrunk _ _ _ _ _ _ _ Hd Hx) as (_ & _ & _ & _ & Hin). simpl. rewrite Hin. by intros ? [= <-].
Qed.
Lemma put_endpoint_facts d e e' d1 org trunk type t now' : store_wf d ->
  (forall x, endpoints d !! e_ID e = Some x -> e_OrganizationID x = org) ->
  e_OrganizationID e = org -> e_TrunkID e = trunk -> put_trunk_endpoint has_space e d = inl (e', d1) ->
  own_trunk org trunk d1 = Some t ->
  elsewhere org (log_endpoint type t e' now' d1) = elsewhere org d
  /\ endpoints (log_endpoint type t e' now' d1) !! e_ID e = Some e' /\ e' = e
  /\ announces_endpoint type org trunk (e_ID e) e' d (log_endpoint type t e' now' d1).
Proof.
  intros Hd Hx Ho Htr Hp Ht. destruct (elsewhere_put_endpoint org e d e' d1 Ho Hx Hp) as (He & Hout & -> & Hin).
  assert (Hto : t_ID t = trunk /\ t_OrganizationID t = org).
  { apply own_trunk_wf_id with (d := d); [done|]. apply put_trunk_endpoint_inv in Hp as (_ & -> & _). exact Ht. }
  destruct Hto as [Hid Hto]. split_and!; [by unfold log_endpoint; rewrite elsewhere_log|done|done|].
  exists t, now'. split_and!; [by simpl; rewrite Hout|done..].
Qed.
Lemma update_endpoint_facts d org trunk id now u t e d1 now' type : store_wf d ->
  UpdateTrunkEndpoint has_space now org trunk id u d = inl (e, d1) -> own_trunk org trunk d1 = Some t ->
  elsewhere org (log_endpoint type t e now' d1) = elsewhere org d
  /\ endpoints (log_endpoint type t e now' d1) !! id = Some e
  /\ announces_endpoint type org trunk id e d (log_endpoint type t e now' d1).
Proof.
  intros Hd Hu Ht. unfold UpdateTrunkEndpoint in Hu. destruct (own_endpoint org trunk id d) as [e0|] eqn:E; [|done].
  apply own_endpoint_inv in E as (E & Htr & Ho & _). destruct (wf_endpoints d Hd id e0 E) as (Hid & _).
  assert (Heq : e_ID (update_endpoint_row now u e0) = id) by done.
  destruct (put_endpoint_facts d (update_endpoint_row now u e0) e d1 org trunk type t now' Hd) as (? & Hin & _ & ?);
    rewrite ?Heq in *; try done; congruence.
Qed.
Lemma delete_endpoint_facts d org trunk id t e d1 now' : store_wf d ->
  DeleteTrunkEndpoint org trunk id d = inl (e, d1) -> own_trunk org trunk d1 = Some t ->
  elsewhere org (log_endpoint EventTrunkEndpointDeleted t e now' d1) = elsewhere org d
  /\ announced d (OpDeleteEndpoint org trunk id) (log_endpoint EventTrunkEndpointDeleted t e now' d1).
Proof.
  intros Hd Hu Ht. unfold DeleteTrunkEndpoint in Hu. destruct (own_endpoint org trunk id d) as [e0|] eqn:E; [|done].
  injection Hu as <- <-. apply own_endpoint_inv in E as (E & Htr & Ho & _). destruct (wf_endpoints d Hd id e0 E) as (Hid & _).
  destruct (own_trunk_wf_id d org trunk t Hd Ht) as [Hti Hto].
  split.
  - unfold log_endpoint. rewrite elsewhere_log by done. unfold elsewhere. simpl.
    rewrite (filter_delete_own e_OrganizationID org); [done|]. congruence.
  - exists e0. split_and!; [done|simpl; apply lookup_delete_eq|]. exists t, now'. simpl. by rewrite Hid.
Qed.
Lemma elsewhere_source org id now source cidr d row d1 : CreateTrunkSourceIP now source org id cidr d = inl (row, d1) ->
  elsewhere org d1 = elsewhere org d /\ outbox d1 = outbox d.
Proof.
  unfold CreateTrunkSourceIP. destruct (own_trunk org id d); [|done]. destruct (bool_decide _) eqn:En; [done|].
  apply bool_decide_eq_false, eq_None_not_Some in En. destruct (cidr_taken _ _ _); [done|]. intros [= <- <-].
  split; [|done]. unfold elsewhere. simpl. by rewrite (filter_insert_own si_OrganizationID org) by (done || congruence).
Qed.
Lemma elsewhere_delete_source org id source d d1 : DeleteTrunkSourceIP org id source d = inl (tt, d1) ->
  elsewhere org d1 = elsewhere org d /\ outbox d1 = outbox d.
Proof.
  unfold DeleteTrunkSourceIP. destruct (source_ips d !! source) as [x|] eqn:E; [|by intros [= <-]].
  destruct (_ && _) eqn:Ex; [|by intros [= <-]]. rewrite andb_true_iff, !bool_decide_eq_true in Ex. intros [= <-].
  split; [|done]. unfold elsewhere. simpl. rewrite (filter_delete_own si_OrganizationID org); [done|]. naive_solver.
Qed.

Lemma transition_facts d o d' : store_wf d -> transition d o d' ->
  elsewhere (op_org o) d' = elsewhere (op_org o) d /\ announced d o d'.
Proof.
  intros Hd [org r r' id outbound inbound now t d1 d2 d3 now' _ _ _ _ _ Hc H2 H3
    |org id u u' now t d1 now' _ Hu|org id now t d1 now' Hu
    |org id r u m c h now d1 _ _ Hx|org id r u m c h now d1 _ _ Hx|org id o' now d1 Ho _ Hx|org id o' now d1 Ho _ Hx
    |org id v c so now row d1 _ Hx|org id so d1 _ Hx
    |org tr r r' id now t e d1 now' _ He Ht|org tr id u u' now t e d1 now' _ He Ht|org tr id t e d1 now' He Ht]; simpl op_org.
  - by eapply create_facts.
  - by eapply update_facts.
  - by eapply disable_facts.
  - apply (elsewhere_set_digest "outbound") in Hx; auto.
  - apply (elsewhere_set_digest "inbound") in Hx; auto.
  - apply (elsewhere_clear_digest "outbound") in Hx; auto. by destruct Ho as [-> | [r ->]].
  - apply (elsewhere_clear_digest "inbound") in Hx; auto. by destruct Ho as [-> | [r ->]].
  - by apply elsewhere_source in Hx.
  - by apply elsewhere_delete_source in Hx.
  - unfold CreateTrunkEndpoint in He. destruct (own_trunk org tr d); [|done].
    destruct (bool_decide _) eqn:En; [done|]. apply bool_decide_eq_false, eq_None_not_Some in En.
    destruct (put_endpoint_facts d (new_endpoint now id org tr r') e d1 org tr EventTrunkEndpointCreated t now' Hd)
      as (? & Hin & _ & ?); try done; [simpl; congruence|]. split; [done|]. exists id, e. done.
  - destruct (update_endpoint_facts d org tr id now u' t e d1 now' EventTrunkEndpointUpdated Hd He Ht) as (? & ? & ?).
    split; [done|]. by exists e.
  - by apply delete_endpoint_facts.
Qed.

(** A request reads and writes the rows and events of its own organization
    only: the trunks, digest rows, source addresses, endpoints and events of every
    other organization are the same after it, whatever fails. *)
Theorem trunk_requests_stay_in_tenant s o w : store_wf (w_db w) ->
  elsewhere (op_org o) (w_db (snd (run_op s o w))) = elsewhere (op_org o) (w_db w).
Proof. intros Hw. destruct (moves s o w) as [-> |H]; [done|]. by apply transition_facts. Qed.

(** A change of a trunk or an endpoint and its domain event commit together:
    after a request, whatever failed, either the store is as before, or the change
    was made and the outbox ends with exactly one new event, which carries the row
    as it is stored (or was deleted); changes of credentials and of source
    addresses write no event. *)
Theorem trunk_changes_are_announced s o w : store_wf (w_db w) ->
  w_db (snd (run_op s o w)) = w_db w \/ announced (w_db w) o (w_db (snd (run_op s o w))).
Proof. intros Hw. destruct (moves s o w) as [-> |H]; [by left|]. right. by apply transition_facts. Qed.
End Outcomes.

(** ** An example

    Organization 1 creates a trunk with credentials in both directions and gives it
    an endpoint. *)
#[export] Instance toy_trunks : TrunkLib := {|
  has_space s := ContainsAny s [" "%char; ascii_of_N 9; CR; LF];
  is_IP _ := false;
  ParsePrefix s := Some s;
  md5_hex s := "d41d8cd98f00b204e9800998ecf8427e";
  random_nonce _ := repeat "n"%char 12 |}.
#[export] Instance toy_trunk_laws : TrunkLibLaws toy_trunks.
Proof. split; [intros s; split|intros n]; vm_compute; reflexivity. Qed.
#[export] Existing Instance toy_aead.
#[export] Existing Instance decimal_uuid.
Definition toy_service : Service := {| s_db := true; s_cipher := true |}.
Definition empty_store : DB := {|
  organizations := {[1 := true]}; trunks := ∅; digests := ∅; source_ips := ∅; endpoints := ∅; outbox := [] |}.
Definition toy_world : World := {| w_db := empty_store; w_now := 100 * Second; w_next := 10; w_faults := [] |}.
Definition toy_credential : DigestCredential := {| dc_Username := "alice "; dc_Realm := "sip.example"; dc_Secret := "s3cret" |}.
Definition toy_create : CreateRequest := {|
  c_Name := " carrier "; c_Direction := None; c_Status := None; c_OutboundCredential := Some toy_credential;
  c_InboundEnabled := Some true; c_InboundAuthMethod := Some "digest"%string; c_InboundCredential := Some toy_credential;
  c_MaxCPS := None; c_MaxConcurrentCalls := None; c_Codecs := None; c_SupportsVideo := None; c_SupportsFax := None |}.
Definition toy_endpoint : EndpointCreateRequest := {|
  ec_Host := "Sip.Example."; ec_Port := None; ec_Transport := Some "UDP"%string; ec_Direction := None; ec_Priority := None;
  ec_Weight := None; ec_Enabled := None |}.
Definition toy_op : op := OpCreate 1 toy_create.
Definition toy_world1 : World := snd (run_op toy_service toy_op toy_world).
Definition toy_op2 : op := OpCreateEndpoint 1 10 toy_endpoint.
Definition toy_world2 : World := snd (run_op toy_service toy_op2 toy_world1).

Lemma store_wf_empty : store_wf empty_store.
Proof. split; try done; intros id x H; by rewrite lookup_empty in H. Qed.
Lemma toy_world1_wf : store_wf (w_db toy_world1).
Proof. apply (wf_step 3 toy_world); [by eapply (step_request 3 toy_world _ toy_service toy_op)|exact store_wf_empty]. Qed.
Lemma toy_world2_wf : store_wf (w_db toy_world2).
Proof. apply (wf_step 3 toy_world1); [by eapply (step_request 3 toy_world1 _ toy_service toy_op2)|exact toy_world1_wf]. Qed.

Lemma trunk_store_stays_consistent_witness : side (w_db toy_world1) 10 "inbound"
  /\ exists h, digests (w_db toy_world1) !! (10, "inbound"%string) = Some {|
       dg_OrganizationID := 1; dg_Username := "alice"; dg_Realm := "sip.example"; dg_HA1 := h |}.
Proof.
  split; [|eexists; vm_compute; reflexivity].
  refine (wf_inbound _ (trunk_store_stays_consistent 3 toy_world toy_world1 _ store_wf_empty) 10).
  apply rtc_once. by eapply (step_request 3 toy_world _ toy_service toy_op).
Defined.
Lemma trunk_requests_stay_in_tenant_witness :
  elsewhere 2 (w_db (snd (run_op toy_service (OpDelete 2 10) toy_world1))) = elsewhere 2 (w_db toy_world1)
  /\ length (map_to_list (elsewhere 2 (w_db toy_world1)).1.1.1.1) = 1%nat.
Proof. split; [exact (trunk_requests_stay_in_tenant toy_service (OpDelete 2 10) toy_world1 toy_world1_wf)|vm_compute; reflexivity]. Defined.
Lemma trunk_changes_are_announced_witness :
  (w_db toy_world2 = w_db toy_world1 \/ announced (w_db toy_world1) toy_op2 (w_db toy_world2))
  /\ length (outbox (w_db toy_world2)) = 2%nat.
Proof. split; [exact (trunk_changes_are_announced toy_service toy_op2 toy_world1 toy_world1_wf)|vm_compute; reflexivity]. Defined.
End TrunkOutcomes.
