(* ===== verification/TrunkProbes.v ===== *)
(** * What a health check concludes

    The request the prober writes and the answer it reads, what a pass of the job
    records, and what the recorded health means. *)

From stdpp Require Import sorting.
From S2P Require Import Prelude Encryption Routing Trunks TrunkService TrunkHealth TrunkSafety TrunkInvariant TrunkOutcomes.
Local Open Scope Z_scope.

Module TrunkProbes.
Import Trunks Encryption TrunkService TrunkHealth TrunkSafety TrunkInvariant TrunkOutcomes.

Section Probes.
Context {T : TrunkLib} {TL : TrunkLibLaws T} {A : AEAD} {HA : AEADLaws A} {U : UuidLib}.

(** ** The meaning of the health columns *)
Definition coherent (threshold : Z) (h : Health) : Prop :=
  (h_Status h = "unhealthy"%string <-> threshold <= h_Failures h)
  /\ (is_Some (h_CooldownUntil h) <-> h_Status h = "unhealthy"%string).
Definition all_coherent (threshold : Z) (d : DB) : Prop :=
  forall id e, endpoints d !! id = Some e -> coherent threshold (health_of e).

Lemma coherent_unchecked threshold : 1 <= threshold -> coherent threshold unchecked.
Proof. intros H. split; simpl; split; intros H'; (done || lia || by destruct H'). Qed.

(** A request sets the health of a row to unchecked, or takes it from the row before. *)
Definition health_kept (d d' : DB) : Prop := forall i e', endpoints d' !! i = Some e' ->
  health_of e' = unchecked \/ exists j e, endpoints d !! j = Some e /\ health_of e' = health_of e.
Lemma health_kept_same d d' : endpoints d' = endpoints d -> health_kept d d'.
Proof. intros He i e. rewrite He. eauto. Qed.
Lemma health_kept_put d e e' d' : put_trunk_endpoint has_space e d = inl (e', d') ->
  (health_of e = unchecked \/ exists j x, endpoints d !! j = Some x /\ health_of e = health_of x) -> health_kept d d'.
Proof.
  intros (-> & -> & _)%put_trunk_endpoint_inv Hh i x. simpl. intros [[<- <-]|[_ Hx]]%lookup_insert_Some; eauto.
Qed.
Lemma set_digest_endpoints direction set org id c h d d' :
  set_digest_auth direction set org id c h d = inl (tt, d') -> endpoints d' = endpoints d.
Proof.
  unfold set_digest_auth. destruct (own_trunk org id d); [|by intros [= <-]].
  by intros ([t' d1] & (-> & -> & _)%put_trunk_inv & (-> & _)%put_digest_inv)%rbind_ok_inv.
Qed.
Lemma clear_digest_endpoints direction set org id d d' :
  clear_digest_auth direction set org id d = inl (tt, d') -> endpoints d' = endpoints d.
Proof.
  unfold clear_digest_auth. destruct (own_trunk org id d); [|by intros [= <-]].
  by intros ([t' d1] & (-> & -> & _)%put_trunk_inv & [= <-])%rbind_ok_inv.
Qed.
Lemma insert_stored_endpoints org id direction c d d' :
  insert_stored org id direction c d = inl d' -> endpoints d' = endpoints d.
Proof.
  destruct c as [[[[u r] v] h]|]; simpl; [|by intros [= <-]].
  intros ([[] x] & Hi & [= <-])%rbind_ok_inv. unfold InsertTrunkDigestCredential in Hi.
  destruct (own_trunk _ _ _); [|by injection Hi as <-]. destruct (bool_decide _); [done|].
  by apply put_digest_inv in Hi as [-> _].
Qed.
Lemma transition_health d o d' : transition d o d' -> health_kept d d'.
Proof.
  intros [org r r' id outbound inbound now t d1 d2 d3 now' _ _ _ _ _ Hc H2 H3
    |org id u u' now t d1 now' _ Hu|org id now t d1 now' Hu
    |org id r u m c h now d1 _ _ Hx|org id r u m c h now d1 _ _ Hx|org id o' now d1 Ho _ Hx|org id o' now d1 Ho _ Hx
    |org id v c so now row d1 _ Hx|org id so d1 _ Hx
    |org tr r r' id now t e d1 now' _ He Ht|org tr id u u' now t e d1 now' _ He Ht|org tr id t e d1 now' He Ht].
  - apply health_kept_same. simpl. rewrite (insert_stored_endpoints _ _ _ _ _ _ H3), (insert_stored_endpoints _ _ _ _ _ _ H2).
    unfold CreateTrunk in Hc. destruct (org_active org d); [|done]. simpl in Hc. destruct (bool_decide _); [done|].
    by apply put_trunk_inv in Hc as (_ & -> & _).
  - apply health_kept_same. unfold UpdateTrunk in Hu. destruct (own_trunk org id d); [|done].
    by apply put_trunk_inv in Hu as (_ & -> & _).
  - apply health_kept_same. unfold DisableTrunk in Hu. destruct (own_trunk org id d); [|done].
    destruct (bool_decide _); [|done]. by apply put_trunk_inv in Hu as (_ & -> & _).
  - by apply health_kept_same, (set_digest_endpoints _ _ _ _ _ _ _ _ Hx).
  - by apply health_kept_same, (set_digest_endpoints _ _ _ _ _ _ _ _ Hx).
  - by apply health_kept_same, (clear_digest_endpoints _ _ _ _ _ _ Hx).
  - by apply health_kept_same, (clear_digest_endpoints _ _ _ _ _ _ Hx).
  - apply health_kept_same. unfold CreateTrunkSourceIP in Hx. destruct (own_trunk org id d); [|done].
    destruct (bool_decide _); [done|]. destruct (cidr_taken _ _ _); [done|]. by injection Hx as <- <-.
  - apply health_kept_same. unfold DeleteTrunkSourceIP in Hx. destruct (source_ips d !! so); [|by injection Hx as <-].
    destruct (_ && _); by injection Hx as <-.
  - unfold CreateTrunkEndpoint in He. destruct (own_trunk org tr d); [|done]. destruct (bool_decide _); [done|].
    eapply (health_kept_put d _ e d1); [exact He|by left].
  - unfold UpdateTrunkEndpoint in He. destruct (own_endpoint org tr id d) as [e0|] eqn:E; [|done].
    apply own_endpoint_inv in E as (E & _). eapply (health_kept_put d _ e d1); [exact He|].
    unfold update_endpoint_row. destruct (retargets u'); [by left|right]. by exists id, e0.
  - unfold DeleteTrunkEndpoint in He. destruct (own_endpoint org tr id d); [|done]. injection He as <- <-.
    intros i x. simpl. intros [_ Hx]%lookup_delete_Some. eauto.
Qed.

Lemma coherent_update_health threshold now id f d e d' : all_coherent threshold d ->
  (forall e, coherent threshold (health_of e) -> coherent threshold (f e)) ->
  update_health has_space now id f d = inl (e, d') -> all_coherent threshold d'.
Proof.
  intros Hd Hf. unfold update_health. destruct (endpoints d !! id) as [e0|] eqn:E; [|done].
  intros (-> & -> & _)%put_trunk_endpoint_inv i x. simpl. intros [[<- <-]|[_ Hx]]%lookup_insert_Some; [|by eapply Hd].
  specialize (Hf e0 (Hd _ _ E)). destruct (f e0). exact Hf.
Qed.
Lemma coherent_healthy threshold checked_at code latency : 1 <= threshold ->
  coherent threshold {| h_Status := "healthy"; h_Failures := 0; h_CheckedAt := checked_at; h_ResponseCode := code;
    h_LatencyMs := latency; h_Error := None; h_CooldownUntil := None |}.
Proof. intros H. split; simpl; split; intros H'; (done || lia || by destruct H'). Qed.
Lemma coherent_exec {V} threshold (f : Z -> DB -> result (V * DB)) w : all_coherent threshold (w_db w) ->
  (forall now a d', f now (w_db w) = inl (a, d') -> all_coherent threshold d') ->
  all_coherent threshold (w_db (snd (exec f w))).
Proof.
  intros Hw Hf. destruct (effect_exec (w_db w) (all_coherent threshold) (fun _ _ => True) f) with (w := w) as [[-> |H] _]; eauto.
Qed.
Lemma coherent_step threshold w w' : 1 <= threshold -> step threshold w w' ->
  all_coherent threshold (w_db w) -> all_coherent threshold (w_db w').
Proof.
  intros Ht [s o ->|c b n ->|id c code l -> |id c l m k ->|H1 H2 H3 H4] Hw.
  - destruct (moves s o w) as [-> |H]; [done|]. intros i e He.
    destruct (transition_health _ _ _ H i e He) as [-> |(j & e0 & Hj & ->)]; [by apply coherent_unchecked|by eapply Hw].
  - apply coherent_exec; [done|]. intros now es d' [= _ <-] i e. simpl. rewrite lookup_fmap.
    intros (e0 & He & ->)%fmap_Some. specialize (Hw i e0 He). by destruct (bool_decide _).
  - apply coherent_exec; [done|]. intros now [] d' ([e x] & Hm & [= <-])%rbind_ok_inv.
    eapply (coherent_update_health threshold); [exact Hw| |exact Hm]. intros ? _. by apply coherent_healthy.
  - apply coherent_exec; [done|]. intros now [] d' ([e x] & Hm & [= <-])%rbind_ok_inv.
    eapply (coherent_update_health threshold); [exact Hw| |exact Hm]. intros e0 [He Hk]. simpl in *.
    unfold coherent. simpl. destruct (threshold <=? e_ConsecutiveFailures e0 + 1) eqn:El.
    + apply Z.leb_le in El. split; [done|]. split; [done|by eexists].
    + apply Z.leb_gt in El. rewrite He. split; [lia|]. split; [by intros [? ?]|lia].
  - intros i e. rewrite H4. apply Hw.
Qed.


(** ** A pass of the job *)
Definition unique_targets (d : DB) : Prop := forall i j a b,
  endpoints d !! i = Some a -> endpoints d !! j = Some b -> target a = target b -> i = j.

Lemma latency_range started finished : finished - started < 2 ^ 31 * Millisecond ->
  0 <= latency_ms started finished <= max_int32.
Proof.
  intros H. unfold latency_ms, int32, wrap_signed, go_div, max_int32, Millisecond in *.
  assert (Z.max (Z.quot (finished - started) 1000000) 0 < 2 ^ 31).
  { destruct (Z.le_gt_cases 0 (finished - started)) as [Hp|Hn].
    - rewrite Z.quot_div_nonneg by lia. apply Z.max_lub_lt; [|lia]. apply Z.div_lt_upper_bound; lia.
    - apply Z.max_lub_lt; [|lia]. pose proof (Z.quot_opp_l (finished - started) 1000000 ltac:(lia)).
      rewrite Z.quot_div_nonneg in H0 by lia. pose proof (Z.div_pos (- (finished - started)) 1000000). lia. }
  change (2 ^ (32 - 1)) with (2 ^ 31). change (2 ^ 32) with (2 ^ 31 * 2). rewrite Z.mod_small by lia. lia.
Qed.
Lemma target_free d e : unique_targets d -> (forall id x, endpoints d !! id = Some x -> e_ID x = id) ->
  (exists x, endpoints d !! e_ID e = Some x /\ target x = target e) -> target_taken d e = false.
Proof.
  intros Hu Hk (x & Hx & Ht). unfold target_taken. apply not_true_is_false. rewrite existsb_exists.
  intros ([i y] & Hin & Hy). apply list_elem_of_In, elem_of_map_to_list in Hin. simpl in Hy.
  rewrite andb_true_iff, negb_true_iff, bool_decide_eq_false, bool_decide_eq_true in Hy. destruct Hy as [Hn Hty].
  apply Hn. eapply Hu; [done|done|congruence].
Qed.
Lemma health_row_ok e h now : endpoint_row_ok has_space e = true -> one_of (h_Status h) ["unknown"; "healthy"; "unhealthy"] = true ->
  0 <= h_Failures h <= max_int32 -> opt_in 100 699 (h_ResponseCode h) = true -> opt_in 0 max_int32 (h_LatencyMs h) = true ->
  endpoint_row_ok has_space (with_health now h e) = true.
Proof.
  unfold endpoint_row_ok. rewrite !andb_true_iff. intros Hok H1 H2 H3 H4. simpl. rewrite !Z.leb_le in *. tauto.
Qed.
Section Pass.
Context (error_text : error -> string) (Probe : TrunkEndpoint -> M World Z) (c : HealthCheckConfig).

(** A prober that answers a SIP status within the range of the latency column, and
    during whose probes nothing else happens. *)
Record orderly : Prop := {
  probe_db e w : w_db (snd (Probe e w)) = w_db w;
  probe_faults e w : w_faults (snd (Probe e w)) = w_faults w;
  probe_code e w code : fst (Probe e w) = inl code -> 100 <= code <= 699;
  probe_time e w : w_now (snd (Probe e w)) - w_now w < 2 ^ 31 * Millisecond;
}.
Definition outcome (r : result Z) (e : TrunkEndpoint) (finished latency : Z) : Health :=
  match r with
  | inl code => {| h_Status := "healthy"; h_Failures := 0; h_CheckedAt := Some finished; h_ResponseCode := Some code;
                   h_LatencyMs := Some latency; h_Error := None; h_CooldownUntil := None |}
  | inr err =>
      let failures := e_ConsecutiveFailures e + 1 in
      let over := FailureThreshold c <=? failures in
      {| h_Status := if over then "unhealthy" else e_HealthStatus e; h_Failures := failures;
         h_CheckedAt := Some finished; h_ResponseCode := None; h_LatencyMs := Some latency;
         h_Error := Some (truncate_message (error_text err));
         h_CooldownUntil := if over then Some (finished + Cooldown c) else None |}
  end.
(** [e'] is the row [e] with the outcome of a probe of [e]. *)
Definition recorded (e e' : TrunkEndpoint) : Prop := exists w finished latency,
  e' = with_health finished (outcome (fst (Probe e w)) e finished latency) e.
Lemma outcome_row_ok r e now finished latency : endpoint_row_ok has_space e = true -> 0 <= latency <= max_int32 ->
  e_ConsecutiveFailures e < max_int32 -> (forall code, r = inl code -> 100 <= code <= 699) ->
  endpoint_row_ok has_space (with_health now (outcome r e finished latency) e) = true.
Proof.
  intros Hok Hl Hf Hc. apply health_row_ok; [done|..].
  - unfold endpoint_row_ok in Hok. rewrite !andb_true_iff in Hok. destruct r; [done|]. simpl.
    destruct (FailureThreshold c <=? e_ConsecutiveFailures e + 1); [reflexivity|tauto].
  - unfold endpoint_row_ok in Hok. rewrite !andb_true_iff, !Z.leb_le in Hok. unfold max_int32 in *. destruct r; simpl; lia.
  - destruct r as [code|]; [|done]. simpl. specialize (Hc code eq_refl). apply andb_true_iff. rewrite !Z.leb_le. lia.
  - destruct r; simpl; apply andb_true_iff; rewrite !Z.leb_le; lia.
Qed.

Lemma trunk_ext_calm {V} (op : World -> result V * World) w : w_faults w = [] -> ext op w = op w.
Proof. intros H. unfold ext. simpl. by rewrite H. Qed.
Lemma check_one_calm e w : orderly -> w_faults w = [] -> unique_targets (w_db w) -> store_wf (w_db w) ->
  endpoints (w_db w) !! e_ID e = Some e -> e_ConsecutiveFailures e < max_int32 ->
  exists w' e', check_one error_text Probe c e w = (inl tt, w') /\ w_faults w' = [] /\ recorded e e'
    /\ endpoint_row_ok has_space e' = true
    /\ w_db w' = set_endpoints (<[e_ID e := e']> (endpoints (w_db w))) (w_db w).
Proof.
  intros Ho Hw Hu Hwf He Hf. pose proof (probe_db Ho e w) as Hdb. pose proof (probe_faults Ho e w) as Hft.
  pose proof (probe_code Ho e w) as Hcode. pose proof (latency_range _ _ (probe_time Ho e w)) as Hlat.
  unfold check_one, bind, gets, attempt. simpl. destruct (Probe e w) as [r w1] eqn:Ep. simpl in *.
  set (latency := latency_ms (w_now w) (w_now w1)) in *. set (now := w_now w1) in *.
  set (e' := with_health now (outcome r e now latency) e).
  assert (Hput : put_trunk_endpoint has_space e' (w_db w1) = inl (e', set_endpoints (<[e_ID e := e']> (endpoints (w_db w1))) (w_db w1))).
  { unfold put_trunk_endpoint. destruct (wf_endpoints _ Hwf _ _ He) as (_ & Hok & _).
    unfold e'. rewrite (outcome_row_ok r e now now latency Hok Hlat Hf Hcode). simpl. rewrite target_free; [done|by rewrite Hdb| |].
    - intros i x. rewrite Hdb. intros Hx. by apply (wf_endpoints _ Hwf).
    - exists e. by rewrite Hdb. }
  assert (Hup : forall f, f e = outcome r e now latency -> update_health has_space now (e_ID e) f (w_db w1)
    = inl (e', set_endpoints (<[e_ID e := e']> (endpoints (w_db w1))) (w_db w1))).
  { intros f Hfe. unfold update_health. rewrite Hdb at 1. by rewrite He, Hfe. }
  exists (with_db (set_endpoints (<[e_ID e := e']> (endpoints (w_db w1))) (w_db w1)) w1), e'.
  split_and!; [|by simpl; rewrite Hft| |by apply outcome_row_ok; try done; apply (wf_endpoints _ Hwf _ _ He)|by rewrite Hdb].
  - destruct r as [code|err]; unfold wrap, MarkHealthy, MarkProbeFailed, exec; rewrite trunk_ext_calm by (by rewrite Hft);
      unfold MarkTrunkEndpointHealthy, MarkTrunkEndpointProbeFailed; fold now; by rewrite Hup.
  - exists w, now, latency. by rewrite Ep.
Qed.

(** The state a pass keeps between two endpoints. *)
Record pass_ok (w : World) : Prop := {
  pass_calm : w_faults w = []; pass_unique : unique_targets (w_db w); pass_wf : store_wf (w_db w) }.
Lemma recorded_same e e' : recorded e e' -> e_ID e' = e_ID e /\ target e' = target e.
Proof. by intros (w & f & l & ->). Qed.
Lemma pass_ok_one w w' e e' : pass_ok w -> endpoints (w_db w) !! e_ID e = Some e -> recorded e e' ->
  endpoint_row_ok has_space e' = true -> w_faults w' = [] ->
  w_db w' = set_endpoints (<[e_ID e := e']> (endpoints (w_db w))) (w_db w) -> pass_ok w'.
Proof.
  intros [Hc Hu Hwf] He Hr Hok Hf Hd. destruct (recorded_same _ _ Hr) as [Hid Htg]. split; [done| |].
  - rewrite Hd. intros i j a b Ha Hb Hab. simpl in Ha, Hb.
    assert (Hold : forall k x, <[e_ID e := e']> (endpoints (w_db w)) !! k = Some x ->
      exists y, endpoints (w_db w) !! k = Some y /\ target y = target x).
    { intros k x [[<- <-]|[_ Hx]]%lookup_insert_Some; [exists e; by rewrite Htg|by exists x]. }
    destruct (Hold i a Ha) as (a' & Ha' & Hta), (Hold j b Hb) as (b' & Hb' & Htb).
    eapply Hu; [done|done|congruence].
  - rewrite Hd. apply wf_endpoints_put; [done|]. intros i x [[<- <-]|[_ Hx]]%lookup_insert_Some; [|by apply Hwf].
    destruct (wf_endpoints _ Hwf _ _ He) as (_ & _ & Hh & Ho). destruct Hr as (v & f & l & ->). done.
Qed.
Lemma check_all_calm es : orderly -> forall w, pass_ok w -> NoDup (e_ID <$> es) ->
  (forall e, e ∈ es -> endpoints (w_db w) !! e_ID e = Some e /\ e_ConsecutiveFailures e < max_int32) ->
  exists w', check_all error_text Probe c es w = (inl tt, w')
    /\ (forall id, id ∉ (e_ID <$> es) -> endpoints (w_db w') !! id = endpoints (w_db w) !! id)
    /\ (forall e, e ∈ es -> exists e', endpoints (w_db w') !! e_ID e = Some e' /\ recorded e e').
Proof.
  intros Ho. induction es as [|e es IH]; intros w Hw Hnd Hes.
  { exists w. split_and!; try done. intros e He. by apply not_elem_of_nil in He. }
  rewrite fmap_cons in Hnd. apply NoDup_cons in Hnd as [Hne Hnd].
  destruct (Hes e ltac:(left)) as [He Hf]. pose proof Hw as [Hc Hu Hwf].
  destruct (check_one_calm e w Ho Hc Hu Hwf He Hf) as (w1 & e' & Hone & Hc1 & Hrec & Hok & Hd1).
  assert (Hw1 : pass_ok w1) by (by eapply pass_ok_one).
  assert (Hkeep : forall id, id <> e_ID e -> endpoints (w_db w1) !! id = endpoints (w_db w) !! id).
  { intros id Hn. rewrite Hd1. simpl. by rewrite lookup_insert_ne. }
  assert (Hin : forall x, x ∈ es -> e_ID x <> e_ID e).
  { intros x Hx Heq. apply Hne. rewrite <- Heq. by apply list_elem_of_fmap_2. }
  destruct (IH w1 Hw1 Hnd) as (w' & Hall & Hrest & Hdone).
  { intros x Hx. rewrite Hkeep by (by apply Hin). apply Hes. by right. }
  exists w'. split_and!.
  - simpl. by rewrite (bind_eq _ _ _ _ _ Hone).
  - intros id [Hn Hr]%not_elem_of_cons. rewrite Hrest by exact Hr. by apply Hkeep.
  - intros x [-> | Hx]%elem_of_cons; [|by apply Hdone]. exists e'. split; [|done]. rewrite Hrest by done.
    rewrite Hd1. simpl. by rewrite lookup_insert_eq.
Qed.

Lemma due_ids_spec checked_at before batch d : store_wf d ->
  NoDup (due_ids checked_at before batch d)
  /\ forall id, id ∈ due_ids checked_at before batch d ->
       exists e, endpoints d !! id = Some e /\ due checked_at before d e = true.
Proof.
  intros Hd. unfold due_ids. set (rows := filter _ _). set (sorted := merge_sort _ _).
  assert (Hp : sorted ≡ₚ rows) by apply merge_sort_Permutation.
  assert (Hids : NoDup (e_ID <$> sorted)).
  { rewrite Hp. eapply sublist_NoDup; [|apply fmap_sublist, sublist_filter]. rewrite <- list_fmap_compose.
    assert (Heq : (e_ID ∘ snd) <$> map_to_list (endpoints d) = fst <$> map_to_list (endpoints d)).
    { apply list_fmap_ext. intros i [k e] Hi%list_elem_of_lookup_2. simpl. apply elem_of_map_to_list in Hi. by apply Hd. }
    rewrite Heq. apply NoDup_fst_map_to_list. }
  split; [eapply sublist_NoDup; [exact Hids|apply sublist_take]|].
  intros id Hid. apply elem_of_take in Hid as (i & Hi & _). apply list_elem_of_lookup_2 in Hi.
  apply list_elem_of_fmap in Hi as (e & -> & He). rewrite Hp in He. unfold rows in He.
  apply list_elem_of_filter in He as [Hdue He]. apply list_elem_of_fmap in He as ([k x] & -> & Hkx).
  apply elem_of_map_to_list in Hkx. simpl in *. destruct (wf_endpoints d Hd k x Hkx) as [-> _]. eauto.
Qed.
Lemma claimed_rows (m : gmap UUID TrunkEndpoint) (ids : list UUID) : (forall id, id ∈ ids -> exists e, m !! id = Some e /\ e_ID e = id) ->
  e_ID <$> omap (fun id => m !! id) ids = ids
  /\ forall e, e ∈ omap (fun id => m !! id) ids -> m !! e_ID e = Some e.
Proof.
  induction ids as [|id ids IH]; intros H; [split; [done|]; by intros ? ?%not_elem_of_nil|].
  destruct (H id ltac:(left)) as (e & He & Hid). destruct IH as [IH1 IH2]; [intros x Hx; apply H; by right|].
  simpl. rewrite He. split; [simpl; rewrite Hid; f_equal; exact IH1|].
  intros x [-> | Hx]%elem_of_cons; [by rewrite Hid|auto].
Qed.

(** A pass with an orderly prober and no failing call succeeds and writes the
    outcome of a probe of each endpoint it claimed into that endpoint's row: an
    answer makes it healthy with no failures, an error adds one failure, and from
    the threshold on makes it unhealthy and cools it down; it claims the enabled
    endpoints of active trunks that are due and out of cooldown, up to the batch,
    and leaves the rest of the table as it was. *)
Theorem Check_records_probes w : orderly -> w_faults w = [] -> store_wf (w_db w) -> unique_targets (w_db w) ->
  (forall id e, endpoints (w_db w) !! id = Some e -> e_ConsecutiveFailures e < max_int32) ->
  let claimed := due_ids (w_now w) (w_now w - Interval c) (BatchSize c) (w_db w) in
  exists w', Check error_text Probe c w = (inl tt, w')
    /\ forall id e, endpoints (w_db w) !! id = Some e ->
         if decide (id ∈ claimed)
         then due (w_now w) (w_now w - Interval c) (w_db w) e = true
              /\ exists e', endpoints (w_db w') !! id = Some e' /\ recorded (mark_checked (w_now w) (w_now w) e) e'
         else endpoints (w_db w') !! id = Some e.
Proof.
  intros Ho Hf Hwf Hu Hlt claimed. destruct (due_ids_spec (w_now w) (w_now w - Interval c) (BatchSize c) _ Hwf) as [Hnd Hdue].
  fold claimed in Hnd, Hdue. set (m := (fun e => if bool_decide (e_ID e ∈ claimed) then mark_checked (w_now w) (w_now w) e else e)
    <$> endpoints (w_db w)).
  assert (Hm : forall id e, endpoints (w_db w) !! id = Some e ->
     m !! id = Some (if bool_decide (id ∈ claimed) then mark_checked (w_now w) (w_now w) e else e)).
  { intros id e He. unfold m. rewrite lookup_fmap, He. simpl. by destruct (wf_endpoints _ Hwf _ _ He) as [-> _]. }
  destruct (claimed_rows m claimed) as [Hids Hrows].
  { intros id Hid. destruct (Hdue id Hid) as (e & He & _). eexists. split; [by apply Hm|].
    rewrite bool_decide_eq_true_2 by done. simpl. by apply (wf_endpoints _ Hwf). }
  set (es := omap (fun id => m !! id) claimed) in *. set (w1 := with_db (set_endpoints m (w_db w)) w).
  assert (Hclaim : ListForHealthCheck (w_now w) (w_now w - Interval c) (BatchSize c) w = (inl es, w1)).
  { unfold ListForHealthCheck, exec. by rewrite trunk_ext_calm. }
  assert (Hw1 : pass_ok w1).
  { split; [done| |].
    - intros i j a b. unfold w1, m. simpl. rewrite !lookup_fmap. intros (x & Hx & ->)%fmap_Some (y & Hy & ->)%fmap_Some Hxy.
      eapply Hu; [done..|]. by destruct (bool_decide (e_ID x ∈ claimed)), (bool_decide (e_ID y ∈ claimed)).
    - eapply wf_claim, (eq_refl (inl _)). done. }
  destruct (check_all_calm es Ho w1 Hw1) as (w' & Hall & Hrest & Hdone).
  - by rewrite Hids.
  - intros e He. split; [by apply Hrows|]. specialize (Hrows e He). unfold m in Hrows. rewrite lookup_fmap in Hrows.
    apply fmap_Some in Hrows as (x & Hx & ->). specialize (Hlt _ _ Hx). by destruct (bool_decide _).
  - exists w'. split.
    { unfold Check, bind, gets. simpl. unfold wrap. rewrite Hclaim. exact Hall. }
    intros id e He. destruct (decide (id ∈ claimed)) as [Hin|Hout].
    + destruct (Hdue id Hin) as (e0 & He0 & Hd0). assert (e0 = e) as -> by congruence. split; [done|].
      specialize (Hm id e He). rewrite bool_decide_eq_true_2 in Hm by done.
      destruct (Hdone (mark_checked (w_now w) (w_now w) e)) as (e' & He' & Hr).
      { unfold es. apply list_elem_of_omap. by exists id. }
      destruct (wf_endpoints _ Hwf _ _ He) as [Hk _]. simpl in He'. rewrite Hk in He'. by exists e'.
    + rewrite Hrest by (by rewrite Hids). simpl. rewrite (Hm id e He). by rewrite bool_decide_eq_false_2.
Qed.
End Pass.

(** ** Probes of an endpoint that has changed meanwhile *)

(** The outcome of a probe is written by the identifier of the endpoint alone:
    when a request has given the endpoint a new host, port or transport while the
    old one was being probed, an answer of the old target makes the row of the new
    one healthy, although nothing was ever sent to it. *)
Theorem stale_probe_vouches_for_new_target error_text Probe c e w code w1 e' :
  Probe e w = (inl code, w1) -> 100 <= code <= 699 -> w_now w1 - w_now w < 2 ^ 31 * Millisecond ->
  w_faults w1 = [] -> store_wf (w_db w1) -> unique_targets (w_db w1) ->
  endpoints (w_db w1) !! e_ID e = Some e' -> target e' <> target e ->
  exists w2 e2, check_one error_text Probe c e w = (inl tt, w2) /\ endpoints (w_db w2) !! e_ID e = Some e2
    /\ target e2 = target e' /\ target e2 <> target e /\ e_HealthStatus e2 = "healthy"%string
    /\ e_LastResponseCode e2 = Some code.
Proof.
  intros Hp Hc Ht Hf Hwf Hu He Hne. destruct (wf_endpoints _ Hwf _ _ He) as (Hid & Hok & _).
  pose proof (latency_range _ _ Ht) as Hl. set (l := latency_ms (w_now w) (w_now w1)) in *.
  set (h := {| h_Status := "healthy"; h_Failures := 0; h_CheckedAt := Some (w_now w1); h_ResponseCode := Some code;
    h_LatencyMs := Some l; h_Error := None; h_CooldownUntil := None |}).
  set (e2 := with_health (w_now w1) h e').
  assert (Hrow : endpoint_row_ok has_space e2 = true).
  { assert (Hcode : opt_in 100 699 (Some code) = true) by (simpl; apply andb_true_iff; rewrite !Z.leb_le; lia).
    assert (Hlat : opt_in 0 max_int32 (Some l) = true) by (simpl; apply andb_true_iff; rewrite !Z.leb_le; lia).
    apply (health_row_ok e' h (w_now w1) Hok eq_refl); [done|exact Hcode|exact Hlat]. }
  assert (Hfree : target_taken (w_db w1) e2 = false).
  { apply target_free; [done|intros i x Hx; by apply (wf_endpoints _ Hwf)|]. exists e'. simpl. by rewrite Hid. }
  exists (with_db (set_endpoints (<[e_ID e := e2]> (endpoints (w_db w1))) (w_db w1)) w1), e2.
  split_and!; [|simpl; apply lookup_insert_eq|done..].
  unfold check_one, bind, gets, attempt. simpl. rewrite Hp. simpl. unfold wrap, MarkHealthy, exec.
  rewrite trunk_ext_calm by done. unfold MarkTrunkEndpointHealthy, update_health. rewrite He. fold l h e2.
  unfold put_trunk_endpoint. rewrite Hrow, Hfree. simpl. by rewrite Hid.
Qed.

(** ** The OPTIONS request *)
Definition no_eol (s : string) : bool := forallb (fun c => negb (is_crlf c)) (bytes s).
Lemma no_eol_app a b : no_eol (a +:+ b) = no_eol a && no_eol b.
Proof. unfold no_eol, bytes. by rewrite list_ascii_app, forallb_app. Qed.
Lemma no_eol_digits n : 0 <= n -> no_eol (show_int n) = true.
Proof.
  intros Hn. unfold no_eol, show_int, bytes, format_int. rewrite String.list_ascii_of_string_of_list_ascii.
  destruct (Z.ltb_spec n 0); [lia|]. apply forallb_forall. intros c Hc. pose proof (format_uint_digits n Hn) as HF.
  rewrite Forall_forall in HF. specialize (HF c). rewrite list_elem_of_In in HF. specialize (HF Hc).
  unfold is_digit, byte_in, byte_Z in HF. unfold is_crlf. rewrite andb_true_iff, !Z.leb_le in HF.
  apply negb_true_iff, orb_false_iff. rewrite !bool_decide_eq_false. split; intros ->;
    [change (Z.of_N (N_of_ascii CR)) with 13 in HF|change (Z.of_N (N_of_ascii LF)) with 10 in HF]; lia.
Qed.
Lemma no_eol_hex s : forallb lower_hex (bytes s) = true -> no_eol s = true.
Proof.
  unfold no_eol. rewrite !forallb_forall. intros H c Hc. specialize (H c Hc). unfold is_crlf.
  apply negb_true_iff, orb_false_iff. rewrite !bool_decide_eq_false. by split; intros ->.
Qed.
Lemma no_eol_clean h : clean_host h = true -> no_eol h = true.
Proof.
  unfold clean_host, ContainsAny, no_eol. rewrite negb_true_iff. intros H. apply forallb_forall. intros c Hc.
  unfold is_crlf. apply negb_true_iff, orb_false_iff. rewrite !bool_decide_eq_false.
  assert (Hx : forall x, x ∈ [" "%char; ascii_of_N 9; CR; LF] -> c <> x).
  { intros x Hx ->. rewrite <- not_true_iff_false, existsb_exists in H. apply H. exists x. split; [done|].
    by apply bool_decide_eq_true. }
  split; apply Hx; set_solver.
Qed.

Lemma Split_line l rest : LF ∉ l -> bytes_Split (l ++ LF :: rest) LF = l :: bytes_Split rest LF.
Proof.
  induction l as [|a l IH]; intros Hl; [done|]. apply not_elem_of_cons in Hl as [Ha Hl].
  simpl. rewrite decide_False by congruence. by rewrite IH.
Qed.
Lemma no_eol_not_in l x : no_eol l = true -> x = CR \/ x = LF -> x ∉ bytes l.
Proof.
  unfold no_eol. rewrite forallb_forall. intros H Hx Hin. apply list_elem_of_In in Hin. specialize (H x Hin).
  by destruct Hx as [-> | ->].
Qed.
Lemma concat_bytes ls : bytes (String.concat "" ls) = concat (bytes <$> ls).
Proof.
  induction ls as [|l ls IH]; [done|]. destruct ls as [|l' ls]; [simpl; by rewrite app_nil_r|].
  change (String.concat "" (l :: l' :: ls)) with (l +:+ "" +:+ String.concat "" (l' :: ls)).
  unfold bytes at 1. rewrite !list_ascii_app. simpl. f_equal. exact IH.
Qed.
Lemma Split_lines ls rest : Forall (fun l => no_eol l = true) ls ->
  bytes_Split (concat ((fun l => bytes l ++ [CR; LF]) <$> ls) ++ rest) LF
  = ((fun l => bytes l ++ [CR]) <$> ls) ++ bytes_Split rest LF.
Proof.
  induction 1 as [|l ls Hl _ IH]; [done|]. rewrite !fmap_cons. cbn [concat]. rewrite <- !app_assoc.
  assert (Hx : forall x, bytes l ++ [CR; LF] ++ x = (bytes l ++ [CR]) ++ LF :: x) by (intros x; by rewrite <- app_assoc).
  rewrite Hx, Split_line, IH; [done|].
  rewrite elem_of_app. intros [Hin|Hin]; [|by apply list_elem_of_singleton in Hin].
  revert Hin. apply no_eol_not_in; auto.
Qed.
Lemma request_lines_no_eol d id e n : store_wf d -> endpoints d !! n = Some e -> forallb lower_hex (bytes id) = true ->
  Forall (fun l => no_eol l = true)
    (request_lines (JoinHostPort (e_Host e) (show_int (e_Port e))) (e_Transport e) id).
Proof.
  intros Hd He Hid. destruct (wf_endpoints d Hd n e He) as (_ & Hok & Hh & _).
  unfold endpoint_row_ok in Hok. rewrite !andb_true_iff, !Z.leb_le in Hok. destruct Hok as [[[[[[[[[[[[_ _] Hp] _] Ht] _] _] _] _] _] _] _] _].
  assert (Htg : no_eol (JoinHostPort (e_Host e) (show_int (e_Port e))) = true).
  { unfold JoinHostPort. destruct (Contains _ _); rewrite !no_eol_app, (no_eol_clean (e_Host e)), (no_eol_digits (e_Port e)) by (done || lia); done. }
  assert (Htr : no_eol (ToUpper (e_Transport e)) = true).
  { unfold one_of in Ht. apply bool_decide_eq_true in Ht.
    repeat (apply elem_of_cons in Ht as [-> | Ht]; [done|]). by apply not_elem_of_nil in Ht. }
  unfold request_lines. repeat constructor; rewrite ?no_eol_app, ?Htg, ?Htr, ?(no_eol_hex id Hid); done.
Qed.

(** The request sent to an endpoint of a consistent store is exactly its nine
    lines, each ended by a carriage return and a line feed, and the empty line:
    nothing in the host, port or transport of a stored endpoint, nor in the random
    identifier, can add a line or a header to it. *)
Theorem optionsRequest_lines d n e id : store_wf d -> endpoints d !! n = Some e ->
  forallb lower_hex (bytes id) = true ->
  let lines := request_lines (JoinHostPort (e_Host e) (show_int (e_Port e))) (e_Transport e) id in
  bytes_Split (bytes (optionsRequest id (e_Host e) (e_Port e) (e_Transport e))) LF
    = ((fun l => bytes l ++ [CR]) <$> lines) ++ [[CR]; []]
  /\ Forall (fun l => CR ∉ bytes l /\ LF ∉ bytes l) lines.
Proof.
  intros Hd He Hid lines. pose proof (request_lines_no_eol d id e n Hd He Hid) as Hl. fold lines in Hl. split.
  - unfold optionsRequest. fold lines. unfold bytes at 1. rewrite list_ascii_app. fold (bytes (String.concat "" ((fun l => l +:+ crlf) <$> lines))).
    rewrite concat_bytes, <- list_fmap_compose.
    assert (Heq : (bytes ∘ (fun l => l +:+ crlf)) <$> lines = (fun l => bytes l ++ [CR; LF]) <$> lines).
    { apply list_fmap_ext. intros i l _. unfold compose, bytes. rewrite list_ascii_app. done. }
    rewrite Heq. rewrite (Split_lines lines _ Hl). done.
  - eapply Forall_impl; [exact Hl|]. intros l Hx. split; apply no_eol_not_in; auto.
Qed.
End Probes.

(** ** The answer *)
Section TrimKeeps.
Context (p1 : ascii -> bool) (p2 : ascii -> ascii -> bool) (p3 : ascii -> ascii -> ascii -> bool) (d : ascii).
Hypothesis H1 : p1 d = false.
Hypothesis H2 : forall x, p2 x d = false /\ p2 d x = false.
Hypothesis H3 : forall x y, p3 x y d = false /\ p3 x d y = false /\ p3 d x y = false.
(** A byte that is part of no pattern stops the trimming. *)
Lemma trim_front_keep a b : exists a', trim_front p1 p2 p3 (a ++ d :: b) = a' ++ d :: b.
Proof.
  remember (length a) as n eqn:Hn. revert a Hn.
  induction n as [n IH] using lt_wf_ind. intros [|x a] ->.
  { exists []. simpl. rewrite H1. destruct b as [|y [|z b]]; [done| |].
    - by rewrite (proj2 (H2 y)).
    - by rewrite (proj2 (H2 y)), (proj2 (proj2 (H3 y z))). }
  simpl. destruct (p1 x); [by eapply IH; [|done]; simpl; lia|].
  destruct a as [|y a]; simpl.
  { rewrite (proj1 (H2 x)). destruct b as [|z b]; [by exists [x]|].
    rewrite (proj1 (proj2 (H3 x z))). by exists [x]. }
  destruct (p2 x y); [by eapply IH; [|done]; simpl; lia|].
  destruct a as [|z a]; simpl.
  { rewrite (proj1 (H3 x y)). by exists [x; y]. }
  destruct (p3 x y z); [by eapply IH; [|done]; simpl; lia|]. by exists (x :: y :: z :: a).
Qed.
End TrimKeeps.

Definition ascii_text (c : ascii) : bool := byte_in 33 126 c.
Lemma text_not_space c : ascii_text c = true ->
  space1 c = false /\ (forall x, space2 x c = false /\ space2 c x = false)
  /\ forall x y, space3 x y c = false /\ space3 x c y = false /\ space3 c x y = false.
Proof.
  unfold ascii_text, space1, space2, space3, byte_in, byte_is. rewrite andb_true_iff, !Z.leb_le. intros Hc.
  assert (Hn : forall k, k <= 32 \/ 127 <= k -> (byte_Z c =? k) = false) by (intros k Hk; apply Z.eqb_neq; lia).
  assert (Hle : forall k, 127 <= k -> (k <=? byte_Z c) = false) by (intros k Hk; apply Z.leb_gt; lia).
  split_and!.
  - rewrite (Hn 32), orb_false_r by lia. destruct (Z.leb_spec (byte_Z c) 13); [lia|]. apply andb_false_r.
  - intros x. rewrite !Hn by lia. by rewrite ?andb_false_r.
  - intros x y. rewrite !Hn, !Hle by lia. simpl. by rewrite ?andb_false_r.
Qed.
Lemma digit_is_text c : is_digit c = true -> ascii_text c = true.
Proof. unfold is_digit, ascii_text, byte_in. rewrite !andb_true_iff, !Z.leb_le. lia. Qed.

(** Trimming on the right stops at a byte of text. *)
Lemma TrimRight_keep p c s : ascii_text c = true -> exists s' t, bytes_TrimRight (p ++ c :: s) = p ++ c :: s' /\ s = s' ++ t.
Proof.
  intros Hc. destruct (text_not_space c Hc) as (H1 & H2 & H3). unfold bytes_TrimRight.
  rewrite reverse_app, reverse_cons, <- app_assoc. simpl.
  assert (H2' : forall x, space2 c x = false /\ space2 x c = false) by (intros x; destruct (H2 x); done).
  assert (H3' : forall x y, space3 c y x = false /\ space3 y c x = false /\ space3 y x c = false)
    by (intros x y; destruct (H3 y x) as (? & ? & ?), (H3 x y) as (? & ? & ?); done).
  destruct (trim_front_keep space1 (fun a b => space2 b a) (fun a b c => space3 c b a) c H1 H2' H3' (reverse s) (reverse p))
    as [a' Ha]. rewrite Ha.
  destruct (trim_front_split space1 (fun a b => space2 b a) (fun a b c => space3 c b a) (reverse s ++ c :: reverse p))
    as [pre Hpre]. rewrite Ha, app_assoc in Hpre. apply app_inv_tail in Hpre.
  exists (reverse a'), (reverse pre). split.
  - by rewrite reverse_app, reverse_cons, reverse_involutive, <- app_assoc.
  - rewrite <- reverse_app, <- Hpre. by rewrite reverse_involutive.
Qed.
Lemma TrimLeft_keep c s : ascii_text c = true -> bytes_TrimLeft (c :: s) = c :: s.
Proof.
  intros Hc. destruct (text_not_space c Hc) as (H1 & H2 & H3). unfold bytes_TrimLeft. simpl. rewrite H1.
  destruct s as [|x s]; [done|]. rewrite (proj2 (H2 x)). destruct s as [|y s]; [done|]. by rewrite (proj2 (proj2 (H3 x y))).
Qed.

Lemma fields_text f w s : Forall (fun c => ascii_text c = true) w -> fields_from f (w ++ s) = fields_from (f ++ w) s.
Proof.
  intros Hw. revert f. induction Hw as [|c w Hc _ IH]; intros f; [by rewrite app_nil_r|].
  destruct (text_not_space c Hc) as (H1 & H2 & H3).
  assert (Hstep : forall x, fields_from f (c :: x) = fields_from (f ++ [c]) x).
  { intros x. simpl. rewrite H1. destruct x as [|y x]; [done|]. rewrite (proj2 (H2 y)).
    destruct x as [|z x]; [done|]. by rewrite (proj2 (proj2 (H3 y z))). }
  simpl app at 1. rewrite Hstep, IH. by rewrite <- app_assoc.
Qed.
Lemma fields_space f s : f <> [] -> fields_from f (" "%char :: s) = f :: fields_from [] s.
Proof. intros Hf. simpl. unfold flush. by rewrite bool_decide_eq_false_2. Qed.
Lemma fields_end f : f <> [] -> fields_from f [] = [f].
Proof. intros Hf. simpl. unfold flush. by rewrite bool_decide_eq_false_2. Qed.
(** The first field, whatever follows the space after it. *)
Lemma fields_head f s : f <> [] -> s = [] \/ (exists r, s = " "%char :: r) -> exists l, fields_from f s = f :: l.
Proof. intros Hf [-> | [r ->]]; [rewrite fields_end by done|rewrite fields_space by done]; eauto. Qed.

Lemma first_line_app l tail : LF ∉ l -> first_line (l ++ LF :: tail) = l.
Proof.
  intros Hl. unfold first_line. rewrite index_byte_app, take_app_length; [done|].
  rewrite Forall_forall. by intros x Hx ->.
Qed.
(** Trimming keeps a text up to its last byte of text. *)
Lemma TrimSpace_keep x p c s : ascii_text x = true -> ascii_text c = true ->
  exists s' t, bytes_TrimSpace ((x :: p) ++ c :: s) = (x :: p) ++ c :: s' /\ s = s' ++ t.
Proof. intros Hx Hc. unfold bytes_TrimSpace. simpl app at 1. rewrite TrimLeft_keep by done. by apply (TrimRight_keep (x :: p)). Qed.

Definition version_text : list ascii := bytes "SIP/2.0".
Definition status_line (code : Z) (rest : list ascii) : list ascii := version_text ++ " "%char :: format_int code ++ rest.
Lemma format_code code : 0 <= code -> Forall (fun c => is_digit c = true) (format_int code) /\ format_int code <> [].
Proof.
  intros Hc. unfold format_int. destruct (Z.ltb_spec code 0); [lia|].
  split; [by apply format_uint_digits|apply format_uint_nonempty].
Qed.
Lemma status_line_LF code rest : 0 <= code -> LF ∉ rest -> LF ∉ status_line code rest.
Proof.
  intros Hc Hr. destruct (format_code code Hc) as [Hd _]. unfold status_line.
  rewrite not_elem_of_app, not_elem_of_cons, not_elem_of_app. split_and!; [vm_compute; set_solver|done| |done].
  intros Hin. rewrite Forall_forall in Hd. by specialize (Hd LF Hin).
Qed.
Lemma status_line_trimmed code rest : 0 <= code -> exists rest' t,
  bytes_TrimSpace (status_line code rest) = status_line code rest' /\ rest = rest' ++ t.
Proof.
  intros Hc. destruct (format_code code Hc) as [Hd Hne]. destruct (exists_last Hne) as (ds & c & Hds).
  unfold status_line. rewrite Hds in *. apply Forall_app in Hd as [_ Hcd]. apply Forall_cons in Hcd as [Hcd _].
  destruct (TrimSpace_keep "S"%char (drop 1 version_text ++ " "%char :: ds) c rest eq_refl (digit_is_text c Hcd))
    as (s' & t & Htr & ->).
  exists s', t. split; [|done]. simpl in *. rewrite <- !app_assoc. simpl. exact Htr.
Qed.
Lemma status_line_fields code rest : 0 <= code -> rest = [] \/ (exists r, rest = " "%char :: r) ->
  exists l, fields_from [] (status_line code rest) = version_text :: format_int code :: l.
Proof.
  intros Hc Hr. destruct (format_code code Hc) as [Hd Hne]. unfold status_line.
  rewrite fields_text by (vm_compute; repeat constructor). rewrite fields_space by done. simpl app.
  rewrite fields_text by (eapply Forall_impl; [exact Hd|intros c; apply digit_is_text]).
  destruct (fields_head (format_int code) rest Hne Hr) as [l Hl]. exists l. simpl. by rewrite Hl.
Qed.

(** Any answer whose first line is a SIP status line is read as its status,
    whatever the reason phrase and the rest of the message are (a challenge as much
    as a success), and no answer is read as a status outside 100 to 699. *)
Theorem parseSIPStatus_reads_status code rest tail : 100 <= code <= 699 -> LF ∉ rest ->
  rest = [] \/ (exists r, rest = " "%char :: r) ->
  parseSIPStatus (of_bytes (status_line code rest ++ LF :: tail)) = inl code
  /\ forall value n, parseSIPStatus value = inl n -> 100 <= n <= 699.
Proof.
  intros Hc Hlf Hr. split.
  - unfold parseSIPStatus, TrimSpace, Fields, bytes, of_bytes.
    rewrite !String.list_ascii_of_string_of_list_ascii, first_line_app by (apply status_line_LF; [lia|done]).
    destruct (status_line_trimmed code rest ltac:(lia)) as (rest' & t & -> & Ht).
    destruct (status_line_fields code rest' ltac:(lia)) as [l ->].
    { destruct Hr as [-> | [r ->]]; destruct rest' as [|x rest']; auto; [done|]. injection Ht as <- _. eauto. }
    simpl fmap. cbv iota. rewrite bool_decide_eq_true_2 by done. simpl negb. cbv iota.
    unfold ParseInt. rewrite String.list_ascii_of_string_of_list_ascii, format_int_parse by (unfold min_int64, max_int64; lia).
    destruct (Z.ltb_spec code 100), (Z.ltb_spec 699 code); try lia. done.
  - intros value n. unfold parseSIPStatus. destruct (Fields _) as [|v [|c l]]; [done..|].
    destruct (negb _); [done|]. destruct (ParseInt c) as [m|]; [|done].
    destruct (Z.ltb_spec m 100), (Z.ltb_spec 699 m); simpl; try done. by intros [= <-].
Qed.

(** ** Examples

    The endpoint of [TrunkOutcomes.toy_world2], probed by a prober that answers
    200, one that fails, and one during whose probe the endpoint is moved. *)
Definition toy_health : HealthCheckConfig := DefaultHealthCheckConfig.
Definition toy_text (e : error) : string := "failed".
Definition up_prober (e : TrunkEndpoint) : M World Z := ret 200.
Definition down_prober (e : TrunkEndpoint) : M World Z := throw (Sentinel ErrDeadlineExceeded).
Definition move_op : op := OpUpdateEndpoint 1 10 13 {|
  eu_Host := Some "other.example"%string; eu_Port := None; eu_Transport := None; eu_Direction := None;
  eu_Priority := None; eu_Weight := None; eu_Enabled := None |}.
Definition moving_prober (e : TrunkEndpoint) : M World Z := fun w => (inl 200, snd (run_op toy_service move_op w)).
Definition toy_row : TrunkEndpoint := default (new_endpoint 0 0 0 0 toy_endpoint) (endpoints (w_db toy_world2) !! 13).

Lemma up_orderly : orderly up_prober.
Proof. split; try done; [by intros e w code [= <-]|]. intros e w. simpl. rewrite Z.sub_diag. done. Qed.
Lemma single_unique d i (e : TrunkEndpoint) : endpoints d = {[i := e]} -> unique_targets d.
Proof. intros H a b x y. rewrite H. by intros [<- _]%lookup_singleton_Some [<- _]%lookup_singleton_Some. Qed.

Lemma Check_records_probes_witness : exists w',
  Check toy_text up_prober toy_health toy_world2 = (inl tt, w')
  /\ exists e', endpoints (w_db w') !! 13 = Some e' /\ e_HealthStatus e' = "healthy"%string.
Proof.
  assert (Hone : endpoints (w_db toy_world2) = {[13 := toy_row]}) by (vm_compute; reflexivity).
  destruct (Check_records_probes toy_text up_prober toy_health toy_world2 up_orderly eq_refl toy_world2_wf) as (w' & Hc & Hrows).
  - by apply (single_unique _ 13 toy_row).
  - intros id e. rewrite Hone. intros [<- <-]%lookup_singleton_Some. vm_compute. reflexivity.
  - exists w'. split; [exact Hc|]. assert (Hrow : endpoints (w_db toy_world2) !! 13 = Some toy_row) by (vm_compute; reflexivity).
    specialize (Hrows 13 toy_row Hrow). rewrite decide_True in Hrows by (vm_compute; left).
    destruct Hrows as (_ & e' & He' & (w & f & l & Hrec)). exists e'. split; [exact He'|]. by rewrite Hrec.
Defined.
Definition failed_check (w : World) : World := snd (check_one toy_text down_prober toy_health toy_row w).
Fixpoint failed_checks (n : nat) (w : World) : World :=
  match n with O => w | S n => failed_checks n (failed_check w) end.
Definition moved_world : World := snd (run_op toy_service move_op toy_world2).
Lemma moved_world_wf : store_wf (w_db moved_world).
Proof. apply (wf_step 3 toy_world2); [by eapply (step_request 3 toy_world2 _ toy_service move_op)|exact toy_world2_wf]. Qed.
Definition moved_row : TrunkEndpoint := default toy_row (endpoints (w_db moved_world) !! 13).
Lemma stale_probe_vouches_for_new_target_witness : exists w2 e2,
  check_one toy_text moving_prober toy_health toy_row toy_world2 = (inl tt, w2)
  /\ endpoints (w_db w2) !! 13 = Some e2 /\ target e2 = (10, "other.example", 5060, "udp", "bidirectional")%string
  /\ e_HealthStatus e2 = "healthy"%string.
Proof.
  destruct (stale_probe_vouches_for_new_target toy_text moving_prober toy_health toy_row toy_world2 200 moved_world moved_row)
    as (w2 & e2 & Hc & He & Ht & _ & Hs & _).
  - reflexivity.
  - lia.
  - vm_compute. reflexivity.
  - vm_compute. reflexivity.
  - exact moved_world_wf.
  - apply (single_unique _ 13 moved_row). vm_compute. reflexivity.
  - vm_compute. reflexivity.
  - vm_compute. discriminate.
  - exists w2, e2. split_and!; [exact Hc|exact He|rewrite Ht; vm_compute; reflexivity|exact Hs].
Defined.
Lemma optionsRequest_lines_witness :
  bytes_Split (bytes (optionsRequest "00ff" (e_Host toy_row) (e_Port toy_row) (e_Transport toy_row))) LF
    = ((fun l => bytes l ++ [CR]) <$> request_lines "sip.example:5060" "udp" "00ff") ++ [[CR]; []].
Proof. apply (optionsRequest_lines (w_db toy_world2) 13 toy_row "00ff" toy_world2_wf); vm_compute; reflexivity. Defined.
Lemma parseSIPStatus_reads_status_witness :
  parseSIPStatus (of_bytes (status_line 401 (bytes " Unauthorized") ++ LF :: bytes "Content-Length: 0")) = inl 401.
Proof.
  apply (parseSIPStatus_reads_status 401 (bytes " Unauthorized") (bytes "Content-Length: 0")); [lia| |right; by eexists].
  rewrite list_elem_of_In. vm_compute. intuition discriminate.
Defined.
End TrunkProbes.
