(* ===== verification/TrunkValidate.v ===== *)
(** * The validation of a trunk against the routing of its calls

    [Service.Validate] reads the tables of the trunk service; [Routing.v] models
    the routing of calls over the same tables. Here the first is shown to predict
    the second. *)

From stdpp Require Import sorting.
From S2P Require Import Prelude Encryption Routing Trunks TrunkService TrunkHealth TrunkSafety TrunkInvariant TrunkOutcomes.
Local Open Scope Z_scope.

Module TrunkValidate.
Import Trunks Encryption TrunkService TrunkHealth TrunkSafety TrunkInvariant TrunkOutcomes.

(** ** The routing tables of a trunk store *)
Definition routing_trunk (t : Trunk) : Routing.Trunk := {|
  Routing.t_ID := t_ID t; Routing.t_OrganizationID := t_OrganizationID t; Routing.t_Status := t_Status t;
  Routing.t_Direction := t_Direction t; Routing.t_InboundEnabled := t_InboundEnabled t;
  Routing.t_MaxCps := t_MaxCps t; Routing.t_MaxConcurrentCalls := t_MaxConcurrentCalls t |}.
Definition routing_endpoint (e : TrunkEndpoint) : Routing.TrunkEndpoint := {|
  Routing.e_ID := e_ID e; Routing.e_OrganizationID := e_OrganizationID e; Routing.e_TrunkID := e_TrunkID e;
  Routing.e_Host := e_Host e; Routing.e_Port := e_Port e; Routing.e_Transport := e_Transport e;
  Routing.e_Direction := e_Direction e; Routing.e_Priority := e_Priority e; Routing.e_Weight := e_Weight e;
  Routing.e_Enabled := e_Enabled e; Routing.e_HealthStatus := e_HealthStatus e; Routing.e_CreatedAt := e_CreatedAt e |}.
Definition routing_view (d : DB) : Routing.Tables := {|
  Routing.trunks := routing_trunk <$> (snd <$> map_to_list (trunks d));
  Routing.endpoints := routing_endpoint <$> (snd <$> map_to_list (endpoints d));
  Routing.bindings := []; Routing.phone_numbers := []; Routing.voice_agents := []; Routing.organizations := [] |}.

Lemma elem_rows {K V} `{Countable K} (m : gmap K V) x : x ∈ (snd <$> map_to_list m) <-> exists k, m !! k = Some x.
Proof.
  rewrite list_elem_of_fmap. split.
  - intros ([k y] & -> & Hy%elem_of_map_to_list). eauto.
  - intros (k & Hk). exists (k, x). split; [done|]. by apply elem_of_map_to_list.
Qed.

Section Validate.
Context {T : TrunkLib} {A : AEAD} {U : UuidLib}.

(** An endpoint a call of this trunk can be sent to. *)
Definition routable (d : DB) (org trunk : UUID) (e : TrunkEndpoint) : Prop :=
  (exists i, endpoints d !! i = Some e) /\ e_TrunkID e = trunk /\ e_OrganizationID e = org /\ e_Enabled e = true
  /\ outward (e_Direction e) = true /\ e_HealthStatus e <> "unhealthy"%string.
Lemma outward_direction s : outward s = Routing.outbound_direction s.
Proof.
  unfold outward, one_of, Routing.outbound_direction. apply Bool.eq_iff_eq_true.
  rewrite orb_true_iff, !bool_decide_eq_true. set_solver.
Qed.
Lemma endpoint_errors_routable d org trunk t : own_trunk org trunk d = Some t ->
  endpoint_errors t (ListTrunkEndpoints org trunk d) = [] <->
  (outward (t_Direction t) = true -> exists e, routable d org trunk e).
Proof.
  intros Ht. unfold endpoint_errors. destruct (outward (t_Direction t)); simpl; [|split; done].
  set (es := ListTrunkEndpoints org trunk d). set (enabled := filter _ es). set (routables := filter _ enabled).
  assert (Hes : forall e, e ∈ routables <-> routable d org trunk e).
  { intros e. unfold routables, enabled, es, ListTrunkEndpoints, routable.
    rewrite !list_elem_of_filter, merge_sort_Permutation, list_elem_of_filter, elem_rows, Ht, andb_true_iff. naive_solver. }
  destruct (bool_decide (enabled = [])) eqn:E1.
  - apply bool_decide_eq_true in E1. split; [done|]. intros H. destruct (H eq_refl) as (e & He%Hes).
    unfold routables in He. rewrite E1 in He. by apply not_elem_of_nil in He.
  - destruct (bool_decide (routables = [])) eqn:E2.
    + apply bool_decide_eq_true in E2. split; [done|]. intros H. destruct (H eq_refl) as (e & He%Hes).
      rewrite E2 in He. by apply not_elem_of_nil in He.
    + apply bool_decide_eq_false in E2. split; [|done]. intros _ _. destruct routables as [|e l] eqn:Er; [done|].
      exists e. apply Hes. left.
Qed.

(** *** The routes *)
Lemma outbound_routes_total t es : Forall (fun e => 1 <= Routing.e_Port e <= 65535) es ->
  exists routes, Routing.outbound_routes t es = inl routes
    /\ (routes = [] <-> Forall (fun e => Routing.e_HealthStatus e = "unhealthy"%string) es).
Proof.
  induction 1 as [|e es He _ (routes & Hr & Hn)]; [by exists []|]. simpl. case_decide as Hu.
  - exists routes. split; [done|]. rewrite Hn, Forall_cons. tauto.
  - destruct (Z.ltb_spec (Routing.e_Port e) 1), (Z.ltb_spec 65535 (Routing.e_Port e)); try lia. rewrite Hr. simpl.
    eexists. split; [done|]. rewrite Forall_cons. split; [done|tauto].
Qed.
Definition routes_of (org trunk : UUID) (t : Trunk) (d : DB) : result (list Routing.OutboundRoute) :=
  Routing.outbound_routes (routing_trunk t) (Routing.ListActiveOutboundTrunkEndpoints trunk org (routing_view d)).
Lemma routes_routable d org trunk t : store_wf d -> own_trunk org trunk d = Some t -> t_Status t = "active"%string ->
  outward (t_Direction t) = true ->
  exists routes, routes_of org trunk t d = inl routes /\ (routes <> [] <-> exists e, routable d org trunk e).
Proof.
  intros Hd Ht Hst Hdir. destruct (own_trunk_inv _ _ _ _ Ht) as [Hlk Horg]. destruct (wf_trunks d Hd trunk t Hlk) as [Hid _].
  set (es := Routing.ListActiveOutboundTrunkEndpoints trunk org (routing_view d)).
  assert (Hes : forall r, r ∈ es <-> exists e, r = routing_endpoint e /\ (exists i, endpoints d !! i = Some e) /\
    e_TrunkID e = trunk /\ e_OrganizationID e = org /\ e_Enabled e = true /\ outward (e_Direction e) = true).
  { intros r. unfold es, Routing.ListActiveOutboundTrunkEndpoints. rewrite merge_sort_Permutation, list_elem_of_filter. simpl.
    rewrite list_elem_of_fmap. split.
    - intros [(? & ? & ? & ? & _) (e & -> & He%elem_rows)]. exists e. rewrite outward_direction. naive_solver.
    - intros (e & -> & He & ? & ? & ? & Hdo). rewrite outward_direction in Hdo. split; [|exists e; split; [done|by apply elem_rows]].
      split_and!; try done. apply Exists_exists. exists (routing_trunk t). rewrite list_elem_of_fmap. split.
      + exists t. split; [done|]. apply elem_rows. eauto.
      + simpl. rewrite <- outward_direction. done. }
  destruct (outbound_routes_total (routing_trunk t) es) as (routes & Hr & Hn).
  { apply Forall_forall. intros r (e & -> & (i & He) & _)%Hes. destruct (wf_endpoints d Hd i e He) as (_ & Hok & _).
    unfold endpoint_row_ok in Hok. rewrite !andb_true_iff, !Z.leb_le in Hok. simpl. lia. }
  exists routes. split; [exact Hr|]. rewrite Hn. split.
  - intros Hnot. apply not_Forall_Exists in Hnot; [|intros x; apply _]. apply Exists_exists in Hnot as (r & Hin & Hh).
    apply Hes in Hin as (e & -> & ? & ? & ? & ? & ?). exists e. by split_and!.
  - intros (e & ? & ? & ? & ? & ? & Hh) HF. rewrite Forall_forall in HF.
    apply Hh, (HF (routing_endpoint e)), Hes. by exists e.
Qed.

(** *** The validation *)
Lemma trunk_query_calm {V} (f : DB -> result V) w : w_faults w = [] -> query f w = (f (w_db w), w).
Proof. intros H. unfold query, ext. simpl. by rewrite H. Qed.
Lemma Get_calm org id w t : w_faults w = [] -> org <> uuid_Nil -> id <> uuid_Nil ->
  own_trunk org id (w_db w) = Some t -> Get org id w = (inl t, w).
Proof.
  intros Hf Ho Hi Ht. unfold Get, validateID, bind, lift, guard_err. rewrite !bool_decide_eq_false_2 by done.
  unfold wrap, Repo_Get. rewrite trunk_query_calm by done. unfold GetTrunkByID. by rewrite Ht.
Qed.
Definition inbound_ready (d : DB) (org id : UUID) (t : Trunk) : Prop :=
  t_InboundEnabled t = true -> t_InboundAuthMethod t = "ip"%string -> ListTrunkSourceIPs org id d <> [].
Lemma inbound_errors_calm org id w t : w_faults w = [] -> org <> uuid_Nil -> id <> uuid_Nil -> store_wf (w_db w) ->
  own_trunk org id (w_db w) = Some t -> exists l, inbound_errors org id t w = (inl l, w)
    /\ (l = [] <-> inbound_ready (w_db w) org id t).
Proof.
  intros Hf Ho Hi Hwf Ht. unfold inbound_errors, inbound_ready.
  destruct (t_InboundEnabled t); simpl; [|exists []; by split].
  destruct (own_trunk_inv _ _ _ _ Ht) as [Hlk _]. destruct (wf_trunks _ Hwf _ _ Hlk) as [_ Hok].
  pose proof (trunk_row_auth t "inbound" (or_intror eq_refl) Hok) as Hau. simpl in Hau.
  case_bool_decide as Hm.
  - destruct (t_InboundUsername t), (t_InboundRealm t), (t_InboundSecretCiphertext t); try done.
    exists []. split; [done|]. split; [|done]. intros _ _ Hip. congruence.
  - case_bool_decide as Hip.
    + unfold ListSourceIPs. eexists. split.
      * unfold bind. rewrite (Get_calm org id w t) by done. unfold wrap, Repo_ListSourceIPs. by rewrite trunk_query_calm.
      * case_bool_decide as Hs; [apply fmap_nil_inv in Hs; rewrite Hs; naive_solver|].
        split; [intros _ _ _ Hn; apply Hs; by rewrite Hn|done].
    + exfalso. unfold trunk_row_ok in Hok. rewrite !andb_true_iff in Hok.
      destruct Hok as [[[[_ Hin] _] _] _]. unfold one_of in Hin. apply bool_decide_eq_true in Hin. set_solver.
Qed.
Lemma no_outbound_errors d org id t : store_wf d -> own_trunk org id d = Some t -> outbound_errors t = [].
Proof.
  intros Hwf Ht. destruct (own_trunk_inv _ _ _ _ Ht) as [Hlk _]. destruct (wf_trunks _ Hwf _ _ Hlk) as [_ Hok].
  pose proof (trunk_row_auth t "outbound" (or_introl eq_refl) Hok) as Hau. simpl in Hau. unfold outbound_errors.
  destruct (t_AuthUsername t), (t_AuthRealm t), (t_AuthSecretCiphertext t); try done;
    rewrite ?andb_false_r; [done|by rewrite bool_decide_eq_false_2].
Qed.

(** C37: On a consistent store, validation calls a trunk valid exactly when inbound
    calls can be told from strangers (a trunk that admits by address has one) and
    an outward trunk has an enabled outward endpoint that is not unhealthy (missing
    credentials, which it also checks for, cannot occur); so an outbound call of an
    active outward trunk finds a route if, inbound readiness aside, the trunk is
    valid, and finds none otherwise. *)
Theorem Validate_predicts_routing org id w t : w_faults w = [] -> org <> uuid_Nil -> id <> uuid_Nil ->
  store_wf (w_db w) -> own_trunk org id (w_db w) = Some t ->
  exists r, Validate org id w = (inl r, w) /\ (Warnings r = [] <-> t_Status t = "active"%string)
    /\ (Valid r = true <-> inbound_ready (w_db w) org id t
         /\ (outward (t_Direction t) = true -> exists e, routable (w_db w) org id e))
    /\ (t_Status t = "active"%string -> outward (t_Direction t) = true -> inbound_ready (w_db w) org id t ->
         exists routes, routes_of org id t (w_db w) = inl routes /\ (Valid r = true <-> routes <> [])).
Proof.
  intros Hf Ho Hi Hwf Ht. destruct (inbound_errors_calm org id w t Hf Ho Hi Hwf Ht) as (inb & Hinb & Hready).
  set (out := endpoint_errors t (ListTrunkEndpoints org id (w_db w))).
  pose proof (endpoint_errors_routable (w_db w) org id t Ht) as Hout. fold out in Hout.
  exists {| Valid := bool_decide (inb ++ out = []); Errors := inb ++ out;
    Warnings := if bool_decide (t_Status t = "active"%string) then [] else ["trunk is disabled"%string] |}.
  assert (Hvalid : bool_decide (inb ++ out = []) = true <-> inbound_ready (w_db w) org id t
    /\ (outward (t_Direction t) = true -> exists e, routable (w_db w) org id e)).
  { rewrite bool_decide_eq_true, app_nil, Hready, Hout. done. }
  split_and!; [| |exact Hvalid|].
  - unfold Validate, bind. rewrite (Get_calm org id w t) by done. rewrite Hinb. unfold wrap, Repo_ListEndpoints.
    rewrite trunk_query_calm by done. unfold ret. by rewrite (no_outbound_errors _ _ _ _ Hwf Ht).
  - simpl. destruct (decide (t_Status t = "active"%string)) as [Hst|Hst];
      [rewrite (bool_decide_eq_true_2 _ Hst)|rewrite (bool_decide_eq_false_2 _ Hst)]; split; done.
  - intros Hst Hdir Hin. destruct (routes_routable _ _ _ _ Hwf Ht Hst Hdir) as (routes & Hr & Hne).
    exists routes. split; [done|]. rewrite Hne. simpl. rewrite Hvalid. tauto.
Qed.
End Validate.

Lemma Validate_predicts_routing_witness : exists r,
  Validate 1 10 toy_world2 = (inl r, toy_world2) /\ Valid r = true.
Proof.
  destruct (trunks (w_db toy_world2) !! 10) as [t|] eqn:Et; [|vm_compute in Et; done].
  destruct (Validate_predicts_routing 1 10 toy_world2 t) as (r & Hv & _ & [_ Hvalid] & _).
  - vm_compute. reflexivity.
  - done.
  - done.
  - exact toy_world2_wf.
  - vm_compute in Et. injection Et as <-. vm_compute. reflexivity.
  - exists r. split; [exact Hv|]. pose proof (f_equal fst Hv) as Hr.
    assert (He : fst (Validate 1 10 toy_world2) = inl {| Valid := true; Errors := []; Warnings := [] |})
      by (vm_compute; reflexivity).
    rewrite He in Hr. cbn [fst] in Hr. by injection Hr as <-.
Defined.
End TrunkValidate.
