(* ===== verification/CallStore.v ===== *)
(** * Calls: data and storage

    [server/internal/telephony/calls/model.go] and [repository.go] over the call
    queries of [database/queries/calls.sql]: the table of calls, the guarded state
    transitions, and the transaction that commits a call with its outbox event. *)

From stdpp Require Import sorting.
From S2P Require Import Prelude.

Module CallStore.
Inductive Direction := DirectionInbound | DirectionOutbound.
Inductive State :=
| StateInitiating | StateRinging | StateAnswered | StateActive
| StateCompleted | StateFailed | StateCancelled.
Inductive MediaState := MediaStateActive | MediaStateHeld.
#[export] Instance Direction_eq : EqDecision Direction.
Proof. solve_decision. Defined.
#[export] Instance State_eq : EqDecision State.
Proof. solve_decision. Defined.
#[export] Instance MediaState_eq : EqDecision MediaState.
Proof. solve_decision. Defined.

Record Call := {
  ID : UUID;
  OrganizationID : UUID;
  VoiceAgentID : option UUID;
  TrunkID : option UUID;
  TrunkEndpointID : option UUID;
  CallDirection : Direction;
  CallState : State;
  CallMediaState : MediaState;
  FromUri : string;
  ToUri : string;
  SipCallID : option string;
  StartedAt : option Z;
  AnsweredAt : option Z;
  EndedAt : option Z;
  HangupReason : option string;
  CreatedAt : Z;
  UpdatedAt : Z;
}.

(** The zero value a query returns with its error. *)
Definition zero_call : Call := {|
  ID := uuid_Nil; OrganizationID := uuid_Nil; VoiceAgentID := None; TrunkID := None;
  TrunkEndpointID := None; CallDirection := DirectionInbound; CallState := StateInitiating;
  CallMediaState := MediaStateActive; FromUri := ""; ToUri := ""; SipCallID := None;
  StartedAt := None; AnsweredAt := None; EndedAt := None; HangupReason := None;
  CreatedAt := 0; UpdatedAt := 0 |}.

Definition is_terminal (s : State) : bool :=
  match s with StateCompleted | StateFailed | StateCancelled => true | _ => false end.

(** A row of [outbox_events] as [mutate] writes it; the [resource] of the payload
    is the row the mutation returned. *)
Record Event := {
  ev_Subject : string;
  ev_AggregateID : UUID;
  ev_OrganizationID : UUID;
  ev_Resource : Call;
  ev_OccurredAt : Z;
}.

Record DB := { calls : gmap UUID Call; events : list Event }.
Definition set_calls (m : gmap UUID Call) (d : DB) : DB := {| calls := m; events := events d |}.
Definition no_rows {A} : result A := inr (Sentinel ErrNoRows).

(** ** Queries *)

Section Queries.
Context (now : Z).

(** [set_updated_at], the trigger of every update. *)
Definition touch (c : Call) : Call :=
  {| ID := ID c; OrganizationID := OrganizationID c; VoiceAgentID := VoiceAgentID c;
     TrunkID := TrunkID c; TrunkEndpointID := TrunkEndpointID c;
     CallDirection := CallDirection c; CallState := CallState c;
     CallMediaState := CallMediaState c; FromUri := FromUri c; ToUri := ToUri c;
     SipCallID := SipCallID c; StartedAt := StartedAt c; AnsweredAt := AnsweredAt c;
     EndedAt := EndedAt c; HangupReason := HangupReason c;
     CreatedAt := CreatedAt c; UpdatedAt := now |}.
Definition with_state (s : State) (answered ended : option Z) (reason : option string) (c : Call)
    : Call :=
  {| ID := ID c; OrganizationID := OrganizationID c; VoiceAgentID := VoiceAgentID c;
     TrunkID := TrunkID c; TrunkEndpointID := TrunkEndpointID c;
     CallDirection := CallDirection c; CallState := s;
     CallMediaState := CallMediaState c; FromUri := FromUri c; ToUri := ToUri c;
     SipCallID := SipCallID c; StartedAt := StartedAt c; AnsweredAt := answered;
     EndedAt := ended; HangupReason := reason;
     CreatedAt := CreatedAt c; UpdatedAt := UpdatedAt c |}.
Definition with_media (m : MediaState) (c : Call) : Call :=
  {| ID := ID c; OrganizationID := OrganizationID c; VoiceAgentID := VoiceAgentID c;
     TrunkID := TrunkID c; TrunkEndpointID := TrunkEndpointID c;
     CallDirection := CallDirection c; CallState := CallState c;
     CallMediaState := m; FromUri := FromUri c; ToUri := ToUri c;
     SipCallID := SipCallID c; StartedAt := StartedAt c; AnsweredAt := AnsweredAt c;
     EndedAt := EndedAt c; HangupReason := HangupReason c;
     CreatedAt := CreatedAt c; UpdatedAt := UpdatedAt c |}.
Definition with_route (trunk endpoint : option UUID) (c : Call) : Call :=
  {| ID := ID c; OrganizationID := OrganizationID c; VoiceAgentID := VoiceAgentID c;
     TrunkID := trunk; TrunkEndpointID := endpoint;
     CallDirection := CallDirection c; CallState := CallState c;
     CallMediaState := CallMediaState c; FromUri := FromUri c; ToUri := ToUri c;
     SipCallID := SipCallID c; StartedAt := StartedAt c; AnsweredAt := AnsweredAt c;
     EndedAt := EndedAt c; HangupReason := HangupReason c;
     CreatedAt := CreatedAt c; UpdatedAt := UpdatedAt c |}.
Definition with_sip (sip : option string) (c : Call) : Call :=
  {| ID := ID c; OrganizationID := OrganizationID c; VoiceAgentID := VoiceAgentID c;
     TrunkID := TrunkID c; TrunkEndpointID := TrunkEndpointID c;
     CallDirection := CallDirection c; CallState := CallState c;
     CallMediaState := CallMediaState c; FromUri := FromUri c; ToUri := ToUri c;
     SipCallID := sip; StartedAt := StartedAt c; AnsweredAt := AnsweredAt c;
     EndedAt := EndedAt c; HangupReason := HangupReason c;
     CreatedAt := CreatedAt c; UpdatedAt := UpdatedAt c |}.

(** The unique index on [sip_call_id]: another row has it. *)
Definition sip_taken (d : DB) (id : UUID) (sip : option string) : bool :=
  match sip with
  | None => false
  | Some _ => existsb (fun '(i, c) => negb (bool_decide (i = id)) && bool_decide (SipCallID c = sip))
                (map_to_list (calls d))
  end.
Definition unique_violation : error := Errorf "duplicate key value violates unique constraint" [].

(** [UPDATE calls SET ... WHERE organization_id = org AND id = id AND guard RETURNING *]. *)
Definition update_call (org id : UUID) (guard : Call -> bool) (f : Call -> Call) (d : DB)
    : result (Call * DB) :=
  match calls d !! id with
  | Some c =>
      if bool_decide (OrganizationID c = org) && guard c then
        let c' := touch (f c) in
        if sip_taken d id (SipCallID c') then inr unique_violation
        else inl (c', set_calls (<[id := c']> (calls d)) d)
      else no_rows
  | None => no_rows
  end.

Definition state_in (l : list State) (c : Call) : bool := bool_decide (CallState c ∈ l).

(** [CreateCall]; [id] is the identifier the database generates. *)
Definition CreateCall (id org : UUID) (agent : option UUID) (dir : Direction)
    (state : option State) (from to : string) (sip : option string) (d : DB)
    : result (Call * DB) :=
  let c := {| ID := id; OrganizationID := org; VoiceAgentID := agent; TrunkID := None;
              TrunkEndpointID := None; CallDirection := dir;
              CallState := default StateInitiating state; CallMediaState := MediaStateActive;
              FromUri := from; ToUri := to; SipCallID := sip; StartedAt := None;
              AnsweredAt := None; EndedAt := None; HangupReason := None;
              CreatedAt := now; UpdatedAt := now |} in
  if sip_taken d id sip then inr unique_violation
  else inl (c, set_calls (<[id := c]> (calls d)) d).

Definition GetCall (org id : UUID) (d : DB) : result Call :=
  match calls d !! id with
  | Some c => if decide (OrganizationID c = org) then inl c else no_rows
  | None => no_rows
  end.
Definition GetCallBySIPCallIDGlobal (sip : string) (d : DB) : result Call :=
  match filter (fun c => SipCallID c = Some sip) (snd <$> map_to_list (calls d)) with
  | c :: _ => inl c
  | [] => no_rows
  end.

(** [GetCallLifecycleSnapshot]. *)
Record LifecycleSnapshot := {
  snap_OrganizationID : UUID;
  snap_TrunkID : option UUID;
  snap_Direction : Direction;
  snap_State : State;
  snap_MediaState : MediaState;
  snap_AnsweredAt : option Z;
}.
Definition snapshot (c : Call) : LifecycleSnapshot := {|
  snap_OrganizationID := OrganizationID c; snap_TrunkID := TrunkID c;
  snap_Direction := CallDirection c; snap_State := CallState c;
  snap_MediaState := CallMediaState c; snap_AnsweredAt := AnsweredAt c |}.
Definition GetCallLifecycleSnapshot (id : UUID) (d : DB) : result LifecycleSnapshot :=
  match calls d !! id with Some c => inl (snapshot c) | None => no_rows end.

(** [ORDER BY created_at]; rows of equal times come in the order of the map. *)
Definition created_le (a b : Call) : Prop := CreatedAt a <= CreatedAt b.
#[export] Instance created_le_dec : RelDecision created_le.
Proof. intros a b. unfold created_le. apply _. Defined.
Definition created_ge (a b : Call) : Prop := CreatedAt b <= CreatedAt a.
#[export] Instance created_ge_dec : RelDecision created_ge.
Proof. intros a b. unfold created_ge. apply _. Defined.

(** [state]: the text the caller compares the state with, none for any. *)
Definition ListCalls (org : UUID) (state_matches : State -> bool) (offset limit : Z) (d : DB)
    : list Call :=
  take (Z.to_nat limit) (drop (Z.to_nat offset)
    (merge_sort created_ge
      (filter (fun c => OrganizationID c = org /\ state_matches (CallState c) = true)
         (snd <$> map_to_list (calls d))))).

Definition ListActiveCallsForAdmissionReconciliation (d : DB) : list (UUID * option UUID) :=
  (fun c => (ID c, TrunkID c)) <$>
    merge_sort created_le
      (filter (fun c => is_terminal (CallState c) = false /\ is_Some (TrunkID c))
         (snd <$> map_to_list (calls d))).

Definition SetCallRouteAttribution (org id : UUID) (trunk endpoint : option UUID)
    : DB -> result (Call * DB) :=
  update_call org id (fun _ => true) (with_route trunk endpoint).
Definition SetOutboundCallSIPCallID (org id : UUID) (sip : string) : DB -> result (Call * DB) :=
  update_call org id
    (fun c => bool_decide (CallDirection c = DirectionOutbound) &&
              match SipCallID c with None => true | Some s => bool_decide (s = sip) end)
    (with_sip (Some sip)).

(** A state change that keeps the answer and end times. *)
Definition move (s : State) (c : Call) : Call :=
  with_state s (AnsweredAt c) (EndedAt c) (HangupReason c) c.
Definition coalesce {A} (a b : option A) : option A := match a with Some _ => a | None => b end.
Definition finish (s : State) (reason : option string) (c : Call) : Call :=
  with_state s (AnsweredAt c) (coalesce (EndedAt c) (Some now)) (coalesce reason (HangupReason c)) c.

Definition MarkCallRinging (org id : UUID) : DB -> result (Call * DB) :=
  update_call org id (state_in [StateInitiating]) (move StateRinging).
Definition MarkCallAnswered (org id : UUID) : DB -> result (Call * DB) :=
  update_call org id (state_in [StateInitiating; StateRinging])
    (fun c => with_state StateAnswered (coalesce (AnsweredAt c) (Some now)) (EndedAt c)
                (HangupReason c) c).
Definition MarkCallActive (org id : UUID) : DB -> result (Call * DB) :=
  update_call org id (state_in [StateAnswered; StateRinging]) (move StateActive).
Definition MarkCallHeld (org id : UUID) : DB -> result (Call * DB) :=
  update_call org id
    (fun c => state_in [StateAnswered; StateActive] c && bool_decide (CallMediaState c = MediaStateActive))
    (with_media MediaStateHeld).
Definition MarkCallResumed (org id : UUID) : DB -> result (Call * DB) :=
  update_call org id
    (fun c => state_in [StateAnswered; StateActive] c && bool_decide (CallMediaState c = MediaStateHeld))
    (with_media MediaStateActive).
Definition MarkCallCompleted (org id : UUID) (reason : option string) : DB -> result (Call * DB) :=
  update_call org id (fun c => negb (is_terminal (CallState c))) (finish StateCompleted reason).
Definition MarkCallFailed (org id : UUID) (reason : option string) : DB -> result (Call * DB) :=
  update_call org id (fun c => negb (is_terminal (CallState c))) (finish StateFailed reason).
Definition MarkCallCancelled (org id : UUID) (reason : option string) : DB -> result (Call * DB) :=
  update_call org id (state_in [StateInitiating; StateRinging]) (finish StateCancelled reason).

(** [outbox.Repository.Insert] of the event of a mutation. *)
Definition InsertCallEvent (subject : string) (c : Call) (d : DB) : DB :=
  {| calls := calls d;
     events := events d ++ [{| ev_Subject := subject; ev_AggregateID := ID c;
                               ev_OrganizationID := OrganizationID c; ev_Resource := c;
                               ev_OccurredAt := now |}] |}.
End Queries.

(** ** Repository

    The state of the caller holds a database, a clock, a supply of identifiers and
    the failures to come. *)
Class HasDB (W : Type) : Type := {
  db_faults :: HasFaults W;
  get_db : W -> DB;
  set_db : DB -> W -> W;
  db_now : W -> Z;
  fresh_id : W -> UUID;
  next_id : W -> W;
}.

Section Repository.
Context {W : Type} {HW : HasDB W}.

Definition query {A} (f : Z -> DB -> result A) : M W A :=
  ext (fun w => (f (db_now w) (get_db w), w)).
(** A single statement outside a transaction. *)
Definition exec (f : Z -> DB -> result (Call * DB)) : M W Call :=
  ext (fun w => match f (db_now w) (get_db w) with
                | inl (c, d) => (inl c, set_db d w)
                | inr e => (inr e, w)
                end).

(** [mutate]: the transaction works on its own copy, which the commit installs. *)
Definition mutate (eventType : string) (mutation : UUID -> Z -> DB -> result (Call * DB))
    : M W Call :=
  wrap (Wrapf "begin call transaction: %w" []) (ext (ret tt));;
  let! id := fun w => (inl (fresh_id w), next_id w) in
  let! ' (c, d) := ext (fun w => (mutation id (db_now w) (get_db w), w)) in
  let! d' := wrap (Wrapf "insert call outbox event: %w" [])
    (ext (fun w => (inl (InsertCallEvent (db_now w) eventType c d), w))) in
  wrap (Wrapf "commit call transaction: %w" []) (ext (modify (set_db d')));;
  ret c.

Record CreateRequest := {
  cr_VoiceAgentID : option UUID;
  cr_TrunkID : option UUID;
  cr_FromURI : string;
  cr_ToURI : string;
  cr_Privacy : bool;
  cr_DTMFMode : string;
  cr_MediaEncryption : string;
  cr_Direction : Direction;
  cr_SIPCallID : option string;
}.
Record InboundAdmissionRequest := {
  in_ChannelID : string;
  in_SIPCallID : string;
  in_OrganizationID : UUID;
  in_VoiceAgentID : UUID;
  in_PhoneNumberID : UUID;
  in_VoiceAgentBindingID : UUID;
  in_TrunkID : UUID;
  in_FromURI : string;
  in_ToURI : string;
  in_OccurredAt : Z;
}.
Record RouteAttribution := { ra_TrunkID : option UUID; ra_TrunkEndpointID : option UUID }.

Definition Repo_Create (org : UUID) (req : CreateRequest) : M W Call :=
  mutate "call.initiated" (fun id now =>
    CreateCall now id org (cr_VoiceAgentID req) (cr_Direction req) None (cr_FromURI req)
      (cr_ToURI req) (cr_SIPCallID req)).
Definition Repo_CreateInbound (req : InboundAdmissionRequest) : M W Call :=
  mutate "call.ringing" (fun id now =>
    CreateCall now id (in_OrganizationID req) (Some (in_VoiceAgentID req)) DirectionInbound
      (Some StateRinging) (in_FromURI req) (in_ToURI req) (Some (in_SIPCallID req))).
Definition BindOutboundSIPCallID (org id : UUID) (sip : string) : M W unit :=
  exec (fun now => SetOutboundCallSIPCallID now org id sip);; ret tt.
Definition GetBySIPCallIDGlobal (sip : string) : M W Call :=
  query (fun _ => GetCallBySIPCallIDGlobal sip).
Definition Repo_Get (org id : UUID) : M W Call := query (fun _ => GetCall org id).
Definition GetLifecycleSnapshot (id : UUID) : M W LifecycleSnapshot :=
  query (fun _ => GetCallLifecycleSnapshot id).
Definition ListActiveForAdmissionReconciliation : M W (list (UUID * UUID)) :=
  let! rows := query (fun _ d => inl (ListActiveCallsForAdmissionReconciliation d)) in
  ret (omap (fun '(id, t) => (fun t => (id, t)) <$> t) rows).
Definition Repo_List (org : UUID) (state_matches : State -> bool) (offset limit : Z)
    : M W (list Call) :=
  query (fun _ d => inl (ListCalls org state_matches offset limit d)).
Definition Repo_SetRouteAttribution (org id : UUID) (route : RouteAttribution) : M W Call :=
  exec (fun now => SetCallRouteAttribution now org id (ra_TrunkID route) (ra_TrunkEndpointID route)).

Definition Repo_MarkRinging (org id : UUID) : M W Call :=
  mutate "call.ringing" (fun _ now => MarkCallRinging now org id).
Definition Repo_MarkAnswered (org id : UUID) : M W Call :=
  mutate "call.answered" (fun _ now => MarkCallAnswered now org id).
Definition Repo_MarkActive (org id : UUID) : M W Call :=
  mutate "call.active" (fun _ now => MarkCallActive now org id).
Definition Repo_MarkHeld (org id : UUID) : M W Call :=
  mutate "call.held" (fun _ now => MarkCallHeld now org id).
Definition Repo_MarkResumed (org id : UUID) : M W Call :=
  mutate "call.resumed" (fun _ now => MarkCallResumed now org id).
Definition Repo_MarkCompleted (org id : UUID) (reason : option string) : M W Call :=
  mutate "call.completed" (fun _ now => MarkCallCompleted now org id reason).
Definition Repo_MarkFailed (org id : UUID) (reason : option string) : M W Call :=
  mutate "call.failed" (fun _ now => MarkCallFailed now org id reason).
Definition Repo_MarkCancelled (org id : UUID) (reason : option string) : M W Call :=
  mutate "call.cancelled" (fun _ now => MarkCallCancelled now org id reason).
End Repository.

(** ** The call state machine *)

(** What an event of the call may change. *)
Definition phase (c : Call) : State * MediaState := (CallState c, CallMediaState c).
Inductive edge : State * MediaState -> State * MediaState -> Prop :=
| edge_ringing m : edge (StateInitiating, m) (StateRinging, m)
| edge_answered s m : s = StateInitiating \/ s = StateRinging -> edge (s, m) (StateAnswered, m)
| edge_active s m : s = StateAnswered \/ s = StateRinging -> edge (s, m) (StateActive, m)
| edge_held s : s = StateAnswered \/ s = StateActive ->
    edge (s, MediaStateActive) (s, MediaStateHeld)
| edge_resumed s : s = StateAnswered \/ s = StateActive ->
    edge (s, MediaStateHeld) (s, MediaStateActive)
| edge_completed s m : is_terminal s = false -> edge (s, m) (StateCompleted, m)
| edge_failed s m : is_terminal s = false -> edge (s, m) (StateFailed, m)
| edge_cancelled s m : s = StateInitiating \/ s = StateRinging -> edge (s, m) (StateCancelled, m).

(** The phase of a new call. *)
Definition initial (p : State * MediaState) : Prop :=
  p = (StateInitiating, MediaStateActive) \/ p = (StateRinging, MediaStateActive).

(** A path of the state machine from a new call to [p]. *)
Inductive history : list (State * MediaState) -> State * MediaState -> Prop :=
| history_new p : initial p -> history [p] p
| history_step l p p' : history l p -> edge p p' -> history (l ++ [p']) p'.

(** What holds of every stored call. *)
Record call_ok (id : UUID) (c : Call) : Prop := {
  ok_id : ID c = id;
  ok_ended : is_terminal (CallState c) = true <-> is_Some (EndedAt c);
  ok_answered : CallState c = StateAnswered -> is_Some (AnsweredAt c);
  ok_early : CallState c = StateInitiating \/ CallState c = StateRinging ->
             AnsweredAt c = None /\ CallMediaState c = MediaStateActive;
  ok_started : StartedAt c = None;
}.

(** The events of one call, in the order they were written. *)
Definition events_of (id : UUID) (d : DB) : list Event :=
  filter (fun e => ev_AggregateID e = id) (events d).

Record db_ok (d : DB) : Prop := {
  ok_calls : map_Forall call_ok (calls d);
  ok_history : map_Forall (fun id c => history (phase ∘ ev_Resource <$> events_of id d) (phase c))
                 (calls d);
  ok_owner : Forall (fun e => is_Some (calls d !! ev_AggregateID e)) (events d);
  ok_sip : forall i j c c' sip, calls d !! i = Some c -> calls d !! j = Some c' ->
           SipCallID c = Some sip -> SipCallID c' = Some sip -> i = j;
}.

(** The mutations [mutate] runs, with the subject of their event. *)
Inductive mutation : string -> (UUID -> Z -> DB -> result (Call * DB)) -> Prop :=
| m_create org agent dir from to sip :
    mutation "call.initiated" (fun id now => CreateCall now id org agent dir None from to sip)
| m_create_inbound org agent from to sip :
    mutation "call.ringing"
      (fun id now => CreateCall now id org agent DirectionInbound (Some StateRinging) from to sip)
| m_ringing org id : mutation "call.ringing" (fun _ now => MarkCallRinging now org id)
| m_answered org id : mutation "call.answered" (fun _ now => MarkCallAnswered now org id)
| m_active org id : mutation "call.active" (fun _ now => MarkCallActive now org id)
| m_held org id : mutation "call.held" (fun _ now => MarkCallHeld now org id)
| m_resumed org id : mutation "call.resumed" (fun _ now => MarkCallResumed now org id)
| m_completed org id reason :
    mutation "call.completed" (fun _ now => MarkCallCompleted now org id reason)
| m_failed org id reason : mutation "call.failed" (fun _ now => MarkCallFailed now org id reason)
| m_cancelled org id reason :
    mutation "call.cancelled" (fun _ now => MarkCallCancelled now org id reason).

(** A committed statement or transaction. [id] is unused by updates. *)
Inductive db_step : DB -> DB -> Prop :=
| step_mutation subject f id now d c d' :
    mutation subject f -> calls d !! id = None -> f id now d = inl (c, d') ->
    db_step d (InsertCallEvent now subject c d')
| step_route now org id trunk endpoint d c d' :
    SetCallRouteAttribution now org id trunk endpoint d = inl (c, d') -> db_step d d'
| step_sip now org id sip d c d' :
    SetOutboundCallSIPCallID now org id sip d = inl (c, d') -> db_step d d'.

Lemma update_call_inv now org id guard f d c' d' :
  update_call now org id guard f d = inl (c', d') ->
  exists c, calls d !! id = Some c /\ OrganizationID c = org /\ guard c = true /\
    c' = touch now (f c) /\ sip_taken d id (SipCallID c') = false /\
    d' = set_calls (<[id := c']> (calls d)) d.
Proof.
  unfold update_call. destruct (calls d !! id) as [c|] eqn:E; [|done].
  destruct (bool_decide_reflect (OrganizationID c = org)); simpl; [|done].
  destruct (guard c) eqn:G; [|done]. destruct (sip_taken _ _ _) eqn:S; [done|].
  intros [= <- <-]. by exists c.
Qed.

Lemma sip_taken_false d id sip :
  sip_taken d id (Some sip) = false <->
  forall j c, calls d !! j = Some c -> SipCallID c = Some sip -> j = id.
Proof.
  unfold sip_taken. rewrite <- not_true_iff_false, existsb_exists. split.
  - intros Hn j c Hj Hs. destruct (decide (j = id)) as [|Hne]; [done|]. destruct Hn.
    exists (j, c). split.
    + by apply list_elem_of_In, elem_of_map_to_list.
    + rewrite bool_decide_false, bool_decide_true by done. done.
  - intros H ([j c] & Hin & Hb). apply list_elem_of_In, elem_of_map_to_list in Hin.
    apply andb_true_iff in Hb as [Hb1 Hb2]. apply bool_decide_eq_true in Hb2.
    rewrite negb_true_iff, bool_decide_eq_false in Hb1. eauto.
Qed.

Lemma edge_source p p' : edge p p' -> is_terminal p.1 = false.
Proof. intros He. destruct He as [m|s m H|s m H|s H|s H|s m H|s m H|s m H]; simpl; try done; by destruct H; subst. Qed.

Lemma history_snoc_inv l p : history l p ->
  exists l', l = l' ++ [p] /\ Forall (fun q => is_terminal q.1 = false) l'.
Proof.
  intros Hh. induction Hh as [p _|l p p' _ (l' & -> & IH) He]; [by exists []; split|].
  exists (l' ++ [p]). split; [done|]. apply Forall_app. split; [done|].
  constructor; [by eapply edge_source|constructor].
Qed.

(** What a mutation does to the table: a new row, or one row along an edge. *)
Inductive mutation_effect (id : UUID) (d : DB) (c : Call) : DB -> Prop :=
| effect_new :
    initial (phase c) -> call_ok id c -> sip_taken d id (SipCallID c) = false ->
    mutation_effect id d c (set_calls (<[id := c]> (calls d)) d)
| effect_edge i c0 :
    calls d !! i = Some c0 -> edge (phase c0) (phase c) -> (call_ok i c0 -> call_ok i c) ->
    OrganizationID c = OrganizationID c0 -> sip_taken d i (SipCallID c) = false ->
    mutation_effect id d c (set_calls (<[i := c]> (calls d)) d).

Lemma state_in_2 a b c : state_in [a; b] c = true -> CallState c = a \/ CallState c = b.
Proof.
  unfold state_in. rewrite bool_decide_eq_true, elem_of_cons, list_elem_of_singleton. done.
Qed.

Lemma mutation_effect_of subject f id now d c d' :
  mutation subject f -> f id now d = inl (c, d') -> mutation_effect id d c d'.
Proof.
  intros Hm Hf.
  assert (Hnew : forall org agent dir st from to sip,
    (default StateInitiating st = StateInitiating \/ default StateInitiating st = StateRinging) ->
    CreateCall now id org agent dir st from to sip d = inl (c, d') -> mutation_effect id d c d').
  { intros org agent dir st from to sip Hst. unfold CreateCall.
    destruct (sip_taken d id sip) eqn:E; [done|]. intros [= <- <-]. constructor; simpl.
    - unfold phase, initial. simpl. destruct Hst as [->| ->]; auto.
    - split; simpl; try done.
      + split; [destruct Hst as [->| ->]; done|]. intros []. done.
      + destruct Hst as [->| ->]; done.
    - done. }
  destruct Hm; simpl in Hf; try (eapply Hnew; [|exact Hf]; simpl; by auto);
    apply update_call_inv in Hf as (c0 & Hc0 & Horg & Hg & -> & Hsip & ->);
    apply (effect_edge id d _ _ c0); try done; clear Hnew Hsip.
  all: try (apply andb_true_iff in Hg as [Hg Hmed]; apply bool_decide_eq_true in Hmed).
  all: try (apply state_in_2 in Hg).
  all: try (apply negb_true_iff in Hg).
  all: try (unfold state_in in Hg; apply bool_decide_eq_true, list_elem_of_singleton in Hg).
  all: destruct c0 as [? ? ? ? ? ? st md ? ? ? ? aa ea hr ? ?]; unfold phase, finish, move; simpl in *.
  all: try (subst; constructor; done).
  all: intros [H1 H2 H3 H4 H5]; simpl in *.
  all: split; simpl; try done.
  all: destruct st; try done; try (by destruct Hg); clear Hg Hc0.
  all: destruct aa, ea; simpl in *; try done; try (by split; eauto); try (by intros []); try tauto.
  all: intuition (try done).
Qed.

Lemma events_of_unknown d id :
  db_ok d -> calls d !! id = None -> events_of id d = [].
Proof.
  intros Hok Hid. pose proof (ok_owner d Hok) as Ho. unfold events_of.
  induction (events d) as [|e l IH]; [done|]. apply Forall_cons in Ho as [[c Hc] Ho].
  rewrite filter_cons_False; [by apply IH|]. intros <-. congruence.
Qed.

(** Replacing one row by one whose SIP identity no other row has. *)
Lemma sip_insert d i c :
  db_ok d -> sip_taken d i (SipCallID c) = false ->
  forall j k cj ck sip, <[i := c]> (calls d) !! j = Some cj -> <[i := c]> (calls d) !! k = Some ck ->
  SipCallID cj = Some sip -> SipCallID ck = Some sip -> j = k.
Proof.
  intros Hok Hs j k cj ck sip Hj Hk Hsj Hsk.
  assert (Hfree : forall l cl, <[i := c]> (calls d) !! l = Some cl -> SipCallID cl = SipCallID c ->
    is_Some (SipCallID c) -> l = i).
  { intros l cl Hl Hsl [x Hx]. destruct (decide (l = i)) as [|Hne]; [done|].
    rewrite lookup_insert_ne in Hl by done. rewrite Hx in Hs.
    apply (proj1 (sip_taken_false d i x) Hs l cl Hl). congruence. }
  apply lookup_insert_Some in Hj as [[<- <-]|[Hij Hj]].
  - symmetry. apply (Hfree k ck); [done|congruence|by eexists].
  - apply lookup_insert_Some in Hk as [[<- <-]|[Hik Hk]].
    + apply (Hfree j cj); [by rewrite lookup_insert_ne|congruence|by eexists].
    + by apply (ok_sip d Hok j k cj ck sip).
Qed.

Lemma events_of_app m d evs id :
  events_of id {| calls := m; events := events d ++ evs |}
  = events_of id d ++ filter (fun e => ev_AggregateID e = id) evs.
Proof. unfold events_of. simpl. by rewrite filter_app. Qed.

(** One row is written, with the events [evs] of that row. *)
Lemma write_row_ok d i c evs :
  db_ok d -> call_ok i c -> sip_taken d i (SipCallID c) = false ->
  Forall (fun e => ev_AggregateID e = i) evs ->
  history (phase ∘ ev_Resource <$> (events_of i d ++ evs)) (phase c) ->
  db_ok {| calls := <[i := c]> (calls d); events := events d ++ evs |}.
Proof.
  intros Hok Hc Hsip Hevs Hh. split; simpl.
  - apply map_Forall_insert_2; [done|apply ok_calls, Hok].
  - intros j cj Hj. rewrite events_of_app. apply lookup_insert_Some in Hj as [[<- <-]|[Hij Hj]].
    + by rewrite (list_filter_all _ evs).
    + rewrite (list_filter_none _ evs); [rewrite app_nil_r; by apply (ok_history d Hok)|].
      eapply Forall_impl; [exact Hevs|]. intros e. simpl. congruence.
  - assert (Hin : forall j, is_Some (calls d !! j) \/ j = i -> is_Some (<[i := c]> (calls d) !! j)).
    { intros j. intros [Hj| ->]; [|by rewrite lookup_insert_eq].
      rewrite lookup_insert_is_Some. destruct (decide (i = j)); auto. }
    apply Forall_app. split; (eapply Forall_impl; [first [exact (ok_owner d Hok)|exact Hevs]|]);
      intros e He; apply Hin; auto.
  - by apply sip_insert.
Qed.

Lemma step_db_ok d d' : db_step d d' -> db_ok d -> db_ok d'.
Proof.
  intros Hst Hok.
  assert (Hroute : forall now org id guard f c, update_call now org id guard f d = inl (c, d') ->
    (forall c0, phase (touch now (f c0)) = phase c0) ->
    (forall c0, call_ok id c0 -> call_ok id (touch now (f c0))) -> db_ok d').
  { intros now org id guard f c Hf Hp Hk.
    apply update_call_inv in Hf as (c0 & Hc0 & _ & _ & -> & Hsip & ->).
    unfold set_calls. rewrite <- (app_nil_r (events d)).
    apply write_row_ok; [done|by apply Hk, (ok_calls d Hok)|done|constructor|].
    rewrite app_nil_r, Hp. by apply (ok_history d Hok). }
  destruct Hst as [subject f id now d c d' Hm Hid Hf|now org id trunk ep d c d' Hf|now org id sip d c d' Hf].
  - clear Hroute. apply (mutation_effect_of _ _ _ _ _ _ _ Hm) in Hf.
    destruct Hf as [Hinit Hcok Hsip|i c0 Hc0 He Hcok Horg Hsip];
      [|specialize (Hcok (ok_calls d Hok i c0 Hc0))];
      pose proof (ok_id _ _ Hcok) as Hidc; apply (write_row_ok d _ c [_]); simpl; try done.
    1, 3: by repeat constructor.
    + rewrite (events_of_unknown _ _ Hok Hid). by constructor.
    + rewrite fmap_app. econstructor; [by apply (ok_history d Hok)|done].
  - eapply Hroute; [exact Hf|done|]. intros c0 [H1 H2 H3 H4 H5]. by split.
  - eapply Hroute; [exact Hf|done|]. intros c0 [H1 H2 H3 H4 H5]. by split.
Qed.

Definition empty_db : DB := {| calls := ∅; events := [] |}.

Lemma reachable_db_ok d : rtc db_step empty_db d -> db_ok d.
Proof.
  apply rtc_invariant; [|apply step_db_ok]. split; simpl;
    [apply map_Forall_empty|apply map_Forall_empty|constructor|]. intros i j c c' sip Hi.
  by rewrite lookup_empty in Hi.
Qed.

(** C2: the outbox tells the life of every call. Whatever statements are
    committed, the events of a call, in order, are a path of the call state
    machine from its creation to its present state; once a call is terminal its
    last event says so and no other event of the call is terminal. *)
Theorem outbox_tells_call_history d id c :
  rtc db_step empty_db d -> calls d !! id = Some c ->
  history (phase ∘ ev_Resource <$> events_of id d) (phase c) /\
  (is_terminal (CallState c) = true ->
   exists l, phase ∘ ev_Resource <$> events_of id d = l ++ [phase c] /\
             Forall (fun p => is_terminal p.1 = false) l).
Proof.
  intros Hr Hc. pose proof (ok_history d (reachable_db_ok d Hr) id c Hc) as Hh.
  split; [done|]. intros _. by apply history_snoc_inv.
Qed.

Lemma final_terminal d d' id c :
  rtc db_step d d' -> calls d !! id = Some c -> is_terminal (CallState c) = true ->
  exists c', calls d' !! id = Some c' /\ CallState c' = CallState c /\
             EndedAt c' = EndedAt c /\ HangupReason c' = HangupReason c.
Proof.
  intros Hr. revert c. induction Hr as [d|d d1 d' Hst _ IH]; intros c Hc Ht; [by exists c|].
  assert (exists c1, calls d1 !! id = Some c1 /\ CallState c1 = CallState c /\
            EndedAt c1 = EndedAt c /\ HangupReason c1 = HangupReason c) as (c1 & Hc1 & Hs & He & Hh).
  { destruct Hst as [subject f i now d c2 d1 Hm Hi Hf|now org i trunk ep d c2 d1 Hf|now org i sip d c2 d1 Hf].
    - apply (mutation_effect_of _ _ _ _ _ _ _ Hm) in Hf.
      destruct Hf as [_ _ _|j c0 Hc0 Hedge _ _ _]; simpl.
      + exists c. rewrite lookup_insert_ne by congruence. done.
      + destruct (decide (j = id)) as [->|Hne]; [|exists c; by rewrite lookup_insert_ne].
        assert (c0 = c) as -> by congruence. apply edge_source in Hedge. simpl in Hedge. congruence.
    - apply update_call_inv in Hf as (c0 & Hc0 & _ & _ & -> & _ & ->). simpl.
      destruct (decide (i = id)) as [->|Hne]; [|exists c; by rewrite lookup_insert_ne].
      assert (c0 = c) as -> by congruence. eexists. rewrite lookup_insert_eq. done.
    - apply update_call_inv in Hf as (c0 & Hc0 & _ & _ & -> & _ & ->). simpl.
      destruct (decide (i = id)) as [->|Hne]; [|exists c; by rewrite lookup_insert_ne].
      assert (c0 = c) as -> by congruence. eexists. rewrite lookup_insert_eq. done. }
  destruct (IH c1 Hc1) as (c' & ? & ? & ? & ?); [congruence|]. exists c'. split_and!; congruence.
Qed.

(** terminal states are final: nothing committed later changes the state, the
    end time or the hangup reason of a terminal call, or removes it. *)
Theorem terminal_is_final d d' id c :
  rtc db_step d d' -> calls d !! id = Some c -> is_terminal (CallState c) = true ->
  exists c', calls d' !! id = Some c' /\ CallState c' = CallState c /\
             EndedAt c' = EndedAt c /\ HangupReason c' = HangupReason c.
Proof. apply final_terminal. Qed.

(** ** The repository over any state that holds a database *)

Class HasDBLaws (W : Type) {HW : HasDB W} : Prop := {
  get_set_db : forall d w, get_db (set_db d w) = d;
  get_next_db : forall w, get_db (next_id w) = get_db w;
  get_faults_db : forall fs w, get_db (set_faults (HasFaults := db_faults) fs w) = get_db w;
  now_next : forall w, db_now (next_id w) = db_now w;
  now_faults : forall fs w, db_now (set_faults (HasFaults := db_faults) fs w) = db_now w;
  fresh_next : forall w, fresh_id (next_id w) = fresh_id w + 1;
  fresh_set_db : forall d w, fresh_id (set_db d w) = fresh_id w;
  fresh_faults : forall fs w, fresh_id (set_faults (HasFaults := db_faults) fs w) = fresh_id w;
}.
#[export] Existing Instance db_faults.

Section RepositoryLaws.
Context {W : Type} {HW : HasDB W} {HL : HasDBLaws W}.

Lemma ext_pure {A} (f : W -> result A) w r w' :
  ext (fun w => (f w, w)) w = (r, w') ->
  (exists fs, w' = w \/ w' = set_faults fs w) /\ (forall a, r = inl a -> f w' = inl a).
Proof.
  unfold ext. destruct (get_faults w) as [|[|e|e] fs]; intros [= <- <-];
    (split; [first [by exists []; left|by exists fs; right]|done]).
Qed.

(** The database is as [w] has it, up to the script and the identifiers used. *)
Definition same_db (w w' : W) : Prop :=
  get_db w' = get_db w /\ db_now w' = db_now w /\ fresh_id w <= fresh_id w'.

Lemma same_db_faults w fs : same_db w (set_faults fs w).
Proof.
  unfold same_db. rewrite get_faults_db, now_faults, fresh_faults. split_and!; [done|done|lia].
Qed.
Lemma same_db_refl w : same_db w w.
Proof. unfold same_db. split_and!; [done|done|lia]. Qed.
Lemma same_db_trans w1 w2 w3 : same_db w1 w2 -> same_db w2 w3 -> same_db w1 w3.
Proof. unfold same_db. intros (?&?&?) (?&?&?). split_and!; [congruence|congruence|lia]. Qed.
Lemma same_db_pure {A} (f : W -> result A) w r w' :
  ext (fun w => (f w, w)) w = (r, w') -> same_db w w'.
Proof.
  intros [[fs [->| ->]] _]%ext_pure; [apply same_db_refl|apply same_db_faults].
Qed.

(** The run of [mutate], in the words of the theorem below; an identifier is used
    whenever something is committed. *)
Lemma mutate_run subject f w r w' :
  mutate subject f w = (r, w') ->
  let committed c d := f (fresh_id w) (db_now w) (get_db w) = inl (c, d) /\
                       get_db w' = InsertCallEvent (db_now w) subject c d /\
                       fresh_id w < fresh_id w' in
  match r with
  | inl c => exists d, committed c d
  | inr e => (get_db w' = get_db w /\ fresh_id w <= fresh_id w') \/
             exists c d e', committed c d /\ e = Wrapf "commit call transaction: %w" [] e'
  end.
Proof.
  intros Hm. cbv zeta. unfold mutate in Hm. unfold bind at 1 in Hm. unfold wrap at 1 in Hm.
  destruct (ext (ret tt) w) as [r1 w1] eqn:E1.
  pose proof (same_db_pure (fun _ => inl tt) _ _ _ E1) as S1. destruct r1 as [u|e].
  2: { injection Hm as <- <-. left. split; apply S1. }
  assert (F1 : fresh_id w1 = fresh_id w).
  { apply (ext_pure (fun _ => inl tt)) in E1 as [[fs [->| ->]] _]; [done|apply fresh_faults]. }
  unfold bind at 1 in Hm. cbv beta in Hm. cbv iota in Hm.
  unfold bind at 1 in Hm.
  destruct (ext (fun w0 => (f (fresh_id w1) (db_now w0) (get_db w0), w0)) (next_id w1))
    as [r2 w2] eqn:E2.
  pose proof (same_db_pure _ _ _ _ E2) as S2.
  apply (ext_pure (fun w0 => f (fresh_id w1) (db_now w0) (get_db w0))) in E2 as [_ V2].
  assert (S12 : same_db w w2 /\ fresh_id w < fresh_id w2).
  { unfold same_db in *. rewrite get_next_db, now_next, fresh_next in S2.
    destruct_and?. split_and!; congruence || lia. }
  destruct S12 as ((D2 & N2 & _) & F2).
  destruct r2 as [[c d]|e]; [|injection Hm as <- <-; left; split; [done|lia]].
  specialize (V2 (c, d) eq_refl). rewrite D2, N2, F1 in V2.
  unfold bind at 1 in Hm. unfold wrap at 1 in Hm.
  destruct (ext (fun w0 => (inl (InsertCallEvent (db_now w0) subject c d), w0)) w2)
    as [r3 w3] eqn:E3.
  pose proof (same_db_pure _ _ _ _ E3) as (D3 & N3 & F3).
  apply (ext_pure (fun w0 => inl (InsertCallEvent (db_now w0) subject c d))) in E3 as [_ V3].
  destruct r3 as [d'|e]; [|injection Hm as <- <-; left; split; [congruence|lia]].
  specialize (V3 d' eq_refl). injection V3 as V3. rewrite N3, N2 in V3.
  unfold bind, wrap, ext, modify in Hm.
  destruct (get_faults w3) as [|[|e|e] fs]; injection Hm as <- <-;
    rewrite ?get_set_db, ?get_faults_db, ?fresh_set_db, ?fresh_faults.
  - exists d. split_and!; [done..|lia].
  - exists d. split_and!; [done..|lia].
  - left. split; [congruence|lia].
  - right. exists c, d, e. split_and!; [done..|lia|done].
Qed.

(** a mutation and its event are committed together or not at all. A result
    means that both are there; an error means that neither is, unless it is the
    commit itself that was reported as failed after it took effect. A mutation
    that the row's state refuses writes no event. *)
Theorem mutate_atomic subject f w r w' :
  mutate subject f w = (r, w') ->
  let committed c d := f (fresh_id w) (db_now w) (get_db w) = inl (c, d) /\
                       get_db w' = InsertCallEvent (db_now w) subject c d in
  match r with
  | inl c => exists d, committed c d
  | inr e => get_db w' = get_db w \/
             exists c d e', committed c d /\ e = Wrapf "commit call transaction: %w" [] e'
  end.
Proof.
  intros Hm%mutate_run. cbv zeta in *. destruct r as [c|e]; [destruct Hm as (d & ? & ? & _)|]; eauto.
  destruct Hm as [[? _]|(c & d & e' & (? & ? & _) & ?)]; [by left|]. right. by exists c, d, e'.
Qed.

(** A state reached from the database [d0] by committed statements, whose supply
    of identifiers is fresh. *)
Definition reaches (d0 : DB) (w : W) : Prop :=
  rtc db_step d0 (get_db w) /\
  forall id, is_Some (calls (get_db w) !! id) -> id < fresh_id w.

Lemma mutation_ids subject f id now d c d' :
  mutation subject f -> f id now d = inl (c, d') ->
  forall j, is_Some (calls d' !! j) -> is_Some (calls d !! j) \/ j = id.
Proof.
  intros Hm Hf j. destruct (mutation_effect_of _ _ _ _ _ _ _ Hm Hf) as [_ _ _|i c0 Hi _ _ _ _];
    simpl; rewrite lookup_insert_is_Some'; intuition (subst; eauto).
Qed.

Lemma keeps_mutate d0 subject f : mutation subject f -> keeps (reaches d0) (mutate subject f).
Proof.
  intros Hmut w [Hr Hids]. destruct (mutate subject f w) as [r w'] eqn:Hm. simpl.
  assert (Hdone : forall c d, f (fresh_id w) (db_now w) (get_db w) = inl (c, d) ->
    get_db w' = InsertCallEvent (db_now w) subject c d -> fresh_id w < fresh_id w' -> reaches d0 w').
  { intros c d Hf Hd Hfr. split.
    - eapply rtc_r; [exact Hr|]. rewrite Hd. econstructor; [done| |exact Hf].
      apply eq_None_not_Some. intros Hi%Hids. lia.
    - intros id. rewrite Hd. simpl. intros Hi.
      apply (mutation_ids _ _ _ _ _ _ _ Hmut Hf) in Hi as [Hi| ->]; [|done].
      apply Hids in Hi. lia. }
  apply mutate_run in Hm. cbv zeta in Hm.
  destruct r as [c|e]; [destruct Hm as (d & ? & ? & ?); by eapply Hdone|].
  destruct Hm as [[Hd Hfr]|(c & d & e' & (? & ? & ?) & _)]; [|by eapply Hdone].
  split; [by rewrite Hd|]. rewrite Hd. intros id Hi%Hids. lia.
Qed.

Lemma reaches_faults d0 fs w : reaches d0 w -> reaches d0 (set_faults fs w).
Proof. unfold reaches. by rewrite get_faults_db, fresh_faults. Qed.

Lemma keeps_exec d0 now_stmt :
  (forall now d c d', now_stmt now d = inl (c, d') -> db_step d d' /\
     forall j, is_Some (calls d' !! j) -> is_Some (calls d !! j)) ->
  keeps (reaches d0) (exec now_stmt).
Proof.
  intros Hst w Hw. unfold exec. apply (ext_preserves (reaches d0)); [apply reaches_faults| |done].
  clear w Hw. intros w [Hr Hids]. destruct (now_stmt _ _) as [[c d]|e] eqn:E; [|done]. simpl.
  apply Hst in E as [E1 E2]. unfold reaches. rewrite get_set_db, fresh_set_db.
  split; [by eapply rtc_r|]. eauto.
Qed.
Lemma keeps_query {A} d0 (f : Z -> DB -> result A) : keeps (reaches d0) (query f).
Proof.
  intros w Hw. unfold query. apply (ext_preserves (reaches d0)); [apply reaches_faults|done|done].
Qed.

Lemma update_call_ids now org id guard f d c d' j :
  update_call now org id guard f d = inl (c, d') -> is_Some (calls d' !! j) -> is_Some (calls d !! j).
Proof.
  intros (c0 & Hc0 & _ & _ & _ & _ & ->)%update_call_inv. simpl.
  rewrite lookup_insert_is_Some'. intros [<-|?]; eauto.
Qed.
Lemma keeps_SetRouteAttribution d0 org id route :
  keeps (reaches d0) (Repo_SetRouteAttribution org id route).
Proof.
  apply keeps_exec. intros now d c d' H. split; [by eapply step_route|].
  intros j. by eapply update_call_ids.
Qed.
Lemma keeps_BindOutboundSIPCallID d0 org id sip :
  keeps (reaches d0) (BindOutboundSIPCallID org id sip).
Proof.
  unfold BindOutboundSIPCallID. keeps_tac. apply keeps_exec. intros now d c d' H.
  split; [by eapply step_sip|]. intros j. by eapply update_call_ids.
Qed.

Lemma keeps_GetLifecycleSnapshot d0 id : keeps (reaches d0) (GetLifecycleSnapshot id).
Proof. apply keeps_query. Qed.
Lemma keeps_GetBySIPCallIDGlobal d0 sip : keeps (reaches d0) (GetBySIPCallIDGlobal sip).
Proof. apply keeps_query. Qed.
Lemma keeps_Repo_Get d0 org id : keeps (reaches d0) (Repo_Get org id).
Proof. apply keeps_query. Qed.
Lemma keeps_Repo_Create d0 org req : keeps (reaches d0) (Repo_Create org req).
Proof. apply keeps_mutate, m_create. Qed.
Lemma keeps_Repo_CreateInbound d0 req : keeps (reaches d0) (Repo_CreateInbound req).
Proof. apply keeps_mutate, m_create_inbound. Qed.
Lemma keeps_Repo_MarkRinging d0 org id : keeps (reaches d0) (Repo_MarkRinging org id).
Proof. apply keeps_mutate, m_ringing. Qed.
Lemma keeps_Repo_MarkAnswered d0 org id : keeps (reaches d0) (Repo_MarkAnswered org id).
Proof. apply keeps_mutate, m_answered. Qed.
Lemma keeps_Repo_MarkActive d0 org id : keeps (reaches d0) (Repo_MarkActive org id).
Proof. apply keeps_mutate, m_active. Qed.
Lemma keeps_Repo_MarkHeld d0 org id : keeps (reaches d0) (Repo_MarkHeld org id).
Proof. apply keeps_mutate, m_held. Qed.
Lemma keeps_Repo_MarkResumed d0 org id : keeps (reaches d0) (Repo_MarkResumed org id).
Proof. apply keeps_mutate, m_resumed. Qed.
Lemma keeps_Repo_MarkCompleted d0 org id r : keeps (reaches d0) (Repo_MarkCompleted org id r).
Proof. apply keeps_mutate, m_completed. Qed.
Lemma keeps_Repo_MarkFailed d0 org id r : keeps (reaches d0) (Repo_MarkFailed org id r).
Proof. apply keeps_mutate, m_failed. Qed.
Lemma keeps_Repo_MarkCancelled d0 org id r : keeps (reaches d0) (Repo_MarkCancelled org id r).
Proof. apply keeps_mutate, m_cancelled. Qed.
End RepositoryLaws.
#[export] Hint Resolve keeps_exec keeps_query keeps_SetRouteAttribution keeps_BindOutboundSIPCallID
  keeps_GetLifecycleSnapshot keeps_GetBySIPCallIDGlobal keeps_Repo_Get keeps_Repo_Create
  keeps_Repo_CreateInbound keeps_Repo_MarkRinging keeps_Repo_MarkAnswered keeps_Repo_MarkActive
  keeps_Repo_MarkHeld keeps_Repo_MarkResumed keeps_Repo_MarkCompleted keeps_Repo_MarkFailed
  keeps_Repo_MarkCancelled : keeps.
#[export] Hint Extern 0 (HasDBLaws _) => typeclasses eauto : keeps.

(** ** A run, over the smallest state that holds a database *)
Section Run.
Record Cell := { c_db : DB; c_now : Z; c_next : UUID; c_faults : list fault }.
#[local] Instance Cell_faults : HasFaults Cell := {|
  get_faults := c_faults;
  set_faults fs w := {| c_db := c_db w; c_now := c_now w; c_next := c_next w; c_faults := fs |};
|}.
#[local] Instance Cell_db : HasDB Cell := {|
  db_faults := Cell_faults;
  get_db := c_db;
  set_db d w := {| c_db := d; c_now := c_now w; c_next := c_next w; c_faults := c_faults w |};
  db_now := c_now;
  fresh_id := c_next;
  next_id w := {| c_db := c_db w; c_now := c_now w; c_next := c_next w + 1; c_faults := c_faults w |};
|}.
#[local] Instance Cell_laws : HasDBLaws Cell.
Proof. split; done. Qed.

Definition ex_request : CreateRequest := {|
  cr_VoiceAgentID := None; cr_TrunkID := Some 9; cr_FromURI := "+15550100"; cr_ToURI := "+15550101";
  cr_Privacy := false; cr_DTMFMode := ""; cr_MediaEncryption := ""; cr_Direction := DirectionOutbound;
  cr_SIPCallID := None |}.
Definition ex_cell : Cell := {| c_db := empty_db; c_now := 100; c_next := 1; c_faults := [] |}.
(** A call created, answered without ringing, completed; the last commit is reported as failed. *)
Definition ex_life : M Cell unit :=
  Repo_Create 5 ex_request;; Repo_MarkAnswered 5 1;; Repo_MarkHeld 5 1;;
  attempt (Repo_MarkCompleted 5 1 (Some "NORMAL_CLEARING"));; ret tt.
Definition ex_final : Cell :=
  snd (ex_life {| c_db := empty_db; c_now := 100; c_next := 1;
                  c_faults := repeat FOk 15 ++ [FAfter (Sentinel ErrDeadlineExceeded)] |}).

Lemma ex_final_reached : rtc db_step empty_db (c_db ex_final).
Proof.
  assert (H : keeps (reaches empty_db) ex_life) by (unfold ex_life; keeps_tac).
  apply H. split; [apply rtc_refl|]. intros id [c Hc]. done.
Qed.
Definition ex_call : Call := default zero_call (calls (c_db ex_final) !! 1).

Lemma outbox_tells_call_history_witness :
  history [(StateInitiating, MediaStateActive); (StateAnswered, MediaStateActive);
           (StateAnswered, MediaStateHeld); (StateCompleted, MediaStateHeld)]
          (StateCompleted, MediaStateHeld).
Proof.
  apply (outbox_tells_call_history (c_db ex_final) 1 ex_call);
    [apply ex_final_reached|vm_compute; reflexivity].
Defined.

Lemma terminal_is_final_witness :
  exists c', calls (c_db ex_final) !! 1 = Some c' /\ CallState c' = StateCompleted /\
             EndedAt c' = Some 100 /\ HangupReason c' = Some "NORMAL_CLEARING".
Proof.
  apply (terminal_is_final (c_db ex_final) (c_db ex_final) 1 ex_call);
    [apply rtc_refl|vm_compute; reflexivity..].
Defined.

Definition ex_created : Call :=
  match fst (Repo_Create 5 ex_request ex_cell) with inl c => c | inr _ => zero_call end.

Lemma mutate_atomic_witness :
  exists d, CreateCall 100 1 5 None DirectionOutbound None "+15550100" "+15550101" None empty_db
              = inl (ex_created, d) /\
            c_db (snd (Repo_Create 5 ex_request ex_cell)) = InsertCallEvent 100 "call.initiated" ex_created d.
Proof.
  assert (H : Repo_Create 5 ex_request ex_cell
              = (inl ex_created, snd (Repo_Create 5 ex_request ex_cell))) by (vm_compute; reflexivity).
  exact (mutate_atomic "call.initiated"
    (fun id now => CreateCall now id 5 None DirectionOutbound None "+15550100" "+15550101" None)
    ex_cell (inl ex_created) (snd (Repo_Create 5 ex_request ex_cell)) H).
Defined.
End Run.
End CallStore.
