(* ===== verification/FreeSWITCH.v ===== *)
(** * FreeSWITCH event socket client

    [server/internal/integrations/freeswitch]: the frames of the event socket and
    their headers ([client.go], [model.go], [events.go]), the quoting of commands
    ([commands.go]) and the call, channel and conference commands ([call.go],
    [channel.go], [conference.go]) over one round trip of the socket. *)

From S2P Require Import Prelude.

Module FreeSWITCH.
(** ** Frames *)

Definition ContentTypeCommandReply : string := "command/reply".
Definition ContentTypeAPIResponse : string := "api/response".
Definition ContentTypeEventPlain : string := "text/event-plain".

Record Frame := { ContentType : string; Headers : gmap string string; Body : string }.

(** [url.PathUnescape]: an error on a malformed escape. *)
Definition hex_value (c : ascii) : option Z :=
  if byte_in 48 57 c then Some (byte_Z c - 48)
  else if byte_in 97 102 c then Some (byte_Z c - 87)
  else if byte_in 65 70 c then Some (byte_Z c - 55)
  else None.
Fixpoint bytes_PathUnescape (b : list ascii) : option (list ascii) :=
  match b with
  | [] => Some []
  | c :: b' =>
      if byte_is 37 c then
        match b' with
        | h :: l :: b'' =>
            match hex_value h, hex_value l with
            | Some x, Some y => (cons (ascii_of_N (Z.to_N (16 * x + y)))) <$> bytes_PathUnescape b''
            | _, _ => None
            end
        | _ => None
        end
      else cons c <$> bytes_PathUnescape b'
  end.
Definition PathUnescape (s : string) : option string := of_bytes <$> bytes_PathUnescape (bytes s).

(** The loop of [plainEventHeader] over the lines. *)
Fixpoint header_in (lines : list string) (name : string) : string :=
  match lines with
  | [] => ""
  | line :: lines' =>
      let line := of_bytes (reverse (drop_while (fun c => bool_decide (c = CR)) (reverse (bytes line)))) in
      match Cut line ": " with
      | Some (key, value) =>
          if decide (key = name) then default value (PathUnescape value)
          else header_in lines' name
      | None => header_in lines' name
      end
  end.
Definition plainEventHeader (body name : string) : string := header_in (Split body LF) name.

Definition Frame_Header (f : Frame) (name : string) : string :=
  let value := default "" (Headers f !! name) in
  if decide (value <> "") then value else
  if decide (ContentType f = ContentTypeEventPlain) then plainEventHeader (Body f) name else "".
Definition ReplyText (f : Frame) : string := Frame_Header f "Reply-Text".
Definition Frame_OK (f : Frame) : bool := HasPrefix (ToUpper (ReplyText f)) "+OK".

Record Event := { Name : string; ev_Headers : gmap string string; ev_Body : string }.
Definition Event_Header (e : Event) (name : string) : string :=
  let value := default "" (ev_Headers e !! name) in
  if decide (value <> "") then value else plainEventHeader (ev_Body e) name.

(** ** Reading a frame: [readFrame]

    The reader is the bytes still to come; what is left of them is returned. *)

(** [reader.ReadString('\n')]. *)
Fixpoint read_line (b : list ascii) : option (list ascii * list ascii) :=
  match b with
  | [] => None
  | c :: b' => if decide (c = LF) then Some ([c], b') else
               (fun '(x, y) => (c :: x, y)) <$> read_line b'
  end.

(** The header loop; [fuel] bounds the number of lines. *)
Fixpoint read_headers (fuel : nat) (headers : gmap string string) (b : list ascii)
    : outcome (gmap string string * list ascii) :=
  match fuel with
  | O => OutOfFuel
  | S fuel' =>
      match read_line b with
      | None => Failed (Sentinel ErrEOF)
      | Some (line, b') =>
          let line := bytes_TrimCRLF line in
          if decide (line = []) then Done (headers, b') else
          match bytes_Cut line (bytes ": ") with
          | Some (key, value) => read_headers fuel' (<[of_bytes key := of_bytes value]> headers) b'
          | None => Failed (Errorf "invalid FreeSWITCH header %q" [of_bytes line])
          end
      end
  end.

(** The largest slice [make] allocates on a 64-bit platform; more panics. *)
Definition max_alloc : Z := 2 ^ 48.

Definition readFrame (b : list ascii) : outcome (Frame * list ascii) :=
  match read_headers (S (length b)) ∅ b with
  | Done (headers, b') =>
      let raw := default "" (headers !! "Content-Length") in
      let length_ := if decide (raw = "") then Some 0 else ParseInt raw in
      match length_ with
      | Some n =>
          if n <? 0 then Failed (Errorf "invalid FreeSWITCH content length %q" [raw]) else
          if max_alloc <? n then Panicked else
          if Z.of_nat (length b') <? n
          then Failed (Wrapf "read FreeSWITCH frame body: %w" [] (Sentinel "unexpected EOF"))
          else Done ({| ContentType := default "" (headers !! "Content-Type"); Headers := headers;
                        Body := of_bytes (take (Z.to_nat n) b') |}, drop (Z.to_nat n) b')
      | None => Failed (Errorf "invalid FreeSWITCH content length %q" [raw])
      end
  | Failed e => Failed e
  | Panicked => Panicked
  | OutOfFuel => OutOfFuel
  end.

(** ** Subscriptions (events.go) *)

Record subscription := { sub_format : string; sub_events : list string }.
Definition sub_command (s : subscription) : string :=
  "event " +:+ sub_format s +:+
    match sub_events s with [] => "" | l => " " +:+ Join l " " end.
Definition sub_matches (s : subscription) (eventName : string) : bool :=
  match sub_events s with [] => true | l => bool_decide (eventName ∈ l) end.

(** The loop of [newSubscription]: trimmed names, in order, each once. *)
Fixpoint clean_events (seen : gset string) (events : list string) : list string :=
  match events with
  | [] => []
  | event :: events' =>
      let event := TrimSpace event in
      if decide (event = "" \/ event ∈ seen) then clean_events seen events'
      else event :: clean_events ({[event]} ∪ seen) events'
  end.
Definition newSubscription (format : string) (events : list string) (has_handler : bool)
    : result subscription :=
  if negb has_handler then inr (Errorf "FreeSWITCH event handler is required" []) else
  if decide (format <> "plain")
  then inr (Errorf "unsupported FreeSWITCH event format: %q" [format]) else
  inl {| sub_format := format; sub_events := clean_events ∅ events |}.

(** ** Commands (commands.go) *)

Definition word_special : list ascii :=
  [" "%char; ascii_of_N 9; CR; LF; dquote; "'"%char].
Definition commandWord (value : string) : string :=
  if ContainsAny value word_special
  then of_bytes ([dquote] ++ bytes (ReplaceByte value dquote ["\"%char; dquote]) ++ [dquote])
  else value.
Definition commandWords (values : list string) : string := Join (commandWord <$> values) " ".

Definition formatVariables (values : gmap string string) : string :=
  if decide (values = ∅) then "" else
  let keys := sorted_keys (map_to_list values) in
  "{" +:+ Join ((fun key => key +:+ "=" +:+ commandWord (default "" (values !! key))) <$> keys) ","
      +:+ "}".

Definition requiredArgument (name value : string) : result string :=
  let value := TrimSpace value in
  if decide (value = "") then inr (Errorf "FreeSWITCH %s is required" [name]) else inl value.

Record Reply := { rep_Text : string; rep_Body : string }.
Definition commandReplyError (reply : Reply) : result unit :=
  let body := TrimSpace (rep_Body reply) in
  if HasPrefix (ToUpper body) "-ERR" then inr (Errorf "FreeSWITCH command failed: %s" [body])
  else inl tt.

(** The socket: [connected] fails when there is no connection; [round_trip] writes
    a line and awaits the next reply frame, unless the connection or the deadline
    fails. [new_uuid] is [uuid.NewString]. *)
Class Socket (W : Type) : Type := {
  connected : M W unit;
  round_trip : string -> M W Frame;
  new_uuid : M W string;
}.

Section Client.
Context {W : Type} {HS : Socket W}.

(** [Client.command]: what is written is one line. *)
Definition command (cmd : string) : M W Frame :=
  let cmd := TrimSpace cmd in
  throw_if (bool_decide (cmd = "")) (Errorf "FreeSWITCH command is required" []);;
  connected;;
  throw_if (ContainsAny cmd [CR; LF])
    (Wrapf "write FreeSWITCH command: %w" []
       (Errorf "FreeSWITCH command cannot contain line breaks" []));;
  round_trip cmd.

Definition Command (cmd : string) : M W Reply :=
  let cmd := TrimSpace cmd in
  throw_if (bool_decide (cmd = "")) (Errorf "FreeSWITCH command is required" []);;
  let! frame := command ("api " +:+ cmd) in
  throw_if (negb (bool_decide (ContentType frame = ContentTypeAPIResponse)))
    (Errorf "unexpected FreeSWITCH command response: %q" [ContentType frame]);;
  ret {| rep_Text := ReplyText frame; rep_Body := Body frame |}.

Definition BGAPI (cmd : string) : M W string :=
  let cmd := TrimSpace cmd in
  throw_if (bool_decide (cmd = "")) (Errorf "FreeSWITCH background command is required" []);;
  let! frame := command ("bgapi " +:+ cmd) in
  throw_if (negb (Frame_OK frame))
    (Errorf "FreeSWITCH background command failed: %s" [ReplyText frame]);;
  let jobID := TrimSpace (Frame_Header frame "Job-UUID") in
  let jobID := if decide (jobID = "")
               then match Cut (ReplyText frame) "Job-UUID:" with
                    | Some (_, value) => TrimSpace value
                    | None => jobID
                    end
               else jobID in
  throw_if (bool_decide (jobID = ""))
    (Errorf "FreeSWITCH background command returned an empty job UUID" []);;
  ret jobID.

Definition commandOK (cmd : string) : M W unit :=
  let! reply := Command cmd in lift (commandReplyError reply).

(** *** channel.go *)

Definition variable_required (callID name : string) : M W unit :=
  throw_if (bool_decide (TrimSpace callID = "") || bool_decide (TrimSpace name = ""))
    (Errorf "FreeSWITCH call ID and variable name are required" []).
Definition SetVariable (callID name value : string) : M W unit :=
  variable_required callID name;;
  commandOK ("uuid_setvar " +:+ commandWords [callID; name; value]).
Definition UnsetVariable (callID name : string) : M W unit :=
  variable_required callID name;;
  commandOK ("uuid_setvar " +:+ commandWords [callID; name]).
Definition GetVariable (callID name : string) : M W string :=
  variable_required callID name;;
  let! reply := Command ("uuid_getvar " +:+ commandWords [callID; name]) in
  ret (TrimSpace (rep_Body reply)).

(** *** call.go *)

Record OriginateRequest := {
  o_Endpoint : string; o_Destination : string; o_CallerID : string;
  o_Variables : gmap string string;
}.
Definition OriginateRequest_Validate (r : OriginateRequest) : result unit :=
  if decide (TrimSpace (o_Endpoint r) = "")
  then inr (Errorf "FreeSWITCH originate endpoint is required" []) else
  if decide (TrimSpace (o_Destination r) = "")
  then inr (Errorf "FreeSWITCH originate destination is required" []) else inl tt.

(** The endpoint with its channel variables. *)
Definition originate_endpoint (req : OriginateRequest) (channelID : string) : string :=
  let variables := <["origination_uuid" := channelID]> (o_Variables req) in
  let endpoint := o_Endpoint req in
  let prefix := formatVariables variables in
  if decide (o_CallerID req <> "") then
    let callerIDVar := "origination_caller_id_number=" +:+ commandWord (o_CallerID req) in
    if decide (prefix <> "") then TrimSuffix prefix "}" +:+ "," +:+ callerIDVar +:+ "}" +:+ endpoint
    else "{" +:+ callerIDVar +:+ "}" +:+ endpoint
  else if decide (prefix <> "") then prefix +:+ endpoint else endpoint.

(** The channel id and the destination of the call. *)
Definition Originate (req : OriginateRequest) : M W (string * string) :=
  lift (OriginateRequest_Validate req);;
  let! channelID := new_uuid in
  BGAPI ("originate " +:+ commandWords [originate_endpoint req channelID; "&park()"]);;
  ret (channelID, o_Destination req).

Definition Answer (callID : string) : M W unit :=
  let! callID := lift (requiredArgument "call ID" callID) in
  commandOK ("uuid_answer " +:+ commandWord callID).
Definition Hangup (callID : string) : M W unit :=
  let! callID := lift (requiredArgument "call ID" callID) in
  commandOK ("uuid_kill " +:+ commandWord callID).
Definition Hold (callID : string) : M W unit :=
  let! callID := lift (requiredArgument "call ID" callID) in
  commandOK ("uuid_hold " +:+ commandWord callID).
Definition Unhold (callID : string) : M W unit :=
  let! callID := lift (requiredArgument "call ID" callID) in
  commandOK ("uuid_hold " +:+ commandWords ["off"; callID]).

Definition playbackPathVariable : string := "leamout_playback_path".
Definition displaceHangupOnErrorVar : string := "DISPLACE_HANGUP_ON_ERROR".

Definition stopDisplace (callID filePath : string) : M W unit :=
  let! reply := Command ("uuid_displace " +:+ commandWords [callID; "stop"; filePath]) in
  if Contains (ToLower (rep_Body reply)) "cannot stop displace session" then ret tt
  else lift (commandReplyError reply).

Definition PlayAudio (callID filePath : string) : M W unit :=
  let! callID := lift (requiredArgument "call ID" callID) in
  let! filePath := lift (requiredArgument "audio file path" filePath) in
  SetVariable callID displaceHangupOnErrorVar "false";;
  commandOK ("uuid_displace " +:+ commandWords [callID; "start"; filePath; "0"; "mux"]);;
  let! r := attempt (SetVariable callID playbackPathVariable filePath) in
  match r with
  | inl _ => ret tt
  | inr err =>
      let! cleanup := attempt (stopDisplace callID filePath) in
      throw (match cleanup with inl _ => err | inr cleanupErr => JoinErr err cleanupErr end)
  end.

Definition StopAudio (callID : string) : M W unit :=
  let! callID := lift (requiredArgument "call ID" callID) in
  let! filePath := GetVariable callID playbackPathVariable in
  if decide (filePath = "" \/ filePath = "_undef_") then ret tt else
  stopDisplace callID filePath;;
  UnsetVariable callID playbackPathVariable.

Definition SendDTMF (callID digits : string) : M W unit :=
  let! callID := lift (requiredArgument "call ID" callID) in
  let! digits := lift (requiredArgument "DTMF digits" digits) in
  commandOK ("uuid_send_dtmf " +:+ commandWords [callID; digits]).
Definition Break (callID : string) : M W unit :=
  let! callID := lift (requiredArgument "call ID" callID) in
  BGAPI ("uuid_break " +:+ commandWord callID);; ret tt.

Record TransferRequest := {
  t_CallID : string; t_Destination : string; t_Dialplan : string; t_Context : string;
}.
Definition TransferRequest_Validate (r : TransferRequest) : result unit :=
  if decide (TrimSpace (t_CallID r) = "")
  then inr (Errorf "FreeSWITCH transfer call ID is required" []) else
  if decide (TrimSpace (t_Destination r) = "")
  then inr (Errorf "FreeSWITCH transfer destination is required" []) else inl tt.
Definition Transfer (req : TransferRequest) : M W unit :=
  lift (TransferRequest_Validate req);;
  commandOK ("uuid_transfer " +:+ commandWords
    ([t_CallID req; t_Destination req]
       ++ (if decide (t_Dialplan req <> "") then [t_Dialplan req] else [])
       ++ (if decide (t_Context req <> "") then [t_Context req] else []))).

Record RecordRequest := { r_CallID : string; r_Path : string; r_Action : string }.
Definition RecordRequest_Validate (r : RecordRequest) : result unit :=
  if decide (TrimSpace (r_CallID r) = "")
  then inr (Errorf "FreeSWITCH record call ID is required" []) else
  if decide (TrimSpace (r_Path r) = "")
  then inr (Errorf "FreeSWITCH record path is required" []) else
  if decide (r_Action r <> "" /\ r_Action r <> "start" /\ r_Action r <> "stop")
  then inr (Errorf "FreeSWITCH record action must be start or stop, got %q" [r_Action r])
  else inl tt.
Definition Record_ (req : RecordRequest) : M W unit :=
  lift (RecordRequest_Validate req);;
  let action := if decide (r_Action req = "") then "start" else r_Action req in
  commandOK ("uuid_record " +:+ commandWords [r_CallID req; action; r_Path req]).

Definition StartAudioClock (callID : string) : M W unit :=
  let! callID := lift (requiredArgument "audio clock call ID" callID) in
  commandOK ("uuid_broadcast " +:+ commandWords [callID; "silence_stream://-1"; "aleg"]).
Definition StopAudioFork (channelID : string) : M W unit :=
  let! channelID := lift (requiredArgument "audio fork channel ID" channelID) in
  let! reply := Command ("uuid_audio_fork " +:+ commandWords [channelID; "stop"]) in
  if Contains (ToLower (rep_Body reply)) "no fork running" then ret tt
  else lift (commandReplyError reply).

(** *** conference.go *)

Record ConferenceRequest := { cf_Name : string; cf_Command : string; cf_Arguments : list string }.
Definition ConferenceRequest_Validate (r : ConferenceRequest) : result unit :=
  if decide (TrimSpace (cf_Name r) = "")
  then inr (Errorf "FreeSWITCH conference name is required" []) else
  if decide (TrimSpace (cf_Command r) = "")
  then inr (Errorf "FreeSWITCH conference command is required" []) else inl tt.
Definition Conference (req : ConferenceRequest) : M W Reply :=
  lift (ConferenceRequest_Validate req);;
  let! reply := Command ("conference " +:+ commandWords (cf_Name req :: cf_Command req :: cf_Arguments req)) in
  lift (commandReplyError reply);;
  ret reply.
Definition conferenceCommand (conference cmd : string) (args : list string) : M W unit :=
  let! conference := lift (requiredArgument "conference name" conference) in
  let! cmd := lift (requiredArgument "conference command" cmd) in
  Conference {| cf_Name := conference; cf_Command := cmd; cf_Arguments := args |};; ret tt.
Definition conferenceMemberCommand (conference cmd memberID : string) : M W unit :=
  let! memberID := lift (requiredArgument "conference member ID" memberID) in
  conferenceCommand conference cmd [memberID].

Record ConferenceMember := { m_ID : string; m_CallerID : string }.
(** The first two fields of a line with at least two. *)
Definition parse_member (line : string) : option ConferenceMember :=
  let line := TrimSpace line in
  if decide (line = "") then None else
  match Split line ";"%char with
  | id :: caller :: _ => Some {| m_ID := id; m_CallerID := caller |}
  | _ => None
  end.
Definition parseConferenceMembers (body : string) : list ConferenceMember :=
  omap parse_member (Split body LF).
Definition ListConferenceMembers (conference : string) : M W (string * list ConferenceMember) :=
  let! conference := lift (requiredArgument "conference name" conference) in
  let! reply := Conference {| cf_Name := conference; cf_Command := "list"; cf_Arguments := [] |} in
  ret (conference, parseConferenceMembers (rep_Body reply)).
End Client.

(** ** Frames are read back *)

Definition header_bytes (h : string * string) : list ascii :=
  bytes h.1 ++ bytes ": " ++ bytes h.2.
(** A frame on the wire. *)
Definition write_frame (hs : list (string * string)) (body : list ascii) : list ascii :=
  concat ((fun h => header_bytes h ++ [LF]) <$> hs) ++ LF :: body.
Definition header_map (m : gmap string string) (hs : list (string * string)) : gmap string string :=
  foldl (fun m h => <[h.1 := h.2]> m) m hs.

(** A header the protocol can carry. *)
Record header_ok (h : string * string) : Prop := {
  ok_key : Forall (fun c => c <> ":"%char /\ c <> LF) (bytes h.1);
  ok_value : Forall (fun c => c <> LF) (bytes h.2);
  ok_last : forall c l, bytes h.2 = l ++ [c] -> is_crlf c = false;
}.

Lemma read_line_app l rest :
  Forall (fun c => c <> LF) l -> read_line (l ++ LF :: rest) = Some (l ++ [LF], rest).
Proof.
  induction 1 as [|c l Hc _ IH]; [done|]. cbn [read_line app]. rewrite decide_False by done.
  rewrite IH. done.
Qed.
Lemma bytes_Cut_key k v :
  Forall (fun c => c <> ":"%char) k ->
  bytes_Cut (k ++ bytes ": " ++ v) (bytes ": ") = Some (k, v).
Proof.
  induction 1 as [|c k Hc _ IH]; [done|]. cbn [bytes_Cut app].
  rewrite decide_False by (simpl; congruence). by rewrite IH.
Qed.
Lemma TrimCRLF_snoc l :
  (forall c l', l = l' ++ [c] -> is_crlf c = false) -> bytes_TrimCRLF (l ++ [LF]) = l.
Proof.
  intros H. unfold bytes_TrimCRLF. rewrite reverse_app. simpl.
  destruct (reverse l) as [|c l'] eqn:E.
  - apply (f_equal reverse) in E. by rewrite reverse_involutive in E.
  - apply (f_equal reverse) in E. rewrite reverse_involutive, reverse_cons in E. simpl.
    rewrite (H c _ E). by rewrite reverse_cons.
Qed.
Lemma header_last h c l : header_ok h -> header_bytes h = l ++ [c] -> is_crlf c = false.
Proof.
  intros Hh E. unfold header_bytes in E. destruct (bytes h.2) as [|x v] eqn:Ev using rev_ind.
  - rewrite app_nil_r in E.
    change (bytes ": ") with ([":"%char] ++ [" "%char]) in E. rewrite app_assoc in E.
    apply app_inj_tail in E as [_ <-]. done.
  - rewrite !app_assoc in E. apply app_inj_tail in E as [_ <-]. by eapply ok_last.
Qed.

Lemma read_headers_write hs : forall fuel m rest,
  Forall header_ok hs -> (length hs < fuel)%nat ->
  read_headers fuel m (concat ((fun h => header_bytes h ++ [LF]) <$> hs) ++ LF :: rest)
  = Done (header_map m hs, rest).
Proof.
  induction hs as [|h hs IH]; intros fuel m rest Hhs Hf; destruct fuel as [|fuel]; simpl in Hf; try lia.
  { done. }
  apply Forall_cons in Hhs as [Hh Hhs]. rewrite fmap_cons. cbn [concat read_headers].
  assert (Hlf : Forall (fun c => c <> LF) (header_bytes h)).
  { unfold header_bytes. repeat rewrite Forall_app. split_and!.
    - eapply Forall_impl; [apply ok_key, Hh|]. by intros c [_ ?].
    - repeat constructor; done.
    - apply ok_value, Hh. }
  rewrite <- !app_assoc. cbn [app]. rewrite read_line_app by done.
  rewrite TrimCRLF_snoc by (intros c l; by apply header_last).
  rewrite decide_False by (unfold header_bytes; intros E; by apply (f_equal length) in E; rewrite !length_app in E; simpl in E; lia).
  unfold header_bytes. rewrite bytes_Cut_key
    by (eapply Forall_impl; [apply ok_key, Hh|]; by intros c [? _]).
  unfold of_bytes, bytes. rewrite !String.string_of_list_ascii_of_string. apply IH; [done|lia].
Qed.

(** a frame the peer writes is read back with its headers and its body, and
    the bytes after it are left for the next frame. *)
Theorem readFrame_roundtrip hs body rest :
  Forall header_ok hs -> Z.of_nat (length body) <= max_alloc ->
  let m := header_map ∅ hs in
  m !! "Content-Length" = Some (show_int (Z.of_nat (length body))) \/
    (m !! "Content-Length" = None /\ body = []) ->
  readFrame (write_frame hs body ++ rest) =
    Done ({| ContentType := default "" (m !! "Content-Type"); Headers := m; Body := of_bytes body |},
          rest).
Proof.
  intros Hhs Hlen m Hcl. unfold readFrame, write_frame. rewrite <- app_assoc. cbn [app].
  rewrite read_headers_write; [|done|].
  2: { rewrite length_app, <- (length_fmap (fun h => header_bytes h ++ [LF]) hs).
       pose proof (length_concat_ge ((fun h => header_bytes h ++ [LF]) <$> hs)) as Hc.
       rewrite Forall_fmap in Hc. simpl. enough (length ((fun h => header_bytes h ++ [LF]) <$> hs)
         <= length (concat ((fun h => header_bytes h ++ [LF]) <$> hs)))%nat by lia. apply Hc.
       apply Forall_true. intros h. simpl. rewrite length_app. simpl. lia. }
  fold m. cbv zeta.
  assert (Hraw : (if decide (default "" (m !! "Content-Length") = "") then Some 0
                  else ParseInt (default "" (m !! "Content-Length"))) = Some (Z.of_nat (length body))).
  { destruct Hcl as [->|[-> ->]]; [|done]. simpl. rewrite decide_False.
    - unfold ParseInt, show_int. rewrite String.list_ascii_of_string_of_list_ascii.
      apply format_int_parse. unfold min_int64, max_int64, max_alloc in *. lia.
    - unfold show_int. intros E. apply (f_equal String.list_ascii_of_string) in E.
      rewrite String.list_ascii_of_string_of_list_ascii in E. unfold format_int in E.
      rewrite (proj2 (Z.ltb_ge _ _)) in E by lia. by apply format_uint_nonempty in E. }
  rewrite Hraw. rewrite (proj2 (Z.ltb_ge (Z.of_nat (length body)) 0)) by lia.
  rewrite (proj2 (Z.ltb_ge max_alloc _)) by done. rewrite length_app.
  rewrite (proj2 (Z.ltb_ge _ _)) by lia. rewrite Nat2Z.id.
  by rewrite take_app_length, drop_app_length.
Qed.

Lemma read_line_shrinks b l rest :
  read_line b = Some (l, rest) -> (length rest < length b)%nat.
Proof.
  revert l. induction b as [|c b IH]; intros l; simpl; [done|].
  case_decide; [intros [= <- <-]; lia|].
  destruct (read_line b) as [[x y]|]; [|done]. simpl. intros [= <- <-].
  specialize (IH x eq_refl). lia.
Qed.
Lemma read_headers_fuel fuel m b :
  (length b < fuel)%nat -> read_headers fuel m b <> OutOfFuel.
Proof.
  revert m b. induction fuel as [|fuel IH]; intros m b Hf; [lia|]. simpl.
  destruct (read_line b) as [[l rest]|] eqn:E; [|done]. apply read_line_shrinks in E.
  case_decide; [done|]. destruct (bytes_Cut _ _) as [[k v]|]; [|done]. apply IH. lia.
Qed.

(** reading a frame always ends: with a frame and strictly fewer bytes left,
    with an error, or, for a declared body larger than the largest slice, with a panic. *)
Theorem readFrame_total b :
  match readFrame b with
  | Done (_, rest) => (length rest < length b)%nat
  | Failed _ => True
  | Panicked => exists m rest n, read_headers (S (length b)) ∅ b = Done (m, rest) /\
      m !! "Content-Length" = Some n /\ exists z, ParseInt n = Some z /\ max_alloc < z
  | OutOfFuel => False
  end.
Proof.
  unfold readFrame. pose proof (read_headers_fuel (S (length b)) ∅ b ltac:(lia)) as Hf.
  destruct (read_headers _ _ _) as [[m rest]|e| |] eqn:E; try done.
  - assert (Hrest : forall fuel m0 b0 m1 rest0, read_headers fuel m0 b0 = Done (m1, rest0) ->
      (length rest0 < length b0)%nat).
    { clear. induction fuel as [|fuel IH]; intros m0 b0 m1 rest0; simpl; [done|].
      destruct (read_line b0) as [[l r]|] eqn:El; [|done]. apply read_line_shrinks in El.
      case_decide; [by intros [= <- <-]|].
      destruct (bytes_Cut _ _) as [[k v]|]; [|done]. intros Hr%IH. lia. }
    apply Hrest in E as Hlen. clear Hrest. cbv zeta.
    destruct (if decide _ then Some 0 else _) as [n|] eqn:En; [|done].
    destruct (n <? 0); [done|]. destruct (Z.ltb_spec max_alloc n).
    + exists m, rest. destruct (m !! "Content-Length") as [raw|]; simpl in *.
      * exists raw. split_and!; [done..|]. case_decide; [injection En as <-; unfold max_alloc in *; lia|].
        by exists n.
      * injection En as <-. unfold max_alloc in *. lia.
    + destruct (Z.of_nat (length rest) <? n); [done|]. rewrite length_drop. lia.
  - exfalso. clear Hf. revert E. generalize (S (length b)) (∅ : gmap string string).
    intros fuel. revert b. induction fuel as [|fuel IH]; intros b m; simpl; [done|].
    destruct (read_line b) as [[l r]|]; [|done]. case_decide; [done|].
    destruct (bytes_Cut _ _) as [[k v]|]; [|done]. apply IH.
Qed.

(** ** What is written is one line *)

Inductive op :=
| OpOriginate (req : OriginateRequest)
| OpAnswer (id : string) | OpHangup (id : string) | OpHold (id : string) | OpUnhold (id : string)
| OpPlay (id path : string) | OpStop (id : string) | OpDTMF (id digits : string)
| OpBreak (id : string) | OpTransfer (req : TransferRequest) | OpRecord (req : RecordRequest)
| OpClock (id : string) | OpStopFork (id : string)
| OpSetVariable (id name value : string) | OpUnsetVariable (id name : string)
| OpGetVariable (id name : string)
| OpConference (conference cmd : string) (args : list string)
| OpMember (conference cmd member : string) | OpMembers (conference : string).

Section OneLine.
Context {W : Type} {HS : Socket W}.

Definition run_op (o : op) : M W unit :=
  match o with
  | OpOriginate req => (Originate req;; ret tt)
  | OpAnswer id => Answer id | OpHangup id => Hangup id | OpHold id => Hold id
  | OpUnhold id => Unhold id | OpPlay id path => PlayAudio id path | OpStop id => StopAudio id
  | OpDTMF id digits => SendDTMF id digits | OpBreak id => Break id
  | OpTransfer req => Transfer req | OpRecord req => Record_ req
  | OpClock id => StartAudioClock id | OpStopFork id => StopAudioFork id
  | OpSetVariable id name value => SetVariable id name value
  | OpUnsetVariable id name => UnsetVariable id name
  | OpGetVariable id name => (GetVariable id name;; ret tt)
  | OpConference c cmd args => conferenceCommand c cmd args
  | OpMember c cmd member => conferenceMemberCommand c cmd member
  | OpMembers c => (ListConferenceMembers c;; ret tt)
  end.

Definition one_line (line : string) : Prop :=
  line <> "" /\ (CR ∉ bytes line) /\ (LF ∉ bytes line).

Context (P : W -> Prop)
  (Hconnected : keeps P connected) (Huuid : keeps P new_uuid)
  (Hround : forall line, one_line line -> keeps P (round_trip line)).

Lemma ContainsAny_false s c cs : ContainsAny s cs = false -> c ∈ cs -> c ∉ bytes s.
Proof.
  unfold ContainsAny. intros Hf Hc Hin. apply not_true_iff_false in Hf. apply Hf, existsb_exists.
  exists c. split; [by apply list_elem_of_In|by apply bool_decide_eq_true].
Qed.

Lemma keeps_command line : keeps P (command line).
Proof.
  unfold command. cbv zeta. intros w Hw. unfold throw_if.
  destruct (bool_decide_reflect (TrimSpace line = "")) as [|Hne]; [done|].
  rewrite (bind_eq (ret tt) _ w tt w eq_refl). revert w Hw. apply keeps_bind; [done|]. intros _ w Hw.
  destruct (ContainsAny (TrimSpace line) [CR; LF]) eqn:E; [done|].
  rewrite (bind_eq (ret tt) _ w tt w eq_refl). apply Hround; [|done]. split; [done|].
  split; eapply ContainsAny_false; try done; by repeat constructor.
Qed.
#[local] Hint Resolve keeps_command : keeps.
Lemma keeps_Command line : keeps P (Command line).
Proof. unfold Command. keeps_tac. Qed.
Lemma keeps_BGAPI line : keeps P (BGAPI line).
Proof. unfold BGAPI. keeps_tac. Qed.
#[local] Hint Resolve keeps_Command keeps_BGAPI : keeps.
Lemma keeps_commandOK line : keeps P (commandOK line).
Proof. unfold commandOK. keeps_tac. Qed.
#[local] Hint Resolve keeps_commandOK : keeps.

Lemma keeps_run_op o : keeps P (run_op o).
Proof.
  destruct o; simpl; unfold Originate, Answer, Hangup, Hold, Unhold, PlayAudio, StopAudio,
    stopDisplace, SendDTMF, Break, Transfer, Record_, StartAudioClock, StopAudioFork, SetVariable,
    UnsetVariable, GetVariable, variable_required, conferenceMemberCommand, conferenceCommand,
    ListConferenceMembers, Conference; keeps_tac.
Qed.
Lemma keeps_Originate req : keeps P (Originate req).
Proof. unfold Originate. keeps_tac. Qed.

(** whatever the arguments a caller gives, an operation writes only single
    non-empty lines to the event socket: an argument can never smuggle a second
    command. [P] is any property of the connection that writing one such line keeps. *)
Theorem operations_write_one_line ops :
  Forall (fun o => keeps P (run_op o)) ops.
Proof. apply Forall_true, keeps_run_op. Qed.
End OneLine.

(** ** A socket that logs what is written and answers [+OK] *)
Definition LogSocket : Socket (list string) := {|
  connected := ret tt;
  round_trip line log :=
    (inl {| ContentType := if HasPrefix line "bgapi " then ContentTypeCommandReply
                           else ContentTypeAPIResponse;
            Headers := {["Reply-Text" := "+OK Job-UUID: j"]}; Body := "+OK" |}, log ++ [line]);
  new_uuid := ret "chan";
|}.
Lemma operations_write_one_line_witness :
  Forall one_line (snd (run_op (HS := LogSocket) (OpTransfer {| t_CallID := "c"; t_Destination := "+1555"; t_Dialplan := ""; t_Context := "" |}) [])) /\
  snd (run_op (HS := LogSocket) (OpTransfer {| t_CallID := "c"; t_Destination := "+1555"; t_Dialplan := ""; t_Context := "" |}) []) = ["api uuid_transfer c +1555"] /\
  snd (run_op (HS := LogSocket) (OpSetVariable "c" "v" (of_bytes ["x"%char; LF; "y"%char])) []) = [].
Proof.
  split; [|split; vm_compute; reflexivity].
  set (o := OpTransfer _).
  assert (H : Forall (fun o => keeps (Forall one_line) (run_op (HS := LogSocket) o)) [o]).
  { apply (operations_write_one_line (HS := LogSocket) (Forall one_line)); try by intros w Hw.
    intros line Hl log Hlog. simpl. apply Forall_app. split; [done|by constructor]. }
  apply Forall_cons in H as [H _]. apply H. constructor.
Defined.

Definition ex_headers : list (string * string) :=
  [("Content-Type", "api/response"); ("Content-Length", "3")].
Lemma readFrame_roundtrip_witness :
  readFrame (write_frame ex_headers (bytes "+OK") ++ bytes "Content-Type: x") =
  Done ({| ContentType := "api/response"; Headers := list_to_map ex_headers; Body := "+OK" |},
        bytes "Content-Type: x").
Proof.
  apply (readFrame_roundtrip ex_headers (bytes "+OK") (bytes "Content-Type: x")).
  - repeat constructor; simpl; try done; intros c l Hl;
      apply (f_equal last) in Hl; rewrite last_snoc in Hl; vm_compute in Hl; by injection Hl as <-.
  - vm_compute. discriminate.
  - left. reflexivity.
Defined.

(** ** Subscriptions *)

Lemma clean_events_elem seen events e :
  e ∈ clean_events seen events <-> e <> "" /\ (e ∉ seen) /\ exists x, x ∈ events /\ TrimSpace x = e.
Proof.
  revert seen. induction events as [|x events IH]; intros seen; simpl.
  { rewrite elem_of_nil. split; [done|]. intros (_ & _ & x & Hx & _). by apply elem_of_nil in Hx. }
  case_decide as Hd.
  - rewrite IH. split; intros (H1 & H2 & y & Hy & He); split_and!; try done.
    + exists y. split; [by apply elem_of_cons; right|done].
    + apply elem_of_cons in Hy as [->|Hy]; [destruct Hd; congruence|eauto].
  - rewrite elem_of_cons, IH. split.
    + intros [->|(H1 & H2 & y & Hy & He)].
      * split_and!; [tauto..|]. exists x. split; [by apply elem_of_cons; left|done].
      * split_and!; [done|set_solver|]. exists y. split; [by apply elem_of_cons; right|done].
    + intros (H1 & H2 & y & Hy & He). destruct (decide (e = TrimSpace x)) as [|Hne]; [by left|right].
      split_and!; [done|set_solver|]. exists y. split; [|done].
      apply elem_of_cons in Hy as [->|]; [congruence|done].
Qed.
Lemma clean_events_NoDup seen events : NoDup (clean_events seen events).
Proof.
  revert seen. induction events as [|x events IH]; intros seen; simpl; [constructor|].
  case_decide; [done|]. constructor; [|done]. rewrite clean_events_elem. set_solver.
Qed.

(** A subscription names every requested event once, trimmed, and only those;
    it matches exactly those, or every event when no name is left. *)
Theorem newSubscription_spec format events s :
  newSubscription format events true = inl s ->
  NoDup (sub_events s) /\
  (forall e, e ∈ sub_events s <-> e <> "" /\ exists x, x ∈ events /\ TrimSpace x = e) /\
  (forall e, sub_matches s e = true <-> sub_events s = [] \/ e ∈ sub_events s).
Proof.
  unfold newSubscription. simpl. case_decide; [done|]. intros [= <-]. simpl. split_and!.
  - apply clean_events_NoDup.
  - intros e. rewrite clean_events_elem. set_solver.
  - intros e. unfold sub_matches. simpl. destruct (clean_events ∅ events) as [|x l]; [naive_solver|].
    rewrite bool_decide_eq_true. naive_solver.
Qed.
Lemma newSubscription_spec_witness :
  NoDup ["CHANNEL_CREATE"; "CHANNEL_ANSWER"] /\
  newSubscription "plain" ["CHANNEL_CREATE"; " "; "CHANNEL_ANSWER "; "CHANNEL_CREATE"] true
    = inl {| sub_format := "plain"; sub_events := ["CHANNEL_CREATE"; "CHANNEL_ANSWER"] |}.
Proof.
  split; [|vm_compute; reflexivity].
  apply (newSubscription_spec "plain" ["CHANNEL_CREATE"; " "; "CHANNEL_ANSWER "; "CHANNEL_CREATE"]
    {| sub_format := "plain"; sub_events := ["CHANNEL_CREATE"; "CHANNEL_ANSWER"] |}).
  vm_compute. reflexivity.
Defined.
End FreeSWITCH.
