(* ===== verification/Controller.v ===== *)
(** * Call controller

    [server/internal/runtime/calling/controller.go] and [originate_error.go]: the
    egress dial string and its validation, the channel variables of an originated
    call, the classification of originate failures, and the control operations,
    over the FreeSWITCH client of [FreeSWITCH.v]. *)

From S2P Require Import Prelude FreeSWITCH.
Import FreeSWITCH.

Module Controller.
(** ** Runes: [for i, r := range s] and [unicode.IsDigit] *)

Definition cont (lo hi : Z) (c : ascii) : bool := byte_in lo hi c.
Definition RuneError : Z := 65533.
(** The first rune of a byte string and its width; an invalid encoding is
    [RuneError] of width 1. *)
Definition decode_rune (b : list ascii) : Z * nat :=
  match b with
  | [] => (RuneError, 0%nat)
  | c0 :: b1 =>
      let x := byte_Z c0 in
      let low c := byte_Z c - 128 in
      if x <? 128 then (x, 1%nat) else
      if (194 <=? x) && (x <=? 223) then
        match b1 with
        | c1 :: _ => if cont 128 191 c1 then ((x - 192) * 64 + low c1, 2%nat) else (RuneError, 1%nat)
        | _ => (RuneError, 1%nat)
        end
      else if (224 <=? x) && (x <=? 239) then
        match b1 with
        | c1 :: c2 :: _ =>
            if cont (if x =? 224 then 160 else 128) (if x =? 237 then 159 else 191) c1 && cont 128 191 c2
            then ((x - 224) * 4096 + low c1 * 64 + low c2, 3%nat) else (RuneError, 1%nat)
        | _ => (RuneError, 1%nat)
        end
      else if (240 <=? x) && (x <=? 244) then
        match b1 with
        | c1 :: c2 :: c3 :: _ =>
            if cont (if x =? 240 then 144 else 128) (if x =? 244 then 143 else 191) c1
               && cont 128 191 c2 && cont 128 191 c3
            then ((x - 240) * 262144 + low c1 * 4096 + low c2 * 64 + low c3, 4%nat)
            else (RuneError, 1%nat)
        | _ => (RuneError, 1%nat)
        end
      else (RuneError, 1%nat)
  end.

(** The ranges of category Nd (Unicode 15) above ASCII. *)
Definition decimal_ranges : list (Z * Z) :=
  [(1632, 1641); (1776, 1785); (1984, 1993); (2406, 2415); (2534, 2543); (2662, 2671); (2790,
   2799); (2918, 2927); (3046, 3055); (3174, 3183); (3302, 3311); (3430, 3439); (3558, 3567);
   (3664, 3673); (3792, 3801); (3872, 3881); (4160, 4169); (4240, 4249); (6112, 6121); (6160,
   6169); (6470, 6479); (6608, 6617); (6784, 6793); (6800, 6809); (6992, 7001); (7088, 7097);
   (7232, 7241); (7248, 7257); (42528, 42537); (43216, 43225); (43264, 43273); (43472, 43481);
   (43504, 43513); (43600, 43609); (44016, 44025); (65296, 65305); (66720, 66729); (68912,
   68921); (69734, 69743); (69872, 69881); (69942, 69951); (70096, 70105); (70384, 70393);
   (70736, 70745); (70864, 70873); (71248, 71257); (71360, 71369); (71472, 71481); (71904,
   71913); (72016, 72025); (72784, 72793); (73040, 73049); (73120, 73129); (73552, 73561);
   (92768, 92777); (92864, 92873); (93008, 93017); (120782, 120831); (123200, 123209); (123632,
   123641); (124144, 124153); (125264, 125273); (130032, 130041)].
Definition unicode_IsDigit (r : Z) : bool :=
  if r <? 128 then (48 <=? r) && (r <=? 57)
  else existsb (fun '(lo, hi) => (lo <=? r) && (r <=? hi)) decimal_ranges.

(** The loop of [validPSTNAddress]; [fuel] bounds the number of runes. *)
Fixpoint all_digits (fuel : nat) (first : bool) (b : list ascii) : bool :=
  match fuel with
  | O => true
  | S fuel' =>
      match b with
      | [] => true
      | _ =>
          let '(r, w) := decode_rune b in
          if first && (r =? 43) then all_digits fuel' false (drop w b)
          else if unicode_IsDigit r then all_digits fuel' false (drop w b)
          else false
      end
  end.
Definition validPSTNAddress (value : string) : bool :=
  if bool_decide (value = "") || (32 <? Z.of_nat (length (bytes value))) then false else
  if all_digits (length (bytes value)) true (bytes value) then negb (bool_decide (value = "+"))
  else false.

(** ** Originate errors (originate_error.go) *)

Definition OriginateFailureValidation : string := "validation".
Definition OriginateFailureTransport : string := "transport".
Definition OriginateFailureTimeout : string := "timeout".
Definition OriginateFailureSIP : string := "sip".
Definition OriginateFailureCapacity : string := "capacity".
Definition OriginateFailureInternal : string := "internal".

Definition NewSIPOriginateError (status : Z) (err : option error) : error :=
  OriginateError OriginateFailureSIP status
    (Some (default (Errorf "SIP originate failed" []) err)).

Definition classifyClientOriginateError (err : error) : error :=
  let class :=
    if errors_Is err ErrDeadlineExceeded then OriginateFailureTimeout
    else if errors_Is err ErrCanceled then OriginateFailureInternal
    else match errors_As_Net err with
         | Some true => OriginateFailureTimeout
         | Some false => OriginateFailureTransport
         | None => OriginateFailureInternal
         end in
  OriginateError class 0 (Some (Wrapf "originate call: %w" [] err)).

(** ** Egress *)

Definition openSIPSEgressHost : string := "opensips".
Definition openSIPSEgressPort : Z := 5060.
Definition leamoutCallIDVar : string := "leamout_call_id".
Definition routeURIHeaderVar : string := "sip_h_X-Leamout-Route-URI".
Definition trunkHeaderVar : string := "sip_h_X-Leamout-Trunk-ID".
Definition privacyHeaderVar : string := "sip_h_X-Leamout-Privacy".
Definition dtmfTypeVar : string := "dtmf_type".
Definition mediaEncryptionHeaderVar : string := "sip_h_X-Leamout-Media-Encryption".

Record OriginateRequest := {
  CallID : UUID;
  Destination : string;
  CallerID : string;
  TrunkID : UUID;
  Host : string;
  Port : Z;
  Transport : string;
  Privacy : bool;
  DTMFMode : string;
  MediaEncryption : string;
  MaxDurationSeconds : Z;
}.

(** [net.JoinHostPort]. *)
Definition JoinHostPort (host : string) (port : Z) : string :=
  if ContainsAny host [":"%char] then "[" +:+ host +:+ "]:" +:+ show_int port
  else host +:+ ":" +:+ show_int port.

Definition host_forbidden : list ascii :=
  [" "%char; ascii_of_N 9; CR; LF; ","%char; "{"%char; "}"%char; "["%char; "]"%char].

(** [freeSWITCHEgress]: the endpoint and the route URI. *)
Definition freeSWITCHEgress (req : OriginateRequest) : result (string * string) :=
  let host := TrimSpace (Host req) in
  if decide (host = "") then inr (Errorf "resolved route host is required" []) else
  if ContainsAny host host_forbidden then inr (Errorf "resolved route host is invalid" []) else
  if Port req =? 0 then inr (Errorf "resolved route port is required" []) else
  let transport := ToLower (TrimSpace (Transport req)) in
  if negb (bool_decide (transport ∈ ["udp"; "tcp"; "tls"]))
  then inr (Errorf "resolved route transport is invalid: %q" [Transport req]) else
  let destination := TrimSpace (Destination req) in
  if negb (validPSTNAddress destination)
  then inr (Errorf "resolved route destination is invalid" []) else
  let callerID := TrimSpace (CallerID req) in
  if negb (bool_decide (callerID = "")) && negb (validPSTNAddress callerID)
  then inr (Errorf "caller id is invalid" []) else
  let trunkTarget := JoinHostPort host (Port req) in
  let routeURI := "sip:" +:+ trunkTarget +:+ ";transport=" +:+ transport in
  let openSIPSTarget := JoinHostPort openSIPSEgressHost openSIPSEgressPort in
  let endpoint := "sofia/internal/" +:+ destination +:+ "@" +:+ openSIPSTarget +:+ ";transport=udp" in
  inl (endpoint, routeURI).

Section Variables.
Context {U : UuidLib}.

Definition sched_hangup (seconds : Z) : string :=
  "sched_hangup +" +:+ show_int seconds +:+ " ALLOTTED_TIMEOUT".

Definition egressVariables (req : OriginateRequest) (routeURI : string)
    : result (gmap string string) :=
  if decide (CallID req = uuid_Nil) then inr (Errorf "call id is required" []) else
  if decide (TrunkID req = uuid_Nil) then inr (Errorf "resolved trunk id is required" []) else
  if MaxDurationSeconds req <? 0 then inr (Errorf "maximum duration cannot be negative" []) else
  let variables : gmap string string :=
    <[leamoutCallIDVar := uuid_String (CallID req)]>
      (<[routeURIHeaderVar := routeURI]> {[trunkHeaderVar := uuid_String (TrunkID req)]}) in
  let variables :=
    if 0 <? MaxDurationSeconds req
    then <["execute_on_answer" := sched_hangup (MaxDurationSeconds req)]> variables else variables in
  let variables := if Privacy req then <[privacyHeaderVar := "id"]> variables else variables in
  let mode := ToLower (TrimSpace (DTMFMode req)) in
  let? variables :=
    (if decide (mode = "") then inl variables else
     if decide (mode ∈ ["rfc2833"; "info"; "none"]) then inl (<[dtmfTypeVar := mode]> variables)
     else inr (Errorf "DTMF mode is invalid: %q" [DTMFMode req])) in
  let encryption := ToLower (TrimSpace (MediaEncryption req)) in
  if decide (encryption = "") then inl variables else
  if decide (encryption ∈ ["none"; "sdes_srtp"])
  then inl (<[mediaEncryptionHeaderVar := encryption]> variables)
  else inr (Errorf "media encryption is invalid: %q" [MediaEncryption req]).

(** ** Controller *)

Context {W : Type} {HS : Socket W}.

(** The channel of the call. *)
Definition Originate (req : OriginateRequest) : M W string :=
  let validation e := OriginateError OriginateFailureValidation 0 (Some e) in
  let! ' (endpoint, routeURI) := wrap validation (lift (freeSWITCHEgress req)) in
  let! variables := wrap validation (lift (egressVariables req routeURI)) in
  let! ' (channel, _) := wrap classifyClientOriginateError
    (FreeSWITCH.Originate {| o_Endpoint := endpoint; o_Destination := Destination req;
                             o_CallerID := CallerID req; o_Variables := variables |}) in
  throw_if (bool_decide (TrimSpace channel = "")) (Errorf "FreeSWITCH returned empty channel UUID" []);;
  ret channel.

Definition Answer (channelID : string) : M W unit :=
  wrap (Wrapf "answer call: %w" []) (FreeSWITCH.Answer channelID).
Definition Hangup (channelID : string) : M W unit :=
  wrap (Wrapf "hangup call: %w" []) (FreeSWITCH.Hangup channelID).
Definition SetMaxDuration (channelID : string) (seconds : Z) : M W unit :=
  throw_if (seconds <=? 0) (Errorf "maximum call duration must be positive" []);;
  wrap (Wrapf "set maximum call duration: %w" [])
    (SetVariable channelID "execute_on_answer" (sched_hangup seconds)).
Definition Transfer (channelID destination dialplan context : string) : M W unit :=
  wrap (Wrapf "transfer call: %w" [])
    (FreeSWITCH.Transfer {| t_CallID := channelID; t_Destination := destination;
                            t_Dialplan := dialplan; t_Context := context |}).
Definition Hold (channelID : string) : M W unit :=
  wrap (Wrapf "hold call: %w" []) (FreeSWITCH.Hold channelID).
Definition Resume (channelID : string) : M W unit :=
  wrap (Wrapf "resume call: %w" []) (Unhold channelID).
Definition PlayAudio (channelID path : string) : M W unit :=
  wrap (Wrapf "play audio: %w" []) (FreeSWITCH.PlayAudio channelID path).
Definition StopPlayback (channelID : string) : M W unit :=
  wrap (Wrapf "stop audio: %w" []) (StopAudio channelID).
Definition Record_ (channelID path action : string) : M W unit :=
  wrap (Wrapf "record call: %w" [])
    (FreeSWITCH.Record_ {| r_CallID := channelID; r_Path := path; r_Action := action |}).
Definition SendDTMF (channelID digits : string) : M W unit :=
  wrap (Wrapf "send DTMF: %w" []) (FreeSWITCH.SendDTMF channelID digits).
Definition SetCallID (channelID : string) (callID : UUID) : M W unit :=
  throw_if (bool_decide (callID = uuid_Nil)) (Errorf "call id is required" []);;
  wrap (Wrapf "set call id: %w" []) (SetVariable channelID leamoutCallIDVar (uuid_String callID)).
End Variables.

(** ** Addresses *)

Lemma byte_Z_range c : 0 <= byte_Z c < 256.
Proof. unfold byte_Z. pose proof (N_ascii_bounded c). lia. Qed.
Lemma byte_in_iff lo hi c : byte_in lo hi c = true <-> lo <= byte_Z c <= hi.
Proof. unfold byte_in. rewrite andb_true_iff, !Z.leb_le. done. Qed.

(** A decoded rune is one ASCII byte, an error of one byte, or several bytes above
    ASCII standing for a rune above ASCII. *)
Lemma decode_rune_bytes c b r w :
  decode_rune (c :: b) = (r, w) ->
  (w = 1%nat /\ byte_Z c < 128 /\ r = byte_Z c) \/
  (w = 1%nat /\ r = RuneError) \/
  ((1 < w <= length (c :: b))%nat /\ 128 <= r /\ Forall (fun c => 128 <= byte_Z c) (take w (c :: b))).
Proof.
  unfold decode_rune, cont. set (x := byte_Z c).
  destruct (Z.ltb_spec x 128); [intros [= <- <-]; by left|].
  destruct ((194 <=? x) && (x <=? 223)) eqn:E2.
  { apply andb_true_iff in E2 as [E2%Z.leb_le E2'%Z.leb_le].
    destruct b as [|c1 b]; [intros [= <- <-]; by right; left|].
    destruct (byte_in 128 191 c1) eqn:H1; intros [= <- <-]; [right; right|by right; left].
    apply byte_in_iff in H1. split_and!; [simpl; lia..|]. repeat constructor; fold x; lia. }
  clear E2. destruct ((224 <=? x) && (x <=? 239)) eqn:E3.
  { apply andb_true_iff in E3 as [E3%Z.leb_le E3'%Z.leb_le].
    destruct b as [|c1 [|c2 b]]; [intros [= <- <-]; by right; left..|].
    destruct (byte_in _ _ c1 && byte_in 128 191 c2) eqn:H1; intros [= <- <-]; [right; right|by right; left].
    rewrite andb_true_iff, !byte_in_iff in H1. destruct H1 as [H1 H2].
    assert (128 <= byte_Z c1) by (destruct (x =? 224); lia).
    split_and!; [simpl; lia..| |repeat constructor; fold x; lia].
    destruct (Z.eqb_spec x 224); lia. }
  clear E3. destruct ((240 <=? x) && (x <=? 244)) eqn:E4; [|intros [= <- <-]; by right; left].
  apply andb_true_iff in E4 as [E4%Z.leb_le E4'%Z.leb_le].
  destruct b as [|c1 [|c2 [|c3 b]]]; [intros [= <- <-]; by right; left..|].
  destruct (byte_in _ _ c1 && byte_in 128 191 c2 && byte_in 128 191 c3) eqn:H1;
    intros [= <- <-]; [right; right|by right; left].
  rewrite !andb_true_iff, !byte_in_iff in H1. destruct H1 as [[H1 H2] H3].
  assert (128 <= byte_Z c1) by (destruct (x =? 240); lia).
  split_and!; [simpl; lia..| |repeat constructor; fold x; lia].
  destruct (Z.eqb_spec x 240); lia.
Qed.

(** A byte of a digit: an ASCII digit or a byte of a longer encoding. *)
Definition digit_byte (c : ascii) : Prop := 48 <= byte_Z c <= 57 \/ 128 <= byte_Z c.

Lemma all_digits_bytes fuel first b :
  (length b <= fuel)%nat -> all_digits fuel first b = true ->
  Forall digit_byte (if first then match b with c :: b' => if byte_is 43 c then b' else b | [] => [] end
                     else b).
Proof.
  revert first b. induction fuel as [|fuel IH]; intros first b Hf Hd.
  { destruct b; [by destruct first|simpl in Hf; lia]. }
  destruct b as [|c b]; [by destruct first|]. cbn [all_digits] in Hd.
  destruct (decode_rune (c :: b)) as [r w] eqn:E. apply decode_rune_bytes in E.
  assert (Hrest : (1 <= w)%nat -> all_digits fuel false (drop w (c :: b)) = true ->
                  Forall digit_byte (drop w (c :: b))).
  { intros Hw H. apply (IH false); [|done]. rewrite length_drop. simpl in Hf |- *. lia. }
  destruct (first && (r =? 43)) eqn:Eplus.
  - apply andb_true_iff in Eplus as [-> Hr%Z.eqb_eq].
    destruct E as [(-> & Hlt & ->)|[(-> & ->)|(Hw & Hr' & _)]]; [|done|lia].
    unfold byte_is. rewrite (proj2 (Z.eqb_eq _ _) Hr). by apply Hrest.
  - destruct (unicode_IsDigit r) eqn:Edig; [|done].
    assert (Hall : Forall digit_byte (c :: b)).
    { destruct E as [(-> & Hlt & ->)|[(-> & ->)|(Hw & Hr' & Htake)]].
      - constructor; [|by apply Hrest]. left. unfold unicode_IsDigit in Edig.
        rewrite (proj2 (Z.ltb_lt _ _) Hlt), andb_true_iff, !Z.leb_le in Edig. lia.
      - vm_compute in Edig. done.
      - rewrite <- (take_drop w (c :: b)). apply Forall_app. split; [|apply Hrest; [lia|done]].
        eapply Forall_impl; [exact Htake|]. intros a Ha. by right. }
    destruct first; [|done]. destruct (byte_is 43 c); [by apply Forall_inv_tail in Hall|done].
Qed.

(** What an accepted address is made of: an optional [+], then digits. *)
Definition pstn_bytes (b : list ascii) : Prop :=
  (1 <= length b <= 32)%nat /\ b <> ["+"%char] /\
  exists digits, (b = digits \/ b = "+"%char :: digits) /\ digits <> [] /\ Forall digit_byte digits.

Lemma validPSTNAddress_sound s : validPSTNAddress s = true -> pstn_bytes (bytes s).
Proof.
  unfold validPSTNAddress. destruct (bool_decide_reflect (s = "")) as [|Hne]; [done|].
  destruct (Z.ltb_spec 32 (Z.of_nat (length (bytes s)))) as [|Hlen]; [done|]. simpl.
  destruct (all_digits _ _ _) eqn:Ed; [|done]. apply all_digits_bytes in Ed; [|done].
  destruct (bool_decide_reflect (s = "+")) as [|Hp]; [done|]. intros _.
  assert (Hb : bytes s <> []).
  { intros E. apply Hne. unfold bytes in E. apply (f_equal String.string_of_list_ascii) in E.
    by rewrite String.string_of_list_ascii_of_string in E. }
  assert (Hb' : bytes s <> ["+"%char]).
  { intros E. apply Hp. unfold bytes in E. apply (f_equal String.string_of_list_ascii) in E.
    by rewrite String.string_of_list_ascii_of_string in E. }
  split; [destruct (bytes s); [done|simpl in *; lia]|]. split; [done|].
  destruct (bytes s) as [|c b]; [done|]. destruct (byte_is 43 c) eqn:Ec.
  - apply Z.eqb_eq in Ec. assert (c = "+"%char) as ->.
    { unfold byte_Z in Ec. rewrite <- (ascii_N_embedding c). apply Z2N.inj_iff in Ec; [|lia..].
      rewrite N2Z.id in Ec. rewrite Ec. done. }
    exists b. split; [by right|]. split; [|done]. by intros ->.
  - exists (c :: b). split; [by left|]. done.
Qed.

Lemma all_digits_ascii fuel b :
  Forall (fun c => 48 <= byte_Z c <= 57) b -> all_digits fuel false b = true.
Proof.
  intros Hb. revert b Hb. induction fuel as [|fuel IH]; intros b Hb; [done|].
  destruct Hb as [|c b Hc Hb]; [done|]. cbn [all_digits].
  unfold decode_rune. rewrite (proj2 (Z.ltb_lt (byte_Z c) 128)) by lia. simpl andb. cbv iota.
  unfold unicode_IsDigit. rewrite (proj2 (Z.ltb_lt (byte_Z c) 128)) by lia.
  rewrite !(proj2 (Z.leb_le _ _)) by lia. simpl. rewrite drop_0. by apply IH.
Qed.

(** on ASCII text [validPSTNAddress] accepts exactly an optional [+] and one or
    more digits, 32 bytes at most. *)
Theorem validPSTNAddress_ascii s :
  Forall (fun c => byte_Z c < 128) (bytes s) ->
  (validPSTNAddress s = true <->
   (length (bytes s) <= 32)%nat /\
   exists digits, (bytes s = digits \/ bytes s = "+"%char :: digits) /\ digits <> [] /\
                  Forall (fun c => 48 <= byte_Z c <= 57) digits).
Proof.
  intros Hascii. split.
  - intros (Hlen & _ & digits & Hd & Hne & HF)%validPSTNAddress_sound. split; [lia|].
    exists digits. split_and!; [done..|]. rewrite Forall_forall in *. intros c Hc.
    destruct (HF c Hc) as [|H]; [done|]. assert (c ∈ bytes s) as Hin.
    { destruct Hd as [-> | ->]; [done|]. by right. }
    specialize (Hascii c Hin). lia.
  - intros (Hlen & digits & Hd & Hne & HF). unfold validPSTNAddress.
    assert (s <> "") by (intros ->; by destruct Hd; subst).
    assert (s <> "+") by (intros ->; destruct Hd as [Hd|[= <-]]; [|done]; subst;
                          apply Forall_cons in HF as [[HF _] _]; by vm_compute in HF).
    rewrite bool_decide_false, (proj2 (Z.ltb_ge _ _)) by (done || lia). simpl orb. cbv iota.
    replace (all_digits _ true (bytes s)) with true; [by rewrite bool_decide_false|].
    symmetry. destruct Hd as [-> | ->].
    + destruct digits as [|c b]; [done|]. apply Forall_cons in HF as [Hc HF].
      cbn [length all_digits]. unfold decode_rune.
      rewrite (proj2 (Z.ltb_lt (byte_Z c) 128)) by lia. rewrite (proj2 (Z.eqb_neq (byte_Z c) 43)) by lia.
      simpl andb. cbv iota. unfold unicode_IsDigit.
      rewrite (proj2 (Z.ltb_lt (byte_Z c) 128)) by lia. rewrite !(proj2 (Z.leb_le _ _)) by lia.
      simpl. rewrite drop_0. by apply all_digits_ascii.
    + cbn [length all_digits]. simpl decode_rune. simpl. by apply all_digits_ascii.
Qed.

(** an accepted egress dials one address inside [sofia/internal]: the destination
    is a dialable address, whose bytes cannot end the endpoint or open another
    dial-string element, and the route URI carries the trunk's host, free of
    separators, its port and one of the three transports. *)
Theorem freeSWITCHEgress_sound req endpoint routeURI :
  freeSWITCHEgress req = inl (endpoint, routeURI) ->
  let destination := TrimSpace (Destination req) in
  let host := TrimSpace (Host req) in
  let transport := ToLower (TrimSpace (Transport req)) in
  endpoint = "sofia/internal/" +:+ destination +:+ "@opensips:5060;transport=udp" /\
  routeURI = "sip:" +:+ JoinHostPort host (Port req) +:+ ";transport=" +:+ transport /\
  pstn_bytes (bytes destination) /\ transport ∈ ["udp"; "tcp"; "tls"] /\ Port req <> 0 /\
  (TrimSpace (CallerID req) = "" \/ pstn_bytes (bytes (TrimSpace (CallerID req)))) /\
  host <> "" /\ forall c, c ∈ bytes host -> c ∉ host_forbidden.
Proof.
  unfold freeSWITCHEgress. cbv zeta. case_decide as Hh; [done|].
  destruct (ContainsAny _ host_forbidden) eqn:Hhost; [done|].
  destruct (Z.eqb_spec (Port req) 0); [done|].
  destruct (bool_decide_reflect (ToLower (TrimSpace (Transport req)) ∈ ["udp"; "tcp"; "tls"])); [|done].
  destruct (validPSTNAddress (TrimSpace (Destination req))) eqn:Hd; [|done]. cbn [negb].
  destruct (bool_decide_reflect (TrimSpace (CallerID req) = "")) as [Hc|Hc]; cbn [negb andb].
  2: destruct (validPSTNAddress (TrimSpace (CallerID req))) eqn:Hcv; cbn [negb]; [|done].
  all: intros [= <- <-]; split_and!; try done; try by apply validPSTNAddress_sound.
  all: try (by left); try (by right; apply validPSTNAddress_sound).
  all: intros c Hin Hf; by apply (ContainsAny_false _ c _ Hhost Hf).
Qed.

Section Run.
#[local] Existing Instance decimal_uuid.
Definition ex_request : OriginateRequest := {|
  CallID := 1; Destination := " +15550101"; CallerID := "+15550100"; TrunkID := 9;
  Host := "sip.example.net"; Port := 5061; Transport := "TLS"; Privacy := true; DTMFMode := "RFC2833";
  MediaEncryption := ""; MaxDurationSeconds := 60 |}.

Lemma freeSWITCHEgress_sound_witness :
  pstn_bytes (bytes "+15550101") /\
  freeSWITCHEgress ex_request =
    inl ("sofia/internal/+15550101@opensips:5060;transport=udp",
         "sip:sip.example.net:5061;transport=tls").
Proof.
  split; [|vm_compute; reflexivity].
  apply (freeSWITCHEgress_sound ex_request "sofia/internal/+15550101@opensips:5060;transport=udp"
           "sip:sip.example.net:5061;transport=tls"). vm_compute. reflexivity.
Defined.
Lemma validPSTNAddress_ascii_witness :
  validPSTNAddress "+15550101" = true /\ validPSTNAddress "1+5" = false.
Proof.
  split; [|vm_compute; reflexivity].
  apply (validPSTNAddress_ascii "+15550101"); [repeat constructor|].
  split; [vm_compute; lia|]. exists (bytes "15550101").
  split; [by right|]. split; [done|]. repeat constructor; vm_compute; intros [=].
Defined.
End Run.
End Controller.
