(* ===== verification/Failover.v ===== *)
(** * Outbound failover

    [server/internal/telephony/calls/failover.go]: the attempts on a plan of
    routes and the classification of originate failures, over any state the
    attempts change. *)

From S2P Require Import Prelude Routing Controller.
Import Routing.

Module Failover.
Definition maxOutboundAttempts : nat := 3.

Definition succeeded : string := "succeeded".
Definition terminal_failure : string := "terminal_failure".
Definition retryable_failure : string := "retryable_failure".

Record routeAttemptOutcome := {
  Route : OutboundRoute;
  Attempt : Z;
  Outcome : string;
  FailureClass : string;
  SIPStatus : Z;
  Err : option error;
}.

(** The failure class, the SIP status and the outcome. *)
Definition classifyOriginateFailure (err : error) : string * Z * string :=
  match errors_As_Originate err with
  | None => (Controller.OriginateFailureInternal, 0, terminal_failure)
  | Some (class, status) =>
      (class, status,
       if bool_decide (class = Controller.OriginateFailureTransport)
          || bool_decide (class = Controller.OriginateFailureCapacity)
          || (bool_decide (class = Controller.OriginateFailureSIP) && (500 <=? status) && (status <=? 599))
       then retryable_failure else terminal_failure)
  end.

(** [OriginateResult]: the channel id, empty when there is none. *)
Abbreviation OriginateResult := string (only parsing).

Section Plan.
Context {W : Type}.
(** [ctx.Err()]; an attempt, with its result and its error; the observer, if any. *)
Context (ctx_Err : W -> option error)
  (attempt : OutboundRoute -> W -> (OriginateResult * option error) * W)
  (observe : option (routeAttemptOutcome -> W -> W)).

Definition observed (o : routeAttemptOutcome) (w : W) : W :=
  match observe with Some f => f o w | None => w end.

(** The loop: [index] counts the attempts made, [lastErr] is the last error. *)
Fixpoint attempts (index : Z) (routes : list OutboundRoute) (lastErr : option error) (w : W)
    : result (OriginateResult * OutboundRoute) * W :=
  match routes with
  | [] => (inr (default (Errorf "outbound route plan is empty" []) lastErr), w)
  | route :: rest =>
      match ctx_Err w with
      | Some err => (inr err, w)
      | None =>
          match attempt route w with
          | ((channel, None), w1) =>
              (inl (channel, route),
               observed {| Route := route; Attempt := index + 1; Outcome := succeeded;
                           FailureClass := ""; SIPStatus := 0; Err := None |} w1)
          | ((channel, Some err), w1) =>
              let '(class, status, outcome) := classifyOriginateFailure err in
              let outcome := if decide (channel <> "") then terminal_failure else outcome in
              let w2 := observed {| Route := route; Attempt := index + 1; Outcome := outcome;
                                    FailureClass := class; SIPStatus := status; Err := Some err |} w1 in
              if decide (outcome = retryable_failure) then attempts (index + 1) rest (Some err) w2
              else (inr err, w2)
          end
      end
  end.

Definition executeRoutePlan (routes : list OutboundRoute) (w : W)
    : result (OriginateResult * OutboundRoute) * W :=
  attempts 0 (take maxOutboundAttempts routes) None w.
End Plan.

(** ** When an error is retried *)

(** An originate failure is retried on another carrier exactly when the call
    cannot have been established: the transport failed, the trunk had no
    capacity, or a SIP reply in the 500 class was received. *)
Theorem retryable_iff err :
  (exists class status, classifyOriginateFailure err = (class, status, retryable_failure)) <->
  exists class status, errors_As_Originate err = Some (class, status) /\
    (class = "transport" \/ class = "capacity" \/ (class = "sip" /\ 500 <= status <= 599)).
Proof.
  unfold classifyOriginateFailure. destruct (errors_As_Originate err) as [[class status]|].
  2: { split; [by intros (? & ? & [= _ _])|by intros (? & ? & ? & _)]. }
  destruct (_ || _) eqn:E; split.
  - intros (c & st & Hc). injection Hc as <- <-. exists class, status. split; [done|].
    rewrite !orb_true_iff, !andb_true_iff, !bool_decide_eq_true, !Z.leb_le in E. tauto.
  - intros _. by eexists _, _.
  - intros (c & st & Hc). by injection Hc as _ _ Hc.
  - intros (c & st & Hcs & H). injection Hcs as <- <-. exfalso. apply not_true_iff_false in E. apply E.
    rewrite !orb_true_iff, !andb_true_iff, !bool_decide_eq_true, !Z.leb_le. tauto.
Qed.

(** ** The log of the attempts *)
Section Log.
Context {W : Type} (ctx_Err : W -> option error)
  (attempt : OutboundRoute -> W -> (OriginateResult * option error) * W).

(** The plan run with an observer that only records. *)
Definition log_ctx (w : W * list routeAttemptOutcome) : option error := ctx_Err (fst w).
Definition log_attempt (r : OutboundRoute) (w : W * list routeAttemptOutcome)
    : (OriginateResult * option error) * (W * list routeAttemptOutcome) :=
  let '(res, w') := attempt r (fst w) in (res, (w', snd w)).
Definition log_observe (o : routeAttemptOutcome) (w : W * list routeAttemptOutcome)
    : W * list routeAttemptOutcome := (fst w, snd w ++ [o]).

Definition run (routes : list OutboundRoute) (w : W)
    : result (OriginateResult * OutboundRoute) * (W * list routeAttemptOutcome) :=
  executeRoutePlan log_ctx log_attempt (Some log_observe) routes (w, []).

(** What the log of a plan on [routes] looks like, the attempts counted from [index]. *)
Inductive plan_log : Z -> list OutboundRoute -> list routeAttemptOutcome ->
    result (OriginateResult * OutboundRoute) -> Prop :=
| log_end index e : plan_log index [] [] (inr e)
| log_cancelled index routes e : plan_log index routes [] (inr e)
| log_success index r rest o ch :
    Route o = r -> Attempt o = index + 1 -> Outcome o = succeeded ->
    plan_log index (r :: rest) [o] (inl (ch, r))
| log_terminal index r rest o e :
    Route o = r -> Attempt o = index + 1 -> Outcome o = terminal_failure -> Err o = Some e ->
    plan_log index (r :: rest) [o] (inr e)
| log_retry index r rest o log res :
    Route o = r -> Attempt o = index + 1 -> Outcome o = retryable_failure ->
    plan_log (index + 1) rest log res -> plan_log index (r :: rest) (o :: log) res.

Lemma classify_outcome err :
  (classifyOriginateFailure err).2 = terminal_failure \/
  (classifyOriginateFailure err).2 = retryable_failure.
Proof.
  unfold classifyOriginateFailure. destruct (errors_As_Originate err) as [[class status]|]; [|by left].
  simpl. destruct (_ || _); auto.
Qed.

Lemma attempts_log routes : forall index lastErr w log res w' log',
  attempts log_ctx log_attempt (Some log_observe) index routes lastErr (w, log) = (res, (w', log')) ->
  exists l, log' = log ++ l /\ plan_log index routes l res.
Proof.
  induction routes as [|r rest IH]; intros index lastErr w log res w' log'; cbn [attempts].
  { intros [= <- _ <-]. exists []. rewrite app_nil_r. split; [done|constructor]. }
  unfold log_ctx at 1, log_attempt at 1. cbn [fst snd].
  destruct (ctx_Err w) as [err|].
  { intros [= <- _ <-]. exists []. rewrite app_nil_r. split; [done|apply log_cancelled]. }
  destruct (attempt r w) as [[ch [err|]] w1].
  - pose proof (classify_outcome err) as Hcl.
    destruct (classifyOriginateFailure err) as [[class status] outcome]. simpl in Hcl.
    set (outcome' := if decide (ch <> "") then terminal_failure else outcome).
    assert (Ho : outcome' = terminal_failure \/ outcome' = retryable_failure)
      by (unfold outcome'; case_decide; auto).
    clearbody outcome'. unfold observed, log_observe at 1. cbn [fst snd].
    case_decide as Hret.
    + intros (l & -> & Hl)%IH. eexists (_ :: l). rewrite <- app_assoc. split; [done|].
      by apply log_retry.
    + intros [= <- _ <-]. eexists [_]. split; [done|]. destruct Ho as [Ho|Ho]; [|done].
      by apply log_terminal.
  - intros [= <- _ <-]. eexists [_]. split; [done|]. by apply log_success.
Qed.

(** a plan tries its routes in order, at most three of them, each once; it
    goes on to the next route only after a retryable failure, and stops at the
    first success or terminal failure, whose route or error is the result. *)
Theorem executeRoutePlan_log routes w res w' log :
  run routes w = (res, (w', log)) ->
  plan_log 0 (take maxOutboundAttempts routes) log res /\ (length log <= maxOutboundAttempts)%nat /\
  (Route <$> log) `prefix_of` routes.
Proof.
  unfold run, executeRoutePlan. intros (l & -> & Hl)%attempts_log. simpl. split; [done|].
  assert (H : forall index rs l res, plan_log index rs l res ->
    (length l <= length rs)%nat /\ (Route <$> l) `prefix_of` rs).
  { induction 1 as [| | |index r rest o e <- _ _ _|index r rest o l' res' <- _ _ _ [IH1 IH2]]; simpl.
    - split; [lia|apply prefix_nil].
    - split; [lia|apply prefix_nil].
    - split; [lia|]. subst. apply prefix_cons, prefix_nil.
    - split; [lia|]. apply prefix_cons, prefix_nil.
    - split; [lia|]. by apply prefix_cons. }
  destruct (H _ _ _ _ Hl) as [H1 H2]. split.
  - rewrite length_take in H1. lia.
  - etrans; [exact H2|]. exists (drop maxOutboundAttempts routes). by rewrite take_drop.
Qed.

(** once an attempt reports a channel, no other carrier is tried, whatever its
    error says. *)
Theorem no_retry_with_channel r rest index lastErr w ch err w1 :
  ctx_Err w = None -> attempt r w = ((ch, Some err), w1) -> ch <> "" ->
  exists o, attempts log_ctx log_attempt (Some log_observe) index (r :: rest) lastErr (w, [])
              = (inr err, (w1, [o])) /\ Outcome o = terminal_failure.
Proof.
  intros Hctx Ha Hch. cbn [attempts]. unfold log_ctx at 1, log_attempt at 1. cbn [fst snd].
  rewrite Hctx, Ha. destruct (classifyOriginateFailure err) as [[class status] outcome].
  rewrite (decide_True (P := ch <> "")) by done. rewrite decide_False by done.
  unfold observed, log_observe. simpl. by eexists.
Qed.
End Log.

(** ** A run: the first carrier answers 503, the second takes the call *)
Section Run.
Definition ex_route (host : string) : OutboundRoute := {|
  TrunkID := 9; TrunkEndpointID := 1; Host := host; Port := 5060; Transport := "udp";
  RouteLimits := {| MaxCPS := 1; MaxConcurrentCalls := 1 |} |}.
Definition ex_attempt (r : OutboundRoute) (w : Z) : (OriginateResult * option error) * Z :=
  if decide (Host r = "a") then (("", Some (Controller.NewSIPOriginateError 503 None)), w + 1)
  else if decide (Host r = "b") then (("chan", None), w + 1)
  else (("chan", Some (Controller.NewSIPOriginateError 503 None)), w + 1).

Lemma executeRoutePlan_log_witness :
  fst (run (fun _ => None) ex_attempt [ex_route "a"; ex_route "b"; ex_route "c"] 0)
    = inl ("chan", ex_route "b") /\
  (Route <$> snd (snd (run (fun _ => None) ex_attempt [ex_route "a"; ex_route "b"; ex_route "c"] 0)))
    `prefix_of` [ex_route "a"; ex_route "b"; ex_route "c"].
Proof.
  split; [reflexivity|].
  apply (executeRoutePlan_log (fun _ => None) ex_attempt [ex_route "a"; ex_route "b"; ex_route "c"] 0
    (inl ("chan", ex_route "b")) 2
    (snd (snd (run (fun _ => None) ex_attempt [ex_route "a"; ex_route "b"; ex_route "c"] 0)))).
  reflexivity.
Defined.
Lemma no_retry_with_channel_witness :
  exists o, attempts (log_ctx (fun _ => None)) (log_attempt ex_attempt) (Some log_observe) 0
      [ex_route "c"; ex_route "b"] None (0, [])
    = (inr (Controller.NewSIPOriginateError 503 None), (1, [o])) /\ Outcome o = terminal_failure.
Proof. apply (no_retry_with_channel (fun _ => None) ex_attempt) with (ch := "chan"); done. Defined.
End Run.
End Failover.
