(* ===== verification/Server.v ===== *)
(** * The state of the server

    One state for the telephony services: the database, the Redis store, the
    routing tables, the FreeSWITCH socket and the clocks, with one script of
    failures for all the external calls. It implements the interfaces the
    repositories ([CallStore.HasDB]), the routing service ([Routing.HasRouting])
    and the FreeSWITCH client ([FreeSWITCH.Socket]) are written against. *)

From S2P Require Import Prelude Redis Routing CallStore FreeSWITCH.

Module Server.
(** What the metrics recorder is told. *)
Inductive metric :=
| RouteAttempt (trunk endpoint : UUID) (outcome class : string) (attempt : Z)
| EndpointSelection (trunk endpoint : UUID) (failover : bool).

Record World := {
  w_db : CallStore.DB;
  w_redis : Redis.Store;
  w_tables : Routing.Tables;
  (** Lines written to FreeSWITCH, and the frames it answers with, in order. *)
  w_sent : list string;
  w_replies : list FreeSWITCH.Frame;
  (** Milliseconds. *)
  w_now : Z;
  (** The next identifier the database, or [uuid.NewString], gives. *)
  w_next : UUID;
  w_faults : list fault;
  (** [ctx.Err()] of the request. *)
  w_ctx : option error;
  w_metrics : list metric;
}.

Definition with_db (d : CallStore.DB) (w : World) : World :=
  {| w_db := d; w_redis := w_redis w; w_tables := w_tables w; w_sent := w_sent w;
     w_replies := w_replies w; w_now := w_now w; w_next := w_next w; w_faults := w_faults w;
     w_ctx := w_ctx w; w_metrics := w_metrics w |}.
Definition with_redis (s : Redis.Store) (w : World) : World :=
  {| w_db := w_db w; w_redis := s; w_tables := w_tables w; w_sent := w_sent w;
     w_replies := w_replies w; w_now := w_now w; w_next := w_next w; w_faults := w_faults w;
     w_ctx := w_ctx w; w_metrics := w_metrics w |}.
Definition with_socket (sent : list string) (replies : list FreeSWITCH.Frame) (w : World) : World :=
  {| w_db := w_db w; w_redis := w_redis w; w_tables := w_tables w; w_sent := sent;
     w_replies := replies; w_now := w_now w; w_next := w_next w; w_faults := w_faults w;
     w_ctx := w_ctx w; w_metrics := w_metrics w |}.
Definition with_next (n : UUID) (w : World) : World :=
  {| w_db := w_db w; w_redis := w_redis w; w_tables := w_tables w; w_sent := w_sent w;
     w_replies := w_replies w; w_now := w_now w; w_next := n; w_faults := w_faults w;
     w_ctx := w_ctx w; w_metrics := w_metrics w |}.
Definition with_faults (fs : list fault) (w : World) : World :=
  {| w_db := w_db w; w_redis := w_redis w; w_tables := w_tables w; w_sent := w_sent w;
     w_replies := w_replies w; w_now := w_now w; w_next := w_next w; w_faults := fs;
     w_ctx := w_ctx w; w_metrics := w_metrics w |}.
Definition with_metric (m : metric) (w : World) : World :=
  {| w_db := w_db w; w_redis := w_redis w; w_tables := w_tables w; w_sent := w_sent w;
     w_replies := w_replies w; w_now := w_now w; w_next := w_next w; w_faults := w_faults w;
     w_ctx := w_ctx w; w_metrics := w_metrics w ++ [m] |}.

#[export] Instance World_faults : HasFaults World := {|
  get_faults := w_faults; set_faults := with_faults |}.
#[export] Instance World_db : CallStore.HasDB World := {|
  CallStore.db_faults := World_faults; CallStore.get_db := w_db; CallStore.set_db := with_db;
  CallStore.db_now := w_now; CallStore.fresh_id := w_next;
  CallStore.next_id w := with_next (w_next w + 1) w |}.
#[export] Instance World_db_laws : CallStore.HasDBLaws World.
Proof. split; done. Qed.
#[export] Instance World_routing : Routing.HasRouting World := {|
  Routing.rt_faults := World_faults; Routing.tables := w_tables |}.

(** The answer once the script of replies is used up. *)
Definition default_reply (line : string) : FreeSWITCH.Frame := {|
  FreeSWITCH.ContentType := if HasPrefix line "bgapi " then FreeSWITCH.ContentTypeCommandReply
                            else FreeSWITCH.ContentTypeAPIResponse;
  FreeSWITCH.Headers := {["Reply-Text" := "+OK Job-UUID: 7f4d"]};
  FreeSWITCH.Body := "+OK" |}.
Definition answer (line : string) (w : World) : result FreeSWITCH.Frame * World :=
  match w_replies w with
  | [] => (inl (default_reply line), with_socket (w_sent w ++ [line]) [] w)
  | f :: fs => (inl f, with_socket (w_sent w ++ [line]) fs w)
  end.
#[export] Instance World_socket {U : UuidLib} : FreeSWITCH.Socket World := {|
  FreeSWITCH.connected := ext (ret tt);
  FreeSWITCH.round_trip line := ext (answer line);
  FreeSWITCH.new_uuid w := (inl (uuid_String (w_next w)), with_next (w_next w + 1) w) |}.

(** A method call on the Redis store. *)
Definition on_redis {A} (m : M Redis.Store A) : M World A :=
  ext (fun w => let '(r, s) := m (w_redis w) in (r, with_redis s w)).
(** The milliseconds of [time.Now]. *)
Definition now_ms : M World Z := gets w_now.

(** ** What each external call leaves alone *)

(** [P] ignores the script of failures. *)
Definition script_free (P : World -> Prop) : Prop := forall fs w, P w -> P (with_faults fs w).

Lemma keeps_on_redis {A} (P : World -> Prop) (m : M Redis.Store A) :
  script_free P -> (forall w, P w -> P (with_redis (snd (m (w_redis w))) w)) ->
  keeps P (on_redis m).
Proof.
  intros Hs Hm w Hw. unfold on_redis. apply (ext_preserves P); [exact Hs| |done].
  intros w1 H1. specialize (Hm w1 H1). by destruct (m (w_redis w1)).
Qed.

(** Properties of the database alone: [reaches] of the call store is one. *)
Class DbOnly (P : World -> Prop) : Prop :=
  db_only : forall w w', w_db w' = w_db w -> w_next w <= w_next w' -> P w -> P w'.
#[export] Instance reaches_db_only d0 : DbOnly (CallStore.reaches (W := World) d0).
Proof.
  intros w w' Hd Hn [Hr Hi]. unfold CallStore.reaches in *. simpl in *. rewrite Hd.
  split; [done|]. intros id Hid. specialize (Hi id Hid). lia.
Qed.
Lemma keeps_on_redis_db {A} P {HP : DbOnly P} (m : M Redis.Store A) : keeps P (on_redis m).
Proof.
  apply keeps_on_redis.
  - intros fs w. by apply db_only.
  - intros w. by apply db_only.
Qed.

Section Socket.
Context {U : UuidLib} (P : World -> Prop) {HP : DbOnly P}.
Lemma keeps_connected_db : keeps P FreeSWITCH.connected.
Proof.
  intros w Hw. apply (ext_preserves P); [|done|done]. intros fs w1. by apply db_only.
Qed.
Lemma keeps_uuid_db : keeps P FreeSWITCH.new_uuid.
Proof. intros w Hw. simpl. apply (db_only w); simpl; [done|lia|done]. Qed.
Lemma keeps_round_trip_db line : keeps P (FreeSWITCH.round_trip line).
Proof.
  intros w Hw. apply (ext_preserves P); [intros fs w1; by apply db_only| |done].
  intros w1. unfold answer. destruct (w_replies w1); by apply db_only.
Qed.
End Socket.
#[export] Hint Extern 1 (keeps _ (on_redis _)) => apply keeps_on_redis_db; apply _ : keeps.
#[export] Hint Extern 1 (keeps _ now_ms) => apply keeps_gets : keeps.
End Server.
