(* ===== verification/CallService.v ===== *)
(** * Call service

    [server/internal/telephony/calls]: request validation ([validation.go]), the
    creation of outbound calls, the admission of inbound calls and the control
    operations ([service.go]), the application of FreeSWITCH lifecycle events
    ([lifecycle.go], [consumer.go]) and the reconciliation pass ([jobs.go]), over
    the server state of [Server.v]. *)

From S2P Require Import Prelude Redis Routing Admission CallStore FreeSWITCH Controller Failover Server.
Import CallStore Server.

Module CallService.
(** ** Validation (validation.go) *)

Definition validateOrganizationID (id : UUID) : result unit :=
  if decide (id = uuid_Nil) then inr (NewBadRequest "organization_id is required") else inl tt.
Definition validateCallID (id : UUID) : result unit :=
  if decide (id = uuid_Nil) then inr (NewBadRequest "call id is required") else inl tt.
Definition validateIDs (org call : UUID) : result unit :=
  let? _ := validateOrganizationID org in validateCallID call.

Definition normalizeCreateRequest (req : CreateRequest) : result CreateRequest :=
  let req := {| cr_VoiceAgentID := cr_VoiceAgentID req; cr_TrunkID := cr_TrunkID req;
                cr_FromURI := TrimSpace (cr_FromURI req); cr_ToURI := TrimSpace (cr_ToURI req);
                cr_Privacy := cr_Privacy req; cr_DTMFMode := ToLower (TrimSpace (cr_DTMFMode req));
                cr_MediaEncryption := ToLower (TrimSpace (cr_MediaEncryption req));
                cr_Direction := DirectionOutbound; cr_SIPCallID := cr_SIPCallID req |} in
  if decide (cr_FromURI req = "") then inr (NewBadRequest "from_uri is required") else
  if decide (cr_ToURI req = "") then inr (NewBadRequest "to_uri is required") else
  if decide (cr_VoiceAgentID req = Some uuid_Nil) then inr (NewBadRequest "voice_agent_id is invalid") else
  if decide (cr_TrunkID req = Some uuid_Nil) then inr (NewBadRequest "trunk_id is invalid") else
  if negb (bool_decide (cr_DTMFMode req ∈ [""; "rfc2833"; "info"; "none"]))
  then inr (NewBadRequest "dtmf_mode is invalid") else
  if negb (bool_decide (cr_MediaEncryption req ∈ [""; "none"; "sdes_srtp"]))
  then inr (NewBadRequest "media_encryption is invalid") else inl req.

Definition state_text (s : State) : string :=
  match s with
  | StateInitiating => "initiating" | StateRinging => "ringing" | StateAnswered => "answered"
  | StateActive => "active" | StateCompleted => "completed" | StateFailed => "failed"
  | StateCancelled => "cancelled"
  end.
Definition states : list State :=
  [StateInitiating; StateRinging; StateAnswered; StateActive; StateCompleted; StateFailed; StateCancelled].

Record ListRequest := { lr_State : option string; lr_Offset : Z; lr_Limit : Z }.
Definition validateListRequest (req : ListRequest) : result unit :=
  if lr_Offset req <? 0 then inr (NewBadRequest "offset must not be negative") else
  if (lr_Limit req <? 1) || (200 <? lr_Limit req)
  then inr (NewBadRequest "limit must be between 1 and 200") else
  match lr_State req with
  | None => inl tt
  | Some s =>
      if bool_decide (TrimSpace s ∈ state_text <$> states) then inl tt
      else inr (NewBadRequest "invalid call state")
  end.

Definition validateRouteAttribution (route : RouteAttribution) : result unit :=
  if decide (ra_TrunkID route = Some uuid_Nil) then inr (NewBadRequest "trunk_id is invalid") else
  if decide (ra_TrunkEndpointID route = Some uuid_Nil)
  then inr (NewBadRequest "trunk_endpoint_id is invalid") else inl tt.

Definition normalizeOptionalReason (reason : option string) : option string :=
  match reason with
  | None => None
  | Some r => let value := TrimSpace r in if decide (value = "") then None else Some value
  end.

Definition normalizeTransfer (destination : string) : result string :=
  let destination := TrimSpace destination in
  if decide (destination = "") then inr (NewBadRequest "destination is required") else inl destination.
Definition normalizePlay (path : string) : result string :=
  let path := TrimSpace path in
  if decide (path = "") then inr (NewBadRequest "path is required") else inl path.
(** The path and the action. *)
Definition normalizeRecord (path action : string) : result (string * string) :=
  let path := TrimSpace path in
  let action := ToLower (TrimSpace action) in
  if decide (path = "") then inr (NewBadRequest "path is required") else
  let action := if decide (action = "") then "start" else action in
  if decide (action <> "start" /\ action <> "stop")
  then inr (NewBadRequest "action must be start or stop") else inl (path, action).
Definition normalizeDTMF (digits : string) : result string :=
  let digits := TrimSpace digits in
  if decide (digits = "") then inr (NewBadRequest "digits are required") else inl digits.

Definition validateInboundAdmission (req : InboundAdmissionRequest) : result unit :=
  if decide (TrimSpace (in_ChannelID req) = "") then inr (NewBadRequest "inbound channel id is required") else
  if decide (TrimSpace (in_SIPCallID req) = "") then inr (NewBadRequest "inbound SIP Call-ID is required") else
  if decide (in_OrganizationID req = uuid_Nil) then inr (NewBadRequest "organization_id is required") else
  if decide (in_VoiceAgentID req = uuid_Nil) then inr (NewBadRequest "voice_agent_id is required") else
  if decide (in_PhoneNumberID req = uuid_Nil) then inr (NewBadRequest "phone_number_id is required") else
  if decide (in_VoiceAgentBindingID req = uuid_Nil)
  then inr (NewBadRequest "voice_agent_binding_id is required") else
  if decide (in_TrunkID req = uuid_Nil) then inr (NewBadRequest "trunk_id is required") else
  if decide (TrimSpace (in_FromURI req) = "") then inr (NewBadRequest "from_uri is required") else
  if decide (TrimSpace (in_ToURI req) = "") then inr (NewBadRequest "to_uri is required") else inl tt.

(** ** Errors *)

Definition admissionError (err : error) : error :=
  if errors_Is err Admission.ErrAdmissionCPS then NewTooManyRequests "trunk CPS limit exceeded" else
  if errors_Is err Admission.ErrAdmissionConcurrent
  then NewTooManyRequests "trunk concurrent call limit exceeded"
  else NewServiceUnavailable "trunk admission service unavailable" err.
Definition admissionFailureReason (err : error) : string :=
  if errors_Is err Admission.ErrAdmissionCPS then "trunk_cps_limit" else
  if errors_Is err Admission.ErrAdmissionConcurrent then "trunk_concurrent_limit"
  else "trunk_admission_failed".
Definition translateReadError (err : error) : error :=
  if errors_Is err ErrNoRows then NewNotFound "call not found" else NewInternal "get call" err.
Definition translateMutationError (err : error) : error :=
  if errors_Is err ErrNoRows
  then NewConflict "call state transition or route attribution is not allowed"
  else NewInternal "update call" err.

Section Service.
Context {U : UuidLib}.
(** Whether the service was given a metrics recorder. *)
Context (has_metrics : bool).

(** An error that is dropped: [_ = f()]. *)
Definition ignore {A} (m : M World A) : M World unit := attempt m;; ret tt.

Definition channels_Bind (call : UUID) (channel : string) : M World unit :=
  on_redis (Admission.ChannelStore_Bind call channel).
Definition channels_Get (call : UUID) : M World string := on_redis (Admission.ChannelStore_Get call).
Definition channels_Delete (call : UUID) : M World unit := on_redis (Admission.ChannelStore_Delete call).
Definition admission_Acquire (trunk : UUID) (lease : string) (limits : Routing.Limits) : M World unit :=
  let! now := now_ms in on_redis (Admission.Acquire now trunk lease limits).
Definition admission_Bind (trunk : UUID) (lease : string) (call : UUID) : M World unit :=
  on_redis (Admission.Bind trunk lease call).
Definition admission_Release (trunk : UUID) (lease : string) : M World unit :=
  on_redis (Admission.Release trunk lease).
Definition admission_Refresh (trunk call : UUID) : M World unit :=
  let! now := now_ms in on_redis (Admission.Refresh now trunk call).

(** ** Create *)

(** The attempt on one route. *)
Definition create_attempt (org call : UUID) (req : CreateRequest) (route : Routing.OutboundRoute)
    : M World string :=
  wrap (fun e => OriginateError Controller.OriginateFailureInternal 0 (Some e))
    (Repo_SetRouteAttribution org call
       {| ra_TrunkID := Some (Routing.TrunkID route);
          ra_TrunkEndpointID := Some (Routing.TrunkEndpointID route) |});;
  wrap (fun e => OriginateError Controller.OriginateFailureCapacity 0 (Some e))
    (admission_Acquire (Routing.TrunkID route) (uuid_String call) (Routing.RouteLimits route));;
  let! r := attempt (Controller.Originate
    {| Controller.CallID := call; Controller.Destination := cr_ToURI req;
       Controller.CallerID := cr_FromURI req; Controller.TrunkID := Routing.TrunkID route;
       Controller.Host := Routing.Host route; Controller.Port := Routing.Port route;
       Controller.Transport := Routing.Transport route; Controller.Privacy := cr_Privacy req;
       Controller.DTMFMode := cr_DTMFMode req; Controller.MediaEncryption := cr_MediaEncryption req;
       Controller.MaxDurationSeconds := 0 |}) in
  match r with
  | inl channel => ret channel
  | inr e => ignore (admission_Release (Routing.TrunkID route) (uuid_String call));; throw e
  end.

(** Its result and its error, as [executeRoutePlan] takes them: every failed attempt
    returns the zero result. *)
Definition attempt_result (m : M World string) (w : World) : (string * option error) * World :=
  match m w with
  | (inl channel, w') => ((channel, None), w')
  | (inr e, w') => (("", Some e), w')
  end.

Definition create_observe (o : Failover.routeAttemptOutcome) (w : World) : World :=
  if has_metrics then
    let r := Failover.Route o in
    let w := with_metric (RouteAttempt (Routing.TrunkID r) (Routing.TrunkEndpointID r)
               (Failover.Outcome o) (Failover.FailureClass o) (Failover.Attempt o)) w in
    if decide (Failover.Outcome o = "succeeded")
    then with_metric (EndpointSelection (Routing.TrunkID r) (Routing.TrunkEndpointID r)
           (1 <? Failover.Attempt o)) w
    else w
  else w.

Definition fail_call (org call : UUID) (reason : string) : M World unit :=
  ignore (Repo_MarkFailed org call (Some reason)).

Definition Create (org : UUID) (req : CreateRequest) : M World Call :=
  lift (validateOrganizationID org);;
  let! req := lift (normalizeCreateRequest req) in
  let! call := wrap (NewInternal "create call") (Repo_Create org req) in
  let! r := attempt (Routing.ResolveOutbound
    {| Routing.or_OrganizationID := org; Routing.or_TrunkID := cr_TrunkID req;
       Routing.or_Destination := cr_ToURI req |}) in
  match r with
  | inr err => fail_call org (ID call) "route_resolution_failed";; throw err
  | inl decision =>
      match Routing.Primary decision with
      | None =>
          fail_call org (ID call) "route_resolution_failed";;
          throw (NewNotFound "no eligible outbound route")
      | Some _ =>
          let! r := attempt (Failover.executeRoutePlan w_ctx
            (fun route => attempt_result (create_attempt org (ID call) req route))
            (Some create_observe) (Routing.Routes decision)) in
          match r with
          | inr err => fail_call org (ID call) "originate_failed";; throw (NewInternal "originate call" err)
          | inl (channel, selected) =>
              let! r := attempt (channels_Bind (ID call) channel) in
              match r with
              | inr err =>
                  ignore (Controller.Hangup channel);;
                  ignore (admission_Release (Routing.TrunkID selected) (uuid_String (ID call)));;
                  fail_call org (ID call) "channel_binding_failed";;
                  throw (NewInternal "bind call channel" err)
              | inl _ => Repo_Get org (ID call)
              end
          end
      end
  end.

(** ** AdmitInbound *)

(** [rejectInbound]: the error the caller gets. *)
Definition rejectInbound {A} (channel : string) (cause : error) : M World A :=
  let! r := attempt (Controller.Hangup channel) in
  throw (match r with inl _ => cause | inr err => JoinErr cause err end).

Definition validateExistingInbound (call : Call) (req : InboundAdmissionRequest) : result unit :=
  if negb (bool_decide (CallDirection call = DirectionInbound))
     || negb (bool_decide (OrganizationID call = in_OrganizationID req))
     || negb (bool_decide (VoiceAgentID call = Some (in_VoiceAgentID req)))
     || negb (bool_decide (ToUri call = in_ToURI req))
  then inr (NewConflict "SIP Call-ID is already associated with a different call") else
  if match TrunkID call with Some t => negb (bool_decide (t = in_TrunkID req)) | None => false end
  then inr (NewConflict "SIP Call-ID trunk attribution does not match") else
  if is_terminal (CallState call) then inr (NewConflict "inbound SIP call is already terminal")
  else inl tt.

Definition ensureInboundAttribution (call : Call) (req : InboundAdmissionRequest) : M World Call :=
  match TrunkID call with
  | Some _ => ret call
  | None =>
      wrap (NewInternal "set inbound route attribution")
        (Repo_SetRouteAttribution (in_OrganizationID req) (ID call)
           {| ra_TrunkID := Some (in_TrunkID req); ra_TrunkEndpointID := None |})
  end.

Definition bindInboundChannel (call : Call) (channel : string) : M World unit :=
  wrap (NewInternal "bind inbound call channel") (channels_Bind (ID call) channel);;
  let! r := attempt (Controller.SetCallID channel (ID call)) in
  match r with
  | inl _ => ret tt
  | inr err =>
      ignore (channels_Delete (ID call));;
      throw (NewInternal "correlate inbound FreeSWITCH channel" err)
  end.

(** A later step of an admission whose failure rejects the channel. *)
Definition or_reject {A} (channel : string) (m : M World A) : M World A :=
  let! r := attempt m in
  match r with inl a => ret a | inr err => rejectInbound channel err end.

(** The reuse of a stored call, from its validation on. *)
Definition reuse_inbound (existing : Call) (req : InboundAdmissionRequest) : M World Call :=
  or_reject (in_ChannelID req) (lift (validateExistingInbound existing req));;
  let! existing := or_reject (in_ChannelID req) (ensureInboundAttribution existing req) in
  match TrunkID existing with
  | Some trunk =>
      or_reject (in_ChannelID req)
        (wrap (NewServiceUnavailable "refresh inbound admission lease")
           (admission_Refresh trunk (ID existing)))
  | None => ret tt
  end;;
  or_reject (in_ChannelID req) (bindInboundChannel existing (in_ChannelID req));;
  ret existing.

Definition inbound_request (req : InboundAdmissionRequest) : Routing.InboundRequest := {|
  Routing.ir_OrganizationID := in_OrganizationID req; Routing.ir_VoiceAgentID := in_VoiceAgentID req;
  Routing.ir_PhoneNumberID := in_PhoneNumberID req;
  Routing.ir_VoiceAgentBindingID := in_VoiceAgentBindingID req;
  Routing.ir_TrunkID := in_TrunkID req; Routing.ir_CalledNumber := in_ToURI req |}.

(** The last steps: the lease takes the name of the call, the channel is bound. *)
Definition bind_inbound (req : InboundAdmissionRequest) (trunk : UUID) (call : Call) : M World Call :=
  let channel := in_ChannelID req in
  let org := in_OrganizationID req in
  let! r := attempt (admission_Bind trunk channel (ID call)) in
  match r with
  | inr err =>
      fail_call org (ID call) "inbound_admission_binding_failed";;
      ignore (admission_Release trunk channel);;
      rejectInbound channel (NewInternal "bind inbound admission lease" err)
  | inl _ =>
      let! r := attempt (bindInboundChannel call channel) in
      match r with
      | inr err =>
          ignore (admission_Release trunk (uuid_String (ID call)));;
          fail_call org (ID call) "inbound_channel_binding_failed";;
          rejectInbound channel err
      | inl _ => ret call
      end
  end.

(** From the creation of the call on, [trunk] being the admitted trunk. *)
Definition create_inbound (req : InboundAdmissionRequest) (trunk : UUID) : M World Call :=
  let channel := in_ChannelID req in
  let org := in_OrganizationID req in
  let! r := attempt (Repo_CreateInbound req) in
  match r with
  | inr err =>
      let! r := attempt (GetBySIPCallIDGlobal (in_SIPCallID req)) in
      match r with
      | inl existing =>
          (if decide (uuid_String (ID existing) <> channel)
           then ignore (admission_Release trunk channel) else ret tt);;
          reuse_inbound existing req
      | inr _ =>
          ignore (admission_Release trunk channel);;
          rejectInbound channel (NewInternal "create inbound call" err)
      end
  | inl call =>
      let! r := attempt (Repo_SetRouteAttribution org (ID call)
                           {| ra_TrunkID := Some (in_TrunkID req); ra_TrunkEndpointID := None |}) in
      match r with
      | inr err =>
          (* [call] is now the zero value the failed query returned. *)
          ignore (admission_Release trunk channel);;
          fail_call org (ID zero_call) "inbound_attribution_failed";;
          rejectInbound channel (NewInternal "set inbound route attribution" err)
      | inl call => bind_inbound req trunk call
      end
  end.

Definition AdmitInbound (req : InboundAdmissionRequest) : M World Call :=
  lift (validateInboundAdmission req);;
  let! r := attempt (GetBySIPCallIDGlobal (in_SIPCallID req)) in
  match r with
  | inl existing => reuse_inbound existing req
  | inr err =>
      if negb (errors_Is err ErrNoRows)
      then rejectInbound (in_ChannelID req) (NewInternal "lookup inbound SIP call" err) else
      let! decision := or_reject (in_ChannelID req) (Routing.ResolveInbound (inbound_request req)) in
      let trunk := Routing.ir_TrunkID (Routing.id_Request decision) in
      or_reject (in_ChannelID req)
        (wrap admissionError
           (admission_Acquire trunk (in_ChannelID req) (Routing.id_Limits decision)));;
      create_inbound req trunk
  end.

(** ** Reads and route attribution *)

Definition Get (org id : UUID) : M World Call :=
  lift (validateIDs org id);; wrap translateReadError (Repo_Get org id).
Definition List_ (org : UUID) (req : ListRequest) : M World (list Call) :=
  lift (validateOrganizationID org);;
  lift (validateListRequest req);;
  wrap (NewInternal "list calls")
    (Repo_List org (fun s => match lr_State req with
                             | Some t => bool_decide (state_text s = t)
                             | None => true
                             end) (lr_Offset req) (lr_Limit req)).
Definition SetRouteAttribution (org id : UUID) (route : RouteAttribution) : M World Call :=
  lift (validateIDs org id);;
  lift (validateRouteAttribution route);;
  wrap translateMutationError (Repo_SetRouteAttribution org id route).

(** ** Control *)

Definition controlContext (org id : UUID) : M World (Call * string) :=
  let! call := Get org id in
  let! channel := wrap (fun err =>
      if errors_Is err Admission.ErrChannelUnavailable
      then NewConflict "call has no active media channel"
      else NewInternal "resolve call channel" err) (channels_Get id) in
  ret (call, channel).
Definition control (org id : UUID) (allowed : list State) (fn : string -> M World unit) : M World unit :=
  let! ' (call, channel) := controlContext org id in
  throw_if (negb (bool_decide (CallState call ∈ allowed)))
    (NewConflict "call control is not allowed in the current state");;
  wrap (NewInternal "control call") (fn channel).

Definition Answer (org id : UUID) : M World unit :=
  control org id [StateInitiating; StateRinging] Controller.Answer.
Definition Hangup (org id : UUID) : M World unit :=
  let! ' (call, channel) := controlContext org id in
  if is_terminal (CallState call) then ret tt
  else wrap (NewInternal "hangup call") (Controller.Hangup channel).
Definition Transfer (org id : UUID) (destination : string) : M World unit :=
  let! destination := lift (normalizeTransfer destination) in
  control org id [StateAnswered; StateActive]
    (fun channel => Controller.Transfer channel destination "" "").
Definition connected_state (call : Call) : bool :=
  bool_decide (CallState call = StateAnswered) || bool_decide (CallState call = StateActive).
Definition Hold (org id : UUID) : M World unit :=
  let! ' (call, channel) := controlContext org id in
  throw_if (negb (connected_state call)) (NewConflict "call cannot be held in its current state");;
  if decide (CallMediaState call = MediaStateHeld) then ret tt
  else wrap (NewInternal "hold call") (Controller.Hold channel).
Definition Resume (org id : UUID) : M World unit :=
  let! ' (call, channel) := controlContext org id in
  throw_if (negb (connected_state call)) (NewConflict "call cannot be resumed in its current state");;
  if decide (CallMediaState call = MediaStateActive) then ret tt
  else wrap (NewInternal "resume call") (Controller.Resume channel).
Definition Play (org id : UUID) (path : string) : M World unit :=
  let! path := lift (normalizePlay path) in
  control org id [StateAnswered; StateActive] (fun channel => Controller.PlayAudio channel path).
Definition Stop (org id : UUID) : M World unit :=
  control org id [StateAnswered; StateActive] Controller.StopPlayback.
Definition Record_ (org id : UUID) (path action : string) : M World unit :=
  let! ' (path, action) := lift (normalizeRecord path action) in
  control org id [StateAnswered; StateActive] (fun channel => Controller.Record_ channel path action).
Definition DTMF (org id : UUID) (digits : string) : M World unit :=
  let! digits := lift (normalizeDTMF digits) in
  control org id [StateAnswered; StateActive] (fun channel => Controller.SendDTMF channel digits).

(** ** Lifecycle (lifecycle.go) *)

Inductive LifecycleEventType :=
| LifecycleInitiated | LifecycleRinging | LifecycleAnswered | LifecycleActive | LifecycleHeld
| LifecycleResumed | LifecycleCompleted | LifecycleFailed | LifecycleCancelled
| LifecycleOther (text : string).

Record LifecycleEvent := {
  le_CallID : UUID;
  le_ChannelID : string;
  le_SIPCallID : string;
  le_Type : LifecycleEventType;
  le_HangupReason : option string;
}.

Definition isTerminalLifecycle (t : LifecycleEventType) : bool :=
  match t with LifecycleCompleted | LifecycleFailed | LifecycleCancelled => true | _ => false end.

Definition lifecycleAlreadyApplied (s : LifecycleSnapshot) (t : LifecycleEventType) : bool :=
  match t with
  | LifecycleInitiated => true
  | LifecycleRinging => negb (bool_decide (snap_State s = StateInitiating))
  | LifecycleAnswered =>
      bool_decide (snap_State s = StateAnswered) || bool_decide (snap_State s = StateActive)
      || is_terminal (snap_State s)
  | LifecycleActive => bool_decide (snap_State s = StateActive) || is_terminal (snap_State s)
  | LifecycleHeld => bool_decide (snap_MediaState s = MediaStateHeld) || is_terminal (snap_State s)
  | LifecycleResumed => bool_decide (snap_MediaState s = MediaStateActive) || is_terminal (snap_State s)
  | LifecycleCompleted | LifecycleFailed | LifecycleCancelled => is_terminal (snap_State s)
  | LifecycleOther _ => false
  end.

Definition transition (org id : UUID) (fn : UUID -> UUID -> M World Call) : M World Call :=
  lift (validateIDs org id);; wrap translateMutationError (fn org id).
Definition MarkRinging (org id : UUID) : M World Call := transition org id Repo_MarkRinging.
Definition MarkAnswered (org id : UUID) : M World Call := transition org id Repo_MarkAnswered.
Definition MarkActive (org id : UUID) : M World Call := transition org id Repo_MarkActive.
Definition MarkHeld (org id : UUID) : M World Call := transition org id Repo_MarkHeld.
Definition MarkResumed (org id : UUID) : M World Call := transition org id Repo_MarkResumed.
Definition MarkCompleted (org id : UUID) (reason : option string) : M World Call :=
  lift (validateIDs org id);;
  wrap translateMutationError (Repo_MarkCompleted org id (normalizeOptionalReason reason)).
Definition MarkFailed (org id : UUID) (reason : option string) : M World Call :=
  lift (validateIDs org id);;
  wrap translateMutationError (Repo_MarkFailed org id (normalizeOptionalReason reason)).
Definition MarkCancelled (org id : UUID) (reason : option string) : M World Call :=
  lift (validateIDs org id);;
  wrap translateMutationError (Repo_MarkCancelled org id (normalizeOptionalReason reason)).

(** What is freed when a terminal event is applied. *)
Definition release_call (id : UUID) (trunk : option UUID) : M World unit :=
  ignore (channels_Delete id);;
  match trunk with
  | Some t => ignore (admission_Release t (uuid_String id))
  | None => ret tt
  end.

(** The switch on the event type. *)
Definition apply_event (org : UUID) (event : LifecycleEvent) : M World unit :=
  let id := le_CallID event in
  match le_Type event with
  | LifecycleInitiated => ret tt
  | LifecycleRinging => (MarkRinging org id;; ret tt)
  | LifecycleAnswered => (MarkAnswered org id;; ret tt)
  | LifecycleActive => (MarkActive org id;; ret tt)
  | LifecycleHeld => (MarkHeld org id;; ret tt)
  | LifecycleResumed => (MarkResumed org id;; ret tt)
  | LifecycleCompleted => (MarkCompleted org id (le_HangupReason event);; ret tt)
  | LifecycleFailed => (MarkFailed org id (le_HangupReason event);; ret tt)
  | LifecycleCancelled => (MarkCancelled org id (le_HangupReason event);; ret tt)
  | LifecycleOther _ => throw (NewBadRequest "unsupported call lifecycle event")
  end.

(** The identity step of an outbound call. *)
Definition bind_sip_identity (s : LifecycleSnapshot) (event : LifecycleEvent) : M World unit :=
  let sip := TrimSpace (le_SIPCallID event) in
  if decide (snap_Direction s = DirectionOutbound /\ sip <> "") then
    wrap (fun err => if errors_Is err ErrNoRows
                     then NewConflict "outbound SIP Call-ID conflicts with existing call identity"
                     else NewInternal "persist outbound SIP Call-ID" err)
      (BindOutboundSIPCallID (snap_OrganizationID s) (le_CallID event) sip)
  else ret tt.

(** From the snapshot on. *)
Definition observe_known (s : LifecycleSnapshot) (event : LifecycleEvent) : M World unit :=
  let terminal := isTerminalLifecycle (le_Type event) in
  bind_sip_identity s event;;
  match snap_TrunkID s with
  | Some trunk =>
      if terminal then ret tt else
      wrap (NewServiceUnavailable "refresh trunk call lease")
        (admission_Refresh trunk (le_CallID event))
  | None => ret tt
  end;;
  if lifecycleAlreadyApplied s (le_Type event) then
    if terminal then release_call (le_CallID event) (snap_TrunkID s) else ret tt
  else
    apply_event (snap_OrganizationID s) event;;
    if terminal then release_call (le_CallID event) (snap_TrunkID s) else ret tt.

Definition ObserveLifecycle (event : LifecycleEvent) : M World unit :=
  throw_if (bool_decide (le_CallID event = uuid_Nil))
    (NewBadRequest "call lifecycle event requires call id");;
  (if decide (le_ChannelID event <> "" /\ isTerminalLifecycle (le_Type event) = false)
   then wrap (NewInternal "bind call channel") (channels_Bind (le_CallID event) (le_ChannelID event))
   else ret tt);;
  let! r := attempt (GetLifecycleSnapshot (le_CallID event)) in
  match r with
  | inr err =>
      if errors_Is err ErrNoRows then ret tt else throw (NewInternal "resolve lifecycle call" err)
  | inl s => observe_known s event
  end.

(** [ResolveLifecycleCall]: the zero call when the identity is unknown. *)
Definition ResolveLifecycleCall (id : UUID) : M World Call :=
  throw_if (bool_decide (id = uuid_Nil)) (NewBadRequest "call lifecycle event requires call id");;
  let! r := attempt (GetLifecycleSnapshot id) in
  match r with
  | inr err =>
      if errors_Is err ErrNoRows then ret zero_call else throw (NewInternal "resolve lifecycle call" err)
  | inl s =>
      let! r := attempt (Repo_Get (snap_OrganizationID s) id) in
      match r with
      | inr err =>
          if errors_Is err ErrNoRows then ret zero_call else throw (NewInternal "get lifecycle call" err)
      | inl call => ret call
      end
  end.

(** consumer.go *)
Definition HandleInbound (req : InboundAdmissionRequest) : M World unit :=
  wrap (Wrapf "admit inbound call: %w" []) (AdmitInbound req);; ret tt.
Definition HandleLifecycle (event : LifecycleEvent) : M World unit :=
  wrap (Wrapf "handle call lifecycle event: %w" []) (ObserveLifecycle event).

(** ** Reconciliation (jobs.go) *)

Fixpoint refresh_all (active : list (UUID * UUID)) : M World unit :=
  match active with
  | [] => ret tt
  | (id, trunk) :: rest =>
      wrap (Wrapf "refresh admission lease for call %s: %w" [uuid_String id]) (admission_Refresh trunk id);;
      refresh_all rest
  end.
Definition Reconcile : M World unit :=
  let! active := wrap (Wrapf "list calls for admission reconciliation: %w" [])
    ListActiveForAdmissionReconciliation in
  refresh_all active.
End Service.
End CallService.
