(* ===== verification/CallSafety.v ===== *)
(** * Properties of the call service

    Theorems on the handlers of [CallService.v]: the database evolves only by
    committed statements of the call state machine, what each handler leaves in
    Redis, and who may send commands to FreeSWITCH. *)

From S2P Require Import Prelude Redis Routing Admission CallStore FreeSWITCH Controller Failover Server.
From S2P Require Import CallService.
Import CallStore Server CallService.

Module CallSafety.
(** ** The requests the server handles *)

Inductive request :=
| RCreate (has_metrics : bool) (org : UUID) (req : CreateRequest)
| RInbound (req : InboundAdmissionRequest)
| RLifecycle (event : LifecycleEvent)
| RResolve (id : UUID)
| RGet (org id : UUID)
| RList (org : UUID) (req : ListRequest)
| RRoute (org id : UUID) (route : RouteAttribution)
| RAnswer (org id : UUID) | RHangup (org id : UUID) | RTransfer (org id : UUID) (destination : string)
| RHold (org id : UUID) | RResume (org id : UUID) | RPlay (org id : UUID) (path : string)
| RStop (org id : UUID) | RRecord (org id : UUID) (path action : string)
| RDTMF (org id : UUID) (digits : string)
| RReconcile.

Section Refinement.
Context {U : UuidLib}.

Definition drop_result {A} (m : M World A) : M World unit := m;; ret tt.
Definition handle (r : request) : M World unit :=
  match r with
  | RCreate hm org req => drop_result (Create hm org req)
  | RInbound req => HandleInbound req
  | RLifecycle event => HandleLifecycle event
  | RResolve id => drop_result (ResolveLifecycleCall id)
  | RGet org id => drop_result (Get org id)
  | RList org req => drop_result (List_ org req)
  | RRoute org id route => drop_result (SetRouteAttribution org id route)
  | RAnswer org id => Answer org id
  | RHangup org id => Hangup org id
  | RTransfer org id d => Transfer org id d
  | RHold org id => Hold org id
  | RResume org id => Resume org id
  | RPlay org id path => Play org id path
  | RStop org id => Stop org id
  | RRecord org id path action => Record_ org id path action
  | RDTMF org id digits => DTMF org id digits
  | RReconcile => Reconcile
  end.

(** Requests one after the other, whatever they return. *)
Fixpoint serve (rs : list request) : M World unit :=
  match rs with
  | [] => ret tt
  | r :: rs' => attempt (handle r);; serve rs'
  end.

(** *** Every handler keeps what committed statements keep *)
Section Keeps.
Context (d0 : DB).
Abbreviation R := (reaches (W := World) d0).

Lemma keeps_routing {A} (f : Routing.Tables -> result A) : keeps R (Routing.query f).
Proof.
  intros w Hw. unfold Routing.query. apply (ext_preserves R); [|done|done].
  intros fs w1. by apply db_only.
Qed.
Lemma keeps_ResolveOutbound req : keeps R (Routing.ResolveOutbound req).
Proof.
  pose proof @keeps_routing. unfold Routing.ResolveOutbound, Routing.ResolveBYOCOutbound. keeps_tac.
Qed.
Lemma keeps_ResolveInbound req : keeps R (Routing.ResolveInbound req).
Proof.
  pose proof @keeps_routing. unfold Routing.ResolveInbound, Routing.GetInboundContext. keeps_tac.
Qed.

Lemma keeps_socket o : keeps R (FreeSWITCH.run_op o).
Proof.
  apply FreeSWITCH.keeps_run_op.
  - apply keeps_connected_db, _.
  - apply keeps_uuid_db, _.
  - intros line _. apply keeps_round_trip_db, _.
Qed.
Lemma keeps_SetCallID ch id : keeps R (Controller.SetCallID ch id).
Proof. unfold Controller.SetCallID. keeps_tac. apply (keeps_socket (FreeSWITCH.OpSetVariable _ _ _)). Qed.
Lemma keeps_Hangup ch : keeps R (Controller.Hangup ch).
Proof. apply keeps_wrap, (keeps_socket (FreeSWITCH.OpHangup _)). Qed.
Lemma keeps_Answer ch : keeps R (Controller.Answer ch).
Proof. apply keeps_wrap, (keeps_socket (FreeSWITCH.OpAnswer _)). Qed.
Lemma keeps_Transfer ch d p c : keeps R (Controller.Transfer ch d p c).
Proof. apply keeps_wrap, (keeps_socket (FreeSWITCH.OpTransfer _)). Qed.
Lemma keeps_Hold ch : keeps R (Controller.Hold ch).
Proof. apply keeps_wrap, (keeps_socket (FreeSWITCH.OpHold _)). Qed.
Lemma keeps_Resume ch : keeps R (Controller.Resume ch).
Proof. apply keeps_wrap, (keeps_socket (FreeSWITCH.OpUnhold _)). Qed.
Lemma keeps_PlayAudio ch p : keeps R (Controller.PlayAudio ch p).
Proof. apply keeps_wrap, (keeps_socket (FreeSWITCH.OpPlay _ _)). Qed.
Lemma keeps_StopPlayback ch : keeps R (Controller.StopPlayback ch).
Proof. apply keeps_wrap, (keeps_socket (FreeSWITCH.OpStop _)). Qed.
Lemma keeps_Record ch p a : keeps R (Controller.Record_ ch p a).
Proof. apply keeps_wrap, (keeps_socket (FreeSWITCH.OpRecord _)). Qed.
Lemma keeps_SendDTMF ch d : keeps R (Controller.SendDTMF ch d).
Proof. apply keeps_wrap, (keeps_socket (FreeSWITCH.OpDTMF _ _)). Qed.
Lemma keeps_ctl_Originate req : keeps R (Controller.Originate req).
Proof.
  unfold Controller.Originate. keeps_tac. apply FreeSWITCH.keeps_Originate.
  - apply keeps_connected_db, _.
  - apply keeps_uuid_db, _.
  - intros line _. apply keeps_round_trip_db, _.
Qed.
Hint Resolve keeps_ResolveOutbound keeps_ResolveInbound keeps_SetCallID keeps_Hangup keeps_Answer
  keeps_Transfer keeps_Hold keeps_Resume keeps_PlayAudio keeps_StopPlayback keeps_Record
  keeps_SendDTMF keeps_ctl_Originate : keeps.

(** The Redis methods of the service. *)
Create HintDb calls.
Hint Unfold channels_Bind channels_Get channels_Delete admission_Acquire admission_Bind
  admission_Release admission_Refresh : calls.
Ltac handler_tac := autounfold with calls; keeps_tac.

Lemma keeps_ignore {A} (m : M World A) : keeps R m -> keeps R (ignore m).
Proof. unfold ignore. intros. keeps_tac. Qed.
Hint Resolve keeps_ignore : keeps.
Lemma keeps_fail_call org id r : keeps R (fail_call org id r).
Proof. unfold fail_call. keeps_tac. Qed.
Lemma keeps_create_attempt org id req route : keeps R (create_attempt org id req route).
Proof. unfold create_attempt. handler_tac; apply keeps_ignore; handler_tac. Qed.
Hint Resolve keeps_fail_call keeps_create_attempt : keeps.

Lemma keeps_plan org id req hm routes :
  keeps R (Failover.executeRoutePlan w_ctx
    (fun route => attempt_result (create_attempt org id req route)) (Some (create_observe hm)) routes).
Proof.
  unfold Failover.executeRoutePlan. generalize 0 (None : option error).
  induction (take _ routes) as [|r rest IH]; intros index lastErr w Hw; [done|].
  cbn [Failover.attempts]. destruct (w_ctx w) as [e|]; [done|].
  pose proof (keeps_create_attempt org id req r w Hw) as H1. unfold attempt_result in *.
  assert (Ho : forall o w1, R w1 -> R (Failover.observed (Some (create_observe hm)) o w1)).
  { intros o w1. apply db_only; unfold Failover.observed, create_observe;
      destruct hm; [|done|..]; try lia; case_decide; simpl; done || lia. }
  destruct (create_attempt org id req r w) as [[ch|e] w1]; simpl in *; [by apply Ho|].
  destruct (Failover.classifyOriginateFailure e) as [[class status] outcome].
  case_decide; [|simpl; by apply Ho]. apply IH. by apply Ho.
Qed.
Hint Resolve keeps_plan : keeps.

Lemma keeps_Create hm org req : keeps R (Create hm org req).
Proof. unfold Create. handler_tac; apply keeps_ignore; handler_tac. Qed.
Lemma keeps_reject {A} ch e : keeps R (rejectInbound (A := A) ch e).
Proof. unfold rejectInbound. keeps_tac. Qed.
Hint Resolve keeps_reject : keeps.
Lemma keeps_or_reject {A} ch (m : M World A) : keeps R m -> keeps R (or_reject ch m).
Proof. unfold or_reject. intros. keeps_tac. Qed.
Lemma keeps_bindInbound c ch : keeps R (bindInboundChannel c ch).
Proof. unfold bindInboundChannel. handler_tac; apply keeps_ignore; handler_tac. Qed.
Lemma keeps_ensure c req : keeps R (ensureInboundAttribution c req).
Proof. unfold ensureInboundAttribution. handler_tac. Qed.
Hint Resolve keeps_or_reject keeps_bindInbound keeps_ensure : keeps.
Lemma keeps_refresh t c : keeps R (admission_Refresh t c).
Proof. handler_tac. Qed.
Lemma keeps_release t c : keeps R (admission_Release t c).
Proof. handler_tac. Qed.
Lemma keeps_acquire t c l : keeps R (admission_Acquire t c l).
Proof. handler_tac. Qed.
Hint Resolve keeps_refresh keeps_release keeps_acquire : keeps.
Lemma keeps_reuse c req : keeps R (reuse_inbound c req).
Proof. unfold reuse_inbound. keeps_tac. Qed.
Hint Resolve keeps_reuse : keeps.
Lemma keeps_bind_inbound req t c : keeps R (bind_inbound req t c).
Proof. unfold bind_inbound. handler_tac; apply keeps_ignore; handler_tac. Qed.
Hint Resolve keeps_bind_inbound : keeps.
Lemma keeps_create_inbound req t : keeps R (create_inbound req t).
Proof. unfold create_inbound. handler_tac; apply keeps_ignore; handler_tac. Qed.
Hint Resolve keeps_create_inbound : keeps.
Lemma keeps_AdmitInbound req : keeps R (AdmitInbound req).
Proof. unfold AdmitInbound. keeps_tac. Qed.

Lemma keeps_release_call id t : keeps R (release_call id t).
Proof. unfold release_call. handler_tac; apply keeps_ignore; handler_tac. Qed.
Lemma keeps_apply org e : keeps R (apply_event org e).
Proof.
  unfold apply_event, MarkRinging, MarkAnswered, MarkActive, MarkHeld, MarkResumed, MarkCompleted,
    MarkFailed, MarkCancelled, transition. keeps_tac.
Qed.
Hint Resolve keeps_release_call keeps_apply : keeps.
Lemma keeps_ObserveLifecycle e : keeps R (ObserveLifecycle e).
Proof. unfold ObserveLifecycle, observe_known, bind_sip_identity. handler_tac. Qed.
Lemma keeps_ResolveLifecycleCall id : keeps R (ResolveLifecycleCall id).
Proof. unfold ResolveLifecycleCall. keeps_tac. Qed.

Lemma keeps_Get org id : keeps R (Get org id).
Proof. unfold Get. keeps_tac. Qed.
Lemma keeps_control_context org id : keeps R (controlContext org id).
Proof. pose proof keeps_Get. unfold controlContext. handler_tac. Qed.
Hint Resolve keeps_control_context : keeps.
Lemma keeps_control org id l fn : (forall ch, keeps R (fn ch)) -> keeps R (control org id l fn).
Proof. unfold control. intros. keeps_tac. Qed.

Lemma keeps_refresh_all l : keeps R (refresh_all l).
Proof. induction l as [|[id t] l IH]; cbn [refresh_all]; keeps_tac. Qed.

Lemma keeps_handle r : keeps R (handle r).
Proof.
  pose proof @keeps_control. pose proof keeps_Create. pose proof keeps_AdmitInbound.
  pose proof keeps_ObserveLifecycle. pose proof keeps_ResolveLifecycleCall. pose proof keeps_Get.
  pose proof keeps_refresh_all.
  destruct r; cbn [handle]; unfold drop_result, HandleInbound, HandleLifecycle, Answer, Hangup, Transfer,
    Hold, Resume, Play, Stop, Record_, DTMF, Reconcile, ListActiveForAdmissionReconciliation, List_, SetRouteAttribution; keeps_tac.
Qed.
Lemma keeps_serve rs : keeps R (serve rs).
Proof.
  pose proof keeps_handle. induction rs as [|r rs IH]; cbn [serve]; keeps_tac.
Qed.
End Keeps.

(** C1: the call service implements the call state machine. Whatever requests the
    server handles, in whatever order, whichever of its database, Redis and
    FreeSWITCH calls fail and however, the database it leaves is one that
    committed statements reach from the one it found; so the events in the outbox
    tell the life of every call it knows, and a call it ended stays ended. *)
Theorem service_refines_call_machine rs w d0 id c :
  reaches d0 w -> rtc db_step empty_db d0 ->
  calls (w_db (snd (serve rs w))) !! id = Some c ->
  rtc db_step d0 (w_db (snd (serve rs w))) /\
  history (phase ∘ ev_Resource <$> events_of id (w_db (snd (serve rs w)))) (phase c) /\
  (forall c0, calls d0 !! id = Some c0 -> is_terminal (CallState c0) = true ->
     CallState c = CallState c0 /\ EndedAt c = EndedAt c0).
Proof.
  intros Hw Hd0 Hc. destruct (keeps_serve d0 rs w Hw) as [Hr _]. simpl in Hr. split_and!; [done| |].
  - apply (ok_history _ (reachable_db_ok _ ltac:(by etrans)) id c Hc).
  - intros c0 Hc0 Ht. destruct (final_terminal _ _ _ _ Hr Hc0 Ht) as (c' & Hc' & ? & ? & _).
    rewrite Hc in Hc'. injection Hc' as <-. done.
Qed.
End Refinement.

(** ** What an observed event leaves *)
Section Lifecycle.
Context {U : UuidLib}.

(** The call has the state the event tells of, or a later one. *)
Definition applied (t : LifecycleEventType) (c : Call) : bool :=
  lifecycleAlreadyApplied (snapshot c) t.

Lemma query_row_inv {A} (f : Z -> DB -> result A) (w : World) a w' :
  query f w = (inl a, w') -> w_db w' = w_db w /\ f (w_now w) (w_db w) = inl a.
Proof.
  unfold query, ext. simpl. destruct (w_faults w) as [|[]]; intros [= Hf <-]; done.
Qed.
Lemma on_redis_db {A} (m : M Redis.Store A) w : w_db (snd (on_redis m w)) = w_db w.
Proof.
  unfold on_redis, ext. simpl. by destruct (w_faults w) as [|[]]; simpl; repeat destruct (m _).
Qed.

(** A committed mutation of one row. *)
Lemma mutate_row subject org id guard g (w : World) c w' :
  mutate subject (fun _ now => update_call now org id guard (g now)) w = (inl c, w') ->
  exists c0, calls (w_db w) !! id = Some c0 /\ OrganizationID c0 = org /\ guard c0 = true /\
    c = touch (w_now w) (g (w_now w) c0) /\ calls (w_db w') !! id = Some c.
Proof.
  intros (d & Hf & Hd & _)%mutate_run. simpl in *.
  apply update_call_inv in Hf as (c0 & Hc0 & Ho & Hg & -> & _ & ->). exists c0.
  split_and!; [done..|]. rewrite Hd. simpl. by rewrite lookup_insert_eq.
Qed.

Lemma transition_inv org id fn (w : World) w' :
  (transition org id fn;; ret tt) w = (inl tt, w') -> exists c, fn org id w = (inl c, w').
Proof.
  intros (c & w1 & H & [= <-])%bind_ok. apply bind_ok in H as (u & w2 & H2 & H).
  unfold lift in H2. injection H2 as _ <-. unfold wrap in H.
  destruct (fn org id w) as [[c'|e] w3]; [|done]. injection H as <- <-. by exists c'.
Qed.

Lemma apply_event_applied org event w w' c0 :
  apply_event org event w = (inl tt, w') -> calls (w_db w) !! le_CallID event = Some c0 ->
  exists c, calls (w_db w') !! le_CallID event = Some c /\ applied (le_Type event) c = true.
Proof.
  intros H Hc0. unfold apply_event in H.
  assert (Hm : forall subject guard g,
    (forall c, guard c = true -> applied (le_Type event) (touch (w_now w) (g (w_now w) c)) = true) ->
    (exists c, mutate subject (fun _ now => update_call now org (le_CallID event) guard (g now)) w
               = (inl c, w')) ->
    exists c, calls (w_db w') !! le_CallID event = Some c /\ applied (le_Type event) c = true).
  { intros subject guard g Hg (c & Hm). apply mutate_row in Hm as (c1 & _ & _ & Hgd & -> & Hc).
    eexists. split; [exact Hc|]. by apply Hg. }
  destruct (le_Type event); [|apply transition_inv in H..| | | |discriminate H].
  { injection H as <-. by exists c0. }
  6: apply (transition_inv _ _ (fun o i => Repo_MarkCompleted o i _)) in H.
  7: apply (transition_inv _ _ (fun o i => Repo_MarkFailed o i _)) in H.
  8: apply (transition_inv _ _ (fun o i => Repo_MarkCancelled o i _)) in H.
  all: destruct H as (c & Hc); unfold Repo_MarkRinging, Repo_MarkAnswered, Repo_MarkActive, Repo_MarkHeld,
    Repo_MarkResumed, Repo_MarkCompleted, Repo_MarkFailed, Repo_MarkCancelled, MarkCallRinging,
    MarkCallAnswered, MarkCallActive, MarkCallHeld, MarkCallResumed, MarkCallCompleted, MarkCallFailed,
    MarkCallCancelled in Hc.
  all: match type of Hc with
    mutate ?s (fun _ now => update_call now _ _ ?gd (@?g now)) _ = _ =>
      apply (Hm s gd g); [|by exists c] end.
  all: intros c1 _; unfold applied, lifecycleAlreadyApplied; simpl; by rewrite ?bool_decide_true by done.
Qed.

(** No failure of an external call reads as "no rows". *)
Definition honest (w : World) : Prop :=
  Forall (fun f => match f with
                   | FOk => True
                   | FBefore e | FAfter e => errors_Is e ErrNoRows = false
                   end) (w_faults w).

Lemma on_redis_honest {A} (m : M Redis.Store A) w : honest w -> honest (snd (on_redis m w)).
Proof.
  unfold honest, on_redis, ext. simpl. destruct (w_faults w) as [|[] fs] eqn:E; intros H;
    try (apply Forall_cons in H as [_ H]); simpl; try destruct (m (w_redis _)); simpl; by rewrite ?E.
Qed.

Lemma snapshot_found id (w : World) c r w' :
  honest w -> calls (w_db w) !! id = Some c -> GetLifecycleSnapshot id w = (r, w') ->
  w_db w' = w_db w /\
  match r with inl s => s = snapshot c | inr e => errors_Is e ErrNoRows = false end.
Proof.
  unfold honest, GetLifecycleSnapshot, query, ext, GetCallLifecycleSnapshot. simpl.
  intros Hh -> H. destruct (w_faults w) as [|[] fs]; injection H as <- <-;
    try (apply Forall_cons in Hh as [Hf _]); done.
Qed.

Lemma bind_sip_row s event (w : World) c w' :
  bind_sip_identity s event w = (inl tt, w') -> calls (w_db w) !! le_CallID event = Some c ->
  exists c1, calls (w_db w') !! le_CallID event = Some c1 /\ phase c1 = phase c /\
             OrganizationID c1 = OrganizationID c.
Proof.
  unfold bind_sip_identity. case_decide; [|intros [= <-]; eauto].
  unfold wrap, BindOutboundSIPCallID, exec, SetOutboundCallSIPCallID. intros H0 Hc.
  destruct (bind _ _ w) as [r w1] eqn:H1. destruct r as [[]|]; [|done]. injection H0 as <-.
  apply bind_ok in H1 as (c1 & w2 & H1 & [= <-]). apply ext_ok in H1 as (fs & H1).
  destruct (update_call _ _ _ _ _ _) as [[c2 d]|] eqn:Hu in H1; [|done]. injection H1 as -> <-.
  apply update_call_inv in Hu as (c0 & Hc0 & _ & _ & -> & _ & ->). eexists. simpl.
  rewrite lookup_insert_eq. split; [done|].
  assert (c0 = c) as ->; [|done]. destruct (get_faults w); simpl in Hc0; congruence.
Qed.

Lemma ignore_db {A} (m : M World A) w : w_db (snd (m w)) = w_db w -> w_db (snd (ignore m w)) = w_db w.
Proof. done. Qed.
Lemma release_call_db id t w : w_db (snd (release_call id t w)) = w_db w.
Proof.
  assert (H : keeps (fun w1 => w_db w1 = w_db w) (release_call id t)); [|by apply H].
  assert (Hr : forall A (m : M Redis.Store A), keeps (fun w1 => w_db w1 = w_db w) (on_redis m)).
  { intros A m w1 <-. apply on_redis_db. }
  unfold release_call, ignore, channels_Delete, admission_Release. keeps_tac.
Qed.
Lemma admission_Refresh_db t c w : w_db (snd (admission_Refresh t c w)) = w_db w.
Proof. apply (on_redis_db (Admission.Refresh (w_now w) t c)). Qed.

Lemma observe_applied event w w' c :
  honest w -> ObserveLifecycle event w = (inl tt, w') ->
  calls (w_db w) !! le_CallID event = Some c ->
  exists c', calls (w_db w') !! le_CallID event = Some c' /\
    applied (le_Type event) c' = true /\
    (applied (le_Type event) c = true -> phase c' = phase c).
Proof.
  intros Hh H Hc. unfold ObserveLifecycle in H.
  apply bind_ok in H as ([] & w1 & H1 & H). unfold throw_if in H1.
  destruct (bool_decide _) in H1; [done|]. injection H1 as <-.
  apply bind_ok in H as ([] & w1 & H1 & H).
  assert (Hw1 : w_db w1 = w_db w /\ honest w1).
  { case_decide; [|by injection H1 as <-]. unfold wrap, channels_Bind in H1.
    pose proof (on_redis_db (Admission.ChannelStore_Bind (le_CallID event) (le_ChannelID event)) w).
    pose proof (on_redis_honest (Admission.ChannelStore_Bind (le_CallID event) (le_ChannelID event)) w Hh).
    destruct (on_redis _ w) as [[[]|] ?]; [|done]. by injection H1 as <-. }
  destruct Hw1 as [Hd1 Hh1]. rewrite <- Hd1 in Hc. clear H1 Hd1 Hh w.
  apply bind_ok in H as (r & w2 & [= <- <-] & H).
  destruct (GetLifecycleSnapshot _ w1) as [r w2] eqn:Hs.
  destruct (snapshot_found _ _ _ _ _ Hh1 Hc Hs) as [Hd2 Hr]. rewrite <- Hd2 in Hc.
  simpl in H. clear Hs Hd2 Hh1 w1. destruct r as [s|e]; [subst s|rewrite Hr in H; done].
  unfold observe_known in H. apply bind_ok in H as ([] & w3 & Hsip & H).
  destruct (bind_sip_row _ _ _ _ _ Hsip Hc) as (c1 & Hc1 & Hp & _).
  apply bind_ok in H as ([] & w4 & Href & H). replace (w_db w3) with (w_db w4) in Hc1.
  2: { destruct (snap_TrunkID _) as [t|]; [|by injection Href as <-].
       destruct (isTerminalLifecycle _); [by injection Href as <-|].
       pose proof (admission_Refresh_db t (le_CallID event) w3) as Hd. unfold wrap in Href.
       destruct (admission_Refresh _ _ w3) as [[[]|] ?]; [|done]. by injection Href as <-. }
  assert (Hap : applied (le_Type event) c1 = applied (le_Type event) c).
  { unfold applied, lifecycleAlreadyApplied. injection Hp as Hp1 Hp2. simpl. by rewrite Hp1, Hp2. }
  assert (Hfin : forall (m : M World unit) w5, m = release_call (le_CallID event) (snap_TrunkID (snapshot c))
      \/ m = ret tt -> m w5 = (inl tt, w') -> w_db w' = w_db w5).
  { intros m w5 [->| ->] Hm; [|by injection Hm as <-].
    pose proof (release_call_db (le_CallID event) (snap_TrunkID (snapshot c)) w5) as Hd.
    by rewrite Hm in Hd. }
  change (lifecycleAlreadyApplied (snapshot c) (le_Type event)) with (applied (le_Type event) c) in H.
  destruct (applied (le_Type event) c) eqn:Eap.
  - apply Hfin in H; [rewrite H; by exists c1|destruct (isTerminalLifecycle _); [by left|by right]].
  - apply bind_ok in H as ([] & w5 & Ha & H).
    apply Hfin in H; [rewrite H|destruct (isTerminalLifecycle _); [by left|by right]].
    destruct (apply_event_applied _ _ _ _ _ Ha Hc1) as (c' & Hc' & Hc'a). by exists c'.
Qed.

End Lifecycle.

(** ** Who may send commands to FreeSWITCH *)
Section Tenancy.
Context {U : UuidLib} {UL : UuidLaws U}.

(** The organization and the call of a control request, with the states it is allowed in. *)
Definition control_of (r : request) : option (UUID * UUID * list State) :=
  let connected := [StateAnswered; StateActive] in
  match r with
  | RAnswer org id => Some (org, id, [StateInitiating; StateRinging])
  | RHangup org id => Some (org, id, [StateInitiating; StateRinging; StateAnswered; StateActive])
  | RTransfer org id _ | RHold org id | RResume org id | RPlay org id _ | RStop org id
  | RRecord org id _ _ | RDTMF org id _ => Some (org, id, connected)
  | _ => None
  end.

Definition sent_same {A} (m : M World A) : Prop := forall w, w_sent (snd (m w)) = w_sent w.

Lemma sent_on_redis {A} (m : M Redis.Store A) : sent_same (on_redis m).
Proof.
  intros w. unfold on_redis, ext. simpl. destruct (w_faults w) as [|[] fs]; simpl; repeat destruct (m _); done.
Qed.
Lemma sent_Get org id : sent_same (Get org id).
Proof.
  intros w. unfold Get, bind, lift. destruct (validateIDs org id); [|done]. rewrite wrap_snd.
  unfold Repo_Get, query, ext. simpl. by destruct (w_faults w) as [|[]].
Qed.

(** The call and the channel a control operation works on. *)
Lemma controlContext_inv org id w r w1 :
  controlContext org id w = (r, w1) ->
  w_sent w1 = w_sent w /\
  match r with
  | inl (c, ch) => GetCall org id (w_db w) = inl c /\
      fst (Admission.ChannelStore_Get id (w_redis w)) = inl ch
  | inr _ => True
  end.
Proof.
  unfold controlContext, bind. pose proof (sent_Get org id w) as Hs.
  destruct (Get org id w) as [[c|e] w2] eqn:Eg; [|intros [= <- <-]; by split].
  intros H. apply (f_equal snd) in H as H1.
  destruct (wrap _ (channels_Get id) w2) as [[ch|e] w3] eqn:Ec; simpl in *.
  - injection H as <- <-. unfold wrap, channels_Get in Ec.
    pose proof (sent_on_redis (Admission.ChannelStore_Get id) w2) as Hs2.
    destruct (on_redis _ w2) as [[ch'|e] w4] eqn:Er; [|done]. injection Ec as -> ->. simpl in *.
    split; [congruence|]. unfold Get in Eg. apply bind_ok in Eg as (u & w5 & [= _ <-] & Eg).
    unfold wrap in Eg. destruct (Repo_Get org id w) as [[c'|] w5] eqn:Eq; [|done].
    injection Eg as -> ->. unfold Repo_Get, query, ext in Eq. simpl in Eq.
    assert (GetCall org id (w_db w) = inl c /\ w_redis w2 = w_redis w) as [? Hr].
    { destruct (w_faults w) as [|[]]; injection Eq as Eq1 <-; done. }
    split; [done|]. rewrite <- Hr. unfold on_redis, ext in Er. simpl in Er.
    destruct (w_faults w2) as [|[] fs]; try done; simpl in Er;
      destruct (Admission.ChannelStore_Get id (w_redis w2)) as [r' s']; by injection Er as Er1 _.
  - injection H as <- <-. split; [|done]. unfold wrap, channels_Get in Ec.
    pose proof (sent_on_redis (Admission.ChannelStore_Get id) w2) as Hs2.
    destruct (on_redis _ w2) as [[ch'|e'] w4]; [done|]. injection Ec as _ Hw4. simpl in *. congruence.
Qed.

(** What [controlContext] establishes before anything is sent. *)
Definition may_control (org id : UUID) (l : list State) (w : World) : Prop :=
  exists c ch, calls (w_db w) !! id = Some c /\ OrganizationID c = org /\ CallState c ∈ l /\
    fst (Admission.ChannelStore_Get id (w_redis w)) = inl ch.

Lemma GetCall_inv org id d c :
  GetCall org id d = inl c -> calls d !! id = Some c /\ OrganizationID c = org.
Proof.
  unfold GetCall. destruct (calls d !! id) as [c'|]; [|done]. case_decide; [|done].
  by intros [= ->].
Qed.

Lemma controlled org id l (k : Call * string -> M World unit) w :
  (forall c ch, CallState c ∉ l -> sent_same (k (c, ch))) ->
  w_sent (snd ((let! x := controlContext org id in k x) w)) <> w_sent w -> may_control org id l w.
Proof.
  intros Hk. unfold bind. destruct (controlContext org id w) as [r w1] eqn:E.
  apply controlContext_inv in E as [Hs Hr]. destruct r as [[c ch]|e]; [|done].
  destruct Hr as [[Hc Ho]%GetCall_inv Hch]. intros Hne.
  destruct (decide (CallState c ∈ l)) as [Hin|Hin]; [by exists c, ch|].
  destruct Hne. by rewrite (Hk c ch Hin w1).
Qed.

(** C6: commands go to FreeSWITCH only on behalf of the tenant that owns the
    call. Whatever fails, if a control request writes anything to the socket then
    the call it names exists and belongs to the organization of the request, is
    in one of the states the operation is allowed in, none of them terminal, and
    has a bound channel. *)
Theorem control_is_tenant_safe r org id l w :
  control_of r = Some (org, id, l) -> w_sent (snd (handle r w)) <> w_sent w ->
  may_control org id l w /\ Forall (fun s => is_terminal s = false) l.
Proof.
  intros Hr Hs. split; [|destruct r; try done; injection Hr as <- <- <-; repeat constructor].
  assert (Hlift : forall A (x : result A) (k : A -> M World unit),
    w_sent (snd ((let! y := lift x in k y) w)) <> w_sent w ->
    exists y, w_sent (snd (k y w)) <> w_sent w).
  { intros A [y|e] k Hy; [by exists y|done]. }
  assert (Hc : forall l' fn, w_sent (snd (control org id l' fn w)) <> w_sent w -> may_control org id l' w).
  { intros l' fn. apply controlled. intros c ch Hn w1. by rewrite bool_decide_false. }
  assert (Hconn : forall e (k : Call -> string -> M World unit) c ch,
    CallState c ∉ [StateAnswered; StateActive] ->
    sent_same (throw_if (negb (connected_state c)) e;; k c ch)).
  { intros e k c ch Hn w1. rewrite !not_elem_of_cons in Hn. unfold connected_state.
    by rewrite !bool_decide_false by naive_solver. }
  destruct r; try done; injection Hr as <- <- <-; cbn [handle] in Hs;
    unfold Answer, Hangup, Transfer, Hold, Resume, Play, Stop, Record_, DTMF in Hs;
    try (apply Hlift in Hs as [y Hs]); try (by apply Hc in Hs).
  - revert Hs. apply controlled. intros c ch Hn w1.
    rewrite !not_elem_of_cons in Hn. by destruct (CallState c); naive_solver.
  - revert Hs. by apply controlled, Hconn.
  - revert Hs. by apply controlled, Hconn.
  - destruct y as [p a]. by apply Hc in Hs.
Qed.
End Tenancy.

(** ** Runs *)
Section Run.
#[local] Existing Instance decimal_uuid.

Definition ex_tables : Routing.Tables := {|
  Routing.trunks := [Routing.ex_trunk];
  Routing.endpoints := Routing.endpoints Routing.ex_tables;
  Routing.bindings := [{| Routing.b_ID := 4; Routing.b_OrganizationID := 5; Routing.b_VoiceAgentID := 2;
                          Routing.b_PhoneNumberID := 3 |}];
  Routing.phone_numbers := [{| Routing.p_ID := 3; Routing.p_OrganizationID := 5;
    Routing.p_Number := "+15550100"; Routing.p_TrunkID := Some 9; Routing.p_Status := "active";
    Routing.p_VoiceEnabled := true |}];
  Routing.voice_agents := [{| Routing.a_ID := 2; Routing.a_OrganizationID := 5;
                              Routing.a_Status := "active" |}];
  Routing.organizations := [{| Routing.o_ID := 5; Routing.o_Status := "active";
                               Routing.o_Deleted := false |}] |}.
Definition ex_world (faults : list fault) : World := {|
  w_db := empty_db; w_redis := {| Redis.s_now := 1000; Redis.s_keys := ∅ |}; w_tables := ex_tables;
  w_sent := []; w_replies := []; w_now := 1000; w_next := 10; w_faults := faults; w_ctx := None;
  w_metrics := [] |}.
Definition ex_create : CreateRequest := {|
  cr_VoiceAgentID := None; cr_TrunkID := Some 9; cr_FromURI := "+15550100"; cr_ToURI := "+15550101";
  cr_Privacy := false; cr_DTMFMode := ""; cr_MediaEncryption := ""; cr_Direction := DirectionOutbound;
  cr_SIPCallID := None |}.
Definition ex_event (t : LifecycleEventType) : LifecycleEvent := {|
  le_CallID := 10; le_ChannelID := "chan-10"; le_SIPCallID := "sip-10"; le_Type := t;
  le_HangupReason := Some "NORMAL_CLEARING" |}.
(** A call created, answered and completed, the answer delivered twice. *)
Definition ex_requests : list request :=
  [RCreate true 5 ex_create; RLifecycle (ex_event LifecycleAnswered);
   RLifecycle (ex_event LifecycleAnswered); RHold 5 10; RLifecycle (ex_event LifecycleCompleted)].
Definition ex_after (n : nat) : World := snd (serve (take n ex_requests) (ex_world [])).
Definition call_in (w : World) (id : UUID) : Call := default zero_call (calls (w_db w) !! id).

Lemma ex_world_reaches faults : reaches empty_db (ex_world faults).
Proof. split; [apply rtc_refl|]. intros id [c Hc]. done. Qed.

Lemma service_refines_call_machine_witness :
  history [(StateInitiating, MediaStateActive); (StateAnswered, MediaStateActive);
           (StateCompleted, MediaStateActive)] (StateCompleted, MediaStateActive).
Proof.
  destruct (service_refines_call_machine ex_requests (ex_world []) empty_db 10 (call_in (ex_after 5) 10))
    as (_ & H & _); [apply ex_world_reaches|apply rtc_refl|vm_compute; reflexivity|].
  vm_compute in H |- *. exact H.
Defined.


Lemma control_is_tenant_safe_witness :
  may_control 5 10 [StateAnswered; StateActive] (ex_after 2) /\
  w_sent (snd (handle (RHold 6 10) (ex_after 2))) = w_sent (ex_after 2).
Proof.
  split; [|vm_compute; reflexivity].
  apply (control_is_tenant_safe (RHold 5 10)); [done|vm_compute; discriminate].
Defined.
End Run.
End CallSafety.
