(* ===== verification/CallOutcomes.v ===== *)
(** * Outcomes of the call service

    Theorems on the handlers of [CallService.v] when no external call fails:
    creation and admission succeed completely or leave nothing behind, a terminal
    event frees what the call held; and the cases in which they do not do what
    they mean to. *)

From S2P Require Import Prelude Redis Routing Admission CallStore FreeSWITCH Controller Failover Server.
From S2P Require Import CallService CallSafety.
Import CallStore Server CallService CallSafety.

Module CallOutcomes.
(** ** Runs in which no external call fails *)

Definition calm (w : World) : Prop := w_faults w = [].

Lemma ext_calm {A} (op : World -> result A * World) w : calm w -> ext op w = op w.
Proof. unfold calm, ext. simpl. by intros ->. Qed.
Lemma keeps_calm_ext {A} (op : World -> result A * World) : keeps calm op -> keeps calm (ext op).
Proof. intros Ho w Hw. rewrite ext_calm by done. by apply Ho. Qed.
Lemma on_redis_calm {A} (m : M Redis.Store A) w :
  calm w -> on_redis m w = (fst (m (w_redis w)), with_redis (snd (m (w_redis w))) w).
Proof. intros Hw. unfold on_redis. rewrite ext_calm by done. by destruct (m _). Qed.
Lemma query_calm {A} (f : Z -> DB -> result A) (w : World) :
  calm w -> query f w = (f (w_now w) (w_db w), w).
Proof. intros Hw. unfold query. by rewrite ext_calm. Qed.
Lemma exec_calm f (w : World) :
  calm w -> exec f w = match f (w_now w) (w_db w) with
                       | inl (c, d) => (inl c, with_db d w)
                       | inr e => (inr e, w)
                       end.
Proof. intros Hw. unfold exec. by rewrite ext_calm. Qed.
Lemma mutate_calm subject f (w : World) :
  calm w ->
  mutate subject f w =
  match f (w_next w) (w_now w) (w_db w) with
  | inl (c, d) => (inl c, with_db (InsertCallEvent (w_now w) subject c d) (with_next (w_next w + 1) w))
  | inr e => (inr e, with_next (w_next w + 1) w)
  end.
Proof.
  intros Hw. unfold mutate, bind, wrap. rewrite !ext_calm by done. simpl.
  assert (Hn : calm (with_next (w_next w + 1) w)) by done.
  rewrite (ext_calm _ _ Hn). simpl. destruct (f _ _ _) as [[c d]|]; [|done].
  by rewrite !(ext_calm _ _ Hn).
Qed.

Section Calm.
Context {U : UuidLib} {UL : UuidLaws U}.

Lemma ignore_calm {A} (m : M World A) w : ignore m w = (inl tt, snd (m w)).
Proof. done. Qed.

(** The release of a call in a calm run. *)
Lemma release_call_run id t w :
  calm w -> id <> uuid_Nil -> (forall trunk, t = Some trunk -> trunk <> uuid_Nil) ->
  exists s, release_call id t w = (inl tt, with_redis s w) /\
    fst (Admission.ChannelStore_Get id s) = inr (Sentinel Admission.ErrChannelUnavailable) /\
    (forall trunk, t = Some trunk -> Admission.trunk_leases trunk s !! uuid_String id = None) /\
    (forall trunk, t <> Some trunk -> Admission.trunk_leases trunk s = Admission.trunk_leases trunk (w_redis w)).
Proof.
  intros Hw Hid Ht. unfold release_call. rewrite (bind_eq _ _ _ _ _ (ignore_calm _ w)).
  unfold channels_Delete. rewrite on_redis_calm by done. simpl.
  set (s1 := snd (Admission.ChannelStore_Delete id (w_redis w))).
  assert (Hd : Redis.lookup_key (Admission.channelKey id) s1 = None) by by apply Admission.Delete_channel.
  destruct t as [trunk|].
  - rewrite ignore_calm. unfold admission_Release. rewrite on_redis_calm by done. simpl.
    eexists. split; [done|]. split_and!.
    + apply Admission.Get_unbound; [done|]. by rewrite Admission.Release_channel.
    + intros t [= <-]. apply Admission.Release_frees; [by apply Ht|apply uuid_String_nonempty].
    + intros t Hne. rewrite Admission.Release_other by congruence. apply Admission.Delete_leases.
  - exists s1. split; [done|]. split_and!; [by apply Admission.Get_unbound|done|].
    intros t _. apply Admission.Delete_leases.
Qed.

Lemma sip_free d id c : db_ok d -> calls d !! id = Some c -> sip_taken d id (SipCallID c) = false.
Proof.
  intros Hok Hc. destruct (SipCallID c) as [sip|] eqn:E; [|done].
  apply sip_taken_false. intros j c' Hj Hs. by apply (ok_sip d Hok j id c' c sip).
Qed.

(** An update whose guard holds succeeds when it leaves the SIP identity alone. *)
Lemma update_call_run now org id guard f d c :
  db_ok d -> calls d !! id = Some c -> OrganizationID c = org -> guard c = true ->
  SipCallID (f c) = SipCallID c ->
  update_call now org id guard f d
    = inl (touch now (f c), set_calls (<[id := touch now (f c)]> (calls d)) d).
Proof.
  intros Hok Hc Ho Hg Hs. unfold update_call. rewrite Hc, bool_decide_true, Hg by done. simpl.
  by rewrite Hs, sip_free.
Qed.

Lemma bind_sip_calm s event w w' :
  calm w -> bind_sip_identity s event w = (inl tt, w') -> calm w' /\ w_redis w' = w_redis w.
Proof.
  intros Hw. unfold bind_sip_identity. case_decide; [|by intros [= <-]].
  unfold wrap, BindOutboundSIPCallID, bind. rewrite exec_calm by done.
  destruct (SetOutboundCallSIPCallID _ _ _ _ _) as [[c d]|]; [|done]. by intros [= <-].
Qed.
Lemma keeps_bind_sip d0 s event : keeps (reaches (W := World) d0) (bind_sip_identity s event).
Proof. unfold bind_sip_identity. keeps_tac. Qed.

(** The terminal events the call state machine accepts from the state of the call. *)
Definition ends_call (t : LifecycleEventType) (c : Call) : Prop :=
  match t with
  | LifecycleCompleted | LifecycleFailed => True
  | LifecycleCancelled =>
      is_terminal (CallState c) = true \/ CallState c = StateInitiating \/ CallState c = StateRinging
  | _ => False
  end.

Lemma apply_terminal_run event w c :
  calm w -> db_ok (w_db w) -> calls (w_db w) !! le_CallID event = Some c ->
  le_CallID event <> uuid_Nil -> OrganizationID c <> uuid_Nil ->
  ends_call (le_Type event) c -> is_terminal (CallState c) = false ->
  exists c' d' n, apply_event (OrganizationID c) event w = (inl tt, with_db d' (with_next n w)) /\
    calls d' !! le_CallID event = Some c' /\ is_terminal (CallState c') = true /\
    EndedAt c' = coalesce (EndedAt c) (Some (w_now w)).
Proof.
  intros Hw Hok Hc Hid Ho He Ht.
  assert (Hrun : forall subject guard st reason, is_terminal st = true -> guard c = true ->
    let m := lift (validateIDs (OrganizationID c) (le_CallID event));;
      wrap translateMutationError (mutate subject (fun _ now => update_call now (OrganizationID c)
        (le_CallID event) guard (finish now st reason))) in
    exists c' d' n, (m;; ret tt) w = (inl tt, with_db d' (with_next n w)) /\
      calls d' !! le_CallID event = Some c' /\ is_terminal (CallState c') = true /\
      EndedAt c' = coalesce (EndedAt c) (Some (w_now w))).
  { intros subject guard st reason Hst Hg. cbv zeta. unfold bind, wrap, lift.
    assert (validateIDs (OrganizationID c) (le_CallID event) = inl tt) as ->.
    { unfold validateIDs, validateOrganizationID, validateCallID. by rewrite !decide_False. }
    rewrite mutate_calm by done. rewrite (update_call_run _ _ _ _ _ _ c) by done.
    eexists _, _, _. split; [done|]. simpl. by rewrite lookup_insert_eq. }
  unfold apply_event. destruct (le_Type event); simpl in He; try done.
  - apply Hrun; [done|]. by rewrite Ht.
  - apply Hrun; [done|]. by rewrite Ht.
  - apply Hrun; [done|]. destruct He as [He|He]; [congruence|].
    unfold state_in. apply bool_decide_eq_true. rewrite elem_of_cons, list_elem_of_singleton. done.
Qed.


(** an event that arrives after the end of its call brings back what the end
    freed: the call stays terminal, but its channel is bound again and its trunk
    is charged a lease for 26 hours. *)
Theorem late_event_reopens_lease event w c trunk m :
  calm w -> calls (w_db w) !! le_CallID event = Some c ->
  is_terminal (CallState c) = true -> isTerminalLifecycle (le_Type event) = false ->
  applied (le_Type event) c = true -> le_CallID event <> uuid_Nil ->
  CallDirection c = DirectionInbound \/ TrimSpace (le_SIPCallID event) = "" ->
  TrimSpace (le_ChannelID event) <> "" ->
  TrunkID c = Some trunk -> trunk <> uuid_Nil ->
  Admission.trunk_zset trunk (w_redis w) = inl m ->
  exists w', ObserveLifecycle event w = (inl tt, w') /\ w_db w' = w_db w /\
    fst (Admission.ChannelStore_Get (le_CallID event) (w_redis w'))
      = inl (TrimSpace (le_ChannelID event)) /\
    Admission.trunk_leases trunk (w_redis w') !! uuid_String (le_CallID event)
      = Some (w_now w + 93600000).
Proof.
  intros Hw Hc Ht Hnt Hap Hid Hdir Hch Htr Hne Hm.
  destruct (Admission.ChannelStore_Bind_run (le_CallID event) (le_ChannelID event) (w_redis w) Hid Hch)
    as (Hb & Hget & Hk).
  set (s1 := snd (Admission.ChannelStore_Bind _ _ _)) in *.
  assert (Hm1 : Admission.trunk_zset trunk s1 = inl m).
  { rewrite <- Hm. unfold Admission.trunk_zset, Redis.get_zset. by rewrite Hk. }
  destruct (Admission.Refresh_run (w_now w) trunk (le_CallID event) s1 m Hne Hid Hm1) as (Hr & Hl & Hck).
  set (s2 := snd (Admission.Refresh _ _ _ _)) in *.
  exists (with_redis s2 w). split_and!; [|done| |exact Hl].
  - unfold ObserveLifecycle, throw_if. rewrite bool_decide_false by done.
    rewrite (bind_eq (ret tt) _ w tt w eq_refl).
    rewrite decide_True by (split; [by intros E; rewrite E in Hch|done]).
    assert (Hbind : wrap (NewInternal "bind call channel")
              (channels_Bind (le_CallID event) (le_ChannelID event)) w = (inl tt, with_redis s1 w)).
    { unfold wrap, channels_Bind. rewrite on_redis_calm by done. by rewrite Hb. }
    rewrite (bind_eq _ _ _ _ _ Hbind). unfold GetLifecycleSnapshot, attempt, bind at 1.
    rewrite query_calm by done. unfold GetCallLifecycleSnapshot. simpl. rewrite Hc. simpl.
    unfold observe_known. assert (Hsip : bind_sip_identity (snapshot c) event = ret tt).
    { unfold bind_sip_identity. simpl. rewrite decide_False; [done|].
      intros [Hd Hs]. destruct Hdir; congruence. }
    rewrite Hsip. rewrite (bind_eq (ret tt) _ _ tt _ eq_refl). simpl. rewrite Htr, Hnt.
    assert (Href : wrap (NewServiceUnavailable "refresh trunk call lease")
              (admission_Refresh trunk (le_CallID event)) (with_redis s1 w) = (inl tt, with_redis s2 w)).
    { unfold wrap, admission_Refresh, now_ms, gets, bind. simpl. rewrite on_redis_calm by done.
      simpl. by rewrite Hr. }
    rewrite (bind_eq _ _ _ _ _ Href). unfold applied in Hap. by rewrite Hap.
  - simpl. rewrite <- Hget. rewrite !Admission.ChannelStore_Get_lookup by done.
    unfold Redis.get_str. rewrite Hck. by repeat case_match.
Qed.

(** *** Creation *)

(** The call [id] of [org] is in the state [st], with its trunk as [P] says. *)
Definition pending (st : State) (org id : UUID) (P : option UUID -> Prop) (w : World) : Prop :=
  calm w /\ reaches empty_db w /\
  exists c, calls (w_db w) !! id = Some c /\ OrganizationID c = org /\
            CallState c = st /\ P (TrunkID c).
Definition unleased (id : UUID) (w : World) : Prop :=
  forall t, Admission.trunk_leases t (w_redis w) !! uuid_String id = None.
(** The call holds a lease on [trunk], and on no other trunk. *)
Definition leased_on (id trunk : UUID) (w : World) : Prop :=
  is_Some (Admission.trunk_leases trunk (w_redis w) !! uuid_String id) /\
  forall t, t <> trunk -> Admission.trunk_leases t (w_redis w) !! uuid_String id = None.
Definition any_trunk (_ : option UUID) : Prop := True.

Lemma set_route_calm st org id route w :
  pending st org id any_trunk w ->
  exists c d, Repo_SetRouteAttribution org id route w = (inl c, with_db d w) /\
    calls d !! id = Some c /\ OrganizationID c = org /\ CallState c = st /\ ID c = id /\
    CallDirection c = CallDirection (default zero_call (calls (w_db w) !! id)) /\
    TrunkID c = ra_TrunkID route.
Proof.
  intros (Hw & Hr & c & Hc & Ho & Hs & _). unfold Repo_SetRouteAttribution. rewrite exec_calm by done.
  unfold SetCallRouteAttribution.
  rewrite (update_call_run _ _ _ _ _ _ c (reachable_db_ok _ (proj1 Hr))) by done.
  eexists _, _. split; [done|]. simpl. rewrite lookup_insert_eq, Hc. split_and!; try done. simpl.
  apply (ok_id _ _ (ok_calls _ (reachable_db_ok _ (proj1 Hr)) _ _ Hc)).
Qed.

(** Origination writes to the socket only. *)
Lemma originate_calm req w :
  calm w ->
  let r := Controller.Originate req w in
  calm (snd r) /\ w_db (snd r) = w_db w /\ w_redis (snd r) = w_redis w /\
  match fst r with inl ch => TrimSpace ch <> "" | inr _ => True end.
Proof.
  intros Hw. cbv zeta.
  set (K := fun w1 => calm w1 /\ w_db w1 = w_db w /\ w_redis w1 = w_redis w).
  assert (HK : keeps K (Controller.Originate req)).
  { unfold Controller.Originate. keeps_tac. apply FreeSWITCH.keeps_Originate.
    - intros w1 (H1 & H2). simpl. unfold K. by rewrite ext_calm.
    - intros w1 H1. exact H1.
    - intros line _ w1 (H1 & H2). simpl. rewrite ext_calm by done. unfold answer.
      by destruct (w_replies w1). }
  destruct (HK w) as (? & ? & ?); [done|]. split_and!; [done..|].
  destruct (Controller.Originate req w) as [[ch|e] w'] eqn:E; [|done]. simpl.
  unfold Controller.Originate in E.
  apply bind_ok in E as ([ep uri] & w1 & _ & E). apply bind_ok in E as (vars & w2 & _ & E).
  apply bind_ok in E as ([ch' d] & w3 & _ & E). apply bind_ok in E as (u & w4 & Ht & [= <- _]).
  unfold throw_if in Ht. by destruct (bool_decide_reflect (TrimSpace ch' = "")).
Qed.

Lemma create_attempt_calm org id req route w :
  pending StateInitiating org id any_trunk w -> unleased id w ->
  match create_attempt org id req route w with
  | (inl ch, w') => TrimSpace ch <> "" /\ leased_on id (Routing.TrunkID route) w' /\
      pending StateInitiating org id (fun t => t = Some (Routing.TrunkID route)) w'
  | (inr _, w') => pending StateInitiating org id any_trunk w' /\ unleased id w'
  end.
Proof.
  intros Hp Hu. pose proof (keeps_create_attempt empty_db org id req route w (proj1 (proj2 Hp))) as Hreach.
  destruct (set_route_calm _ org id {| ra_TrunkID := Some (Routing.TrunkID route);
    ra_TrunkEndpointID := Some (Routing.TrunkEndpointID route) |} w Hp) as (c & d & Hset & Hc & Ho & Hs & _ & _ & Ht).
  destruct Hp as (Hw & _). unfold create_attempt in *.
  unfold bind at 1, wrap at 1 in Hreach. unfold bind at 1, wrap at 1. rewrite Hset in *.
  set (w1 := with_db d w) in *. assert (Hw1 : calm w1) by exact Hw.
  unfold bind at 1, wrap at 1, admission_Acquire, now_ms, gets, bind at 1 in Hreach.
  unfold bind at 1, wrap at 1, admission_Acquire, now_ms, gets, bind at 1.
  rewrite on_redis_calm in * by done.
  destruct (Admission.Acquire_new (w_now w1) (Routing.TrunkID route) (uuid_String id)
    (Routing.RouteLimits route) (w_redis w1) (Hu _)) as [Hacq Hoth].
  destruct (Admission.Acquire _ _ _ _ (w_redis w1)) as [[u|e] s1]; cbn [fst snd] in *.
  2: { split; [by split_and!; [done|done|exists c]|]. intros t. simpl.
       destruct (decide (t = Routing.TrunkID route)) as [->|Hne]; [done|]. rewrite Hoth by done. apply Hu. }
  destruct Hacq as (Hnil & Hne & Hheld). set (w2 := with_redis s1 w1) in *.
  unfold bind, attempt in *. match goal with |- context [Controller.Originate ?q w2] => set (oreq := q) in * end.
  destruct (originate_calm oreq w2 Hw1) as (Hw3 & Hd3 & Hr3 & Hch).
  destruct (Controller.Originate oreq w2) as [[ch|e] w3]; cbn [fst snd] in *.
  - split_and!; [done|..]; simpl.
    + split; simpl; rewrite Hr3; [done|]. intros t Htne. simpl. rewrite Hoth by done. apply Hu.
    + split_and!; [done|done|]. exists c. by rewrite Hd3.
  - rewrite ignore_calm in *. unfold admission_Release in *. rewrite on_redis_calm in * by done.
    cbn [fst snd] in *. split; [split_and!; [done|done|exists c; simpl; by rewrite Hd3]|].
    intros t. simpl. rewrite Hr3. destruct (decide (t = Routing.TrunkID route)) as [->|Htne].
    + by apply Admission.Release_frees.
    + rewrite Admission.Release_other by done. simpl. rewrite Hoth by done. apply Hu.
Qed.

Lemma create_observe_core hm o w :
  let w' := Failover.observed (Some (create_observe hm)) o w in
  w_faults w' = w_faults w /\ w_db w' = w_db w /\ w_redis w' = w_redis w /\ w_next w' = w_next w.
Proof. unfold Failover.observed, create_observe. destruct hm; [case_decide|]; done. Qed.

Lemma pending_core st org id P w w' :
  w_faults w' = w_faults w /\ w_db w' = w_db w /\ w_redis w' = w_redis w /\ w_next w' = w_next w ->
  (pending st org id P w -> pending st org id P w') /\ (unleased id w -> unleased id w') /\
  (forall t, leased_on id t w -> leased_on id t w').
Proof.
  intros (Hf & Hd & Hr & Hn). unfold pending, unleased, leased_on, calm, reaches. simpl.
  by rewrite Hf, Hd, Hr, Hn.
Qed.

Lemma create_plan_calm hm org id req routes w :
  pending StateInitiating org id any_trunk w -> unleased id w ->
  match Failover.executeRoutePlan w_ctx
          (fun route => attempt_result (create_attempt org id req route)) (Some (create_observe hm)) routes w
  with
  | (inl (ch, route), w') => TrimSpace ch <> "" /\ leased_on id (Routing.TrunkID route) w' /\
      pending StateInitiating org id (fun t => t = Some (Routing.TrunkID route)) w'
  | (inr _, w') => pending StateInitiating org id any_trunk w' /\ unleased id w'
  end.
Proof.
  unfold Failover.executeRoutePlan. generalize 0 (None : option error). revert w.
  induction (take _ routes) as [|r rest IH]; intros w index lastErr Hp Hu; [done|].
  cbn [Failover.attempts]. destruct (w_ctx w) as [e|]; [done|].
  pose proof (create_attempt_calm org id req r w Hp Hu) as Ha. unfold attempt_result.
  destruct (create_attempt org id req r w) as [[ch|e] w1].
  - destruct Ha as (Hch & Hl & Hp1).
    destruct (pending_core StateInitiating org id (fun t => t = Some (Routing.TrunkID r)) _ _
      (create_observe_core hm {| Failover.Route := r; Failover.Attempt := index + 1;
         Failover.Outcome := Failover.succeeded; Failover.FailureClass := "";
         Failover.SIPStatus := 0; Failover.Err := None |} w1)) as (H1 & _ & H3).
    split_and!; [done|by apply H3|by apply H1].
  - destruct Ha as [Hp1 Hu1]. destruct (Failover.classifyOriginateFailure e) as [[class status] outcome].
    match goal with |- context [Failover.observed _ ?o w1] =>
      destruct (pending_core StateInitiating org id any_trunk _ _ (create_observe_core hm o w1)) as (H1 & H2 & _);
      set (w2 := Failover.observed _ o w1) in * end.
    case_decide; [apply IH; auto|]. split; auto.
Qed.

Lemma fail_call_calm st org id reason w :
  is_terminal st = false -> pending st org id any_trunk w ->
  exists c d, fail_call org id reason w = (inl tt, with_db d (with_next (w_next w + 1) w)) /\
    calls d !! id = Some c /\ OrganizationID c = org /\ CallState c = StateFailed.
Proof.
  intros Hst (Hw & Hr & c & Hc & Ho & Hs & _). unfold fail_call. rewrite ignore_calm. unfold Repo_MarkFailed.
  rewrite mutate_calm by done. unfold MarkCallFailed.
  rewrite (update_call_run _ _ _ _ _ _ c (reachable_db_ok _ (proj1 Hr))) by (done || by rewrite Hs, Hst).
  eexists _, _. split; [done|]. simpl. by rewrite lookup_insert_eq.
Qed.

Lemma resolve_calm req w : calm w -> exists r, Routing.ResolveOutbound req w = (r, w).
Proof.
  intros Hw. set (K := fun w1 => w1 = w).
  assert (HK : keeps K (Routing.ResolveOutbound req)).
  { assert (Hq : forall A (f : Routing.Tables -> result A), keeps K (Routing.query f)).
    { intros A f w1 ->. unfold Routing.query. by rewrite ext_calm. }
    unfold Routing.ResolveOutbound, Routing.ResolveBYOCOutbound. keeps_tac. }
  specialize (HK w eq_refl). destruct (Routing.ResolveOutbound req w) as [r w']. simpl in HK.
  exists r. by rewrite HK.
Qed.


(** *** Admission of an inbound call *)

(** The trunks hold no lease named [lease]. *)
Definition no_lease (lease : string) (s : Redis.Store) : Prop :=
  forall t, Admission.trunk_leases t s !! lease = None.

Lemma hangup_calm ch w :
  calm w -> let w' := snd (Controller.Hangup ch w) in
  calm w' /\ w_db w' = w_db w /\ w_redis w' = w_redis w.
Proof.
  intros Hw. set (K := fun w1 => calm w1 /\ w_db w1 = w_db w /\ w_redis w1 = w_redis w).
  assert (HK : keeps K (Controller.Hangup ch)); [|by apply HK].
  apply keeps_wrap. change (keeps K (FreeSWITCH.run_op (FreeSWITCH.OpHangup ch))).
  apply FreeSWITCH.keeps_run_op.
  - intros w1 (H1 & H2). simpl. unfold K. by rewrite ext_calm.
  - intros w1 H1. exact H1.
  - intros line _ w1 (H1 & H2). simpl. rewrite ext_calm by done. unfold answer.
    by destruct (w_replies w1).
Qed.
Lemma reject_calm {A} ch e w :
  calm w -> exists e' w', rejectInbound (A := A) ch e w = (inr e', w') /\
    calm w' /\ w_db w' = w_db w /\ w_redis w' = w_redis w.
Proof.
  intros Hw. unfold rejectInbound, attempt, bind. eexists _, _. split; [done|]. by apply hangup_calm.
Qed.
Lemma set_call_id_calm ch id w :
  calm w -> let w' := snd (Controller.SetCallID ch id w) in
  calm w' /\ w_db w' = w_db w /\ w_redis w' = w_redis w.
Proof.
  intros Hw. set (K := fun w1 => calm w1 /\ w_db w1 = w_db w /\ w_redis w1 = w_redis w).
  assert (HK : keeps K (Controller.SetCallID ch id)); [|by apply HK].
  unfold Controller.SetCallID. keeps_tac.
  change (keeps K (FreeSWITCH.run_op (FreeSWITCH.OpSetVariable ch Controller.leamoutCallIDVar (uuid_String id)))).
  apply FreeSWITCH.keeps_run_op.
  - intros w1 (H1 & H2). simpl. unfold K. by rewrite ext_calm.
  - intros w1 H1. exact H1.
  - intros line _ w1 (H1 & H2). simpl. rewrite ext_calm by done. unfold answer.
    by destruct (w_replies w1).
Qed.

(** Binding the channel of an inbound call: bound, or unbound again. *)
Lemma bindInbound_calm c ch w :
  calm w -> ID c <> uuid_Nil -> TrimSpace ch <> "" ->
  exists r w', bindInboundChannel c ch w = (r, w') /\ calm w' /\ w_db w' = w_db w /\
    (forall t, Admission.trunk_leases t (w_redis w') = Admission.trunk_leases t (w_redis w)) /\
    match r with
    | inl _ => fst (Admission.ChannelStore_Get (ID c) (w_redis w')) = inl (TrimSpace ch)
    | inr _ => fst (Admission.ChannelStore_Get (ID c) (w_redis w'))
                 = inr (Sentinel Admission.ErrChannelUnavailable)
    end.
Proof.
  intros Hw Hid Hch.
  destruct (Admission.ChannelStore_Bind_run (ID c) ch (w_redis w) Hid Hch) as (Hb & Hget & Hk).
  unfold bindInboundChannel, bind at 1, wrap, channels_Bind. rewrite on_redis_calm by done. rewrite Hb.
  set (w1 := with_redis _ w). assert (Hw1 : calm w1) by exact Hw.
  destruct (set_call_id_calm ch (ID c) w1 Hw1) as (Hw2 & Hd2 & Hr2). unfold bind at 1, attempt.
  destruct (Controller.SetCallID ch (ID c) w1) as [r w2]. cbn [fst snd] in *.
  assert (Hl : forall t, Admission.trunk_leases t (w_redis w2) = Admission.trunk_leases t (w_redis w)).
  { intros t. rewrite Hr2. unfold Admission.trunk_leases, Redis.leases, Redis.get_zset. simpl. by rewrite Hk. }
  destruct r as [u|e].
  - exists (inl tt), w2. split_and!; [done..|]. by rewrite Hr2.
  - rewrite (bind_eq _ _ _ _ _ (ignore_calm _ w2)). unfold channels_Delete. rewrite on_redis_calm by done.
    eexists _, _. split; [done|]. split_and!; [done|done| |].
    + intros t. simpl. rewrite <- Hl. apply Admission.Delete_leases.
    + simpl. apply Admission.Get_unbound; [done|]. by apply Admission.Delete_channel.
Qed.

Lemma inbound_not_taken d id sip :
  GetCallBySIPCallIDGlobal sip d = no_rows -> sip_taken d id (Some sip) = false.
Proof.
  unfold GetCallBySIPCallIDGlobal. destruct (filter _ _) as [|c l] eqn:E; [|done]. intros _.
  apply sip_taken_false. intros j c Hj Hs.
  assert (H : c ∈ filter (fun c => SipCallID c = Some sip) (snd <$> map_to_list (calls d))).
  { apply list_elem_of_filter. split; [done|]. apply list_elem_of_fmap. exists (j, c).
    split; [done|]. by apply elem_of_map_to_list. }
  rewrite E in H. by apply not_elem_of_nil in H.
Qed.

Lemma resolve_inbound_calm req w :
  calm w -> exists r, Routing.ResolveInbound req w = (r, w) /\
    forall d, r = inl d -> Routing.ir_TrunkID (Routing.id_Request d) = Routing.ir_TrunkID req.
Proof.
  intros Hw. set (K := fun w1 => w1 = w).
  assert (HK : forall q, keeps K (Routing.GetInboundContext q)).
  { assert (Hq : forall A (f : Routing.Tables -> result A), keeps K (Routing.query f)).
    { intros A f w1 ->. unfold Routing.query. by rewrite ext_calm. }
    intros q. unfold Routing.GetInboundContext. keeps_tac. }
  unfold Routing.ResolveInbound, bind, wrap, lift.
  destruct (Routing.validateInboundRequest _); [|by eexists].
  specialize (HK (Routing.normalizeInboundRequest req) w eq_refl).
  destruct (Routing.GetInboundContext _ w) as [[l|e] w1]; simpl in HK; rewrite HK; [|by eexists].
  eexists. split; [done|]. by intros d [= <-].
Qed.

(** What an admission leaves: the call [id] with its lease and channel, or no lease at all. *)
Definition admitted (req : InboundAdmissionRequest) (id : UUID) (c : Call) (w : World) : Prop :=
  calls (w_db w) !! id = Some c /\ OrganizationID c = in_OrganizationID req /\
  CallState c = StateRinging /\ CallDirection c = DirectionInbound /\
  TrunkID c = Some (in_TrunkID req) /\ leased_on id (in_TrunkID req) w /\
  fst (Admission.ChannelStore_Get id (w_redis w)) = inl (TrimSpace (in_ChannelID req)).
Definition refused (req : InboundAdmissionRequest) (id : UUID) (d : DB) (w : World) : Prop :=
  no_lease (in_ChannelID req) (w_redis w) /\ unleased id w /\
  (w_db w = d \/ exists c, calls (w_db w) !! id = Some c /\ CallState c = StateFailed).

Lemma bind_inbound_calm req id d0 c w :
  pending StateRinging (in_OrganizationID req) id (fun t => t = Some (in_TrunkID req)) w ->
  calls (w_db w) !! id = Some c -> CallDirection c = DirectionInbound ->
  id <> uuid_Nil -> TrimSpace (in_ChannelID req) <> "" -> in_TrunkID req <> uuid_Nil ->
  in_ChannelID req <> uuid_String id ->
  (forall t, is_Some (Admission.trunk_leases t (w_redis w) !! in_ChannelID req) <-> t = in_TrunkID req) ->
  unleased id w ->
  match bind_inbound req (in_TrunkID req) c w with
  | (inl c', w') => admitted req id c' w'
  | (inr _, w') => refused req id d0 w'
  end.
Proof.
  intros (Hw & Hr & c0 & Hc0 & Ho & Hs & Ht) Hc Hdir Hn Hch Htn Hcn Hheld Hu.
  rewrite Hc0 in Hc. injection Hc as ->. rename Hc0 into Hc.
  assert (Hid : ID c = id) by apply (ok_id _ _ (ok_calls _ (reachable_db_ok _ (proj1 Hr)) _ _ Hc)).
  unfold bind_inbound. rewrite Hid.
  set (tr := in_TrunkID req) in *. set (ch := in_ChannelID req) in *.
  destruct (proj2 (Hheld tr) eq_refl) as [x Hx].
  destruct (Admission.Bind_held tr ch id (w_redis w) x) as (Hb & Hbl & Hbo);
    [done|by intros E; rewrite E in Hch|done|done|].
  unfold bind at 1, attempt at 1, admission_Bind. rewrite on_redis_calm by done. rewrite Hb. cbn [fst snd].
  set (w3 := with_redis _ w). assert (Hw3 : calm w3) by exact Hw.
  assert (Hlt : forall t, Admission.trunk_leases t (w_redis w3) !! ch = None /\
     (is_Some (Admission.trunk_leases t (w_redis w3) !! uuid_String id) <-> t = tr)).
  { intros t. change (w_redis w3) with (snd (Admission.Bind tr ch id (w_redis w))).
    destruct (decide (t = tr)) as [->|Hne].
    - rewrite Hbl, lookup_insert_ne, lookup_delete_eq, lookup_insert_eq by done. split; [done|by split].
    - rewrite Hbo by done. rewrite Hu. split; [|by split; [intros [? ?]|]].
      apply eq_None_not_Some. intros H. by apply Hheld in H. }
  destruct (bindInbound_calm c ch w3 Hw3 ltac:(by rewrite Hid) Hch) as (r & w4 & Hbi & Hw4 & Hd4 & Hl4 & Hg4).
  rewrite Hid in Hg4. unfold bind at 1, attempt at 1. rewrite Hbi. cbn [fst snd].
  assert (Hno : forall t, t <> tr -> Admission.trunk_leases t (w_redis w3) !! uuid_String id = None).
  { intros t Hne. apply eq_None_not_Some. by rewrite (proj2 (Hlt t)). }
  destruct r as [u|e].
  { split_and!; [by rewrite Hd4|done..| |done]. split; [rewrite Hl4; by apply Hlt|].
    intros t Hne. rewrite Hl4. by apply Hno. }
  rewrite (bind_eq _ _ _ _ _ (ignore_calm _ w4)). unfold admission_Release. rewrite on_redis_calm by done.
  cbn [fst snd]. set (w5 := with_redis _ w4).
  assert (Hp5 : pending StateRinging (in_OrganizationID req) id any_trunk w5).
  { split_and!; [exact Hw4| |exists c; simpl; by rewrite Hd4].
    assert (Hk : reaches empty_db (snd (bindInboundChannel c ch w3))); [|rewrite Hbi in Hk; exact Hk].
    apply keeps_bindInbound. exact Hr. }
  destruct (fail_call_calm StateRinging (in_OrganizationID req) id "inbound_channel_binding_failed" w5 eq_refl Hp5)
    as (c5 & d5 & Hf & Hc5 & _ & Hs5). rewrite (bind_eq _ _ _ _ _ Hf).
  set (w6 := with_db _ _). destruct (reject_calm (A := Call) ch e w6 Hw4) as (e' & w7 & -> & _ & Hd7 & Hr7).
  split_and!; [| |right; exists c5; by rewrite Hd7]; intros t; rewrite Hr7; simpl.
  - apply Admission.Release_none. rewrite Hl4. apply Hlt.
  - destruct (decide (t = tr)) as [->|Hne]; [by apply Admission.Release_frees, uuid_String_nonempty|].
    rewrite Admission.Release_other, Hl4 by done. by apply Hno.
Qed.

Lemma create_inbound_calm req w :
  calm w -> reaches empty_db w -> w_next w <> uuid_Nil -> TrimSpace (in_ChannelID req) <> "" ->
  in_TrunkID req <> uuid_Nil -> in_ChannelID req <> uuid_String (w_next w) ->
  sip_taken (w_db w) (w_next w) (Some (in_SIPCallID req)) = false ->
  (forall t, is_Some (Admission.trunk_leases t (w_redis w) !! in_ChannelID req) <-> t = in_TrunkID req) ->
  unleased (w_next w) w ->
  match create_inbound req (in_TrunkID req) w with
  | (inl c, w') => admitted req (w_next w) c w'
  | (inr _, w') => refused req (w_next w) (w_db w) w'
  end.
Proof.
  intros Hw Hr Hn Hch Htn Hcn Hsip Hheld Hu. unfold create_inbound.
  pose proof (keeps_Repo_CreateInbound empty_db req w Hr) as Hr1.
  unfold bind at 1, attempt at 1. unfold Repo_CreateInbound in *. rewrite mutate_calm in * by done.
  unfold CreateCall in *. rewrite Hsip in *. cbn [fst snd] in *.
  match goal with |- context [with_db ?d ?x] => set (w1 := with_db d x) in * end.
  match goal with |- context [ID ?c0] => set (call := c0) in * end.
  change (ID call) with (w_next w).
  assert (Hp : pending StateRinging (in_OrganizationID req) (w_next w) any_trunk w1).
  { split_and!; [exact Hw|exact Hr1|]. exists call. simpl. by rewrite lookup_insert_eq. }
  destruct (set_route_calm _ _ _ {| ra_TrunkID := Some (in_TrunkID req); ra_TrunkEndpointID := None |} _ Hp)
    as (c & d & Hset & Hc & Ho & Hs & Hid & Hdir & Ht).
  pose proof (keeps_SetRouteAttribution empty_db (in_OrganizationID req) (w_next w)
    {| ra_TrunkID := Some (in_TrunkID req); ra_TrunkEndpointID := None |} w1 (proj1 (proj2 Hp))) as Hr2.
  unfold bind at 1, attempt at 1. rewrite Hset in *. cbn [fst snd] in *.
  simpl in Hdir. rewrite lookup_insert_eq in Hdir. simpl in Hdir.
  apply bind_inbound_calm; try done. split_and!; [exact Hw|exact Hr2|by exists c].
Qed.


(** The creation of the call succeeds, and the statement after it fails. *)
Definition attribution_fails (e : error) (w : World) : Prop :=
  w_faults w = [FOk; FOk; FOk; FOk; FBefore e].

(** when the trunk attribution of a new inbound call fails, the admission
    forgets the call: it fails the call with the nil identifier, because the
    failed query overwrote the one it had, and the stored call rings for ever. *)
Theorem lost_attribution_keeps_ringing req trunk w e :
  attribution_fails e w -> w_next w <> uuid_Nil ->
  calls (w_db w) !! uuid_Nil = None ->
  sip_taken (w_db w) (w_next w) (Some (in_SIPCallID req)) = false ->
  exists e' w' c, create_inbound req trunk w = (inr e', w') /\
    calls (w_db w') !! w_next w = Some c /\ CallState c = StateRinging.
Proof.
  unfold attribution_fails. intros Hf Hn Hnil Hsip. unfold create_inbound, bind at 1, attempt at 1.
  assert (Hcreate : exists c d n, Repo_CreateInbound req w
     = (inl c, with_faults [FBefore e] (with_db d (with_next n w))) /\
     ID c = w_next w /\ calls d !! w_next w = Some c /\ CallState c = StateRinging /\
     calls d !! uuid_Nil = None).
  { unfold Repo_CreateInbound, mutate, bind, wrap, ext. simpl. rewrite Hf. simpl.
    unfold CreateCall. rewrite Hsip. simpl. eexists _, _, _. split; [done|]. simpl.
    split_and!; [done|by rewrite lookup_insert_eq|done|]. by rewrite lookup_insert_ne. }
  destruct Hcreate as (c & d & n & -> & Hid & Hc & Hs & Hnil'). cbn [fst snd].
  set (w1 := with_faults _ _). unfold bind at 1, attempt at 1.
  assert (Repo_SetRouteAttribution (in_OrganizationID req) (ID c)
     {| ra_TrunkID := Some (in_TrunkID req); ra_TrunkEndpointID := None |} w1
     = (inr e, with_faults [] w1)) as -> by done.
  cbn [fst snd]. set (w2 := with_faults [] w1). assert (Hw2 : calm w2) by done.
  rewrite (bind_eq _ _ _ _ _ (ignore_calm _ w2)). unfold admission_Release. rewrite on_redis_calm by done.
  cbn [snd]. set (w3 := with_redis _ w2). unfold fail_call. rewrite (bind_eq _ _ _ _ _ (ignore_calm _ w3)).
  unfold Repo_MarkFailed. rewrite mutate_calm by done. unfold MarkCallFailed, update_call.
  change (ID zero_call) with uuid_Nil. change (calls (w_db w3)) with (calls d). rewrite Hnil'. cbn [snd].
  match goal with |- context [rejectInbound ?ch ?er ?x] =>
    destruct (reject_calm (A := Call) ch er x Hw2) as (e' & w' & -> & _ & Hd & _) end.
  exists e', w', c. split_and!; [done| |done]. by rewrite Hd.
Qed.

(** the state filter of a listing is validated trimmed but applied as it was
    given: a filter with surrounding blanks is accepted and matches no call. *)
Theorem padded_state_lists_nothing org req s w :
  calm w -> org <> uuid_Nil -> lr_State req = Some s -> TrimSpace s <> s ->
  validateListRequest req = inl tt -> List_ org req w = (inl [], w).
Proof.
  intros Hw Ho Hs Ht Hv. unfold List_, bind, lift. unfold validateOrganizationID.
  rewrite decide_False, Hv by done. unfold wrap, Repo_List. rewrite query_calm by done. rewrite Hs.
  assert (Hnone : forall t, bool_decide (state_text t = s) = false).
  { intros t. apply bool_decide_eq_false. intros <-. apply Ht. by destruct t. }
  unfold ListCalls. rewrite list_filter_none; [by destruct (Z.to_nat (lr_Offset req)), (Z.to_nat (lr_Limit req))|].
  apply Forall_true. intros c [_ Hc]. by rewrite Hnone in Hc.
Qed.
End Calm.

(** ** Runs *)
Section Run.
#[local] Existing Instance decimal_uuid.

(** The call of [CallSafety.ex_requests], answered, then completed. *)
Definition ex_completed : LifecycleEvent := ex_event LifecycleCompleted.

Lemma ex_after_reaches n : reaches empty_db (ex_after n).
Proof. apply keeps_serve, ex_world_reaches. Qed.


(** An answer delivered after the end of the call. *)
Definition ex_late : LifecycleEvent := {|
  le_CallID := 10; le_ChannelID := "chan-10"; le_SIPCallID := ""; le_Type := LifecycleAnswered;
  le_HangupReason := None |}.
Lemma late_event_reopens_lease_witness :
  exists w', ObserveLifecycle ex_late (ex_after 5) = (inl tt, w') /\
    CallState (call_in (ex_after 5) 10) = StateCompleted /\
    Admission.trunk_leases 9 (w_redis w') !! "10" = Some 93601000.
Proof.
  destruct (late_event_reopens_lease ex_late (ex_after 5) (call_in (ex_after 5) 10) 9 ∅)
    as (w' & H & _ & _ & Hl);
    [vm_compute; reflexivity|vm_compute; reflexivity|vm_compute; reflexivity|done|vm_compute; reflexivity
    |vm_compute; discriminate|right; vm_compute; reflexivity|vm_compute; discriminate|vm_compute; reflexivity
    |vm_compute; discriminate|vm_compute; reflexivity|].
  exists w'. split; [exact H|]. split; [vm_compute; reflexivity|].
  change (Some 93601000) with (Some (1000 + 93600000)). exact Hl.
Defined.


Definition ex_admission : InboundAdmissionRequest := {|
  in_ChannelID := "chan-in"; in_SIPCallID := "sip-in"; in_OrganizationID := 5; in_VoiceAgentID := 2;
  in_PhoneNumberID := 3; in_VoiceAgentBindingID := 4; in_TrunkID := 9; in_FromURI := "+442071838750";
  in_ToURI := "+15550100"; in_OccurredAt := 0 |}.
(** FreeSWITCH refuses the variable that correlates the channel. *)
Definition ex_refusing : World := with_socket [] [{|
  FreeSWITCH.ContentType := FreeSWITCH.ContentTypeAPIResponse; FreeSWITCH.Headers := ∅;
  FreeSWITCH.Body := "-ERR No such channel!" |}] (ex_world []).

Lemma lost_attribution_keeps_ringing_witness :
  exists e' w' c,
    create_inbound ex_admission 9 (ex_world [FOk; FOk; FOk; FOk; FBefore (Sentinel ErrDeadlineExceeded)])
      = (inr e', w') /\
    calls (w_db w') !! 10 = Some c /\ CallState c = StateRinging.
Proof.
  apply (lost_attribution_keeps_ringing ex_admission 9
    (ex_world [FOk; FOk; FOk; FOk; FBefore (Sentinel ErrDeadlineExceeded)]) (Sentinel ErrDeadlineExceeded));
    [reflexivity|discriminate|reflexivity|vm_compute; reflexivity].
Defined.

Definition ex_list : ListRequest := {| lr_State := Some " completed "; lr_Offset := 0; lr_Limit := 50 |}.
Lemma padded_state_lists_nothing_witness :
  List_ 5 ex_list (ex_after 5) = (inl [], ex_after 5) /\
  CallState (call_in (ex_after 5) 10) = StateCompleted.
Proof.
  split; [|vm_compute; reflexivity].
  apply (padded_state_lists_nothing 5 ex_list " completed ");
    [vm_compute; reflexivity|discriminate|reflexivity|vm_compute; discriminate|vm_compute; reflexivity].
Defined.
End Run.
End CallOutcomes.
