(* ===== verification/Translator.v ===== *)
(** * FreeSWITCH events as call events

    [server/internal/runtime/calling/translator.go], the conversions of
    [telephony/calls/consumer.go] and the call part of the event handler of
    [runtime/worker/consumers.go]: a raw event becomes the admission of an inbound
    call, a lifecycle event, or nothing. *)

From S2P Require Import Prelude Redis Routing Admission CallStore FreeSWITCH Controller Failover Server.
From S2P Require Import CallService CallSafety.
Import CallStore Server CallService CallSafety.

Module Translator.
Definition ErrUnsupportedEvent : string := "unsupported FreeSWITCH call event".
Definition ErrUncorrelatedEvent : string := "uncorrelated FreeSWITCH call event".
Definition ErrNotInboundAdmission : string := "not an inbound FreeSWITCH admission event".

Definition FreeSWITCHEvents : list string :=
  ["CHANNEL_CREATE"; "CHANNEL_PROGRESS"; "CHANNEL_PROGRESS_MEDIA"; "CHANNEL_ANSWER"; "CHANNEL_HOLD";
   "CHANNEL_UNHOLD"; "CHANNEL_HANGUP_COMPLETE"].

Section Translate.
Context {U : UuidLib} {UL : UuidLaws U}.
(** [event.Header], trimmed. *)
Definition header (event : FreeSWITCH.Event) (name : string) : string :=
  TrimSpace (FreeSWITCH.Event_Header event name).

Fixpoint firstNonEmpty (values : list string) : string :=
  match values with
  | [] => ""
  | v :: rest => let v := TrimSpace v in if decide (v <> "") then v else firstNonEmpty rest
  end.
Definition first_header (event : FreeSWITCH.Event) (names : list string) : string :=
  firstNonEmpty (FreeSWITCH.Event_Header event <$> names).

(** Microseconds since the epoch; [now] is [time.Now]. *)
Definition freeSWITCHEventTime (now : Z) (event : FreeSWITCH.Event) : result Z :=
  let raw := header event "Event-Date-Timestamp" in
  if decide (raw = "") then inl now else
  match ParseInt raw with
  | Some micros => inl micros
  | None => inr (Wrapf "parse FreeSWITCH event timestamp: %w" [] (Errorf "strconv.ParseInt" [raw]))
  end.

Definition eventAnswered (event : FreeSWITCH.Event) : bool :=
  existsb (fun n => EqualFold (header event n) "true") ["Answered"; "variable_answered"]
  || existsb (fun n => match ParseInt (header event n) with Some z => 0 <? z | None => false end)
       ["variable_answer_epoch"; "answer_epoch"; "billmsec"; "variable_billmsec"].

Definition hangup_headers : list string := ["Hangup-Cause"; "variable_hangup_cause"].

Definition lifecycleEventType (event : FreeSWITCH.Event) : result LifecycleEventType :=
  let name := FreeSWITCH.Name event in
  if decide (name = "CHANNEL_CREATE") then inl LifecycleInitiated else
  if decide (name = "CHANNEL_PROGRESS" \/ name = "CHANNEL_PROGRESS_MEDIA") then inl LifecycleRinging else
  if decide (name = "CHANNEL_ANSWER") then inl LifecycleAnswered else
  if decide (name = "CHANNEL_HOLD") then inl LifecycleHeld else
  if decide (name = "CHANNEL_UNHOLD") then inl LifecycleResumed else
  if decide (name = "CHANNEL_HANGUP_COMPLETE") then
    if eventAnswered event then inl LifecycleCompleted else
    let cause := ToUpper (TrimSpace (first_header event hangup_headers)) in
    if decide (cause = "ORIGINATOR_CANCEL" \/ cause = "NORMAL_CLEARING") then inl LifecycleCancelled
    else inl LifecycleFailed
  else inr (Wrapf "%w: %s" [name] (Sentinel ErrUnsupportedEvent)).

(** The lifecycle event, as [HandleLifecycle] passes it on; its time is not used there. *)
Definition TranslateFreeSWITCHEvent (now : Z) (event : FreeSWITCH.Event) : result LifecycleEvent :=
  let? eventType := lifecycleEventType event in
  match uuid_Parse (header event "variable_leamout_call_id") with
  | None => inr (Wrapf "%w: missing valid Leamout call id" [] (Sentinel ErrUncorrelatedEvent))
  | Some callID =>
      let channelID := header event "Unique-ID" in
      if decide (channelID = "") then inr (Errorf "FreeSWITCH call event is missing Unique-ID" []) else
      let? _ := freeSWITCHEventTime now event in
      inl {| le_CallID := callID; le_ChannelID := channelID;
             le_SIPCallID := header event "variable_sip_call_id"; le_Type := eventType;
             le_HangupReason :=
               if decide (FreeSWITCH.Name event = "CHANNEL_HANGUP_COMPLETE") then
                 let cause := TrimSpace (first_header event hangup_headers) in
                 if decide (cause <> "") then Some cause else None
               else None |}
  end.

(** The headers OpenSIPS adds to an inbound call it has authenticated. *)
Definition trusted_header (name : string) : string :=
  if decide (name = "organization_id") then "variable_sip_h_X-Leamout-Organization-ID" else
  if decide (name = "trunk_id") then "variable_sip_h_X-Leamout-Trunk-ID" else
  if decide (name = "phone_number_id") then "variable_sip_h_X-Leamout-Phone-Number-ID" else
  if decide (name = "voice_agent_binding_id") then "variable_sip_h_X-Leamout-Voice-Agent-Binding-ID" else
  "variable_sip_h_X-Leamout-Voice-Agent-ID".
Definition trusted_names : list string :=
  ["organization_id"; "trunk_id"; "phone_number_id"; "voice_agent_binding_id"; "voice_agent_id"].
Definition hasTrustedMetadata (event : FreeSWITCH.Event) : bool :=
  existsb (fun n => negb (bool_decide (header event (trusted_header n) = ""))) trusted_names.
Definition parseID (event : FreeSWITCH.Event) (name : string) : result UUID :=
  match uuid_Parse (header event (trusted_header name)) with
  | Some id => inl id
  | None => inr (Errorf "invalid inbound %s" [name])
  end.
Definition missing (what : string) (value : string) : result unit :=
  if decide (value = "") then inr (Errorf "FreeSWITCH inbound event is missing %s" [what]) else inl tt.

Definition TranslateInboundFreeSWITCHEvent (now : Z) (event : FreeSWITCH.Event)
    : result InboundAdmissionRequest :=
  if decide (FreeSWITCH.Name event <> "CHANNEL_CREATE")
  then inr (Wrapf "%w: %s" [FreeSWITCH.Name event] (Sentinel ErrNotInboundAdmission)) else
  if decide (header event "variable_leamout_call_id" <> "")
  then inr (Sentinel ErrNotInboundAdmission) else
  if negb (hasTrustedMetadata event) then inr (Sentinel ErrNotInboundAdmission) else
  let? organizationID := parseID event "organization_id" in
  let? trunkID := parseID event "trunk_id" in
  let? phoneNumberID := parseID event "phone_number_id" in
  let? voiceBindingID := parseID event "voice_agent_binding_id" in
  let? voiceAgentID := parseID event "voice_agent_id" in
  let channelID := header event "Unique-ID" in
  let? _ := missing "Unique-ID" channelID in
  let sipCallID := header event "variable_sip_call_id" in
  let? _ := missing "SIP Call-ID" sipCallID in
  let fromURI := first_header event ["variable_sip_from_uri"; "Caller-Caller-ID-Number"; "Caller-ANI"] in
  let? _ := missing "caller identity" fromURI in
  let toURI := first_header event ["Caller-Destination-Number"; "variable_sip_to_user"] in
  let? _ := missing "called number" toURI in
  let? occurredAt := freeSWITCHEventTime now event in
  inl {| in_ChannelID := channelID; in_SIPCallID := sipCallID; in_OrganizationID := organizationID;
         in_VoiceAgentID := voiceAgentID; in_PhoneNumberID := phoneNumberID;
         in_VoiceAgentBindingID := voiceBindingID; in_TrunkID := trunkID;
         in_FromURI := TrimSpace fromURI; in_ToURI := TrimSpace toURI; in_OccurredAt := occurredAt |}.

(** ** The event handler (consumers.go)

    The call part of the handler: the admission or the lifecycle event, errors
    being logged. [attached] is what the handler passes on to the Voice Agent
    runtime: the call the event was applied to. *)
Definition dispatch_lifecycle (event : FreeSWITCH.Event) : M World (option (Call * LifecycleEvent)) :=
  let! now := now_ms in
  match TranslateFreeSWITCHEvent (1000 * now) event with
  | inr _ => ret None
  | inl callEvent =>
      let! r := attempt (HandleLifecycle callEvent) in
      match r with
      | inr _ => ret None
      | inl _ =>
          let! r := attempt (ResolveLifecycleCall (le_CallID callEvent)) in
          match r with
          | inl call => ret (if decide (ID call = le_CallID callEvent) then Some (call, callEvent) else None)
          | inr _ => ret None
          end
      end
  end.

Definition dispatch (event : FreeSWITCH.Event) : M World (option (Call * LifecycleEvent)) :=
  if decide (FreeSWITCH.Name event = "CUSTOM") then ret None else
  if decide (FreeSWITCH.Name event = "CHANNEL_CREATE" /\ header event "variable_leamout_call_id" = "") then
    let! now := now_ms in
    match TranslateInboundFreeSWITCHEvent (1000 * now) event with
    | inl admission => attempt (HandleInbound admission);; ret None
    | inr err =>
        (if errors_Is err ErrNotInboundAdmission then ret tt else
         let channelID := header event "Unique-ID" in
         if decide (channelID <> "") then ignore (FreeSWITCH.Hangup channelID) else ret tt);;
        dispatch_lifecycle event
    end
  else dispatch_lifecycle event.

(** ** What an event is taken for *)

Ltac known_event := unfold FreeSWITCHEvents; rewrite !elem_of_cons; tauto.

(** The worker subscribes to exactly the events the translator knows, and
    only the end of a channel is taken for the end of a call. *)
Theorem subscribed_events_supported event :
  match lifecycleEventType event with
  | inl t => (FreeSWITCH.Name event ∈ FreeSWITCHEvents) /\
      (isTerminalLifecycle t = true <-> FreeSWITCH.Name event = "CHANNEL_HANGUP_COMPLETE")
  | inr err => (FreeSWITCH.Name event ∉ FreeSWITCHEvents) /\ errors_Is err ErrUnsupportedEvent = true
  end.
Proof.
  unfold lifecycleEventType. cbv zeta. set (name := FreeSWITCH.Name event). clearbody name.
  destruct (decide (name = "CHANNEL_CREATE")) as [->|H1]; [split; [known_event|done]|].
  destruct (decide (name = "CHANNEL_PROGRESS" \/ name = "CHANNEL_PROGRESS_MEDIA")) as [[->| ->]|H2];
    [split; [known_event|done]..|].
  destruct (decide (name = "CHANNEL_ANSWER")) as [->|H3]; [split; [known_event|done]|].
  destruct (decide (name = "CHANNEL_HOLD")) as [->|H4]; [split; [known_event|done]|].
  destruct (decide (name = "CHANNEL_UNHOLD")) as [->|H5]; [split; [known_event|done]|].
  destruct (decide (name = "CHANNEL_HANGUP_COMPLETE")) as [->|H6].
  - destruct (eventAnswered event); [split; [known_event|done]|].
    case_decide; (split; [known_event|done]).
  - split; [|reflexivity].
    unfold FreeSWITCHEvents. rewrite !not_elem_of_cons. split_and!; [tauto..|apply not_elem_of_nil].
Qed.

Lemma missing_ok what value u : missing what value = inl u -> value <> "".
Proof. unfold missing. by case_decide. Qed.
Lemma parseID_ok event name id :
  parseID event name = inl id -> uuid_Parse (header event (trusted_header name)) = Some id.
Proof. unfold parseID. destruct (uuid_Parse _); [by intros [= ->]|done]. Qed.

(** an event is taken for the admission of a call only on the word of the
    trusted headers: the organization, trunk, number, binding and agent are the
    identifiers those headers carry, the event names no call of the platform,
    and the request is one [AdmitInbound] finds valid unless a header carries
    the nil identifier. *)
Theorem translated_admission_is_trusted now event req :
  TranslateInboundFreeSWITCHEvent now event = inl req ->
  FreeSWITCH.Name event = "CHANNEL_CREATE" /\ header event "variable_leamout_call_id" = "" /\
  uuid_Parse (header event "variable_sip_h_X-Leamout-Organization-ID") = Some (in_OrganizationID req) /\
  uuid_Parse (header event "variable_sip_h_X-Leamout-Trunk-ID") = Some (in_TrunkID req) /\
  uuid_Parse (header event "variable_sip_h_X-Leamout-Phone-Number-ID") = Some (in_PhoneNumberID req) /\
  uuid_Parse (header event "variable_sip_h_X-Leamout-Voice-Agent-Binding-ID")
    = Some (in_VoiceAgentBindingID req) /\
  uuid_Parse (header event "variable_sip_h_X-Leamout-Voice-Agent-ID") = Some (in_VoiceAgentID req) /\
  (uuid_Nil ∉ [in_OrganizationID req; in_VoiceAgentID req; in_PhoneNumberID req;
               in_VoiceAgentBindingID req; in_TrunkID req] -> validateInboundAdmission req = inl tt).
Proof.
  unfold TranslateInboundFreeSWITCHEvent. case_decide as Hn; [done|]. case_decide as Hid; [done|].
  destruct (negb _); [done|].
  intros (org & Ho%parseID_ok & H)%rbind_ok_inv. apply rbind_ok_inv in H as (tr & Ht%parseID_ok & H).
  apply rbind_ok_inv in H as (ph & Hp%parseID_ok & H). apply rbind_ok_inv in H as (b & Hb%parseID_ok & H).
  apply rbind_ok_inv in H as (ag & Ha%parseID_ok & H).
  apply rbind_ok_inv in H as ([] & Hch%missing_ok & H). apply rbind_ok_inv in H as ([] & Hs%missing_ok & H).
  apply rbind_ok_inv in H as ([] & Hf%missing_ok & H). apply rbind_ok_inv in H as ([] & Hto%missing_ok & H).
  apply rbind_ok_inv in H as (at_ & _ & [= <-]).
  split_and!; [by destruct (decide (FreeSWITCH.Name event = "CHANNEL_CREATE"))
    |by destruct (decide (header event "variable_leamout_call_id" = ""))
    |exact Ho|exact Ht|exact Hp|exact Hb|exact Ha|].
  cbn [in_ChannelID in_SIPCallID in_OrganizationID in_VoiceAgentID in_PhoneNumberID
       in_VoiceAgentBindingID in_TrunkID in_FromURI in_ToURI in_OccurredAt].
  rewrite !not_elem_of_cons. intros (? & ? & ? & ? & ? & _).
  unfold validateInboundAdmission.
  cbn [in_ChannelID in_SIPCallID in_OrganizationID in_VoiceAgentID in_PhoneNumberID
       in_VoiceAgentBindingID in_TrunkID in_FromURI in_ToURI in_OccurredAt]. unfold header in Hch, Hs. unfold header.
  assert (Hff : forall l, firstNonEmpty l <> "" -> TrimSpace (TrimSpace (firstNonEmpty l)) <> "").
  { induction l as [|v l IH]; [done|]. cbn [firstNonEmpty]. cbv zeta. case_decide; [|done].
    by rewrite !TrimSpace_idem. }
  unfold first_header in *. rewrite !TrimSpace_idem in *.
  apply Hff in Hf, Hto. rewrite TrimSpace_idem in Hf, Hto.
  repeat (rewrite decide_False by first [assumption|by apply not_eq_sym]). done.
Qed.

(** ** What the handler does *)

Lemma keeps_dispatch d0 event : keeps (reaches (W := World) d0) (dispatch event).
Proof.
  pose proof (keeps_ObserveLifecycle d0) as Ho. pose proof (keeps_ResolveLifecycleCall d0) as Hres.
  pose proof (keeps_AdmitInbound d0) as Ha.
  pose proof (fun ch => keeps_socket d0 (FreeSWITCH.OpHangup ch)) as Hh. cbn [FreeSWITCH.run_op] in Hh.
  unfold dispatch, dispatch_lifecycle, HandleInbound, HandleLifecycle, ignore. keeps_tac.
Qed.

Lemma untranslated event now :
  uuid_Parse (header event "variable_leamout_call_id") = None ->
  exists e, TranslateFreeSWITCHEvent now event = inr e.
Proof.
  intros H. unfold TranslateFreeSWITCHEvent. destruct (lifecycleEventType event) as [ty|e]; [|by exists e].
  cbn [rbind]. rewrite H. by eexists.
Qed.

(** an event that carries neither a call identifier of the platform nor, on
    the creation of a channel, trusted headers is ignored: nothing is stored,
    sent or leased, whatever else it says. *)
Theorem uncorrelated_event_ignored event w :
  uuid_Parse (header event "variable_leamout_call_id") = None ->
  FreeSWITCH.Name event <> "CHANNEL_CREATE" \/ hasTrustedMetadata event = false ->
  dispatch event w = (inl None, w).
Proof.
  intros Hp Ht. assert (Hl : dispatch_lifecycle event w = (inl None, w)).
  { unfold dispatch_lifecycle, now_ms, gets, bind. by destruct (untranslated event (1000 * w_now w) Hp) as [e ->]. }
  unfold dispatch. case_decide; [done|]. case_decide as Hc; [|done]. destruct Hc as [Hn Hid].
  destruct Ht as [Ht|Ht]; [done|]. unfold now_ms, gets, bind at 1.
  unfold TranslateInboundFreeSWITCHEvent. rewrite decide_False, decide_False, Ht by (intros Hx; by apply Hx).
  cbn [negb errors_Is]. rewrite bool_decide_true by done.
  by rewrite (bind_eq (ret tt) _ w tt w eq_refl).
Qed.

Lemma repo_get_row org id (w : World) c w' :
  Repo_Get org id w = (inl c, w') -> calls (w_db w') !! id = Some c.
Proof.
  intros H. apply query_row_inv in H as [Hd H]. rewrite Hd. by apply GetCall_inv in H as [? _].
Qed.

Lemma observed_not_nil ev w w' :
  ObserveLifecycle ev w = (inl tt, w') -> le_CallID ev <> uuid_Nil.
Proof.
  intros H. apply bind_ok in H as ([] & w1 & H & _). unfold throw_if in H.
  by destruct (bool_decide_reflect (le_CallID ev = uuid_Nil)).
Qed.
Lemma resolve_db id w : w_db (snd (ResolveLifecycleCall id w)) = w_db w.
Proof.
  assert (Hq : forall A (f : Z -> DB -> result A), keeps (fun w1 => w_db w1 = w_db w) (query f)).
  { intros A f w1 <-. unfold query, ext. simpl. by destruct (w_faults w1) as [|[]]. }
  assert (H : keeps (fun w1 => w_db w1 = w_db w) (ResolveLifecycleCall id)); [|by apply H].
  unfold ResolveLifecycleCall, GetLifecycleSnapshot, Repo_Get. keeps_tac.
Qed.
Lemma resolved_row id w c w' :
  ResolveLifecycleCall id w = (inl c, w') -> ID c = id -> id <> uuid_Nil ->
  calls (w_db w') !! id = Some c.
Proof.
  intros H Hid Hn. unfold ResolveLifecycleCall in H. apply bind_ok in H as (u & w1 & _ & H).
  apply bind_ok in H as (r & w2 & [= <- <-] & H).
  destruct (GetLifecycleSnapshot id w1) as [[s|e] w2]; cbn [fst snd] in H.
  2: { destruct (errors_Is e ErrNoRows); [|done]. injection H as <- _. by destruct Hn. }
  apply bind_ok in H as (r & w3 & [= <- <-] & H).
  destruct (Repo_Get _ id w2) as [[c'|e] w3] eqn:Eg; cbn [fst snd] in H.
  2: { destruct (errors_Is e ErrNoRows); [|done]. injection H as <- _. by destruct Hn. }
  injection H as -> <-. by eapply repo_get_row.
Qed.

(** A call is attached by the lifecycle branch only. *)
Lemma dispatch_some event w x w' :
  dispatch event w = (inl (Some x), w') -> dispatch_lifecycle event w = (inl (Some x), w').
Proof.
  unfold dispatch. case_decide; [done|]. case_decide as Hc; [|done]. destruct Hc as [_ Hid].
  unfold now_ms, gets, bind at 1. destruct (TranslateInboundFreeSWITCHEvent _ event) as [adm|e].
  - intros Hd. apply bind_ok in Hd as (r & w1 & _ & Hd). done.
  - intros Hd. apply bind_ok in Hd as ([] & w1 & _ & Hd). exfalso.
    unfold dispatch_lifecycle, now_ms, gets, bind at 1 in Hd.
    destruct (untranslated event (1000 * w_now w1)) as [e' He']; [rewrite Hid; apply uuid_Parse_empty|].
    by rewrite He' in Hd.
Qed.

(** the Voice Agent runtime is told of an event only with the call it was
    applied to: the stored call the event names, in the state the event tells
    of or a later one. *)
Theorem attached_call_is_current event w call ev w' :
  honest w -> dispatch event w = (inl (Some (call, ev)), w') ->
  uuid_Parse (header event "variable_leamout_call_id") = Some (le_CallID ev) /\
  calls (w_db w') !! le_CallID ev = Some call /\
  (is_Some (calls (w_db w) !! le_CallID ev) -> applied (le_Type ev) call = true).
Proof.
  intros Hh Hd. apply dispatch_some in Hd. unfold dispatch_lifecycle, now_ms, gets, bind at 1 in Hd.
  destruct (TranslateFreeSWITCHEvent _ event) as [callEvent|e] eqn:Et; [|done].
  apply bind_ok in Hd as (r & w1 & [= <- <-] & Hd).
  destruct (HandleLifecycle callEvent w) as [[[]|e] w1] eqn:Eh; [|done]. cbn [fst snd] in Hd.
  apply bind_ok in Hd as (r & w2 & [= <- <-] & Hd).
  destruct (ResolveLifecycleCall (le_CallID callEvent) w1) as [[c|e] w2] eqn:Er; [|done].
  cbn [fst snd] in Hd. injection Hd as Hc <-. case_decide as Hid; [|done]. injection Hc as -> <-.
  assert (Ho : ObserveLifecycle callEvent w = (inl tt, w1)).
  { unfold HandleLifecycle, wrap in Eh. destruct (ObserveLifecycle callEvent w) as [[[]|] w3]; [|done].
    by injection Eh as <-. }
  split_and!.
  - unfold TranslateFreeSWITCHEvent in Et. apply rbind_ok_inv in Et as (ty & _ & Et).
    destruct (uuid_Parse _) as [cid|] eqn:Ep; [|discriminate Et].
    destruct (decide (header event "Unique-ID" = "")); [discriminate Et|].
    apply rbind_ok_inv in Et as (tm & _ & Et).
    apply (f_equal (fun r => match r with inl ev => Some (le_CallID ev) | inr _ => None end)) in Et.
    exact Et.
  - eapply resolved_row; [exact Er|exact Hid|]. intros Hnil. apply observed_not_nil in Ho. congruence.
  - intros [c0 Hc0]. destruct (observe_applied callEvent w w1 c0 Hh Ho Hc0) as (c' & Hc' & Ha & _).
    assert (Hn : le_CallID callEvent <> uuid_Nil) by by apply observed_not_nil in Ho.
    pose proof (resolved_row _ _ _ _ Er Hid Hn) as Hrow.
    pose proof (resolve_db (le_CallID callEvent) w1) as Hdb. rewrite Er in Hdb. simpl in Hdb.
    rewrite Hdb in Hrow. congruence.
Qed.
End Translate.

(** ** Runs *)
Section Run.
#[local] Existing Instance decimal_uuid.

Definition ex_event (name : string) (headers : gmap string string) : FreeSWITCH.Event := {|
  FreeSWITCH.Name := name; FreeSWITCH.ev_Headers := headers; FreeSWITCH.ev_Body := "" |}.
Definition ex_inbound : FreeSWITCH.Event := ex_event "CHANNEL_CREATE"
  (list_to_map [("variable_sip_h_X-Leamout-Organization-ID", "5"); ("variable_sip_h_X-Leamout-Trunk-ID", "9");
    ("variable_sip_h_X-Leamout-Phone-Number-ID", "3"); ("variable_sip_h_X-Leamout-Voice-Agent-Binding-ID", "4");
    ("variable_sip_h_X-Leamout-Voice-Agent-ID", "2"); ("Unique-ID", "chan-in"); ("variable_sip_call_id", "sip-in");
    ("Caller-ANI", "+442071838750"); ("Caller-Destination-Number", "+15550100")]).
Definition ex_request : InboundAdmissionRequest :=
  match TranslateInboundFreeSWITCHEvent 0 ex_inbound with inl r => r | inr _ =>
    {| in_ChannelID := ""; in_SIPCallID := ""; in_OrganizationID := 0; in_VoiceAgentID := 0;
       in_PhoneNumberID := 0; in_VoiceAgentBindingID := 0; in_TrunkID := 0; in_FromURI := "";
       in_ToURI := ""; in_OccurredAt := 0 |} end.

Lemma translated_admission_is_trusted_witness :
  TranslateInboundFreeSWITCHEvent 0 ex_inbound = inl ex_request /\
  validateInboundAdmission ex_request = inl tt.
Proof.
  assert (H : TranslateInboundFreeSWITCHEvent 0 ex_inbound = inl ex_request) by (vm_compute; reflexivity).
  split; [exact H|].
  destruct (translated_admission_is_trusted 0 ex_inbound ex_request H) as (_ & _ & _ & _ & _ & _ & _ & Hv).
  apply Hv. apply (bool_decide_unpack _). vm_compute. exact I.
Defined.

Definition ex_stray : FreeSWITCH.Event :=
  ex_event "CHANNEL_HANGUP_COMPLETE" {["Unique-ID" := "chan-x"; "Hangup-Cause" := "NORMAL_CLEARING"]}.
Lemma uncorrelated_event_ignored_witness : dispatch ex_stray (ex_after 2) = (inl None, ex_after 2).
Proof.
  apply uncorrelated_event_ignored; [vm_compute; reflexivity|left; vm_compute; discriminate].
Defined.

(** The answer of the call of [CallSafety.ex_requests]. *)
Definition ex_answer : FreeSWITCH.Event := ex_event "CHANNEL_ANSWER"
  {["variable_leamout_call_id" := "10"; "Unique-ID" := "chan-10"]}.
Lemma attached_call_is_current_witness :
  exists call ev w', dispatch ex_answer (ex_after 1) = (inl (Some (call, ev)), w') /\
    applied LifecycleAnswered call = true /\ CallState (call_in (ex_after 1) 10) = StateInitiating.
Proof.
  destruct (dispatch ex_answer (ex_after 1)) as [[[[call ev]|]|e] w'] eqn:E;
    [|vm_compute in E; discriminate E|vm_compute in E; discriminate E].
  exists call, ev, w'. split; [reflexivity|].
  destruct (attached_call_is_current ex_answer (ex_after 1) call ev w') as (H1 & _ & H3);
    [vm_compute; constructor|exact E|].
  assert (Hev : ev = {| le_CallID := 10; le_ChannelID := "chan-10"; le_SIPCallID := "";
    le_Type := LifecycleAnswered; le_HangupReason := None |}).
  { vm_compute in E. injection E as _ E _. symmetry. exact E. }
  subst ev. split; [|vm_compute; reflexivity]. apply H3. vm_compute. eexists. reflexivity.
Defined.
End Run.
End Translator.
