(* ===== verification/Idempotency.v ===== *)
(** * Idempotent requests

    [server/internal/platform/idempotency] over the statements of
    [database/queries/idempotency.sql], and the middleware
    [platform/middleware/idempotency.go]. [Idempotency.step] interleaves the
    statements of requests served by several servers. Times are nanoseconds;
    PostgreSQL rounds them to microseconds, and the lease is the value it gives
    back. The headers of a stored response go through JSON, which keeps valid
    UTF-8 text as it is. *)

From S2P Require Import Prelude Routing.
Import AppErr.

Module Idempotency.
Definition ErrKeyConflict : string := "idempotency key was already used for another request".
Definition ErrInProgress : string := "request with this idempotency key is still processing".

Record Request := {
  rq_Scope : string; rq_Key : string; rq_Method : string; rq_Path : string; rq_RequestHash : string;
}.
Record Response := {
  rs_Status : Z; rs_Body : list ascii; rs_ContentType : string; rs_Headers : gmap string (list string);
}.
Record Config := { LockTTL : Z; RecordTTL : Z }.
Definition DefaultConfig : Config := {| LockTTL := 5 * Minute; RecordTTL := 24 * Hour |}.

(** [status] and the response columns. *)
Inductive Status := Processing | Completed (response : Response).
Record Row := {
  row_Request : Request; row_Status : Status; row_LockedUntil : Z; row_ExpiresAt : Z;
}.
Abbreviation Table := (gmap (string * string) Row).
Definition key_of (r : Request) : string * string := (rq_Scope r, rq_Key r).

(** The same method, path and body digest. *)
Definition same_request (a b : Request) : bool :=
  bool_decide (rq_Method a = rq_Method b) && bool_decide (rq_Path a = rq_Path b)
  && bool_decide (rq_RequestHash a = rq_RequestHash b).

(** ** Statements; [now] is the clock of the database *)

Definition ClaimIdempotencyKey (now : Z) (r : Request) (lockedUntil expiresAt : Z) (t : Table)
    : result (Row * Table) :=
  let row := {| row_Request := r; row_Status := Processing; row_LockedUntil := lockedUntil;
                row_ExpiresAt := expiresAt |} in
  match t !! key_of r with
  | None => inl (row, <[key_of r := row]> t)
  | Some old =>
      if (row_ExpiresAt old <=? now)
         || (match row_Status old with Processing => true | Completed _ => false end
             && (row_LockedUntil old <=? now) && same_request (row_Request old) r)
      then inl (row, <[key_of r := row]> t)
      else inr (Sentinel ErrNoRows)
  end.
Definition GetIdempotencyKey (r : Request) (t : Table) : result Row :=
  match t !! key_of r with Some row => inl row | None => inr (Sentinel ErrNoRows) end.
Definition CompleteIdempotencyKey (now : Z) (r : Request) (lease : Z) (response : Response) (t : Table)
    : result Table :=
  match t !! key_of r with
  | Some row =>
      match row_Status row with
      | Processing =>
          if same_request (row_Request row) r && (row_LockedUntil row =? lease)
          then inl (<[key_of r := {| row_Request := row_Request row; row_Status := Completed response;
                                     row_LockedUntil := now; row_ExpiresAt := row_ExpiresAt row |}]> t)
          else inr (Sentinel ErrNoRows)
      | Completed _ => inr (Sentinel ErrNoRows)
      end
  | None => inr (Sentinel ErrNoRows)
  end.
Definition DeleteExpiredIdempotencyKeys (now : Z) (t : Table) : Table :=
  filter (fun '(_, row) => now < row_ExpiresAt row) t.

(** ** Repository and service *)

Class HasIdempotency (W : Type) : Type := {
  idem_faults :: HasFaults W;
  get_table : W -> Table;
  set_table : Table -> W -> W;
  idem_now : W -> Z;
  (** [time.Now] of the server. *)
  server_now : W -> Z;
}.

(** The response to replay, or the lease of the claim. *)
Inductive Claim_ := Replay (response : Response) | Lease (until : Z).

Section Service.
Context {W : Type} {HI : HasIdempotency W} (config : Config).

(** [Repository.Claim]: the row, and whether it was claimed. *)
Definition Repo_Claim (r : Request) (lockedUntil expiresAt : Z) : M W (Row * bool) :=
  let! c := attempt (ext (fun w =>
      match ClaimIdempotencyKey (idem_now w) r lockedUntil expiresAt (get_table w) with
      | inl (row, t) => (inl row, set_table t w)
      | inr e => (inr e, w)
      end)) in
  match c with
  | inl row => ret (row, true)
  | inr err =>
      if negb (errors_Is err ErrNoRows) then throw err else
      let! row := ext (fun w => (GetIdempotencyKey r (get_table w), w)) in
      ret (row, false)
  end.
Definition Repo_Complete (r : Request) (lease : Z) (response : Response) : M W unit :=
  ext (fun w => match CompleteIdempotencyKey (idem_now w) r lease response (get_table w) with
                | inl t => (inl tt, set_table t w)
                | inr e => (inr e, w)
                end).
Definition DeleteExpired : M W unit :=
  ext (modify (fun w => set_table (DeleteExpiredIdempotencyKeys (idem_now w) (get_table w)) w)).

(** What [Service.Claim] makes of the row it was given. *)
Definition claim_result (r : Request) (row : Row) (claimed : bool) : result Claim_ :=
  if claimed then inl (Lease (row_LockedUntil row)) else
  if negb (same_request (row_Request row) r) then inr (Sentinel ErrKeyConflict) else
  match row_Status row with
  | Processing => inr (Sentinel ErrInProgress)
  | Completed response => inl (Replay response)
  end.
Definition Claim (r : Request) : M W Claim_ :=
  let! now := gets server_now in
  let! ' (row, claimed) := Repo_Claim r (now + LockTTL config) (now + RecordTTL config) in
  lift (claim_result r row claimed).
Definition Complete (r : Request) (lease : Z) (response : Response) : M W unit :=
  wrap (fun e => if errors_Is e ErrNoRows then Sentinel ErrInProgress else e)
    (Repo_Complete r lease response).
End Service.

(** ** The servers interleaved

    Every step is one statement of one request, a cleanup, or time passing. The
    execution of a request is recorded when its claim succeeds, with the state of
    the handler: running, or answered with a response. A claim is made with the
    clock of its server, which may differ from the database's by less than the
    lock lasts. *)
Record Execution := {
  x_request : Request; x_started : Z; x_lease : Z; x_expires : Z; x_response : option Response;
}.
Record System := {
  s_now : Z; s_table : Table;
  s_executions : list Execution;
  (** The requests answered from a stored response. *)
  s_replays : list (Request * Response);
}.

Section Steps.
Context (config : Config).
Hypothesis ttl : 0 < LockTTL config <= RecordTTL config.

Definition start (s : System) (r : Request) (row : Row) : Execution := {|
  x_request := r; x_started := s_now s; x_lease := row_LockedUntil row; x_expires := row_ExpiresAt row;
  x_response := None |}.
Definition respond (response : Response) (x : Execution) : Execution := {|
  x_request := x_request x; x_started := x_started x; x_lease := x_lease x; x_expires := x_expires x;
  x_response := Some response |}.

Inductive step : System -> System -> Prop :=
| step_tick s d : 0 <= d ->
    step s {| s_now := s_now s + d; s_table := s_table s; s_executions := s_executions s;
              s_replays := s_replays s |}
| step_claim s r clock row t :
    s_now s < clock + LockTTL config ->
    ClaimIdempotencyKey (s_now s) r (clock + LockTTL config) (clock + RecordTTL config) (s_table s)
      = inl (row, t) ->
    step s {| s_now := s_now s; s_table := t; s_executions := s_executions s ++ [start s r row];
              s_replays := s_replays s |}
| step_replay s r row response :
    GetIdempotencyKey r (s_table s) = inl row ->
    claim_result r row false = inl (Replay response) ->
    step s {| s_now := s_now s; s_table := s_table s; s_executions := s_executions s;
              s_replays := s_replays s ++ [(r, response)] |}
| step_complete s i x response t :
    s_executions s !! i = Some x -> x_response x = None ->
    CompleteIdempotencyKey (s_now s) (x_request x) (x_lease x) response (s_table s) = inl t ->
    step s {| s_now := s_now s; s_table := t; s_executions := <[i := respond response x]> (s_executions s);
              s_replays := s_replays s |}
| step_cleanup s :
    step s {| s_now := s_now s; s_table := DeleteExpiredIdempotencyKeys (s_now s) (s_table s);
              s_executions := s_executions s; s_replays := s_replays s |}.

Definition init (t : Z) : System :=
  {| s_now := t; s_table := ∅; s_executions := []; s_replays := [] |}.

(** ** The invariant *)

Definition same_key (x y : Execution) : Prop := key_of (x_request x) = key_of (x_request y).

(** The row [row] is the one [x] claimed. *)
Record claimed_by (x : Execution) (row : Row) : Prop := {
  cb_request : row_Request row = x_request x;
  cb_expires : row_ExpiresAt row = x_expires x;
  cb_status : match row_Status row with
              | Processing => x_response x = None /\ row_LockedUntil row = x_lease x
              | Completed response => x_response x = Some response
              end;
}.
(** While its claim protects it: until its lease ends, until its record expires once answered. *)
Definition protected (now : Z) (x : Execution) : Prop :=
  now < match x_response x with None => x_lease x | Some _ => x_expires x end.

Record inv (s : System) : Prop := {
  inv_times : forall i x, s_executions s !! i = Some x ->
    x_started x <= s_now s /\ x_started x < x_lease x <= x_expires x;
  inv_order : forall i j x y, (i < j)%nat -> s_executions s !! i = Some x ->
    s_executions s !! j = Some y -> same_key x y ->
    x_lease x <= x_started y /\ (is_Some (x_response x) -> x_expires x <= x_started y);
  inv_row : forall i x, s_executions s !! i = Some x -> protected (s_now s) x ->
    exists row, s_table s !! key_of (x_request x) = Some row /\ claimed_by x row;
  inv_claimed : forall k row, s_table s !! k = Some row ->
    exists i x, s_executions s !! i = Some x /\ key_of (x_request x) = k /\ claimed_by x row /\
      forall j y, s_executions s !! j = Some y -> key_of (x_request y) = k -> (j <= i)%nat;
  inv_replays : forall r response, (r, response) ∈ s_replays s ->
    exists i x, s_executions s !! i = Some x /\ key_of (x_request x) = key_of r /\
      same_request (x_request x) r = true /\ x_response x = Some response;
}.

(** Two executions with the same lease on the same key are one. *)
Lemma lease_unique s i j x y :
  inv s -> s_executions s !! i = Some x -> s_executions s !! j = Some y -> same_key x y ->
  x_lease x = x_lease y -> i = j.
Proof.
  intros Hs Hx Hy Hk Hl. pose proof (inv_times s Hs i x Hx). pose proof (inv_times s Hs j y Hy).
  destruct (lt_eq_lt_dec i j) as [[Hij| ->]|Hij]; [|done|].
  - destruct (inv_order s Hs i j x y Hij Hx Hy Hk). lia.
  - destruct (inv_order s Hs j i y x Hij Hy Hx (eq_sym Hk)). lia.
Qed.

(** A claim that succeeds finds no execution protected. *)
Lemma claim_unprotected now r l e t row t' s i x :
  inv s -> now = s_now s -> t = s_table s -> ClaimIdempotencyKey now r l e t = inl (row, t') ->
  s_executions s !! i = Some x -> key_of (x_request x) = key_of r -> ~ protected now x.
Proof.
  intros Hs -> -> Hc Hx Hk Hp. destruct (inv_row s Hs i x Hx Hp) as (old & Hold & [Hreq Hexp Hst]).
  pose proof (inv_times s Hs i x Hx) as Ht. unfold ClaimIdempotencyKey in Hc. rewrite <- Hk, Hold in Hc.
  unfold protected in Hp. destruct (row_Status old) as [|resp] eqn:Est.
  - destruct Hst as [Hn Hl]. rewrite Hn in Hp. rewrite Hexp, Hl in Hc.
    rewrite !(proj2 (Z.leb_gt _ _)) in Hc by lia. by rewrite andb_false_r in Hc.
  - rewrite Hst in Hp. rewrite Hexp in Hc. rewrite (proj2 (Z.leb_gt _ _)) in Hc by lia. done.
Qed.

Lemma claim_row now r l e t row t' :
  ClaimIdempotencyKey now r l e t = inl (row, t') ->
  row = {| row_Request := r; row_Status := Processing; row_LockedUntil := l; row_ExpiresAt := e |} /\
  t' = <[key_of r := row]> t.
Proof.
  unfold ClaimIdempotencyKey. destruct (t !! key_of r); [destruct (_ || _); [|done]|];
    by intros [= <- <-].
Qed.

Lemma lookup_snoc {A} (l : list A) y i x :
  (l ++ [y]) !! i = Some x -> l !! i = Some x \/ (i = length l /\ x = y).
Proof.
  intros [H|[Hl H]]%lookup_app_Some; [by left|right].
  apply list_lookup_singleton_Some in H as [H <-]. split; [lia|done].
Qed.

Lemma claim_inv s r clock row t :
  inv s -> s_now s < clock + LockTTL config ->
  ClaimIdempotencyKey (s_now s) r (clock + LockTTL config) (clock + RecordTTL config) (s_table s)
    = inl (row, t) ->
  inv {| s_now := s_now s; s_table := t; s_executions := s_executions s ++ [start s r row];
         s_replays := s_replays s |}.
Proof.
  intros Hs Hclock Hc. destruct (claim_row _ _ _ _ _ _ _ Hc) as [Hrow ->].
  assert (Hnew : claimed_by (start s r row) row) by (split; rewrite Hrow; done).
  assert (Hfree : forall i x, s_executions s !! i = Some x -> key_of (x_request x) = key_of r ->
    ~ protected (s_now s) x).
  { intros i x. by apply (claim_unprotected _ _ _ _ _ _ _ s i x Hs eq_refl eq_refl Hc). }
  split; cbn [s_now s_table s_executions s_replays].
  - intros i x [Hx|[_ ->]]%lookup_snoc; [by apply (inv_times s Hs i)|]. simpl. rewrite Hrow. simpl. lia.
  - intros i j x y Hij Hx Hy Hk. apply lookup_snoc in Hx as [Hx|[-> ->]].
    2: { apply lookup_lt_Some in Hy. rewrite length_app in Hy. simpl in Hy. lia. }
    apply lookup_snoc in Hy as [Hy|[-> ->]]; [by apply (inv_order s Hs i j)|].
    pose proof (inv_times s Hs i x Hx). specialize (Hfree i x Hx Hk). unfold protected in Hfree. simpl.
    destruct (x_response x); [split; intros; lia|]. split; [lia|by intros [? ?]].
  - intros i x [Hx|[_ ->]]%lookup_snoc Hp.
    + destruct (decide (key_of (x_request x) = key_of r)) as [Hk|Hk]; [by destruct (Hfree i x Hx Hk)|].
      rewrite lookup_insert_ne by done. by apply (inv_row s Hs i).
    + exists row. by rewrite lookup_insert_eq.
  - intros k row' Hk. apply lookup_insert_Some in Hk as [[<- <-]|[H Hk]].
    + exists (length (s_executions s)), (start s r row). split_and!; [|done|done|].
      * by rewrite lookup_app_r, Nat.sub_diag by lia.
      * intros j y Hj _. apply lookup_lt_Some in Hj. rewrite length_app in Hj. simpl in Hj. lia.
    + destruct (inv_claimed s Hs k row' Hk) as (i & x & Hx & Hkx & Hcb & Hlast). exists i, x.
      split_and!; [by apply lookup_app_l_Some|done|done|].
      intros j y [Hj|[_ ->]]%lookup_snoc Hkj; [by apply (Hlast j y)|by destruct (H Hkj)].
  - intros r' response H. destruct (inv_replays s Hs r' response H) as (i & x & Hx & ?). exists i, x.
    split; [by apply lookup_app_l_Some|done].
Qed.

Lemma complete_inv s i x response t :
  inv s -> s_executions s !! i = Some x -> x_response x = None ->
  CompleteIdempotencyKey (s_now s) (x_request x) (x_lease x) response (s_table s) = inl t ->
  inv {| s_now := s_now s; s_table := t; s_executions := <[i := respond response x]> (s_executions s);
         s_replays := s_replays s |}.
Proof.
  intros Hs Hx Hnone Hc. unfold CompleteIdempotencyKey in Hc.
  destruct (s_table s !! key_of (x_request x)) as [row|] eqn:Hrow; [|done].
  destruct (row_Status row) as [|resp] eqn:Hst; [|done].
  destruct (same_request _ _ && _) eqn:Hg; [|done]. injection Hc as <-.
  apply andb_true_iff in Hg as [_ Hl%Z.eqb_eq].
  destruct (inv_claimed s Hs _ _ Hrow) as (j & y & Hy & Hk & [Hreq Hexp Hs'] & Hlast). rewrite Hst in Hs'.
  assert (j = i) as -> by (apply (lease_unique s j i y x Hs Hy Hx Hk); destruct Hs'; congruence).
  assert (y = x) as -> by congruence. clear Hy Hk Hs'.
  assert (Hlen : (i < length (s_executions s))%nat) by by apply lookup_lt_Some in Hx.
  set (row' := {| row_Request := row_Request row; row_Status := Completed response;
                  row_LockedUntil := s_now s; row_ExpiresAt := row_ExpiresAt row |}).
  assert (Hcb : claimed_by (respond response x) row') by by split.
  assert (Hlook : forall j y, <[i := respond response x]> (s_executions s) !! j = Some y ->
    (j = i /\ y = respond response x) \/ (j <> i /\ s_executions s !! j = Some y)).
  { intros j y [(-> & <- & _)|[Hne Hj]]%list_lookup_insert_Some; [by left|right; by split]. }
  assert (Hsame : forall j y, <[i := respond response x]> (s_executions s) !! j = Some y ->
    exists z, s_executions s !! j = Some z /\ x_request z = x_request y /\ x_started z = x_started y /\
      x_lease z = x_lease y /\ x_expires z = x_expires y /\ (j <> i -> z = y)).
  { intros j y [[-> ->]|[Hne Hj]]%Hlook; [by exists x|by exists y]. }
  split; cbn [s_now s_table s_executions s_replays].
  - intros j y (z & Hz & _ & <- & <- & <- & _)%Hsame. by apply (inv_times s Hs j z Hz).
  - intros j k y z Hjk Hy Hz Hkey. destruct (Hsame j y Hy) as (y' & Hy' & Ry & _ & Ly & Ey & Ny).
    destruct (Hsame k z Hz) as (z' & Hz' & Rz & Sz & _ & _ & _).
    unfold same_key in Hkey. rewrite <- Ry, <- Rz in Hkey.
    destruct (inv_order s Hs j k y' z' Hjk Hy' Hz' Hkey) as [H1 H2]. rewrite Ly, Sz in H1. split; [done|].
    destruct (decide (j = i)) as [->|Hne]; [|rewrite <- Ey, <- Sz; rewrite <- (Ny Hne) at 1; exact H2].
    exfalso. assert (y' = x) as -> by congruence. specialize (Hlast k z' Hz' (eq_sym Hkey)). lia.
  - intros j y [[-> ->]|[Hne Hj]]%Hlook Hp; [exists row'; by rewrite lookup_insert_eq|].
    destruct (decide (key_of (x_request y) = key_of (x_request x))) as [Hk|Hk].
    2: { rewrite lookup_insert_ne by done. by apply (inv_row s Hs j). }
    exfalso. destruct (inv_row s Hs j y Hj Hp) as (r2 & Hr2 & [_ _ S2]).
    rewrite Hk, Hrow in Hr2. injection Hr2 as <-. rewrite Hst in S2. destruct S2 as [_ S2].
    apply Hne. apply (lease_unique s j i y x Hs Hj Hx Hk). congruence.
  - intros k r2 Hk. apply lookup_insert_Some in Hk as [[<- <-]|[Hne Hk]].
    + exists i, (respond response x). rewrite list_lookup_insert_eq by done. split_and!; [done..|].
      intros j y (z & Hz & Hrz & _)%Hsame Hkj. apply (Hlast j z Hz). by rewrite Hrz.
    + destruct (inv_claimed s Hs k r2 Hk) as (j & y & Hy & Hkey & Hcl & Hlast'). exists j, y.
      rewrite list_lookup_insert_ne; [|intros ->; apply Hne; congruence]. split_and!; [done..|].
      intros l y' (z & Hz & Hrz & _)%Hsame Hkl. apply (Hlast' l z Hz). by rewrite Hrz.
  - intros r' resp H. destruct (inv_replays s Hs r' resp H) as (j & y & Hy & ? & ? & Hresp). exists j, y.
    rewrite list_lookup_insert_ne; [done|]. intros ->. congruence.
Qed.

Lemma idem_step_inv s s' : step s s' -> inv s -> inv s'.
Proof.
  intros Hst Hs. destruct Hst as [s d Hd|s r clock row t Hclock Hc|s r row response Hg Hr
    |s i x response t Hx Hnone Hc|s].
  - split; cbn [s_now s_table s_executions s_replays]; try apply Hs.
    + intros i x Hx. pose proof (inv_times s Hs i x Hx). lia.
    + intros i x Hx Hp. apply (inv_row s Hs i x Hx). unfold protected in *. lia.
  - by eapply claim_inv.
  - split; cbn [s_now s_table s_executions s_replays]; try apply Hs.
    intros r' resp [H|H%list_elem_of_singleton]%elem_of_app; [by apply (inv_replays s Hs)|].
    injection H as -> ->. unfold GetIdempotencyKey in Hg.
    destruct (s_table s !! key_of r) as [row'|] eqn:Hrow; [|done]. injection Hg as ->.
    destruct (inv_claimed s Hs _ _ Hrow) as (i & x & Hx & Hk & [Hreq _ Hcs] & _). exists i, x.
    unfold claim_result in Hr. destruct (same_request (row_Request row) r) eqn:Hsame; [|done].
    simpl in Hr. destruct (row_Status row) as [|resp'] eqn:Est; [done|]. injection Hr as ->.
    by rewrite Hreq in Hsame.
  - by eapply complete_inv.
  - split; cbn [s_now s_table s_executions s_replays]; try apply Hs.
    + intros i x Hx Hp. destruct (inv_row s Hs i x Hx Hp) as (row & Hrow & Hcb). exists row.
      split; [|done]. unfold DeleteExpiredIdempotencyKeys. apply map_lookup_filter_Some_2; [done|].
      pose proof (inv_times s Hs i x Hx). rewrite (cb_expires _ _ Hcb). unfold protected in Hp.
      destruct (x_response x); lia.
    + intros k row [Hrow _]%map_lookup_filter_Some. by apply (inv_claimed s Hs).
Qed.

Lemma idem_reachable_inv t s : rtc step (init t) s -> inv s.
Proof.
  apply rtc_invariant; [|intros a b Hab; by apply idem_step_inv]. split; cbn; try done.
  intros r resp H. by apply not_elem_of_nil in H.
Qed.

(** C27: requests with one idempotency key are executed one at a time. Whatever
    the servers do, an execution starts only when the lease of every earlier
    execution of the key is over, and, once one of them was answered in time,
    only when the record of its answer has expired. *)
Theorem executions_do_not_overlap t s i j x y :
  rtc step (init t) s -> (i < j)%nat -> s_executions s !! i = Some x -> s_executions s !! j = Some y ->
  same_key x y ->
  x_lease x <= x_started y /\ (is_Some (x_response x) -> x_expires x <= x_started y).
Proof. intros Hr%idem_reachable_inv. by apply (inv_order s Hr). Qed.

(** once an execution is answered in time, its answer is what the key gives:
    until the record expires no other request with the key is executed, the same
    request is answered with the stored response, and a different one is refused. *)
Theorem answer_is_replayed t s i x response r l e :
  rtc step (init t) s -> s_executions s !! i = Some x -> x_response x = Some response ->
  s_now s < x_expires x -> key_of (x_request x) = key_of r ->
  ClaimIdempotencyKey (s_now s) r l e (s_table s) = inr (Sentinel ErrNoRows) /\
  exists row, GetIdempotencyKey r (s_table s) = inl row /\
    claim_result r row false =
      (if same_request (x_request x) r then inl (Replay response) else inr (Sentinel ErrKeyConflict)).
Proof.
  intros Hs%idem_reachable_inv Hx Hresp Hnow Hk.
  destruct (inv_row s Hs i x Hx) as (row & Hrow & [Hreq Hexp Hst]); [unfold protected; by rewrite Hresp|].
  rewrite Hk in Hrow. destruct (row_Status row) as [|resp] eqn:Est.
  { destruct Hst as [Hst _]. congruence. }
  split.
  - unfold ClaimIdempotencyKey. rewrite Hrow, Est, Hexp. by rewrite (proj2 (Z.leb_gt _ _)) by lia.
  - exists row. unfold GetIdempotencyKey. rewrite Hrow. split; [done|]. unfold claim_result.
    rewrite Hreq, Est. destruct (same_request _ r); simpl; congruence.
Qed.

(** a replayed response is the response of an execution of the same request. *)
Theorem replay_is_an_answer t s r response :
  rtc step (init t) s -> (r, response) ∈ s_replays s ->
  exists x, x ∈ s_executions s /\ key_of (x_request x) = key_of r /\
    same_request (x_request x) r = true /\ x_response x = Some response.
Proof.
  intros Hs%idem_reachable_inv H. destruct (inv_replays s Hs r response H) as (i & x & Hx & ?).
  exists x. split; [by eapply list_elem_of_lookup_2|done].
Qed.
End Steps.

(** ** The middleware (platform/middleware/idempotency.go) *)

Definition maxIdempotentRequestBody : nat := 2 ^ 20.

Abbreviation Header := (gmap string (list string)).
(** [http.CanonicalHeaderKey]: a valid field name with the first letter and the
    letters after a hyphen in upper case, the others in lower case. *)
Definition token_byte (c : ascii) : bool :=
  byte_in 48 57 c || byte_in 65 90 c || byte_in 97 122 c
  || bool_decide (c ∈ bytes "!#$%&'*+-.^_`|~").
Fixpoint canonical (upper : bool) (b : list ascii) : list ascii :=
  match b with
  | [] => []
  | c :: b' => (if upper then upper_byte c else lower_byte c) :: canonical (bool_decide (c = "-"%char)) b'
  end.
Definition CanonicalHeaderKey (name : string) : string :=
  if forallb token_byte (bytes name) then of_bytes (canonical true (bytes name)) else name.
Definition Header_Set (name value : string) (h : Header) : Header :=
  <[CanonicalHeaderKey name := [value]]> h.
Definition Header_Add (name value : string) (h : Header) : Header :=
  let k := CanonicalHeaderKey name in <[k := default [] (h !! k) ++ [value]]> h.
Definition Header_Get (name : string) (h : Header) : string :=
  match h !! CanonicalHeaderKey name with Some (v :: _) => v | _ => "" end.
(** Adding the values of every header of [src]; different names have different
    canonical forms in the headers handlers set, so the order of the map is free. *)
Definition add_headers (src h : Header) : Header :=
  foldl (fun h '(name, values) => foldl (fun h v => Header_Add name v h) h values) h (map_to_list src).

Record Principal := { pr_valid : bool; pr_type : string; pr_id : UUID }.
Record HttpRequest := {
  hr_Method : string; hr_URI : string;
  (** [r.Header.Get(Idempotency-Key)]. *)
  hr_Key : string;
  hr_Organization : option UUID; hr_Principal : option Principal;
  (** [None]: the body cannot be read. *)
  hr_Body : option (list ascii);
}.
Record HttpResponse := { h_status : Z; h_header : Header; h_body : list ascii }.
(** What is written: a response, [httputil.Error] with the headers set before, or
    what the rest of the chain writes itself. *)
Inductive Served :=
| Wrote (r : HttpResponse) | WroteError (h : Header) (e : error) | PassedOn (c : HttpResponse).

Definition mutationMethod (method : string) : bool :=
  bool_decide (method ∈ ["POST"; "PUT"; "PATCH"; "DELETE"]).
Definition replay_dropped : list string :=
  ["Connection"; "Content-Length"; "Content-Type"; "Set-Cookie"; "Transfer-Encoding"].
Definition replayHeaders (h : Header) : Header :=
  filter (fun '(name, _) => CanonicalHeaderKey name ∉ replay_dropped) h.
Definition writeReplay (h : Header) (response : Response) : HttpResponse :=
  let h := add_headers (rs_Headers response) h in
  let h := if decide (rs_ContentType response <> "")
           then Header_Set "Content-Type" (rs_ContentType response) h else h in
  {| h_status := rs_Status response; h_header := Header_Set "Idempotency-Replayed" "true" h;
     h_body := rs_Body response |}.
Definition writeBuffered (h : Header) (captured : HttpResponse) : HttpResponse :=
  {| h_status := h_status captured; h_header := add_headers (h_header captured) h;
     h_body := h_body captured |}.
Definition writeIdempotencyError (h : Header) (err : error) : Served :=
  if errors_Is err ErrKeyConflict then WroteError h (NewConflict ErrKeyConflict) else
  if errors_Is err ErrInProgress
  then WroteError (Header_Set "Retry-After" "1" h) (NewConflict ErrInProgress)
  else WroteError h (NewServiceUnavailable "idempotency service unavailable" err).
Definition readIdempotentBody (r : HttpRequest) : result (list ascii) :=
  match hr_Body r with
  | None => inr (NewBadRequest "invalid request body")
  | Some body =>
      if decide (maxIdempotentRequestBody < length body)%nat
      then inr (NewPayloadTooLarge "idempotent request body exceeds 1 MiB") else inl body
  end.

Section Middleware.
Context {U : UuidLib}.
Context {W : Type} {HI : HasIdempotency W} (config : Config).
(** The hex of [sha256.Sum256]; the rest of the chain, its response buffered. *)
Context (digest : list ascii -> string) (next : HttpRequest -> W -> HttpResponse * W).

Definition idempotencyScope (r : HttpRequest) : option string :=
  match hr_Organization r with
  | Some org => Some ("organization:" +:+ uuid_String org)
  | None =>
      match hr_Principal r with
      | Some p => if pr_valid p then Some (pr_type p +:+ ":" +:+ uuid_String (pr_id p)) else None
      | None => None
      end
  end.

Definition captured_response (c : HttpResponse) : Response := {|
  rs_Status := h_status c; rs_Body := h_body c; rs_ContentType := Header_Get "Content-Type" (h_header c);
  rs_Headers := replayHeaders (h_header c) |}.

(** The headers the response starts from, the key among them. *)
Definition Handle (h : Header) (r : HttpRequest) (w : W) : Served * W :=
  let key := TrimSpace (hr_Key r) in
  if bool_decide (key = "") || negb (mutationMethod (hr_Method r))
  then let '(c, w1) := next r w in (PassedOn c, w1) else
  if decide (255 < String.length key)%nat
  then (WroteError h (NewBadRequest "idempotency key must not exceed 255 characters"), w) else
  let h := Header_Set "Idempotency-Key" key h in
  match idempotencyScope r with
  | None => (WroteError h (NewUnauthorized "authenticated idempotency scope required"), w)
  | Some scope =>
      match readIdempotentBody r with
      | inr err => (WroteError h err, w)
      | inl body =>
          let request := {| rq_Scope := scope; rq_Key := key; rq_Method := hr_Method r;
                            rq_Path := hr_URI r; rq_RequestHash := digest body |} in
          match Claim config request w with
          | (inr err, w1) => (writeIdempotencyError h err, w1)
          | (inl (Replay response), w1) => (Wrote (writeReplay h response), w1)
          | (inl (Lease lease), w1) =>
              let '(c, w2) := next r w1 in
              let '(_, w3) := Complete request lease (captured_response c) w2 in
              (Wrote (writeBuffered h c), w3)
          end
      end
  end.

(** *** Two deliveries of one request *)
Context (HL : forall t w, get_table (set_table t w) = t).

Lemma ext_quiet {A} (op : W -> result A * W) w : get_faults w = [] -> ext op w = op w.
Proof. unfold ext. by intros ->. Qed.

(** The request the middleware claims for [r], when it gets that far. *)
Definition claimed_request (r : HttpRequest) (scope : string) (body : list ascii) : Request :=
  {| rq_Scope := scope; rq_Key := TrimSpace (hr_Key r); rq_Method := hr_Method r; rq_Path := hr_URI r;
     rq_RequestHash := digest body |}.
Record idempotent (r : HttpRequest) (scope : string) (body : list ascii) : Prop := {
  id_key : TrimSpace (hr_Key r) <> "" /\ (String.length (TrimSpace (hr_Key r)) <= 255)%nat;
  id_method : mutationMethod (hr_Method r) = true;
  id_scope : idempotencyScope r = Some scope;
  id_body : readIdempotentBody r = inl body;
}.

Lemma Handle_claims h r scope body w :
  idempotent r scope body ->
  Handle h r w =
  let h := Header_Set "Idempotency-Key" (TrimSpace (hr_Key r)) h in
  let request := claimed_request r scope body in
  match Claim config request w with
  | (inr err, w1) => (writeIdempotencyError h err, w1)
  | (inl (Replay response), w1) => (Wrote (writeReplay h response), w1)
  | (inl (Lease lease), w1) =>
      let '(c, w2) := next r w1 in
      (Wrote (writeBuffered h c), snd (Complete request lease (captured_response c) w2))
  end.
Proof.
  intros [[Hk Hl] Hm Hs Hb]. unfold Handle. cbv zeta. rewrite bool_decide_false, Hm by done. simpl.
  rewrite decide_False by lia. rewrite Hs, Hb. fold (claimed_request r scope body).
  destruct (Claim _ _ w) as [[[response|lease]|err] w1]; [done| |done].
  destruct (next r w1) as [c w2]. by destruct (Complete _ _ _ w2).
Qed.

Lemma Claim_fresh request w :
  get_faults w = [] -> get_table w !! key_of request = None ->
  let lease := server_now w + LockTTL config in
  let row := {| row_Request := request; row_Status := Processing; row_LockedUntil := lease;
                row_ExpiresAt := server_now w + RecordTTL config |} in
  Claim config request w = (inl (Lease lease), set_table (<[key_of request := row]> (get_table w)) w).
Proof.
  intros Hf Hn. cbv zeta. unfold Claim, Repo_Claim, gets, attempt, bind. rewrite ext_quiet by done.
  unfold ClaimIdempotencyKey. by rewrite Hn.
Qed.
Lemma Claim_completed request row response w :
  get_faults w = [] -> get_table w !! key_of request = Some row -> row_Request row = request ->
  row_Status row = Completed response -> idem_now w < row_ExpiresAt row ->
  Claim config request w = (inl (Replay response), w).
Proof.
  intros Hf Hrow Hreq Hst Hnow.
  assert (Hclaim : forall l e, Repo_Claim request l e w = (inl (row, false), w)).
  { intros l e. unfold Repo_Claim, bind at 1, attempt. rewrite ext_quiet by done.
    unfold ClaimIdempotencyKey. rewrite Hrow, Hst, (proj2 (Z.leb_gt _ _)) by lia.
    cbn [orb andb fst snd errors_Is]. rewrite bool_decide_true by done. cbn [negb].
    unfold bind. rewrite ext_quiet by done. unfold GetIdempotencyKey. by rewrite Hrow. }
  unfold Claim, gets, bind at 1. unfold bind. rewrite Hclaim. unfold lift, claim_result.
  rewrite Hst, Hreq. unfold same_request. by rewrite !bool_decide_true.
Qed.

(** a request delivered twice is executed once. When nothing fails, the key is
    unknown and the rest of the chain leaves the idempotency table alone, the
    first delivery is executed and written, and the second, any time before the
    record expires, is answered without executing it: the same status and body,
    the stored headers, and the mark of a replay. *)
Theorem Handle_twice h r scope body w c w2 w3 :
  idempotent r scope body -> get_faults w = [] ->
  let request := claimed_request r scope body in
  get_table w !! key_of request = None ->
  let w1 := snd (Claim config request w) in
  next r w1 = (c, w2) -> get_faults w2 = [] -> get_table w2 = get_table w1 ->
  get_faults w3 = [] -> get_table w3 = get_table (snd (Handle h r w)) ->
  idem_now w3 < server_now w + RecordTTL config ->
  let h1 := Header_Set "Idempotency-Key" (TrimSpace (hr_Key r)) h in
  fst (Handle h r w) = Wrote (writeBuffered h1 c) /\
  Handle h r w3 = (Wrote (writeReplay h1 (captured_response c)), w3).
Proof.
  intros Hid Hf request Hnone w1 Hnext Hf2 Ht2 Hf3 Ht3 Hnow h1. unfold w1 in *. clear w1.
  pose proof (Claim_fresh request w Hf Hnone) as Hclaim. cbv zeta in Hclaim.
  rewrite (Handle_claims h r scope body w Hid) in *. fold request in Ht3, Hclaim |- *. cbv zeta in Ht3 |- *.
  rewrite Hclaim in *. cbn [snd] in *. rewrite Hnext in *. split; [done|].
  rewrite (Handle_claims h r scope body w3 Hid). fold request. cbv zeta. fold h1.
  set (row := {| row_Request := request; row_Status := Processing |}) in *.
  assert (Hcomplete : exists row', get_table w3 !! key_of request = Some row' /\
    row_Request row' = request /\ row_Status row' = Completed (captured_response c) /\
    row_ExpiresAt row' = server_now w + RecordTTL config).
  { rewrite Ht3. cbn [snd]. unfold Complete. rewrite wrap_snd. unfold Repo_Complete. rewrite ext_quiet by done.
    unfold CompleteIdempotencyKey. rewrite Ht2, HL, lookup_insert_eq. simpl. unfold same_request.
    rewrite !bool_decide_true, Z.eqb_refl by done. simpl. rewrite HL.
    eexists. by rewrite lookup_insert_eq. }
  destruct Hcomplete as (row' & Hrow' & Hreq & Hst & Hexp).
  by rewrite (Claim_completed request row' (captured_response c) w3 Hf3 Hrow' Hreq Hst) by lia.
Qed.
End Middleware.

(** ** Runs *)
Section Run.
#[local] Existing Instance decimal_uuid.

Record Cell := { c_table : Table; c_now : Z; c_faults : list fault; c_executed : Z }.
#[local] Instance Cell_idempotency : HasIdempotency Cell := {|
  idem_faults := {| get_faults := c_faults; set_faults fs w :=
    {| c_table := c_table w; c_now := c_now w; c_faults := fs; c_executed := c_executed w |} |};
  get_table := c_table;
  set_table t w := {| c_table := t; c_now := c_now w; c_faults := c_faults w; c_executed := c_executed w |};
  idem_now := c_now; server_now := c_now |}.

Definition ex_cell : Cell := {| c_table := ∅; c_now := 0; c_faults := []; c_executed := 0 |}.
Definition ex_http : HttpRequest := {|
  hr_Method := "POST"; hr_URI := "/v1/calls"; hr_Key := " k1 "; hr_Organization := Some 5;
  hr_Principal := None; hr_Body := Some (bytes "{}") |}.
Definition ex_answer : HttpResponse := {|
  h_status := 201; h_header := {["Content-Type" := ["application/json"]]}; h_body := bytes "made" |}.
Definition ex_next (_ : HttpRequest) (w : Cell) : HttpResponse * Cell :=
  (ex_answer, {| c_table := c_table w; c_now := c_now w; c_faults := c_faults w;
                 c_executed := c_executed w + 1 |}).
Definition ex_digest (_ : list ascii) : string := "00".
Definition ex_once : Cell := snd (Handle DefaultConfig ex_digest ex_next ∅ ex_http ex_cell).
(** An hour later. *)
Definition ex_later : Cell := {| c_table := c_table ex_once; c_now := Hour; c_faults := [];
                                 c_executed := c_executed ex_once |}.

Lemma Handle_twice_witness :
  Handle DefaultConfig ex_digest ex_next ∅ ex_http ex_later =
    (Wrote (writeReplay {["Idempotency-Key" := ["k1"]]} (captured_response ex_answer)), ex_later) /\
  c_executed ex_later = 1.
Proof.
  split; [|vm_compute; reflexivity].
  pose proof (Handle_twice DefaultConfig ex_digest ex_next (fun _ _ => eq_refl) ∅ ex_http "organization:5"
    (bytes "{}") ex_cell ex_answer
    (snd (ex_next ex_http (snd (Claim DefaultConfig
       (claimed_request ex_digest ex_http "organization:5" (bytes "{}")) ex_cell)))) ex_later) as H.
  destruct H as [_ H].
  - split; [split; [vm_compute; discriminate|vm_compute; lia]|reflexivity|reflexivity|reflexivity].
  - reflexivity.
  - reflexivity.
  - reflexivity.
  - reflexivity.
  - reflexivity.
  - reflexivity.
  - vm_compute. reflexivity.
  - vm_compute. reflexivity.
  - rewrite H. vm_compute. reflexivity.
Defined.

(** Two requests for one key: the second is executed when the lock of the first is over. *)
Definition ex_request (hash : string) : Request := {|
  rq_Scope := "user:1"; rq_Key := "k1"; rq_Method := "POST"; rq_Path := "/v1/calls"; rq_RequestHash := hash |}.
Definition ex_ttl : Config := {| LockTTL := 5; RecordTTL := 100 |}.
Definition ex_claim (clock : Z) (s : System) : System :=
  let row := {| row_Request := ex_request "00"; row_Status := Processing; row_LockedUntil := clock + 5;
                row_ExpiresAt := clock + 100 |} in
  {| s_now := s_now s; s_table := <[key_of (ex_request "00") := row]> (s_table s);
     s_executions := s_executions s ++ [start s (ex_request "00") row]; s_replays := s_replays s |}.
Definition ex_tick (d : Z) (s : System) : System :=
  {| s_now := s_now s + d; s_table := s_table s; s_executions := s_executions s; s_replays := s_replays s |}.
Definition ex_retried : System := ex_claim 6 (ex_tick 6 (ex_claim 1 (init 0))).
Lemma ex_retried_reached : rtc (step ex_ttl) (init 0) ex_retried.
Proof.
  eapply rtc_l; [eapply (step_claim ex_ttl (init 0) (ex_request "00") 1); [simpl; lia|reflexivity]|].
  eapply rtc_l; [apply (step_tick ex_ttl _ 6); lia|].
  eapply rtc_l; [eapply (step_claim ex_ttl _ (ex_request "00") 6); [simpl; lia|vm_compute; reflexivity]|].
  apply rtc_refl.
Qed.

Lemma executions_do_not_overlap_witness :
  x_lease (start (init 0) (ex_request "00")
    {| row_Request := ex_request "00"; row_Status := Processing; row_LockedUntil := 6; row_ExpiresAt := 101 |})
    <= 6.
Proof.
  assert (Httl : 0 < LockTTL ex_ttl <= RecordTTL ex_ttl) by (simpl; lia).
  destruct (executions_do_not_overlap ex_ttl Httl 0 ex_retried 0 1 _ _ ex_retried_reached
    ltac:(lia) eq_refl eq_refl eq_refl) as [H _]. exact H.
Defined.

Definition ex_response : Response := {|
  rs_Status := 201; rs_Body := []; rs_ContentType := ""; rs_Headers := ∅ |}.
(** The second execution is answered and its answer replayed. *)
Definition ex_done : System := {|
  s_now := 6; s_table := {[key_of (ex_request "00") := {| row_Request := ex_request "00";
    row_Status := Completed ex_response; row_LockedUntil := 6; row_ExpiresAt := 106 |}]};
  s_executions := take 1 (s_executions ex_retried) ++ [{| x_request := ex_request "00"; x_started := 6;
    x_lease := 11; x_expires := 106; x_response := Some ex_response |}];
  s_replays := [(ex_request "00", ex_response)] |}.
Lemma ex_done_reached : rtc (step ex_ttl) (init 0) ex_done.
Proof.
  apply (rtc_r _ {| s_now := 6; s_table := s_table ex_done; s_executions := s_executions ex_done;
                      s_replays := [] |}).
  - apply (rtc_r _ ex_retried); [apply ex_retried_reached|].
    apply (step_complete ex_ttl ex_retried 1 (start (ex_tick 6 (ex_claim 1 (init 0))) (ex_request "00")
      {| row_Request := ex_request "00"; row_Status := Processing; row_LockedUntil := 6 + 5;
         row_ExpiresAt := 6 + 100 |}) ex_response); vm_compute; reflexivity.
  - eapply (step_replay ex_ttl {| s_now := 6; s_table := s_table ex_done;
      s_executions := s_executions ex_done; s_replays := [] |} (ex_request "00") _ ex_response);
      vm_compute; reflexivity.
Qed.
Lemma answer_is_replayed_witness :
  exists row, GetIdempotencyKey (ex_request "ff") (s_table ex_done) = inl row /\
    claim_result (ex_request "ff") row false = inr (Sentinel ErrKeyConflict).
Proof.
  assert (Httl : 0 < LockTTL ex_ttl <= RecordTTL ex_ttl) by (simpl; lia).
  destruct (answer_is_replayed ex_ttl Httl 0 ex_done 1 _ ex_response (ex_request "ff") 20 200 ex_done_reached
    eq_refl eq_refl ltac:(vm_compute; reflexivity) eq_refl) as [_ H]. exact H.
Defined.
Lemma replay_is_an_answer_witness :
  exists x, x ∈ s_executions ex_done /\ x_response x = Some ex_response.
Proof.
  assert (Httl : 0 < LockTTL ex_ttl <= RecordTTL ex_ttl) by (simpl; lia).
  destruct (replay_is_an_answer ex_ttl Httl 0 ex_done (ex_request "00") ex_response ex_done_reached)
    as (x & Hx & _ & _ & Hr); [by apply list_elem_of_singleton|]. exists x. exact (conj Hx Hr).
Defined.
End Run.
End Idempotency.
