(* ===== verification/Webhooks.v ===== *)
(** * Webhooks: tables, endpoints and ingestion

    [platform/webhooks]: the tables of [migrations/011_create_webhook.sql] with
    their constraints, the statements of [database/queries/webhook_*.sql], the
    repository, the validation of requests and events, the service and the NATS
    consumer. The delivery worker is in [WebhookDelivery.v]. *)

From stdpp Require Import sorting.
From S2P Require Import Prelude Json Routing.
Local Open Scope Z_scope.

Module Webhooks.
Import AppErr.

(** What the code takes from elsewhere: PostgreSQL's conversion of a text to
    [jsonb] and back ([None]: rejected) and its class [[:space:]]; HMAC-SHA256 in
    hexadecimal; [encoding/json] on the delivery envelope; [net/url]; whether
    [http.NewRequest] rejects a URL; the text of an error. *)
Record URL := { Scheme : string; Host : string; has_User : bool }.
Class WebhookLib := {
  jsonb : string -> option string;
  has_space : string -> bool;
  hmac_hex : string -> string -> string;
  marshal_envelope : UUID -> string -> Z -> string -> result string;
  ParseRequestURI : string -> option URL;
  new_request_error : string -> option error;
  error_text : error -> string;
}.

(** ** Tables *)
Inductive Status := StatusPending | StatusRetrying | StatusSucceeded | StatusFailed | StatusCanceled.
#[export] Instance Status_eq_dec : EqDecision Status.
Proof. solve_decision. Defined.
(** [status IN ('pending', 'retrying')]. *)
Definition is_open (s : Status) : bool :=
  match s with StatusPending | StatusRetrying => true | _ => false end.

Record WebhookEndpoint := {
  ep_ID : UUID;
  ep_OrganizationID : UUID;
  ep_Url : string;
  ep_SigningSecret : string;
  ep_Enabled : bool;
  ep_SubscribedEvents : list string;
  ep_CreatedAt : Z;
  ep_UpdatedAt : Z;
  ep_DisabledAt : option Z;
  ep_ConsecutiveFailures : Z;
  ep_LastFailureAt : option Z;
  ep_DisabledReason : option string;
}.

Record WebhookEvent := {
  we_ID : UUID;
  we_OrganizationID : UUID;
  we_EventType : string;
  we_ObjectType : string;
  we_ObjectID : option UUID;
  we_Payload : string;
  we_OccurredAt : Z;
  we_CreatedAt : Z;
}.

Record WebhookDelivery := {
  wd_ID : UUID;
  wd_EventID : UUID;
  wd_EndpointID : UUID;
  wd_Status : Status;
  wd_AttemptCount : Z;
  wd_NextAttemptAt : Z;
  wd_LastAttemptAt : option Z;
  wd_ResponseStatus : option Z;
  wd_ResponseBody : option string;
  wd_LastError : option string;
  wd_DeliveredAt : option Z;
  wd_Lock : option (Z * string);
  wd_CreatedAt : Z;
  wd_UpdatedAt : Z;
}.

(** [organizations]: the status of each, [true] for ['active']. *)
Record DB := {
  organizations : gmap UUID bool;
  endpoints : gmap UUID WebhookEndpoint;
  events : gmap UUID WebhookEvent;
  deliveries : gmap UUID WebhookDelivery;
}.
Definition set_endpoints (m : gmap UUID WebhookEndpoint) (d : DB) : DB :=
  {| organizations := organizations d; endpoints := m; events := events d; deliveries := deliveries d |}.
Definition set_events (m : gmap UUID WebhookEvent) (d : DB) : DB :=
  {| organizations := organizations d; endpoints := endpoints d; events := m; deliveries := deliveries d |}.
Definition set_deliveries (m : gmap UUID WebhookDelivery) (d : DB) : DB :=
  {| organizations := organizations d; endpoints := endpoints d; events := events d; deliveries := m |}.

Definition org_active (org : UUID) (d : DB) : bool := bool_decide (organizations d !! org = Some true).

(** ** Constraints *)
Definition endpoint_row_ok (e : WebhookEndpoint) : bool :=
  is_text (ep_Url e) && HasPrefix (ep_Url e) "https://"
  && negb (bool_decide (ep_SigningSecret e = ""))
  && negb (bool_decide (ep_SubscribedEvents e = [])) && negb (bool_decide ("" ∈ ep_SubscribedEvents e))
  && forallb is_text (ep_SubscribedEvents e)
  && bool_decide (ep_Enabled e = true <-> ep_DisabledAt e = None)
  && (0 <=? ep_ConsecutiveFailures e) && is_integer (ep_ConsecutiveFailures e)
  && bool_decide (ep_DisabledReason e ∈ [None; Some "manual"; Some "failure_threshold"]%string).
Definition delivery_row_ok (d : WebhookDelivery) : bool :=
  (0 <=? wd_AttemptCount d) && is_integer (wd_AttemptCount d)
  && match wd_ResponseStatus d with Some s => (100 <=? s) && (s <=? 599) | None => true end
  && opt_text (wd_ResponseBody d) && opt_text (wd_LastError d)
  && (negb (bool_decide (wd_Status d = StatusSucceeded)) || bool_decide (is_Some (wd_DeliveredAt d))).

Definition violates (constraint : string) : error := Errorf "violates constraint" [constraint].
Definition no_rows {A} : result A := inr (Sentinel ErrNoRows).

Definition put_endpoint (e : WebhookEndpoint) (d : DB) : result (WebhookEndpoint * DB) :=
  if endpoint_row_ok e then inl (e, set_endpoints (<[ep_ID e := e]> (endpoints d)) d)
  else inr (violates "webhook_endpoints").
Definition put_delivery (e : WebhookDelivery) (d : DB) : result (WebhookDelivery * DB) :=
  if delivery_row_ok e then inl (e, set_deliveries (<[wd_ID e := e]> (deliveries d)) d)
  else inr (violates "webhook_deliveries").

(** [UPDATE webhook_endpoints SET f WHERE id = ... AND organization_id = ... AND p]. *)
Definition update_endpoint (org id : UUID) (p : WebhookEndpoint -> bool)
    (f : WebhookEndpoint -> WebhookEndpoint) (d : DB) : result (WebhookEndpoint * DB) :=
  match endpoints d !! id with
  | Some e => if bool_decide (ep_OrganizationID e = org) && p e then put_endpoint (f e) d else no_rows
  | None => no_rows
  end.
(** A statement whose caller does not look at the number of rows ([:exec]). *)
Definition ignore_no_rows {A} (d : DB) (r : result (A * DB)) : result (unit * DB) :=
  match r with
  | inl (_, d') => inl (tt, d')
  | inr e => if errors_Is e ErrNoRows then inl (tt, d) else inr e
  end.

(** ** Statements on endpoints (database/queries/webhook_endpoints.sql) *)
Section Queries.
Context {L : WebhookLib} (now : Z).

(** [SET enabled = ..., disabled_at = ..., disabled_reason = ..., consecutive_failures = ...,
    last_failure_at = ..., updated_at = now()]. *)
Definition with_health (enabled : bool) (disabled_at : option Z) (reason : option string)
    (failures : Z) (last_failure : option Z) (e : WebhookEndpoint) : WebhookEndpoint :=
  {| ep_ID := ep_ID e; ep_OrganizationID := ep_OrganizationID e; ep_Url := ep_Url e;
     ep_SigningSecret := ep_SigningSecret e; ep_Enabled := enabled;
     ep_SubscribedEvents := ep_SubscribedEvents e; ep_CreatedAt := ep_CreatedAt e; ep_UpdatedAt := now;
     ep_DisabledAt := disabled_at; ep_ConsecutiveFailures := failures; ep_LastFailureAt := last_failure;
     ep_DisabledReason := reason |}.
(** [SET url = ..., signing_secret = ..., subscribed_events = ..., updated_at = now()]. *)
Definition with_target (url secret : string) (evs : list string) (e : WebhookEndpoint) : WebhookEndpoint :=
  {| ep_ID := ep_ID e; ep_OrganizationID := ep_OrganizationID e; ep_Url := url;
     ep_SigningSecret := secret; ep_Enabled := ep_Enabled e;
     ep_SubscribedEvents := evs; ep_CreatedAt := ep_CreatedAt e; ep_UpdatedAt := now;
     ep_DisabledAt := ep_DisabledAt e; ep_ConsecutiveFailures := ep_ConsecutiveFailures e;
     ep_LastFailureAt := ep_LastFailureAt e; ep_DisabledReason := ep_DisabledReason e |}.

Definition CreateWebhookEndpoint (id org : UUID) (url secret : string) (evs : list string)
    (enabled : option bool) (d : DB) : result (WebhookEndpoint * DB) :=
  if org_active org d then
    put_endpoint {| ep_ID := id; ep_OrganizationID := org; ep_Url := url; ep_SigningSecret := secret;
      ep_Enabled := default true enabled; ep_SubscribedEvents := evs; ep_CreatedAt := now;
      ep_UpdatedAt := now; ep_DisabledAt := None; ep_ConsecutiveFailures := 0;
      ep_LastFailureAt := None; ep_DisabledReason := None |} d
  else no_rows.

Definition GetWebhookEndpointByID (org id : UUID) (d : DB) : result WebhookEndpoint :=
  match endpoints d !! id with
  | Some e => if bool_decide (ep_OrganizationID e = org) && org_active org d then inl e else no_rows
  | None => no_rows
  end.

Definition endpoint_created_ge (a b : WebhookEndpoint) : Prop := ep_CreatedAt b <= ep_CreatedAt a.
#[local] Instance endpoint_created_ge_dec : RelDecision endpoint_created_ge.
Proof. intros a b. unfold endpoint_created_ge. apply _. Defined.
Definition ListWebhookEndpointsByOrganizationID (org : UUID) (d : DB) : list WebhookEndpoint :=
  merge_sort endpoint_created_ge
    (filter (fun e => ep_OrganizationID e = org) (snd <$> map_to_list (endpoints d))).

(** The [CASE]s on [enabled]: given it sets or clears the disabling, absent it keeps it. *)
Definition UpdateWebhookEndpoint (org id : UUID) (url : option string) (evs : option (list string))
    (enabled : option bool) : DB -> result (WebhookEndpoint * DB) :=
  update_endpoint org id (fun _ => true) (fun e =>
    with_health (default (ep_Enabled e) enabled)
      (match enabled with Some false => Some now | Some true => None | None => ep_DisabledAt e end)
      (match enabled with Some false => Some "manual"%string | Some true => None | None => ep_DisabledReason e end)
      (ep_ConsecutiveFailures e) (ep_LastFailureAt e)
      (with_target (default (ep_Url e) url) (ep_SigningSecret e) (default (ep_SubscribedEvents e) evs) e)).

Definition DisableWebhookEndpoint (org id : UUID) (d : DB) : result (unit * DB) :=
  ignore_no_rows d (update_endpoint org id ep_Enabled
    (fun e => with_health false (Some now) (Some "manual"%string) (ep_ConsecutiveFailures e) (ep_LastFailureAt e) e) d).

Definition RotateWebhookEndpointSecret (org id : UUID) (secret : string) : DB -> result (WebhookEndpoint * DB) :=
  update_endpoint org id (fun _ => true) (fun e => with_target (ep_Url e) secret (ep_SubscribedEvents e) e).

(** ** Statements on events (database/queries/webhook_events.sql) *)

(** An identifier that exists gives no row; an organization that does not exist,
    or a row out of the constraints, an error. *)
Definition CreateWebhookEvent (ev : WebhookEvent) (d : DB) : result (WebhookEvent * DB) :=
  match jsonb (we_Payload ev) with
  | None => inr (violates "jsonb")
  | Some payload =>
  if negb (is_text (we_EventType ev) && is_text (we_ObjectType ev)) then inr (violates "text") else
  if negb (not_blank (we_EventType ev)) || has_space (we_EventType ev)
  then inr (violates "chk_webhook_event_type") else
  if negb (not_blank (we_ObjectType ev)) then inr (violates "chk_webhook_event_object_type") else
  if negb (HasPrefix payload "{") then inr (violates "chk_webhook_event_payload") else
  if bool_decide (is_Some (events d !! we_ID ev)) then no_rows else
  if negb (bool_decide (is_Some (organizations d !! we_OrganizationID ev)))
  then inr (violates "organization_id") else
  let e := {| we_ID := we_ID ev; we_OrganizationID := we_OrganizationID ev; we_EventType := we_EventType ev;
              we_ObjectType := we_ObjectType ev; we_ObjectID := we_ObjectID ev; we_Payload := payload;
              we_OccurredAt := we_OccurredAt ev; we_CreatedAt := now |} in
  inl (e, set_events (<[we_ID ev := e]> (events d)) d)
  end.

Definition GetWebhookEvent (org id : UUID) (d : DB) : result WebhookEvent :=
  match events d !! id with
  | Some e => if bool_decide (we_OrganizationID e = org) && org_active org d then inl e else no_rows
  | None => no_rows
  end.

(** ** Statements on deliveries (database/queries/webhook_deliveries.sql) *)

Definition new_delivery (id event endpoint : UUID) (at_ : Z) : WebhookDelivery :=
  {| wd_ID := id; wd_EventID := event; wd_EndpointID := endpoint; wd_Status := StatusPending;
     wd_AttemptCount := 0; wd_NextAttemptAt := at_; wd_LastAttemptAt := None; wd_ResponseStatus := None;
     wd_ResponseBody := None; wd_LastError := None; wd_DeliveredAt := None; wd_Lock := None;
     wd_CreatedAt := now; wd_UpdatedAt := now |}.

(** The [JOIN]s and conditions an endpoint has to meet for an event. *)
Definition wants (d : DB) (ev : WebhookEvent) (e : WebhookEndpoint) : bool :=
  bool_decide (ep_OrganizationID e = we_OrganizationID ev) && ep_Enabled e
  && bool_decide (ep_DisabledAt e = None) && bool_decide (we_EventType ev ∈ ep_SubscribedEvents e)
  && org_active (we_OrganizationID ev) d.
(** The unique constraint on event and endpoint. *)
Definition has_delivery (d : DB) (event endpoint : UUID) : bool :=
  existsb (fun w => bool_decide (wd_EventID w = event) && bool_decide (wd_EndpointID w = endpoint))
    (snd <$> map_to_list (deliveries d)).
Definition new_targets (d : DB) (ev : WebhookEvent) : list UUID :=
  fst <$> filter (fun p => wants d ev (snd p) = true /\ has_delivery d (we_ID ev) (fst p) = false)
            (map_to_list (endpoints d)).
(** [id], [id + 1], ...: the identifiers the database generates. *)
Fixpoint insert_deliveries (id event : UUID) (at_ : Z) (targets : list UUID)
    (m : gmap UUID WebhookDelivery) : gmap UUID WebhookDelivery :=
  match targets with
  | [] => m
  | t :: rest => insert_deliveries (id + 1) event at_ rest (<[id := new_delivery id event t at_]> m)
  end.
Definition CreateWebhookDeliveriesForEvent (id event : UUID) (at_ : Z) (d : DB) : result (Z * DB) :=
  match events d !! event with
  | Some ev =>
      let targets := new_targets d ev in
      inl (Z.of_nat (length targets),
           set_deliveries (insert_deliveries id event at_ targets (deliveries d)) d)
  | None => inl (0, d)
  end.

(** [CreateWebhookDelivery]: a repeated one is made pending again. *)
Definition reopened (w : WebhookDelivery) : WebhookDelivery :=
  {| wd_ID := wd_ID w; wd_EventID := wd_EventID w; wd_EndpointID := wd_EndpointID w; wd_Status := StatusPending;
     wd_AttemptCount := wd_AttemptCount w; wd_NextAttemptAt := wd_NextAttemptAt w;
     wd_LastAttemptAt := wd_LastAttemptAt w; wd_ResponseStatus := wd_ResponseStatus w;
     wd_ResponseBody := wd_ResponseBody w; wd_LastError := wd_LastError w; wd_DeliveredAt := wd_DeliveredAt w;
     wd_Lock := wd_Lock w; wd_CreatedAt := wd_CreatedAt w; wd_UpdatedAt := wd_UpdatedAt w |}.
Definition CreateWebhookDelivery (id event endpoint : UUID) (at_ : Z) (d : DB) : result (WebhookDelivery * DB) :=
  match events d !! event, endpoints d !! endpoint with
  | Some ev, Some e =>
      if bool_decide (ep_OrganizationID e = we_OrganizationID ev) && ep_Enabled e
         && bool_decide (ep_DisabledAt e = None) && org_active (we_OrganizationID ev) d
      then match find (fun w => bool_decide (wd_EventID w = event) && bool_decide (wd_EndpointID w = endpoint))
                   (snd <$> map_to_list (deliveries d)) with
           | Some w => put_delivery (reopened w) d
           | None => put_delivery (new_delivery id event endpoint at_) d
           end
      else no_rows
  | _, _ => no_rows
  end.

(** The delivery with its event and endpoint. *)
Definition delivery_joined (d : DB) (w : WebhookDelivery) : option (WebhookEvent * WebhookEndpoint) :=
  match events d !! wd_EventID w, endpoints d !! wd_EndpointID w with
  | Some ev, Some e => Some (ev, e)
  | _, _ => None
  end.

(** The [JOIN]s that make a delivery one of an active organization. *)
Definition visible (org : UUID) (d : DB) (w : WebhookDelivery) : bool :=
  match events d !! wd_EventID w with
  | Some ev => bool_decide (we_OrganizationID ev = org) && org_active org d
  | None => false
  end.
Definition GetWebhookDelivery (org id : UUID) (d : DB) : result WebhookDelivery :=
  match deliveries d !! id with
  | Some w => if visible org d w then inl w else no_rows
  | None => no_rows
  end.

Definition delivery_created_ge (a b : WebhookDelivery) : Prop := wd_CreatedAt b <= wd_CreatedAt a.
#[local] Instance delivery_created_ge_dec : RelDecision delivery_created_ge.
Proof. intros a b. unfold delivery_created_ge. apply _. Defined.
Definition ListWebhookDeliveriesForEndpoint (org endpoint : UUID) (limit offset : Z) (d : DB)
    : list WebhookDelivery :=
  take (Z.to_nat limit) (drop (Z.to_nat offset) (merge_sort delivery_created_ge
    (filter (fun w => wd_EndpointID w = endpoint /\ visible org d w = true)
       (snd <$> map_to_list (deliveries d))))).

(** [SET status, next_attempt_at, response_status, response_body, last_error, delivered_at,
    locked_at = NULL, locked_by = NULL, updated_at = now()]. *)
Definition settle (s : Status) (next_attempt : Z) (status : option Z) (body err : option string)
    (delivered : option Z) (w : WebhookDelivery) : WebhookDelivery :=
  {| wd_ID := wd_ID w; wd_EventID := wd_EventID w; wd_EndpointID := wd_EndpointID w; wd_Status := s;
     wd_AttemptCount := wd_AttemptCount w; wd_NextAttemptAt := next_attempt;
     wd_LastAttemptAt := wd_LastAttemptAt w; wd_ResponseStatus := status; wd_ResponseBody := body;
     wd_LastError := err; wd_DeliveredAt := delivered; wd_Lock := None;
     wd_CreatedAt := wd_CreatedAt w; wd_UpdatedAt := now |}.

Definition cancel_row (w : WebhookDelivery) : WebhookDelivery :=
  settle StatusCanceled (wd_NextAttemptAt w) (wd_ResponseStatus w) (wd_ResponseBody w)
    (Some "Webhook endpoint disabled before delivery"%string) (wd_DeliveredAt w) w.
Definition CancelWebhookDeliveriesForEndpoint (org endpoint : UUID) (d : DB) : result (unit * DB) :=
  match endpoints d !! endpoint with
  | Some e =>
      if bool_decide (ep_OrganizationID e = org) then
        inl (tt, set_deliveries
          ((fun w => if bool_decide (wd_EndpointID w = endpoint) && is_open (wd_Status w)
                     then cancel_row w else w) <$> deliveries d) d)
      else inl (tt, d)
  | None => inl (tt, d)
  end.

Definition RetryWebhookDelivery (org id : UUID) (d : DB) : result (WebhookDelivery * DB) :=
  match deliveries d !! id with
  | Some w =>
      match delivery_joined d w with
      | Some (ev, e) =>
          if bool_decide (we_OrganizationID ev = org) && org_active org d && ep_Enabled e
             && bool_decide (ep_DisabledAt e = None) && bool_decide (wd_Status w = StatusFailed)
          then put_delivery (settle StatusPending now None None None None w) d
          else no_rows
      | None => no_rows
      end
  | None => no_rows
  end.

(** [ClaimWebhookDeliveries]: the candidates, and what [RETURNING] yields. *)
Record ClaimRow := {
  cr_ID : UUID;
  cr_EventID : UUID;
  cr_EndpointID : UUID;
  cr_AttemptCount : Z;
  cr_OrganizationID : UUID;
  cr_EventType : string;
  cr_Payload : string;
  cr_OccurredAt : Z;
  cr_Url : string;
  cr_SigningSecret : string;
}.
Definition claimable (stale_before : Z) (d : DB) (w : WebhookDelivery) : bool :=
  is_open (wd_Status w) && (wd_NextAttemptAt w <=? now)
  && match delivery_joined d w with
     | Some (ev, e) => ep_Enabled e && bool_decide (ep_DisabledAt e = None) && org_active (we_OrganizationID ev) d
     | None => false
     end
  && match wd_Lock w with Some (at_, _) => at_ <? stale_before | None => true end.
Definition claim_le (a b : WebhookDelivery) : Prop :=
  wd_NextAttemptAt a < wd_NextAttemptAt b \/
  (wd_NextAttemptAt a = wd_NextAttemptAt b /\ wd_CreatedAt a <= wd_CreatedAt b).
#[local] Instance claim_le_dec : RelDecision claim_le.
Proof. intros a b. unfold claim_le. apply _. Defined.
Definition claim_ids (stale_before limit : Z) (d : DB) : list UUID :=
  take (Z.to_nat limit) (wd_ID <$> merge_sort claim_le
    (filter (fun w => claimable stale_before d w = true) (snd <$> map_to_list (deliveries d)))).
Definition lock_delivery (worker : string) (w : WebhookDelivery) : WebhookDelivery :=
  {| wd_ID := wd_ID w; wd_EventID := wd_EventID w; wd_EndpointID := wd_EndpointID w;
     wd_Status := wd_Status w; wd_AttemptCount := wd_AttemptCount w + 1;
     wd_NextAttemptAt := wd_NextAttemptAt w; wd_LastAttemptAt := Some now;
     wd_ResponseStatus := wd_ResponseStatus w; wd_ResponseBody := wd_ResponseBody w;
     wd_LastError := wd_LastError w; wd_DeliveredAt := wd_DeliveredAt w; wd_Lock := Some (now, worker);
     wd_CreatedAt := wd_CreatedAt w; wd_UpdatedAt := now |}.
Definition claim_row (d : DB) (w : WebhookDelivery) : option ClaimRow :=
  match delivery_joined d w with
  | Some (ev, e) => Some {|
      cr_ID := wd_ID w; cr_EventID := wd_EventID w; cr_EndpointID := wd_EndpointID w;
      cr_AttemptCount := wd_AttemptCount w; cr_OrganizationID := we_OrganizationID ev;
      cr_EventType := we_EventType ev; cr_Payload := we_Payload ev; cr_OccurredAt := we_OccurredAt ev;
      cr_Url := ep_Url e; cr_SigningSecret := ep_SigningSecret e |}
  | None => None
  end.
Definition lock_ids (worker : string) (ids : list UUID) (m : gmap UUID WebhookDelivery)
    : gmap UUID WebhookDelivery :=
  (fun w => if bool_decide (wd_ID w ∈ ids) then lock_delivery worker w else w) <$> m.
Definition ClaimWebhookDeliveries (worker : string) (stale_before limit : Z) (d : DB)
    : result (list ClaimRow * DB) :=
  let ids := claim_ids stale_before limit d in
  let m := lock_ids worker ids (deliveries d) in
  if forallb (fun id => match m !! id with Some w => delivery_row_ok w | None => true end) ids
  then inl (omap (fun id => m !! id ≫= claim_row d) ids, set_deliveries m d)
  else inr (violates "webhook_deliveries").

(** The delivery with this identifier that this worker has locked. *)
Definition locked_by (id : UUID) (worker : string) (d : DB) : option WebhookDelivery :=
  match deliveries d !! id with
  | Some w =>
      match wd_Lock w with
      | Some (_, by_) => if decide (by_ = worker) then Some w else None
      | None => None
      end
  | None => None
  end.

(** The endpoint is updated by the same statement. *)
Definition MarkWebhookDeliverySucceeded (id : UUID) (worker : string) (status : option Z)
    (body : option string) (d : DB) : result (WebhookDelivery * DB) :=
  match locked_by id worker d with
  | Some w =>
      let? ' (w', d') := put_delivery (settle StatusSucceeded (wd_NextAttemptAt w) status body None (Some now) w) d in
      match endpoints d !! wd_EndpointID w with
      | Some e =>
          if ep_Enabled e && (0 <? ep_ConsecutiveFailures e)
          then let? ' (_, d2) := put_endpoint (with_health (ep_Enabled e) (ep_DisabledAt e) None 0 None e) d' in
               inl (w', d2)
          else inl (w', d')
      | None => inl (w', d')
      end
  | None => no_rows
  end.

Definition ScheduleWebhookDeliveryRetry (id : UUID) (worker : string) (next_attempt : Z)
    (status : option Z) (body : option string) (err : string) (d : DB) : result (WebhookDelivery * DB) :=
  match locked_by id worker d with
  | Some w => put_delivery (settle StatusRetrying next_attempt status body (Some err) (wd_DeliveredAt w) w) d
  | None => no_rows
  end.

Definition count_failure (auto_disable_after : Z) (e : WebhookEndpoint) : WebhookEndpoint :=
  let failures := ep_ConsecutiveFailures e + 1 in
  let over := auto_disable_after <=? failures in
  with_health (if over then false else ep_Enabled e)
    (if over then Some (default now (ep_DisabledAt e)) else ep_DisabledAt e)
    (if ep_Enabled e && over then Some "failure_threshold"%string else ep_DisabledReason e)
    failures (Some now) e.
Definition MarkWebhookDeliveryFailed (id : UUID) (worker : string) (status : option Z)
    (body : option string) (err : string) (auto_disable_after : Z) (d : DB) : result (WebhookDelivery * DB) :=
  match locked_by id worker d with
  | Some w =>
      let? ' (w', d') := put_delivery
        (settle StatusFailed (wd_NextAttemptAt w) status body (Some err) (wd_DeliveredAt w) w) d in
      match endpoints d !! wd_EndpointID w with
      | Some e => let? ' (_, d2) := put_endpoint (count_failure auto_disable_after e) d' in inl (w', d2)
      | None => inl (w', d')
      end
  | None => no_rows
  end.
End Queries.

(** ** The state of a process and the repository (repository.go)

    The database, the clock, the supply of identifiers and the failures to come. *)
Record World := { w_db : DB; w_now : Z; w_next : UUID; w_faults : list fault }.
Definition with_db (d : DB) (w : World) : World :=
  {| w_db := d; w_now := w_now w; w_next := w_next w; w_faults := w_faults w |}.
Definition skip_ids (n : Z) (w : World) : World :=
  {| w_db := w_db w; w_now := w_now w; w_next := w_next w + n; w_faults := w_faults w |}.
#[export] Instance World_faults : HasFaults World := {|
  get_faults := w_faults;
  set_faults fs w := {| w_db := w_db w; w_now := w_now w; w_next := w_next w; w_faults := fs |} |}.

(** A statement that reads, and one that writes. *)
Definition query {A} (f : DB -> result A) : M World A := ext (fun w => (f (w_db w), w)).
Definition exec {A} (f : Z -> DB -> result (A * DB)) : M World A :=
  ext (fun w => match f (w_now w) (w_db w) with
                | inl (a, d) => (inl a, with_db d w)
                | inr e => (inr e, w)
                end).
(** The identifiers the database generates are new. *)
Definition fresh (n : Z) : M World UUID := fun w => (inl (w_next w), skip_ids n w).

Section Service.
Context {L : WebhookLib} {U : UuidLib}.

Record CreateRequest := { c_URL : string; c_SubscribedEvents : list string; c_Enabled : option bool }.
Record UpdateRequest := {
  u_URL : option string; u_SubscribedEvents : option (list string); u_Enabled : option bool }.
Record InboundEvent := {
  ie_ID : UUID;
  ie_OrganizationID : UUID;
  ie_EventType : string;
  ie_ObjectType : string;
  ie_ObjectID : option UUID;
  ie_Payload : string;
  ie_OccurredAt : Z;
}.

Definition Repo_Create (org : UUID) (req : CreateRequest) (secret : string) : M World WebhookEndpoint :=
  let! id := fresh 1 in
  exec (fun now => CreateWebhookEndpoint now id org (c_URL req) secret (c_SubscribedEvents req) (c_Enabled req)).
Definition Repo_List (org : UUID) : M World (list WebhookEndpoint) :=
  query (fun d => inl (ListWebhookEndpointsByOrganizationID org d)).
Definition Repo_Get (org id : UUID) : M World WebhookEndpoint := query (GetWebhookEndpointByID org id).
(** [optionalSubscribedEvents] gives a nil slice, SQL's [NULL], for no list. *)
Definition Repo_Update (org id : UUID) (req : UpdateRequest) : M World WebhookEndpoint :=
  exec (fun now => UpdateWebhookEndpoint now org id (u_URL req) (u_SubscribedEvents req) (u_Enabled req)).
Definition Disable (org id : UUID) : M World unit := exec (fun now => DisableWebhookEndpoint now org id).
Definition Repo_RotateSecret (org id : UUID) (secret : string) : M World WebhookEndpoint :=
  exec (fun now => RotateWebhookEndpointSecret now org id secret).
Definition Repo_ListDeliveries (org id : UUID) (limit offset : Z) : M World (list WebhookDelivery) :=
  query (fun d => inl (ListWebhookDeliveriesForEndpoint org id limit offset d)).
Definition Repo_GetDelivery (org id : UUID) : M World WebhookDelivery := query (GetWebhookDelivery org id).
Definition Repo_Retry (org id : UUID) : M World WebhookDelivery :=
  exec (fun now => RetryWebhookDelivery now org id).
Definition Cancel (org id : UUID) : M World unit :=
  exec (fun now => CancelWebhookDeliveriesForEndpoint now org id).
(** Nothing in the server calls it. *)
Definition CreateTestDelivery (id event : UUID) (at_ : Z) : M World WebhookDelivery :=
  let! new := fresh 1 in exec (fun now => CreateWebhookDelivery now new event id at_).
Definition event_params (event : InboundEvent) (now : Z) : WebhookEvent :=
  {| we_ID := ie_ID event; we_OrganizationID := ie_OrganizationID event; we_EventType := ie_EventType event;
     we_ObjectType := ie_ObjectType event; we_ObjectID := ie_ObjectID event; we_Payload := ie_Payload event;
     we_OccurredAt := ie_OccurredAt event; we_CreatedAt := now |}.

(** ** Validation (validation.go) *)
(** [time.Time{}], the first of January of year 1. *)
Definition zero_time : Z := - 62135596800 * Second.

Definition validOrg (v : UUID) : result unit :=
  guard_err (bool_decide (v = uuid_Nil)) (NewBadRequest "organization_id is required").
Definition validIDs (org id : UUID) : result unit :=
  let? _ := validOrg org in
  guard_err (bool_decide (id = uuid_Nil)) (NewBadRequest "webhook id is required").

(** The payload has to be valid JSON whose first byte after blanks is an opening brace. *)
Definition payload_is_object (payload : string) : bool :=
  Json.Valid (bytes payload)
  && match bytes_TrimSpace (bytes payload) with
     | [] => false
     | c :: _ => bool_decide (c = "{"%char)
     end.
Definition validateInboundEvent (event : InboundEvent) : result unit :=
  let? _ := guard_err (bool_decide (ie_ID event = uuid_Nil)) (Errorf "webhook event id is required" []) in
  let? _ := guard_err (bool_decide (ie_OrganizationID event = uuid_Nil))
              (Errorf "webhook event organization id is required" []) in
  let? _ := guard_err (bool_decide (TrimSpace (ie_EventType event) = ""))
              (Errorf "webhook event type is required" []) in
  let? _ := guard_err (bool_decide (TrimSpace (ie_ObjectType event) = ""))
              (Errorf "webhook event object type is required" []) in
  let? _ := guard_err (bool_decide (ie_OccurredAt event = zero_time))
              (Errorf "webhook event occurred_at is required" []) in
  guard_err (negb (payload_is_object (ie_Payload event)))
    (Errorf "webhook event payload must be a JSON object" []).

Definition normalizeURL (v : string) : result string :=
  let v := TrimSpace v in
  match ParseRequestURI v with
  | Some u =>
      if negb (bool_decide (Scheme u = "https")) || bool_decide (Host u = "") || has_User u
      then inr (NewBadRequest "url must be an https URL") else inl v
  | None => inr (NewBadRequest "url must be an https URL")
  end.

(** [" \t\r\n"]. *)
Definition blanks : list ascii := [" "%char; ascii_of_N 9; CR; LF].
Fixpoint normalize_events (v : list string) (seen : gset string) : result (list string) :=
  match v with
  | [] => inl []
  | event :: rest =>
      let event := TrimSpace event in
      if bool_decide (event = "") || ContainsAny event blanks
      then inr (NewBadRequest "subscribed_events must contain non-empty event names") else
      if bool_decide (event ∈ seen) then normalize_events rest seen else
      let? out := normalize_events rest ({[event]} ∪ seen) in inl (event :: out)
  end.
Definition normalizeEvents (v : list string) : result (list string) :=
  if bool_decide (v = []) then inr (NewBadRequest "subscribed_events is required")
  else normalize_events v ∅.

Definition normalizeCreate (r : CreateRequest) : result CreateRequest :=
  let? url := normalizeURL (c_URL r) in
  let? evs := normalizeEvents (c_SubscribedEvents r) in
  inl {| c_URL := url; c_SubscribedEvents := evs; c_Enabled := c_Enabled r |}.
Definition normalizeUpdate (r : UpdateRequest) : result UpdateRequest :=
  let? url := match u_URL r with Some v => let? u := normalizeURL v in inl (Some u) | None => inl None end in
  let? evs := match u_SubscribedEvents r with
              | Some v => let? l := normalizeEvents v in inl (Some l) | None => inl None end in
  inl {| u_URL := url; u_SubscribedEvents := evs; u_Enabled := u_Enabled r |}.

(** ** Service (service.go) *)

Definition readErr {A} (msg : string) (m : M World A) : M World A :=
  wrap (fun err => if errors_Is err ErrNoRows then NewNotFound msg else NewInternal msg err) m.

(** [newSigningSecret]: 32 random bytes. *)
Variable random_secret : UUID -> string.
Definition newSigningSecret : M World string := let! n := fresh 1 in ret (random_secret n).

Definition Create (org : UUID) (req : CreateRequest) : M World (WebhookEndpoint * string) :=
  lift (validOrg org);;
  let! req := lift (normalizeCreate req) in
  let! secret := newSigningSecret in
  let! v := readErr "create webhook" (Repo_Create org req secret) in
  ret (v, secret).
Definition List_ (org : UUID) : M World (list WebhookEndpoint) := lift (validOrg org);; Repo_List org.
Definition Get (org id : UUID) : M World WebhookEndpoint :=
  lift (validIDs org id);; readErr "webhook not found" (Repo_Get org id).
Definition Update (org id : UUID) (req : UpdateRequest) : M World WebhookEndpoint :=
  lift (validIDs org id);;
  let! req := lift (normalizeUpdate req) in
  readErr "webhook not found" (Repo_Update org id req).
Definition Delete (org id : UUID) : M World unit :=
  lift (validIDs org id);;
  Get org id;;
  readErr "disable webhook" (Disable org id);;
  readErr "cancel webhook deliveries" (Cancel org id).
Definition RotateSecret (org id : UUID) : M World (WebhookEndpoint * string) :=
  lift (validIDs org id);;
  let! secret := newSigningSecret in
  let! v := readErr "webhook not found" (Repo_RotateSecret org id secret) in
  ret (v, secret).
Definition ListDeliveries (org id : UUID) (limit offset : Z) : M World (list WebhookDelivery) :=
  lift (validIDs org id);;
  throw_if ((limit <? 1) || (100 <? limit)) (NewBadRequest "limit must be between 1 and 100");;
  throw_if (offset <? 0) (NewBadRequest "offset must not be negative");;
  Repo_ListDeliveries org id limit offset.
Definition GetDelivery (org endpoint id : UUID) : M World WebhookDelivery :=
  lift (validIDs org endpoint);;
  let! v := readErr "webhook delivery not found" (Repo_GetDelivery org id) in
  throw_if (negb (bool_decide (wd_EndpointID v = endpoint))) (NewNotFound "webhook delivery not found");;
  ret v.
Definition Retry (org endpoint id : UUID) : M World WebhookDelivery :=
  GetDelivery org endpoint id;;
  readErr "webhook delivery is not retryable" (Repo_Retry org id).

(** [Ingest]: the statements of the transaction work on its copy, which the
    commit installs. *)
Definition create_event (event : InboundEvent) (d : DB) : M World DB :=
  let! r := attempt (ext (fun w => (CreateWebhookEvent (w_now w) (event_params event (w_now w)) d, w))) in
  match r with
  | inl (_, d1) => ret d1
  | inr err =>
      throw_if (negb (errors_Is err ErrNoRows)) (Wrapf "create webhook event: %w" [] err);;
      let! existing := wrap (Wrapf "get existing webhook event: %w" [])
        (ext (fun w => (GetWebhookEvent (ie_OrganizationID event) (ie_ID event) d, w))) in
      throw_if (negb (bool_decide (we_EventType existing = ie_EventType event))
                || negb (bool_decide (we_ObjectType existing = ie_ObjectType event)))
        (Errorf "webhook event %s conflicts with existing event metadata" [uuid_String (ie_ID event)]);;
      ret d
  end.
Definition Ingest (has_db : bool) (event : InboundEvent) : M World unit :=
  lift (validateInboundEvent event);;
  throw_if (negb has_db) (Errorf "webhook database is required for event ingestion" []);;
  wrap (Wrapf "begin webhook event transaction: %w" []) (ext (ret tt));;
  let! d0 := gets w_db in
  let! d1 := create_event event d0 in
  let! id := gets w_next in
  let! ' (n, d2) := wrap (Wrapf "create webhook deliveries: %w" [])
    (ext (fun w => (CreateWebhookDeliveriesForEvent (w_now w) id (ie_ID event) (w_now w) d1, w))) in
  fresh n;;
  wrap (Wrapf "commit webhook event transaction: %w" []) (ext (modify (with_db d2))).

(** ** NATS consumer (consumer.go) *)
Definition EventsSubjectPrefix : string := "leamout.event.".
Record Msg := { m_Subject : string; m_Headers : gmap string string; m_Data : string }.
Definition header (m : Msg) (key : string) : string := TrimSpace (default "" (m_Headers m !! key)).
Definition parse_id (message : string) (text : string) : result UUID :=
  match uuid_Parse text with Some id => inl id | None => inr (Errorf message [text]) end.

(** [occurred_at_of]: [json.Unmarshal] of the field [occurred_at] as a time. *)
Variable occurred_at_of : string -> result Z.
Definition inboundEventFromMessage (m : Msg) : result InboundEvent :=
  let? id := parse_id "invalid webhook event id: %w" (header m "X-Leamout-Event-ID") in
  let? org := parse_id "invalid webhook organization id: %w" (header m "organization_id") in
  let event_type := header m "event_type" in
  let event_type := if bool_decide (event_type = "") then TrimPrefix (m_Subject m) EventsSubjectPrefix
                    else event_type in
  let object_type := header m "X-Leamout-Aggregate-Type" in
  let? _ := guard_err (bool_decide (event_type = "") || bool_decide (object_type = ""))
              (Errorf "webhook event metadata is incomplete" []) in
  let value := header m "X-Leamout-Aggregate-ID" in
  let? object_id := if bool_decide (value = "") then inl None
                    else let? parsed := parse_id "invalid webhook object id: %w" value in inl (Some parsed) in
  match occurred_at_of (m_Data m) with
  | inr err => inr (Wrapf "decode webhook event payload: %w" [] err)
  | inl at_ =>
      inl {| ie_ID := id; ie_OrganizationID := org; ie_EventType := event_type; ie_ObjectType := object_type;
             ie_ObjectID := object_id; ie_Payload := m_Data m; ie_OccurredAt := at_ |}
  end.

Inductive AckAction := Ack | Nak | Term.
(** The handler [Consumer.Run] gives to [Consume]. *)
Definition on_message (m : Msg) : M World AckAction :=
  match inboundEventFromMessage m with
  | inr _ => ret Term
  | inl event =>
      let! r := attempt (Ingest true event) in
      ret (match r with inl _ => Ack | inr _ => Nak end)
  end.
End Service.
End Webhooks.
