(* ===== verification/WebhookDelivery.v ===== *)
(** * Webhook delivery

    [platform/webhooks/delivery.go], [signing.go] and [jobs.go]: the signed
    request, the sender and the delivery worker, alone ([deliverBatch]) and as
    any number of worker processes interleaved with the API servers and the
    event consumers on one database ([step]). *)

From S2P Require Import Prelude Outbox Webhooks.
Local Open Scope Z_scope.

Module WebhookDelivery.
Import Webhooks.

Section Sender.
Context {L : WebhookLib} {U : UuidLib}.

(** ** Requests (signing.go, delivery.go) *)
Definition signatureHeader : string := "X-Leamout-Signature".
(** [timestamp.Unix()] of a time in nanoseconds. *)
Definition Unix (t : Z) : Z := t / Second.
Definition signed_payload (body : string) (timestamp : Z) : string :=
  show_int (Unix timestamp) +:+ "." +:+ body.
Definition sign (secret body : string) (timestamp : Z) : string :=
  "v1=" +:+ hmac_hex secret (signed_payload body timestamp).

Record Request := { rq_URL : string; rq_Headers : gmap string string; rq_Body : string }.
(** What the client reports of an answer: its status, the bytes of its body that
    arrived and the error reading them ended with, if any. *)
Record Response := { rs_Status : Z; rs_Body : list ascii; rs_ReadErr : option error }.
Record DeliveryAttempt := { StatusCode : option Z; Body : option string; Err : option error }.
Definition maxResponseBody : nat := 4096.

Definition delivery_request (row : ClaimRow) (body : string) (now : Z) : Request :=
  {| rq_URL := cr_Url row;
     rq_Headers := {["Content-Type" := "application/json"; "User-Agent" := "Leamout-Webhooks/1.0";
       "X-Leamout-Event" := cr_EventType row; "X-Leamout-Event-ID" := uuid_String (cr_EventID row);
       "X-Leamout-Timestamp" := show_int (Unix now);
       signatureHeader := sign (cr_SigningSecret row) body now]};
     rq_Body := body |}.

(** [Client.Do]: the exchange takes time, during which the state of the world
    moves on. *)
Context (Do : Request -> World -> result Response * World).

Definition failed_attempt (e : error) : DeliveryAttempt :=
  {| StatusCode := None; Body := None; Err := Some e |}.
(** [HTTPSender.Send]. *)
Definition Send (row : ClaimRow) : M World DeliveryAttempt :=
  match marshal_envelope (cr_EventID row) (cr_EventType row) (cr_OccurredAt row) (cr_Payload row) with
  | inr e => ret (failed_attempt (Wrapf "marshal webhook delivery: %w" [] e))
  | inl body =>
  match new_request_error (cr_Url row) with
  | Some e => ret (failed_attempt (Wrapf "create webhook request: %w" [] e))
  | None =>
      let! now := gets w_now in
      let! r := attempt (Do (delivery_request row body now)) in
      ret (match r with
           | inr e => failed_attempt e
           | inl resp =>
               {| StatusCode := Some (rs_Status resp);
                  Body := Some (of_bytes (take maxResponseBody (rs_Body resp)));
                  Err := match rs_ReadErr resp with
                         | Some e => Some (Wrapf "read webhook response: %w" [] e) | None => None end |}
           end)
  end
  end.

(** [sendTest] and [Service.Test]. *)
Context (marshal_test : Z -> result string).
Definition sendTest (endpoint : WebhookEndpoint) : M World Z :=
  let! now := gets w_now in
  let! body := lift (marshal_test now) in
  match new_request_error (ep_Url endpoint) with
  | Some e => throw e
  | None =>
      let! resp := Do {| rq_URL := ep_Url endpoint;
        rq_Headers := {["Content-Type" := "application/json"; "User-Agent" := "Leamout-Webhooks/1.0";
          "X-Leamout-Event" := "webhook.test"; "X-Leamout-Timestamp" := show_int (Unix now);
          signatureHeader := sign (ep_SigningSecret endpoint) body now]};
        rq_Body := body |} in
      ret (rs_Status resp)
  end.
Definition Test_ (org id : UUID) : M World Z :=
  let! v := Get org id in
  throw_if (negb (ep_Enabled v)) (Routing.AppErr.NewBadRequest "webhook is disabled");;
  wrap (Routing.AppErr.NewInternal "send webhook test") (sendTest v).
End Sender.

(** ** The worker (jobs.go) *)
Record DeliveryJobConfig := {
  WorkerID : string;
  BatchSize : Z;
  PollInterval : Z;
  LockTimeout : Z;
  RetryBaseDelay : Z;
  RetryMaxDelay : Z;
  MaxAttempts : Z;
  AutoDisableAfter : Z;
}.
Definition DefaultDeliveryJobConfig (workerID : string) : DeliveryJobConfig :=
  {| WorkerID := workerID; BatchSize := 50; PollInterval := 500 * Millisecond; LockTimeout := 30 * Second;
     RetryBaseDelay := 2 * Second; RetryMaxDelay := 5 * Minute; MaxAttempts := 8; AutoDisableAfter := 5 |}.
Definition or_default (v d : Z) : Z := if v <=? 0 then d else v.
Definition NewDeliveryJob (c : DeliveryJobConfig) : result DeliveryJobConfig :=
  if bool_decide (WorkerID c = "") then inr (Errorf "webhook delivery worker id is required" []) else
  let base := or_default (RetryBaseDelay c) (2 * Second) in
  inl {| WorkerID := WorkerID c; BatchSize := or_default (BatchSize c) 50;
         PollInterval := or_default (PollInterval c) (500 * Millisecond);
         LockTimeout := or_default (LockTimeout c) (30 * Second); RetryBaseDelay := base;
         RetryMaxDelay := if RetryMaxDelay c <? base then 5 * Minute else RetryMaxDelay c;
         MaxAttempts := or_default (MaxAttempts c) 8;
         AutoDisableAfter := or_default (AutoDisableAfter c) 5 |}.

Definition deliverySucceeded (a : DeliveryAttempt) : bool :=
  match Err a, StatusCode a with
  | None, Some s => (200 <=? s) && (s <? 300)
  | _, _ => false
  end.
Definition retryableDelivery (a : DeliveryAttempt) : bool :=
  match Err a, StatusCode a with
  | Some _, _ | None, None => true
  | None, Some s => (s =? 408) || (s =? 425) || (s =? 429) || (500 <=? s)
  end.
(** The same loop as the outbox publisher's. *)
Definition retryDelay (c : DeliveryJobConfig) (attempt : Z) : Z :=
  Retry.retryDelay (RetryBaseDelay c) (RetryMaxDelay c) attempt.

Section Job.
Context {L : WebhookLib} {U : UuidLib} (c : DeliveryJobConfig).

Definition attemptError (a : DeliveryAttempt) : string :=
  match Err a, StatusCode a with
  | Some e, _ => error_text e
  | None, Some s => "webhook endpoint returned HTTP " +:+ show_int s
  | None, None => "webhook delivery failed"
  end.

(** What the worker records of an attempt. *)
Inductive verdict := Accepted | Again | GivenUp.
Definition verdict_of (row : ClaimRow) (a : DeliveryAttempt) : verdict :=
  if deliverySucceeded a then Accepted
  else if retryableDelivery a && (cr_AttemptCount row <? MaxAttempts c) then Again else GivenUp.
(** The statement of the repository for it; [at_] is the worker's clock. *)
Definition record (at_ : Z) (row : ClaimRow) (a : DeliveryAttempt) (now : Z)
    : DB -> result (WebhookDelivery * DB) :=
  match verdict_of row a with
  | Accepted => MarkWebhookDeliverySucceeded now (cr_ID row) (WorkerID c) (StatusCode a) (Body a)
  | Again => ScheduleWebhookDeliveryRetry now (cr_ID row) (WorkerID c)
               (at_ + retryDelay c (cr_AttemptCount row)) (StatusCode a) (Body a) (attemptError a)
  | GivenUp => MarkWebhookDeliveryFailed now (cr_ID row) (WorkerID c) (StatusCode a) (Body a)
                 (attemptError a) (AutoDisableAfter c)
  end.
Definition record_error (row : ClaimRow) (a : DeliveryAttempt) : string :=
  match verdict_of row a with
  | Accepted => "mark webhook delivery %s succeeded: %w"
  | Again => "schedule webhook delivery %s retry: %w"
  | GivenUp => "mark webhook delivery %s failed: %w"
  end.

(** [ctx.Err() != nil], and the sender. *)
Context (cancelled : World -> bool) (sender : ClaimRow -> M World DeliveryAttempt).

(** The loop of [deliverBatch]. *)
Fixpoint deliver (rows : list ClaimRow) : M World unit :=
  match rows with
  | [] => ret tt
  | row :: rest =>
      let! stop := gets cancelled in
      if stop : bool then ret tt else
      let! a := sender row in
      let! at_ := gets w_now in
      wrap (Wrapf (record_error row a) [uuid_String (cr_ID row)]) (exec (record at_ row a));;
      deliver rest
  end.
Definition ClaimDeliveries (stale_before : Z) : M World (list ClaimRow) :=
  exec (fun now => ClaimWebhookDeliveries now (WorkerID c) stale_before (BatchSize c)).
Definition deliverBatch : M World unit :=
  let! at_ := gets w_now in
  let! rows := wrap (Wrapf "claim webhook deliveries: %w" []) (ClaimDeliveries (at_ - LockTimeout c)) in
  deliver rows.
End Job.

(** ** Processes interleaved

    The statements of the API servers and the consumers, one transaction each. *)
Section System.
Context {L : WebhookLib} {U : UuidLib}.

Inductive client (now next : UUID) (d : DB) : DB -> UUID -> Prop :=
| cl_create org url secret evs enabled e d' :
    CreateWebhookEndpoint now next org url secret evs enabled d = inl (e, d') -> client now next d d' (next + 1)
| cl_update org id url evs enabled e d' :
    UpdateWebhookEndpoint now org id url evs enabled d = inl (e, d') -> client now next d d' next
| cl_disable org id d' : DisableWebhookEndpoint now org id d = inl (tt, d') -> client now next d d' next
| cl_rotate org id secret e d' :
    RotateWebhookEndpointSecret now org id secret d = inl (e, d') -> client now next d d' next
| cl_retry org id w d' : RetryWebhookDelivery now org id d = inl (w, d') -> client now next d d' next
| cl_cancel org id d' : CancelWebhookDeliveriesForEndpoint now org id d = inl (tt, d') -> client now next d d' next
| cl_ingest ev id at_ d1 n d2 :
    (d1 = d \/ exists e, CreateWebhookEvent now ev d = inl (e, d1)) ->
    CreateWebhookDeliveriesForEvent now next id at_ d1 = inl (n, d2) -> client now next d d2 (next + n)
| cl_organization org active :
    client now next d {| organizations := <[org := active]> (organizations d); endpoints := endpoints d;
                         events := events d; deliveries := deliveries d |} next.

(** A process: idle, with the rows it claimed at a time, the first of them
    answered, or stopped with an error (its goroutine ends the worker). *)
Inductive phase :=
| Idle
| Holding (since : Z) (rows : list ClaimRow)
| Answered (since : Z) (row : ClaimRow) (a : DeliveryAttempt) (rest : list ClaimRow)
| Stopped.

Record System := {
  s_now : Z;
  s_next : UUID;
  s_db : DB;
  s_tries : list (ClaimRow * DeliveryAttempt);
  s_procs : gmap nat phase;
}.
Definition phase_of (s : System) (p : nat) : phase := default Idle (s_procs s !! p).
Definition set_phase (p : nat) (ph : phase) (d : DB) (s : System) : System :=
  {| s_now := s_now s; s_next := s_next s; s_db := d; s_tries := s_tries s;
     s_procs := <[p := ph]> (s_procs s) |}.

(** The configuration of each process. *)
Context (cfg : nat -> DeliveryJobConfig).

Inductive step : System -> System -> Prop :=
| step_tick s t : 0 <= t ->
    step s {| s_now := s_now s + t; s_next := s_next s; s_db := s_db s; s_tries := s_tries s;
              s_procs := s_procs s |}
| step_client s d' n' :
    client (s_now s) (s_next s) (s_db s) d' n' ->
    step s {| s_now := s_now s; s_next := n'; s_db := d'; s_tries := s_tries s; s_procs := s_procs s |}
| step_claim s p at_ rows d' :
    phase_of s p = Idle -> at_ <= s_now s ->
    ClaimWebhookDeliveries (s_now s) (WorkerID (cfg p)) (at_ - LockTimeout (cfg p)) (BatchSize (cfg p)) (s_db s)
      = inl (rows, d') ->
    step s (set_phase p (Holding (s_now s) rows) d' s)
| step_send s p since row rest a :
    phase_of s p = Holding since (row :: rest) ->
    step s {| s_now := s_now s; s_next := s_next s; s_db := s_db s; s_tries := s_tries s ++ [(row, a)];
              s_procs := <[p := Answered since row a rest]> (s_procs s) |}
| step_record s p since row a rest at_ w d' ph :
    phase_of s p = Answered since row a rest ->
    record (cfg p) at_ row a (s_now s) (s_db s) = inl (w, d') ->
    ph = Holding since rest \/ ph = Stopped ->
    step s (set_phase p ph d' s)
| step_record_failed s p since row a rest :
    phase_of s p = Answered since row a rest -> step s (set_phase p Stopped (s_db s) s)
| step_idle s p : step s (set_phase p Idle (s_db s) s).
End System.
End WebhookDelivery.
