(* ===== verification/WebhookSafety.v ===== *)
(** * What webhook delivery guarantees

    Invariants of the interleaved system of [WebhookDelivery.v] (the tenant of a
    request, what a succeeded delivery means, locks that do not overlap) and the
    outcome of one pass of the worker and of one ingestion. *)

From stdpp Require Import sorting.
From S2P Require Import Prelude Outbox Webhooks WebhookDelivery.
Import Webhooks WebhookDelivery.
Local Open Scope Z_scope.

Module WebhookSafety.

(** ** The database only grows

    Rows stay, with the columns no statement writes. *)
Definition same_endpoint (e e' : WebhookEndpoint) : Prop :=
  ep_ID e' = ep_ID e /\ ep_OrganizationID e' = ep_OrganizationID e.
Definition same_delivery (w w' : WebhookDelivery) : Prop :=
  wd_ID w' = wd_ID w /\ wd_EventID w' = wd_EventID w /\ wd_EndpointID w' = wd_EndpointID w.
Record grows (d d' : DB) : Prop := {
  gr_events : events d ⊆ events d';
  gr_endpoints : forall id e, endpoints d !! id = Some e ->
    exists e', endpoints d' !! id = Some e' /\ same_endpoint e e';
  gr_deliveries : forall id w, deliveries d !! id = Some w ->
    exists w', deliveries d' !! id = Some w' /\ same_delivery w w';
}.
#[export] Instance grows_preorder : PreOrder grows.
Proof.
  split.
  - intros d. split; [done| |]; unfold same_endpoint, same_delivery; eauto 10.
  - intros d1 d2 d3 [He1 Hp1 Hd1] [He2 Hp2 Hd2]. split; [by etrans| |].
    + intros id e H. destruct (Hp1 id e H) as (e2 & H2 & [Hi Ho]). destruct (Hp2 id e2 H2) as (e3 & H3 & [Hi' Ho']).
      exists e3. unfold same_endpoint. split; [done|]. split; congruence.
    + intros id w H. destruct (Hd1 id w H) as (w2 & H2 & Ha & Hb & Hc). destruct (Hd2 id w2 H2) as (w3 & H3 & Ha' & Hb' & Hc').
      exists w3. unfold same_delivery. split; [done|]. split_and!; congruence.
Qed.

Lemma grows_same d d' : events d' = events d -> endpoints d' = endpoints d -> deliveries d' = deliveries d ->
  grows d d'.
Proof.
  intros He Hp Hd. split; rewrite ?He, ?Hp, ?Hd; [done| |]; intros id x Hx; exists x; by split.
Qed.

(** ** Well-formed databases *)
Record delivery_ok (d : DB) (next : UUID) (id : UUID) (w : WebhookDelivery) : Prop := {
  do_id : wd_ID w = id;
  do_next : id < next;
  do_row : delivery_row_ok w = true;
  do_tenant : exists ev e, events d !! wd_EventID w = Some ev /\ endpoints d !! wd_EndpointID w = Some e
    /\ ep_OrganizationID e = we_OrganizationID ev;
  do_lock : is_open (wd_Status w) = false -> wd_Lock w = None;
}.
Record db_ok (next : UUID) (d : DB) : Prop := {
  ok_endpoints : map_Forall (fun id e => ep_ID e = id /\ endpoint_row_ok e = true) (endpoints d);
  ok_endpoint_ids : forall id, is_Some (endpoints d !! id) -> id < next;
  ok_events : map_Forall (fun id ev => we_ID ev = id) (events d);
  ok_deliveries : map_Forall (delivery_ok d next) (deliveries d);
  ok_unique : forall i j w w', deliveries d !! i = Some w -> deliveries d !! j = Some w' ->
    wd_EventID w = wd_EventID w' -> wd_EndpointID w = wd_EndpointID w' -> i = j;
}.

Lemma delivery_ok_grows d d' n n' id w : grows d d' -> n <= n' -> delivery_ok d n id w -> delivery_ok d' n' id w.
Proof.
  intros [He Hp _] Hn [H1 H2 H3 (ev & e & H4 & H5 & H6) H7]. split; [done|lia|done| |done].
  destruct (Hp _ _ H5) as (e' & H5' & [_ Ho]). exists ev, e'. split_and!; [|done|congruence].
  by apply (lookup_weaken _ _ _ _ H4).
Qed.

(** *** One row written *)
Lemma put_endpoint_inv e d e' d' : put_endpoint e d = inl (e', d') ->
  e' = e /\ endpoint_row_ok e = true /\ d' = set_endpoints (<[ep_ID e := e]> (endpoints d)) d.
Proof. unfold put_endpoint. case_match; [|done]. by intros [= <- <-]. Qed.
Lemma put_delivery_inv w d w' d' : put_delivery w d = inl (w', d') ->
  w' = w /\ delivery_row_ok w = true /\ d' = set_deliveries (<[wd_ID w := w]> (deliveries d)) d.
Proof. unfold put_delivery. case_match; [|done]. by intros [= <- <-]. Qed.

Lemma grows_put_endpoint d id e f : endpoints d !! id = Some e -> ep_ID e = id -> same_endpoint e f ->
  grows d (set_endpoints (<[ep_ID f := f]> (endpoints d)) d).
Proof.
  intros He Hi [Hf Ho]. split; simpl; [done| |].
  - intros j e' Hj. rewrite Hf, Hi. destruct (decide (id = j)) as [<-|Hne].
    + rewrite lookup_insert_eq. exists f. simplify_eq. done.
    + rewrite lookup_insert_ne by done. exists e'. by split.
  - intros j w Hj. exists w. by split.
Qed.
Lemma grows_put_delivery d id w f : deliveries d !! id = Some w -> wd_ID w = id -> same_delivery w f ->
  grows d (set_deliveries (<[wd_ID f := f]> (deliveries d)) d).
Proof.
  intros Hw Hi Hs. split; simpl; [done| |].
  - intros j e Hj. exists e. by split.
  - intros j w' Hj. destruct Hs as (Hf & Hev & Hep). rewrite Hf, Hi. destruct (decide (id = j)) as [<-|Hne].
    + rewrite lookup_insert_eq. exists f. simplify_eq. done.
    + rewrite lookup_insert_ne by done. exists w'. by split.
Qed.

Lemma ok_put_endpoint n d id e f : db_ok n d -> endpoints d !! id = Some e -> same_endpoint e f ->
  endpoint_row_ok f = true ->
  db_ok n (set_endpoints (<[ep_ID f := f]> (endpoints d)) d)
  /\ grows d (set_endpoints (<[ep_ID f := f]> (endpoints d)) d).
Proof.
  intros Hok He Hs Hr. pose proof (ok_endpoints _ _ Hok id e He) as [Hi _]. 
  assert (Hg : grows d (set_endpoints (<[ep_ID f := f]> (endpoints d)) d)) by (by eapply grows_put_endpoint).
  split; [|done]. destruct Hs as [Hf _]. destruct Hok as [H1 H2 H3 H4 H5]. split; simpl; [| |done| |done].
  - apply map_Forall_insert_2; [|done]. done.
  - intros j Hj. apply H2. destruct (decide (id = j)) as [<-|Hne]; [by exists e|].
    by rewrite Hf, Hi, lookup_insert_ne in Hj.
  - intros j w Hj. apply (delivery_ok_grows d _ n n); [done|lia|]. by apply H4.
Qed.
Lemma ok_put_delivery n d id w f : db_ok n d -> deliveries d !! id = Some w -> same_delivery w f ->
  delivery_row_ok f = true -> (is_open (wd_Status f) = false -> wd_Lock f = None) ->
  db_ok n (set_deliveries (<[wd_ID f := f]> (deliveries d)) d)
  /\ grows d (set_deliveries (<[wd_ID f := f]> (deliveries d)) d).
Proof.
  intros Hok Hw Hs Hr Hl. pose proof (ok_deliveries _ _ Hok id w Hw) as [Hi Hn _ (ev & e & Hev & He & Ho) _].
  split; [|by eapply grows_put_delivery]. destruct Hs as (Hf & Hfe & Hfp).
  destruct Hok as [H1 H2 H3 H4 H5]. split; simpl; [done..| |].
  - intros j w' Hj. rewrite Hf, Hi in Hj. destruct (decide (id = j)) as [<-|Hne].
    + rewrite lookup_insert_eq in Hj. simplify_eq. split; simpl; [congruence|done|done| |done].
      exists ev, e. by rewrite Hfe, Hfp.
    + rewrite lookup_insert_ne in Hj by done. destruct (H4 j w' Hj) as [? ? ? ? ?]. by split.
  - intros i j w1 w2. rewrite Hf, Hi.
    assert (Hget : forall k x, <[id := f]> (deliveries d) !! k = Some x ->
      exists y, deliveries d !! k = Some y /\ wd_EventID y = wd_EventID x /\ wd_EndpointID y = wd_EndpointID x).
    { intros k x. destruct (decide (id = k)) as [<-|Hne].
      - rewrite lookup_insert_eq. intros [= <-]. exists w. by rewrite Hfe, Hfp.
      - rewrite lookup_insert_ne by done. eauto. }
    intros Hi1 Hj1 E1 E2. destruct (Hget i w1 Hi1) as (y1 & ? & ? & ?). destruct (Hget j w2 Hj1) as (y2 & ? & ? & ?).
    apply (H5 i j y1 y2); congruence.
Qed.

Lemma db_ok_next n n' d : db_ok n d -> n <= n' -> db_ok n' d.
Proof.
  intros [H1 H2 H3 H4 H5] Hn. split; [done| |done| |done].
  - intros id Hid. specialize (H2 id Hid). lia.
  - intros id w Hw. apply (delivery_ok_grows d d n n'); [reflexivity|done|]. by apply H4.
Qed.

(** *** Statements of the clients *)
Section Statements.
Context {L : WebhookLib} (now : Z).

Lemma update_endpoint_ok n org id p f d e d' : db_ok n d -> (forall e, same_endpoint e (f e)) ->
  update_endpoint org id p f d = inl (e, d') -> db_ok n d' /\ grows d d'.
Proof.
  intros Hok Hf. unfold update_endpoint. case_match eqn:He; [|done]. case_match; [|done].
  intros Hp. apply put_endpoint_inv in Hp as (-> & Hr & ->). by eapply ok_put_endpoint.
Qed.

Lemma ignore_no_rows_inv {A} d (r : result (A * DB)) u d' : ignore_no_rows d r = inl (u, d') ->
  (exists a, r = inl (a, d')) \/ d' = d.
Proof.
  unfold ignore_no_rows. destruct r as [[a d1]|e]; [intros [= <- <-]; eauto|].
  case_match; [intros [= <- <-]; eauto|done].
Qed.

Lemma CreateWebhookEndpoint_ok next org url secret evs enabled d e d' : db_ok next d ->
  CreateWebhookEndpoint now next org url secret evs enabled d = inl (e, d') ->
  db_ok (next + 1) d' /\ grows d d'.
Proof.
  intros Hok. unfold CreateWebhookEndpoint. case_match; [|done]. intros Hp.
  apply put_endpoint_inv in Hp as (_ & Hr & ->). simpl in *.
  assert (Hnew : endpoints d !! next = None).
  { destruct (endpoints d !! next) eqn:Hn; [|done]. pose proof (ok_endpoint_ids _ _ Hok next ltac:(eauto)). lia. }
  match goal with |- db_ok _ (set_endpoints (<[_ := ?x]> _) _) /\ _ => set (f := x) in * end.
  assert (Hg : grows d (set_endpoints (<[next := f]> (endpoints d)) d)).
  { split; simpl; [done| |]; [|intros j w Hj; by exists w].
    intros j e' Hj. exists e'. rewrite lookup_insert_ne by congruence. by split. }
  split; [|done]. destruct Hok as [H1 H2 H3 H4 H5]. split; simpl; [| |done| |done].
  - by apply map_Forall_insert_2.
  - intros j Hj. destruct (decide (next = j)) as [<-|Hne]; [lia|].
    rewrite lookup_insert_ne in Hj by done. specialize (H2 j Hj). lia.
  - intros j w Hj. apply (delivery_ok_grows d _ next (next + 1)); [done|lia|]. by apply H4.
Qed.

Lemma CreateWebhookEvent_ok n ev d e d' : db_ok n d -> CreateWebhookEvent now ev d = inl (e, d') ->
  db_ok n d' /\ grows d d' /\ events d' !! we_ID ev = Some e /\ deliveries d' = deliveries d
  /\ endpoints d' = endpoints d /\ organizations d' = organizations d /\ we_ID e = we_ID ev
  /\ we_OrganizationID e = we_OrganizationID ev /\ we_EventType e = we_EventType ev
  /\ we_ObjectType e = we_ObjectType ev /\ events d !! we_ID ev = None.
Proof.
  intros Hok. unfold CreateWebhookEvent. destruct (jsonb (we_Payload ev)) as [payload|]; [|done].
  do 4 (case_match; [done|]). case_bool_decide as Hn; [done|]. case_match; [done|]. intros [= <- <-].
  rewrite <- eq_None_not_Some in Hn. simpl.
  match goal with |- db_ok _ (set_events (<[_ := ?x]> _) _) /\ _ => set (f := x) in * end.
  assert (Hg : grows d (set_events (<[we_ID ev := f]> (events d)) d)).
  { split; simpl; [by apply insert_subseteq| |].
    - intros j e Hj. exists e. by split.
    - intros j w Hj. by exists w. }
  rewrite lookup_insert_eq. split_and!; try done.
  destruct Hok as [K1 K2 K3 K4 K5]. split; simpl; [done|done| | |done].
  - by apply map_Forall_insert_2.
  - intros j w Hj. apply (delivery_ok_grows d _ n n); [done|lia|]. by apply K4.
Qed.

Lemma insert_deliveries_lookup event at_ ts : forall id (m : gmap UUID WebhookDelivery) j w,
  (forall j, id <= j -> m !! j = None) ->
  insert_deliveries now id event at_ ts m !! j = Some w <->
  m !! j = Some w \/ exists k t, ts !! k = Some t /\ j = id + Z.of_nat k /\ w = new_delivery now j event t at_.
Proof.
  induction ts as [|t ts IH]; intros id m j w Hm; cbn [insert_deliveries].
  { split; [by left|]. intros [?|(k & t & Hk & _)]; [done|]. by rewrite lookup_nil in Hk. }
  rewrite IH.
  2:{ intros i Hi. rewrite lookup_insert_ne by lia. apply Hm. lia. }
  destruct (decide (id = j)) as [<-|Hne].
  - rewrite lookup_insert_eq. rewrite (Hm id) by lia. split.
    + intros [[= <-]|(k & t' & _ & Hk & _)]; [|lia]. right. exists 0%nat, t. split_and!; [done|lia|done].
    + intros [?|(k & t' & Hk & Hj & ->)]; [done|]. assert (k = 0%nat) as -> by lia. simpl in Hk. simplify_eq. by left.
  - rewrite lookup_insert_ne by done. split.
    + intros [?|(k & t' & Hk & -> & ->)]; [by left|]. right. exists (S k), t'. split_and!; [done|lia|].
      f_equal. 
    + intros [?|(k & t' & Hk & Hj & ->)]; [by left|]. right. destruct k as [|k]; [lia|]. exists k, t'.
      split_and!; [done|lia|done].
Qed.

Lemma has_delivery_spec d event endpoint :
  has_delivery d event endpoint = true <->
  exists id w, deliveries d !! id = Some w /\ wd_EventID w = event /\ wd_EndpointID w = endpoint.
Proof.
  unfold has_delivery. rewrite existsb_exists. split.
  - intros (w & Hw & Hb). apply list_elem_of_In, list_elem_of_fmap in Hw as ([id w'] & -> & Hin).
    apply elem_of_map_to_list in Hin. rewrite andb_true_iff, !bool_decide_eq_true in Hb. eauto.
  - intros (id & w & Hw & He & Hp). exists w. rewrite andb_true_iff, !bool_decide_eq_true. split; [|done].
    apply list_elem_of_In, list_elem_of_fmap. exists (id, w). by rewrite elem_of_map_to_list.
Qed.
Lemma new_targets_spec d ev t :
  t ∈ new_targets d ev <->
  has_delivery d (we_ID ev) t = false /\ exists e, endpoints d !! t = Some e /\ wants d ev e = true.
Proof.
  unfold new_targets. rewrite list_elem_of_fmap. split.
  - intros ([t' e] & -> & Hin). apply list_elem_of_filter in Hin as [[Hw Hh] Hin]. simpl in *.
    apply elem_of_map_to_list in Hin. eauto.
  - intros (Hh & e & He & Hw). exists (t, e). split; [done|]. apply list_elem_of_filter. simpl.
    by rewrite elem_of_map_to_list.
Qed.
Lemma new_targets_NoDup d ev : NoDup (new_targets d ev).
Proof.
  unfold new_targets. apply NoDup_fmap_fst; [|apply NoDup_filter, NoDup_map_to_list].
  intros x y1 y2 [_ H1]%list_elem_of_filter [_ H2]%list_elem_of_filter.
  apply elem_of_map_to_list in H1, H2. congruence.
Qed.

Lemma CreateWebhookDeliveriesForEvent_ok next event at_ d n d' : db_ok next d ->
  CreateWebhookDeliveriesForEvent now next event at_ d = inl (n, d') ->
  db_ok (next + n) d' /\ grows d d' /\ 0 <= n.
Proof.
  intros Hok. unfold CreateWebhookDeliveriesForEvent. destruct (events d !! event) as [ev|] eqn:Hev.
  2:{ intros [= <- <-]. rewrite Z.add_0_r. by split_and!. }
  cbv zeta. intros [= <- <-]. set (ts := new_targets d ev).
  assert (Hid : we_ID ev = event) by (by apply (ok_events _ _ Hok)).
  assert (Hfree : forall j, next <= j -> deliveries d !! j = None).
  { intros j Hj. destruct (deliveries d !! j) as [w|] eqn:Hw; [|done].
    pose proof (do_next _ _ _ _ (ok_deliveries _ _ Hok j w Hw)). lia. }
  assert (Hlook : forall j w, insert_deliveries now next event at_ ts (deliveries d) !! j = Some w <->
    deliveries d !! j = Some w \/
    exists k t, ts !! k = Some t /\ j = next + Z.of_nat k /\ w = new_delivery now j event t at_)
    by (intros; by apply insert_deliveries_lookup).
  assert (Hg : grows d (set_deliveries (insert_deliveries now next event at_ ts (deliveries d)) d)).
  { split; simpl; [done| |].
    - intros j e Hj. exists e. by split.
    - intros j w Hj. exists w. split; [|done]. apply Hlook. by left. }
  split; [|split; [done|lia]].
  assert (Hnew : forall k t, ts !! k = Some t -> has_delivery d event t = false /\
    exists e, endpoints d !! t = Some e /\ ep_OrganizationID e = we_OrganizationID ev).
  { intros k t Hk. apply list_elem_of_lookup_2, new_targets_spec in Hk as (Hh & e & He & Hw).
    rewrite Hid in Hh. split; [done|]. exists e. split; [done|]. unfold wants in Hw.
    rewrite !andb_true_iff, bool_decide_eq_true in Hw. tauto. }
  assert (Hno : forall j w k t, deliveries d !! j = Some w -> ts !! k = Some t ->
    wd_EventID w = event -> wd_EndpointID w = t -> False).
  { intros j w k t Hj Hk E1 E2. destruct (Hnew k t Hk) as [Hh _].
    assert (has_delivery d event t = true) by (apply has_delivery_spec; eauto). congruence. }
  destruct Hok as [H1 H2 H3 H4 H5]. split; simpl; [done| |done| |].
  - intros j Hj. specialize (H2 j Hj). lia.
  - intros j w Hj. apply Hlook in Hj as [Hj|(k & t & Hk & -> & ->)].
    + apply (delivery_ok_grows d _ next _); [done|lia|]. by apply H4.
    + pose proof (lookup_lt_Some _ _ _ Hk). split; simpl; [done|lia|done| |done].
      destruct (Hnew k t Hk) as (_ & e & He & Ho). eauto.
  - intros i j w w' Hi Hj E1 E2.
    apply Hlook in Hi as [Hi|(k & t & Hk & -> & ->)]; apply Hlook in Hj as [Hj|(k' & t' & Hk' & -> & ->)];
      simpl in *.
    + by apply (H5 i j w w').
    + exfalso. by apply (Hno i w k' t').
    + exfalso. by apply (Hno j w' k t).
    + f_equal. f_equal. apply (NoDup_lookup ts k k' t); [apply new_targets_NoDup|done|congruence].
Qed.

Lemma settle_same s at_ st b e dl w : same_delivery w (settle now s at_ st b e dl w).
Proof. done. Qed.
Lemma lock_same worker w : same_delivery w (lock_delivery now worker w).
Proof. done. Qed.

(** *** Many rows written by one function *)
Lemma map_deliveries_ok n d (f : WebhookDelivery -> WebhookDelivery) : db_ok n d ->
  (forall w, same_delivery w (f w)) ->
  (forall id w, deliveries d !! id = Some w -> delivery_row_ok (f w) = true) ->
  (forall id w, deliveries d !! id = Some w -> is_open (wd_Status (f w)) = false -> wd_Lock (f w) = None) ->
  db_ok n (set_deliveries (f <$> deliveries d) d) /\ grows d (set_deliveries (f <$> deliveries d) d).
Proof.
  intros [H1 H2 H3 H4 H5] Hs Hr Hl. split.
  - split; simpl; [done..| |].
    + intros id w. rewrite lookup_fmap_Some. intros (w0 & <- & Hw). destruct (H4 id w0 Hw) as [? ? ? ? ?].
      destruct (Hs w0) as (Hi & He & Hp). split; simpl; [congruence|done|by apply (Hr id)|by rewrite He, Hp|by apply (Hl id)].
    + intros i j w w'. rewrite !lookup_fmap_Some. intros (a & <- & Ha) (b & <- & Hb).
      destruct (Hs a) as (_ & -> & ->), (Hs b) as (_ & -> & ->). by apply H5.
  - split; simpl; [done| |].
    + intros id e He. exists e. by split.
    + intros id w Hw. exists (f w). split; [by rewrite lookup_fmap, Hw|apply Hs].
Qed.

Lemma opt_text_canceled : is_text "Webhook endpoint disabled before delivery" = true.
Proof. vm_compute. reflexivity. Qed.

Lemma CancelWebhookDeliveriesForEndpoint_ok n org id d u d' : db_ok n d ->
  CancelWebhookDeliveriesForEndpoint now org id d = inl (u, d') -> db_ok n d' /\ grows d d'.
Proof.
  intros Hok. unfold CancelWebhookDeliveriesForEndpoint. case_match; [|by intros [= <- <-]].
  case_match; [|by intros [= <- <-]]. intros [= <- <-]. apply map_deliveries_ok; [done|..].
  - intros x. by case_match.
  - intros j x Hw. pose proof (do_row _ _ _ _ (ok_deliveries _ _ Hok j x Hw)) as Hr. case_match eqn:Hc; [|done].
    apply andb_true_iff in Hc as [_ Hc]. unfold delivery_row_ok in *. rewrite !andb_true_iff in *. simpl.
    rewrite opt_text_canceled. tauto.
  - intros j x Hw. pose proof (do_lock _ _ _ _ (ok_deliveries _ _ Hok j x Hw)). by case_match.
Qed.

Lemma RetryWebhookDelivery_ok n org id d w d' : db_ok n d ->
  RetryWebhookDelivery now org id d = inl (w, d') -> db_ok n d' /\ grows d d'.
Proof.
  intros Hok. unfold RetryWebhookDelivery. destruct (deliveries d !! id) as [w0|] eqn:Hw; [|done].
  case_match; [|done]. case_match. case_match; [|done]. intros Hp.
  apply put_delivery_inv in Hp as (-> & Hr & ->). by eapply ok_put_delivery.
Qed.

(** *** Claims and records of a worker *)
Lemma claimed_is_claimable stale limit d id : id ∈ claim_ids now stale limit d ->
  exists j w, deliveries d !! j = Some w /\ wd_ID w = id /\ claimable now stale d w = true.
Proof.
  unfold claim_ids. intros H%subseteq_take. rewrite merge_sort_Permutation in H.
  apply list_elem_of_fmap in H as (w & -> & Hw). apply list_elem_of_filter in Hw as [Hc Hw].
  apply list_elem_of_fmap in Hw as ([j w'] & -> & Hw). apply elem_of_map_to_list in Hw. eauto.
Qed.

Lemma ClaimWebhookDeliveries_ok n worker stale limit d rows d' : db_ok n d ->
  ClaimWebhookDeliveries now worker stale limit d = inl (rows, d') -> db_ok n d' /\ grows d d'.
Proof.
  intros Hok. unfold ClaimWebhookDeliveries. cbv zeta. case_match eqn:Hall; [|done]. intros [= <- <-].
  rewrite forallb_forall in Hall.
  assert (Hof : forall id w, deliveries d !! id = Some w -> wd_ID w ∈ claim_ids now stale limit d ->
    claimable now stale d w = true).
  { intros id w Hw Hin. apply claimed_is_claimable in Hin as (j & w' & Hj & Hid & Hc).
    rewrite (do_id _ _ _ _ (ok_deliveries _ _ Hok id w Hw)) in Hid.
    rewrite (do_id _ _ _ _ (ok_deliveries _ _ Hok j w' Hj)) in Hid. congruence. }
  apply map_deliveries_ok; [done|..].
  - intros w. by case_match.
  - intros id w Hw. pose proof (ok_deliveries _ _ Hok id w Hw) as [Hi _ Hr _ _]. case_bool_decide as Hin; [|done].
    rewrite Hi in Hin. specialize (Hall id ltac:(by apply list_elem_of_In)). unfold lock_ids in Hall.
    rewrite lookup_fmap, Hw in Hall. simpl in Hall. by rewrite Hi, bool_decide_eq_true_2 in Hall.
  - intros id w Hw. pose proof (do_lock _ _ _ _ (ok_deliveries _ _ Hok id w Hw)). case_bool_decide as Hin; [|done].
    specialize (Hof id w Hw Hin). unfold claimable in Hof. rewrite !andb_true_iff in Hof. simpl.
    intros Ho. rewrite Ho in Hof. intuition congruence.
Qed.

Lemma locked_by_inv id worker d w : locked_by id worker d = Some w ->
  deliveries d !! id = Some w /\ exists t, wd_Lock w = Some (t, worker).
Proof.
  unfold locked_by. destruct (deliveries d !! id) as [w0|]; [|done]. destruct (wd_Lock w0) as [[t by_]|] eqn:Hl; [|done].
  case_decide; [|done]. intros [= <-]. subst. eauto.
Qed.

(** What [record] writes: the delivery, and possibly its endpoint. *)
Definition settled_as (v : verdict) : Status :=
  match v with Accepted => StatusSucceeded | Again => StatusRetrying | GivenUp => StatusFailed end.
Lemma record_inv n (c : DeliveryJobConfig) at_ row a d w d' : db_ok n d ->
  record c at_ row a now d = inl (w, d') ->
  exists w0, locked_by (cr_ID row) (WorkerID c) d = Some w0 /\ same_delivery w0 w
    /\ wd_Status w = settled_as (verdict_of c row a) /\ wd_Lock w = None
    /\ deliveries d' = <[cr_ID row := w]> (deliveries d) /\ db_ok n d' /\ grows d d'
    /\ organizations d' = organizations d /\ events d' = events d.
Proof.
  intros Hok. 
  assert (Hput : forall w0 f, locked_by (cr_ID row) (WorkerID c) d = Some w0 ->
    delivery_row_ok f = true -> same_delivery w0 f -> wd_Lock f = None ->
    deliveries (set_deliveries (<[wd_ID f:=f]> (deliveries d)) d) = <[cr_ID row := f]> (deliveries d)
    /\ db_ok n (set_deliveries (<[wd_ID f:=f]> (deliveries d)) d)
    /\ grows d (set_deliveries (<[wd_ID f:=f]> (deliveries d)) d)).
  { intros w0 f Hl Hr Hs Hf. apply locked_by_inv in Hl as [Hw _].
    pose proof (do_id _ _ _ _ (ok_deliveries _ _ Hok _ _ Hw)) as Hid.
    split; [|by eapply ok_put_delivery]. simpl. f_equal. destruct Hs as [-> _]. done. }
  assert (Hend : forall d1 e f, db_ok n d1 -> grows d d1 -> endpoints d !! ep_ID e = Some e -> endpoints d1 = endpoints d ->
    endpoint_row_ok f = true -> same_endpoint e f ->
    db_ok n (set_endpoints (<[ep_ID f := f]> (endpoints d1)) d1)
    /\ grows d (set_endpoints (<[ep_ID f := f]> (endpoints d1)) d1)).
  { intros d1 e f Hok1 Hg He Hd1 Hr Hs. destruct (ok_put_endpoint n d1 (ep_ID e) e f) as [? ?]; [done|by rewrite Hd1|done|done|].
    split; [done|by etrans]. }
  unfold record, settled_as. destruct (verdict_of c row a) eqn:Hv.
  - unfold MarkWebhookDeliverySucceeded. destruct (locked_by _ _ _) as [w0|] eqn:Hl; [|done].
    intros ([w1 d1] & Hp & Hk)%rbind_ok_inv. apply put_delivery_inv in Hp as (-> & Hr & ->).
    destruct (Hput w0 _ eq_refl Hr ltac:(done) eq_refl) as (Hd1 & Hok1 & Hg1).
    exists w0. destruct (endpoints d !! wd_EndpointID w0) as [e|] eqn:He; [|simplify_eq; by split_and!].
    case_match; [|simplify_eq; by split_and!].
    apply rbind_ok_inv in Hk as ([e' d2] & Hp & [= <- <-]). apply put_endpoint_inv in Hp as (_ & Hre & ->).
    pose proof (ok_endpoints _ _ Hok _ _ He) as [Hei _]. rewrite <- Hei in He.
    destruct (Hend _ e _ Hok1 Hg1 He eq_refl Hre ltac:(done)) as [? ?]. by split_and!.
  - unfold ScheduleWebhookDeliveryRetry. destruct (locked_by _ _ _) as [w0|] eqn:Hl; [|done].
    intros Hp. apply put_delivery_inv in Hp as (-> & Hr & ->).
    destruct (Hput w0 _ eq_refl Hr ltac:(done) eq_refl) as (Hd1 & Hok1 & Hg1). exists w0. by split_and!.
  - unfold MarkWebhookDeliveryFailed. destruct (locked_by _ _ _) as [w0|] eqn:Hl; [|done].
    intros ([w1 d1] & Hp & Hk)%rbind_ok_inv. apply put_delivery_inv in Hp as (-> & Hr & ->).
    destruct (Hput w0 _ eq_refl Hr ltac:(done) eq_refl) as (Hd1 & Hok1 & Hg1).
    exists w0. destruct (endpoints d !! wd_EndpointID w0) as [e|] eqn:He; [|simplify_eq; by split_and!].
    apply rbind_ok_inv in Hk as ([e' d2] & Hp & [= <- <-]). apply put_endpoint_inv in Hp as (_ & Hre & ->).
    pose proof (ok_endpoints _ _ Hok _ _ He) as [Hei _]. rewrite <- Hei in He.
    destruct (Hend _ e _ Hok1 Hg1 He eq_refl Hre ltac:(done)) as [? ?]. by split_and!.
Qed.

Lemma client_ok next d d' next' : db_ok next d -> client now next d d' next' ->
  db_ok next' d' /\ grows d d'.
Proof.
  intros Hok [| | | | | |ev id at_ d1 n d2 Hev Hd|org active]; simplify_eq.
  - by eapply CreateWebhookEndpoint_ok.
  - eapply update_endpoint_ok; [done| |done]. done.
  - apply ignore_no_rows_inv in H as [[a H]| ->]; [|by split]. eapply update_endpoint_ok; [done| |done]. done.
  - eapply update_endpoint_ok; [done| |done]. done.
  - by eapply RetryWebhookDelivery_ok.
  - by eapply CancelWebhookDeliveriesForEndpoint_ok.
  - assert (db_ok next d1 /\ grows d d1) as [Hok1 Hg1].
    { destruct Hev as [->|[e He]]; [by split|]. apply (CreateWebhookEvent_ok next) in He; [|done]. tauto. }
    destruct (CreateWebhookDeliveriesForEvent_ok next id at_ d1 n d2) as (? & ? & ?); [done|done|].
    split; [done|by etrans].
  - split; [|by apply grows_same]. destruct Hok as [H1 H2 H3 H4 H5]. split; simpl; [done..| |done].
    intros j w Hj. by destruct (H4 j w Hj).
Qed.

(** What a client does to a delivery: nothing, cancel it while it is open, or
    retry it once it has failed. New deliveries are pending and unlocked. *)
Inductive client_delivery (w : WebhookDelivery) : WebhookDelivery -> Prop :=
| cd_same : client_delivery w w
| cd_cancel : is_open (wd_Status w) = true -> client_delivery w (cancel_row now w)
| cd_retry : wd_Status w = StatusFailed -> client_delivery w (settle now StatusPending now None None None None w).
Lemma client_deliveries next d d' next' id w' : db_ok next d -> client now next d d' next' ->
  deliveries d' !! id = Some w' ->
  (exists w, deliveries d !! id = Some w /\ client_delivery w w')
  \/ (next <= id /\ wd_Status w' = StatusPending /\ wd_Lock w' = None).
Proof.
  assert (Hsame : forall d1, deliveries d1 = deliveries d -> deliveries d1 !! id = Some w' ->
    exists w, deliveries d !! id = Some w /\ client_delivery w w').
  { intros d1 -> Hw. exists w'. split; [done|constructor]. }
  assert (Hep : forall f e d1, put_endpoint f d = inl (e, d1) -> deliveries d1 = deliveries d).
  { intros f e d1 H. by apply put_endpoint_inv in H as (_ & _ & ->). }
  assert (Hup : forall org i p f e d1, update_endpoint org i p f d = inl (e, d1) -> deliveries d1 = deliveries d).
  { intros org i p f e d1. unfold update_endpoint. case_match; [|done]. case_match; [|done]. apply Hep. }
  intros Hok [org url secret evs enabled e d1 H|org i url evs enabled e d1 H|org i d1 H|org i secret e d1 H
    |org i w d1 H|org i d1 H|ev i at_ d1 n d2 Hev H|org active] Hw; [left; eapply Hsame; [|done]..|left|left| |left; by eapply Hsame].
  - unfold CreateWebhookEndpoint in H. case_match; [by eapply Hep|done].
  - by eapply Hup.
  - apply ignore_no_rows_inv in H as [[a H]| ->]; [by eapply Hup|done].
  - by eapply Hup.
  - unfold RetryWebhookDelivery in H. destruct (deliveries d !! i) as [w0|] eqn:Hi; [|done]. case_match; [|done].
    case_match. case_match eqn:Hc; [|done]. apply put_delivery_inv in H as (-> & _ & ->). simpl in Hw.
    rewrite (do_id _ _ _ _ (ok_deliveries _ _ Hok i w0 Hi)) in Hw.
    destruct (decide (i = id)) as [<-|Hne].
    + rewrite lookup_insert_eq in Hw. simplify_eq. exists w0. split; [done|]. constructor.
      rewrite !andb_true_iff, !bool_decide_eq_true in Hc. tauto.
    + rewrite lookup_insert_ne in Hw by done. exists w'. split; [done|constructor].
  - unfold CancelWebhookDeliveriesForEndpoint in H. case_match; [|simplify_eq; by eapply Hsame].
    case_match; [|simplify_eq; by eapply Hsame]. simplify_eq. simpl in Hw. apply lookup_fmap_Some in Hw as (w0 & <- & Hw0).
    exists w0. split; [done|]. case_match eqn:Hc; [|constructor]. apply andb_true_iff in Hc as [_ Hc]. by constructor.
  - assert (db_ok next d1 /\ deliveries d1 = deliveries d) as [Hok1 Hd1].
    { destruct Hev as [->|[e He]]; [done|]. apply (CreateWebhookEvent_ok next) in He; [|done]. tauto. }
    unfold CreateWebhookDeliveriesForEvent in H. destruct (events d1 !! i) as [ev'|]; [|simplify_eq; left; by eapply Hsame].
    cbv zeta in H. simplify_eq. simpl in Hw. apply insert_deliveries_lookup in Hw.
    + destruct Hw as [Hw|(k & t & _ & -> & ->)]; [left|right; split_and!; [lia|done|done]].
      rewrite Hd1 in Hw. exists w'. split; [done|constructor].
    + intros j Hj. destruct (deliveries d1 !! j) as [w|] eqn:Hjw; [|done].
      pose proof (do_next _ _ _ _ (ok_deliveries _ _ Hok1 j w Hjw)). lia.
Qed.
End Statements.

(** ** The invariant of the interleaved system *)
Section Invariant.
Context {L : WebhookLib} {U : UuidLib} (cfg : nat -> DeliveryJobConfig).

(** The claimed row tells of a delivery of an event to an endpoint of the same
    organization. *)
Definition row_ok (d : DB) (r : ClaimRow) : Prop :=
  exists w ev e, deliveries d !! cr_ID r = Some w /\ wd_EventID w = cr_EventID r
    /\ wd_EndpointID w = cr_EndpointID r /\ events d !! cr_EventID r = Some ev
    /\ endpoints d !! cr_EndpointID r = Some e /\ ep_OrganizationID e = cr_OrganizationID r
    /\ we_OrganizationID ev = cr_OrganizationID r /\ we_EventType ev = cr_EventType r
    /\ we_Payload ev = cr_Payload r /\ we_OccurredAt ev = cr_OccurredAt r.
Lemma row_ok_grows d d' r : grows d d' -> row_ok d r -> row_ok d' r.
Proof.
  intros [He Hp Hd] (w & ev & e & H1 & H2 & H3 & H4 & H5 & H6 & H7).
  destruct (Hd _ _ H1) as (w' & Hw' & _ & E1 & E2). destruct (Hp _ _ H5) as (e' & He' & _ & Eo).
  exists w', ev, e'. split_and!; try done; try congruence; try tauto. by apply (lookup_weaken _ _ _ _ H4).
Qed.

Definition rows_of (ph : phase) : list ClaimRow :=
  match ph with
  | Holding _ rows => rows
  | Answered _ row _ rest => row :: rest
  | Idle | Stopped => []
  end.
Definition accepted (tries : list (ClaimRow * DeliveryAttempt)) (id : UUID) : Prop :=
  exists r a, (r, a) ∈ tries /\ cr_ID r = id /\ deliverySucceeded a = true.
Record sys_ok (s : System) : Prop := {
  so_db : db_ok (s_next s) (s_db s);
  so_rows : forall p, Forall (row_ok (s_db s)) (rows_of (phase_of s p));
  so_tries : Forall (fun ra => row_ok (s_db s) (fst ra)) (s_tries s);
  so_answered : forall p since row a rest, phase_of s p = Answered since row a rest -> (row, a) ∈ s_tries s;
  so_succeeded : forall id w, deliveries (s_db s) !! id = Some w -> wd_Status w = StatusSucceeded ->
    accepted (s_tries s) id;
}.

Lemma phase_of_insert (s : System) (m : gmap nat phase) p q ph :
  default Idle (<[p := ph]> m !! q) = (if decide (p = q) then ph else default Idle (m !! q)).
Proof. case_decide as H; [subst; by rewrite lookup_insert_eq|by rewrite lookup_insert_ne]. Qed.

(** A claim locks open deliveries and returns them. *)
Lemma claim_rows_ok n now worker stale limit d rows d' : db_ok n d ->
  ClaimWebhookDeliveries now worker stale limit d = inl (rows, d') ->
  Forall (fun r => row_ok d' r /\ exists w, deliveries d' !! cr_ID r = Some w
    /\ wd_Lock w = Some (now, worker) /\ is_open (wd_Status w) = true
    /\ cr_AttemptCount r = wd_AttemptCount w) rows.
Proof.
  intros Hok Hc. pose proof (ClaimWebhookDeliveries_ok now n worker stale limit d rows d' Hok Hc) as [Hok' _].
  revert Hc. unfold ClaimWebhookDeliveries. cbv zeta. case_match; [|done]. intros [= <- <-].
  apply Forall_forall. intros r (id & Hid & Hr)%list_elem_of_omap. simpl in *.
  destruct (lock_ids now worker _ (deliveries d) !! id) as [w|] eqn:Hw; [|done]. simpl in Hr.
  pose proof (do_id _ _ _ _ (ok_deliveries _ _ Hok' id w Hw)) as Hi.
  pose proof Hw as Hlock. unfold lock_ids in Hlock. apply lookup_fmap_Some in Hlock as (w0 & Hw0 & Hd0).
  pose proof (do_id _ _ _ _ (ok_deliveries _ _ Hok id w0 Hd0)) as Hi0. rewrite Hi0, bool_decide_eq_true_2 in Hw0 by done.
  unfold claim_row in Hr. destruct (delivery_joined d w) as [[ev e]|] eqn:Hj; [|done]. injection Hr as <-.
  simpl. rewrite Hi. subst w. unfold delivery_joined in Hj. simpl in Hj.
  destruct (events d !! wd_EventID w0) as [ev'|] eqn:Hev; [|done].
  destruct (endpoints d !! wd_EndpointID w0) as [e'|] eqn:He; [|done]. injection Hj as -> ->.
  pose proof (do_tenant _ _ _ _ (ok_deliveries _ _ Hok id w0 Hd0)) as (ev2 & e2 & E1 & E2 & E3). simplify_eq.
  split.
  - exists (lock_delivery now worker w0), ev, e. simpl. rewrite Hi0. by split_and!.
  - exists (lock_delivery now worker w0). rewrite Hw. split_and!; try done. simpl.
    apply claimed_is_claimable in Hid as (j & w1 & Hj & Hid & Hc).
    rewrite (do_id _ _ _ _ (ok_deliveries _ _ Hok j w1 Hj)) in Hid. subst j. simplify_eq.
    unfold claimable in Hc. rewrite !andb_true_iff in Hc. tauto.
Qed.

Lemma claim_deliveries now worker stale limit d rows d' id w' :
  ClaimWebhookDeliveries now worker stale limit d = inl (rows, d') -> deliveries d' !! id = Some w' ->
  exists w, deliveries d !! id = Some w /\ (w' = w \/ w' = lock_delivery now worker w /\ wd_ID w ∈ claim_ids now stale limit d).
Proof.
  unfold ClaimWebhookDeliveries. cbv zeta. case_match; [|done]. intros [= <- <-]. simpl. unfold lock_ids.
  intros (w & <- & Hw)%lookup_fmap_Some. exists w. split; [done|]. case_bool_decide; auto.
Qed.

(** *** Every step keeps the invariant *)
Lemma sys_ok_db s n' d' : sys_ok s -> db_ok n' d' -> grows (s_db s) d' ->
  (forall id w', deliveries d' !! id = Some w' -> wd_Status w' = StatusSucceeded ->
     (exists w, deliveries (s_db s) !! id = Some w /\ wd_Status w = StatusSucceeded) \/ accepted (s_tries s) id) ->
  sys_ok {| s_now := s_now s; s_next := n'; s_db := d'; s_tries := s_tries s; s_procs := s_procs s |}.
Proof.
  intros [H1 H2 H3 H4 H5] Hok Hg Hst. split; simpl; [done| | |done|].
  - intros p. eapply Forall_impl; [apply H2|]. intros r. by apply row_ok_grows.
  - eapply Forall_impl; [apply H3|]. intros [r a]. by apply row_ok_grows.
  - intros id w' Hw' Hs. destruct (Hst id w' Hw' Hs) as [(w & Hw & Hsw)|?]; eauto.
Qed.

Lemma sys_ok_phase s p ph : sys_ok s -> Forall (row_ok (s_db s)) (rows_of ph) ->
  (forall since row a rest, ph = Answered since row a rest -> (row, a) ∈ s_tries s) ->
  sys_ok (set_phase p ph (s_db s) s).
Proof.
  intros [H1 H2 H3 H4 H5] Hr Ha. split; simpl; [done| |done| |done].
  - intros q. unfold phase_of. simpl. rewrite (phase_of_insert s). case_decide; [done|apply H2].
  - intros q since row a rest. unfold phase_of. simpl. rewrite (phase_of_insert s). case_decide; [apply Ha|apply H4].
Qed.

Lemma sys_ok_step s s' : step cfg s s' -> sys_ok s -> sys_ok s'.
Proof.
  intros [s0 t Ht|s0 d' n' Hcl|s0 p at_ rows d' Hp Hat Hc|s0 p since row rest a Hp
         |s0 p since row a rest at_ w d' ph Hp Hr Hph|s0 p since row a rest Hp|s0 p] Hok.
  - destruct Hok. by split.
  - destruct (client_ok _ _ _ _ _ (so_db _ Hok) Hcl) as [Hdb Hg]. apply sys_ok_db; [done..|].
    intros id w' Hw' Hs. left.
    destruct (client_deliveries _ _ _ _ _ _ _ (so_db _ Hok) Hcl Hw') as [(w & Hw & Hcd)|(_ & Hsp & _)]; [|congruence].
    exists w. split; [done|]. by destruct Hcd.
  - destruct (ClaimWebhookDeliveries_ok _ _ _ _ _ _ _ _ (so_db _ Hok) Hc) as [Hdb Hg].
    pose proof (claim_rows_ok _ _ _ _ _ _ _ _ (so_db _ Hok) Hc) as Hrows.
    change (sys_ok (set_phase p (Holding (s_now s0) rows) (s_db {| s_now := s_now s0; s_next := s_next s0; s_db := d';
      s_tries := s_tries s0; s_procs := s_procs s0 |}) {| s_now := s_now s0; s_next := s_next s0; s_db := d';
      s_tries := s_tries s0; s_procs := s_procs s0 |})).
    apply sys_ok_phase; [|simpl; eapply Forall_impl; [exact Hrows|]; by intros r [? _]|done].
    apply sys_ok_db; [done..|]. intros id w' Hw' Hs. left.
    destruct (claim_deliveries _ _ _ _ _ _ _ _ _ Hc Hw') as (w & Hw & [-> | [-> _]]); eauto.
  - pose proof (so_rows _ Hok p) as Hrows. rewrite Hp in Hrows. simpl in Hrows.
    destruct Hok as [H1 H2 H3 H4 H5]. split; simpl; [done| | | |].
    + intros q. unfold phase_of. simpl. rewrite (phase_of_insert s0). case_decide; [done|apply H2].
    + apply Forall_app. split; [done|]. by apply Forall_singleton, (Forall_inv Hrows).
    + intros q si r a' re. unfold phase_of. simpl. rewrite (phase_of_insert s0). case_decide.
      * intros [= <- <- <- <-]. set_solver.
      * intros Hq. apply H4 in Hq. set_solver.
    + intros id w Hw Hs. destruct (H5 id w Hw Hs) as (r & a' & Hin & ?). exists r, a'. set_solver.
  - destruct (record_inv _ _ _ _ _ _ _ _ _ (so_db _ Hok) Hr) as (w0 & _ & _ & Hst & _ & Hd' & Hdb & Hg & _).
    pose proof (so_rows _ Hok p) as Hrows. rewrite Hp in Hrows. simpl in Hrows.
    pose proof (so_answered _ Hok p _ _ _ _ Hp) as Hin.
    change (sys_ok (set_phase p ph (s_db {| s_now := s_now s0; s_next := s_next s0; s_db := d';
      s_tries := s_tries s0; s_procs := s_procs s0 |}) {| s_now := s_now s0; s_next := s_next s0; s_db := d';
      s_tries := s_tries s0; s_procs := s_procs s0 |})).
    apply sys_ok_phase; [| |by destruct Hph as [-> | ->]].
    2:{ destruct Hph as [-> | ->]; [|constructor]. eapply Forall_impl; [apply (Forall_inv_tail Hrows)|].
        intros r. by apply row_ok_grows. }
    apply sys_ok_db; [done..|]. intros id w' Hw' Hs. rewrite Hd' in Hw'. destruct (decide (cr_ID row = id)) as [<-|Hne].
    + right. rewrite lookup_insert_eq in Hw'. simplify_eq. exists row, a. split_and!; [done|done|].
      rewrite Hs in Hst. unfold verdict_of in Hst. destruct (deliverySucceeded a); [done|]. by case_match.
    + left. rewrite lookup_insert_ne in Hw' by done. eauto.
  - apply sys_ok_phase; [done|constructor|done].
  - apply sys_ok_phase; [done|constructor|done].
Qed.

(** A system with organizations and nothing else. *)
Definition empty_db (orgs : gmap UUID bool) : DB :=
  {| organizations := orgs; endpoints := ∅; events := ∅; deliveries := ∅ |}.
Definition start (orgs : gmap UUID bool) (now : Z) (next : UUID) : System :=
  {| s_now := now; s_next := next; s_db := empty_db orgs; s_tries := []; s_procs := ∅ |}.
Lemma sys_ok_start orgs now next : sys_ok (start orgs now next).
Proof.
  split; simpl; [|intros p; unfold phase_of; simpl; rewrite lookup_empty; constructor|constructor
    |intros p; unfold phase_of; simpl; by rewrite lookup_empty|intros id w; by rewrite lookup_empty].
  split; simpl; try apply map_Forall_empty.
  - intros id. rewrite lookup_empty. by intros [].
  - intros i j w w'. by rewrite lookup_empty.
Qed.
Lemma sys_reachable orgs now next s : rtc (step cfg) (start orgs now next) s -> sys_ok s.
Proof. apply rtc_invariant; [apply sys_ok_start|]. intros a b. apply sys_ok_step. Qed.


(** A delivery marked succeeded was answered by its endpoint with a 2xx status, for
    every interleaving, and no event has two deliveries to one endpoint. *)
Theorem succeeded_was_accepted orgs now next s :
  rtc (step cfg) (start orgs now next) s ->
  (forall id w, deliveries (s_db s) !! id = Some w -> wd_Status w = StatusSucceeded -> accepted (s_tries s) id)
  /\ (forall i j w w', deliveries (s_db s) !! i = Some w -> deliveries (s_db s) !! j = Some w' ->
      wd_EventID w = wd_EventID w' -> wd_EndpointID w = wd_EndpointID w' -> i = j).
Proof.
  intros Hr. pose proof (sys_reachable _ _ _ _ Hr) as Hok. split; [apply (so_succeeded _ Hok)|].
  apply (ok_unique _ _ (so_db _ Hok)).
Qed.
End Invariant.

(** ** Locks *)
Section Locks.
Context {L : WebhookLib} {U : UuidLib}.

Lemma claim_ids_NoDup now stale limit n d : db_ok n d -> NoDup (claim_ids now stale limit d).
Proof.
  intros Hok. unfold claim_ids. eapply sublist_NoDup; [|apply sublist_take].
  rewrite merge_sort_Permutation. 
  assert (Hk : wd_ID <$> (snd <$> map_to_list (deliveries d)) = (map_to_list (deliveries d)).*1).
  { rewrite <- list_fmap_compose. apply list_fmap_ext. intros i [id w] Hi. simpl.
    apply list_elem_of_lookup_2, elem_of_map_to_list in Hi. apply (do_id _ _ _ _ (ok_deliveries _ _ Hok id w Hi)). }
  pose proof (NoDup_fst_map_to_list (deliveries d)) as Hnd. rewrite <- Hk in Hnd. revert Hnd.
  generalize (snd <$> map_to_list (deliveries d)). intros l. induction l as [|w l IH]; [done|].
  rewrite fmap_cons, NoDup_cons, filter_cons. intros [Hw Hnd]. case_decide; [|by apply IH].
  rewrite fmap_cons, NoDup_cons. split; [|by apply IH]. intros Hin. apply Hw.
  apply list_elem_of_fmap in Hin as (w' & -> & Hin). apply list_elem_of_filter in Hin as [_ Hin].
  by apply list_elem_of_fmap_2.
Qed.

Lemma omap_keys {A} (key : A -> UUID) (f : UUID -> option A) (ids : list UUID) :
  (forall id r, f id = Some r -> key r = id) -> key <$> omap f ids `sublist_of` ids.
Proof.
  intros Hf. induction ids as [|id ids IH]; simpl; [done|]. destruct (f id) as [r|] eqn:Hr; simpl.
  - rewrite (Hf id r Hr). by apply sublist_skip.
  - by apply sublist_cons.
Qed.
Lemma claim_rows_ids now worker stale limit n d rows d' : db_ok n d ->
  ClaimWebhookDeliveries now worker stale limit d = inl (rows, d') ->
  (forall r, r ∈ rows -> cr_ID r ∈ claim_ids now stale limit d) /\ NoDup (cr_ID <$> rows).
Proof.
  intros Hok. pose proof (claim_ids_NoDup now stale limit n d Hok) as Hnd.
  unfold ClaimWebhookDeliveries. cbv zeta. case_match; [|done]. intros [= <- <-].
  match goal with |- context [omap ?f ?l] => assert (Hs : cr_ID <$> omap f l `sublist_of` l) end.
  { apply omap_keys. intros id r Hr. unfold lock_ids in Hr. rewrite lookup_fmap in Hr.
    destruct (deliveries d !! id) as [w|] eqn:Hw; [|done]. simpl in Hr.
    pose proof (do_id _ _ _ _ (ok_deliveries _ _ Hok id w Hw)) as Hi. unfold claim_row in Hr.
    destruct (delivery_joined d _) as [[ev e]|]; [|done]. injection Hr as <-. simpl. by case_match. }
  split; [|by eapply sublist_NoDup].
  intros r Hr. eapply elem_of_sublist; [|exact Hs]. by apply list_elem_of_fmap_2.
Qed.

(** Processes with one lock timeout and names of their own. *)
Context (cfg : nat -> DeliveryJobConfig) (T : Z).
Hypothesis same_timeout : forall p, LockTimeout (cfg p) = T.
Hypothesis own_names : forall p q, WorkerID (cfg p) = WorkerID (cfg q) -> p = q.

Definition since_of (ph : phase) : option Z :=
  match ph with Holding t _ | Answered t _ _ _ => Some t | Idle | Stopped => None end.
(** The rows a process still has to record, while its claim is not stale. *)
Definition live_rows (s : System) (p : nat) : list ClaimRow :=
  match since_of (phase_of s p) with
  | Some t => if s_now s <=? t + T then rows_of (phase_of s p) else []
  | None => []
  end.
Definition held_by (d : DB) (since : Z) (name : string) (id : UUID) : Prop :=
  exists w, deliveries d !! id = Some w
    /\ (wd_Lock w = Some (since, name) /\ is_open (wd_Status w) = true \/ wd_Status w = StatusCanceled).
Record lock_ok (s : System) : Prop := {
  lo_held : forall p t r, since_of (phase_of s p) = Some t -> r ∈ live_rows s p ->
    held_by (s_db s) t (WorkerID (cfg p)) (cr_ID r);
  lo_nodup : forall p, NoDup (cr_ID <$> rows_of (phase_of s p));
  lo_apart : forall p q r r', p <> q -> r ∈ live_rows s p -> r' ∈ live_rows s q -> cr_ID r <> cr_ID r';
}.

Lemma live_rows_inv s p r : r ∈ live_rows s p ->
  exists t, since_of (phase_of s p) = Some t /\ s_now s <= t + T /\ r ∈ rows_of (phase_of s p).
Proof.
  unfold live_rows. destruct (since_of _) as [t|]; [|by intros ?%not_elem_of_nil].
  destruct (Z.leb_spec (s_now s) (t + T)); [eauto|by intros ?%not_elem_of_nil].
Qed.
Lemma live_rows_intro s p t r : since_of (phase_of s p) = Some t -> s_now s <= t + T ->
  r ∈ rows_of (phase_of s p) -> r ∈ live_rows s p.
Proof. unfold live_rows. intros -> Ht. destruct (Z.leb_spec (s_now s) (t + T)); [done|lia]. Qed.

Lemma held_not_claimable n now at_ limit d t name id : db_ok n d -> held_by d t name id ->
  now <= t + T -> at_ <= now -> id ∉ claim_ids now (at_ - T) limit d.
Proof.
  intros Hok (w & Hw & Hh) Hn Ha Hin. apply claimed_is_claimable in Hin as (j & w' & Hj & Hid & Hc).
  rewrite (do_id _ _ _ _ (ok_deliveries _ _ Hok j w' Hj)) in Hid. subst j. simplify_eq.
  unfold claimable in Hc. rewrite !andb_true_iff in Hc. destruct Hc as [[[Ho _] _] Hl].
  destruct Hh as [[Hlock _]|Hs]; [|by rewrite Hs in Ho]. rewrite Hlock in Hl. apply Z.ltb_lt in Hl. lia.
Qed.
Lemma held_client next now d d' next' t name id : db_ok next d -> client now next d d' next' ->
  held_by d t name id -> held_by d' t name id.
Proof.
  intros Hok Hc (w & Hw & Hh). destruct (client_ok _ _ _ _ _ Hok Hc) as [_ Hg].
  destruct (gr_deliveries _ _ Hg id w Hw) as (w' & Hw' & _).
  destruct (client_deliveries _ _ _ _ _ _ _ Hok Hc Hw') as [(w0 & Hw0 & Hcd)|(Hn & _)].
  - simplify_eq. exists w'. split; [done|]. destruct Hcd as [|Ho|Hf]; [done|by right|].
    destruct Hh as [[_ Ho]|Hs]; [by rewrite Hf in Ho|congruence].
  - pose proof (do_next _ _ _ _ (ok_deliveries _ _ Hok id w Hw)). lia.
Qed.
Lemma held_claim n now at_ limit worker d rows d' t name id : db_ok n d -> held_by d t name id ->
  now <= t + T -> at_ <= now ->
  ClaimWebhookDeliveries now worker (at_ - T) limit d = inl (rows, d') -> held_by d' t name id.
Proof.
  intros Hok Hh Hn Ha Hc. destruct (ClaimWebhookDeliveries_ok _ n _ _ _ _ _ _ Hok Hc) as [_ Hg].
  pose proof Hh as (w & Hw & Hd). destruct (gr_deliveries _ _ Hg id w Hw) as (w' & Hw' & _).
  destruct (claim_deliveries _ _ _ _ _ _ _ _ _ Hc Hw') as (w0 & Hw0 & Hor). simplify_eq.
  exists w'. split; [done|]. destruct Hor as [-> |[_ Hin]]; [done|].
  rewrite (do_id _ _ _ _ (ok_deliveries _ _ Hok id _ Hw)) in Hin. exfalso.
  by apply (held_not_claimable n now at_ limit d t name id).
Qed.
Lemma held_record n c at_ row a now d w d' t name id : db_ok n d ->
  record c at_ row a now d = inl (w, d') -> (name = WorkerID c -> id <> cr_ID row) ->
  held_by d t name id -> held_by d' t name id.
Proof.
  intros Hok Hr Hne (w0 & Hw & Hh).
  destruct (record_inv _ _ _ _ _ _ _ _ _ Hok Hr) as (w1 & Hl & _ & _ & _ & Hd & _).
  apply locked_by_inv in Hl as [Hw1 [t1 Hl]]. exists w0. split; [|done]. rewrite Hd.
  rewrite lookup_insert_ne; [done|]. intros <-. simplify_eq.
  destruct Hh as [[Hl0 _]|Hs]; [rewrite Hl0 in Hl; simplify_eq; by apply Hne|].
  pose proof (do_lock _ _ _ _ (ok_deliveries _ _ Hok _ _ Hw)) as Hn. rewrite Hs in Hn. specialize (Hn eq_refl). congruence.
Qed.

(** A process's live rows after a step of another kind of process. *)
Lemma live_rows_later s s' p r : s_now s <= s_now s' -> phase_of s' p = phase_of s p ->
  r ∈ live_rows s' p -> r ∈ live_rows s p.
Proof.
  intros Hn Hp Hr. apply live_rows_inv in Hr as (t & Ht & Hle & Hin). rewrite Hp in *.
  eapply live_rows_intro; [done|lia|done].
Qed.
Lemma phase_of_set p ph s n d tr q :
  phase_of {| s_now := s_now s; s_next := n; s_db := d; s_tries := tr; s_procs := <[p := ph]> (s_procs s) |} q
  = if decide (p = q) then ph else phase_of s q.
Proof. unfold phase_of. simpl. apply (phase_of_insert s). Qed.

(** A step of [p] that leaves it some of its rows under the same claim. *)
Lemma lock_ok_shrink s p ph n' d' tr : lock_ok s ->
  (forall t, since_of ph = Some t -> since_of (phase_of s p) = Some t) ->
  rows_of ph `sublist_of` rows_of (phase_of s p) ->
  (forall q t r, since_of (phase_of s q) = Some t -> r ∈ live_rows s q -> (q = p -> r ∈ rows_of ph) ->
     held_by (s_db s) t (WorkerID (cfg q)) (cr_ID r) -> held_by d' t (WorkerID (cfg q)) (cr_ID r)) ->
  lock_ok {| s_now := s_now s; s_next := n'; s_db := d'; s_tries := tr; s_procs := <[p := ph]> (s_procs s) |}.
Proof.
  intros [H1 H2 H3] Hsince Hsub Hheld. set (s' := Build_System _ _ _ _ _).
  assert (Hph : forall q, phase_of s' q = if decide (p = q) then ph else phase_of s q) by (intros; apply phase_of_set).
  assert (Hlive : forall q r, r ∈ live_rows s' q -> r ∈ live_rows s q /\ (q = p -> r ∈ rows_of ph)
      /\ since_of (phase_of s' q) = since_of (phase_of s q)).
  { intros q r Hr. pose proof (live_rows_inv _ _ _ Hr) as (t & Ht & Hle & Hin). rewrite Hph in *.
    case_decide as Heq; [subst q|].
    - split_and!; [|done|by rewrite Ht, (Hsince t)].
      eapply live_rows_intro; [by apply Hsince|exact Hle|]. by eapply elem_of_sublist.
    - split_and!; [by eapply live_rows_intro|intros ->; congruence|done]. }
  split.
  - intros q t r Ht Hr. destruct (Hlive q r Hr) as (Hl & Hin & Hs). rewrite Hs in Ht. apply Hheld; [done..|]. by apply H1.
  - intros q. rewrite Hph. case_decide; [|done]. eapply sublist_NoDup; [apply (H2 p)|]. clear -Hsub.
    induction Hsub; simpl; [constructor|by apply sublist_skip|by apply sublist_cons].
  - intros q1 q2 r r' Hne Hr Hr'. apply (H3 q1 q2); [done|by apply Hlive|by apply Hlive].
Qed.

Lemma lock_ok_step s s' : step cfg s s' -> sys_ok s -> lock_ok s -> lock_ok s'.
Proof.
  intros [s0 t Ht|s0 d' n' Hcl|s0 p at_ rows d' Hp Hat Hc|s0 p since row rest a Hp
         |s0 p since row a rest at_ w d' ph Hp Hr Hph|s0 p since row a rest Hp|s0 p] Hsys Hok.
  - destruct Hok as [H1 H2 H3]. split; [|done|].
    + intros p u r Hu Hr. apply H1; [done|]. apply (live_rows_later s0) in Hr; [done|simpl; lia|done].
    + intros p q r r' Hne Hr Hr'. apply (live_rows_later s0) in Hr, Hr'; simpl; try lia; try done. by apply (H3 p q).
  - destruct Hok as [H1 H2 H3]. split; [|done|done]. intros p u r Hu Hr.
    apply (held_client (s_next s0) (s_now s0) (s_db s0) d' n'); [apply (so_db _ Hsys)|done|]. by apply H1.
  - rewrite same_timeout in Hc. destruct (claim_rows_ids _ _ _ _ _ _ _ _ (so_db _ Hsys) Hc) as [Hids Hnd].
    pose proof (claim_rows_ok _ _ _ _ _ _ _ _ (so_db _ Hsys) Hc) as Hrows. rewrite Forall_forall in Hrows.
    destruct Hok as [H1 H2 H3].
    assert (Hph : forall q, phase_of (set_phase p (Holding (s_now s0) rows) d' s0) q
      = if decide (p = q) then Holding (s_now s0) rows else phase_of s0 q) by (intros; apply phase_of_set).
    assert (Hold : forall q r, p <> q -> r ∈ live_rows (set_phase p (Holding (s_now s0) rows) d' s0) q ->
      r ∈ live_rows s0 q).
    { intros q r Hne. apply live_rows_later; [simpl; lia|]. by rewrite Hph, decide_False. }
    assert (Hnew : forall r, r ∈ live_rows (set_phase p (Holding (s_now s0) rows) d' s0) p -> r ∈ rows).
    { intros r Hr. apply live_rows_inv in Hr as (t & _ & _ & Hr). by rewrite Hph, decide_True in Hr. }
    assert (Hap : forall q r r', p <> q -> r ∈ rows -> r' ∈ live_rows s0 q -> cr_ID r <> cr_ID r').
    { intros q r r' Hne Hr Hr' Heq. pose proof (live_rows_inv _ _ _ Hr') as (t & Ht & Hle & _).
      apply (held_not_claimable (s_next s0) (s_now s0) at_ (BatchSize (cfg p)) (s_db s0) t (WorkerID (cfg q)) (cr_ID r'));
        [apply (so_db _ Hsys)|by apply H1|done|done|]. rewrite <- Heq. by apply Hids. }
    split.
    + intros q t r Ht Hr. destruct (decide (p = q)) as [<-|Hne].
      * rewrite Hph, decide_True in Ht by done. injection Ht as <-. apply Hnew, Hrows in Hr as (_ & w & Hw & Hl & Ho & _).
        exists w. split; [done|]. by left.
      * rewrite Hph, decide_False in Ht by done. pose proof (Hold q r Hne Hr) as Hr0.
        pose proof (live_rows_inv _ _ _ Hr0) as (t' & Ht' & Hle & _). simplify_eq.
        apply (held_claim (s_next s0) (s_now s0) at_ (BatchSize (cfg p)) (WorkerID (cfg p)) (s_db s0) rows);
          [apply (so_db _ Hsys)|by apply H1|done..].
    + intros q. rewrite Hph. by case_decide.
    + intros q1 q2 r r' Hne Hr Hr'. destruct (decide (p = q1)) as [<-|N1]; [|destruct (decide (p = q2)) as [<-|N2]].
      * apply (Hap q2); [done|by apply Hnew|by apply Hold].
      * intros Heq. symmetry in Heq. revert Heq. apply (Hap q1); [done|by apply Hnew|by apply Hold].
      * apply (H3 q1 q2); [done|by apply Hold|by apply Hold].
  - apply (lock_ok_shrink s0); [done|by rewrite Hp|by rewrite Hp|]. done.
  - pose proof (lo_nodup _ Hok p) as Hnd. rewrite Hp in Hnd. simpl in Hnd. rewrite NoDup_cons in Hnd.
    apply (lock_ok_shrink s0); [done|rewrite Hp; by destruct Hph as [-> | ->]| |].
    + rewrite Hp. destruct Hph as [-> | ->]; simpl; [by apply sublist_cons|apply sublist_nil_l].
    + intros q t r Ht Hin Hq. apply (held_record (s_next s0) (cfg p) at_ row a (s_now s0) _ w); [apply (so_db _ Hsys)|done|].
      intros Hname%own_names. subst q. intros Heq. apply (proj1 Hnd). rewrite <- Heq. apply list_elem_of_fmap_2.
      specialize (Hq eq_refl). destruct Hph as [-> | ->]; [done|by apply not_elem_of_nil in Hq].
  - apply (lock_ok_shrink s0); [done|done|apply sublist_nil_l|done].
  - apply (lock_ok_shrink s0); [done|done|apply sublist_nil_l|done].
Qed.

(** Worker processes with names of their own and one lock timeout never work on the
    same delivery at the same time, as long as each records the outcome of a
    delivery within the lock timeout of its claim. *)
Theorem live_claims_are_disjoint orgs now next s p q r r' :
  rtc (step cfg) (start orgs now next) s -> p <> q ->
  r ∈ live_rows s p -> r' ∈ live_rows s q -> cr_ID r <> cr_ID r'.
Proof.
  intros Hr Hne Hp Hq.
  assert (sys_ok s /\ lock_ok s) as [_ Hok].
  { apply (rtc_invariant (step cfg) (fun s => sys_ok s /\ lock_ok s) (start orgs now next)); [| |done].
    - split; [apply sys_ok_start|]. split; intros ? *; unfold live_rows, phase_of; simpl; rewrite lookup_empty; simpl;
        [intros _ ?%not_elem_of_nil|constructor|intros _ ?%not_elem_of_nil]; done.
    - intros a b Hab [Hs Hl]. split; [by eapply sys_ok_step|by eapply lock_ok_step]. }
  by apply (lo_apart s Hok p q).
Qed.
End Locks.
End WebhookSafety.
