(* ===== verification/WebhookOutcomes.v ===== *)
(** * What one webhook operation does

    The outcome of a pass of the delivery worker when every call succeeds, the
    answers and deletions that stop the worker, the ingestion of an event that is
    delivered twice, and the creation of a disabled endpoint. *)

From S2P Require Import Prelude Outbox Routing Webhooks WebhookDelivery WebhookSafety.
Import Webhooks WebhookDelivery WebhookSafety.
Local Open Scope Z_scope.

Module WebhookOutcomes.

(** ** Statements through the repository *)
Lemma statement_calm {A} (f : Z -> DB -> result (A * DB)) w : w_faults w = [] ->
  exec f w = match f (w_now w) (w_db w) with
             | inl (a, d) => (inl a, with_db d w) | inr e => (inr e, w) end.
Proof. intros Hf. unfold exec, ext. simpl. by rewrite Hf. Qed.
Lemma statement_ok {A} (f : Z -> DB -> result (A * DB)) w a w' : exec f w = (inl a, w') ->
  f (w_now w) (w_db w) = inl (a, w_db w') /\ w_now w' = w_now w.
Proof.
  unfold exec, ext. destruct (get_faults w) as [|[] fs]; try done; simpl;
    destruct (f _ _) as [[a' d]|e]; try done; by intros [= <- <-].
Qed.
Lemma query_ok {A} (f : DB -> result A) w a w' : query f w = (inl a, w') ->
  f (w_db w) = inl a /\ w_db w' = w_db w /\ w_now w' = w_now w.
Proof.
  intros (fs & H)%ext_ok. by destruct (get_faults w); injection H as H <-.
Qed.
Lemma wrap_ok {W A} f (m : M W A) w a w' : wrap f m w = (inl a, w') -> m w = (inl a, w').
Proof. unfold wrap. destruct (m w) as [[]]; congruence. Qed.
Lemma lift_ok {W A} (r : result A) (w : W) a w' : lift r w = (inl a, w') -> r = inl a /\ w' = w.
Proof. unfold lift. by intros [= -> ->]. Qed.

Section Worker.
Context {L : WebhookLib} {U : UuidLib} (c : DeliveryJobConfig).
Context (cancelled : World -> bool) (sender : ClaimRow -> M World DeliveryAttempt).

(** ** What stops the worker *)
Lemma deliver_error row rest w a w1 e : cancelled w = false -> sender row w = (inl a, w1) -> w_faults w1 = [] ->
  record c (w_now w1) row a (w_now w1) (w_db w1) = inr e ->
  deliver c cancelled sender (row :: rest) w
    = (inr (Wrapf (record_error c row a) [uuid_String (cr_ID row)] e), w1).
Proof.
  intros Hc Hs Hf Hr. cbn [deliver]. rewrite (bind_eq _ _ w false w) by (unfold gets; by rewrite Hc).
  rewrite (bind_eq _ _ _ _ _ Hs), (bind_eq _ _ w1 (w_now w1) w1) by done.
  apply bind_err. unfold wrap. by rewrite statement_calm, Hr.
Qed.

Lemma record_unlocked at_ row a now d : locked_by (cr_ID row) (WorkerID c) d = None ->
  record c at_ row a now d = no_rows.
Proof.
  intros Hl. unfold record, MarkWebhookDeliverySucceeded, ScheduleWebhookDeliveryRetry, MarkWebhookDeliveryFailed.
  by destruct (verdict_of c row a); rewrite Hl.
Qed.

(** Deleting an endpoint unlocks its open deliveries. *)
Lemma Delete_unlocks org id w w' n j d : Delete org id w = (inl tt, w') -> db_ok n (w_db w) ->
  deliveries (w_db w) !! j = Some d -> wd_EndpointID d = id -> is_open (wd_Status d) = true ->
  deliveries (w_db w') !! j = Some (cancel_row (w_now w) d).
Proof.
  unfold Delete. intros Hd Hok Hj Hid Ho.
  apply bind_ok in Hd as ([] & w1 & Hv & Hd). apply lift_ok in Hv as [_ ->].
  apply bind_ok in Hd as (e & w2 & Hg & Hd). unfold Get in Hg.
  apply bind_ok in Hg as ([] & w1' & Hv & Hg). apply lift_ok in Hv as [_ ->].
  apply wrap_ok, query_ok in Hg as (Hg & Hdb2 & Hn2).
  apply bind_ok in Hd as ([] & w3 & Hdis & Hcan). apply wrap_ok, statement_ok in Hdis as [Hdis Hn3].
  apply wrap_ok, statement_ok in Hcan as [Hcan _].
  unfold GetWebhookEndpointByID in Hg. destruct (endpoints (w_db w) !! id) as [e0|] eqn:He; [|done].
  case_match eqn:Hact; [|done]. injection Hg as <-. apply andb_true_iff in Hact as [Horg%bool_decide_eq_true _].
  rewrite Hn2, Hdb2 in Hdis.
  assert (deliveries (w_db w3) = deliveries (w_db w) /\ exists e3, endpoints (w_db w3) !! id = Some e3 /\ ep_OrganizationID e3 = org)
    as [Hd3 (e3 & He3 & Ho3)].
  { unfold DisableWebhookEndpoint in Hdis. apply ignore_no_rows_inv in Hdis as [[a Hup]| ->]; [|eauto].
    unfold update_endpoint in Hup. rewrite He in Hup. case_match; [|done].
    apply put_endpoint_inv in Hup as (_ & _ & ->). simpl. split; [done|].
    pose proof (ok_endpoints _ _ Hok _ _ He) as [-> _]. rewrite lookup_insert_eq. eauto. }
  unfold CancelWebhookDeliveriesForEndpoint in Hcan. rewrite He3 in Hcan. rewrite bool_decide_eq_true_2 in Hcan by done.
  injection Hcan as Hcan. rewrite <- Hcan. simpl. rewrite lookup_fmap, Hd3, Hj. simpl.
  rewrite Hid, bool_decide_eq_true_2, Ho by done. simpl. by rewrite Hn3, Hn2.
Qed.

(** When the endpoint of a delivery is deleted while the delivery is being sent, the
    worker that sends it cannot record the outcome, whatever the answer was: the
    statement updates no row, [deliverBatch] returns that as an error and with it
    the worker stops, leaving the rest of its batch locked. *)
Theorem delete_in_flight_stops_worker org row rest w a w0 w1 n d :
  cancelled w = false -> sender row w = (inl a, w1) ->
  Delete org (cr_EndpointID row) w0 = (inl tt, w1) -> w_faults w1 = [] ->
  db_ok n (w_db w0) -> deliveries (w_db w0) !! cr_ID row = Some d ->
  wd_EndpointID d = cr_EndpointID row -> is_open (wd_Status d) = true ->
  exists e, deliver c cancelled sender (row :: rest) w = (inr e, w1) /\ errors_Is e ErrNoRows = true.
Proof.
  intros Hc Hs Hdel Hf Hok Hd He Ho. pose proof (Delete_unlocks _ _ _ _ _ _ _ Hdel Hok Hd He Ho) as Hj.
  assert (Hl : locked_by (cr_ID row) (WorkerID c) (w_db w1) = None) by (unfold locked_by; by rewrite Hj).
  pose proof (record_unlocked (w_now w1) row a (w_now w1) (w_db w1) Hl) as Hr.
  rewrite (deliver_error row rest w a w1 _ Hc Hs Hf Hr). by eexists.
Qed.

(** *** Answers that cannot be recorded *)
Definition unrecordable (a : DeliveryAttempt) : Prop :=
  (exists s, StatusCode a = Some s /\ (s < 100 \/ 599 < s)) \/ (exists b, Body a = Some b /\ is_text b = false).
Lemma settle_unrecordable now s at_ a err dl w : unrecordable a ->
  delivery_row_ok (settle now s at_ (StatusCode a) (Body a) err dl w) = false.
Proof.
  intros H. unfold delivery_row_ok. simpl. destruct H as [(st & -> & Hst)|(b & -> & Hb)].
  - assert ((100 <=? st) && (st <=? 599) = false) as ->; [|by rewrite andb_false_r].
    destruct Hst as [?|?]; [apply andb_false_iff; left|apply andb_false_iff; right]; apply Z.leb_gt; lia.
  - simpl. rewrite Hb, andb_false_r. done.
Qed.
Lemma record_unrecordable at_ row a now d : unrecordable a -> exists e, record c at_ row a now d = inr e.
Proof.
  intros Hu. destruct (locked_by (cr_ID row) (WorkerID c) d) as [w|] eqn:Hl; [|exists (Sentinel ErrNoRows); by apply record_unlocked].
  exists (violates "webhook_deliveries").
  unfold record, MarkWebhookDeliverySucceeded, ScheduleWebhookDeliveryRetry, MarkWebhookDeliveryFailed, put_delivery.
  by destruct (verdict_of c row a); rewrite Hl, settle_unrecordable.
Qed.

(** An endpoint that answers with a status above 599 (or below 100), or with a body
    that is not UTF-8 text without NUL in its first 4096 bytes, stops the worker:
    the outcome violates the table's constraints, nothing is recorded, and the
    delivery is claimed again after the lock timeout. *)
Theorem unrecordable_answer_stops_worker row rest w a w1 :
  cancelled w = false -> sender row w = (inl a, w1) -> w_faults w1 = [] -> unrecordable a ->
  exists e, deliver c cancelled sender (row :: rest) w = (inr e, w1).
Proof.
  intros Hc Hs Hf Hu. destruct (record_unrecordable (w_now w1) row a (w_now w1) (w_db w1) Hu) as [e He].
  rewrite (deliver_error row rest w a w1 e Hc Hs Hf He). by eexists.
Qed.
End Worker.

(** ** A pass of the worker when every call succeeds *)
Section Pass.
Context {L : WebhookLib} {U : UuidLib} (c : DeliveryJobConfig) (answer : ClaimRow -> DeliveryAttempt).
(** The sender answers at once, and no client runs meanwhile. *)
Definition ask (row : ClaimRow) : M World DeliveryAttempt := ret (answer row).
Definition never (_ : World) : bool := false.

Definition recordable (a : DeliveryAttempt) : Prop :=
  match StatusCode a with Some s => 100 <= s <= 599 | None => True end
  /\ opt_text (Body a) = true /\ is_text (attemptError a) = true.

(** The outcome of an attempt, as the delivery keeps it. *)
Definition settled (now : Z) (d : DB) (r : ClaimRow) : Prop :=
  exists w, deliveries d !! cr_ID r = Some w /\ wd_Lock w = None
    /\ wd_Status w = settled_as (verdict_of c r (answer r))
    /\ wd_ResponseStatus w = StatusCode (answer r) /\ wd_ResponseBody w = Body (answer r)
    /\ (verdict_of c r (answer r) = Again -> wd_NextAttemptAt w = now + retryDelay c (cr_AttemptCount r)).

(** Room for more failures: the counter is a 32-bit column. *)
Definition room (k : Z) (d : DB) : Prop :=
  map_Forall (fun _ e => ep_ConsecutiveFailures e + k <= max_int32) (endpoints d).

Lemma settle_row_ok now s at_ a err dl w : delivery_row_ok w = true -> recordable a -> opt_text err = true ->
  (s = StatusSucceeded -> is_Some dl) ->
  delivery_row_ok (settle now s at_ (StatusCode a) (Body a) err dl w) = true.
Proof.
  intros Hw (Hs & Hb & _) He Hd. unfold delivery_row_ok in *. rewrite !andb_true_iff in *. simpl.
  destruct Hw as [[[[[? ?] _] _] _] _]. split_and!; try done.
  - destruct (StatusCode a); [|done]. rewrite andb_true_iff, !Z.leb_le. lia.
  - destruct (decide (s = StatusSucceeded)); [|by rewrite bool_decide_eq_false_2].
    rewrite (bool_decide_eq_true_2 (is_Some dl)); [by rewrite orb_true_r|auto].
Qed.

Lemma with_health_row_ok now en di re fa la e : endpoint_row_ok e = true -> (en = true <-> di = None) ->
  0 <= fa <= max_int32 -> (re ∈ [None; Some "manual"; Some "failure_threshold"]%string) ->
  endpoint_row_ok (with_health now en di re fa la e) = true.
Proof.
  unfold endpoint_row_ok. rewrite !andb_true_iff. simpl. intros He Hd Hf Hr.
  destruct He as [[[[[[[[[? ?] ?] ?] ?] ?] ?] ?] ?] ?]. split_and!; try done.
  - by apply bool_decide_eq_true_2.
  - apply Z.leb_le. lia.
  - unfold is_integer, max_int32 in *. rewrite andb_true_iff, !Z.leb_le. lia.
  - by apply bool_decide_eq_true_2.
Qed.
Lemma count_failure_row_ok now k e : endpoint_row_ok e = true -> ep_ConsecutiveFailures e + 1 <= max_int32 ->
  endpoint_row_ok (count_failure now k e) = true.
Proof.
  intros He Hf. pose proof He as Hr. unfold endpoint_row_ok in Hr.
  rewrite !andb_true_iff, !bool_decide_eq_true, !Z.leb_le in Hr. unfold count_failure. cbv zeta.
  destruct Hr as [[[[_ Hd] H0] _] Hre].
  apply with_health_row_ok; [done| |lia|].
  - case_match; [by split|done].
  - case_match; [set_solver|done].
Qed.

(** One outcome recorded. *)
Lemma record_settles n now d r w k : db_ok n d -> room (k + 1) d -> 0 <= k ->
  locked_by (cr_ID r) (WorkerID c) d = Some w -> recordable (answer r) ->
  exists w' d', record c now r (answer r) now d = inl (w', d')
    /\ deliveries d' = <[cr_ID r := w']> (deliveries d) /\ settled now d' r /\ db_ok n d' /\ room k d'.
Proof.
  intros Hok Hroom Hk Hl Hrec. pose proof (locked_by_inv _ _ _ _ Hl) as [Hw _].
  pose proof (do_row _ _ _ _ (ok_deliveries _ _ Hok _ _ Hw)) as Hrow.
  pose proof (do_id _ _ _ _ (ok_deliveries _ _ Hok _ _ Hw)) as Hid.
  pose proof Hrec as (_ & _ & Herr).
  assert (Hroom' : room k d) by (intros j e He; specialize (Hroom j e He); simpl in *; lia).
  assert (exists w' d', record c now r (answer r) now d = inl (w', d') /\ wd_ResponseStatus w' = StatusCode (answer r)
    /\ wd_ResponseBody w' = Body (answer r)
    /\ (verdict_of c r (answer r) = Again -> wd_NextAttemptAt w' = now + retryDelay c (cr_AttemptCount r))
    /\ room k d') as (w' & d' & Hr & H1 & H2 & H3 & H4).
  { unfold record. destruct (verdict_of c r (answer r)).
    - unfold MarkWebhookDeliverySucceeded. rewrite Hl. unfold put_delivery. rewrite settle_row_ok by done. simpl.
      destruct (endpoints d !! wd_EndpointID w) as [e|] eqn:He; [|by do 2 eexists].
      case_match eqn:Hen; [|by do 2 eexists]. unfold put_endpoint.
      pose proof (ok_endpoints _ _ Hok _ _ He) as [Hei Her].
      rewrite with_health_row_ok; [simpl|done| |unfold max_int32; lia|set_solver].
      + do 2 eexists. split_and!; [done|done|done|done|]. apply map_Forall_insert_2; [|done]. simpl.
        specialize (Hroom' _ _ He). simpl in Hroom'.
        pose proof Her as Hr. unfold endpoint_row_ok in Hr. rewrite !andb_true_iff, !Z.leb_le in Hr. lia.
      + unfold endpoint_row_ok in Her. rewrite !andb_true_iff, !bool_decide_eq_true in Her. tauto.
    - unfold ScheduleWebhookDeliveryRetry. rewrite Hl. unfold put_delivery. rewrite settle_row_ok by done. by do 2 eexists.
    - unfold MarkWebhookDeliveryFailed. rewrite Hl. unfold put_delivery. rewrite settle_row_ok by done. simpl.
      destruct (endpoints d !! wd_EndpointID w) as [e|] eqn:He; [|by do 2 eexists]. unfold put_endpoint.
      pose proof (ok_endpoints _ _ Hok _ _ He) as [Hei Her]. pose proof (Hroom _ _ He) as Hro. simpl in Hro.
      rewrite count_failure_row_ok by (done || lia). simpl.
      do 2 eexists. split_and!; [done|done|done|done|]. apply map_Forall_insert_2; [|done]. simpl. lia. }
  destruct (record_inv _ _ _ _ _ _ _ _ _ Hok Hr) as (w0 & _ & _ & Hst & Hlk & Hd & Hdb & _).
  exists w', d'. split_and!; [done|done| |done|done]. exists w'. rewrite Hd, lookup_insert_eq. by split_and!.
Qed.

Lemma deliver_settles n rows : forall w, w_faults w = [] -> db_ok n (w_db w) ->
  room (Z.of_nat (length rows)) (w_db w) -> NoDup (cr_ID <$> rows) ->
  Forall (fun r => is_Some (locked_by (cr_ID r) (WorkerID c) (w_db w))) rows ->
  Forall (fun r => recordable (answer r)) rows ->
  exists d', deliver c never ask rows w = (inl tt, with_db d' w)
    /\ Forall (settled (w_now w) d') rows
    /\ forall id, id ∉ cr_ID <$> rows -> deliveries d' !! id = deliveries (w_db w) !! id.
Proof.
  induction rows as [|r rows IH]; intros w Hf Hok Hroom Hnd Hl Hrec.
  { exists (w_db w). by destruct w. }
  rewrite fmap_cons, NoDup_cons in Hnd. destruct Hnd as [Hr Hnd].
  pose proof (Forall_inv Hl) as [wd Hw]. pose proof (Forall_inv Hrec) as Hr1.
  destruct (record_settles n (w_now w) (w_db w) r wd (Z.of_nat (length rows))) as (w' & d1 & Hrd & Hd1 & Hs1 & Hok1 & Hroom1);
    [done| |lia|done|done|].
  { intros j e He. specialize (Hroom j e He). simpl in *. lia. }
  destruct (IH (with_db d1 w)) as (d2 & Hd & Hs & Hrest); [done|done|done|done| | |].
  { apply Forall_inv_tail in Hl. rewrite Forall_forall in Hl |- *. intros r' Hr'. specialize (Hl r' Hr').
    unfold locked_by in *. simpl. rewrite Hd1, lookup_insert_ne; [done|]. intros Heq. apply Hr. rewrite Heq.
    by apply list_elem_of_fmap_2. }
  { by apply Forall_inv_tail in Hrec. }
  exists d2. simpl in Hrest. split_and!.
  - cbn [deliver]. rewrite (bind_eq _ _ w false w) by done. rewrite (bind_eq _ _ w (answer r) w) by done.
    rewrite (bind_eq _ _ w (w_now w) w) by done.
    rewrite (bind_eq _ _ w w' (with_db d1 w)); [exact Hd|]. unfold wrap. by rewrite statement_calm, Hrd.
  - constructor; [|done]. destruct Hs1 as (x & Hx & ?). exists x. by rewrite Hrest.
  - intros id Hid. rewrite fmap_cons, not_elem_of_cons in Hid. rewrite Hrest by tauto. rewrite Hd1.
    rewrite lookup_insert_ne; [done|]. intros Heq. by apply (proj1 Hid).
Qed.

Lemma locked_row_ok now worker w : delivery_row_ok w = true -> wd_AttemptCount w < max_int32 ->
  delivery_row_ok (lock_delivery now worker w) = true.
Proof.
  unfold delivery_row_ok, is_integer, max_int32. rewrite !andb_true_iff, !Z.leb_le. simpl.
  intros [[[[[? [? ?]] ?] ?] ?] ?] ?. split_and!; (done || lia).
Qed.
Lemma omap_all {A} (key : A -> UUID) (f : UUID -> option A) (ids : list UUID) :
  Forall (fun id => exists r, f id = Some r /\ key r = id) ids -> key <$> omap f ids = ids.
Proof. induction 1 as [|id ids (r & Hr & Hk) _ IH]; simpl; [done|]. rewrite Hr. simpl. by f_equal. Qed.

Lemma claim_calm n now worker stale limit d : db_ok n d ->
  map_Forall (fun _ x => wd_AttemptCount x < max_int32) (deliveries d) ->
  exists rows, ClaimWebhookDeliveries now worker stale limit d
      = inl (rows, set_deliveries (lock_ids now worker (claim_ids now stale limit d) (deliveries d)) d)
    /\ cr_ID <$> rows = claim_ids now stale limit d.
Proof.
  intros Hok Hatt.
  assert (Hids : forall id, id ∈ claim_ids now stale limit d -> exists w, deliveries d !! id = Some w
    /\ lock_ids now worker (claim_ids now stale limit d) (deliveries d) !! id = Some (lock_delivery now worker w)
    /\ wd_ID w = id /\ delivery_row_ok (lock_delivery now worker w) = true).
  { intros id Hid. destruct (claimed_is_claimable _ _ _ _ _ Hid) as (j & w & Hj & Hi & _).
    pose proof (ok_deliveries _ _ Hok j w Hj) as [Hij _ Hrow _ _].
    assert (j = id) as -> by congruence. exists w. split_and!; [done| |done|apply locked_row_ok; [done|by apply (Hatt id)]].
    unfold lock_ids. rewrite lookup_fmap, Hj. simpl. rewrite Hij, bool_decide_eq_true_2; done. }
  unfold ClaimWebhookDeliveries. cbv zeta.
  match goal with |- context [forallb ?f ?l] => assert (forallb f l = true) as -> end.
  { apply forallb_forall. intros id Hid%list_elem_of_In. destruct (Hids id Hid) as (w & _ & -> & _ & Hrow). done. }
  eexists. split; [reflexivity|]. apply omap_all, Forall_forall. intros id Hid.
  destruct (Hids id Hid) as (w & Hw & -> & Hi & _). simpl.
  pose proof (do_tenant _ _ _ _ (ok_deliveries _ _ Hok id w Hw)) as (ev & e & Hev & He & _).
  unfold claim_row, delivery_joined. simpl. rewrite Hev, He. eexists. split; [reflexivity|done].
Qed.

(** When every call succeeds and the outcomes are recordable, [deliverBatch] claims the
    due deliveries, at most its batch size of them, and settles each: succeeded on a
    2xx answer, retrying after the delay of its attempt on a retryable one while
    attempts are left, failed otherwise. Nothing else changes among deliveries. *)
Theorem deliverBatch_settles n w : w_faults w = [] -> db_ok n (w_db w) -> 0 <= BatchSize c ->
  room (BatchSize c) (w_db w) ->
  map_Forall (fun _ x => wd_AttemptCount x < max_int32) (deliveries (w_db w)) ->
  (forall r, recordable (answer r)) ->
  exists rows d', deliverBatch c never ask w = (inl tt, with_db d' w)
    /\ cr_ID <$> rows = claim_ids (w_now w) (w_now w - LockTimeout c) (BatchSize c) (w_db w)
    /\ Forall (settled (w_now w) d') rows
    /\ forall id, id ∉ cr_ID <$> rows -> deliveries d' !! id = deliveries (w_db w) !! id.
Proof.
  intros Hf Hok Hb Hroom Hatt Hrec.
  destruct (claim_calm n (w_now w) (WorkerID c) (w_now w - LockTimeout c) (BatchSize c) (w_db w) Hok Hatt)
    as (rows & Hc & Hids).
  pose proof (claim_rows_ok _ _ _ _ _ _ _ _ Hok Hc) as Hrows.
  destruct (ClaimWebhookDeliveries_ok _ _ _ _ _ _ _ _ Hok Hc) as [Hok1 _].
  set (d1 := set_deliveries _ _) in Hc, Hrows, Hok1.
  assert (Hlen : Z.of_nat (length rows) <= BatchSize c).
  { rewrite <- (length_fmap cr_ID), Hids. unfold claim_ids. rewrite length_take. lia. }
  destruct (deliver_settles n rows (with_db d1 w)) as (d' & Hd & Hs & Hrest); [done|done| | | | |].
  - intros j e He. specialize (Hroom j e He). simpl in *. lia.
  - rewrite Hids. by eapply claim_ids_NoDup.
  - eapply Forall_impl; [exact Hrows|]. intros r (_ & x & Hx & Hl & _). unfold locked_by.
    change (w_db (with_db d1 w)) with d1. rewrite Hx, Hl, decide_True by done. eauto.
  - by apply Forall_forall.
  - exists rows, d'. split_and!; [|done|done|].
    + unfold deliverBatch. rewrite (bind_eq _ _ w (w_now w) w) by done.
      rewrite (bind_eq _ _ w rows (with_db d1 w)); [exact Hd|].
      unfold wrap, ClaimDeliveries. rewrite statement_calm by done. by rewrite Hc.
    + intros id Hid. rewrite Hrest by done. simpl. unfold lock_ids. rewrite lookup_fmap.
      destruct (deliveries (w_db w) !! id) as [x|] eqn:Hx; [|done]. simpl.
      rewrite (do_id _ _ _ _ (ok_deliveries _ _ Hok id x Hx)). by rewrite bool_decide_eq_false_2 by (by rewrite <- Hids).
Qed.
End Pass.

(** ** Ingestion *)
Section Ingestion.
Context {L : WebhookLib} {U : UuidLib}.

Lemma org_active_grows_event now ev d e d' n org : db_ok n d -> CreateWebhookEvent now ev d = inl (e, d') ->
  org_active org d' = org_active org d.
Proof.
  intros Hok H. apply (CreateWebhookEvent_ok now n) in H; [|done].
  unfold org_active. by destruct H as (_ & _ & _ & _ & _ & -> & _).
Qed.
(** An event that exists conflicts, whatever its time of creation. *)
Lemma CreateWebhookEvent_again now now' event d d' :
  (exists e d1, CreateWebhookEvent now (event_params event now) d = inl (e, d1))
    \/ CreateWebhookEvent now (event_params event now) d = no_rows ->
  is_Some (events d' !! ie_ID event) ->
  CreateWebhookEvent now' (event_params event now') d' = no_rows.
Proof.
  unfold CreateWebhookEvent. simpl. intros H He. rewrite (bool_decide_eq_true_2 (is_Some (events d' !! _)) He).
  destruct (jsonb (ie_Payload event)); [|by destruct H as [(? & ? & ?)|?]].
  do 4 (case_match; [by destruct H as [(? & ? & ?)|?]|]). done.
Qed.

(** What a call without failures did. *)
Definition event_stored (event : InboundEvent) (now : Z) (d d1 : DB) : Prop :=
  (exists e, CreateWebhookEvent now (event_params event now) d = inl (e, d1))
  \/ CreateWebhookEvent now (event_params event now) d = no_rows /\ d1 = d
     /\ exists ex, GetWebhookEvent (ie_OrganizationID event) (ie_ID event) d = inl ex
          /\ we_EventType ex = ie_EventType event /\ we_ObjectType ex = ie_ObjectType event.

Lemma create_event_calm event d w : w_faults w = [] ->
  (forall d1, event_stored event (w_now w) d d1 -> create_event event d w = (inl d1, w))
  /\ (forall d1 w1, create_event event d w = (inl d1, w1) -> event_stored event (w_now w) d d1 /\ w1 = w).
Proof.
  intros Hf. unfold create_event, event_stored.
  rewrite (bind_eq _ _ w (CreateWebhookEvent (w_now w) (event_params event (w_now w)) d) w)
    by (unfold attempt, ext; simpl; by rewrite Hf).
  destruct (CreateWebhookEvent _ _ d) as [[e d0]|err] eqn:Hc.
  - split; [intros d1 [[e' [= <- <-]]|[? _]]; done|]. intros d1 w1 [= <- <-]. eauto.
  - destruct (errors_Is err ErrNoRows) eqn:Hn; simpl.
    + rewrite (bind_eq _ _ w tt w) by done.
      destruct (GetWebhookEvent (ie_OrganizationID event) (ie_ID event) d) as [ex|e2] eqn:Hg.
      * rewrite (bind_eq _ _ w ex w) by (unfold wrap, ext; simpl; by rewrite Hf). split.
        -- intros d1 [[e' ?]|(_ & -> & ex' & [= <-] & -> & ->)]; [done|]. by rewrite !bool_decide_eq_true_2.
        -- intros d1 w1. destruct (negb _ || negb _) eqn:Hne; simpl; [done|]. intros [= <- <-].
           rewrite orb_false_iff, !negb_false_iff, !bool_decide_eq_true in Hne. split; [|done]. right.
           assert (err = Sentinel ErrNoRows) as ->.
           { revert Hc Hn. unfold CreateWebhookEvent, no_rows, violates. destruct (jsonb _); [|intros [= <-]; done].
             do 4 (case_match; [intros [= <-]; done|]). case_match; [intros [= <-]; done|].
             case_match; [intros [= <-]; done|done]. }
           split_and!; [done|done|]. exists ex. tauto.
      * rewrite (bind_err _ _ w (Wrapf "get existing webhook event: %w" [] e2) w)
          by (unfold wrap, ext; simpl; by rewrite Hf).
        split; [|done]. intros d1 [[e' ?]|(_ & _ & ex' & ? & _)]; done.
    + split; [|done]. intros d1 [[e' ?]|([= ->] & _)]; done.
Qed.

Lemma Ingest_calm event w w1 : w_faults w = [] -> Ingest true event w = (inl tt, w1) ->
  validateInboundEvent event = inl tt /\ exists d1 k, event_stored event (w_now w) (w_db w) d1
    /\ CreateWebhookDeliveriesForEvent (w_now w) (w_next w) (ie_ID event) (w_now w) d1 = inl (k, w_db w1)
    /\ w_now w1 = w_now w /\ w_faults w1 = [] /\ w_next w1 = w_next w + k.
Proof.
  intros Hf H. unfold Ingest in H. apply bind_ok in H as ([] & w' & Hv & H). apply lift_ok in Hv as [Hv ->].
  split; [done|]. rewrite (bind_eq _ _ w tt w) in H by done.
  rewrite (bind_eq _ _ w tt w) in H by (unfold wrap, ext; simpl; by rewrite Hf).
  rewrite (bind_eq _ _ w (w_db w) w) in H by done.
  apply bind_ok in H as (d1 & w' & Hc & H). apply (create_event_calm event (w_db w) w Hf) in Hc as [Hst ->].
  rewrite (bind_eq _ _ w (w_next w) w) in H by done. exists d1.
  apply bind_ok in H as ([k d2] & w' & Hc & H). apply wrap_ok in Hc. unfold ext in Hc. simpl in Hc. rewrite Hf in Hc.
  injection Hc as Hc <-. exists k. rewrite (bind_eq _ _ w (w_next w) (skip_ids k w)) in H by done.
  apply wrap_ok in H. unfold ext in H. simpl in H. rewrite Hf in H. unfold modify in H. injection H as <-. by split_and!.
Qed.
Lemma Ingest_runs event w d1 k d2 : w_faults w = [] -> validateInboundEvent event = inl tt ->
  event_stored event (w_now w) (w_db w) d1 ->
  CreateWebhookDeliveriesForEvent (w_now w) (w_next w) (ie_ID event) (w_now w) d1 = inl (k, d2) ->
  Ingest true event w = (inl tt, with_db d2 (skip_ids k w)).
Proof.
  intros Hf Hv Hst Hc. unfold Ingest. rewrite (bind_eq _ _ w tt w) by (unfold lift; by rewrite Hv).
  rewrite (bind_eq _ _ w tt w) by done.
  rewrite (bind_eq _ _ w tt w) by (unfold wrap, ext; simpl; by rewrite Hf).
  rewrite (bind_eq _ _ w (w_db w) w) by done.
  rewrite (bind_eq _ _ w d1 w) by (by apply (create_event_calm event (w_db w) w Hf)).
  rewrite (bind_eq _ _ w (w_next w) w) by done.
  rewrite (bind_eq _ _ w (k, d2) w) by (unfold wrap, ext; simpl; by rewrite Hf, Hc).
  cbv beta iota. rewrite (bind_eq _ _ w (w_next w) (skip_ids k w)) by done.
  unfold wrap, ext. simpl. by rewrite Hf.
Qed.

(** After the deliveries of an event are created, every endpoint that wants it has one. *)
Lemma deliveries_created now next id at_ d k d' ev t e : db_ok next d ->
  CreateWebhookDeliveriesForEvent now next id at_ d = inl (k, d') -> events d !! id = Some ev ->
  endpoints d !! t = Some e -> wants d ev e = true -> has_delivery d' id t = true.
Proof.
  intros Hok Hc Hev He Hw. unfold CreateWebhookDeliveriesForEvent in Hc. rewrite Hev in Hc. cbv zeta in Hc.
  injection Hc as <- <-. pose proof (ok_events _ _ Hok _ _ Hev) as Hid. apply has_delivery_spec. simpl.
  assert (Hfree : forall j, next <= j -> deliveries d !! j = None).
  { intros j Hj. destruct (deliveries d !! j) as [w|] eqn:Hjw; [|done].
    pose proof (do_next _ _ _ _ (ok_deliveries _ _ Hok j w Hjw)). lia. }
  destruct (has_delivery d id t) eqn:Hh.
  - apply has_delivery_spec in Hh as (j & w & Hj & ? & ?). exists j, w. split; [|done].
    apply insert_deliveries_lookup; [done|]. by left.
  - assert (Hin : t ∈ new_targets d ev) by (apply new_targets_spec; rewrite Hid; eauto).
    apply list_elem_of_lookup in Hin as [i Hi]. exists (next + Z.of_nat i), (new_delivery now (next + Z.of_nat i) id t at_).
    split; [|done]. apply insert_deliveries_lookup; [done|]. right. eauto.
Qed.
Lemma insert_no_deliveries now next id at_ d ev : events d !! id = Some ev -> new_targets d ev = [] ->
  CreateWebhookDeliveriesForEvent now next id at_ d = inl (0, d).
Proof. intros Hev Hn. unfold CreateWebhookDeliveriesForEvent. rewrite Hev, Hn. simpl. by destruct d. Qed.

(** An event that is ingested has one delivery for every endpoint of its organization
    that is enabled and subscribed to its type, and the same message delivered again
    is accepted and changes nothing. *)
Theorem Ingest_twice event w w1 : w_faults w = [] -> db_ok (w_next w) (w_db w) ->
  org_active (ie_OrganizationID event) (w_db w) = true ->
  Ingest true event w = (inl tt, w1) ->
  (forall t e, endpoints (w_db w) !! t = Some e -> ep_OrganizationID e = ie_OrganizationID event ->
     ep_Enabled e = true -> ie_EventType event ∈ ep_SubscribedEvents e ->
     has_delivery (w_db w1) (ie_ID event) t = true)
  /\ exists w2, Ingest true event w1 = (inl tt, w2) /\ w_db w2 = w_db w1.
Proof.
  intros Hf Hok Hact Hi. destruct (Ingest_calm _ _ _ Hf Hi) as (Hv & d1 & k & Hst & Hc & Hnow & Hf1 & Hnext).
  assert (exists ev, db_ok (w_next w) d1 /\ endpoints d1 = endpoints (w_db w) /\ organizations d1 = organizations (w_db w)
    /\ events d1 !! ie_ID event = Some ev /\ we_ID ev = ie_ID event /\ we_OrganizationID ev = ie_OrganizationID event
    /\ we_EventType ev = ie_EventType event /\ we_ObjectType ev = ie_ObjectType event)
    as (ev & Hok1 & Hep & Horg & Hev & Heid & Heo & Het & Heb).
  { destruct Hst as [[e He]|(_ & -> & ex & Hg & Ht & Ho)].
    - apply (CreateWebhookEvent_ok _ (w_next w)) in He; [|done]. simpl in He. exists e. tauto.
    - unfold GetWebhookEvent in Hg. destruct (events (w_db w) !! ie_ID event) as [e0|] eqn:He0; [|done].
      case_match eqn:Hb; [|done]. injection Hg as ->. apply andb_true_iff in Hb as [Hb%bool_decide_eq_true _].
      exists ex. split_and!; try done. by apply (ok_events _ _ Hok). }
  destruct (CreateWebhookDeliveriesForEvent_ok _ _ _ _ _ _ _ Hok1 Hc) as (Hok2 & Hg2 & _).
  assert (Hd2 : endpoints (w_db w1) = endpoints d1 /\ events (w_db w1) = events d1 /\ organizations (w_db w1) = organizations d1).
  { unfold CreateWebhookDeliveriesForEvent in Hc. rewrite Hev in Hc. cbv zeta in Hc. injection Hc as _ <-. done. }
  destruct Hd2 as (Hep2 & Hev2 & Horg2).
  assert (Hact1 : org_active (we_OrganizationID ev) d1 = true) by (unfold org_active in *; by rewrite Horg, Heo).
  split.
  - intros t e He Ho Hen Hsub. apply (deliveries_created _ _ _ _ _ _ _ ev t e Hok1 Hc Hev); [by rewrite Hep|].
    unfold wants. rewrite Heo, Het, <- Ho, Hen. pose proof (ok_endpoints _ _ Hok _ _ He) as [_ Hr].
    unfold endpoint_row_ok in Hr. rewrite !andb_true_iff, !bool_decide_eq_true in Hr.
    rewrite Ho, <- Heo, Hact1. rewrite !bool_decide_eq_true_2; [done|done|tauto|done].
  - assert (Hst2 : event_stored event (w_now w1) (w_db w1) (w_db w1)).
    { right. split; [|split; [done|]].
      - apply (CreateWebhookEvent_again (w_now w) _ event (w_db w)); [|rewrite Hev2, Hev; eauto].
        destruct Hst as [[e He]|(Hn & _)]; [left; eauto|by right].
      - exists ev. unfold GetWebhookEvent. rewrite Hev2, Hev. rewrite bool_decide_eq_true_2 by done.
        unfold org_active in *. rewrite Horg2, <- Heo, Hact1. done. }
    assert (Hnt : new_targets (w_db w1) ev = []).
    { destruct (new_targets (w_db w1) ev) as [|t l] eqn:Ht; [done|exfalso].
      assert (Hin : t ∈ new_targets (w_db w1) ev) by (rewrite Ht; set_solver).
      apply new_targets_spec in Hin as (Hh & e & He & Hw). rewrite Hep2 in He.
      assert (wants d1 ev e = true) as Hw1 by (unfold wants, org_active in *; by rewrite <- Horg2).
      rewrite Heid in Hh. rewrite (deliveries_created _ _ _ _ _ _ _ ev t e Hok1 Hc Hev He Hw1) in Hh. done. }
    eexists. split; [apply (Ingest_runs event w1 (w_db w1) 0 (w_db w1)); [done..|]|done].
    by apply (insert_no_deliveries _ _ _ _ _ ev); [rewrite Hev2|].
Qed.

(** ** Creating an endpoint *)

(** A new endpoint cannot be created disabled: the statement leaves [disabled_at] empty,
    which the table only allows for an enabled one, so every such request fails and
    stores nothing. *)
Theorem Create_disabled_fails random_secret org req w : c_Enabled req = Some false ->
  exists e w', Create random_secret org req w = (inr e, w') /\ w_db w' = w_db w.
Proof.
  intros He. unfold Create. 
  destruct (validOrg org) as [[]|e] eqn:Hv; [|by eexists _, w; rewrite (bind_err _ _ w e w) by done].
  rewrite (bind_eq _ _ w tt w) by done.
  destruct (normalizeCreate req) as [r|e] eqn:Hn; [|by eexists _, w; rewrite (bind_err _ _ w e w) by done].
  rewrite (bind_eq _ _ w r w) by done.
  assert (Hr : c_Enabled r = Some false).
  { unfold normalizeCreate in Hn. apply rbind_ok_inv in Hn as (? & _ & Hn). apply rbind_ok_inv in Hn as (? & _ & [= <-]). done. }
  rewrite (bind_eq _ _ w (random_secret (w_next w)) (skip_ids 1 w)) by done.
  set (w1 := skip_ids 1 w). set (secret := random_secret _).
  assert (forall id now d, exists e, CreateWebhookEndpoint now id org (c_URL r) secret (c_SubscribedEvents r) (c_Enabled r) d = inr e) as Hc.
  { intros id now d. unfold CreateWebhookEndpoint. case_match; [|by eexists]. unfold put_endpoint.
    match goal with |- context [endpoint_row_ok ?x] => assert (endpoint_row_ok x = false) as -> end; [|by eexists].
    apply not_true_iff_false. intros Hx. unfold endpoint_row_ok in Hx.
    rewrite !andb_true_iff, !bool_decide_eq_true in Hx. simpl in Hx. rewrite Hr in Hx.
    destruct Hx as [[[[_ [_ Hx]] _] _] _]. by specialize (Hx eq_refl). }
  assert (exists e w', Repo_Create org r secret w1 = (inr e, w') /\ w_db w' = w_db w) as (e & w' & Hrc & Hdb).
  { unfold Repo_Create. rewrite (bind_eq _ _ w1 (w_next w1) (skip_ids 1 w1)) by done.
    unfold exec, ext. simpl. destruct (w_faults w) as [|[| |] fs]; simpl.
    - destruct (Hc (w_next w + 1) (w_now w) (w_db w)) as [e ->]. by eexists _, _.
    - destruct (Hc (w_next w + 1) (w_now w) (w_db w)) as [e' ->]. by eexists _, _.
    - by eexists _, _.
    - destruct (Hc (w_next w + 1) (w_now w) (w_db w)) as [e' ->]. by eexists _, _. }
  eexists _, w'. split; [|done]. apply bind_err. unfold readErr, wrap. by rewrite Hrc.
Qed.
End Ingestion.

(** ** Subscriptions

    The list kept is the given one trimmed, without repetitions and without blanks. *)
Definition event_name_ok (x : string) : bool := negb (bool_decide (x = "") || ContainsAny x blanks).
Lemma normalize_events_spec v : forall seen l, normalize_events v seen = inl l ->
  NoDup l /\ (forall x, x ∈ l <-> x ∈ TrimSpace <$> v /\ x ∉ seen) /\ Forall (fun x => event_name_ok x = true) l.
Proof.
  induction v as [|e v IH]; intros seen l; cbn [normalize_events].
  { intros [= <-]. split_and!; [constructor| |constructor]. set_solver. }
  cbv zeta. destruct (bool_decide (TrimSpace e = "") || _) eqn:Hb; [done|].
  destruct (bool_decide (TrimSpace e ∈ seen)) eqn:Hs; [apply bool_decide_eq_true in Hs|apply bool_decide_eq_false in Hs].
  - intros Hl. destruct (IH seen l Hl) as (H1 & H2 & H3). split_and!; [done| |done]. intros x. rewrite H2, fmap_cons. set_solver.
  - intros (l' & Hl & [= <-])%rbind_ok_inv. destruct (IH _ l' Hl) as (H1 & H2 & H3). split_and!.
    + constructor; [|done]. rewrite H2. set_solver.
    + intros x. rewrite fmap_cons, !elem_of_cons, H2. destruct (decide (x = TrimSpace e)); set_solver.
    + constructor; [|done]. unfold event_name_ok. by rewrite Hb.
Qed.

(** ** Runs

    An organization, two endpoints, one event. *)
#[local] Instance ex_lib : WebhookLib := {|
  jsonb s := if HasPrefix s "{" then Some s else None;
  has_space s := ContainsAny s blanks;
  hmac_hex k m := k +:+ ":" +:+ m;
  marshal_envelope _ _ _ p := inl p;
  ParseRequestURI s := if HasPrefix s "https://" then Some {| Scheme := "https"; Host := TrimPrefix s "https://"; has_User := false |}
                       else None;
  new_request_error _ := None;
  error_text _ := "error" |}.
#[local] Existing Instance decimal_uuid.

Definition written {A} (d : DB) (r : result (A * DB)) : DB := match r with inl (_, d') => d' | inr _ => d end.
Definition ex_d0 : DB := empty_db {[1 := true]}.
Definition ex_new (id : UUID) (d : DB) : DB :=
  written d (CreateWebhookEndpoint 0 id 1 "https://a.example" "key" ["call.completed"] None d).
Definition ex_event : InboundEvent :=
  {| ie_ID := 5; ie_OrganizationID := 1; ie_EventType := "call.completed"; ie_ObjectType := "call";
     ie_ObjectID := None; ie_Payload := "{}"; ie_OccurredAt := 0 |}.
Definition ex_d2 : DB := ex_new 11 (ex_new 10 ex_d0).
Definition ex_d3 : DB := written ex_d2 (CreateWebhookEvent 0 (event_params ex_event 0) ex_d2).
Definition ex_d4 : DB := written ex_d3 (CreateWebhookDeliveriesForEvent 0 12 5 0 ex_d3).
Fixpoint ex_name (p : nat) : string := match p with O => "w" | S p => "w" +:+ ex_name p end.
Definition ex_cfg (p : nat) : DeliveryJobConfig :=
  let c := DefaultDeliveryJobConfig (ex_name p) in
  {| WorkerID := WorkerID c; BatchSize := 1; PollInterval := PollInterval c; LockTimeout := LockTimeout c;
     RetryBaseDelay := RetryBaseDelay c; RetryMaxDelay := RetryMaxDelay c; MaxAttempts := MaxAttempts c;
     AutoDisableAfter := AutoDisableAfter c |}.
Definition ex_claim (p : nat) (d : DB) : result (list ClaimRow * DB) :=
  ClaimWebhookDeliveries 0 (ex_name p) (0 - 30 * Second) 1 d.
Definition ex_rows (p : nat) (d : DB) : list ClaimRow := match ex_claim p d with inl (rows, _) => rows | inr _ => [] end.
Definition ex_d5 : DB := written ex_d4 (ex_claim 0 ex_d4).
Definition ex_d6 : DB := written ex_d5 (ex_claim 1 ex_d5).

(** The stored deliveries, before any claim, and after two. *)
Definition ex_stored : System := {| s_now := 0; s_next := 14; s_db := ex_d4; s_tries := []; s_procs := ∅ |}.
Definition ex_claimed : System := {| s_now := 0; s_next := 14; s_db := ex_d6; s_tries := [];
  s_procs := {[0%nat := Holding 0 (ex_rows 0 ex_d4); 1%nat := Holding 0 (ex_rows 1 ex_d5)]} |}.
Definition ex_created : System := {| s_now := 0; s_next := 12; s_db := ex_d2; s_tries := []; s_procs := ∅ |}.
Definition ex_endpoint (id : UUID) : WebhookEndpoint :=
  {| ep_ID := id; ep_OrganizationID := 1; ep_Url := "https://a.example"; ep_SigningSecret := "key";
     ep_Enabled := true; ep_SubscribedEvents := ["call.completed"]; ep_CreatedAt := 0; ep_UpdatedAt := 0;
     ep_DisabledAt := None; ep_ConsecutiveFailures := 0; ep_LastFailureAt := None; ep_DisabledReason := None |}.
Lemma ex_created_run : rtc (step ex_cfg) (start {[1 := true]} 0 10) ex_created.
Proof.
  eapply rtc_l.
  { eapply step_client, (cl_create 0 10 ex_d0 1 "https://a.example" "key" ["call.completed"] None (ex_endpoint 10) (ex_new 10 ex_d0)).
    vm_compute. reflexivity. }
  eapply rtc_l; [|apply rtc_refl].
  eapply step_client, (cl_create 0 11 (ex_new 10 ex_d0) 1 "https://a.example" "key" ["call.completed"] None (ex_endpoint 11) ex_d2).
  vm_compute. reflexivity.
Qed.
Lemma ex_stored_run : rtc (step ex_cfg) (start {[1 := true]} 0 10) ex_stored.
Proof.
  etrans; [exact ex_created_run|]. eapply rtc_l; [|apply rtc_refl]. apply (step_client ex_cfg ex_created ex_d4 14).
  apply (cl_ingest 0 12 ex_d2 (event_params ex_event 0) 5 0 ex_d3 2 ex_d4).
  - right. exists (event_params ex_event 0). vm_compute. reflexivity.
  - vm_compute. reflexivity.
Qed.
Lemma ex_claimed_run : rtc (step ex_cfg) (start {[1 := true]} 0 10) ex_claimed.
Proof.
  etrans; [exact ex_stored_run|].
  eapply rtc_l; [apply (step_claim ex_cfg ex_stored 0 0 (ex_rows 0 ex_d4) ex_d5); [done|simpl; lia|vm_compute; reflexivity]|].
  eapply rtc_l; [|apply rtc_refl].
  apply (step_claim ex_cfg (set_phase 0 (Holding 0 (ex_rows 0 ex_d4)) ex_d5 ex_stored) 1 0 (ex_rows 1 ex_d5) ex_d6);
    [done|simpl; lia|vm_compute; reflexivity].
Qed.
Lemma ex_db_ok : db_ok 14 ex_d4.
Proof. exact (so_db _ (sys_reachable ex_cfg _ _ _ _ ex_stored_run)). Qed.

(** The first delivery answered with 200, and recorded. *)
Definition ex_ok : DeliveryAttempt := {| StatusCode := Some 200; Body := Some "ok"%string; Err := None |}.
Definition ex_row : ClaimRow :=
  default {| cr_ID := 0; cr_EventID := 0; cr_EndpointID := 0; cr_AttemptCount := 0; cr_OrganizationID := 0;
             cr_EventType := ""; cr_Payload := ""; cr_OccurredAt := 0; cr_Url := ""; cr_SigningSecret := "" |}
    (head (ex_rows 0 ex_d4)).
Definition ex_answered : System := {| s_now := 0; s_next := 14; s_db := ex_d6; s_tries := [(ex_row, ex_ok)];
  s_procs := {[0%nat := Answered 0 ex_row ex_ok []; 1%nat := Holding 0 (ex_rows 1 ex_d5)]} |}.
Definition ex_d7 : DB := written ex_d6 (record (ex_cfg 0) 0 ex_row ex_ok 0 ex_d6).
Definition ex_recorded : System := set_phase 0 (Holding 0 []) ex_d7 ex_answered.
Lemma ex_answered_run : rtc (step ex_cfg) (start {[1 := true]} 0 10) ex_answered.
Proof.
  etrans; [exact ex_claimed_run|]. eapply rtc_l; [|apply rtc_refl].
  apply (step_send ex_cfg ex_claimed 0 0 ex_row [] ex_ok). vm_compute. reflexivity.
Qed.
Lemma ex_recorded_run : rtc (step ex_cfg) (start {[1 := true]} 0 10) ex_recorded.
Proof.
  etrans; [exact ex_answered_run|]. eapply rtc_l; [|apply rtc_refl].
  apply (step_record ex_cfg ex_answered 0 0 ex_row ex_ok [] 0
    (default (new_delivery 0 0 0 0 0) (deliveries ex_d7 !! cr_ID ex_row)) ex_d7 (Holding 0 []));
    [vm_compute; reflexivity..|by left].
Qed.
Lemma ex_name_inj p : forall q, ex_name p = ex_name q -> p = q.
Proof.
  induction p as [|p IH]; intros [|q]; simpl; [done| | |]; intros [= H].
  - exfalso. by destruct q.
  - exfalso. by destruct p.
  - f_equal. by apply IH.
Qed.

Lemma succeeded_was_accepted_witness : wd_Status <$> deliveries ex_d7 !! cr_ID ex_row = Some StatusSucceeded
  /\ accepted [(ex_row, ex_ok)] (cr_ID ex_row).
Proof.
  split; [vm_compute; reflexivity|].
  apply (proj1 (succeeded_was_accepted ex_cfg {[1 := true]} 0 10 ex_recorded ex_recorded_run) _
    (default (new_delivery 0 0 0 0 0) (deliveries ex_d7 !! cr_ID ex_row))); vm_compute; reflexivity.
Defined.
Lemma live_claims_are_disjoint_witness :
  length (live_rows (30 * Second) ex_claimed 0) = 1%nat /\ length (live_rows (30 * Second) ex_claimed 1) = 1%nat /\
  forall r r', r ∈ live_rows (30 * Second) ex_claimed 0 -> r' ∈ live_rows (30 * Second) ex_claimed 1 -> cr_ID r <> cr_ID r'.
Proof.
  split; [vm_compute; reflexivity|]. split; [vm_compute; reflexivity|]. intros r r' Hr Hr'.
  exact (live_claims_are_disjoint ex_cfg (30 * Second) (fun _ => eq_refl) (fun p q => ex_name_inj p q)
    {[1 := true]} 0 10 ex_claimed 0 1 r r' ex_claimed_run ltac:(done) Hr Hr').
Defined.

(** The endpoint of the first delivery is deleted while it answers. *)
Definition ex_world (d : DB) : World := {| w_db := d; w_now := 0; w_next := 14; w_faults := [] |}.
Definition ex_deleting (row : ClaimRow) : M World DeliveryAttempt :=
  fun w => (inl ex_ok, snd (Delete 1 (cr_EndpointID row) w)).
Lemma ex_d6_ok : db_ok 14 ex_d6.
Proof. exact (so_db _ (sys_reachable ex_cfg _ _ _ _ ex_claimed_run)). Qed.
Lemma delete_in_flight_stops_worker_witness : exists e,
  deliver (ex_cfg 0) never ex_deleting [ex_row] (ex_world ex_d6)
    = (inr e, snd (Delete 1 (cr_EndpointID ex_row) (ex_world ex_d6))) /\ errors_Is e ErrNoRows = true.
Proof.
  apply (delete_in_flight_stops_worker (ex_cfg 0) never ex_deleting 1 ex_row [] (ex_world ex_d6) ex_ok (ex_world ex_d6)
    (snd (Delete 1 (cr_EndpointID ex_row) (ex_world ex_d6))) 14
    (default (new_delivery 0 0 0 0 0) (deliveries ex_d6 !! cr_ID ex_row)));
    [reflexivity|reflexivity|vm_compute; reflexivity|vm_compute; reflexivity|exact ex_d6_ok|vm_compute; reflexivity..].
Defined.
Lemma unrecordable_answer_stops_worker_witness : exists e,
  deliver (ex_cfg 0) never (fun _ => ret {| StatusCode := Some 999; Body := Some ""%string; Err := None |})
    [ex_row] (ex_world ex_d6) = (inr e, ex_world ex_d6).
Proof.
  apply (unrecordable_answer_stops_worker (ex_cfg 0) never
    (fun _ => ret {| StatusCode := Some 999; Body := Some ""%string; Err := None |}) ex_row [] (ex_world ex_d6)
    {| StatusCode := Some 999; Body := Some ""%string; Err := None |});
    [reflexivity|reflexivity|reflexivity|]. left. exists 999. split; [reflexivity|right; lia].
Defined.

Lemma ex_forall_rows {A} (P : A -> bool) (m : gmap UUID A) (Q : UUID -> A -> Prop) :
  (forall i x, P x = true -> Q i x) -> forallb P (snd <$> map_to_list m) = true -> map_Forall Q m.
Proof.
  intros HP Hb i x Hx. apply HP. rewrite forallb_forall in Hb. apply Hb, list_elem_of_In.
  apply list_elem_of_fmap. exists (i, x). by rewrite elem_of_map_to_list.
Qed.
Lemma deliverBatch_settles_witness : exists rows d',
  deliverBatch (ex_cfg 0) never (ask (fun _ => ex_ok)) (ex_world ex_d4) = (inl tt, with_db d' (ex_world ex_d4))
  /\ cr_ID <$> rows = claim_ids 0 (0 - LockTimeout (ex_cfg 0)) (BatchSize (ex_cfg 0)) ex_d4
  /\ Forall (settled (ex_cfg 0) (fun _ => ex_ok) 0 d') rows
  /\ forall id, id ∉ cr_ID <$> rows -> deliveries d' !! id = deliveries ex_d4 !! id.
Proof.
  apply (deliverBatch_settles (ex_cfg 0) (fun _ => ex_ok) 14 (ex_world ex_d4)); [reflexivity|exact ex_db_ok|simpl; lia| | |].
  - apply (ex_forall_rows (fun e => ep_ConsecutiveFailures e + 1 <=? max_int32)); [intros i e; apply Z.leb_le|].
    vm_compute. reflexivity.
  - apply (ex_forall_rows (fun x => wd_AttemptCount x <? max_int32)); [intros i x; apply Z.ltb_lt|].
    vm_compute. reflexivity.
  - intros r. split; [simpl; lia|split; vm_compute; reflexivity].
Defined.
Lemma ex_d2_ok : db_ok 12 ex_d2.
Proof. exact (so_db _ (sys_reachable ex_cfg _ _ _ _ ex_created_run)). Qed.
Lemma Ingest_twice_witness :
  let w := {| w_db := ex_d2; w_now := 0; w_next := 12; w_faults := [] |} in
  let w1 := snd (Ingest true ex_event w) in
  (forall t e, endpoints ex_d2 !! t = Some e -> ep_OrganizationID e = 1 ->
     ep_Enabled e = true -> "call.completed"%string ∈ ep_SubscribedEvents e -> has_delivery (w_db w1) 5 t = true)
  /\ exists w2, Ingest true ex_event w1 = (inl tt, w2) /\ w_db w2 = w_db w1.
Proof.
  cbv zeta. apply (Ingest_twice ex_event {| w_db := ex_d2; w_now := 0; w_next := 12; w_faults := [] |});
    [reflexivity|exact ex_d2_ok|vm_compute; reflexivity..].
Defined.
Lemma Create_disabled_fails_witness : exists e w',
  Create (fun _ => "secret"%string) 1 {| c_URL := "https://a.example"; c_SubscribedEvents := ["call.completed"]; c_Enabled := Some false |}
    (ex_world ex_d0) = (inr e, w') /\ w_db w' = ex_d0.
Proof.
  apply (Create_disabled_fails (fun _ => "secret"%string) 1
    {| c_URL := "https://a.example"; c_SubscribedEvents := ["call.completed"]; c_Enabled := Some false |} (ex_world ex_d0)).
  reflexivity.
Defined.
End WebhookOutcomes.
