(* ===== verification/Paths.v ===== *)
(** * Paths and the object keys of recordings

    [path.Clean], [filepath.Rel] and [filepath.Ext] of the standard library on
    Unix, the date of a time, and the keys of recording objects
    ([telephony/recordings/key.go]). *)

From S2P Require Import Prelude Encryption.
Local Open Scope Z_scope.

Module Paths.
Import Encryption.

Definition slash : ascii := "/"%char.
Definition IsAbs (path : string) : bool := HasPrefix path "/".

(** The elements of a path without [""] and ["."], each [".."] taking away the
    element before it; at the root [".."] is dropped, elsewhere a leading one
    stays. [acc] is reversed. *)
Fixpoint clean_elements (rooted : bool) (acc l : list string) : list string :=
  match l with
  | [] => acc
  | e :: l' =>
      if bool_decide (e = "") || bool_decide (e = ".") then clean_elements rooted acc l' else
      if bool_decide (e = "..") then
        match acc with
        | x :: acc' =>
            if bool_decide (x = "..") then clean_elements rooted (e :: acc) l'
            else clean_elements rooted acc' l'
        | [] => if rooted then clean_elements rooted [] l' else clean_elements rooted [e] l'
        end
      else clean_elements rooted (e :: acc) l'
  end.
Definition elements (path : string) : list string :=
  reverse (clean_elements (IsAbs path) [] (Split path slash)).
Definition Clean (path : string) : string :=
  let es := elements path in
  if IsAbs path then "/" +:+ Join es "/" else if bool_decide (es = []) then "." else Join es "/".

(** [filepath.Rel]: up from what is left of [base] past the common elements,
    then down to the target. *)
Fixpoint strip_common (base targ : list string) : list string * list string :=
  match base, targ with
  | b :: base', t :: targ' => if bool_decide (b = t) then strip_common base' targ' else (base, targ)
  | _, _ => (base, targ)
  end.
Definition Rel (base targ : string) : result string :=
  if negb (bool_decide (IsAbs base = IsAbs targ)) then inr (Errorf "Rel: can't make %s relative to %s" [targ; base]) else
  let (up, down) := strip_common (elements base) (elements targ) in
  if bool_decide (head up = Some "..") then inr (Errorf "Rel: can't make %s relative to %s" [targ; base]) else
  inl (if bool_decide (up = []) && bool_decide (down = []) then "."
       else Join (((fun _ => "..") <$> up) ++ down) "/").

(** [r == "." || r == ".." || strings.HasPrefix(r, "../")]: the target is not
    inside the base. *)
Definition escapes (r : string) : bool :=
  bool_decide (r = ".") || bool_decide (r = "..") || HasPrefix r "../".

(** [filepath.Ext]: from the last dot of the last element. *)
Fixpoint ext_from (seen rev : list ascii) : list ascii :=
  match rev with
  | [] => []
  | c :: rest =>
      if decide (c = slash) then [] else
      if decide (c = "."%char) then c :: seen else ext_from (c :: seen) rest
  end.
Definition Ext (path : string) : string := of_bytes (ext_from [] (reverse (bytes path))).

(** ** Dates

    The proleptic Gregorian date of a day counted from 1970-01-01, by eras of 400
    years that begin in March. *)
Definition civil (day : Z) : Z * Z * Z :=
  let z := day + 719468 in
  let era := z / 146097 in
  let doe := z mod 146097 in
  let yoe := (doe - doe / 1460 + doe / 36524 - doe / 146096) / 365 in
  let doy := doe - (365 * yoe + yoe / 4 - yoe / 100) in
  let mp := (5 * doy + 2) / 153 in
  let d := doy - (153 * mp + 2) / 5 + 1 in
  let m := if mp <? 10 then mp + 3 else mp - 9 in
  (yoe + era * 400 + (if m <=? 2 then 1 else 0), m, d).
(** [appendInt]: at least [width] digits. *)
Definition pad (width : nat) (n : Z) : string :=
  let ds := format_uint (Z.abs n) in
  of_bytes ((if n <? 0 then ["-"%char] else []) ++ replicate (width - length ds) "0"%char ++ ds).
(** [t.UTC().Format("2006/01/02")]; times are nanoseconds since the epoch. *)
Definition format_date (t : Z) : string :=
  let '(y, m, d) := civil (t / (24 * Hour)) in
  Join [pad 4 y; pad 2 m; pad 2 d] "/".

Example date_leap_day : format_date (1709210096 * Second) = "2024/02/29".
Proof. vm_compute. reflexivity. Qed.
Example date_before_epoch : format_date (-1) = "1969/12/31".
Proof. vm_compute. reflexivity. Qed.

(** ** Facts about paths *)
Lemma bytes_inj s t : bytes s = bytes t -> s = t.
Proof. intros H. by rewrite <- (of_bytes_bytes s), H, of_bytes_bytes. Qed.
Lemma bytes_app s t : bytes (s +:+ t) = bytes s ++ bytes t.
Proof. apply list_ascii_app. Qed.
Lemma HasPrefix_app p s : HasPrefix (p +:+ s) p = true.
Proof.
  unfold HasPrefix. induction p as [|c p IH]; [by destruct s|]. simpl.
  by destruct (Ascii.ascii_dec c c).
Qed.

(** A name that [Clean] keeps. *)
Definition plain (e : string) : Prop := slash ∉ bytes e /\ e <> "" /\ e <> "." /\ e <> "..".

Lemma bytes_Split_none b c : c ∉ b -> bytes_Split b c = [b].
Proof.
  induction b as [|a b IH]; [done|]. intros [Ha Hb]%not_elem_of_cons. simpl.
  by rewrite decide_False, IH by congruence.
Qed.
Lemma bytes_Split_cons b rest c : c ∉ b -> bytes_Split (b ++ c :: rest) c = b :: bytes_Split rest c.
Proof.
  induction b as [|a b IH]; intros Hc; simpl; [by rewrite decide_True|].
  apply not_elem_of_cons in Hc as [Ha Hb]. by rewrite decide_False, IH by congruence.
Qed.
Lemma Split_Join l c : l <> [] -> Forall (fun e => c ∉ bytes e) l -> Split (Join l (of_bytes [c])) c = l.
Proof.
  intros Hl HF. unfold Split. induction HF as [|e l He HF IH]; [done|]. destruct l as [|e' l].
  - cbn [Join]. rewrite bytes_Split_none by done. cbn. by rewrite of_bytes_bytes.
  - change (Join (e :: e' :: l) (of_bytes [c])) with (e +:+ of_bytes [c] +:+ Join (e' :: l) (of_bytes [c])).
    rewrite !bytes_app, bytes_of_bytes. simpl app. rewrite bytes_Split_cons by done.
    rewrite fmap_cons, of_bytes_bytes. f_equal. by apply IH.
Qed.
Lemma clean_plain rooted acc l : Forall plain l -> clean_elements rooted acc l = reverse l ++ acc.
Proof.
  intros HF. revert acc. induction HF as [|e l (Hs & H0 & H1 & H2) HF IH]; intros acc; [done|]. simpl.
  rewrite !bool_decide_false by done. simpl. rewrite IH, reverse_cons, <- app_assoc. done.
Qed.
Lemma IsAbs_bytes s : IsAbs s = match bytes s with c :: _ => bool_decide (c = slash) | [] => false end.
Proof.
  unfold IsAbs, HasPrefix. destruct s as [|c s]; [done|].
  change (String.prefix "/" (String c s)) with
    (match Ascii.ascii_dec slash c with left _ => String.prefix "" s | right _ => false end).
  change (bytes (String c s)) with (c :: bytes s). cbv iota.
  destruct (Ascii.ascii_dec slash c) as [<-|Hc].
  - rewrite bool_decide_true by done. by destruct s.
  - by rewrite bool_decide_false by congruence.
Qed.
Lemma IsAbs_Join e l : plain e -> IsAbs (Join (e :: l) "/") = false.
Proof.
  intros (Hs & H0 & _). rewrite IsAbs_bytes.
  assert (exists c b rest, bytes e = c :: b /\ bytes (Join (e :: l) "/") = c :: rest) as (c & b & rest & He & ->).
  { destruct (bytes e) as [|c b] eqn:He; [by apply (bytes_inj e "") in He|].
    exists c, b. destruct l as [|e' l].
    - exists b. done.
    - exists (b ++ bytes ("/" +:+ Join (e' :: l) "/")). split; [done|].
      change (Join (e :: e' :: l) "/") with (e +:+ ("/" +:+ Join (e' :: l) "/")).
      by rewrite bytes_app, He. }
  rewrite bool_decide_false; [done|]. intros ->. apply Hs. rewrite He. left.
Qed.
Lemma elements_Join l : l <> [] -> Forall plain l -> elements (Join l "/") = l.
Proof.
  intros Hl HF. unfold elements. assert (Split (Join l "/") slash = l) as ->.
  { apply (Split_Join l slash); [done|]. eapply Forall_impl; [exact HF|]. by intros e (? & _). }
  rewrite clean_plain by done. by rewrite app_nil_r, reverse_involutive.
Qed.
Lemma Clean_Join l : l <> [] -> Forall plain l -> Clean (Join l "/") = Join l "/".
Proof.
  intros Hl HF. unfold Clean. rewrite elements_Join by done.
  destruct HF as [|e l He HF]; [done|]. by rewrite IsAbs_Join, bool_decide_false.
Qed.

Lemma strip_common_split b t u d :
  strip_common b t = (u, d) -> exists c, b = c ++ u /\ t = c ++ d.
Proof.
  revert t; induction b as [|x b IH]; intros [|y t]; simpl; [by intros [= <- <-]; exists []..|].
  case_bool_decide as Hxy; [|by intros [= <- <-]; exists []].
  intros (c & -> & ->)%IH. exists (x :: c). by subst.
Qed.
(** A target that does not escape lies below the base. *)
Lemma Rel_below base targ r :
  Rel base targ = inl r -> escapes r = false ->
  IsAbs targ = IsAbs base /\ exists below, below <> [] /\ elements targ = elements base ++ below.
Proof.
  unfold Rel, escapes. case_bool_decide as Habs; [|done]. simpl.
  destruct (strip_common _ _) as [up down] eqn:Hs. apply strip_common_split in Hs as (c & Hb & Ht).
  case_bool_decide as Hup; [done|]. intros [= <-]. rewrite !orb_false_iff. intros [[H1 H2] H3].
  split; [done|]. destruct up as [|u up].
  - exists down. rewrite app_nil_r in Hb. subst c. split; [|done]. by intros ->.
  - exfalso. rewrite (bool_decide_false (u :: up = [])) in H2, H3 by done. simpl andb in *. cbv iota in *.
    rewrite fmap_cons in H2, H3. simpl app in H2, H3. destruct ((_ <$> up) ++ down) as [|x l].
    + by rewrite bool_decide_true in H2.
    + change (Join (".." :: x :: l) "/") with ("../" +:+ Join (x :: l) "/") in H3.
      by rewrite HasPrefix_app in H3.
Qed.

(** ** Keys (key.go) *)
(** The text of a UUID: hexadecimal digits and dashes. *)
Definition uuid_char (c : ascii) : bool := byte_in 48 57 c || byte_in 97 102 c || byte_is 45 c.
Class UuidText (U : UuidLib) : Prop := {
  uuid_String_chars : forall a, Forall (fun c => uuid_char c = true) (bytes (uuid_String a));
}.

Section Keys.
Context {U : UuidLib}.

Definition recordingStoragePrefix (org : UUID) : result string :=
  if bool_decide (org = uuid_Nil) then inr (Errorf "recording organization id is required" [])
  else inl ("organizations/" +:+ uuid_String org +:+ "/recordings/").

Definition recordingObjectKey (org recording : UUID) (occurredAt : Z) (extension : string) : result string :=
  let? prefix := recordingStoragePrefix org in
  let? _ := guard_err (bool_decide (recording = uuid_Nil)) (Errorf "recording id is required" []) in
  let extension := TrimPrefix (TrimSpace extension) "." in
  let extension := if bool_decide (extension = "") then "bin" else extension in
  let? _ := guard_err (ContainsAny extension [slash; "\"%char]) (Errorf "recording extension is invalid" []) in
  inl (prefix +:+ format_date occurredAt +:+ "/" +:+ uuid_String recording +:+ "." +:+ extension).

Definition validateManagedRecordingKey (org : UUID) (key : string) : result unit :=
  let? prefix := recordingStoragePrefix org in
  if bool_decide (key = "") || IsAbs key || negb (bool_decide (Clean key = key))
  then inr (Errorf "managed recording storage key is invalid" []) else
  if negb (HasPrefix key prefix) || bool_decide (key = prefix)
  then inr (Errorf "managed recording storage key is outside organization prefix" []) else inl tt.
End Keys.

(** ** Facts about keys *)
Lemma digits_chars n : 0 <= n -> Forall (fun c => uuid_char c = true) (format_uint n).
Proof.
  intros Hn. eapply Forall_impl; [by apply format_uint_digits|]. intros c Hc. unfold uuid_char.
  by rewrite (Hc : byte_in 48 57 c = true).
Qed.
Lemma pad_chars w n : Forall (fun c => uuid_char c = true) (bytes (pad w n)).
Proof.
  unfold pad. rewrite bytes_of_bytes. rewrite !Forall_app. split_and!.
  - by destruct (n <? 0); repeat constructor.
  - by apply Forall_replicate.
  - apply digits_chars. lia.
Qed.
Lemma pad_nonempty w n : pad w n <> "".
Proof.
  intros H. apply (f_equal bytes) in H. unfold pad in H. rewrite bytes_of_bytes in H.
  apply app_eq_nil in H as [_ [_ H]%app_eq_nil]. by apply format_uint_nonempty in H.
Qed.
(** A name of digits, letters and dashes. *)
Lemma plain_name e : Forall (fun c => uuid_char c = true) (bytes e) -> e <> "" -> plain e.
Proof.
  intros HF He. split_and!; [|done|by intros ->; inversion HF|by intros ->; inversion HF].
  intros Hin. by eapply Forall_forall in HF; [|exact Hin].
Qed.
Lemma lacks_ContainsAny s l : ContainsAny s l = false -> Forall (fun c => c ∉ bytes s) l.
Proof.
  intros H. apply Forall_forall. intros c Hc Hin. apply not_true_iff_false in H. apply H, existsb_exists.
  exists c. split; [by apply list_elem_of_In|]. by apply bool_decide_true.
Qed.

Section KeyFacts.
Context {U : UuidLib} {L : UuidLaws U} {T : UuidText U}.

Lemma uuid_plain a : plain (uuid_String a).
Proof. apply plain_name; [apply uuid_String_chars|apply uuid_String_nonempty]. Qed.
(** The name of an object: an identifier and an extension. *)
Lemma object_plain a ext : slash ∉ bytes ext -> plain (uuid_String a +:+ "." +:+ ext).
Proof.
  intros Hext. pose proof (uuid_String_chars a) as HF. pose proof (uuid_String_nonempty a) as Hne.
  unfold plain. rewrite !bytes_app.
  destruct (bytes (uuid_String a)) as [|c b] eqn:Hb; [by apply (bytes_inj _ "") in Hb|].
  assert (forall s, uuid_String a +:+ "." +:+ ext = s -> bytes s = c :: b ++ "."%char :: bytes ext) as Hs.
  { intros s <-. by rewrite !bytes_app, Hb. }
  apply Forall_cons in HF as [Hc HF]. split_and!.
  - rewrite !not_elem_of_app. split_and!; [|by apply not_elem_of_cons; split; [|apply not_elem_of_nil]|done].
    apply not_elem_of_cons. split; [by intros <-|].
    intros Hin. by eapply Forall_forall in HF; [|exact Hin].
  - intros H%Hs. done.
  - intros H%Hs. injection H as <- _. done.
  - intros H%Hs. injection H as <- _. done.
Qed.

(** The elements of the key [recordingObjectKey] makes. *)
Definition key_elements (org recording : UUID) (t : Z) (ext : string) : list string :=
  let '(y, m, d) := civil (t / (24 * Hour)) in
  ["organizations"; uuid_String org; "recordings"; pad 4 y; pad 2 m; pad 2 d;
   uuid_String recording +:+ "." +:+ ext].
Lemma key_elements_plain org recording t ext :
  slash ∉ bytes ext -> Forall plain (key_elements org recording t ext).
Proof.
  intros Hext. unfold key_elements. destruct (civil _) as [[y m] d].
  assert (forall w n, plain (pad w n)) as Hpad by (intros; apply plain_name; [apply pad_chars|apply pad_nonempty]).
  assert (plain "organizations" /\ plain "recordings") as [? ?].
  { split; (split_and!; [|done..]); cbv; set_solver. }
  repeat (apply Forall_cons_2; [by auto using uuid_plain, object_plain|]). by apply Forall_nil_2.
Qed.
Lemma recordingObjectKey_inv org recording t ext key :
  recordingObjectKey org recording t ext = inl key ->
  org <> uuid_Nil /\ recording <> uuid_Nil /\
  exists ext', slash ∉ bytes ext' /\ key = Join (key_elements org recording t ext') "/".
Proof.
  unfold recordingObjectKey, recordingStoragePrefix. case_bool_decide as Ho; [done|]. rewrite rbind_inl.
  intros (? & Hr%guard_err_ok%bool_decide_eq_false & H)%rbind_ok_inv.
  apply rbind_ok_inv in H as (? & Hc%guard_err_ok%lacks_ContainsAny & H). injection H as <-.
  split_and!; [done|done|].
  match type of Hc with context [if ?b then _ else ?e] => exists (if b then "bin" else e) end.
  split; [by inversion Hc|]. unfold key_elements, format_date. destruct (civil _) as [[y m] d].
  apply bytes_inj. cbn [Join]. rewrite !bytes_app. by rewrite <- !app_assoc.
Qed.

(** The key is a path as it stands, under the prefix of its organization. *)
Lemma recordingObjectKey_managed org recording t ext key :
  recordingObjectKey org recording t ext = inl key -> validateManagedRecordingKey org key = inl tt.
Proof.
  intros (Ho & Hr & ext' & Hext & Hk)%recordingObjectKey_inv.
  pose proof (key_elements_plain org recording t ext' Hext) as HF.
  assert (key_elements org recording t ext' <> []) as Hne.
  { unfold key_elements. by destruct (civil _) as [[]]. }
  pose proof (Clean_Join _ Hne HF) as HC. rewrite <- Hk in HC.
  unfold validateManagedRecordingKey, recordingStoragePrefix. rewrite (bool_decide_false _ Ho), rbind_inl.
  assert (exists rest, rest <> "" /\ key = ("organizations/" +:+ uuid_String org +:+ "/recordings/") +:+ rest)
    as (rest & Hrest & Hkey).
  { rewrite Hk. unfold key_elements. destruct (civil _) as [[y m] d].
    exists (Join [pad 4 y; pad 2 m; pad 2 d; uuid_String recording +:+ "." +:+ ext'] "/"). split.
    - intros H%(f_equal bytes). cbn [Join] in H. rewrite !bytes_app in H.
      apply app_eq_nil in H as [H _]. by apply (bytes_inj _ ""), pad_nonempty in H.
    - apply bytes_inj. cbn [Join]. rewrite !bytes_app. by rewrite <- !app_assoc. }
  assert (IsAbs key = false) as Habs.
  { rewrite Hk. unfold key_elements in *. destruct (civil _) as [[y m] d].
    apply IsAbs_Join. by apply Forall_cons in HF as [? _]. }
  rewrite Habs, (bool_decide_true (Clean key = key) HC).
  rewrite (bool_decide_false (key = "")) by (intros ->; by apply (f_equal bytes) in Hkey; rewrite !bytes_app in Hkey).
  simpl. rewrite Hkey, HasPrefix_app. rewrite bool_decide_false; [done|].
  intros H%(f_equal bytes)%(f_equal length). rewrite bytes_app, length_app in H.
  apply Hrest, (bytes_inj _ ""). destruct (bytes rest); [done|simpl in H; lia].
Qed.

(** Two keys are equal only for one recording. *)
Lemma object_name_inj a b e e' :
  uuid_String a +:+ "." +:+ e = uuid_String b +:+ "." +:+ e' -> a = b.
Proof.
  intros H%(f_equal bytes). rewrite !bytes_app in H. apply uuid_String_inj, bytes_inj.
  assert (forall x, "."%char ∉ bytes (uuid_String x)) as Hdot.
  { intros x Hin. by eapply Forall_forall in Hin; [|apply (uuid_String_chars x)]. }
  pose proof (Hdot a) as Ha. pose proof (Hdot b) as Hb. revert Ha Hb H.
  generalize (bytes (uuid_String a)) (bytes (uuid_String b)). intros l. induction l as [|x l IH]; intros [|y l'] Ha Hb H; try done.
  - simpl in H. injection H as <- _. destruct Hb. left.
  - simpl in H. injection H as -> _. destruct Ha. left.
  - simpl in H. injection H as -> H. f_equal. apply not_elem_of_cons in Ha as [_ ?], Hb as [_ ?]. by apply IH.
Qed.
Lemma recordingObjectKey_inj o r t e o' r' t' e' key :
  recordingObjectKey o r t e = inl key -> recordingObjectKey o' r' t' e' = inl key -> o = o' /\ r = r'.
Proof.
  intros (_ & _ & x & Hx & Hk)%recordingObjectKey_inv (_ & _ & x' & Hx' & Hk')%recordingObjectKey_inv.
  assert (key_elements o r t x = key_elements o' r' t' x') as H.
  { rewrite <- (elements_Join (key_elements o r t x)), <- (elements_Join (key_elements o' r' t' x')), <- Hk, <- Hk'.
    - done.
    - unfold key_elements. by destruct (civil _) as [[]].
    - by apply key_elements_plain.
    - unfold key_elements. by destruct (civil _) as [[]].
    - by apply key_elements_plain. }
  unfold key_elements in H. destruct (civil _) as [[y m] d], (civil _) as [[y' m'] d'].
  injection H as Ho%uuid_String_inj _ _ _ Hr. split; [done|]. by apply object_name_inj in Hr.
Qed.
End KeyFacts.

#[export] Instance decimal_uuid_text : UuidText decimal_uuid.
Proof.
  split. intros a. simpl. unfold show_int. change (String.string_of_list_ascii) with of_bytes.
  rewrite bytes_of_bytes. unfold format_int. destruct (Z.ltb_spec a 0).
  - constructor; [done|]. apply digits_chars. lia.
  - by apply digits_chars.
Qed.

End Paths.
