(* ===== verification/ObjectStore.v ===== *)
(** * Object stores

    [integrations/s3/client.go] and the like [integrations/minio/client.go]: the
    clients of object stores, and the guard of the S3 client against addresses
    that are not public. A store is its objects; the log of accesses is kept for
    the theorems. *)

From S2P Require Import Prelude Programs.
Local Open Scope Z_scope.

Module ObjectStore.
Import Programs.

(** ** IP addresses ([net.IP], [netip.Addr])

    A [net.IP] is its bytes; an address is a number of 32 or 128 bits. *)
Inductive Addr := V4 (n : Z) | V6 (n : Z).
#[export] Instance Addr_eq_dec : EqDecision Addr.
Proof. solve_decision. Defined.
Definition number (b : list Z) : Z := foldl (fun n x => n * 256 + x) 0 b.
Definition AddrFromSlice (ip : list Z) : option Addr :=
  if bool_decide (length ip = 4%nat) then Some (V4 (number ip)) else
  if bool_decide (length ip = 16%nat) then Some (V6 (number ip)) else None.
(** IPv4 addresses mapped into IPv6 are [::ffff:0:0/96]. *)
Definition Unmap (a : Addr) : Addr :=
  match a with
  | V6 n => if n / 2 ^ 32 =? 65535 then V4 (n mod 2 ^ 32) else a
  | V4 _ => a
  end.
Definition byte_at (width n : Z) (i : Z) : Z := n / 256 ^ (width - 1 - i) mod 256.
Definition v4 (n i : Z) : Z := byte_at 4 n i.
Definition v6 (n i : Z) : Z := byte_at 16 n i.

Definition IsUnspecified (a : Addr) : bool := match a with V4 n | V6 n => n =? 0 end.
Definition IsLoopback (a : Addr) : bool := match a with V4 n => v4 n 0 =? 127 | V6 n => n =? 1 end.
Definition IsMulticast (a : Addr) : bool :=
  match a with V4 n => Z.land (v4 n 0) 240 =? 224 | V6 n => v6 n 0 =? 255 end.
Definition IsLinkLocalUnicast (a : Addr) : bool :=
  match a with
  | V4 n => (v4 n 0 =? 169) && (v4 n 1 =? 254)
  | V6 n => (v6 n 0 =? 254) && (Z.land (v6 n 1) 192 =? 128)
  end.
Definition IsLinkLocalMulticast (a : Addr) : bool :=
  match a with
  | V4 n => (v4 n 0 =? 224) && (v4 n 1 =? 0) && (v4 n 2 =? 0)
  | V6 n => (v6 n 0 =? 255) && (Z.land (v6 n 1) 15 =? 2)
  end.
Definition IsPrivate (a : Addr) : bool :=
  match a with
  | V4 n => (v4 n 0 =? 10) || ((v4 n 0 =? 172) && (Z.land (v4 n 1) 240 =? 16))
            || ((v4 n 0 =? 192) && (v4 n 1 =? 168))
  | V6 n => Z.land (v6 n 0) 254 =? 252
  end.
Definition IsGlobalUnicast (a : Addr) : bool :=
  negb (IsUnspecified a) && negb (bool_decide (a = V4 4294967295))
  && negb (IsLoopback a) && negb (IsMulticast a) && negb (IsLinkLocalUnicast a).

(** A network prefix, and the two the client blocks besides. *)
Inductive Prefix := P4 (base bits : Z) | P6 (base bits : Z).
Definition contains (p : Prefix) (a : Addr) : bool :=
  match p, a with
  | P4 base bits, V4 n => n / 2 ^ (32 - bits) =? base / 2 ^ (32 - bits)
  | P6 base bits, V6 n => n / 2 ^ (128 - bits) =? base / 2 ^ (128 - bits)
  | _, _ => false
  end.
Definition ip4 (a b c d : Z) : Z := number [a; b; c; d].
Definition blockedPublicRanges : list Prefix := [P4 (ip4 100 64 0 0) 10; P4 (ip4 198 18 0 0) 15].

Definition publicEndpointIP (ip : list Z) : bool :=
  match AddrFromSlice ip with
  | None => false
  | Some addr =>
      let addr := Unmap addr in
      if negb (IsGlobalUnicast addr) || IsPrivate addr || IsLoopback addr || IsLinkLocalUnicast addr
         || IsMulticast addr || IsUnspecified addr
      then false
      else negb (existsb (fun blocked => contains blocked addr) blockedPublicRanges)
  end.

(** [DialContext] once the host is resolved: the public addresses in order until
    one answers. The second result is the addresses dialled. *)
Fixpoint dial_public {C} (dial : list Z -> result C) (addresses : list (list Z)) (dialErr : option error)
    : result C * list (list Z) :=
  match addresses with
  | [] => (inr (default (Errorf "S3 endpoint resolves to a non-public network" []) dialErr), [])
  | ip :: rest =>
      if negb (publicEndpointIP ip) then dial_public dial rest dialErr else
      match dial ip with
      | inl conn => (inl conn, [ip])
      | inr e => let (r, dialled) := dial_public dial rest (Some e) in (r, ip :: dialled)
      end
  end.

(** ** Clients *)

(** [net/url] and the SDK: a parsed URL, the error of [minio.New] if it returns
    one, and a presigned URL. *)
Record URL := {
  Scheme : string; Host : string; Hostname : string; has_User : bool; RawQuery : string;
  Fragment : string; Path : string;
}.
Record Config := {
  Endpoint : string; Region : string; Bucket : string; AccessKey : string; SecretKey : string;
  UsePathStyle : bool; PlaybackTTL : Z;
}.
Record Client := { cl_Host : string; cl_Secure : bool; cl_Config : Config }.
Class S3Lib := {
  url_Parse : string -> option URL;
  ParseIP : string -> option (list Z);
  minio_New : Config -> option error;
  presigned : Client -> string -> Z -> result string;
  has_bucket : Client -> bool;
}.

(** Objects by host, bucket and key. *)
Definition Location : Type := string * string * string.
Record Object := { o_ContentType : string; o_Data : list ascii }.
Inductive Access :=
| APut (l : Location) (o : Object)
| ARemove (l : Location)
| APresign (l : Location).
Record Stores := { objects : gmap Location Object; accesses : list Access }.
Class HasStores (S : Type) := { get_stores : S -> Stores; set_stores : Stores -> S -> S }.

Section Client.
Context {L : S3Lib} {S : Type} {H : HasStores S}.

Definition parseEndpoint (value : string) : result (string * bool) :=
  let bad := Errorf "S3 endpoint must be an HTTP or HTTPS origin" [] in
  match url_Parse (TrimSpace value) with
  | None => inr bad
  | Some u =>
      if bool_decide (Host u = "")
         || (negb (bool_decide (Scheme u = "http")) && negb (bool_decide (Scheme u = "https")))
         || has_User u || negb (bool_decide (RawQuery u = "")) || negb (bool_decide (Fragment u = ""))
         || (negb (bool_decide (Path u = "")) && negb (bool_decide (Path u = "/")))
      then inr bad else inl (Host u, bool_decide (Scheme u = "https"))
  end.
Definition New (cfg : Config) : result Client :=
  let? ' (host, secure) := parseEndpoint (Endpoint cfg) in
  let cfg := {| Endpoint := Endpoint cfg;
    Region := if bool_decide (TrimSpace (Region cfg) = "") then "us-east-1" else TrimSpace (Region cfg);
    Bucket := TrimSpace (Bucket cfg); AccessKey := TrimSpace (AccessKey cfg);
    SecretKey := TrimSpace (SecretKey cfg); UsePathStyle := UsePathStyle cfg;
    PlaybackTTL := if PlaybackTTL cfg <=? 0 then 15 * Minute else PlaybackTTL cfg |} in
  let? _ := guard_err (bool_decide (Bucket cfg = "")) (Errorf "S3 bucket is required" []) in
  let? _ := guard_err (bool_decide (AccessKey cfg = "") || bool_decide (SecretKey cfg = ""))
              (Errorf "S3 credentials are required" []) in
  match minio_New cfg with
  | Some e => inr (Wrapf "initialize S3 client: %w" [] e)
  | None => inl {| cl_Host := host; cl_Secure := secure; cl_Config := cfg |}
  end.

Definition validateKey (key : string) : result unit :=
  let key := TrimSpace key in
  if bool_decide (key = "") || HasPrefix key "/" || Contains key ".."
  then inr (Errorf "S3 object key is invalid" []) else inl tt.

Definition cl_Bucket (c : Client) : string := Bucket (cl_Config c).
Definition location (c : Client) (key : string) : Location := (cl_Host c, cl_Bucket c, key).
(** Requests to the store: put, remove (of a missing object too), and a look
    at an object. *)
Definition put_object (l : Location) (o : Object) (s : S) : S :=
  let st := get_stores s in
  set_stores {| objects := <[l := o]> (objects st); accesses := accesses st ++ [APut l o] |} s.
Definition remove_object (l : Location) (s : S) : S :=
  let st := get_stores s in
  set_stores {| objects := delete l (objects st); accesses := accesses st ++ [ARemove l] |} s.
Definition log_presign (l : Location) (s : S) : S :=
  let st := get_stores s in
  set_stores {| objects := objects st; accesses := accesses st ++ [APresign l] |} s.
Definition PutObject (c : Client) (key : string) (o : Object) (s : S) : result unit * S :=
  (inl tt, put_object (location c key) o s).
Definition RemoveObject (c : Client) (key : string) (s : S) : result unit * S :=
  (inl tt, remove_object (location c key) s).
Definition StatObject (c : Client) (key : string) (s : S) : result unit * S :=
  (match objects (get_stores s) !! location c key with
   | Some _ => inl tt | None => inr (Errorf "The specified key does not exist." []) end, s).
Definition PresignedGetObject (c : Client) (key : string) (s : S) : result string * S :=
  (presigned c key (PlaybackTTL (cl_Config c)), log_presign (location c key) s).
Definition BucketExists (c : Client) (s : S) : result bool * S := (inl (has_bucket c), s).

(** [Put]: [read] is what the reader gives when it is asked for [size] bytes. *)
Definition Put (c : Client) (key contentType : string) (read : S -> result (list ascii)) : prog S unit :=
  lift_ (validateKey key) ;*
  wrap_ (Wrapf "upload S3 object: %w" []) (call (fun s =>
    match read s with
    | inl data => PutObject c key {| o_ContentType := contentType; o_Data := data |} s
    | inr e => (inr e, s)
    end)).
Definition PlaybackURL (now : S -> Z) (c : Client) (key : string) : prog S (string * Z) :=
  lift_ (validateKey key) ;*
  let* t := local (fun s => (now s, s)) in
  let* url := wrap_ (Wrapf "presign S3 object: %w" []) (call (PresignedGetObject c key)) in
  done_ (url, t + PlaybackTTL (cl_Config c)).
Definition Delete (c : Client) (key : string) : prog S unit :=
  lift_ (validateKey key) ;*
  wrap_ (Wrapf "delete S3 object: %w" []) (call (RemoveObject c key)).

(** [Test]: write, look, remove; a failure after the write removes the object
    once more. *)
Definition Test (fresh_name : S -> string * S) (c : Client) : prog S unit :=
  let* exists_ := wrap_ (Wrapf "check S3 bucket: %w" []) (call (BucketExists c)) in
  raise_if (negb exists_) (Errorf "S3 bucket %q does not exist" [cl_Bucket c]) ;*
  let* name := local fresh_name in
  let key := "leamout-storage-test/" +:+ name in
  let cleanup := call (RemoveObject c key) in
  wrap_ (Wrapf "test S3 write access: %w" [])
    (call (PutObject c key {| o_ContentType := "text/plain"; o_Data := bytes "leamout" |})) ;*
  let* r := attempt_ (
    wrap_ (Wrapf "test S3 read access: %w" []) (call (StatObject c key)) ;*
    wrap_ (Wrapf "test S3 delete access: %w" []) (call (RemoveObject c key))) in
  match r with
  | inl _ => done_ tt
  | inr e => attempt_ cleanup ;* raise e
  end.
End Client.

(** ** Only public addresses are dialled *)

(** The networks no tenant may reach: "this host", private, shared, loopback,
    link-local, benchmarking, multicast and broadcast. *)
Definition special_networks : list Prefix :=
  [P4 (ip4 0 0 0 0) 32; P4 (ip4 10 0 0 0) 8; P4 (ip4 100 64 0 0) 10; P4 (ip4 127 0 0 0) 8;
   P4 (ip4 169 254 0 0) 16; P4 (ip4 172 16 0 0) 12; P4 (ip4 192 168 0 0) 16; P4 (ip4 198 18 0 0) 15;
   P4 (ip4 224 0 0 0) 4; P4 (ip4 255 255 255 255) 32;
   P6 0 128; P6 1 128; P6 (252 * 2 ^ 120) 7; P6 (254 * 2 ^ 120 + 128 * 2 ^ 112) 10; P6 (255 * 2 ^ 120) 8].
Definition special (a : Addr) : bool := existsb (fun p => contains p a) special_networks.

Lemma number_bounds b : Forall (fun x => 0 <= x < 256) b -> 0 <= number b < 256 ^ Z.of_nat (length b).
Proof.
  unfold number. induction b as [|x b IH] using rev_ind; [simpl; lia|].
  intros [Hb Hx%Forall_inv]%Forall_app. rewrite foldl_snoc, length_app. simpl length.
  specialize (IH Hb). rewrite Nat2Z.inj_add, Z.pow_add_r by lia. lia.
Qed.
(** The masks of the address predicates, on all bytes. *)
Lemma byte_masks x : 0 <= x < 256 ->
  Z.land x 240 = x / 16 * 16 /\ Z.land x 192 = x / 64 * 64 /\ Z.land x 254 = x / 2 * 2.
Proof.
  intros Hx. assert (forallb (fun n => let x := Z.of_nat n in
    (Z.land x 240 =? x / 16 * 16) && (Z.land x 192 =? x / 64 * 64) && (Z.land x 254 =? x / 2 * 2)) (List.seq 0 256) = true)
    as H by (vm_compute; reflexivity).
  rewrite forallb_forall in H. specialize (H (Z.to_nat x)). rewrite Z2Nat.id in H by lia.
  rewrite !andb_true_iff, !Z.eqb_eq in H. destruct H as [[? ?] ?]; [|done]. apply in_seq. lia.
Qed.
(** The first two bytes of an IPv4 address decide every test. *)
Lemma v4_bytes n : 0 <= n < 2 ^ 32 ->
  exists a b r, n = a * 2 ^ 24 + b * 2 ^ 16 + r /\ 0 <= a < 256 /\ 0 <= b < 256 /\ 0 <= r < 2 ^ 16
    /\ v4 n 0 = a /\ v4 n 1 = b.
Proof.
  intros Hn. exists (n / 2 ^ 24), (n / 2 ^ 16 mod 256), (n mod 2 ^ 16).
  assert (0 <= n / 2 ^ 24 < 256) as Hb by (split; [apply Z.div_pos; lia|apply Z.div_lt_upper_bound; lia]).
  assert (v4 n 0 = n / 2 ^ 24) as -> by (by apply Z.mod_small).
  split_and!; try done; Z.to_euclidean_division_equations; lia.
Qed.
Lemma v6_bytes n : 0 <= n < 2 ^ 128 ->
  exists a b r, n = a * 2 ^ 120 + b * 2 ^ 112 + r /\ 0 <= a < 256 /\ 0 <= b < 256 /\ 0 <= r < 2 ^ 112
    /\ v6 n 0 = a /\ v6 n 1 = b.
Proof.
  intros Hn. exists (n / 2 ^ 120), (n / 2 ^ 112 mod 256), (n mod 2 ^ 112).
  assert (0 <= n / 2 ^ 120 < 256) as Hb by (split; [apply Z.div_pos; lia|apply Z.div_lt_upper_bound; lia]).
  assert (v6 n 0 = n / 2 ^ 120) as -> by (by apply Z.mod_small).
  split_and!; try done; Z.to_euclidean_division_equations; lia.
Qed.
Lemma land_eqb a m k c v : Z.land a m = a / k * k -> 0 < k -> v = c * k -> (Z.land a m =? v) = (a / k =? c).
Proof.
  intros -> Hk ->. apply Bool.eq_iff_eq_true. rewrite !Z.eqb_eq. nia.
Qed.
Definition public (a : Addr) : bool :=
  negb (negb (IsGlobalUnicast a) || IsPrivate a || IsLoopback a || IsLinkLocalUnicast a
        || IsMulticast a || IsUnspecified a)
  && negb (existsb (fun p => contains p a) blockedPublicRanges).
Lemma V4_eqb n m : bool_decide (V4 n = V4 m) = (n =? m).
Proof.
  apply Bool.eq_iff_eq_true. rewrite Z.eqb_eq, bool_decide_eq_true. split; [by injection 1|by intros ->].
Qed.
(** The quotients the prefixes compare, by the first two bytes. *)
Lemma quotients4 a b r :
  0 <= a < 256 -> 0 <= b < 256 -> 0 <= r < 2 ^ 16 ->
  let n := a * 2 ^ 24 + b * 2 ^ 16 + r in
  n / 2 ^ (32 - 4) = a / 16 /\ n / 2 ^ (32 - 8) = a /\ n / 2 ^ (32 - 10) = a * 4 + b / 64
  /\ n / 2 ^ (32 - 12) = a * 16 + b / 16 /\ n / 2 ^ (32 - 15) = a * 128 + b / 2
  /\ n / 2 ^ (32 - 16) = a * 256 + b /\ n / 2 ^ (32 - 32) = n.
Proof. intros Ha Hb Hr. cbv zeta. split_and!; Z.to_euclidean_division_equations; lia. Qed.
Lemma public_not_special4 n : 0 <= n < 2 ^ 32 -> public (V4 n) = negb (special (V4 n)).
Proof.
  intros (a & b & r & Hn & Ha & Hb & Hr & Ha' & Hb')%v4_bytes.
  destruct (byte_masks a Ha) as (Ma & _ & _). destruct (byte_masks b Hb) as (Mb & _ & _).
  pose proof (quotients4 a b r Ha Hb Hr) as (Q4 & Q8 & Q10 & Q12 & Q15 & Q16 & Q32). rewrite <- Hn in *.
  unfold public, special, special_networks, blockedPublicRanges, IsGlobalUnicast, IsPrivate, IsLoopback, IsLinkLocalUnicast,
    IsMulticast, IsUnspecified, contains. cbn [existsb].
  rewrite Ha', Hb', V4_eqb, Q4, Q8, Q10, Q12, Q15, Q16, Q32.
  rewrite (land_eqb a 240 16 14 224 Ma), (land_eqb b 240 16 1 16 Mb) by lia.
  clear Ma Mb Ha' Hb' Q4 Q8 Q10 Q12 Q15 Q16 Q32.
  repeat match goal with |- context [ip4 ?a ?b ?c ?d / ?e] => let v := eval vm_compute in (ip4 a b c d / e) in
    change (ip4 a b c d / e) with v end.
  apply Bool.eq_iff_eq_true.
  rewrite ?andb_true_iff, ?negb_true_iff, ?orb_false_iff, ?negb_false_iff, ?andb_true_iff, ?negb_true_iff,
    ?andb_false_iff, ?Z.eqb_neq.
  assert (a <> 169 \/ b <> 254 <-> a * 256 + b <> 43518) as -> by lia.
  assert (a <> 192 \/ b <> 168 <-> a * 256 + b <> 49320) as -> by lia.
  assert (a <> 172 \/ b / 16 <> 1 <-> a * 16 + b / 16 <> 2753) as -> by (Z.to_euclidean_division_equations; lia).
  tauto.
Qed.
Lemma quotients6 a b r :
  0 <= a < 256 -> 0 <= b < 256 -> 0 <= r < 2 ^ 112 ->
  let n := a * 2 ^ 120 + b * 2 ^ 112 + r in
  n / 2 ^ (128 - 7) = a / 2 /\ n / 2 ^ (128 - 8) = a /\ n / 2 ^ (128 - 10) = a * 4 + b / 64
  /\ n / 2 ^ (128 - 128) = n.
Proof. intros Ha Hb Hr. cbv zeta. split_and!; Z.to_euclidean_division_equations; lia. Qed.
Lemma V6_neqb n m : bool_decide (V6 n = V4 m) = false.
Proof. by rewrite bool_decide_false. Qed.
Lemma public_not_special6 n : 0 <= n < 2 ^ 128 -> public (V6 n) = negb (special (V6 n)).
Proof.
  intros (a & b & r & Hn & Ha & Hb & Hr & Ha' & Hb')%v6_bytes.
  destruct (byte_masks a Ha) as (_ & _ & Ma). destruct (byte_masks b Hb) as (_ & Mb & _).
  pose proof (quotients6 a b r Ha Hb Hr) as (Q7 & Q8 & Q10 & Q128). rewrite <- Hn in *.
  unfold public, special, special_networks, blockedPublicRanges, IsGlobalUnicast, IsPrivate, IsLoopback, IsLinkLocalUnicast,
    IsMulticast, IsUnspecified, contains. cbn [existsb].
  rewrite Ha', Hb', V6_neqb, Q7, Q8, Q10, Q128.
  rewrite (land_eqb a 254 2 126 252 Ma), (land_eqb b 192 64 2 128 Mb) by lia.
  clear Ma Mb Ha' Hb' Q7 Q8 Q10 Q128.
  repeat match goal with |- context [?e =? ?x / ?y] => let v := eval vm_compute in (x / y) in
    change (x / y) with v end.
  apply Bool.eq_iff_eq_true.
  rewrite ?andb_true_iff, ?negb_true_iff, ?orb_false_iff, ?negb_false_iff, ?andb_true_iff, ?negb_true_iff,
    ?andb_false_iff, ?Z.eqb_neq.
  assert (a <> 254 \/ b / 64 <> 2 <-> a * 4 + b / 64 <> 1018) as -> by (Z.to_euclidean_division_equations; lia).
  tauto.
Qed.

(** A slice of bytes is dialled exactly if it is an address of no special
    network, mapped addresses included. *)
Lemma publicEndpointIP_special ip :
  Forall (fun x => 0 <= x < 256) ip ->
  publicEndpointIP ip = match AddrFromSlice ip with Some a => negb (special (Unmap a)) | None => false end.
Proof.
  intros HF%number_bounds. unfold publicEndpointIP, AddrFromSlice.
  assert (forall a, match Unmap a with V4 n => 0 <= n < 2 ^ 32 | V6 n => 0 <= n < 2 ^ 128 end ->
    (if negb (IsGlobalUnicast (Unmap a)) || IsPrivate (Unmap a) || IsLoopback (Unmap a) || IsLinkLocalUnicast (Unmap a)
         || IsMulticast (Unmap a) || IsUnspecified (Unmap a)
     then false else negb (existsb (fun blocked => contains blocked (Unmap a)) blockedPublicRanges))
    = negb (special (Unmap a))) as Hpub.
  { intros a Ha. transitivity (public (Unmap a)).
    - unfold public. by destruct (_ || _).
    - destruct (Unmap a); [by apply public_not_special4|by apply public_not_special6]. }
  case_bool_decide as H4; [|case_bool_decide as H16; [|done]]; apply Hpub.
  - rewrite H4 in HF. done.
  - rewrite H16 in HF. cbn. destruct (Z.eqb_spec (number ip / 2 ^ 32) 65535); [|done].
    apply Z.mod_pos_bound. lia.
Qed.

(** [ip] may be dialled. *)
Definition allowed_ip (ip : list Z) : Prop :=
  exists a, AddrFromSlice ip = Some a /\ special (Unmap a) = false.
Lemma publicEndpointIP_allowed ip :
  Forall (fun x => 0 <= x < 256) ip -> publicEndpointIP ip = true <-> allowed_ip ip.
Proof.
  intros HF. rewrite publicEndpointIP_special by done. unfold allowed_ip.
  destruct (AddrFromSlice ip) as [a|]; [|naive_solver].
  rewrite negb_true_iff. naive_solver.
Qed.
Lemma dial_public_spec {C} (dial : list Z -> result C) addresses dialErr r dialled :
  Forall (Forall (fun x => 0 <= x < 256)) addresses ->
  dial_public dial addresses dialErr = (r, dialled) ->
  Forall (fun ip => ip ∈ addresses /\ allowed_ip ip) dialled
  /\ (forall conn, r = inl conn -> exists ip, last dialled = Some ip /\ dial ip = inl conn)
  /\ (Forall (fun ip => ~ allowed_ip ip) addresses ->
      dialled = [] /\ r = inr (default (Errorf "S3 endpoint resolves to a non-public network" []) dialErr)).
Proof.
  intros HF. revert dialErr r dialled. induction HF as [|ip l Hip HF IH]; simpl; intros dialErr r dialled H.
  { by simplify_eq. }
  assert (forall (P : list Z -> Prop) d, Forall (fun x => x ∈ l /\ P x) d -> Forall (fun x => x ∈ ip :: l /\ P x) d) as Hsub.
  { intros P d Hd. eapply Forall_impl; [exact Hd|]. intros x [? ?]. split; [by right|done]. }
  destruct (publicEndpointIP ip) eqn:Hp; simpl in H.
  - apply publicEndpointIP_allowed in Hp; [|done].
    assert (forall Q, Forall (fun ip => ~ allowed_ip ip) (ip :: l) -> Q) as Hno by (by intros Q [? _]%Forall_cons).
    destruct (dial ip) as [conn|e] eqn:Hd.
    + simplify_eq. split_and!; [|naive_solver|apply Hno]. constructor; [|done]. split; [left|done].
    + destruct (dial_public dial l (Some e)) as [r' d'] eqn:Hr. simplify_eq.
      destruct (IH _ _ _ Hr) as (H1 & H2 & _). split_and!; [|intros conn Hc|apply Hno].
      * constructor; [split; [left|done]|by apply Hsub].
      * destruct (H2 conn Hc) as (x & Hx & Hdx). exists x. split; [|done]. by destruct d'.
  - destruct (IH _ _ _ H) as (H1 & H2 & H3). split_and!; [by apply Hsub|done|].
    intros [_ Hl]%Forall_cons. auto.
Qed.

(** Whatever a host name resolves to, the S3 client opens connections only to
    addresses outside the private, loopback, link-local, shared, benchmarking,
    multicast and broadcast networks; if no address is left it answers with an
    error without dialling. *)
Theorem dial_public_only {C} (dial : list Z -> result C) (addresses : list (list Z)) (r : result C)
    (dialled : list (list Z)) :
  Forall (Forall (fun x => 0 <= x < 256)) addresses ->
  dial_public dial addresses None = (r, dialled) ->
  Forall (fun ip => ip ∈ addresses /\ allowed_ip ip) dialled
  /\ (forall conn, r = inl conn -> exists ip, last dialled = Some ip /\ dial ip = inl conn)
  /\ (Forall (fun ip => ~ allowed_ip ip) addresses ->
      dialled = [] /\ r = inr (Errorf "S3 endpoint resolves to a non-public network" [])).
Proof. apply dial_public_spec. Qed.

(** Of a name that resolves to the metadata address, a mapped private address and
    a public one, only the public one is dialled. *)
Definition ex_addresses : list (list Z) :=
  [[169; 254; 169; 254]; [0; 0; 0; 0; 0; 0; 0; 0; 0; 0; 255; 255; 10; 0; 0; 1]; [93; 184; 216; 34]].
Lemma dial_public_only_witness :
  dial_public (fun _ => inl tt) ex_addresses None = (inl tt, [[93; 184; 216; 34]])
  /\ Forall (fun ip => ip ∈ ex_addresses /\ allowed_ip ip) [[93; 184; 216; 34]].
Proof.
  split; [vm_compute; reflexivity|].
  refine (proj1 (dial_public_only (fun _ => inl tt) ex_addresses (inl tt) _ _ _)).
  - repeat constructor; vm_compute; done.
  - vm_compute. reflexivity.
Defined.
End ObjectStore.
