(* ===== verification/RecordingStore.v ===== *)
(** * Recordings: the state and its tables

    The rows of [migrations/020_create_storage_integrations.sql],
    [021_create_recordings.sql] and [033_create_retention_policies.sql] with
    their constraints, and the statements of [database/queries/recordings.sql],
    [storage_integrations.sql] and [retention.sql]. The state also holds the
    object stores, the shared volume FreeSWITCH writes recordings to, the clock
    and the ids the next generated rows get. *)

From stdpp Require Import sorting.
From S2P Require Import Prelude Programs ObjectStore.
Local Open Scope Z_scope.

Module RecordingStore.
Import Programs ObjectStore.

(** ** Rows

    The columns [storage_url] and [duration_seconds], which no code writes, are
    left out. *)
Record Recording := {
  r_ID : UUID; r_OrganizationID : UUID; r_CallID : UUID; r_StorageIntegrationID : option UUID;
  r_Status : string; r_StorageKey : option string; r_StorageProvider : option string;
  r_StorageBucket : option string; r_SourcePath : option string; r_StoppedAt : option Z;
  r_UploadAttempts : Z; r_NextUploadAt : option Z; r_UploadError : option string;
  r_FileSizeBytes : option Z; r_Format : option string; r_StartedAt : option Z;
  r_CompletedAt : option Z; r_CreatedAt : Z; r_UpdatedAt : Z;
}.
Record StorageIntegration := {
  i_ID : UUID; i_OrganizationID : UUID; i_Name : string; i_EndpointUrl : string; i_Region : string;
  i_Bucket : string; i_AccessKeyID : string; i_SecretAccessKeyCiphertext : string; i_UsePathStyle : bool;
  i_Status : string; i_CreatedAt : Z; i_UpdatedAt : Z;
}.
Record Policy := {
  po_OrganizationID : UUID; po_Resource : string; po_RetentionDays : Z; po_Enabled : bool;
  po_CreatedAt : Z; po_UpdatedAt : Z;
}.
(** The columns of a call that are read here. *)
Record CallRow := { c_OrganizationID : UUID; c_State : string }.
(** What the outbox gets: the type of the event and the row as the client sees it. *)
Record Event := { ev_Type : string; ev_Recording : Recording; ev_OccurredAt : Z }.

Definition StatusRecording : string := "recording".
Definition StatusUploading : string := "uploading".
Definition StatusCompleted : string := "completed".
Definition StatusFailed : string := "failed".
Definition StatusDeleted : string := "deleted".

(** An access to a file: a path and where its links lead, a path that was opened,
    one that was removed. *)
Inductive FileAccess := AResolve (p q : string) | AOpen (p : string) | AUnlink (p : string).

(** ** The state

    [paths]: the file a path leads to, symbolic links followed; [files]: the
    content of each file, a directory or device having none. A file stays while
    it is open. [resolve]: where the links of a path lead. The accesses to stores
    and files are logged for the theorems. *)
Record State := {
  organizations : gmap UUID bool;
  calls : gmap UUID CallRow;
  integrations : gmap UUID StorageIntegration;
  recordings : gmap UUID Recording;
  policies : gmap (UUID * string) Policy;
  outbox : list Event;
  stores : Stores;
  paths : gmap string Z;
  files : gmap Z (option (list ascii));
  resolve : gmap string string;
  file_log : list FileAccess;
  now : Z;
  next : UUID;
}.
Definition set_integrations (m : gmap UUID StorageIntegration) (s : State) : State :=
  {| organizations := organizations s; calls := calls s; integrations := m; recordings := recordings s;
     policies := policies s; outbox := outbox s; stores := stores s; paths := paths s; files := files s;
     resolve := resolve s; file_log := file_log s; now := now s; next := next s |}.
Definition set_recordings (m : gmap UUID Recording) (s : State) : State :=
  {| organizations := organizations s; calls := calls s; integrations := integrations s; recordings := m;
     policies := policies s; outbox := outbox s; stores := stores s; paths := paths s; files := files s;
     resolve := resolve s; file_log := file_log s; now := now s; next := next s |}.
Definition set_policies (m : gmap (UUID * string) Policy) (s : State) : State :=
  {| organizations := organizations s; calls := calls s; integrations := integrations s;
     recordings := recordings s; policies := m; outbox := outbox s; stores := stores s; paths := paths s;
     files := files s; resolve := resolve s; file_log := file_log s; now := now s; next := next s |}.
Definition add_event (e : Event) (s : State) : State :=
  {| organizations := organizations s; calls := calls s; integrations := integrations s;
     recordings := recordings s; policies := policies s; outbox := outbox s ++ [e]; stores := stores s;
     paths := paths s; files := files s; resolve := resolve s; file_log := file_log s; now := now s;
     next := next s |}.
#[export] Instance State_stores : HasStores State := {|
  get_stores := stores;
  set_stores st s :=
    {| organizations := organizations s; calls := calls s; integrations := integrations s;
       recordings := recordings s; policies := policies s; outbox := outbox s; stores := st;
       paths := paths s; files := files s; resolve := resolve s; file_log := file_log s; now := now s;
       next := next s |} |}.
(** [os.Remove]. *)
Definition unlink (p : string) (s : State) : State :=
  {| organizations := organizations s; calls := calls s; integrations := integrations s;
     recordings := recordings s; policies := policies s; outbox := outbox s; stores := stores s;
     paths := delete p (paths s); files := files s; resolve := resolve s; file_log := file_log s ++ [AUnlink p];
     now := now s; next := next s |}.
Definition log_file (a : FileAccess) (s : State) : State :=
  {| organizations := organizations s; calls := calls s; integrations := integrations s;
     recordings := recordings s; policies := policies s; outbox := outbox s; stores := stores s;
     paths := paths s; files := files s; resolve := resolve s; file_log := file_log s ++ [a];
     now := now s; next := next s |}.
Definition fresh (s : State) : UUID * State :=
  (next s, {| organizations := organizations s; calls := calls s; integrations := integrations s;
     recordings := recordings s; policies := policies s; outbox := outbox s; stores := stores s;
     paths := paths s; files := files s; resolve := resolve s; file_log := file_log s; now := now s;
     next := next s + 1 |}).
Definition time_now (s : State) : Z * State := (now s, s).

Definition rows_of {A} (m : gmap UUID A) : list A := snd <$> map_to_list m.

(** ** Constraints on recordings *)
(** [source_path LIKE '/%' AND source_path !~ '(^|/)[.][.](/|$)']. *)
Definition source_path_ok (p : string) : bool :=
  HasPrefix p "/" && negb (bool_decide (".." ∈ Split p "/"%char)).
Definition recording_ok (r : Recording) : bool :=
  bool_decide (r_Status r ∈ [StatusRecording; StatusUploading; StatusCompleted; StatusFailed; StatusDeleted])
  && (0 <=? r_UploadAttempts r)
  && match r_SourcePath r with Some p => source_path_ok p | None => true end
  && match r_FileSizeBytes r with Some n => 0 <=? n | None => true end
  && opt_text (r_SourcePath r) && opt_text (r_StorageKey r) && opt_text (r_StorageBucket r)
  && opt_text (r_UploadError r) && opt_text (r_Format r)
  && match r_StartedAt r, r_CompletedAt r with Some b, Some e => b <=? e | _, _ => true end.
(** The unique indexes on the call and the source path or the storage key. *)
Definition clashes (r r' : Recording) : bool :=
  negb (bool_decide (r_ID r = r_ID r')) && bool_decide (r_CallID r = r_CallID r')
  && ((bool_decide (is_Some (r_SourcePath r)) && bool_decide (r_SourcePath r = r_SourcePath r'))
      || (bool_decide (is_Some (r_StorageKey r)) && bool_decide (r_StorageKey r = r_StorageKey r'))).
(** The foreign keys: the call exists (and the organization), and a named
    integration is one of the organization. *)
Definition integration_ok (s : State) (r : Recording) : bool :=
  match r_StorageIntegrationID r with
  | None => true
  | Some i => match integrations s !! i with
              | Some it => bool_decide (i_OrganizationID it = r_OrganizationID r)
              | None => false
              end
  end.
Definition put_recording (r : Recording) (s : State) : result (Recording * State) :=
  if negb (recording_ok r) then inr (check_violation "recordings") else
  if existsb (clashes r) (rows_of (recordings s)) then inr (unique_violation "recordings") else
  if negb (bool_decide (is_Some (organizations s !! r_OrganizationID r))
           && bool_decide (is_Some (calls s !! r_CallID r)) && integration_ok s r)
  then inr (PgError "23503" "recordings") else
  inl (r, set_recordings (<[r_ID r := r]> (recordings s)) s).

(** [UPDATE recordings SET f WHERE id = ... AND p RETURNING *], [:one]. *)
Definition update_recording (id : UUID) (p : Recording -> bool) (f : Recording -> Recording) (s : State)
    : result (Recording * State) :=
  match recordings s !! id with
  | Some r => if p r then put_recording (f r) s else no_rows
  | None => no_rows
  end.
Definition in_org (org : UUID) (r : Recording) : bool := bool_decide (r_OrganizationID r = org).
Definition status_in (l : list string) (r : Recording) : bool := bool_decide (r_Status r ∈ l).

(** ** Statements on recordings (database/queries/recordings.sql) *)
Definition CreateRecording (id org callID : UUID) (status source_path : string) (started_at : Z) (s : State)
    : result (Recording * State) :=
  put_recording {|
    r_ID := id; r_OrganizationID := org; r_CallID := callID; r_StorageIntegrationID := None;
    r_Status := status; r_StorageKey := None; r_StorageProvider := None; r_StorageBucket := None;
    r_SourcePath := Some source_path; r_StoppedAt := None; r_UploadAttempts := 0; r_NextUploadAt := None;
    r_UploadError := None; r_FileSizeBytes := None; r_Format := None; r_StartedAt := Some started_at;
    r_CompletedAt := None; r_CreatedAt := now s; r_UpdatedAt := now s |} s.

Definition GetRecording (org id : UUID) (s : State) : result Recording :=
  match recordings s !! id with
  | Some r => if in_org org r && negb (bool_decide (r_Status r = StatusDeleted)) then inl r else no_rows
  | None => no_rows
  end.
Definition GetRecordingIncludingDeleted (org id : UUID) (s : State) : result Recording :=
  match recordings s !! id with
  | Some r => if in_org org r then inl r else no_rows
  | None => no_rows
  end.
Definition GetRecordingByCallStorageKey (callID : UUID) (source_path : string) (s : State) : result Recording :=
  match find (fun r => bool_decide (r_CallID r = callID) && bool_decide (r_SourcePath r = Some source_path))
          (rows_of (recordings s)) with
  | Some r => inl r
  | None => no_rows
  end.

Definition newest (a b : Recording) : Prop := r_CreatedAt b <= r_CreatedAt a.
#[export] Instance newest_dec : RelDecision newest.
Proof. intros a b. unfold newest. apply _. Defined.
Definition ListRecordings (org : UUID) (page_offset page_limit : Z) (s : State) : list Recording :=
  take (Z.to_nat page_limit) (drop (Z.to_nat page_offset)
    (merge_sort newest (filter (fun r => in_org org r && negb (bool_decide (r_Status r = StatusDeleted)) = true)
      (rows_of (recordings s))))).

Definition call_over (s : State) (r : Recording) : bool :=
  match calls s !! r_CallID r with
  | Some c => bool_decide (c_State c ∈ ["completed"; "failed"; "cancelled"]%string)
  | None => false
  end.
Definition least_recent (a b : Recording) : Prop := r_UpdatedAt a <= r_UpdatedAt b.
#[export] Instance least_recent_dec : RelDecision least_recent.
Proof. intros a b. unfold least_recent. apply _. Defined.
Definition ListRecordingsForReconciliation (updated_before batch_size : Z) (s : State) : list Recording :=
  take (Z.to_nat batch_size) (merge_sort least_recent
    (filter (fun r => bool_decide (r_Status r = StatusRecording) && call_over s r
                      && (r_UpdatedAt r <=? updated_before) = true)
      (rows_of (recordings s)))).

Section Updates.
Context (t : Z).
(** [SET status = ..., stopped_at = ..., next_upload_at = ..., upload_error = ..., upload_attempts = ...]. *)
Definition with_upload (status : string) (stopped next_at : option Z) (err : option string) (attempts : Z)
    (r : Recording) : Recording :=
  {| r_ID := r_ID r; r_OrganizationID := r_OrganizationID r; r_CallID := r_CallID r;
     r_StorageIntegrationID := r_StorageIntegrationID r; r_Status := status; r_StorageKey := r_StorageKey r;
     r_StorageProvider := r_StorageProvider r; r_StorageBucket := r_StorageBucket r;
     r_SourcePath := r_SourcePath r; r_StoppedAt := stopped; r_UploadAttempts := attempts;
     r_NextUploadAt := next_at; r_UploadError := err; r_FileSizeBytes := r_FileSizeBytes r;
     r_Format := r_Format r; r_StartedAt := r_StartedAt r; r_CompletedAt := r_CompletedAt r;
     r_CreatedAt := r_CreatedAt r; r_UpdatedAt := t |}.
(** [SET storage_integration_id = ..., storage_key = ..., storage_provider = ..., storage_bucket = ...]. *)
Definition with_storage (integration : option UUID) (key provider bucket : option string) (r : Recording)
    : Recording :=
  {| r_ID := r_ID r; r_OrganizationID := r_OrganizationID r; r_CallID := r_CallID r;
     r_StorageIntegrationID := integration; r_Status := r_Status r; r_StorageKey := key;
     r_StorageProvider := provider; r_StorageBucket := bucket;
     r_SourcePath := r_SourcePath r; r_StoppedAt := r_StoppedAt r; r_UploadAttempts := r_UploadAttempts r;
     r_NextUploadAt := r_NextUploadAt r; r_UploadError := r_UploadError r; r_FileSizeBytes := r_FileSizeBytes r;
     r_Format := r_Format r; r_StartedAt := r_StartedAt r; r_CompletedAt := r_CompletedAt r;
     r_CreatedAt := r_CreatedAt r; r_UpdatedAt := t |}.
(** [SET completed_at = ..., file_size_bytes = ..., format = ...]. *)
Definition with_end (completed : option Z) (size : option Z) (format : option string) (r : Recording) : Recording :=
  {| r_ID := r_ID r; r_OrganizationID := r_OrganizationID r; r_CallID := r_CallID r;
     r_StorageIntegrationID := r_StorageIntegrationID r; r_Status := r_Status r; r_StorageKey := r_StorageKey r;
     r_StorageProvider := r_StorageProvider r; r_StorageBucket := r_StorageBucket r;
     r_SourcePath := r_SourcePath r; r_StoppedAt := r_StoppedAt r; r_UploadAttempts := r_UploadAttempts r;
     r_NextUploadAt := r_NextUploadAt r; r_UploadError := r_UploadError r; r_FileSizeBytes := size;
     r_Format := format; r_StartedAt := r_StartedAt r; r_CompletedAt := completed;
     r_CreatedAt := r_CreatedAt r; r_UpdatedAt := t |}.
End Updates.
(** [COALESCE(a, b)]. *)
Definition coalesce {A} (a b : option A) : option A := match a with Some _ => a | None => b end.

Definition MarkRecordingReadyForUpload (stopped_at : Z) (org id : UUID) (s : State) : result (Recording * State) :=
  update_recording id (fun r => in_org org r && status_in [StatusRecording] r)
    (fun r => with_upload (now s) StatusUploading (coalesce (r_StoppedAt r) (Some stopped_at)) (Some (now s)) None
                (r_UploadAttempts r) r) s.

(** The claim: rows that are due, the longest due first, each with a new time.
    Rows another transaction holds are skipped. *)
Definition due_at (s : State) (r : Recording) : Z := default (now s) (r_NextUploadAt r).
Definition due_before (a b : Recording) : Prop :=
  let k r := default (r_UpdatedAt r) (r_NextUploadAt r) in
  k a < k b \/ (k a = k b /\ r_UpdatedAt a <= r_UpdatedAt b).
#[export] Instance due_before_dec : RelDecision due_before.
Proof. intros a b. unfold due_before. apply _. Defined.
Definition due (claimed_at batch_size : Z) (s : State) : list Recording :=
  take (Z.to_nat batch_size) (merge_sort due_before
    (filter (fun r => bool_decide (r_Status r = StatusUploading) && bool_decide (is_Some (r_SourcePath r))
                      && (due_at s r <=? claimed_at) = true)
      (rows_of (recordings s)))).
Definition leased (t until : Z) (r : Recording) : Recording :=
  with_upload t (r_Status r) (r_StoppedAt r) (Some until) (r_UploadError r) (r_UploadAttempts r) r.
Definition ListRecordingsForUpload (claimed_at batch_size lease_until : Z) (s : State)
    : result (list Recording * State) :=
  let rows := leased (now s) lease_until <$> due claimed_at batch_size s in
  inl (rows, set_recordings (foldr (fun r => <[r_ID r := r]>) (recordings s) rows) s).

Definition RetryRecordingUpload (upload_error : string) (next_upload_at : Z) (id : UUID) (s : State)
    : result (Recording * State) :=
  update_recording id (status_in [StatusUploading])
    (fun r => with_upload (now s) (r_Status r) (r_StoppedAt r) (Some next_upload_at) (Some upload_error)
                (r_UploadAttempts r + 1) r) s.

Definition PinRecordingUpload (integration : option UUID) (key provider bucket : string) (org id : UUID)
    (s : State) : result (Recording * State) :=
  update_recording id (fun r => in_org org r && status_in [StatusUploading] r && bool_decide (r_StorageKey r = None))
    (fun r => with_storage (now s) integration (Some key) (Some provider) (Some bucket) r) s.

Definition CompleteRecording (integration : option UUID) (key provider bucket : string) (size : Z)
    (format : string) (org id : UUID) (s : State) : result (Recording * State) :=
  update_recording id (fun r => in_org org r && status_in [StatusRecording; StatusUploading] r)
    (fun r =>
      with_end (now s) (coalesce (r_CompletedAt r) (Some (now s))) (Some size) (Some format)
        (with_storage (now s) (coalesce integration (r_StorageIntegrationID r)) (Some key) (Some provider) (Some bucket)
          (with_upload (now s) StatusCompleted (r_StoppedAt r) None None (r_UploadAttempts r) r))) s.

Definition FailRecording (org id : UUID) (s : State) : result (Recording * State) :=
  update_recording id (fun r => in_org org r && status_in [StatusRecording; StatusUploading] r)
    (fun r =>
      with_end (now s) (coalesce (r_CompletedAt r) (Some (now s))) (r_FileSizeBytes r) (r_Format r)
        (with_upload (now s) StatusFailed (r_StoppedAt r) (r_NextUploadAt r) (r_UploadError r) (r_UploadAttempts r) r)) s.

Definition DeleteRecording (org id : UUID) (s : State) : result (Recording * State) :=
  update_recording id (fun r => in_org org r && negb (bool_decide (r_Status r = StatusDeleted)))
    (fun r => with_upload (now s) StatusDeleted (r_StoppedAt r) (r_NextUploadAt r) (r_UploadError r)
                (r_UploadAttempts r) r) s.

(** [GetBackofficeCall], of which the organization is read. *)
Definition GetCallOrganization (callID : UUID) (s : State) : result UUID :=
  match calls s !! callID with Some c => inl (c_OrganizationID c) | None => no_rows end.

(** ** Storage integrations (database/queries/storage_integrations.sql) *)
(** [length(btrim(s))], in characters. *)
Definition btrim_length (s : string) : Z :=
  let trim := drop_while (byte_is 32) in
  Z.of_nat (length (filter (fun c => negb (is_cont c) = true) (trim (reverse (trim (reverse (bytes s))))))).
Definition between (lo hi n : Z) : bool := (lo <=? n) && (n <=? hi).
Section Integrations.
(** PostgreSQL's [[[:space:]]]. *)
Context (pg_space : string -> bool).
Definition integration_row_ok (i : StorageIntegration) : bool :=
  between 1 128 (btrim_length (i_Name i)) && HasPrefix (i_EndpointUrl i) "https://"
  && negb (bool_decide (i_EndpointUrl i = "https://")) && negb (pg_space (i_EndpointUrl i))
  && between 1 128 (btrim_length (i_Region i)) && between 1 255 (btrim_length (i_Bucket i))
  && (1 <=? btrim_length (i_AccessKeyID i)) && (1 <=? btrim_length (i_SecretAccessKeyCiphertext i))
  && bool_decide (i_Status i ∈ ["active"; "disabled"]%string)
  && is_text (i_Name i) && is_text (i_EndpointUrl i) && is_text (i_Region i) && is_text (i_Bucket i)
  && is_text (i_AccessKeyID i) && is_text (i_SecretAccessKeyCiphertext i).
(** One active integration for an organization. *)
Definition active_clash (i i' : StorageIntegration) : bool :=
  negb (bool_decide (i_ID i = i_ID i')) && bool_decide (i_OrganizationID i = i_OrganizationID i')
  && bool_decide (i_Status i = "active") && bool_decide (i_Status i' = "active").
Definition put_integration (i : StorageIntegration) (s : State) : result (StorageIntegration * State) :=
  if negb (integration_row_ok i) then inr (check_violation "storage_integrations") else
  if existsb (active_clash i) (rows_of (integrations s))
  then inr (unique_violation "uq_storage_integrations_active_purpose") else
  inl (i, set_integrations (<[i_ID i := i]> (integrations s)) s).

Definition CreateStorageIntegration (id org : UUID) (name endpoint region bucket access ciphertext : string)
    (path_style : bool) (s : State) : result (StorageIntegration * State) :=
  if negb (bool_decide (organizations s !! org = Some true)) then no_rows else
  if bool_decide (is_Some (integrations s !! id)) then inr (unique_violation "storage_integrations_pkey") else
  put_integration {|
    i_ID := id; i_OrganizationID := org; i_Name := name; i_EndpointUrl := endpoint; i_Region := region;
    i_Bucket := bucket; i_AccessKeyID := access; i_SecretAccessKeyCiphertext := ciphertext;
    i_UsePathStyle := path_style; i_Status := "active"; i_CreatedAt := now s; i_UpdatedAt := now s |} s.
Definition newest_integration (a b : StorageIntegration) : Prop := i_CreatedAt b <= i_CreatedAt a.
#[local] Instance newest_integration_dec : RelDecision newest_integration.
Proof. intros a b. unfold newest_integration. apply _. Defined.
Definition ListStorageIntegrations (org : UUID) (s : State) : list StorageIntegration :=
  merge_sort newest_integration (filter (fun i => i_OrganizationID i = org) (rows_of (integrations s))).
Definition GetStorageIntegration (org id : UUID) (s : State) : result StorageIntegration :=
  match integrations s !! id with
  | Some i => if bool_decide (i_OrganizationID i = org) then inl i else no_rows
  | None => no_rows
  end.
Definition GetActiveRecordingStorageIntegration (org : UUID) (s : State) : result StorageIntegration :=
  match find (fun i => bool_decide (i_OrganizationID i = org) && bool_decide (i_Status i = "active"))
          (rows_of (integrations s)) with
  | Some i => inl i
  | None => no_rows
  end.
Definition with_settings (t : Z) (name access ciphertext status : string) (i : StorageIntegration)
    : StorageIntegration :=
  {| i_ID := i_ID i; i_OrganizationID := i_OrganizationID i; i_Name := name; i_EndpointUrl := i_EndpointUrl i;
     i_Region := i_Region i; i_Bucket := i_Bucket i; i_AccessKeyID := access;
     i_SecretAccessKeyCiphertext := ciphertext; i_UsePathStyle := i_UsePathStyle i; i_Status := status;
     i_CreatedAt := i_CreatedAt i; i_UpdatedAt := t |}.
Definition UpdateStorageIntegration (org id : UUID) (name access ciphertext status : option string) (s : State)
    : result (StorageIntegration * State) :=
  let? i := GetStorageIntegration org id s in
  put_integration (with_settings (now s) (default (i_Name i) name) (default (i_AccessKeyID i) access)
    (default (i_SecretAccessKeyCiphertext i) ciphertext) (default (i_Status i) status) i) s.
Definition DisableStorageIntegration (org id : UUID) (s : State) : result (StorageIntegration * State) :=
  let? i := GetStorageIntegration org id s in
  put_integration (with_settings (now s) (i_Name i) (i_AccessKeyID i) (i_SecretAccessKeyCiphertext i) "disabled" i) s.
End Integrations.

(** ** Retention policies (database/queries/retention.sql) *)
Definition resources : list string := ["recordings"; "conversations"; "audit_events"].
Definition policy_ok (p : Policy) : bool :=
  bool_decide (po_Resource p ∈ resources) && between 1 3650 (po_RetentionDays p).
Definition by_resource (a b : Policy) : Prop := String.le (po_Resource a) (po_Resource b).
#[local] Instance by_resource_dec : RelDecision by_resource.
Proof. intros a b. unfold by_resource. apply _. Defined.
Definition by_organization (a b : Policy) : Prop :=
  po_OrganizationID a < po_OrganizationID b
  \/ (po_OrganizationID a = po_OrganizationID b /\ by_resource a b).
#[local] Instance by_organization_dec : RelDecision by_organization.
Proof. intros a b. unfold by_organization. apply _. Defined.
Definition all_policies (s : State) : list Policy := snd <$> map_to_list (policies s).
Definition ListRetentionPolicies (org : UUID) (s : State) : list Policy :=
  merge_sort by_resource (filter (fun p => po_OrganizationID p = org) (all_policies s)).
Definition UpsertRetentionPolicy (org : UUID) (resource : string) (days : Z) (enabled : bool) (s : State)
    : result (Policy * State) :=
  let created := match policies s !! (org, resource) with Some p => po_CreatedAt p | None => now s end in
  let p := {| po_OrganizationID := org; po_Resource := resource; po_RetentionDays := days; po_Enabled := enabled;
              po_CreatedAt := created; po_UpdatedAt := now s |} in
  if negb (policy_ok p) then inr (check_violation "retention_policies") else
  if negb (bool_decide (is_Some (organizations s !! org))) then inr (PgError "23503" "retention_policies") else
  inl (p, set_policies (<[(org, resource) := p]> (policies s)) s).
Definition DeleteRetentionPolicy (org : UUID) (resource : string) (s : State) : result (unit * State) :=
  inl (tt, set_policies (delete (org, resource) (policies s)) s).
Definition ListEnabledRetentionPolicies (s : State) : list Policy :=
  merge_sort by_organization (filter (fun p => po_Enabled p = true) (all_policies s)).
Definition oldest (a b : Recording) : Prop := r_CreatedAt a <= r_CreatedAt b.
#[export] Instance oldest_dec : RelDecision oldest.
Proof. intros a b. unfold oldest. apply _. Defined.
Definition expired (org : UUID) (created_before : Z) (r : Recording) : bool :=
  in_org org r && bool_decide (r_Status r = StatusCompleted) && (r_CreatedAt r <? created_before).
Definition ListExpiredRecordingsForRetention (org : UUID) (created_before batch_size : Z) (s : State) : list UUID :=
  take (Z.to_nat batch_size) (r_ID <$> merge_sort oldest
    (filter (fun r => expired org created_before r = true) (rows_of (recordings s)))).
End RecordingStore.
