(* ===== verification/StorageService.v ===== *)
(** * Storage integrations

    [platform/storage]: the object stores of tenants. The service validates and
    encrypts what a tenant configures, and resolves an integration to the store it
    names with its decrypted key. *)

From S2P Require Import Prelude Encryption Programs Routing ObjectStore RecordingStore.
Local Open Scope Z_scope.

Module StorageService.
Import AppErr Encryption Programs ObjectStore RecordingStore.

(** Code of other packages besides [S3Lib]: PostgreSQL's class of spaces, the
    bytes the [n]th read of the random source gives, and the text of an error. *)
Class StorageLib := {
  pg_space : string -> bool;
  random_nonce : Z -> list ascii;
  error_text : error -> string;
}.

(** ** Requests (model.go, validation.go) *)
Record CreateRequest := {
  cr_Name : string; cr_EndpointURL : string; cr_Region : string; cr_Bucket : string; cr_AccessKeyID : string;
  cr_SecretAccessKey : string; cr_UsePathStyle : bool;
}.
Record UpdateRequest := {
  up_Name : option string; up_AccessKeyID : option string; up_SecretAccessKey : option string;
  up_Status : option string;
}.

Section Validation.
Context {L : S3Lib}.

Definition len (s : string) : Z := Z.of_nat (String.length s).
Definition validateName (value : string) : result unit :=
  guard_err ((len value <? 1) || (128 <? len value)) (NewBadRequest "name must be between 1 and 128 characters").
Definition validateRegion (value : string) : result unit :=
  guard_err ((len value <? 1) || (128 <? len value)) (NewBadRequest "region must be between 1 and 128 characters").
Definition validateBucket (value : string) : result unit :=
  guard_err ((len value <? 1) || (255 <? len value)) (NewBadRequest "bucket must be between 1 and 255 characters").

(** The predicates of [net.IP]: an address of another length is none of them. *)
Definition ip_is (p : Addr -> bool) (ip : list Z) : bool :=
  match AddrFromSlice ip with Some a => p (Unmap a) | None => false end.
Definition publicIP (ip : list Z) : bool :=
  ip_is IsGlobalUnicast ip && negb (ip_is IsPrivate ip) && negb (ip_is IsLoopback ip)
  && negb (ip_is IsLinkLocalUnicast ip) && negb (ip_is IsLinkLocalMulticast ip) && negb (ip_is IsUnspecified ip).

Definition HasSuffix (s suffix : string) : bool :=
  bool_decide (drop (length (bytes s) - length (bytes suffix)) (bytes s) = bytes suffix).
Definition validateEndpoint (value : string) : result unit :=
  let origin := NewBadRequest "endpoint_url must be an HTTPS origin" in
  let private := NewBadRequest "endpoint_url must use a public network host" in
  match url_Parse value with
  | None => inr origin
  | Some u =>
      if negb (bool_decide (Scheme u = "https")) || bool_decide (Host u = "") || has_User u
         || negb (bool_decide (RawQuery u = "")) || negb (bool_decide (Fragment u = ""))
         || (negb (bool_decide (Path u = "")) && negb (bool_decide (Path u = "/")))
      then inr origin else
      let hostname := ToLower (TrimSuffix (Hostname u) ".") in
      if bool_decide (hostname = "localhost") || HasSuffix hostname ".localhost" then inr private else
      match ParseIP hostname with
      | Some ip => guard_err (negb (publicIP ip)) private
      | None => inl tt
      end
  end.

Definition normalizeCreate (r : CreateRequest) : result CreateRequest :=
  let region := TrimSpace (cr_Region r) in
  let r := {|
    cr_Name := TrimSpace (cr_Name r); cr_EndpointURL := TrimSpace (cr_EndpointURL r);
    cr_Region := if bool_decide (region = "") then "us-east-1" else region;
    cr_Bucket := TrimSpace (cr_Bucket r); cr_AccessKeyID := TrimSpace (cr_AccessKeyID r);
    cr_SecretAccessKey := TrimSpace (cr_SecretAccessKey r); cr_UsePathStyle := cr_UsePathStyle r |} in
  let? _ := validateName (cr_Name r) in
  let? _ := validateEndpoint (cr_EndpointURL r) in
  let? _ := validateRegion (cr_Region r) in
  let? _ := validateBucket (cr_Bucket r) in
  let? _ := guard_err (bool_decide (cr_AccessKeyID r = "")) (NewBadRequest "access_key_id is required") in
  let? _ := guard_err (bool_decide (cr_SecretAccessKey r = "")) (NewBadRequest "secret_access_key is required") in
  inl r.

(** A field that is given, checked after trimming. *)
Definition field (f : string -> result string) (v : option string) : result (option string) :=
  match v with
  | None => inl None
  | Some v => let? v' := f v in inl (Some v')
  end.
Definition not_empty (message : string) (v : string) : result string :=
  let v := TrimSpace v in
  if bool_decide (v = "") then inr (NewBadRequest message) else inl v.
Definition normalizeUpdate (r : UpdateRequest) : result UpdateRequest :=
  let? _ := guard_err (bool_decide (up_Name r = None) && bool_decide (up_AccessKeyID r = None)
                       && bool_decide (up_SecretAccessKey r = None) && bool_decide (up_Status r = None))
              (NewBadRequest "at least one field is required") in
  let? name := field (fun v => let? _ := validateName (TrimSpace v) in inl (TrimSpace v)) (up_Name r) in
  let? access := field (not_empty "access_key_id cannot be empty") (up_AccessKeyID r) in
  let? secret := field (not_empty "secret_access_key cannot be empty") (up_SecretAccessKey r) in
  let? status := field (fun v => let v := ToLower (TrimSpace v) in
      if bool_decide (v ∈ ["active"; "disabled"]) then inl v
      else inr (NewBadRequest "status must be active or disabled")) (up_Status r) in
  inl {| up_Name := name; up_AccessKeyID := access; up_SecretAccessKey := secret; up_Status := status |}.
End Validation.

(** ** The service (service.go, repository.go) *)
Section Service.
Context {L : S3Lib} {T : StorageLib} {A : AEAD} {U : UuidLib}.
(** [s.cipher != nil]. *)
Context (has_cipher : bool).

(** What a client sees of a row: all but the ciphertext. *)
Record Integration := {
  it_ID : UUID; it_OrganizationID : UUID; it_Name : string; it_EndpointURL : string; it_Region : string;
  it_Bucket : string; it_AccessKeyID : string; it_UsePathStyle : bool; it_Status : string;
  it_HasSecret : bool; it_CreatedAt : Z; it_UpdatedAt : Z;
}.
Definition integrationFromRow (i : StorageIntegration) : Integration := {|
  it_ID := i_ID i; it_OrganizationID := i_OrganizationID i; it_Name := i_Name i;
  it_EndpointURL := i_EndpointUrl i; it_Region := i_Region i; it_Bucket := i_Bucket i;
  it_AccessKeyID := i_AccessKeyID i; it_UsePathStyle := i_UsePathStyle i; it_Status := i_Status i;
  it_HasSecret := negb (bool_decide (i_SecretAccessKeyCiphertext i = ""));
  it_CreatedAt := i_CreatedAt i; it_UpdatedAt := i_UpdatedAt i |}.
Record ResolvedIntegration := { ri_Integration : Integration; ri_SecretAccessKey : string }.

Definition unavailable : error :=
  AppError "SERVICE_UNAVAILABLE" "storage credential encryption is unavailable" 503 None.
Definition credentialScope (org id : UUID) : string :=
  "storage-integration:" +:+ uuid_String org +:+ ":" +:+ uuid_String id.
Definition databaseError (message : string) (e : error) : error :=
  if errors_Is e ErrNoRows then NewNotFound message else NewInternal message e.
Definition conflict (e : error) : bool := bool_decide (errors_As_Pg e = Some "23505").
(** [if conflict(err) { ... } if err != nil { return databaseError(err, message) }]. *)
Definition writeError (taken message : string) (e : error) : error :=
  if conflict e then NewConflict taken else databaseError message e.

(** [s.cipher.EncryptForScope], which reads the random source. *)
Definition encrypt (org id : UUID) (secret : string) : prog State string :=
  wrap_ (NewInternal "encrypt storage credential") (
    let* n := call (fun s => let (n, s') := fresh s in (inl n, s')) in
    lift_ (EncryptForScope (random_nonce n) (credentialScope org id) secret)).

Definition Create (org : UUID) (req : CreateRequest) : prog State Integration :=
  raise_if (bool_decide (org = uuid_Nil)) (NewBadRequest "organization_id is required") ;*
  let* req := lift_ (normalizeCreate req) in
  raise_if (negb has_cipher) unavailable ;*
  let* id := local fresh in
  let* ciphertext := encrypt org id (cr_SecretAccessKey req) in
  let* row := wrap_ (writeError "an active recording storage integration already exists" "create storage integration")
    (exec (CreateStorageIntegration pg_space id org (cr_Name req) (cr_EndpointURL req) (cr_Region req) (cr_Bucket req)
             (cr_AccessKeyID req) ciphertext (cr_UsePathStyle req))) in
  done_ (integrationFromRow row).

Definition List_ (org : UUID) : prog State (list Integration) :=
  raise_if (bool_decide (org = uuid_Nil)) (NewBadRequest "organization_id is required") ;*
  let* rows := wrap_ (NewInternal "list storage integrations") (query (fun s => inl (ListStorageIntegrations org s))) in
  done_ (integrationFromRow <$> rows).

Definition Repo_Get (org id : UUID) : prog State (Integration * string) :=
  let* row := query (GetStorageIntegration org id) in
  done_ (integrationFromRow row, i_SecretAccessKeyCiphertext row).
Definition GetActiveRecording (org : UUID) : prog State (Integration * string) :=
  let* row := query (GetActiveRecordingStorageIntegration org) in
  done_ (integrationFromRow row, i_SecretAccessKeyCiphertext row).

Definition require_ids (org id : UUID) : prog State unit :=
  raise_if (bool_decide (org = uuid_Nil) || bool_decide (id = uuid_Nil))
    (NewBadRequest "organization and storage integration ids are required").
Definition Get (org id : UUID) : prog State Integration :=
  require_ids org id ;*
  let* ' (value, _) := wrap_ (databaseError "storage integration not found") (Repo_Get org id) in
  done_ value.

Definition Update (org id : UUID) (req : UpdateRequest) : prog State Integration :=
  require_ids org id ;*
  let* req := lift_ (normalizeUpdate req) in
  wrap_ (databaseError "storage integration not found") (Repo_Get org id) ;*
  let* ciphertext := match up_SecretAccessKey req with
    | None => done_ None
    | Some secret =>
        raise_if (negb has_cipher) unavailable ;*
        let* value := encrypt org id secret in done_ (Some value)
    end in
  let* row := wrap_ (writeError "another active recording storage integration already exists"
                       "storage integration not found")
    (exec (UpdateStorageIntegration pg_space org id (up_Name req) (up_AccessKeyID req) ciphertext (up_Status req))) in
  done_ (integrationFromRow row).

(** [Delete] disables: recordings may still be there. *)
Definition Delete (org id : UUID) : prog State unit :=
  require_ids org id ;*
  wrap_ (databaseError "storage integration not found") (exec (DisableStorageIntegration pg_space org id)) ;*
  done_ tt.

Definition resolve_ (value : Integration) (ciphertext : string) : result ResolvedIntegration :=
  if negb has_cipher then inr unavailable else
  match DecryptForScope (credentialScope (it_OrganizationID value) (it_ID value)) ciphertext with
  | inl secret => inl {| ri_Integration := value; ri_SecretAccessKey := secret |}
  | inr e => inr (NewInternal "decrypt storage credential" e)
  end.
Definition ResolveRecording (org : UUID) : prog State ResolvedIntegration :=
  raise_if (bool_decide (org = uuid_Nil)) (NewBadRequest "organization_id is required") ;*
  let* ' (value, ciphertext) := GetActiveRecording org in
  lift_ (resolve_ value ciphertext).
Definition ResolveByID (org id : UUID) : prog State ResolvedIntegration :=
  let* ' (value, ciphertext) := Repo_Get org id in
  lift_ (resolve_ value ciphertext).

(** The configuration of the client of a resolved integration. *)
Definition client_config (r : ResolvedIntegration) : Config :=
  let i := ri_Integration r in
  {| Endpoint := it_EndpointURL i; Region := it_Region i; Bucket := it_Bucket i; AccessKey := it_AccessKeyID i;
     SecretKey := ri_SecretAccessKey r; UsePathStyle := it_UsePathStyle i; PlaybackTTL := 0 |}.
Definition fresh_name (s : State) : string * State := let (n, s') := fresh s in (uuid_String n, s').
Definition Test (org id : UUID) : prog State unit :=
  let* resolved := wrap_ (databaseError "storage integration not found") (ResolveByID org id) in
  let* client := wrap_ (fun e => NewBadRequest (error_text e)) (lift_ (New (client_config resolved))) in
  wrap_ (fun e => NewBadRequest ("storage connection test failed: " +:+ error_text e))
    (ObjectStore.Test fresh_name client).
End Service.
End StorageService.
