(* ===== verification/Recordings.v ===== *)
(** * Recordings

    [telephony/recordings]: the repository, the storage of recording objects, the
    service that observes the lifecycle of recordings and serves and deletes them,
    and the consumer of FreeSWITCH events. The jobs are in [RecordingJobs.v]. *)

From S2P Require Import Prelude Encryption Programs Routing FreeSWITCH Paths ObjectStore RecordingStore StorageService.
Local Open Scope Z_scope.

Module Recordings.
Import AppErr Encryption Programs Paths ObjectStore RecordingStore StorageService.

Definition EventRecordingStarted : string := "recording.started".
Definition EventRecordingCompleted : string := "recording.completed".
Definition EventRecordingFailed : string := "recording.failed".
Definition EventRecordingDeleted : string := "recording.deleted".

(** ** The repository (repository.go) *)
Definition Repo_Get (org id : UUID) : prog State Recording := query (GetRecording org id).
Definition GetIncludingDeleted (org id : UUID) : prog State Recording := query (GetRecordingIncludingDeleted org id).
Definition GetByCallStorageKey (callID : UUID) (path : string) : prog State Recording :=
  query (GetRecordingByCallStorageKey callID path).
Definition MarkReadyForUpload (r : Recording) (stoppedAt : Z) : prog State Recording :=
  exec (MarkRecordingReadyForUpload stoppedAt (r_OrganizationID r) (r_ID r)).
Definition ListForUpload (claimedAt leaseUntil batchSize : Z) : prog State (list Recording) :=
  exec (ListRecordingsForUpload claimedAt batchSize leaseUntil).
Definition RetryUpload (r : Recording) (next_at : Z) (message : string) : prog State unit :=
  exec (RetryRecordingUpload message next_at (r_ID r)) ;* done_ tt.
Definition PinUpload (r : Recording) (integration : option UUID) (key provider bucket : string)
    : prog State Recording :=
  exec (PinRecordingUpload integration key provider bucket (r_OrganizationID r) (r_ID r)).
Definition GetCallOrganizationID (callID : UUID) : prog State UUID := query (GetCallOrganization callID).
Definition Repo_List (org : UUID) (offset limit : Z) : prog State (list Recording) :=
  query (fun s => inl (ListRecordings org offset limit s)).
Definition ListForReconciliation (updatedBefore batchSize : Z) : prog State (list Recording) :=
  query (fun s => inl (ListRecordingsForReconciliation updatedBefore batchSize s)).

(** The transaction of a mutation and its event. The row lock its statement takes,
    or the unique index it inserts into, keeps the other transactions on the
    recording out until it ends, so it is one call. *)
Definition mutate (eventType : string) (mutation : State -> result (Recording * State)) : prog State Recording :=
  exec (fun s =>
    let? ' (r, s') := mutation s in
    inl (r, add_event {| ev_Type := eventType; ev_Recording := r; ev_OccurredAt := now s |} s')).
Definition Start (org callID : UUID) (path : string) (occurredAt : Z) : prog State Recording :=
  mutate EventRecordingStarted (fun s =>
    let (id, s') := fresh s in CreateRecording id org callID StatusRecording path occurredAt s').
Definition CompleteUpload (r : Recording) (integration : option UUID) (key provider bucket format : string)
    (size : Z) : prog State Recording :=
  mutate EventRecordingCompleted
    (CompleteRecording integration key provider bucket size format (r_OrganizationID r) (r_ID r)).
Definition Repo_Fail (r : Recording) : prog State Recording :=
  mutate EventRecordingFailed (FailRecording (r_OrganizationID r) (r_ID r)).
Definition Repo_Delete (r : Recording) : prog State Recording :=
  mutate EventRecordingDeleted (DeleteRecording (r_OrganizationID r) (r_ID r)).

Section Recordings.
Context {L : S3Lib} {T : StorageLib} {A : AEAD} {U : UuidLib}.

(** ** Objects (storage.go)

    [client]: the store of the deployment; [integrations]: the storage service if
    there is one, as whether it has a cipher. *)
Record ObjectStorage := { os_client : Client; os_integrations : option bool }.

Definition customClient (resolved : ResolvedIntegration) : result Client :=
  match New (client_config resolved) with
  | inl c => inl c
  | inr e => inr (Wrapf "initialize recording S3 integration: %w" [] e)
  end.
Definition resolved_client (resolved : ResolvedIntegration) : prog State (Client * option UUID) :=
  let* client := lift_ (customClient resolved) in
  done_ (client, Some (it_ID (ri_Integration resolved))).
Definition clientForRecording (st : ObjectStorage) (r : Recording) (forUpload : bool)
    : prog State (Client * option UUID) :=
  match r_StorageIntegrationID r with
  | Some id =>
      match os_integrations st with
      | None => raise (Errorf "recording storage integration resolver is unavailable" [])
      | Some has_cipher =>
          let* resolved := wrap_ (Wrapf "resolve recording storage integration: %w" [])
            (ResolveByID has_cipher (r_OrganizationID r) id) in
          resolved_client resolved
      end
  | None =>
      match os_integrations st with
      | Some has_cipher =>
          if forUpload && bool_decide (r_StorageKey r = None) then
            let* resolved := attempt_ (ResolveRecording has_cipher (r_OrganizationID r)) in
            match resolved with
            | inl resolved => resolved_client resolved
            | inr e =>
                if errors_Is e ErrNoRows then done_ (os_client st, None)
                else raise (Wrapf "resolve organization recording storage: %w" [] e)
            end
          else done_ (os_client st, None)
      | None => done_ (os_client st, None)
      end
  end.

Definition ResolveUpload (st : ObjectStorage) (r : Recording) : prog State (option UUID * string * string) :=
  let* ' (client, integration) := clientForRecording st r true in
  done_ (integration, "s3", cl_Bucket client).
(** A managed object has to lie under the prefix of its organization. *)
Definition check_managed (integration : option UUID) (r : Recording) (key : string) : prog State unit :=
  lift_ (if bool_decide (integration = None) then validateManagedRecordingKey (r_OrganizationID r) key else inl tt).
Definition Storage_Put (st : ObjectStorage) (r : Recording) (key contentType : string)
    (read : State -> result (list ascii)) : prog State (option UUID * string * string) :=
  let* ' (client, integration) := clientForRecording st r true in
  check_managed integration r key ;*
  Put client key contentType read ;*
  done_ (integration, "s3", cl_Bucket client).
(** The store, and the key, of a recording that has an object. *)
Definition stored (st : ObjectStorage) (r : Recording) : prog State (Client * string) :=
  match r_StorageKey r with
  | Some key =>
      if bool_decide (r_StorageProvider r = Some "s3") then
        let* ' (client, integration) := clientForRecording st r false in
        raise_if (negb (bool_decide (r_StorageBucket r = Some (cl_Bucket client))))
          (Errorf "recording S3 bucket is invalid" []) ;*
        check_managed integration r key ;*
        done_ (client, key)
      else raise (Errorf "recording has no S3 object" [])
  | None => raise (Errorf "recording has no S3 object" [])
  end.
Definition Storage_PlaybackURL (st : ObjectStorage) (r : Recording) : prog State (string * Z) :=
  let* ' (client, key) := stored st r in PlaybackURL now client key.
Definition Storage_Delete (st : ObjectStorage) (r : Recording) : prog State unit :=
  let* ' (client, key) := stored st r in ObjectStore.Delete client key.

(** ** The service (service.go, validation.go) *)
Definition validateOrganizationID (id : UUID) : result unit :=
  guard_err (bool_decide (id = uuid_Nil)) (NewBadRequest "organization context required").
Definition validatePagination (offset limit : Z) : result unit :=
  let? _ := guard_err (offset <? 0) (NewBadRequest "offset cannot be negative") in
  guard_err ((limit <? 1) || (100 <? limit)) (NewBadRequest "limit must be between 1 and 100").
Definition readError (e : error) : error :=
  if errors_Is e ErrNoRows then NewNotFound "recording not found" else NewInternal "get recording" e.

Context (storage : option ObjectStorage).

Definition Get (org id : UUID) : prog State Recording :=
  lift_ (validateOrganizationID org) ;*
  wrap_ readError (Repo_Get org id).
Definition List_ (org : UUID) (offset limit : Z) : prog State (list Recording) :=
  lift_ (validateOrganizationID org) ;*
  lift_ (validatePagination offset limit) ;*
  wrap_ (NewInternal "list recordings") (Repo_List org offset limit).

Record LifecycleEvent := { le_CallID : UUID; le_ChannelID : string; le_Path : string; le_OccurredAt : Z }.
(** [time.Time{}], the first instant of the year 1. *)
Definition zero_time : Z := -62135596800 * Second.
Definition occurred (t : Z) : prog State Z := if t =? zero_time then local time_now else done_ t.
Definition incomplete (ev : LifecycleEvent) : bool :=
  bool_decide (le_CallID ev = uuid_Nil) || bool_decide (TrimSpace (le_Path ev) = "").
Definition incomplete_event : error := NewBadRequest "recording lifecycle event requires call id and path".

Definition ObserveStarted (ev : LifecycleEvent) : prog State unit :=
  let path := TrimSpace (le_Path ev) in
  raise_if (incomplete ev) incomplete_event ;*
  let* at_ := occurred (le_OccurredAt ev) in
  let* org := attempt_ (GetCallOrganizationID (le_CallID ev)) in
  match org with
  | inr e => if errors_Is e ErrNoRows then done_ tt else raise (NewInternal "resolve recording call" e)
  | inl org =>
      let* found := attempt_ (GetByCallStorageKey (le_CallID ev) path) in
      match found with
      | inl _ => done_ tt
      | inr e =>
          if negb (errors_Is e ErrNoRows) then raise (NewInternal "get recording by media path" e) else
          let* started := attempt_ (Start org (le_CallID ev) path at_) in
          match started with
          | inl _ => done_ tt
          | inr e =>
              let* again := attempt_ (GetByCallStorageKey (le_CallID ev) path) in
              match again with
              | inl _ => done_ tt
              | inr _ => raise (NewInternal "start recording lifecycle" e)
              end
          end
      end
  end.

Definition ObserveStopped (ev : LifecycleEvent) : prog State unit :=
  let path := TrimSpace (le_Path ev) in
  raise_if (incomplete ev) incomplete_event ;*
  let* found := attempt_ (GetByCallStorageKey (le_CallID ev) path) in
  let* r :=
    match found with
    | inl r => done_ r
    | inr e =>
        if errors_Is e ErrNoRows then
          ObserveStarted ev ;*
          wrap_ (NewInternal "get recording by media path") (GetByCallStorageKey (le_CallID ev) path)
        else raise (NewInternal "get recording by media path" e)
    end in
  if status_in [StatusUploading; StatusCompleted; StatusFailed; StatusDeleted] r then done_ tt else
  let* stoppedAt := occurred (le_OccurredAt ev) in
  let* marked := attempt_ (MarkReadyForUpload r stoppedAt) in
  match marked with
  | inl _ => done_ tt
  | inr e => if errors_Is e ErrNoRows then done_ tt else raise (NewInternal "complete recording lifecycle" e)
  end.

Definition no_storage : error := AppError "SERVICE_UNAVAILABLE" "recording storage is unavailable" 503 None.
Definition invalid_url : error :=
  AppError "SERVICE_UNAVAILABLE" "recording storage returned an invalid playback URL" 503 None.
Definition Playback (org id : UUID) : prog State (string * Z) :=
  let* r := Get org id in
  raise_if (negb (bool_decide (r_Status r = StatusCompleted))) (NewConflict "recording is not available for playback") ;*
  match storage with
  | None => raise no_storage
  | Some st =>
      let* ' (url, expiresAt) := wrap_ (NewServiceUnavailable "create recording playback URL") (Storage_PlaybackURL st r) in
      raise_if (bool_decide (url = "") || (expiresAt =? zero_time)) invalid_url ;*
      done_ (url, expiresAt)
  end.

Definition Delete (org id : UUID) : prog State unit :=
  lift_ (validateOrganizationID org) ;*
  let* r := wrap_ readError (GetIncludingDeleted org id) in
  if bool_decide (r_Status r = StatusDeleted) then done_ tt else
  raise_if (status_in [StatusRecording; StatusUploading] r)
    (NewConflict "recording cannot be deleted before upload completes") ;*
  match storage with
  | None => raise no_storage
  | Some st =>
      wrap_ (NewServiceUnavailable "delete recording object") (Storage_Delete st r) ;*
      let* deleted := attempt_ (Repo_Delete r) in
      match deleted with
      | inl _ => done_ tt
      | inr e => if errors_Is e ErrNoRows then done_ tt else raise (NewInternal "delete recording" e)
      end
  end.

(** ** The consumer (consumer.go) *)
Definition firstRecordingPath (values : list string) : string :=
  default "" (head (filter (fun v => v <> "") (TrimSpace <$> values))).
Definition recordingLifecycleEvent (event : FreeSWITCH.Event) : prog State LifecycleEvent :=
  let header := FreeSWITCH.Event_Header event in
  match uuid_Parse (TrimSpace (header "variable_leamout_call_id")) with
  | None => raise (Errorf "FreeSWITCH recording event is missing valid Leamout call id" [])
  | Some callID =>
      let channelID := TrimSpace (header "Unique-ID") in
      raise_if (bool_decide (channelID = "")) (Errorf "FreeSWITCH recording event is missing Unique-ID" []) ;*
      let path := firstRecordingPath
        [header "Record-File-Path"; header "variable_record_file_path"; header "variable_record_path"] in
      raise_if (bool_decide (path = "")) (Errorf "FreeSWITCH recording event is missing Record-File-Path" []) ;*
      let* t := local time_now in
      let raw := TrimSpace (header "Event-Date-Timestamp") in
      let* occurredAt :=
        if bool_decide (raw = "") then done_ t else
        match ParseInt raw with
        | Some micros => done_ (1000 * micros)
        | None => raise (Wrapf "parse FreeSWITCH recording timestamp: %w" [] (Errorf "strconv.ParseInt" [raw]))
        end in
      done_ {| le_CallID := callID; le_ChannelID := channelID; le_Path := path; le_OccurredAt := occurredAt |}
  end.
Definition HandleFreeSWITCHEvent (event : FreeSWITCH.Event) : prog State unit :=
  if bool_decide (FreeSWITCH.Name event = "RECORD_START") then
    let* input := recordingLifecycleEvent event in ObserveStarted input
  else if bool_decide (FreeSWITCH.Name event = "RECORD_STOP") then
    let* input := recordingLifecycleEvent event in ObserveStopped input
  else done_ tt.
End Recordings.
End Recordings.
