(* ===== verification/RecordingJobs.v ===== *)
(** * The jobs on recordings

    The ingestion of staged recordings ([telephony/recordings/ingestion.go]), the
    reconciliation of recordings whose call is over ([telephony/recordings/jobs.go])
    and retention ([platform/retention]). *)

From S2P Require Import Prelude Encryption Programs Routing Paths ObjectStore RecordingStore StorageService Recordings.
Local Open Scope Z_scope.

Module RecordingJobs.
Import AppErr Encryption Programs Paths ObjectStore RecordingStore StorageService Recordings.

(** [mime.TypeByExtension], which reads the tables of the system. *)
Class MimeLib := { TypeByExtension : string -> string }.

(** ** Ingestion (ingestion.go) *)
Record IngestionConfig := {
  Interval : Z; Lease : Z; BaseRetry : Z; MaxRetry : Z; MaxAttempts : Z; BatchSize : Z; StagingPath : string;
}.
Definition DefaultIngestionConfig (stagingPath : string) : IngestionConfig := {|
  Interval := 5 * Second; Lease := 2 * Minute; BaseRetry := 5 * Second; MaxRetry := 15 * Minute;
  MaxAttempts := 10; BatchSize := 50; StagingPath := stagingPath |}.
Definition positive (v d : Z) : Z := if v <=? 0 then d else v.
Definition NewIngestionJob (c : IngestionConfig) : result IngestionConfig :=
  let d := DefaultIngestionConfig (StagingPath c) in
  let c := {| Interval := positive (Interval c) (Interval d); Lease := positive (Lease c) (Lease d);
    BaseRetry := positive (BaseRetry c) (BaseRetry d); MaxRetry := positive (MaxRetry c) (MaxRetry d);
    MaxAttempts := positive (MaxAttempts c) (MaxAttempts d); BatchSize := positive (BatchSize c) (BatchSize d);
    StagingPath := Clean (TrimSpace (StagingPath c)) |} in
  if IsAbs (StagingPath c) then inl c else inr (Errorf "recording staging path must be absolute" []).

Section Ingestion.
Context {L : S3Lib} {T : StorageLib} {A : AEAD} {U : UuidLib} {Mi : MimeLib}.
Context (st : ObjectStorage) (c : IngestionConfig).

(** The file system: resolving the links of a path, opening it, looking at the
    open file, reading [size] bytes of it, and removing the path. *)
Definition no_such_file (p : string) : error := Errorf "no such file or directory" [p].
Definition EvalSymlinks (p : string) : prog State string :=
  call (fun s => match resolve s !! p with
                 | Some q => (inl q, log_file (AResolve p q) s)
                 | None => (inr (no_such_file p), s)
                 end).
Definition Open_ (p : string) : prog State Z :=
  call (fun s => match paths s !! p with
                 | Some f => (inl f, log_file (AOpen p) s)
                 | None => (inr (no_such_file p), s)
                 end).
Definition Stat (f : Z) : prog State (option Z) :=
  call (fun s => (inl (match files s !! f with Some (Some data) => Some (Z.of_nat (length data)) | _ => None end), s)).
Definition read_file (f size : Z) (s : State) : result (list ascii) :=
  match files s !! f with
  | Some (Some data) =>
      if size <=? Z.of_nat (length data) then inl (take (Z.to_nat size) data) else inr (Sentinel "unexpected EOF")
  | _ => inr (Sentinel "unexpected EOF")
  end.
Definition Remove (p : string) : prog State unit :=
  call (fun s => match paths s !! p with Some _ => (inl tt, unlink p s) | None => (inr (no_such_file p), s) end).

Definition outside : error := Errorf "recording source path is outside staging directory" [].
Definition resolves_outside : error := Errorf "recording source path resolves outside staging directory" [].
(** [if err != nil || relative == "." || ...]. *)
Definition inside (base p : string) : bool :=
  match Rel base p with inl r => negb (escapes r) | inr _ => false end.
Definition safeSourcePath (r : Recording) : prog State string :=
  match r_SourcePath r with
  | None => raise (Errorf "recording source path is missing" [])
  | Some source =>
      let path := Clean (TrimSpace source) in
      raise_if (negb (inside (StagingPath c) path)) outside ;*
      let* resolvedRoot := wrap_ (Wrapf "resolve recording staging directory: %w" []) (EvalSymlinks (StagingPath c)) in
      let* resolvedPath := wrap_ (Wrapf "resolve staged recording: %w" []) (EvalSymlinks path) in
      raise_if (negb (inside resolvedRoot resolvedPath)) resolves_outside ;*
      done_ resolvedPath
  end.

(** [for attempt := 0; attempt < n && delay < max; attempt++ { delay *= 2 }]. *)
Fixpoint doubling (n : nat) (delay : Z) : Z :=
  match n with
  | O => delay
  | S n' => if delay <? MaxRetry c then doubling n' (int64 (delay * 2)) else delay
  end.
Definition backoff (attempts : Z) : Z := Z.min (doubling (Z.to_nat attempts) (BaseRetry c)) (MaxRetry c).
Definition message_of (cause : error) : string := of_bytes (take 1000 (bytes (error_text cause))).
Definition retryOrFail (r : Recording) (cause : error) : prog State unit :=
  if MaxAttempts c <=? int32 (r_UploadAttempts r + 1) then
    let* failed := attempt_ (Repo_Fail r) in
    match failed with
    | inl _ => done_ tt
    | inr e => if errors_Is e ErrNoRows then done_ tt
               else raise (Wrapf "fail recording upload %s: %w" [uuid_String (r_ID r)] e)
    end
  else
    let* t := local time_now in
    wrap_ (Wrapf "schedule recording upload retry %s: %w" [uuid_String (r_ID r)])
      (RetryUpload r (t + backoff (r_UploadAttempts r)) (message_of cause)).

(** The staged file: its path, the open file and its size. *)
Definition staged (r : Recording) : prog State (string * Z * Z) :=
  let* path := safeSourcePath r in
  let* f := wrap_ (Wrapf "open staged recording: %w" []) (Open_ path) in
  let* size := wrap_ (Wrapf "stat staged recording: %w" []) (Stat f) in
  match size with
  | Some size => if 0 <? size then done_ (path, f, size)
                 else raise (Errorf "staged recording is not a non-empty regular file" [])
  | None => raise (Errorf "staged recording is not a non-empty regular file" [])
  end.
Definition extension (path : string) : string :=
  let ext := ToLower (TrimPrefix (Ext path) ".") in if bool_decide (ext = "") then "bin" else ext.
Definition content_type (ext : string) : string :=
  let t := TypeByExtension ("." +:+ ext) in if bool_decide (t = "") then "application/octet-stream" else t.

(** [if err != nil { return j.retryOrFail(ctx, recording, err) }]. *)
Definition or_retry {B} (r : Recording) (p : prog State B) (k : B -> prog State unit) : prog State unit :=
  let* x := attempt_ p in
  match x with inl b => k b | inr e => retryOrFail r e end.

(** [recording, err = j.repo.PinUpload(...)]: a pin that fails also overwrites
    [recording], with the row no column of which was scanned. *)
Definition zero_recording : Recording := {|
  r_ID := uuid_Nil; r_OrganizationID := uuid_Nil; r_CallID := uuid_Nil; r_StorageIntegrationID := None;
  r_Status := ""; r_StorageKey := None; r_StorageProvider := None; r_StorageBucket := None;
  r_SourcePath := None; r_StoppedAt := None; r_UploadAttempts := 0; r_NextUploadAt := None;
  r_UploadError := None; r_FileSizeBytes := None; r_Format := None; r_StartedAt := None;
  r_CompletedAt := None; r_CreatedAt := zero_time; r_UpdatedAt := zero_time |}.
(** The key of the object, pinned with its destination by the first attempt. *)
Definition with_pin (r : Recording) (ext : string) (k : Recording -> string -> prog State unit) : prog State unit :=
  match r_StorageKey r with
  | Some key => k r key
  | None =>
      let* t := local time_now in
      or_retry r (lift_ (recordingObjectKey (r_OrganizationID r) (r_ID r) t ext)) (fun key =>
      or_retry r (ResolveUpload st r) (fun '(integration, provider, bucket) =>
      let* pinned := attempt_ (PinUpload r integration key provider bucket) in
      match pinned with
      | inl r' => k r' key
      | inr e => retryOrFail zero_recording (Wrapf "pin recording upload destination: %w" [] e)
      end))
  end.
Definition complete (r : Recording) (key ext path : string) (size : Z) (dest : option UUID * string * string)
    : prog State unit :=
  let '(integration, provider, bucket) := dest in
  let* completed := attempt_ (CompleteUpload r integration key provider bucket ext size) in
  raise_if (match completed with inl _ => false | inr e => negb (errors_Is e ErrNoRows) end)
    (Wrapf "complete recording upload %s: %w" [uuid_String (r_ID r)]
       (match completed with inr e => e | inl _ => Sentinel "" end)) ;*
  attempt_ (Remove path) ;*
  done_ tt.
Definition ingestOne (r : Recording) : prog State unit :=
  or_retry r (staged r) (fun '(path, f, size) =>
  let ext := extension path in
  with_pin r ext (fun r key =>
  or_retry r (Storage_Put st r key (content_type ext) (read_file f size)) (fun dest =>
  complete r key ext path size dest))).
Definition Ingest : prog State unit :=
  let* t := local time_now in
  let* items := wrap_ (Wrapf "claim recording uploads: %w" []) (ListForUpload t (t + Lease c) (BatchSize c)) in
  for_each ingestOne items.
End Ingestion.

(** ** Reconciliation (jobs.go) *)
Record ReconciliationJobConfig := { rc_Interval : Z; rc_Grace : Z; rc_BatchSize : Z }.
Definition NewReconciliationJob (c : ReconciliationJobConfig) : ReconciliationJobConfig :=
  {| rc_Interval := positive (rc_Interval c) (30 * Second); rc_Grace := positive (rc_Grace c) (60 * Second);
     rc_BatchSize := positive (rc_BatchSize c) 200 |}.
Definition reconcile_one {U : UuidLib} (r : Recording) : prog State unit :=
  let* t := local time_now in
  let* marked := attempt_ (MarkReadyForUpload r t) in
  match marked with
  | inl _ => done_ tt
  | inr e => if errors_Is e ErrNoRows then done_ tt
             else raise (Wrapf "reconcile recording %s: %w" [uuid_String (r_ID r)] e)
  end.
Definition Reconcile {U : UuidLib} (c : ReconciliationJobConfig) : prog State unit :=
  let* t := local time_now in
  let* stale := wrap_ (Wrapf "list recordings for reconciliation: %w" [])
    (ListForReconciliation (t - rc_Grace c) (rc_BatchSize c)) in
  for_each reconcile_one stale.

(** ** Retention (platform/retention) *)
Definition validateResource (resource : string) : result unit :=
  guard_err (negb (bool_decide (resource ∈ resources))) (NewBadRequest "unsupported retention resource").
Record UpsertRequest := { ur_RetentionDays : Z; ur_Enabled : bool }.
Definition validateUpsert (r : UpsertRequest) : result unit :=
  guard_err ((ur_RetentionDays r <? 1) || (3650 <? ur_RetentionDays r))
    (NewBadRequest "retention_days must be between 1 and 3650").
Definition require_organization (org : UUID) : prog State unit :=
  raise_if (bool_decide (org = uuid_Nil)) (NewBadRequest "organization_id is required").
Definition Retention_List (org : UUID) : prog State (list Policy) :=
  require_organization org ;*
  wrap_ (NewInternal "list retention policies") (query (fun s => inl (ListRetentionPolicies org s))).
Definition Retention_Upsert (org : UUID) (resource : string) (r : UpsertRequest) : prog State Policy :=
  require_organization org ;*
  lift_ (validateResource resource) ;*
  lift_ (validateUpsert r) ;*
  wrap_ (NewInternal "upsert retention policy")
    (exec (UpsertRetentionPolicy org resource (ur_RetentionDays r) (ur_Enabled r))).
Definition Retention_Delete (org : UUID) (resource : string) : prog State unit :=
  require_organization org ;*
  lift_ (validateResource resource) ;*
  wrap_ (NewInternal "delete retention policy") (exec (DeleteRetentionPolicy org resource)).

Section Retention.
Context {L : S3Lib} {T : StorageLib} {A : AEAD} {U : UuidLib}.
Context (storage : option ObjectStorage) (batch : Z).

(** [for { ... if len(ids) < batch { break } }]: at most [fuel] rounds; [false]
    says that they were not enough. *)
Definition delete_one (org id : UUID) : prog State unit :=
  wrap_ (Wrapf "delete retained recording %s: %w" [uuid_String id]) (Delete storage org id).
Fixpoint cleanup_rounds (fuel : nat) (org : UUID) (cutoff : Z) : prog State bool :=
  match fuel with
  | O => done_ false
  | S fuel' =>
      let* ids := wrap_ (Wrapf "list expired recordings for organization %s: %w" [uuid_String org])
        (query (fun s => inl (ListExpiredRecordingsForRetention org cutoff batch s))) in
      for_each (delete_one org) ids ;*
      if Z.of_nat (length ids) <? batch then done_ true else cleanup_rounds fuel' org cutoff
  end.
(** [AddDate(0, 0, -days)] of a UTC time. *)
Definition cutoff_of (t : Z) (p : Policy) : Z := t - po_RetentionDays p * (24 * Hour).
Fixpoint cleanup_policies (fuel : nat) (ps : list Policy) : prog State bool :=
  match ps with
  | [] => done_ true
  | p :: ps' =>
      if bool_decide (po_Resource p = "recordings") then
        let* t := local time_now in
        let* ok := cleanup_rounds fuel (po_OrganizationID p) (cutoff_of t p) in
        let* ok' := cleanup_policies fuel ps' in
        done_ (ok && ok')
      else cleanup_policies fuel ps'
  end.
Definition runOnce (fuel : nat) : prog State bool :=
  let* ps := wrap_ (Wrapf "list enabled retention policies: %w" [])
    (query (fun s => inl (ListEnabledRetentionPolicies s))) in
  cleanup_policies fuel ps.
End Retention.
End RecordingJobs.
