(* ===== verification/RecordingSafety.v ===== *)
(** * Recordings: the invariant of any interleaving

    Requests, event handlers and jobs of any number of processes run as the
    programs of [Programs.v]. [inv] is what always holds of the tables, the stores
    and the outbox, [guar] what a single call of any program may change; every
    program of the component keeps to both ([RecordingPrograms.v]). *)

From S2P Require Import Prelude Encryption Programs Routing Paths ObjectStore RecordingStore StorageService Recordings RecordingJobs.
Local Open Scope Z_scope.

Module RecordingSafety.
Import Encryption Programs Paths ObjectStore RecordingStore StorageService Recordings RecordingJobs.

(** ** The life of a recording

    Its status, [None] before it exists, and the types of its events in the
    outbox. *)
Inductive life : option string * list string -> option string * list string -> Prop :=
| life_start : life (None, []) (Some StatusRecording, [EventRecordingStarted])
| life_ready h : life (Some StatusRecording, h) (Some StatusUploading, h)
| life_complete h : life (Some StatusUploading, h) (Some StatusCompleted, h ++ [EventRecordingCompleted])
| life_fail h : life (Some StatusUploading, h) (Some StatusFailed, h ++ [EventRecordingFailed])
| life_delete a h :
    a ∈ [StatusCompleted; StatusFailed] -> life (Some a, h) (Some StatusDeleted, h ++ [EventRecordingDeleted]).

Definition about (id : UUID) (e : Event) : Prop := r_ID (ev_Recording e) = id.
#[export] Instance about_dec id e : Decision (about id e).
Proof. unfold about. apply _. Defined.
Definition history (id : UUID) (l : list Event) : list string := ev_Type <$> filter (about id) l.
Definition life_of (s : State) (id : UUID) : option string * list string :=
  (r_Status <$> recordings s !! id, history id (outbox s)).

(** Status [b] can come after [a]. *)
Definition later (a b : string) : Prop :=
  a = b \/ a = StatusRecording \/ (a = StatusUploading /\ b <> StatusRecording)
  \/ (a ∈ [StatusCompleted; StatusFailed] /\ b = StatusDeleted).
Lemma later_refl a : later a a.
Proof. by left. Qed.
Lemma later_trans a b d : later a b -> later b d -> later a d.
Proof.
  unfold later, StatusRecording, StatusUploading, StatusCompleted, StatusFailed, StatusDeleted.
  rewrite !elem_of_cons, !elem_of_nil. naive_solver.
Qed.

(** What of a row never changes, and what never changes once it is set. *)
Record evolves (r r' : Recording) : Prop := {
  evolves_ID : r_ID r' = r_ID r;
  evolves_org : r_OrganizationID r' = r_OrganizationID r;
  evolves_call : r_CallID r' = r_CallID r;
  evolves_source : r_SourcePath r' = r_SourcePath r;
  evolves_created : r_CreatedAt r' = r_CreatedAt r;
  evolves_status : later (r_Status r) (r_Status r');
  evolves_pin : is_Some (r_StorageKey r) ->
    r_StorageKey r' = r_StorageKey r /\ r_StorageIntegrationID r' = r_StorageIntegrationID r
    /\ r_StorageProvider r' = r_StorageProvider r /\ r_StorageBucket r' = r_StorageBucket r;
}.
Lemma evolves_refl r : evolves r r.
Proof. split; [done..|apply later_refl|done]. Qed.
Lemma evolves_trans r1 r2 r3 : evolves r1 r2 -> evolves r2 r3 -> evolves r1 r3.
Proof.
  intros [] []. split; try congruence; [by eapply later_trans|].
  intros Hk. destruct (evolves_pin0 Hk) as (Hk2 & ? & ? & ?).
  destruct evolves_pin1 as (? & ? & ? & ?); [by rewrite Hk2|]. split_and!; congruence.
Qed.

Section Invariant.
Context {L : S3Lib} {U : UuidLib}.
(** The storage of the deployment and the staging directory. *)
Context (st : ObjectStorage) (staging : string).

(** The store, by host and bucket, of an integration; [None]: of the deployment. *)
Definition destination (ints : gmap UUID StorageIntegration) (i : option UUID) : option (string * string) :=
  match i with
  | None => Some (cl_Host (os_client st), cl_Bucket (os_client st))
  | Some id =>
      match ints !! id with
      | Some it =>
          match parseEndpoint (i_EndpointUrl it) with
          | inl (host, _) => Some (host, TrimSpace (i_Bucket it))
          | inr _ => None
          end
      | None => None
      end
  end.
(** [r] has its object at [l]. *)
Definition object_at (ints : gmap UUID StorageIntegration) (r : Recording) (l : Location) : Prop :=
  exists host bucket key, l = (host, bucket, key) /\ r_StorageKey r = Some key
    /\ destination ints (r_StorageIntegrationID r) = Some (host, bucket).
Definition integration_of (ints : gmap UUID StorageIntegration) (org : UUID) (i : option UUID) : Prop :=
  match i with
  | None => True
  | Some id => exists it, ints !! id = Some it /\ i_OrganizationID it = org
  end.

Record row_ok (s : State) (r : Recording) : Prop := {
  row_call : exists cr, calls s !! r_CallID r = Some cr /\ c_OrganizationID cr = r_OrganizationID r;
  row_unpinned : r_StorageKey r = None ->
    r_StorageIntegrationID r = None /\ r_StorageProvider r = None /\ r_StorageBucket r = None;
  row_pinned : forall key, r_StorageKey r = Some key ->
    (exists t ext, recordingObjectKey (r_OrganizationID r) (r_ID r) t ext = inl key)
    /\ r_StorageProvider r = Some "s3"
    /\ integration_of (integrations s) (r_OrganizationID r) (r_StorageIntegrationID r)
    /\ exists host bucket, destination (integrations s) (r_StorageIntegrationID r) = Some (host, bucket)
       /\ r_StorageBucket r = Some bucket;
  row_recording : r_Status r = StatusRecording -> r_StorageKey r = None;
  row_completed : r_Status r = StatusCompleted ->
    exists l o, object_at (integrations s) r l /\ APut l o ∈ accesses (stores s)
      /\ r_FileSizeBytes r = Some (Z.of_nat (length (o_Data o)));
}.

(** An access to a store is to the object of a recording, or to the test object of
    an integration. *)
Definition location_of (a : Access) : Location := match a with APut l _ | ARemove l | APresign l => l end.
Definition test_object (ints : gmap UUID StorageIntegration) (l : Location) : Prop :=
  exists i host bucket name, l = (host, bucket, "leamout-storage-test/" +:+ name)
    /\ destination ints (Some i) = Some (host, bucket).
Definition access_ok (s : State) (a : Access) : Prop :=
  (exists id r, recordings s !! id = Some r /\ object_at (integrations s) r (location_of a))
  \/ test_object (integrations s) (location_of a).

(** Files are opened below the staging directory, links followed, and removed when
    a recording they were the source of has been put into its store. *)
Definition below_staging (s : State) (p : string) : Prop :=
  exists root, AResolve staging root ∈ file_log s /\ inside root p = true.
Definition was_uploaded (s : State) (p : string) : Prop :=
  exists id r source l o, recordings s !! id = Some r /\ r_SourcePath r = Some source
    /\ AResolve (Clean (TrimSpace source)) p ∈ file_log s
    /\ object_at (integrations s) r l /\ APut l o ∈ accesses (stores s).
Definition file_ok (s : State) (a : FileAccess) : Prop :=
  match a with
  | AResolve _ _ => True
  | AOpen p => below_staging s p
  | AUnlink p => below_staging s p /\ was_uploaded s p
  end.

Record inv (s : State) : Prop := {
  inv_next : 0 < next s;
  inv_rows : forall id r, recordings s !! id = Some r -> r_ID r = id /\ 0 < id < next s /\ row_ok s r;
  inv_integrations : forall id it, integrations s !! id = Some it -> i_ID it = id;
  inv_accesses : forall a, a ∈ accesses (stores s) -> access_ok s a;
  inv_files : forall a, a ∈ file_log s -> file_ok s a;
  inv_events : forall e, e ∈ outbox s -> r_ID (ev_Recording e) < next s;
  inv_life : forall id, rtc life (None, []) (life_of s id);
}.

(** ** The guarantee *)
Record grows (s s' : State) : Prop := {
  grows_next : next s <= next s';
  grows_calls : forall id cr, calls s !! id = Some cr ->
    exists cr', calls s' !! id = Some cr' /\ c_OrganizationID cr' = c_OrganizationID cr;
  grows_integrations : forall id it, integrations s !! id = Some it ->
    exists it', integrations s' !! id = Some it' /\ i_OrganizationID it' = i_OrganizationID it
      /\ i_EndpointUrl it' = i_EndpointUrl it /\ i_Bucket it' = i_Bucket it;
  grows_accesses : forall a, a ∈ accesses (stores s) -> a ∈ accesses (stores s');
  grows_files : forall a, a ∈ file_log s -> a ∈ file_log s';
}.
Record guar (s s' : State) : Prop := {
  guar_grows : grows s s';
  guar_rows : forall id r, recordings s !! id = Some r ->
    exists r', recordings s' !! id = Some r' /\ evolves r r';
  guar_life : forall id, life_of s' id = life_of s id \/ life (life_of s id) (life_of s' id);
}.
Lemma grows_refl s : grows s s.
Proof. split; eauto; lia. Qed.
Lemma grows_trans s1 s2 s3 : grows s1 s2 -> grows s2 s3 -> grows s1 s3.
Proof.
  intros [N1 C1 I1 A1 F1] [N2 C2 I2 A2 F2]. split; [lia| | |by auto|by auto].
  - intros id cr (cr2 & H2 & E2)%C1. destruct (C2 _ _ H2) as (cr3 & H3 & E3). exists cr3. split; [done|congruence].
  - intros id it (it2 & H2 & E2 & F2' & G2)%I1. destruct (I2 _ _ H2) as (it3 & H3 & E3 & F3 & G3). exists it3.
    split_and!; [done|congruence..].
Qed.
Lemma guar_refl s : guar s s.
Proof. split; eauto using grows_refl, evolves_refl. Qed.

(** ** Facts that keep *)
Lemma destination_grows s s' i d :
  grows s s' -> destination (integrations s) i = Some d -> destination (integrations s') i = Some d.
Proof.
  intros Hg. destruct i as [id|]; simpl; [|done]. destruct (integrations s !! id) as [it|] eqn:Hi; [|done].
  destruct (grows_integrations _ _ Hg _ _ Hi) as (it' & -> & _ & -> & ->). done.
Qed.
Lemma integration_of_grows s s' org i :
  grows s s' -> integration_of (integrations s) org i -> integration_of (integrations s') org i.
Proof.
  intros Hg. destruct i as [id|]; simpl; [|done]. intros (it & Hi & Ho).
  destruct (grows_integrations _ _ Hg _ _ Hi) as (it' & Hi' & Ho' & _). exists it'. split; [done|congruence].
Qed.
Lemma object_at_grows s s' r r' l :
  grows s s' -> evolves r r' -> object_at (integrations s) r l -> object_at (integrations s') r' l.
Proof.
  intros Hg He (host & bucket & key & -> & Hk & Hd). exists host, bucket, key.
  destruct (evolves_pin _ _ He) as (Hk' & Hi' & _); [by rewrite Hk|]. rewrite Hk', Hi'.
  split_and!; [done|done|by eapply destination_grows].
Qed.
Lemma rec_row_grows s s' r : grows s s' -> row_ok s r -> row_ok s' r.
Proof.
  intros Hg [(cr & Hc & Ho) Hun Hpin Hrec Hcomp]. split; [|done| |done|].
  - destruct (grows_calls _ _ Hg _ _ Hc) as (cr' & Hc' & Ho'). exists cr'. split; [done|congruence].
  - intros key Hk. destruct (Hpin key Hk) as (? & ? & ? & h & b & Hd & Hb).
    split_and!; [done|done|by eapply integration_of_grows|]. exists h, b. split; [by eapply destination_grows|done].
  - intros Hs. destruct (Hcomp Hs) as (l & o & Hl & Ho' & Hz). exists l, o.
    split_and!; [by eapply object_at_grows; eauto using evolves_refl|by eapply grows_accesses|done].
Qed.
Lemma access_ok_guar s s' a : guar s s' -> access_ok s a -> access_ok s' a.
Proof.
  intros [Hg Hr _] [(id & r & Hid & Hl)|(i & h & b & n & Hl & Hd)].
  - destruct (Hr _ _ Hid) as (r' & Hid' & He). left. exists id, r'. split; [done|by eapply object_at_grows].
  - right. exists i, h, b, n. split; [done|by eapply destination_grows].
Qed.
Lemma below_staging_grows s s' p : grows s s' -> below_staging s p -> below_staging s' p.
Proof. intros Hg (root & Hr & Hp). exists root. split; [by eapply grows_files|done]. Qed.
Lemma was_uploaded_guar s s' p : guar s s' -> was_uploaded s p -> was_uploaded s' p.
Proof.
  intros [Hg Hr _] (id & r & source & l & o & Hid & Hs & Hl & Ho & Hput).
  destruct (Hr _ _ Hid) as (r' & Hid' & He). exists id, r', source, l, o.
  split_and!; [done|by rewrite (evolves_source _ _ He)|by eapply grows_files|by eapply object_at_grows|by eapply grows_accesses].
Qed.
Lemma file_ok_guar s s' a : guar s s' -> file_ok s a -> file_ok s' a.
Proof.
  intros Hg. destruct a; simpl; [done|by apply below_staging_grows, Hg|].
  intros []. split; [by eapply below_staging_grows; [apply Hg|]|by eapply was_uploaded_guar].
Qed.

(** What a call has to show: the guarantee, and the invariant of what is new. *)
Lemma allowed_intro s s' :
  inv s -> guar s s' ->
  (forall id r, recordings s' !! id = Some r -> recordings s !! id = Some r \/
     (r_ID r = id /\ 0 < id < next s' /\ row_ok s' r)) ->
  (forall id it, integrations s' !! id = Some it -> i_ID it = id) ->
  (forall a, a ∈ accesses (stores s') -> a ∈ accesses (stores s) \/ access_ok s' a) ->
  (forall a, a ∈ file_log s' -> a ∈ file_log s \/ file_ok s' a) ->
  (forall e, e ∈ outbox s' -> e ∈ outbox s \/ r_ID (ev_Recording e) < next s') ->
  allowed inv guar s s'.
Proof.
  intros [Hn Hrows Hints Hacc Hfiles Hev Hlife] Hg Hr Hi Ha Hf He. split; [|done].
  pose proof (grows_next _ _ (guar_grows _ _ Hg)) as Hle. split.
  - lia.
  - intros id r Hid. destruct (Hr _ _ Hid) as [Hold|Hnew]; [|done].
    destruct (Hrows _ _ Hold) as (? & ? & Hok). split_and!; [done|lia..|by eapply rec_row_grows; [apply Hg|]].
  - done.
  - intros a Hin. destruct (Ha _ Hin) as [Hold|]; [|done]. by eapply access_ok_guar; [|apply Hacc].
  - intros a Hin. destruct (Hf _ Hin) as [Hold|]; [|done]. by eapply file_ok_guar; [|apply Hfiles].
  - intros e Hin. destruct (He _ Hin) as [Hold|]; [|done]. specialize (Hev _ Hold). lia.
  - intros id. destruct (guar_life _ _ Hg id) as [Hs|Hs]; [rewrite Hs; apply Hlife|].
    eapply rtc_r; [apply Hlife|exact Hs].
Qed.

(** ** Single calls *)
Definition ok : State -> State -> Prop := allowed inv guar.

(** Calls that leave tables and logs as they are, up to new calls and ids. *)
Record frame (s s' : State) : Prop := {
  frame_next : next s <= next s';
  frame_calls : forall id cr, calls s !! id = Some cr ->
    exists cr', calls s' !! id = Some cr' /\ c_OrganizationID cr' = c_OrganizationID cr;
  frame_integrations : integrations s' = integrations s;
  frame_recordings : recordings s' = recordings s;
  frame_outbox : outbox s' = outbox s;
  frame_accesses : accesses (stores s') = accesses (stores s);
  frame_files : file_log s' = file_log s;
}.
Lemma frame_refl s : frame s s.
Proof. split; eauto; lia. Qed.
Lemma rec_ok_frame s s' : inv s -> frame s s' -> ok s s'.
Proof.
  intros Hi [Hn Hc Hint Hrec Hout Hacc Hfl]. apply allowed_intro; [done|split| | | | |].
  - split; [done|done| | |]; rewrite ?Hint, ?Hacc, ?Hfl; eauto.
  - rewrite Hrec. eauto using evolves_refl.
  - intros id. left. unfold life_of. by rewrite Hrec, Hout.
  - rewrite Hrec. by left.
  - rewrite Hint. apply Hi.
  - rewrite Hacc. by left.
  - rewrite Hfl. by left.
  - rewrite Hout. by left.
Qed.
Lemma ok_refl s : inv s -> ok s s.
Proof. intros Hi. apply rec_ok_frame; [done|apply frame_refl]. Qed.

Lemma ok_access s s' a :
  inv s -> access_ok s a -> accesses (stores s') = accesses (stores s) ++ [a] ->
  next s' = next s -> calls s' = calls s -> integrations s' = integrations s -> recordings s' = recordings s ->
  outbox s' = outbox s -> file_log s' = file_log s -> ok s s'.
Proof.
  intros Hi Ha Hacc Hn Hc Hint Hrec Hout Hfl. apply allowed_intro; [done|split| | | | |].
  - split; [lia| | | |]; rewrite ?Hc, ?Hint, ?Hacc, ?Hfl; eauto. intros x Hx. apply elem_of_app. by left.
  - rewrite Hrec. eauto using evolves_refl.
  - intros id. left. unfold life_of. by rewrite Hrec, Hout.
  - rewrite Hrec. by left.
  - rewrite Hint. apply Hi.
  - rewrite Hacc. intros x [Hx|Hx%list_elem_of_singleton]%elem_of_app; [by left|right; subst x].
    destruct Ha as [(id & r & Hid & Hl)|Ht]; [left|right]; rewrite ?Hrec, Hint; eauto.
  - rewrite Hfl. by left.
  - rewrite Hout. by left.
Qed.

Lemma ok_log s s' a :
  inv s -> file_ok s a -> file_log s' = file_log s ++ [a] ->
  next s' = next s -> calls s' = calls s -> integrations s' = integrations s -> recordings s' = recordings s ->
  outbox s' = outbox s -> accesses (stores s') = accesses (stores s) -> ok s s'.
Proof.
  intros Hi Ha Hfl Hn Hc Hint Hrec Hout Hacc. apply allowed_intro; [done|split| | | | |].
  - split; [lia| | | |]; rewrite ?Hc, ?Hint, ?Hacc, ?Hfl; eauto. intros x Hx. apply elem_of_app. by left.
  - rewrite Hrec. eauto using evolves_refl.
  - intros id. left. unfold life_of. by rewrite Hrec, Hout.
  - rewrite Hrec. by left.
  - rewrite Hint. apply Hi.
  - rewrite Hacc. by left.
  - rewrite Hfl. intros x [Hx|Hx%list_elem_of_singleton]%elem_of_app; [by left|right; subst x].
    assert (forall x, x ∈ file_log s -> x ∈ file_log s') as Hsub by (rewrite Hfl; set_solver).
    destruct a; simpl in *; [done| |].
    + destruct Ha as (root & Hr & Hin). exists root. auto.
    + destruct Ha as ((root & Hr & Hin) & (id & r & source & l & o & Hid & Hs & Hl & Ho & Hput)). split.
      * exists root. auto.
      * exists id, r, source, l, o. rewrite Hrec, Hint, Hacc. auto.
  - rewrite Hout. by left.
Qed.
Lemma ok_log_file s a : inv s -> file_ok s a -> ok s (log_file a s).
Proof. intros Hi Ha. by apply (ok_log s _ a). Qed.

(** Changes of rows: those that are there evolve, new ones begin. [rows'] and
    [evs] are what the statement writes. *)
Lemma ok_rows s s' :
  inv s -> 
  next s <= next s' -> calls s' = calls s -> integrations s' = integrations s ->
  accesses (stores s') = accesses (stores s) -> file_log s' = file_log s ->
  (forall id r, recordings s !! id = Some r -> exists r', recordings s' !! id = Some r' /\ evolves r r') ->
  (forall id r', recordings s' !! id = Some r' -> recordings s !! id = Some r' \/
     (r_ID r' = id /\ 0 < id < next s' /\ row_ok s r')) ->
  (forall e, e ∈ outbox s' -> e ∈ outbox s \/ r_ID (ev_Recording e) < next s') ->
  (forall id, life_of s' id = life_of s id \/ life (life_of s id) (life_of s' id)) -> ok s s'.
Proof.
  intros Hi Hn Hc Hint Hacc Hfl Hev Hnew Hout Hlife.
  assert (grows s s') as Hg by (split; [done| | | |]; rewrite ?Hc, ?Hint, ?Hacc, ?Hfl; eauto).
  apply allowed_intro; [done|done| | | | |done].
  - intros id r' Hid. destruct (Hnew _ _ Hid) as [?|(? & ? & ?)]; [by left|right].
    split_and!; [done|lia..|by eapply rec_row_grows].
  - rewrite Hint. apply Hi.
  - rewrite Hacc. by left.
  - rewrite Hfl. by left.
Qed.

(** *** A row that is written, with or without an event *)
Definition tells (r r' : Recording) (o : option string) : Prop :=
  match o with
  | None => r_Status r' = r_Status r \/ (r_Status r = StatusRecording /\ r_Status r' = StatusUploading)
  | Some ty => forall h, life (Some (r_Status r), h) (Some (r_Status r'), h ++ [ty])
  end.
Definition event_of (r' : Recording) (o : option string) (t : Z) : list Event :=
  match o with Some ty => [{| ev_Type := ty; ev_Recording := r'; ev_OccurredAt := t |}] | None => [] end.
Lemma history_app id l l' : history id (l ++ l') = history id l ++ history id l'.
Proof. unfold history. by rewrite filter_app, fmap_app. Qed.
Lemma history_event id r' o t :
  history id (event_of r' o t) = match o with Some ty => if decide (r_ID r' = id) then [ty] else [] | None => [] end.
Proof.
  destruct o as [ty|]; [|done]. unfold history, event_of.
  destruct (decide (r_ID r' = id)); [by rewrite filter_cons_True|by rewrite filter_cons_False].
Qed.

Lemma ok_store s s' r r' o t :
  inv s -> recordings s !! r_ID r = Some r -> evolves r r' -> row_ok s r' -> tells r r' o ->
  recordings s' = <[r_ID r' := r']> (recordings s) -> outbox s' = outbox s ++ event_of r' o t ->
  next s' = next s -> calls s' = calls s -> integrations s' = integrations s ->
  accesses (stores s') = accesses (stores s) -> file_log s' = file_log s -> ok s s'.
Proof.
  intros Hi Hr He Hok Ht Hrec Hout Hn Hc Hint Hacc Hfl.
  pose proof (evolves_ID _ _ He) as Hid. rewrite Hid in Hrec.
  destruct (inv_rows _ Hi _ _ Hr) as (_ & Hlt & _).
  apply ok_rows; [done|lia|done|done|done|done| | | |].
  - intros id x Hx. rewrite Hrec. destruct (decide (id = r_ID r)) as [->|Hne].
    + rewrite lookup_insert_eq. exists r'. split; [done|]. by rewrite Hr in Hx; injection Hx as <-.
    + rewrite lookup_insert_ne by done. eauto using evolves_refl.
  - intros id x. rewrite Hrec. destruct (decide (id = r_ID r)) as [->|Hne].
    + rewrite lookup_insert_eq. intros [= <-]. right. rewrite Hid, Hn. done.
    + rewrite lookup_insert_ne by done. by left.
  - rewrite Hout, Hn. intros e [?|Hin]%elem_of_app; [by left|right].
    destruct o; [|by apply elem_of_nil in Hin]. apply list_elem_of_singleton in Hin as ->. simpl. lia.
  - intros id. unfold life_of. rewrite Hrec, Hout, history_app, history_event, Hid.
    destruct (decide (r_ID r = id)) as [<-|Hne].
    + rewrite lookup_insert_eq, Hr. simpl. destruct o as [ty|]; [by right|]. rewrite app_nil_r.
      destruct Ht as [->|[-> ->]]; [by left|right]. constructor.
    + rewrite lookup_insert_ne by done. left. destruct o; by rewrite app_nil_r.
Qed.

(** ** Facts that are stable *)
Definition snap (r : Recording) (s : State) : Prop :=
  exists cur, recordings s !! r_ID r = Some cur /\ evolves r cur.
Definition known_call (id org : UUID) (s : State) : Prop :=
  exists cr, calls s !! id = Some cr /\ c_OrganizationID cr = org.
Definition stays (P : State -> Prop) : Prop := stable inv guar P.

Lemma stable_snap r : stays (snap r).
Proof.
  intros s s' _ _ Hg (cur & Hc & He). destruct (guar_rows _ _ Hg _ _ Hc) as (cur' & Hc' & He').
  exists cur'. split; [done|by eapply evolves_trans].
Qed.
Lemma stable_known_call id org : stays (known_call id org).
Proof.
  intros s s' _ _ Hg (cr & Hc & Ho). destruct (grows_calls _ _ (guar_grows _ _ Hg) _ _ Hc) as (cr' & Hc' & Ho').
  exists cr'. split; [done|congruence].
Qed.
Lemma stable_destination i d : stays (fun s => destination (integrations s) i = Some d).
Proof. intros s s' _ _ Hg. apply destination_grows, Hg. Qed.
Lemma stable_integration_of org i : stays (fun s => integration_of (integrations s) org i).
Proof. intros s s' _ _ Hg. apply integration_of_grows, Hg. Qed.
Lemma stable_access a : stays (fun s => a ∈ accesses (stores s)).
Proof. intros s s' _ _ Hg. apply grows_accesses, Hg. Qed.
Lemma stable_logged a : stays (fun s => a ∈ file_log s).
Proof. intros s s' _ _ Hg. apply grows_files, Hg. Qed.
Lemma stable_below p : stays (fun s => below_staging s p).
Proof. intros s s' _ _ Hg. apply below_staging_grows, Hg. Qed.
Lemma stable_object r l : stays (fun s => object_at (integrations s) r l).
Proof. intros s s' _ _ Hg. eapply object_at_grows; [apply Hg|apply evolves_refl]. Qed.
Lemma stable_row r : stays (fun s => row_ok s r).
Proof. intros s s' _ _ Hg. apply rec_row_grows, Hg. Qed.
Lemma stays_ex {X} (P : X -> State -> Prop) : (forall x, stays (P x)) -> stays (fun s => exists x, P x s).
Proof. intros HP s s' Hi Hi' Hg [x Hx]. exists x. by apply (HP x s s'). Qed.
Lemma stays_and P Q : stays P -> stays Q -> stays (fun s => P s /\ Q s).
Proof. apply stable_and. Qed.
Lemma stays_pure (P : Prop) : stays (fun _ => P).
Proof. apply stable_pure. Qed.
End Invariant.

Create HintDb stays discriminated.
#[export] Hint Resolve stable_snap stable_known_call stable_destination stable_integration_of stable_access
  stable_logged stable_below stable_object stable_row stays_pure : stays.
#[export] Hint Extern 2 (stays _ _ (fun s => _ /\ _)) => apply stays_and : stays.
#[export] Hint Extern 2 (stays _ _ (fun s => exists _, _)) => apply stays_ex; intros ? : stays.
#[export] Hint Extern 3 (stays _ _ (fun s => match ?x with _ => _ end)) => destruct x : stays.
End RecordingSafety.
