(* ===== verification/RecordingStatements.v ===== *)
(** * Recordings: every statement keeps the invariant

    What each statement, and each call to a store or a file, does to the invariant
    and the guarantee of [RecordingSafety.v]; and the rules for the calls of this
    component in the logic of [Programs.v]. *)

From stdpp Require Import sorting.
From S2P Require Import Prelude Encryption Programs Routing Paths ObjectStore RecordingStore StorageService Recordings RecordingJobs RecordingSafety.
Local Open Scope Z_scope.

Module RecordingStatements.
Import AppErr Encryption Programs Paths ObjectStore RecordingStore StorageService Recordings RecordingJobs RecordingSafety.

Section Programs.
Context {L : S3Lib} {T : StorageLib} {A : AEAD} {U : UuidLib} {Mi : MimeLib}.
Context (st : ObjectStorage) (staging : string).
Abbreviation inv := (inv st staging).
Abbreviation guar := (guar).
Abbreviation ok := (ok st staging).
Abbreviation stays := (stays st staging).
Abbreviation row_ok := (row_ok st).

(** ** Statements *)
(** The table with a row written. *)
Definition write (r : Recording) (s : State) : State := set_recordings (<[r_ID r := r]> (recordings s)) s.
Lemma put_recording_inv r s x s' :
  put_recording r s = inl (x, s') -> x = r /\ s' = write r s.
Proof. unfold put_recording. repeat (case_match; [done|]). by intros [= <- <-]. Qed.
Lemma update_recording_inv id p f s x s' :
  inv s -> update_recording id p f s = inl (x, s') ->
  exists r, recordings s !! id = Some r /\ r_ID r = id /\ p r = true /\ row_ok s r /\ x = f r
    /\ s' = write x s.
Proof.
  intros Hi. unfold update_recording. destruct (recordings s !! id) as [r|] eqn:Hr; [|done].
  destruct (p r) eqn:Hp; [|done]. intros [-> ->]%put_recording_inv.
  destruct (inv_rows _ _ _ Hi _ _ Hr) as (? & _ & ?). by exists r.
Qed.
Lemma in_org_true org r : in_org org r = true -> r_OrganizationID r = org.
Proof. apply bool_decide_eq_true. Qed.
Lemma status_in_true l r : status_in l r = true -> r_Status r ∈ l.
Proof. apply bool_decide_eq_true. Qed.

(** A row written alone, and with its event. *)
Lemma ok_write s r r' :
  inv s -> recordings s !! r_ID r = Some r -> evolves r r' -> row_ok s r' -> tells r r' None -> ok s (write r' s).
Proof.
  intros. apply (ok_store _ _ s _ r r' None 0); try done. simpl. by rewrite app_nil_r.
Qed.
Lemma ok_write_event s r r' ty t :
  inv s -> recordings s !! r_ID r = Some r -> evolves r r' -> row_ok s r' -> tells r r' (Some ty) ->
  ok s (add_event {| ev_Type := ty; ev_Recording := r'; ev_OccurredAt := t |} (write r' s)).
Proof. intros. by apply (ok_store _ _ s _ r r' (Some ty) t). Qed.

(** A change of the upload columns alone. *)
Lemma row_ok_upload s r t status stopped next_at err n :
  row_ok s r -> status = r_Status r \/ (status <> StatusRecording /\ status <> StatusCompleted) ->
  row_ok s (with_upload t status stopped next_at err n r).
Proof.
  intros [Hc Hun Hpin Hrec Hcomp] Hs. split; [done|done|done| |]; simpl.
  - destruct Hs as [->|[? ?]]; [done|]. by intros ->.
  - destruct Hs as [->|[? ?]]; [done|]. by intros ->.
Qed.
Lemma evolves_upload r t status stopped next_at err n :
  later (r_Status r) status -> evolves r (with_upload t status stopped next_at err n r).
Proof. intros Hl. by split. Qed.

(** [MarkRecordingReadyForUpload], [RetryRecordingUpload]: no event. *)
Lemma Mark_ok s stopped org id x s' :
  inv s -> MarkRecordingReadyForUpload stopped org id s = inl (x, s') -> ok s s'.
Proof.
  intros Hi H. apply update_recording_inv in H as (r & Hr & Hid & Hp & Hok & -> & ->); [|done].
  apply andb_true_iff in Hp as [_ Hs%status_in_true%list_elem_of_singleton]. subst id.
  apply (ok_write _ r); [done|done| | |].
  - apply evolves_upload. rewrite Hs. by right; left.
  - apply row_ok_upload; [done|]. by right.
  - right. by rewrite Hs.
Qed.
Lemma Retry_ok s err next_at id x s' :
  inv s -> RetryRecordingUpload err next_at id s = inl (x, s') -> ok s s'.
Proof.
  intros Hi H. apply update_recording_inv in H as (r & Hr & Hid & Hp & Hok & -> & ->); [|done]. subst id.
  apply (ok_write _ r); [done|done| | |].
  - apply evolves_upload, later_refl.
  - apply row_ok_upload; [done|by left].
  - by left.
Qed.

(** [PinRecordingUpload]: the destination must be the one of the integration. *)
Lemma Pin_ok s integration key bucket org id x s' host :
  inv s -> PinRecordingUpload integration key "s3" bucket org id s = inl (x, s') ->
  (exists t ext, recordingObjectKey org id t ext = inl key) ->
  integration_of (integrations s) org integration ->
  destination st (integrations s) integration = Some (host, bucket) ->
  ok s s' /\ exists r, recordings s !! id = Some r /\ recordings s' !! id = Some x /\ evolves r x
    /\ r_ID x = id /\ r_OrganizationID x = org /\ r_StorageKey x = Some key /\ r_Status x = StatusUploading
    /\ r_StorageIntegrationID x = integration /\ r_StorageBucket x = Some bucket
    /\ r_UploadAttempts x = r_UploadAttempts r.
Proof.
  intros Hi H Hkey Hint Hd. apply update_recording_inv in H as (r & Hr & Hid & Hp & Hok & -> & ->); [|done].
  rewrite !andb_true_iff in Hp. destruct Hp as [[Ho%in_org_true Hs%status_in_true%list_elem_of_singleton] Hk%bool_decide_eq_true].
  subst id org.
  assert (evolves r (with_storage (now s) integration (Some key) (Some "s3") (Some bucket) r)) as He.
  { split; [done..|apply later_refl|]. rewrite Hk. by intros []. }
  split; [apply (ok_write _ r); [done|done|done| |by left]|].
  - destruct Hok as [Hc _ _ _ Hcomp]. split; simpl; [done|done| | |].
    + intros k [= <-]. split_and!; [done|done|done|]. eauto.
    + by rewrite Hs.
    + by rewrite Hs.
  - exists r. split_and!; try done. simpl. by rewrite lookup_insert_eq.
Qed.

(** [CompleteRecording], once the object is where the row says. *)
Lemma Complete_ok s integration key bucket size format org id x s' t cur host o :
  inv s -> CompleteRecording integration key "s3" bucket size format org id s = inl (x, s') ->
  recordings s !! id = Some cur -> r_Status cur <> StatusRecording -> r_StorageKey cur = Some key ->
  r_StorageIntegrationID cur = integration -> r_StorageBucket cur = Some bucket ->
  destination st (integrations s) integration = Some (host, bucket) ->
  APut (host, bucket, key) o ∈ accesses (stores s) -> size = Z.of_nat (length (o_Data o)) ->
  ok s (add_event {| ev_Type := EventRecordingCompleted; ev_Recording := x; ev_OccurredAt := t |} s').
Proof.
  intros Hi H Hcur Hns Hk Hint Hb Hd Hput Hz.
  apply update_recording_inv in H as (r & Hr & Hid & Hp & Hok & -> & ->); [|done]. simplify_eq.
  apply andb_true_iff in Hp as [_ Hs%status_in_true]. rewrite !elem_of_cons, elem_of_nil in Hs.
  destruct Hs as [?|[Hs|[]]]; [done|]. destruct (row_pinned _ _ _ Hok _ Hk) as (? & Hprov & ? & _).
  assert (coalesce (r_StorageIntegrationID r) (r_StorageIntegrationID r) = r_StorageIntegrationID r) as Hco.
  { by destruct (r_StorageIntegrationID r). }
  apply (ok_write_event _ r); [done|done| | |].
  - split; simpl; try done. rewrite Hs. by right; right; left.
  - destruct Hok as [Hc _ _ _ _]. split; simpl; rewrite ?Hco; [done|done| |done|].
    + intros k [= <-]. split_and!; [done|done|done|]. eauto.
    + intros _. exists (host, bucket, key), o. split_and!; [|done|done]. by exists host, bucket, key.
  - intros h. rewrite Hs. constructor.
Qed.

(** [FailRecording] and [DeleteRecording], by what is known of the status. *)
Lemma Fail_ok s org id x s' t :
  inv s -> FailRecording org id s = inl (x, s') ->
  (forall cur, recordings s !! id = Some cur -> r_Status cur <> StatusRecording) ->
  ok s (add_event {| ev_Type := EventRecordingFailed; ev_Recording := x; ev_OccurredAt := t |} s').
Proof.
  intros Hi H Hns. apply update_recording_inv in H as (r & Hr & Hid & Hp & Hok & -> & ->); [|done]. subst id.
  apply andb_true_iff in Hp as [_ Hs%status_in_true]. rewrite !elem_of_cons, elem_of_nil in Hs.
  destruct Hs as [?|[Hs|[]]]; [by destruct (Hns _ Hr)|].
  apply (ok_write_event _ r); [done|done| | |].
  - split; simpl; try done. rewrite Hs. by right; right; left.
  - destruct Hok as [Hc Hun Hpin _ _]. by split.
  - intros h. rewrite Hs. constructor.
Qed.
Lemma Delete_ok s org id x s' t :
  inv s -> DeleteRecording org id s = inl (x, s') ->
  (forall cur, recordings s !! id = Some cur -> r_Status cur ∈ [StatusCompleted; StatusFailed; StatusDeleted]) ->
  ok s (add_event {| ev_Type := EventRecordingDeleted; ev_Recording := x; ev_OccurredAt := t |} s').
Proof.
  intros Hi H Hst. apply update_recording_inv in H as (r & Hr & Hid & Hp & Hok & -> & ->); [|done]. subst id.
  apply andb_true_iff in Hp as [_ Hs%negb_true_iff%bool_decide_eq_false].
  assert (r_Status r ∈ [StatusCompleted; StatusFailed]) as Hin.
  { specialize (Hst _ Hr). rewrite !elem_of_cons, !elem_of_nil in *. naive_solver. }
  apply (ok_write_event _ r); [done|done| | |].
  - split; simpl; try done. by right; right; right.
  - apply row_ok_upload; [done|]. by right.
  - intros h. by constructor.
Qed.

(** [CreateRecording] of a fresh id, for a call of the organization. *)
Lemma Create_ok s org callID path started x s' t :
  inv s -> known_call callID org s ->
  (let (id, s1) := fresh s in CreateRecording id org callID StatusRecording path started s1) = inl (x, s') ->
  ok s (add_event {| ev_Type := EventRecordingStarted; ev_Recording := x; ev_OccurredAt := t |} s').
Proof.
  intros Hi (cr & Hc & Ho) [-> ->]%put_recording_inv. simpl.
  assert (recordings s !! next s = None) as Hno.
  { apply eq_None_not_Some. intros [r Hr]. destruct (inv_rows _ _ _ Hi _ _ Hr) as (_ & ? & _). lia. }
  pose proof (inv_next _ _ _ Hi) as Hpos.
  apply ok_rows; simpl; [done|lia|done|done|done|done| | | |].
  - intros id r Hr. rewrite lookup_insert_ne by (intros <-; congruence). eauto using evolves_refl.
  - intros id r. destruct (decide (id = next s)) as [->|Hne].
    + rewrite lookup_insert_eq. intros [= <-]. right. split_and!; [done|lia|lia|]. split; simpl; try done. eauto.
    + rewrite lookup_insert_ne by done. by left.
  - intros e [He|He%list_elem_of_singleton]%elem_of_app; [by left|right; subst e]. simpl. lia.
  - intros id. unfold life_of. simpl. rewrite history_app.
    destruct (decide (id = next s)) as [->|Hne].
    + right. rewrite lookup_insert_eq, Hno. simpl.
      assert (history (next s) (outbox s) = []) as ->.
      { unfold history. rewrite list_filter_none; [done|]. apply Forall_forall. intros e He%(inv_events _ _ _ Hi).
        unfold about. lia. }
      unfold history. rewrite filter_cons_True by done. constructor.
    + left. rewrite lookup_insert_ne by done. unfold history at 2.
      rewrite filter_cons_False; [by rewrite app_nil_r|]. unfold about. simpl. congruence.
Qed.

(** The claim changes no status and no destination. *)
Lemma claim_lookup t until rows (m : gmap UUID Recording) :
  Forall (fun r => m !! r_ID r = Some r) rows ->
  forall k, let m' := foldr (fun r => <[r_ID r := r]>) m (leased t until <$> rows) in
    m' !! k = m !! k \/ exists r, m !! k = Some r /\ m' !! k = Some (leased t until r).
Proof.
  intros HF k. cbv zeta. induction HF as [|r rows Hr HF IH]; simpl; [by left|].
  change (r_ID (leased t until r)) with (r_ID r). destruct (decide (k = r_ID r)) as [->|Hne].
  - rewrite lookup_insert_eq. right. by exists r.
  - by rewrite lookup_insert_ne.
Qed.
Lemma claim_in t until rows (m : gmap UUID Recording) r :
  r ∈ rows -> Forall (fun r => m !! r_ID r = Some r) rows ->
  foldr (fun r => <[r_ID r := r]>) m (leased t until <$> rows) !! r_ID r = Some (leased t until r).
Proof.
  intros Hin HF. induction HF as [|x rows Hx HF IH]; simpl; [by apply elem_of_nil in Hin|].
  change (r_ID (leased t until x)) with (r_ID x). destruct (decide (r_ID r = r_ID x)) as [Heq|Hne].
  - rewrite Heq, lookup_insert_eq. do 2 f_equal.
    apply elem_of_cons in Hin as [->|Hin]; [done|]. rewrite Forall_forall in HF. specialize (HF _ Hin). congruence.
  - rewrite lookup_insert_ne by done. apply IH. apply elem_of_cons in Hin as [->|Hin]; [done|exact Hin].
Qed.
Lemma rows_of_in {X} (m : gmap UUID X) x : x ∈ rows_of m <-> exists k, m !! k = Some x.
Proof.
  unfold rows_of. rewrite list_elem_of_fmap. split.
  - intros ([k y] & -> & Hk%elem_of_map_to_list). eauto.
  - intros [k Hk]. exists (k, x). split; [done|by apply elem_of_map_to_list].
Qed.
Lemma in_sorted_take {X} (le : X -> X -> Prop) `{!RelDecision le} n (l : list X) x :
  x ∈ take n (merge_sort le l) -> x ∈ l.
Proof.
  intros Hin. rewrite <- (merge_sort_Permutation le l). rewrite <- (take_drop n (merge_sort le l)).
  apply elem_of_app. by left.
Qed.
Lemma due_in s claimed_at n r :
  inv s -> r ∈ due claimed_at n s ->
  recordings s !! r_ID r = Some r /\ row_ok s r /\ r_Status r = StatusUploading.
Proof.
  intros Hi Hin%in_sorted_take. apply list_elem_of_filter in Hin as [Hp [k Hk]%rows_of_in].
  destruct (inv_rows _ _ _ Hi _ _ Hk) as (Hid & _ & Hok). rewrite Hid. split_and!; [done|done|].
  rewrite !andb_true_iff in Hp. by destruct Hp as [[Hs%bool_decide_eq_true _] _].
Qed.
Lemma Claim_ok s claimed_at n until rows s' :
  inv s -> ListRecordingsForUpload claimed_at n until s = inl (rows, s') ->
  ok s s' /\ Forall (fun r => row_ok s' r /\ snap r s' /\ r_Status r = StatusUploading) rows.
Proof.
  intros Hi [= <- <-].
  assert (Forall (fun r => recordings s !! r_ID r = Some r) (due claimed_at n s)) as HF.
  { apply Forall_forall. intros r Hr. by apply (due_in s claimed_at n). }
  set (m' := foldr _ _ _).
  assert (forall k, m' !! k = recordings s !! k \/ exists r, recordings s !! k = Some r /\ m' !! k = Some (leased (now s) until r))
    as Hm by (by apply claim_lookup).
  assert (ok s (set_recordings m' s)) as Hok.
  { apply ok_rows; simpl; [done|lia|done|done|done|done| | |by left|].
    - intros k r Hr. destruct (Hm k) as [->|(x & Hx & ->)]; [eauto using evolves_refl|].
      rewrite Hr in Hx. injection Hx as <-. eexists. split; [done|]. apply evolves_upload, later_refl.
    - intros k r Hr. destruct (Hm k) as [Heq|(x & Hx & Heq)]; rewrite Hr in Heq; [by left|right].
      injection Heq as ->. destruct (inv_rows _ _ _ Hi _ _ Hx) as (? & ? & ?). split_and!; [done|lia..|].
      apply row_ok_upload; [done|by left].
    - intros k. left. unfold life_of. simpl. destruct (Hm k) as [->|(x & -> & ->)]; done. }
  split; [done|]. apply Forall_fmap, Forall_forall. intros r Hr.
  destruct (due_in _ _ _ _ Hi Hr) as (Hk & Hrow & Hs). split_and!; [|eexists; split; [|apply evolves_refl]|done].
  - eapply rec_row_grows; [|by apply row_ok_upload; [exact Hrow|left]]. apply Hok.
  - exact (claim_in (now s) until _ _ r Hr HF).
Qed.

(** *** Integrations *)
Lemma ok_integration s it :
  inv s -> (forall old, integrations s !! i_ID it = Some old ->
    i_OrganizationID it = i_OrganizationID old /\ i_EndpointUrl it = i_EndpointUrl old /\ i_Bucket it = i_Bucket old) ->
  ok s (set_integrations (<[i_ID it := it]> (integrations s)) s).
Proof.
  intros Hi Hold. apply allowed_intro; simpl; eauto using evolves_refl.
  - split; simpl; eauto using evolves_refl. split; simpl; eauto; [lia|]. intros id x Hx.
    destruct (decide (id = i_ID it)) as [->|Hne].
    + rewrite lookup_insert_eq. exists it. destruct (Hold _ Hx) as (? & ? & ?). done.
    + rewrite lookup_insert_ne by done. by exists x.
  - intros id x. destruct (decide (id = i_ID it)) as [->|Hne].
    + rewrite lookup_insert_eq. by intros [= <-].
    + rewrite lookup_insert_ne by done. apply (inv_integrations _ _ _ Hi).
Qed.
Lemma put_integration_inv it s x s' :
  put_integration pg_space it s = inl (x, s') ->
  x = it /\ s' = set_integrations (<[i_ID it := it]> (integrations s)) s.
Proof. unfold put_integration. repeat (case_match; [done|]). by intros [= <- <-]. Qed.
Lemma CreateStorage_ok s id org name e re b a ci ps x s' :
  inv s -> CreateStorageIntegration pg_space id org name e re b a ci ps s = inl (x, s') -> ok s s'.
Proof.
  intros Hi. unfold CreateStorageIntegration. destruct (negb _); [done|].
  case_bool_decide as Hno; [done|].
  intros [-> ->]%put_integration_inv. apply ok_integration; [done|]. simpl. intros old Ho. destruct Hno. by eexists.
Qed.
Lemma with_settings_ok s org id t name a ci status x s' i :
  inv s -> GetStorageIntegration org id s = inl i ->
  put_integration pg_space (with_settings t name a ci status i) s = inl (x, s') -> ok s s'.
Proof.
  intros Hi Hget [-> ->]%put_integration_inv. apply ok_integration; [done|]. simpl. intros old Ho.
  unfold GetStorageIntegration in Hget. destruct (integrations s !! id) as [i'|] eqn:Hid; [|done].
  case_bool_decide; [|done]. injection Hget as <-.
  rewrite (inv_integrations _ _ _ Hi _ _ Hid), Hid in Ho. by injection Ho as <-.
Qed.

(** ** Rules for the calls of this component *)
Abbreviation tri := (triple inv guar).

Lemma tri_call {X} P (f : State -> result X * State) (R : X -> State -> Prop) :
  stays P -> (forall x, stays (R x)) ->
  (forall s, inv s -> P s -> ok s (snd (f s)) /\ forall x, fst (f s) = inl x -> R x (snd (f s))) ->
  tri P (call f) R.
Proof. intros HP HR Hf. by apply triple_call. Qed.
Lemma tri_local {X} P (f : State -> X * State) (R : X -> State -> Prop) :
  stays P -> (forall x, stays (R x)) ->
  (forall s, inv s -> P s -> ok s (snd (f s)) /\ R (fst (f s)) (snd (f s))) -> tri P (local f) R.
Proof. intros HP HR Hf. by apply triple_local. Qed.
Lemma tri_pre {X} P P0 (p : prog State X) (R : X -> State -> Prop) :
  stays P -> (forall s, inv s -> P s -> P0 s) -> tri P0 p R -> tri P p R.
Proof. intros HP H0 Hp. by eapply triple_pre. Qed.
Lemma tri_exec {X} P (f : State -> result (X * State)) (R : X -> State -> Prop) :
  stays P -> (forall x, stays (R x)) ->
  (forall s x s', inv s -> P s -> f s = inl (x, s') -> ok s s' /\ R x s') -> tri P (exec f) R.
Proof.
  intros HP HR Hf. apply triple_exec; [done|apply guar_refl|done|done].
Qed.
Lemma tri_query {X} P (f : State -> result X) (R : X -> State -> Prop) :
  stays P -> (forall x, stays (R x)) ->
  (forall s x, inv s -> P s -> f s = inl x -> R x s) -> tri P (query f) R.
Proof.
  intros HP HR Hf. apply triple_query; [done|apply guar_refl|done|done].
Qed.
(** The same with nothing to say of the answer. *)
Abbreviation fine := (fun P p => tri P p (fun _ _ => True)).
Lemma fine_call {X} P (f : State -> result X * State) :
  stays P -> (forall s, inv s -> P s -> ok s (snd (f s))) -> fine P (call f).
Proof. intros HP Hf. apply tri_call; [done|by intros; apply stays_pure|]. auto. Qed.
Lemma fine_exec {X} P (f : State -> result (X * State)) :
  stays P -> (forall s x s', inv s -> P s -> f s = inl (x, s') -> ok s s') -> fine P (exec f).
Proof. intros HP Hf. apply tri_exec; [done|by intros; apply stays_pure|]. eauto. Qed.
Lemma fine_query {X} P (f : State -> result X) : stays P -> fine P (query f).
Proof. intros HP. by apply tri_query; [|intros; apply stays_pure|]. Qed.
Lemma frame_fresh s : frame s (snd (fresh s)).
Proof. split; simpl; eauto; lia. Qed.
Lemma tri_now P : stays P -> tri P (local time_now) (fun _ _ => True).
Proof. intros HP. apply triple_local; [done|by intros; apply stays_pure|]. intros s Hi _. split; [by apply ok_refl|done]. Qed.
Lemma tri_fresh P : stays P -> tri P (local fresh) (fun _ _ => True).
Proof.
  intros HP. apply triple_local; [done|by intros; apply stays_pure|]. intros s Hi _.
  split; [by apply rec_ok_frame, frame_fresh|done].
Qed.
(** The transaction of a mutation. *)
Lemma tri_mutate P ty f (R : Recording -> State -> Prop) :
  stays P -> (forall x, stays (R x)) ->
  (forall s x s', inv s -> P s -> f s = inl (x, s') ->
     let s'' := add_event {| ev_Type := ty; ev_Recording := x; ev_OccurredAt := now s |} s' in ok s s'' /\ R x s'') ->
  tri P (mutate ty f) R.
Proof.
  intros HP HR Hf. apply tri_exec; [done|done|]. intros s x s'' Hi HPs Hx.
  apply rbind_ok_inv in Hx as ([y s'] & Hy & [= <- <-]). by apply Hf.
Qed.
End Programs.

(** Side conditions of stability; a guard, a pure check, and a call at the head of
    a sequence; a last step that only returns. *)
Ltac stays_tac := auto 60 with stays.
Ltac guarded := eapply triple_seq; [by apply (triple_raise_if _ _ _ _ _ (fun _ _ => True))|intros []].
Ltac checked x := eapply triple_seq; [by apply (triple_lift _ _ _ _ (fun _ _ => True))|intros x].
Ltac first_call lem x := eapply triple_seq; [lem; stays_tac|intros x].
Ltac then_done := eapply triple_seq; [|intros ?; by apply triple_done].
End RecordingStatements.
