(* ===== verification/RecordingPrograms.v ===== *)
(** * Recordings: every program keeps the invariant

    The programs of the component as triples of the logic of [Programs.v]: what
    they know between their calls is stable under the steps of all the others. *)

From S2P Require Import Prelude Encryption Programs Routing Paths ObjectStore RecordingStore StorageService Recordings RecordingJobs RecordingSafety RecordingStatements.
Local Open Scope Z_scope.

Module RecordingPrograms.
Import AppErr Encryption Programs Paths ObjectStore RecordingStore StorageService Recordings RecordingJobs RecordingSafety RecordingStatements.

Section Programs.
Context {L : S3Lib} {T : StorageLib} {A : AEAD} {U : UuidLib} {Mi : MimeLib}.
Context (st : ObjectStorage) (c : IngestionConfig).
Abbreviation inv := (inv st (StagingPath c)).
Abbreviation ok := (ok st (StagingPath c)).
Abbreviation stays := (stays st (StagingPath c)).
Abbreviation row_ok := (row_ok st).
Abbreviation tri := (triple inv guar).
Abbreviation fine := (fun P p => tri P p (fun _ _ => True)).

(** ** Resolving a store *)
Definition resolved_ok (org : UUID) (ri : ResolvedIntegration) (s : State) : Prop :=
  exists it, integrations s !! it_ID (ri_Integration ri) = Some it /\ i_OrganizationID it = org
    /\ i_EndpointUrl it = it_EndpointURL (ri_Integration ri) /\ i_Bucket it = it_Bucket (ri_Integration ri).
Lemma stable_resolved org ri : stays (resolved_ok org ri).
Proof.
  intros s s' _ _ Hg (it & Hi & ? & ? & ?).
  destruct (grows_integrations _ _ (guar_grows _ _ Hg) _ _ Hi) as (it' & Hi' & ? & ? & ?).
  exists it'. split_and!; congruence.
Qed.
#[local] Hint Resolve stable_resolved : stays.

Lemma GetStorageIntegration_inv org id s i :
  inv s -> GetStorageIntegration org id s = inl i ->
  integrations s !! id = Some i /\ i_ID i = id /\ i_OrganizationID i = org.
Proof.
  intros Hi. unfold GetStorageIntegration. destruct (integrations s !! id) as [i'|] eqn:Hid; [|done].
  case_bool_decide; [|done]. intros [= <-]. pose proof (inv_integrations _ _ _ Hi _ _ Hid). done.
Qed.
Definition fetched (org : UUID) (p : Integration * string) (s : State) : Prop :=
  resolved_ok org {| ri_Integration := fst p; ri_SecretAccessKey := "" |} s.
Lemma stable_fetched org p : stays (fetched org p).
Proof. apply stable_resolved. Qed.
#[local] Hint Resolve stable_fetched : stays.

Lemma tri_Repo_Get P org id :
  stays P -> tri P (StorageService.Repo_Get org id) (fun p s => it_ID (fst p) = id /\ fetched org p s).
Proof.
  intros HP. eapply triple_seq.
  - apply (tri_query _ _ _ _ (fun i s => i_ID i = id /\ fetched org (integrationFromRow i, "") s)); [done|stays_tac|].
    intros s i Hi _ (Hid & Hi' & Ho)%GetStorageIntegration_inv; [|done]. split; [done|]. exists i. simpl. by rewrite Hi'.
  - intros i. apply triple_done. by intros s Hi [_ ?].
Qed.
Lemma tri_GetActive P org : stays P -> tri P (GetActiveRecording org) (fetched org).
Proof.
  intros HP. eapply triple_seq.
  - apply (tri_query _ _ _ _ (fun i s => fetched org (integrationFromRow i, "") s)); [done|stays_tac|].
    intros s i Hi _ H. unfold GetActiveRecordingStorageIntegration in H.
    destruct (find _ _) as [i'|] eqn:Hf; [|done]. injection H as ->.
    apply find_some in Hf as [Hin Hp]. apply list_elem_of_In, rows_of_in in Hin as [k Hk].
    apply andb_true_iff in Hp as [Ho%bool_decide_eq_true _]. exists i. simpl.
    by rewrite (inv_integrations _ _ _ Hi _ _ Hk).
  - intros i. apply triple_done. by intros s Hi [].
Qed.
Lemma tri_resolve P (p : prog State (Integration * string)) has_cipher org :
  stays P -> tri P p (fetched org) ->
  tri P (let* ' (value, ciphertext) := p in lift_ (resolve_ has_cipher value ciphertext)) (resolved_ok org).
Proof.
  intros HP Hp. eapply triple_seq; [exact Hp|]. intros [value ciphertext]. apply triple_lift.
  intros ri Hri s Hi [_ Hf]. unfold resolve_ in Hri. destruct (negb has_cipher); [done|].
  destruct (DecryptForScope _ _); [|done]. by injection Hri as <-.
Qed.
Lemma tri_ResolveByID P has_cipher org id :
  stays P -> tri P (ResolveByID has_cipher org id)
    (fun ri s => it_ID (ri_Integration ri) = id /\ resolved_ok org ri s).
Proof.
  intros HP. eapply triple_seq; [by apply (tri_Repo_Get _ org id)|]. intros [value ciphertext]. apply triple_lift.
  intros ri Hri s Hi [_ [Hid Hf]]. unfold resolve_ in Hri. destruct (negb has_cipher); [done|].
  destruct (DecryptForScope _ _); [|done]. by injection Hri as <-.
Qed.
Lemma tri_ResolveRecording P has_cipher org :
  stays P -> tri P (ResolveRecording has_cipher org) (resolved_ok org).
Proof.
  intros HP. guarded.
  apply tri_resolve; [|apply tri_GetActive]; stays_tac.
Qed.

(** ** The client of a recording *)
Lemma New_location cfg client :
  New cfg = inl client ->
  exists secure, parseEndpoint (Endpoint cfg) = inl (cl_Host client, secure) /\ cl_Bucket client = TrimSpace (Bucket cfg).
Proof.
  unfold New. intros ([host secure] & -> & H)%rbind_ok_inv. exists secure.
  apply rbind_ok_inv in H as (? & _ & H). apply rbind_ok_inv in H as (? & _ & H).
  destruct (minio_New _); [done|]. by injection H as <-.
Qed.
(** The client is the one of the integration's store, the integration one of the
    organization. *)
Definition client_ok (org : UUID) (ci : Client * option UUID) (s : State) : Prop :=
  destination st (integrations s) (snd ci) = Some (cl_Host (fst ci), cl_Bucket (fst ci))
  /\ integration_of (integrations s) org (snd ci).
Lemma stable_client org ci : stays (client_ok org ci).
Proof. unfold client_ok. stays_tac. Qed.
#[local] Hint Resolve stable_client : stays.
Lemma New_client_ok org ri client s :
  New (client_config ri) = inl client -> resolved_ok org ri s ->
  client_ok org (client, Some (it_ID (ri_Integration ri))) s.
Proof.
  intros (secure & He & Hb)%New_location (it & Hit & Ho & Hep & Hbu). simpl in He, Hb. split; simpl.
  - by rewrite Hit, Hep, He, Hbu, Hb.
  - by exists it.
Qed.
Lemma tri_resolved_client P org ri :
  stays P -> (forall s, inv s -> P s -> resolved_ok org ri s) ->
  tri P (resolved_client ri) (fun ci s => snd ci = Some (it_ID (ri_Integration ri)) /\ client_ok org ci s).
Proof.
  intros HP Hr. eapply triple_seq.
  - apply (triple_lift _ _ _ _ (fun cl s => client_ok org (cl, Some (it_ID (ri_Integration ri))) s)).
    intros cl Hcl s Hi HPs. unfold customClient in Hcl. destruct (New (client_config ri)) as [cl'|] eqn:Hn; [|done].
    injection Hcl as ->. apply New_client_ok; auto.
  - intros cl. apply triple_done. by intros s Hi [].
Qed.
Lemma tri_clientForRecording P r up :
  stays P ->
  tri P (clientForRecording st r up) (fun ci s => client_ok (r_OrganizationID r) ci s
    /\ (up = false \/ is_Some (r_StorageIntegrationID r) \/ is_Some (r_StorageKey r) -> snd ci = r_StorageIntegrationID r)).
Proof.
  intros HP. unfold clientForRecording.
  assert (forall P', stays P' -> (up = false \/ is_Some (r_StorageIntegrationID r) \/ is_Some (r_StorageKey r) ->
      r_StorageIntegrationID r = None) -> tri P' (done_ (os_client st, None)) (fun ci s => client_ok (r_OrganizationID r) ci s
    /\ (up = false \/ is_Some (r_StorageIntegrationID r) \/ is_Some (r_StorageKey r) -> snd ci = r_StorageIntegrationID r)))
    as Hmanaged.
  { intros P' HP' Hn. apply triple_done. intros s Hi _. split; [done|]. simpl. intros H. by rewrite Hn. }
  destruct (r_StorageIntegrationID r) as [id|] eqn:Hint.
  - destruct (os_integrations st) as [hc|]; [|apply triple_raise].
    eapply triple_seq; [by apply triple_wrap, (tri_ResolveByID _ _ _ id)|]. intros ri.
    eapply triple_post; [apply (tri_resolved_client _ (r_OrganizationID r) ri)|].
    + stays_tac.
    + by intros s Hi [_ [_ ?]].
    + intros ci s Hi [_ [Hid _]] [Hs Hc]. split; [done|]. intros _. by rewrite Hs, Hid.
  - destruct (os_integrations st) as [hc|]; [|by apply Hmanaged].
    destruct up; simpl; [|by apply Hmanaged].
    case_bool_decide as Hk; [|by apply Hmanaged].
    eapply triple_seq; [by apply triple_attempt, (tri_ResolveRecording _ hc (r_OrganizationID r))|].
    intros [ri|e].
    + eapply triple_post; [apply (tri_resolved_client _ (r_OrganizationID r) ri)|].
      * stays_tac.
      * by intros s Hi [_ ?].
      * intros ci s Hi _ [Hs Hc]. split; [done|]. rewrite Hk. by intros [|[[]|[]]].
    + destruct (errors_Is e ErrNoRows); [|apply triple_raise]. apply Hmanaged; [stays_tac|]. done.
Qed.

(** ** Accesses to objects *)
Lemma snap_access r s a :
  snap r s -> object_at st (integrations s) r (location_of a) -> access_ok st s a.
Proof.
  intros (cur & Hc & He) Hl. left. exists (r_ID r), cur. split; [done|].
  by eapply object_at_grows; [apply grows_refl| |].
Qed.
(** The object of [r] is where [P] says. *)
Definition knows (P : State -> Prop) (r : Recording) (l : Location) : Prop :=
  forall s, inv s -> P s -> snap r s /\ object_at st (integrations s) r l.

Lemma tri_Put P client key ct read r size :
  stays P -> knows P r (location client key) -> (forall s d, read s = inl d -> Z.of_nat (length d) = size) ->
  tri P (Put client key ct read) (fun _ s => exists o, APut (location client key) o ∈ accesses (stores s)
    /\ Z.of_nat (length (o_Data o)) = size).
Proof.
  intros HP Hk Hread. checked u.
  apply triple_wrap, tri_call; [stays_tac|intros []; stays_tac|]. intros s Hi [HPs _].
  destruct (Hk s Hi HPs) as [Hs Hl]. destruct (read s) as [d|e] eqn:Hd; simpl; [|by split; [apply ok_refl|]].
  split.
  - eapply ok_access; try done. by apply (snap_access r).
  - intros [] _. eexists. simpl. split; [apply elem_of_app; right; left|by eapply Hread].
Qed.
Lemma tri_Delete_object P client key r :
  stays P -> knows P r (location client key) -> tri P (ObjectStore.Delete client key) (fun _ _ => True).
Proof.
  intros HP Hk. checked u.
  apply triple_wrap, tri_call; [stays_tac|intros []; stays_tac|]. intros s Hi [HPs _].
  destruct (Hk s Hi HPs) as [Hs Hl]. split; [|done].
  eapply ok_access; try done. by apply (snap_access r).
Qed.
Lemma tri_PlaybackURL P client key r :
  stays P -> knows P r (location client key) -> tri P (PlaybackURL now client key) (fun _ _ => True).
Proof.
  intros HP Hk. checked u.
  eapply triple_seq; [apply tri_now; stays_tac|]. intros t.
  then_done.
  apply triple_wrap, fine_call; [stays_tac|].
  intros s Hi [[HPs _] _]. destruct (Hk s Hi HPs) as [Hs Hl].
  eapply ok_access; try done. by apply (snap_access r).
Qed.

(** The recording as [P] knows it: a snapshot whose row was in order. *)
Definition read_row (r : Recording) (s : State) : Prop := snap r s /\ row_ok s r.
Lemma stable_read_row r : stays (read_row r).
Proof. unfold read_row. stays_tac. Qed.
#[local] Hint Resolve stable_read_row : stays.

Lemma read_row_in s id r : inv s -> recordings s !! id = Some r -> r_ID r = id /\ read_row r s.
Proof.
  intros Hi Hr. destruct (inv_rows _ _ _ Hi _ _ Hr) as (Hid & _ & Hok). split; [done|]. split; [|done].
  exists r. rewrite Hid. split; [done|apply evolves_refl].
Qed.
Lemma client_object r s ci key :
  client_ok (r_OrganizationID r) ci s -> snd ci = r_StorageIntegrationID r -> r_StorageKey r = Some key ->
  object_at st (integrations s) r (location (fst ci) key).
Proof. intros [Hd _] Hi Hk. exists (cl_Host (fst ci)), (cl_Bucket (fst ci)), key. rewrite <- Hi. done. Qed.

Lemma tri_check_managed P i r key : tri P (check_managed i r key) (fun _ _ => True).
Proof. by apply triple_lift. Qed.
Lemma tri_stored P r :
  stays P -> tri P (stored st r)
    (fun p s => object_at st (integrations s) r (location (fst p) (snd p))).
Proof.
  intros HP. unfold stored. destruct (r_StorageKey r) as [key|] eqn:Hk; [|apply triple_raise].
  destruct (bool_decide _); [|apply triple_raise].
  eapply triple_seq; [by apply tri_clientForRecording|]. intros [client integration].
  guarded.
  eapply triple_seq; [apply tri_check_managed|]. intros []. apply triple_done.
  intros s Hi [[[_ [Hc Hint]] _] _]. apply (client_object _ _ (client, integration)); auto.
Qed.
Lemma tri_Storage_Delete P r :
  stays P -> (forall s, inv s -> P s -> snap r s) -> tri P (Storage_Delete st r) (fun _ _ => True).
Proof.
  intros HP Hs. eapply triple_seq; [by apply tri_stored|]. intros [client key].
  apply (tri_Delete_object _ _ _ r); [stays_tac|]. intros s Hi [HPs Hl]. auto.
Qed.
Lemma tri_Storage_PlaybackURL P r :
  stays P -> (forall s, inv s -> P s -> snap r s) -> tri P (Storage_PlaybackURL st r) (fun _ _ => True).
Proof.
  intros HP Hs. eapply triple_seq; [by apply tri_stored|]. intros [client key].
  apply (tri_PlaybackURL _ _ _ r); [stays_tac|]. intros s Hi [HPs Hl]. auto.
Qed.
(** A pinned recording is put where its row says, under its bucket. *)
Lemma tri_Storage_Put P r key ct f size :
  stays P -> (forall s, inv s -> P s -> read_row r s) -> r_StorageKey r = Some key -> 0 <= size ->
  tri P (Storage_Put st r key ct (read_file f size)) (fun dest s => exists host bucket o,
    dest = (r_StorageIntegrationID r, "s3", bucket) /\ r_StorageBucket r = Some bucket
    /\ destination st (integrations s) (r_StorageIntegrationID r) = Some (host, bucket)
    /\ APut (host, bucket, key) o ∈ accesses (stores s) /\ Z.of_nat (length (o_Data o)) = size).
Proof.
  intros HP Hr Hk Hsz. eapply triple_seq; [by apply tri_clientForRecording|]. intros [client integration].
  eapply triple_seq; [apply tri_check_managed|]. intros [].
  eapply triple_seq.
  { apply (tri_Put _ _ _ _ _ r size); [stays_tac| |].
    - intros s Hi [[HPs [Hc Hint]] _]. split; [by apply Hr|]. apply (client_object _ _ (client, integration)); [done| |done].
      apply Hint. rewrite Hk. auto.
    - intros s d Hd. unfold read_file in Hd. destruct (files s !! f) as [[data|]|]; try done.
      destruct (Z.leb_spec size (Z.of_nat (length data))); [|done]. injection Hd as <-.
      rewrite length_take. lia. }
  intros []. apply triple_done. intros s Hi [[[HPs [[Hd _] Hint]] _] (o & Ho & Hlen)]. simpl in *.
  assert (integration = r_StorageIntegrationID r) as -> by (apply Hint; rewrite Hk; auto).
  destruct (Hr s Hi HPs) as [_ Hrow]. destruct (row_pinned _ _ _ Hrow _ Hk) as (_ & _ & _ & h & b & Hd' & Hb).
  rewrite Hd in Hd'. injection Hd' as <- <-. by exists (cl_Host client), (cl_Bucket client), o.
Qed.

(** ** The storage service *)
Lemma tri_encrypt P org id secret : stays P -> fine P (encrypt org id secret).
Proof.
  intros HP. apply triple_wrap. eapply triple_seq; [|intros n; by apply triple_lift].
  apply fine_call; [done|]. intros s Hi _.
  apply rec_ok_frame; [done|apply frame_fresh].
Qed.
Lemma tri_storage_Create P hc org req : stays P -> fine P (StorageService.Create hc org req).
Proof.
  intros HP. guarded.
  eapply triple_seq; [by apply (triple_lift _ _ _ _ (fun _ _ => True))|]. intros req'.
  guarded.
  eapply triple_seq; [apply tri_fresh; stays_tac|]. intros id.
  eapply triple_seq; [apply tri_encrypt; stays_tac|]. intros ciphertext.
  then_done.
  apply triple_wrap, fine_exec; [stays_tac|].
  intros s x s' Hi _ Hx. by eapply CreateStorage_ok.
Qed.
Lemma tri_storage_List P org : stays P -> fine P (StorageService.List_ org).
Proof.
  intros HP. guarded.
  then_done.
  apply triple_wrap, fine_query; stays_tac.
Qed.
Lemma tri_require_ids P org id : tri P (require_ids org id) (fun _ _ => True).
Proof. by apply triple_raise_if. Qed.
Lemma tri_storage_Get P org id : stays P -> fine P (StorageService.Get org id).
Proof.
  intros HP. eapply triple_seq; [apply tri_require_ids|]. intros [].
  eapply triple_seq; [apply triple_wrap, tri_Repo_Get; stays_tac|]. intros [v ct]. by apply triple_done.
Qed.
Lemma tri_storage_Update P hc org id req : stays P -> fine P (StorageService.Update hc org id req).
Proof.
  intros HP. eapply triple_seq; [apply tri_require_ids|]. intros [].
  eapply triple_seq; [by apply (triple_lift _ _ _ _ (fun _ _ => True))|]. intros req'.
  eapply triple_seq; [apply triple_wrap, tri_Repo_Get; stays_tac|]. intros p.
  eapply (triple_seq _ _ _ _ _ (fun _ _ => True)).
  { destruct (up_SecretAccessKey req') as [secret|]; [|by apply triple_done].
    guarded.
    eapply triple_seq; [apply tri_encrypt; stays_tac|]. intros v. by apply triple_done. }
  intros ciphertext. then_done.
  apply triple_wrap, fine_exec; [stays_tac|].
  intros s x s' Hi _ Hx. apply rbind_ok_inv in Hx as (i & Hget & Hput).
  by eapply with_settings_ok.
Qed.
Lemma tri_storage_Delete P org id : stays P -> fine P (StorageService.Delete org id).
Proof.
  intros HP. eapply triple_seq; [apply tri_require_ids|]. intros [].
  then_done.
  apply triple_wrap, fine_exec; [stays_tac|].
  intros s x s' Hi _ Hx. apply rbind_ok_inv in Hx as (i & Hget & Hput).
  by eapply with_settings_ok.
Qed.

(** The test object lies in the store of the integration. *)
Lemma test_ok s a i client name :
  client_ok 0 (client, Some i) s \/ (exists org, client_ok org (client, Some i) s) ->
  location_of a = location client ("leamout-storage-test/" +:+ name) -> access_ok st s a.
Proof.
  intros Hc Hl. right. rewrite Hl. exists i, (cl_Host client), (cl_Bucket client), name.
  split; [done|]. destruct Hc as [[Hd _]|[org [Hd _]]]; exact Hd.
Qed.
Lemma tri_client_Test P i org client :
  stays P -> (forall s, inv s -> P s -> client_ok org (client, Some i) s) ->
  fine P (ObjectStore.Test fresh_name client).
Proof.
  intros HP Hc.
  assert (forall P' name, stays P' -> (forall s, P' s -> P s) ->
    fine P' (call (RemoveObject (S := State) client ("leamout-storage-test/" +:+ name)))) as Hremove.
  { intros P' name HP' Himp. apply fine_call; [done|].
    intros s Hi HPs. eapply ok_access; try done. eapply test_ok; [|done]. right. eauto. }
  eapply triple_seq.
  { apply triple_wrap, fine_call; [stays_tac|].
    intros s Hi _. by apply ok_refl. }
  intros exists_. guarded.
  eapply (triple_seq _ _ _ _ _ (fun _ _ => True)).
  { apply tri_local; [stays_tac|stays_tac|]. intros s Hi _. split; [|done]. apply rec_ok_frame; [done|apply frame_fresh]. }
  intros name.
  eapply (triple_seq _ _ _ _ _ (fun _ _ => True)).
  { apply triple_wrap, fine_call; [stays_tac|]. intros s Hi [[[HPs _] _] _].
    eapply ok_access; try done. eapply test_ok; [|done]. right. eauto. }
  intros [].
  eapply (triple_seq _ _ _ _ _ (fun _ _ => True)).
  { eapply triple_post; [apply triple_attempt|done]. apply (triple_seq _ _ _ _ _ (fun _ _ => True)).
    - apply triple_wrap, fine_call; [stays_tac|]. intros s Hi _. by apply ok_refl.
    - intros []. apply triple_wrap, Hremove; [stays_tac|]. tauto. }
  intros [u|e]; [by apply triple_done|].
  eapply (triple_seq _ _ _ _ _ (fun _ _ => True)); [|intros r; apply triple_raise].
  eapply triple_post; [apply triple_attempt, Hremove|done]; [stays_tac|]. tauto.
Qed.
Lemma tri_storage_Test P hc org id : stays P -> fine P (StorageService.Test hc org id).
Proof.
  intros HP. eapply triple_seq; [by apply triple_wrap, (tri_ResolveByID _ _ _ id)|]. intros ri.
  eapply (triple_seq _ _ _ _ _ (fun cl s => client_ok org (cl, Some (it_ID (ri_Integration ri))) s)).
  { apply triple_wrap, triple_lift. intros cl Hcl s Hi [_ [Hid Hr]].
    by apply New_client_ok. }
  intros cl. apply triple_wrap, (tri_client_Test _ (it_ID (ri_Integration ri)) org); [stays_tac|]. tauto.
Qed.

(** ** The recording service *)
Lemma tri_GetCall P id : stays P -> tri P (GetCallOrganizationID id) (fun org s => known_call id org s).
Proof.
  intros HP. apply tri_query; [done|stays_tac|]. intros s org Hi _ H. unfold GetCallOrganization in H.
  destruct (calls s !! id) as [cr|] eqn:Hc; [|done]. injection H as <-. by exists cr.
Qed.
Lemma tri_GetByPath P callID path : stays P -> tri P (GetByCallStorageKey callID path) read_row.
Proof.
  intros HP. apply tri_query; [done|stays_tac|]. intros s r Hi _ H. unfold GetRecordingByCallStorageKey in H.
  destruct (find _ _) as [r'|] eqn:Hf; [|done]. injection H as ->. apply find_some in Hf as [Hin _].
  apply list_elem_of_In, rows_of_in in Hin as [k Hk]. by eapply read_row_in.
Qed.
Lemma tri_Start P org callID path t :
  stays P -> (forall s, inv s -> P s -> known_call callID org s) -> fine P (Start org callID path t).
Proof.
  intros HP Hc. apply tri_mutate; [done|stays_tac|]. intros s x s' Hi HPs H. split; [|done].
  eapply Create_ok; eauto.
Qed.
Lemma tri_Mark P r t : stays P -> fine P (MarkReadyForUpload r t).
Proof. intros HP. apply fine_exec; [done|]. intros s x s' Hi _ H. by eapply Mark_ok. Qed.
Lemma tri_occurred P t : stays P -> fine P (occurred t).
Proof. intros HP. unfold occurred. destruct (t =? zero_time); [by apply tri_now|by apply triple_done]. Qed.

Lemma tri_ObserveStarted P ev : stays P -> fine P (ObserveStarted ev).
Proof.
  intros HP. guarded. first_call ltac:(apply tri_occurred) t.
  first_call ltac:(apply triple_attempt, (tri_GetCall _ (le_CallID ev))) org.
  destruct org as [org|e]; [|by destruct (errors_Is e ErrNoRows); [apply triple_done|apply triple_raise]].
  first_call ltac:(apply triple_attempt, tri_GetByPath) found.
  destruct found as [r|e]; [by apply triple_done|].
  destruct (negb (errors_Is e ErrNoRows)); [apply triple_raise|].
  eapply triple_seq; [apply triple_attempt, tri_Start; [stays_tac|by intros s Hi [[? ?] _]]|intros started].
  destruct started as [r|e']; [by apply triple_done|].
  first_call ltac:(apply triple_attempt, tri_GetByPath) again. destruct again; [by apply triple_done|apply triple_raise].
Qed.
Lemma tri_ObserveStopped P ev : stays P -> fine P (ObserveStopped ev).
Proof.
  intros HP. guarded. first_call ltac:(apply triple_attempt, tri_GetByPath) found.
  eapply (triple_seq _ _ _ _ _ (fun _ _ => True)).
  { destruct found as [r|e]; [by apply triple_done|]. destruct (errors_Is e ErrNoRows); [|apply triple_raise].
    first_call ltac:(apply tri_ObserveStarted) u. apply triple_wrap. eapply triple_post; [apply tri_GetByPath|done]. stays_tac. }
  intros r. destruct (status_in _ r); [by apply triple_done|].
  first_call ltac:(apply tri_occurred) t. first_call ltac:(apply triple_attempt, tri_Mark) marked.
  destruct marked as [r'|e]; [by apply triple_done|]. destruct (errors_Is e ErrNoRows); [by apply triple_done|apply triple_raise].
Qed.

Lemma tri_Get P org id : stays P -> tri P (Get org id) read_row.
Proof.
  intros HP. checked u. apply triple_wrap, tri_query; [stays_tac|stays_tac|].
  intros s r Hi _ H. unfold GetRecording in H. destruct (recordings s !! id) as [r'|] eqn:Hr; [|done].
  destruct (_ && _); [|done]. injection H as ->. by eapply read_row_in.
Qed.
Lemma tri_List P org offset limit : stays P -> fine P (List_ org offset limit).
Proof. intros HP. checked u. checked v. apply triple_wrap, fine_query. stays_tac. Qed.
Lemma tri_Playback P storage org id : stays P -> storage = None \/ storage = Some st -> fine P (Playback storage org id).
Proof.
  intros HP Hst. first_call ltac:(apply tri_Get) r. guarded.
  destruct storage as [st'|]; [|apply triple_raise]. destruct Hst as [|[= ->]]; [done|].
  eapply triple_seq; [apply triple_wrap, tri_Storage_PlaybackURL; [stays_tac|by intros s Hi [[_ [? _]] _]]|intros [url e]].
  guarded. by apply triple_done.
Qed.

(** The statuses there are. *)
Lemma life_statuses o o' :
  rtc life o o' -> fst o = None \/ (exists a, fst o = Some a /\ a ∈ [StatusRecording; StatusUploading; StatusCompleted; StatusFailed; StatusDeleted]) ->
  fst o' = None \/ (exists a, fst o' = Some a /\ a ∈ [StatusRecording; StatusUploading; StatusCompleted; StatusFailed; StatusDeleted]).
Proof.
  intros H. induction H as [|x y z Hs H IH]; [done|]. intros _. apply IH. right.
  destruct Hs; simpl; eexists; (split; [done|]); rewrite !elem_of_cons; tauto.
Qed.
Lemma status_known s id r :
  inv s -> recordings s !! id = Some r ->
  r_Status r ∈ [StatusRecording; StatusUploading; StatusCompleted; StatusFailed; StatusDeleted].
Proof.
  intros Hi Hr. destruct (life_statuses _ _ (inv_life _ _ _ Hi id)) as [H|(a & H & Ha)]; [by left| |];
    unfold life_of in H; rewrite Hr in H; simpl in H; [done|]. by injection H as <-.
Qed.
Lemma tri_Delete P storage org id : stays P -> storage = None \/ storage = Some st -> fine P (Delete storage org id).
Proof.
  intros HP Hst. checked u.
  eapply (triple_seq _ _ _ _ _ (fun r s => snap r s /\
    r_Status r ∈ [StatusRecording; StatusUploading; StatusCompleted; StatusFailed; StatusDeleted])).
  { apply triple_wrap, tri_query; [stays_tac|stays_tac|]. intros s r Hi _ H. unfold GetRecordingIncludingDeleted in H.
    destruct (recordings s !! id) as [r'|] eqn:Hr; [|done]. destruct (in_org org r'); [|done]. injection H as ->.
    destruct (read_row_in _ _ _ Hi Hr) as [_ [? _]]. split; [done|by eapply status_known]. }
  intros r. case_bool_decide as Hnd; [by apply triple_done|].
  eapply (triple_seq _ _ _ _ _ (fun _ _ => status_in [StatusRecording; StatusUploading] r = false));
    [by apply triple_raise_if|intros []].
  destruct storage as [st'|]; [|apply triple_raise]. destruct Hst as [|[= ->]]; [done|].
  eapply triple_seq; [apply triple_wrap, tri_Storage_Delete; [stays_tac|by intros s Hi [[_ [? _]] _]]|intros []].
  eapply (triple_seq _ _ _ _ _ (fun _ _ => True)).
  { eapply triple_post; [apply triple_attempt|done]. apply (tri_mutate _ _ _ _ _ (fun _ _ => True)); [stays_tac|stays_tac|].
    intros s x s' Hi [[[_ [(cur & Hcur & He) Hin]] Hns] _] H. split; [|done]. eapply Delete_ok; [done|exact H|].
    intros cur' Hcur'. rewrite Hcur in Hcur'. injection Hcur' as <-.
    apply bool_decide_eq_false in Hns. pose proof (evolves_status _ _ He) as Hl. unfold later in Hl.
    rewrite !elem_of_cons, !elem_of_nil in *. clear -Hnd Hin Hns Hl. intuition congruence. }
  intros d. destruct d as [r'|e]; [by apply triple_done|].
  destruct (errors_Is e ErrNoRows); [by apply triple_done|apply triple_raise].
Qed.
Lemma tri_recordingLifecycleEvent P ev : stays P -> fine P (recordingLifecycleEvent ev).
Proof.
  intros HP. unfold recordingLifecycleEvent. destruct (uuid_Parse _) as [callID|]; [|apply triple_raise].
  guarded. guarded. first_call ltac:(apply tri_now) t. eapply (triple_seq _ _ _ _ _ (fun _ _ => True)).
  - destruct (bool_decide _); [by apply triple_done|]. destruct (ParseInt _); [by apply triple_done|apply triple_raise].
  - intros occurredAt. by apply triple_done.
Qed.
Lemma tri_HandleFreeSWITCHEvent P ev : stays P -> fine P (HandleFreeSWITCHEvent ev).
Proof.
  intros HP. unfold HandleFreeSWITCHEvent.
  destruct (bool_decide _); [|destruct (bool_decide _); [|by apply triple_done]];
    first_call ltac:(apply tri_recordingLifecycleEvent) input.
  - apply tri_ObserveStarted. stays_tac.
  - apply tri_ObserveStopped. stays_tac.
Qed.
End Programs.
End RecordingPrograms.
