(* ===== verification/RecordingSystem.v ===== *)
(** * Recordings: the jobs, and the system of all programs

    The triples of the jobs; [op], the programs a process may start; and what
    holds of any interleaving of them: the life of recordings, what is uploaded
    and removed, and where. *)

From S2P Require Import Prelude Encryption Programs Routing Paths ObjectStore RecordingStore StorageService Recordings RecordingJobs RecordingSafety RecordingStatements RecordingPrograms.
Local Open Scope Z_scope.

Create HintDb fine.
Module RecordingSystem.
Import AppErr Encryption Programs Paths ObjectStore RecordingStore StorageService Recordings RecordingJobs RecordingSafety RecordingStatements RecordingPrograms.

Section System.
Context {L : S3Lib} {T : StorageLib} {A : AEAD} {U : UuidLib} {Mi : MimeLib}.
Context (st : ObjectStorage) (c : IngestionConfig).
Abbreviation inv := (inv st (StagingPath c)).
Abbreviation ok := (ok st (StagingPath c)).
Abbreviation stays := (stays st (StagingPath c)).
Abbreviation row_ok := (row_ok st).
Abbreviation tri := (triple inv guar).
Abbreviation fine := (fun P p => tri P p (fun _ _ => True)).
#[local] Hint Resolve stable_resolved stable_fetched stable_client stable_read_row : stays.

(** ** Files *)
Definition resolved_to (p q : string) (s : State) : Prop := AResolve p q ∈ file_log s.
Lemma stable_resolved_to p q : stays (resolved_to p q).
Proof. apply stable_logged. Qed.
#[local] Hint Resolve stable_resolved_to : stays.

Lemma tri_EvalSymlinks P p : stays P -> tri P (EvalSymlinks p) (resolved_to p).
Proof.
  intros HP. apply tri_call; [done|stays_tac|]. intros s Hi _.
  destruct (resolve s !! p) as [q|]; simpl; [|by split; [apply ok_refl|]].
  split; [by apply ok_log_file|]. intros x [= <-]. unfold resolved_to. simpl. set_solver.
Qed.
(** The source of [r] leads to [p], below the staging directory. *)
Definition source_of (r : Recording) (p : string) (s : State) : Prop :=
  below_staging (StagingPath c) s p /\
  exists source, r_SourcePath r = Some source /\ resolved_to (Clean (TrimSpace source)) p s.
Lemma stable_source_of r p : stays (source_of r p).
Proof. unfold source_of. stays_tac. Qed.
#[local] Hint Resolve stable_source_of : stays.

Lemma tri_safeSourcePath P r : stays P -> tri P (safeSourcePath c r) (source_of r).
Proof.
  intros HP. unfold safeSourcePath. destruct (r_SourcePath r) as [source|] eqn:Hs; [|apply triple_raise].
  guarded. first_call ltac:(apply triple_wrap, tri_EvalSymlinks) root.
  first_call ltac:(apply triple_wrap, tri_EvalSymlinks) path.
  eapply (triple_seq _ _ _ _ _ (fun _ _ => inside root path = true)).
  { apply triple_raise_if. by intros ?%negb_false_iff. }
  intros []. apply triple_done. intros s Hi [[[_ Hroot] Hpath] Hin]. split; [by exists root|by exists source].
Qed.
Lemma tri_Open P r p : stays P -> (forall s, inv s -> P s -> source_of r p s) -> fine P (Open_ p).
Proof.
  intros HP Hsrc. apply fine_call; [done|]. intros s Hi HPs. destruct (paths s !! p); [|by apply ok_refl].
  apply ok_log_file; [done|]. by apply (Hsrc s).
Qed.
Lemma tri_staged P r :
  stays P -> tri P (staged c r) (fun '(p, _, size) s => source_of r p s /\ 0 < size).
Proof.
  intros HP. first_call ltac:(apply tri_safeSourcePath) p.
  eapply triple_seq; [apply triple_wrap, (tri_Open _ r); [stays_tac|by intros s Hi [_ ?]]|intros f].
  eapply (triple_seq _ _ _ _ _ (fun _ _ => True)).
  { apply triple_wrap, fine_call; [stays_tac|]. intros s Hi _. by apply ok_refl. }
  intros [size|]; [|apply triple_raise].
  destruct (Z.ltb_spec 0 size); [|apply triple_raise]. apply triple_done. by intros s Hi [[[_ ?] _] _].
Qed.

(** ** Ingestion *)
(** The upload of [r] has begun: it is not in state "recording" any more. *)
Definition begun (r : Recording) (s : State) : Prop :=
  forall cur, recordings s !! r_ID r = Some cur -> r_Status cur <> StatusRecording.
Lemma snap_begun r s : snap r s -> r_Status r <> StatusRecording -> begun r s.
Proof.
  intros (cur & Hc & He) Hs x Hx. rewrite Hc in Hx. injection Hx as <-.
  destruct (evolves_status _ _ He) as [<-|[?|[[_ ?]|[_ ->]]]]; done.
Qed.
Lemma tri_retryOrFail P r cause :
  stays P -> (forall s, inv s -> P s -> begun r s) -> fine P (retryOrFail c r cause).
Proof.
  intros HP Hb. unfold retryOrFail. destruct (_ <=? _).
  - eapply (triple_seq _ _ _ _ _ (fun _ _ => True)).
    { eapply triple_post; [apply triple_attempt|done]. apply (tri_mutate _ _ _ _ _ (fun _ _ => True)); [done|stays_tac|].
      intros s x s' Hi HPs H. split; [|done]. eapply Fail_ok; [done|exact H|]. by apply Hb. }
    intros [r'|e]; [by apply triple_done|]. destruct (errors_Is e ErrNoRows); [by apply triple_done|apply triple_raise].
  - first_call ltac:(apply tri_now) t. apply triple_wrap. then_done. apply fine_exec; [stays_tac|].
    intros s x s' Hi _ H. by eapply Retry_ok.
Qed.
Lemma tri_or_retry {B} P r (p : prog State B) k R :
  stays P -> (forall s, inv s -> P s -> begun r s) -> tri P p R ->
  (forall b, fine (fun s => P s /\ R b s) (k b)) -> fine P (or_retry c r p k).
Proof.
  intros HP Hb Hp Hk. eapply triple_seq; [by apply triple_attempt|]. intros [b|e]; [apply Hk|].
  apply tri_retryOrFail; [stays_tac|]. intros s Hi []. auto.
Qed.
Lemma zero_begun s : inv s -> begun zero_recording s.
Proof.
  intros Hi cur Hcur. destruct (inv_rows _ _ _ Hi _ _ Hcur) as (_ & Hpos & _).
  unfold zero_recording, uuid_Nil in Hpos. simpl in Hpos. lia.
Qed.

Lemma tri_ResolveUpload P r :
  stays P -> tri P (ResolveUpload st r) (fun '(integration, provider, bucket) s => provider = "s3"
    /\ integration_of (integrations s) (r_OrganizationID r) integration
    /\ exists host, destination st (integrations s) integration = Some (host, bucket)).
Proof.
  intros HP. first_call ltac:(apply tri_clientForRecording) ci. destruct ci as [client integration].
  apply triple_done. intros s Hi [_ [[Hd Hint] _]]. split_and!; [done|done|]. by exists (cl_Host client).
Qed.
(** A recording that is being uploaded to a pinned place. *)
Definition uploading (r0 r : Recording) (key : string) : Prop :=
  r_StorageKey r = Some key /\ r_Status r = StatusUploading /\ r_SourcePath r = r_SourcePath r0.

Lemma tri_PinUpload P r integration key provider bucket :
  stays P ->
  (forall s, inv s -> P s -> snap r s
     /\ (exists t ext, recordingObjectKey (r_OrganizationID r) (r_ID r) t ext = inl key) /\ provider = "s3"
     /\ integration_of (integrations s) (r_OrganizationID r) integration
     /\ exists host, destination st (integrations s) integration = Some (host, bucket)) ->
  tri P (PinUpload r integration key provider bucket) (fun r' s => read_row st r' s /\ uploading r r' key).
Proof.
  intros HP Hs. apply tri_exec; [done|stays_tac|]. intros s r' s' Hi HPs H.
  destruct (Hs s Hi HPs) as ((cur & Hcur & He) & Hkey & -> & Hint & host & Hd).
  destruct (Pin_ok _ _ _ _ _ _ _ _ _ _ host Hi H Hkey Hint Hd) as
    [Hok (x & Hx & Hx' & Hex & _ & _ & Hk & Hst & _)].
  split; [done|]. split.
  - destruct (read_row_in st c s' (r_ID r) r') as [_ ?]; [apply Hok|done|done].
  - split_and!; [done|done|]. rewrite Hcur in Hx. injection Hx as <-.
    by rewrite (evolves_source _ _ Hex), (evolves_source _ _ He).
Qed.
Lemma tri_with_pin P r ext k :
  stays P -> (forall s, inv s -> P s -> read_row st r s) -> r_Status r = StatusUploading ->
  (forall r' key, uploading r r' key -> fine (fun s => P s /\ read_row st r' s) (k r' key)) ->
  fine P (with_pin st c r ext k).
Proof.
  intros HP Hr Hst Hk. unfold with_pin. destruct (r_StorageKey r) as [key|] eqn:Hkey.
  { apply (tri_pre _ _ _ (fun s => P s /\ read_row st r s)); [done|auto|by apply Hk]. }
  assert (forall s, inv s -> P s -> begun r s) as Hb.
  { intros s Hi HPs. apply snap_begun; [by apply Hr|]. by rewrite Hst. }
  first_call ltac:(apply tri_now) t.
  apply (tri_or_retry _ _ _ _ (fun key _ => recordingObjectKey (r_OrganizationID r) (r_ID r) t ext = inl key));
    [stays_tac|by intros s Hi [? _]; apply Hb|by apply triple_lift|].
  intros key. eapply tri_or_retry; [stays_tac|by intros s Hi [[? _] _]; apply Hb|apply tri_ResolveUpload; stays_tac|].
  intros [[integration provider] bucket].
  eapply triple_seq; [apply triple_attempt, tri_PinUpload; [stays_tac|]|intros [r'|e]].
  - intros s Hi [[[HPs _] Hmade] (Hp & Hint & Hd)]. split_and!; [by apply Hr|eauto|done|done|done].
  - apply (triple_fact _ _ _ (uploading r r' key)); [by intros s Hi [_ [_ ?]]|]. intros Hu.
    apply (tri_pre _ _ _ (fun s => P s /\ read_row st r' s)); [stays_tac| |by apply Hk].
    by intros s Hi [[[[? _] _] _] [? _]].
  - apply tri_retryOrFail; [stays_tac|]. intros s Hi _. by apply zero_begun.
Qed.

(** Completion, once the object has been put. *)
Lemma tri_complete P r0 r key ext path size dest :
  stays P -> uploading r0 r key ->
  (forall s, inv s -> P s -> read_row st r s /\ source_of r0 path s /\ exists host bucket o,
     dest = (r_StorageIntegrationID r, "s3", bucket) /\ r_StorageBucket r = Some bucket
     /\ destination st (integrations s) (r_StorageIntegrationID r) = Some (host, bucket)
     /\ APut (host, bucket, key) o ∈ accesses (stores s) /\ Z.of_nat (length (o_Data o)) = size) ->
  fine P (complete r key ext path size dest).
Proof.
  intros HP (Hk & Hst & Hsrc) Hs. unfold complete. destruct dest as [[integration provider] bucket].
  eapply (triple_seq _ _ _ _ _ (fun _ _ => True)).
  { eapply triple_post; [apply triple_attempt|done]. apply (tri_mutate _ _ _ _ _ (fun _ _ => True)); [done|stays_tac|].
    intros s x s' Hi HPs H. split; [|done].
    destruct (Hs s Hi HPs) as ([(cur & Hcur & He) _] & _ & host & b & o & [= -> -> ->] & Hb & Hd & Hput & Hlen).
    destruct (evolves_pin _ _ He) as (Hk' & Hi' & _ & Hb'); [by rewrite Hk|].
    eapply (Complete_ok _ _ _ _ _ _ _ _ _ _ _ _ _ cur host o); try done; try congruence.
    apply (snap_begun r s); [by exists cur|by rewrite Hst|done]. }
  intros completed. guarded. eapply (triple_seq _ _ _ _ _ (fun _ _ => True)); [|intros u; by apply triple_done].
  eapply triple_post; [apply triple_attempt, fine_call; [stays_tac|]|done].
  intros s Hi [[HPs _] _]. destruct (paths s !! path); [|by apply ok_refl].
  destruct (Hs s Hi HPs) as ([(cur & Hcur & He) _] & [Hbelow (source & Hsource & Hres)] & host & b & o & _ & _ & Hd & Hput & _).
  apply (ok_log _ _ s _ (AUnlink path)); try done. split; [done|].
  exists (r_ID r), cur, source, (host, b, key), o.
  split_and!; [done|by rewrite (evolves_source _ _ He), Hsrc|done| |done].
  eapply object_at_grows; [apply grows_refl|exact He|]. by exists host, b, key.
Qed.

Lemma tri_ingestOne P r :
  stays P -> (forall s, inv s -> P s -> read_row st r s) -> r_Status r = StatusUploading ->
  fine P (ingestOne st c r).
Proof.
  intros HP Hr Hst.
  assert (forall s, inv s -> read_row st r s -> begun r s) as Hb.
  { intros s Hi [Hs _]. apply snap_begun; [done|]. by rewrite Hst. }
  eapply tri_or_retry; [done|eauto|by apply tri_staged|]. intros [[path f] size].
  apply tri_with_pin; [stays_tac|by intros s Hi [? _]; apply Hr|done|]. intros r' key Hu.
  assert (forall s, inv s -> read_row st r' s -> begun r' s) as Hb'.
  { intros s Hi [Hs _]. apply snap_begun; [done|]. by rewrite (proj1 (proj2 Hu)). }
  apply (triple_fact _ _ _ (0 < size)); [by intros s Hi [[_ [_ ?]] _]|]. intros Hsz.
  eapply tri_or_retry; [stays_tac|by intros s Hi [_ ?]; auto| |].
  - apply tri_Storage_Put; [stays_tac|by intros s Hi [_ ?]|apply Hu|lia].
  - intros dest. apply (tri_complete _ r); [stays_tac|done|].
    intros s Hi [[[_ [Hsrc _]] Hrow] (host & bucket & o & H)]. split_and!; [done|done|]. by exists host, bucket, o.
Qed.
Lemma tri_Ingest P : stays P -> fine P (Ingest st c).
Proof.
  intros HP. first_call ltac:(apply tri_now) t.
  eapply triple_seq.
  { apply triple_wrap, (tri_exec _ _ _ _ (fun items s => Forall (fun r => read_row st r s /\ r_Status r = StatusUploading) items));
      [stays_tac| |].
    - intros items s s' Hi Hi' Hg HF. eapply Forall_impl; [exact HF|]. intros r [Hr Hs].
      split; [|done]. by apply (stable_read_row st c r s s').
    - intros s items s' Hi _ H. destruct (Claim_ok _ _ _ _ _ _ _ _ Hi H) as [Hok HF]. split; [done|].
      eapply Forall_impl; [exact HF|]. by intros r (? & ? & ?). }
  intros items. apply triple_for_each. intros r Hin.
  apply (triple_fact _ _ _ (r_Status r = StatusUploading)).
  { intros s Hi [_ HF]. by eapply Forall_forall in HF as [_ ?]; [|exact Hin]. }
  intros Hst. apply tri_ingestOne; [|by intros s Hi [_ HF]; eapply Forall_forall in HF as [? _]; [|exact Hin]|done].
  apply stays_and; [stays_tac|]. intros s s' Hi Hi' Hg HF. eapply Forall_impl; [exact HF|]. intros x [Hx Hs].
  split; [|done]. by apply (stable_read_row st c x s s').
Qed.

(** ** Reconciliation and retention *)
Lemma tri_Reconcile P rc : stays P -> fine P (Reconcile rc).
Proof.
  intros HP. first_call ltac:(apply tri_now) t.
  eapply triple_seq; [apply triple_wrap, fine_query; stays_tac|]. intros stale.
  apply triple_for_each. intros r _. first_call ltac:(apply tri_now) t'.
  eapply triple_seq; [eapply triple_post; [apply triple_attempt, tri_Mark; stays_tac|]|].
  { intros a s _ _ _. exact I. }
  intros [r'|e]; [by apply triple_done|]. destruct (errors_Is e ErrNoRows); [by apply triple_done|apply triple_raise].
Qed.

Lemma frame_policies ps s : frame s (set_policies ps s).
Proof. split; eauto; simpl; lia. Qed.
Lemma tri_Retention_List P org : stays P -> fine P (Retention_List org).
Proof. intros HP. guarded. apply triple_wrap, fine_query. stays_tac. Qed.
Lemma tri_Retention_Upsert P org resource r : stays P -> fine P (Retention_Upsert org resource r).
Proof.
  intros HP. guarded. checked u. checked u'. apply triple_wrap, fine_exec; [stays_tac|].
  intros s x s' Hi _. unfold UpsertRetentionPolicy. repeat case_match; try done;
    (intros [= _ <-]; apply rec_ok_frame; [done|apply frame_policies]).
Qed.
Lemma tri_Retention_Delete P org resource : stays P -> fine P (Retention_Delete org resource).
Proof.
  intros HP. guarded. checked u. apply triple_wrap, fine_exec; [stays_tac|].
  intros s x s' Hi _ [= _ <-]. apply rec_ok_frame; [done|apply frame_policies].
Qed.

Section Cleanup.
Context (storage : option ObjectStorage) (Hstorage : storage = None \/ storage = Some st).
Lemma tri_cleanup_rounds P batch fuel org cutoff : stays P -> fine P (cleanup_rounds storage batch fuel org cutoff).
Proof.
  revert P. induction fuel as [|fuel IH]; intros P HP; [by apply triple_done|].
  eapply triple_seq; [apply triple_wrap, fine_query; stays_tac|]. intros ids.
  eapply triple_seq.
  { apply triple_for_each. intros id _. apply triple_wrap, tri_Delete; [stays_tac|done]. }
  intros []. destruct (_ <? _); [by apply triple_done|]. apply IH. stays_tac.
Qed.
Lemma tri_runOnce P batch fuel : stays P -> fine P (runOnce storage batch fuel).
Proof.
  intros HP. eapply triple_seq; [apply triple_wrap, fine_query; stays_tac|]. intros ps.
  assert (forall P, stays P -> fine P (cleanup_policies storage batch fuel ps)) as H; [|apply H; stays_tac].
  clear P HP. induction ps as [|p ps IH]; intros P HP; simpl; [by apply triple_done|].
  destruct (bool_decide _); [|by apply IH].
  first_call ltac:(apply tri_now) t.
  eapply triple_seq; [apply tri_cleanup_rounds; stays_tac|]. intros b.
  eapply triple_seq; [apply IH; stays_tac|]. intros b'. by apply triple_done.
Qed.
End Cleanup.

(** ** The system

    What requests, event handlers and jobs start, any number of times and in any
    order; the service and its jobs have the storage of the deployment or none. *)
Inductive op : prog State unit -> Prop :=
| op_event ev : op (HandleFreeSWITCHEvent ev)
| op_get org id : op (forget (Get org id))
| op_list org offset limit : op (forget (List_ org offset limit))
| op_playback storage org id : storage = None \/ storage = Some st -> op (forget (Playback storage org id))
| op_delete storage org id : storage = None \/ storage = Some st -> op (Delete storage org id)
| op_ingest : op (Ingest st c)
| op_reconcile rc : op (Reconcile rc)
| op_retention storage batch fuel : storage = None \/ storage = Some st -> op (forget (runOnce storage batch fuel))
| op_policies org : op (forget (Retention_List org))
| op_set_policy org resource r : op (forget (Retention_Upsert org resource r))
| op_drop_policy org resource : op (Retention_Delete org resource)
| op_storage_create hc org r : op (forget (StorageService.Create hc org r))
| op_storage_list org : op (forget (StorageService.List_ org))
| op_storage_get org id : op (forget (StorageService.Get org id))
| op_storage_update hc org id r : op (forget (StorageService.Update hc org id r))
| op_storage_delete org id : op (StorageService.Delete org id)
| op_storage_test hc org id : op (StorageService.Test hc org id).

(** Everything else: time passes, organizations and calls change (a call keeps its
    organization), FreeSWITCH writes files, objects and links change. What is left
    alone are the tables of this component, its outbox and the logs. *)
Record env (s s' : State) : Prop := {
  env_frame : frame s s';
  env_policies : policies s' = policies s;
  env_clock : now s <= now s';
}.

Lemma harmless_of {X} (p : prog State X) : fine (fun _ => True) p -> harmless inv guar p.
Proof. apply triple_harmless. Qed.
Lemma harmless_forget {X} (p : prog State X) : fine (fun _ => True) p -> harmless inv guar (forget p).
Proof. intros Hp. apply harmless_andthen; [by apply harmless_of|]. by intros r. Qed.
#[local] Hint Resolve tri_HandleFreeSWITCHEvent tri_List tri_Playback tri_Delete tri_Ingest tri_Reconcile tri_runOnce
  tri_Retention_List tri_Retention_Upsert tri_Retention_Delete tri_storage_Create tri_storage_List tri_storage_Get
  tri_storage_Update tri_storage_Delete tri_storage_Test : fine.
Lemma op_harmless p : op p -> harmless inv guar p.
Proof.
  assert (stays (fun _ => True)) as HT by apply stable_True.
  destruct 1; first [apply harmless_forget|apply harmless_of]; eauto with fine.
  eapply triple_post; [by apply tri_Get|done].
Qed.
Lemma env_ok s s' : inv s -> env s s' -> ok s s'.
Proof. intros Hi [Hf _ _]. by apply rec_ok_frame. Qed.

(** Where the system begins: no recording, no access yet. *)
Record initial (s : State) : Prop := {
  initial_next : 0 < next s;
  initial_recordings : recordings s = ∅;
  initial_integrations : forall id it, integrations s !! id = Some it -> i_ID it = id;
  initial_outbox : outbox s = [];
  initial_accesses : accesses (stores s) = [];
  initial_files : file_log s = [];
}.
Lemma initial_inv s : initial s -> inv s.
Proof.
  intros [Hn Hr Hints Ho Ha Hf]. split.
  - done.
  - intros id r. by rewrite Hr.
  - done.
  - rewrite Ha. intros a []%elem_of_nil.
  - rewrite Hf. intros a []%elem_of_nil.
  - rewrite Ho. intros a []%elem_of_nil.
  - intros id. unfold life_of. rewrite Hr, Ho. apply rtc_refl.
Qed.
Definition reached (s0 : State) := reachable op env s0.
Lemma reached_inv s0 x : initial s0 -> reached s0 x -> inv (fst x).
Proof.
  intros Hi Hr. apply (reachable_ok inv guar guar_refl op env op_harmless env_ok s0 x); [|done].
  by apply initial_inv.
Qed.
Lemma reached_moves s0 x x' : initial s0 -> reached s0 x -> sys_step op env x x' -> guar (fst x) (fst x').
Proof.
  intros Hi Hr Hs. apply (reachable_moves inv guar guar_refl op env op_harmless env_ok s0); [|done..].
  by apply initial_inv.
Qed.
(** Over many steps rows evolve and logs grow. *)
Lemma reached_rows s0 x y :
  initial s0 -> reached s0 x -> rtc (sys_step op env) x y ->
  forall id r, recordings (fst x) !! id = Some r ->
  exists r', recordings (fst y) !! id = Some r' /\ evolves r r'.
Proof.
  intros Hi Hr Hs. induction Hs as [x|x y z Hs _ IH]; intros id r Hid; [eauto using evolves_refl|].
  destruct (guar_rows _ _ (reached_moves _ _ _ Hi Hr Hs) _ _ Hid) as (r1 & Hr1 & He1).
  destruct (IH (rtc_r _ _ _ Hr Hs) _ _ Hr1) as (r2 & Hr2 & He2). eauto using evolves_trans.
Qed.
End System.
End RecordingSystem.
