(* ===== verification/RecordingOutcomes.v ===== *)
(** * Recordings: what holds of any interleaving

    The theorems on the system of [RecordingSystem.v]: the life of recordings, the
    object a completed one has, the place objects are put at, and the staged files
    that are opened and removed; a run in which one recording is started, stopped,
    ingested and deleted is their witness. *)

From S2P Require Import Prelude Encryption Programs Routing FreeSWITCH Paths ObjectStore RecordingStore StorageService Recordings RecordingJobs RecordingSafety RecordingStatements RecordingPrograms RecordingSystem.
Local Open Scope Z_scope.

Module RecordingOutcomes.
Import AppErr Encryption Programs Paths ObjectStore RecordingStore StorageService Recordings RecordingJobs RecordingSafety RecordingSystem.

Section Theorems.
Context {L : S3Lib} {T : StorageLib} {A : AEAD} {U : UuidLib} {UL : UuidLaws U} {UT : UuidText U} {Mi : MimeLib}.
Context (st : ObjectStorage) (c : IngestionConfig).

(** C38: However requests, FreeSWITCH events, uploads, reconciliation and retention
    interleave, fail and are repeated, every step takes each recording along its
    life (recording, uploading, then completed or failed, then deleted) or leaves it
    where it is, and the outbox has exactly the events of the life so far, in order
    and each once. *)
Theorem recordings_refine_life s0 x x' id :
  initial s0 -> reached st c s0 x -> sys_step (op st c) env x x' ->
  rtc life (None, []) (life_of (fst x) id)
  /\ (life_of (fst x') id = life_of (fst x) id \/ life (life_of (fst x) id) (life_of (fst x') id)).
Proof.
  intros Hi Hr Hs. split.
  - eapply inv_life, reached_inv; eassumption.
  - eapply guar_life, reached_moves; eassumption.
Qed.

(** A completed recording has been put, whole, into its store: the object under
    its key has the size the row tells, and no later step moves the recording to
    another key, bucket or integration. *)
Theorem completed_was_uploaded s0 x y id r :
  initial s0 -> reached st c s0 x -> rtc (sys_step (op st c) env) x y ->
  recordings (fst x) !! id = Some r -> r_Status r = StatusCompleted ->
  exists r' host bucket key o,
    recordings (fst y) !! id = Some r' /\ r_Status r' ∈ [StatusCompleted; StatusDeleted]
    /\ r_StorageKey r' = Some key /\ r_StorageBucket r' = Some bucket
    /\ destination st (integrations (fst y)) (r_StorageIntegrationID r') = Some (host, bucket)
    /\ APut (host, bucket, key) o ∈ accesses (stores (fst x))
    /\ r_FileSizeBytes r = Some (Z.of_nat (length (o_Data o))).
Proof.
  intros Hi Hr Hs Hid Hst. destruct (reached_rows _ _ _ _ _ Hi Hr Hs _ _ Hid) as (r' & Hid' & He).
  pose proof (reached_inv _ _ _ _ Hi Hr) as Hx.
  assert (reached st c s0 y) as Hy by (unfold reached, reachable in *; by etrans).
  pose proof (reached_inv _ _ _ _ Hi Hy) as Hinv.
  destruct (inv_rows _ _ _ Hx _ _ Hid) as (_ & _ & Hok).
  destruct (row_completed _ _ _ Hok Hst) as (l & o & (host & bucket & key & -> & Hk & Hd) & Hput & Hz).
  destruct (evolves_pin _ _ He) as (Hk' & Hi' & _ & Hb'); [by rewrite Hk|]. rewrite Hk in Hk'.
  destruct (inv_rows _ _ _ Hinv _ _ Hid') as (_ & _ & Hok').
  destruct (row_pinned _ _ _ Hok' _ Hk') as (_ & _ & _ & host' & bucket' & Hd' & Hbk').
  destruct (row_pinned _ _ _ Hok _ Hk) as (_ & _ & _ & host1 & bucket1 & Hd1 & Hbk1).
  rewrite Hd in Hd1. injection Hd1 as <- <-. rewrite Hb', Hbk1 in Hbk'. injection Hbk' as <-.
  assert (later (r_Status r) (r_Status r')) as Hl by apply He. rewrite Hst in Hl.
  assert (host' = host) as ->.
  { assert (grows (fst x) (fst y)) as Hg.
    { clear -Hi Hr Hs. induction Hs as [x|x z y Hs1 _ IH]; [apply grows_refl|].
      eapply grows_trans; [apply (guar_grows _ _ (reached_moves _ _ _ _ _ Hi Hr Hs1))|].
      apply IH. by eapply rtc_r. }
    rewrite Hi' in Hd'. rewrite (destination_grows _ _ _ _ _ Hg Hd) in Hd'. by injection Hd'. }
  exists r', host, bucket, key, o. split_and!; try done; [|congruence].
  rewrite !elem_of_cons. destruct Hl as [Hl|[Hl|[[Hl _]|[_ Hl]]]]; [by rewrite <- Hl; left|done|done|by right; left].
Qed.

(** The object of a recording is under the prefix of its organization, or in the
    store of an integration of the organization. *)
Definition in_tenant (s : State) (r : Recording) (l : Location) : Prop :=
  exists host bucket key, l = (host, bucket, key)
    /\ validateManagedRecordingKey (r_OrganizationID r) key = inl tt
    /\ destination st (integrations s) (r_StorageIntegrationID r) = Some (host, bucket)
    /\ integration_of (integrations s) (r_OrganizationID r) (r_StorageIntegrationID r).

(** C39: Every object that is written, removed or handed out by URL is, at any time,
    the object of a recording, under the prefix of the organization of the
    recording and in a store of this organization, and no other recording has it;
    the rest are the test objects of integrations. *)
Theorem objects_stay_in_tenant s0 x a :
  initial s0 -> reached st c s0 x -> a ∈ accesses (stores (fst x)) ->
  test_object st (integrations (fst x)) (location_of a) \/
  exists id r, recordings (fst x) !! id = Some r /\ in_tenant (fst x) r (location_of a)
    /\ forall id' r', recordings (fst x) !! id' = Some r' ->
         object_at st (integrations (fst x)) r' (location_of a) -> id' = id.
Proof.
  intros Hi Hr Ha. pose proof (reached_inv _ _ _ _ Hi Hr) as Hx.
  destruct (inv_accesses _ _ _ Hx _ Ha) as [(id & r & Hid & Hl)|Ht]; [right|by left].
  destruct Hl as (host & bucket & key & Hl & Hk & Hd).
  destruct (inv_rows _ _ _ Hx _ _ Hid) as (Hrid & _ & Hok).
  destruct (row_pinned _ _ _ Hok _ Hk) as ((t & e & Hkey) & _ & Hint & _).
  exists id, r. split; [done|]. split.
  - exists host, bucket, key. split_and!; [done|by eapply recordingObjectKey_managed|done|done].
  - intros id' r' Hid' (host' & bucket' & key' & Hl' & Hk' & _). rewrite Hl in Hl'. injection Hl' as <- <- <-.
    destruct (inv_rows _ _ _ Hx _ _ Hid') as (Hrid' & _ & Hok').
    destruct (row_pinned _ _ _ Hok' _ Hk') as ((t' & e' & Hkey') & _).
    destruct (recordingObjectKey_inj _ _ _ _ _ _ _ _ _ Hkey' Hkey) as [_ Heq]. congruence.
Qed.

(** The path, its links followed, lies below the directory the staging path leads to. *)
Definition in_staging (s : State) (p : string) : Prop :=
  exists root below, AResolve (StagingPath c) root ∈ file_log s /\ IsAbs p = IsAbs root
    /\ below <> [] /\ elements p = elements root ++ below.
Lemma below_in_staging s p : below_staging (StagingPath c) s p -> in_staging s p.
Proof.
  intros (root & Hroot & Hin). unfold inside in Hin. destruct (Rel root p) as [rel|] eqn:Hrel; [|done].
  destruct (Rel_below _ _ _ Hrel) as (Habs & below & Hne & Hel); [by apply negb_true_iff|].
  by exists root, below.
Qed.

(** The upload opens and removes only files below the staging directory, symbolic
    links followed, and it removes a file only when a recording whose source leads
    to it has been put into its store. *)
Theorem staged_files_are_safe s0 x :
  initial s0 -> reached st c s0 x ->
  (forall p, AOpen p ∈ file_log (fst x) -> in_staging (fst x) p)
  /\ (forall p, AUnlink p ∈ file_log (fst x) -> in_staging (fst x) p /\ was_uploaded st (fst x) p).
Proof.
  intros Hi Hr. pose proof (reached_inv _ _ _ _ Hi Hr) as Hx. split.
  - intros p Hp. by apply below_in_staging, (inv_files _ _ _ Hx (AOpen p)).
  - intros p Hp. destruct (inv_files _ _ _ Hx _ Hp) as [Hb Hu]. split; [by apply below_in_staging|done].
Qed.
End Theorems.

(** ** A run *)
Section Example_.
#[local] Existing Instance decimal_uuid.
#[local] Existing Instance toy_aead.
#[local] Instance ex_s3 : S3Lib := {|
  url_Parse s := if HasPrefix s "https://" then Some {| Scheme := "https"; Host := TrimPrefix s "https://";
      Hostname := TrimPrefix s "https://"; has_User := false; RawQuery := ""; Fragment := ""; Path := "" |} else None;
  ParseIP _ := None;
  minio_New _ := None;
  presigned _ key _ := inl key;
  has_bucket _ := true |}.
#[local] Instance ex_storage_lib : StorageLib := {|
  pg_space s := ContainsAny s [" "%char; LF]; random_nonce _ := toy_nonce; error_text _ := "error" |}.
#[local] Instance ex_mime : MimeLib := {| TypeByExtension s := if decide (s = ".wav") then "audio/wav" else "" |}.

Definition ex_config : Config := {|
  Endpoint := "https://objects.example"; Region := "us-east-1"; Bucket := "leamout"; AccessKey := "a";
  SecretKey := "s"; UsePathStyle := false; PlaybackTTL := 15 * Minute |}.
Definition ex_st : ObjectStorage := {|
  os_client := {| cl_Host := "objects.example"; cl_Secure := true; cl_Config := ex_config |};
  os_integrations := Some true |}.
Definition ex_c : IngestionConfig := DefaultIngestionConfig "/staging".
Definition ex_path : string := "/staging/a.WAV".
Definition ex_state : State := {|
  organizations := {[1 := true]}; calls := {[5 := {| c_OrganizationID := 1; c_State := "completed" |}]};
  integrations := ∅; recordings := ∅; policies := ∅; outbox := []; stores := {| objects := ∅; accesses := [] |};
  paths := {[ex_path := 0]}; files := {[0 := Some (bytes "RIFF")]};
  resolve := <["/staging" := "/staging"%string]> {[ex_path := ex_path]};
  file_log := []; now := 100 * Second; next := 10 |}.
Definition ex_event (name : string) : FreeSWITCH.Event := {|
  FreeSWITCH.Name := name; FreeSWITCH.ev_Body := "";
  FreeSWITCH.ev_Headers := <["variable_leamout_call_id" := "5"%string]> (<["Unique-ID" := "u"%string]>
    {["Record-File-Path" := ex_path]}) |}.

(** The rest of the programs that have been run is their result. *)
Definition finish (p : prog State unit) (x : State * list (prog State unit)) : State * list (prog State unit) :=
  let (r, s') := run p [] (fst x) in (s', Return r :: snd x).
Definition ex_start : prog State unit := HandleFreeSWITCHEvent (ex_event "RECORD_START").
Definition ex_stop : prog State unit := HandleFreeSWITCHEvent (ex_event "RECORD_STOP").
Definition ex_delete : prog State unit := Delete (Some ex_st) 1 10.
Definition ex_uploaded := finish (Ingest ex_st ex_c) (finish ex_stop (finish ex_start (ex_state, []))).
Definition ex_end := finish ex_delete ex_uploaded.

Lemma finish_steps {L : S3Lib} {T : StorageLib} {A : AEAD} {U : UuidLib} {Mi : MimeLib} st c p x :
  op st c p -> rtc (sys_step (op st c) env) x (finish p x).
Proof.
  intros Hp. destruct x as [s ts]. unfold finish. destruct (run p [] (fst (s, ts))) as [r s'] eqn:Hr. simpl in *.
  eapply rtc_l; [by apply (sys_start _ _ p)|]. by eapply run_steps.
Qed.
Lemma start_step (ops : prog State unit -> Prop) p x : ops p -> sys_step ops env x (fst x, p :: snd x).
Proof. destruct x as [s ts]. apply sys_start. Qed.
Lemma ex_initial : initial ex_state.
Proof. by split. Qed.
Lemma ex_to_uploaded : reached ex_st ex_c ex_state ex_uploaded.
Proof.
  unfold reached, reachable, ex_uploaded.
  etrans; [|apply finish_steps; constructor].
  etrans; [|apply finish_steps; constructor].
  apply finish_steps. constructor.
Qed.
Lemma ex_to_end : rtc (sys_step (op ex_st ex_c) env) ex_uploaded ex_end.
Proof. apply finish_steps. constructor. by right. Qed.

(** After the run the recording has completed and its life is told. *)
Lemma recordings_refine_life_witness :
  life_of (fst ex_uploaded) 10 = (Some StatusCompleted, [EventRecordingStarted; EventRecordingCompleted])
  /\ rtc life (None, []) (life_of (fst ex_uploaded) 10).
Proof.
  split; [vm_compute; reflexivity|].
  refine (proj1 (recordings_refine_life ex_st ex_c ex_state ex_uploaded (fst ex_uploaded, ex_delete :: snd ex_uploaded) 10
    ex_initial ex_to_uploaded _)).
  apply start_step. constructor. by right.
Defined.

Definition ex_row : Recording := default zero_recording (recordings (fst ex_uploaded) !! 10).
Lemma completed_was_uploaded_witness :
  exists r' host bucket key o, recordings (fst ex_end) !! 10 = Some r' /\ r_Status r' ∈ [StatusCompleted; StatusDeleted]
    /\ r_StorageKey r' = Some key /\ r_StorageBucket r' = Some bucket
    /\ destination ex_st (integrations (fst ex_end)) (r_StorageIntegrationID r') = Some (host, bucket)
    /\ APut (host, bucket, key) o ∈ accesses (stores (fst ex_uploaded))
    /\ r_FileSizeBytes ex_row = Some (Z.of_nat (length (o_Data o))).
Proof.
  apply (completed_was_uploaded ex_st ex_c ex_state ex_uploaded ex_end 10 ex_row ex_initial ex_to_uploaded ex_to_end);
    vm_compute; reflexivity.
Defined.

Definition ex_object : Location := ("objects.example", "leamout", "organizations/1/recordings/1970/01/01/10.wav")%string.
Lemma ex_removed : reached ex_st ex_c ex_state ex_end.
Proof. unfold reached, reachable. etrans; [apply ex_to_uploaded|apply ex_to_end]. Qed.
Lemma objects_stay_in_tenant_witness :
  ARemove ex_object ∈ accesses (stores (fst ex_end)) /\
  (test_object ex_st (integrations (fst ex_end)) ex_object \/
   exists id r, recordings (fst ex_end) !! id = Some r /\ in_tenant ex_st (fst ex_end) r ex_object
     /\ forall id' r', recordings (fst ex_end) !! id' = Some r' ->
          object_at ex_st (integrations (fst ex_end)) r' ex_object -> id' = id).
Proof.
  assert (ARemove ex_object ∈ accesses (stores (fst ex_end))) as H.
  { assert (accesses (stores (fst ex_end)) = [APut ex_object {| o_ContentType := "audio/wav"; o_Data := bytes "RIFF" |}; ARemove ex_object])
      as -> by (vm_compute; reflexivity). right. left. }
  split; [exact H|]. exact (objects_stay_in_tenant ex_st ex_c ex_state ex_end (ARemove ex_object) ex_initial ex_removed H).
Defined.

Lemma staged_files_are_safe_witness :
  AUnlink ex_path ∈ file_log (fst ex_uploaded)
  /\ in_staging ex_c (fst ex_uploaded) ex_path /\ was_uploaded ex_st (fst ex_uploaded) ex_path.
Proof.
  assert (AUnlink ex_path ∈ file_log (fst ex_uploaded)) as H.
  { assert (file_log (fst ex_uploaded) = [AResolve "/staging" "/staging"; AResolve ex_path ex_path; AOpen ex_path; AUnlink ex_path])
      as -> by (vm_compute; reflexivity). do 3 right. left. }
  split; [exact H|].
  exact (proj2 (staged_files_are_safe ex_st ex_c ex_state ex_uploaded ex_initial ex_to_uploaded) ex_path H).
Defined.
End Example_.
End RecordingOutcomes.
