(* ===== verification/RetentionRuns.v ===== *)
(** * Retention: what a pass does

    One pass of the retention job ([RecordingJobs.runOnce]) while nothing else
    touches the recordings: it ends, changes only what is overdue, and when it
    reports no error nothing overdue is left. *)

From stdpp Require Import sorting.
From S2P Require Import Prelude Encryption Programs Routing Paths ObjectStore RecordingStore StorageService Recordings RecordingJobs RecordingSafety RecordingStatements RecordingOutcomes.
Local Open Scope Z_scope.

Module RetentionRuns.
Import AppErr Encryption Programs ObjectStore RecordingStore StorageService Recordings RecordingJobs RecordingStatements.

(** ** Calls that leave the recordings alone *)
Record same (s s' : State) : Prop := {
  same_recordings : recordings s' = recordings s;
  same_policies : policies s' = policies s;
  same_now : now s' = now s;
}.
#[export] Instance same_preorder : PreOrder same.
Proof. split; [by split|]. intros s1 s2 s3 [] []. split; congruence. Qed.
Definition quiet {X} (p : prog State X) : Prop := harmless (fun _ => True) same p.

Lemma quiet_run {X} (p : prog State X) s r s' : quiet p -> run p [] s = (r, s') -> same s s'.
Proof. intros Hp Hr. by destruct (run_safe _ _ _ _ _ _ _ _ _ Hp I I Hr) as (_ & ? & _). Qed.
Lemma quiet_return {X} (r : result X) : quiet (Return r).
Proof. done. Qed.
Lemma quiet_wrap {X} f (p : prog State X) : quiet p -> quiet (wrap_ f p).
Proof. intros Hp. by apply harmless_andthen. Qed.
Lemma quiet_attempt {X} (p : prog State X) : quiet p -> quiet (attempt_ p).
Proof. intros Hp. by apply harmless_andthen. Qed.
Lemma quiet_seq {X Y} (p : prog State X) (k : X -> prog State Y) : quiet p -> (forall a, quiet (k a)) -> quiet (seq p k).
Proof. apply harmless_seq. Qed.
Lemma quiet_raise_if c e : quiet (raise_if c e).
Proof. by destruct c. Qed.
Lemma quiet_query {X} (f : State -> result X) : quiet (query f).
Proof. apply harmless_call. intros s _. split; [done|]. simpl. reflexivity. Qed.
Create HintDb quiet discriminated.
#[export] Hint Resolve quiet_return quiet_wrap quiet_attempt quiet_raise_if quiet_query : quiet.
Ltac quietly := repeat first
  [ by eauto with quiet | apply quiet_seq; [|intros ?] | apply quiet_wrap | apply quiet_attempt
  | match goal with |- quiet (match ?x with _ => _ end) => destruct x end
  | match goal with |- quiet (if ?x then _ else _) => destruct x end ].

Section Runs.
Context {L : S3Lib} {T : StorageLib} {A : AEAD} {U : UuidLib}.

Lemma quiet_client st r up : quiet (clientForRecording st r up).
Proof.
  unfold clientForRecording, ResolveByID, ResolveRecording, StorageService.Repo_Get, GetActiveRecording, resolved_client.
  quietly.
Qed.
Lemma quiet_Storage_Delete st r : quiet (Storage_Delete st r).
Proof.
  unfold Storage_Delete, stored, check_managed, ObjectStore.Delete.
  apply quiet_seq; [quietly; apply quiet_client|]. intros [client key]. apply quiet_seq; [by quietly|intros _].
  apply quiet_wrap, harmless_call. intros s _. split; [done|]. by split.
Qed.

(** ** Deleting one recording *)
Lemma DeleteRecording_inv org id s r' s' :
  DeleteRecording org id s = inl (r', s') ->
  recordings s' = <[r_ID r' := r']> (recordings s) /\ r_Status r' = StatusDeleted /\ policies s' = policies s
  /\ now s' = now s /\ exists r, recordings s !! id = Some r /\ r_ID r' = r_ID r.
Proof.
  unfold DeleteRecording, update_recording. destruct (recordings s !! id) as [r|] eqn:Hr; [|done].
  destruct (_ && _); [|done]. intros [-> ->]%put_recording_inv. split_and!; try done. by exists r.
Qed.
Lemma DeleteRecording_fails org id s r e :
  recordings s !! id = Some r -> in_org org r = true -> r_Status r <> StatusDeleted ->
  DeleteRecording org id s = inr e -> errors_Is e ErrNoRows = false.
Proof.
  intros Hr Ho Hs. unfold DeleteRecording, update_recording. rewrite Hr, Ho, (bool_decide_false _ Hs). simpl.
  unfold put_recording. by repeat case_match; intros [= <-].
Qed.

(** [s'] differs from [s] in rows of [E] that are deleted now. *)
Record cleaned (E : Recording -> Prop) (s s' : State) : Prop := {
  cleaned_rows : forall id, recordings s' !! id = recordings s !! id \/
    exists r r', recordings s !! id = Some r /\ E r /\ recordings s' !! id = Some r' /\ r_ID r' = r_ID r
      /\ r_Status r' = StatusDeleted;
  cleaned_policies : policies s' = policies s;
  cleaned_now : now s' = now s;
}.
Lemma cleaned_same E s s' : same s s' -> cleaned E s s'.
Proof. intros [H ? ?]. split; [|done..]. intros id. rewrite H. by left. Qed.
Lemma cleaned_trans E s1 s2 s3 : cleaned E s1 s2 -> cleaned E s2 s3 -> cleaned E s1 s3.
Proof.
  intros [R1 P1 N1] [R2 P2 N2]. split; [|congruence..]. intros id.
  destruct (R1 id) as [H1|(r & r' & Hr & HE & Hr' & Hid & Hs)], (R2 id) as [H2|(x & x' & Hx & HE' & Hx' & Hid' & Hs')].
  - left. congruence.
  - right. exists x, x'. rewrite <- H1. done.
  - right. exists r, r'. rewrite H2. done.
  - right. exists r, x'. split_and!; try done. rewrite Hr' in Hx. injection Hx as <-. congruence.
Qed.
Lemma cleaned_mono (E E' : Recording -> Prop) s s' : (forall r, E r -> E' r) -> cleaned E s s' -> cleaned E' s s'.
Proof.
  intros HE [R ? ?]. split; [|done..]. intros id. destruct (R id) as [?|(r & r' & ? & ? & ?)]; [by left|right].
  exists r, r'. auto.
Qed.
Definition keyed (s : State) : Prop := forall id r, recordings s !! id = Some r -> r_ID r = id.
Lemma cleaned_keyed E s s' : cleaned E s s' -> keyed s -> keyed s'.
Proof.
  intros [R _ _] Hk id x Hx. destruct (R id) as [H|(r & r' & Hr & _ & Hr' & Hid & _)].
  - apply Hk. congruence.
  - rewrite Hx in Hr'. injection Hr' as <-. rewrite Hid. by apply Hk.
Qed.

Lemma Delete_run storage org id s r s' row :
  keyed s -> recordings s !! id = Some row -> r_Status row = StatusCompleted ->
  run (Delete storage org id) [] s = (r, s') ->
  cleaned (fun x => x = row) s s' /\
  (r = inl tt -> exists row', recordings s' !! id = Some row' /\ r_Status row' = StatusDeleted).
Proof.
  intros Hk Hrow Hst. unfold Delete. rewrite run_seq. unfold lift_ at 1. cbn [run].
  destruct (validateOrganizationID org); [|by intros [= <- <-]; split; [apply cleaned_same|]].
  rewrite run_seq, run_wrap. unfold GetIncludingDeleted, query. rewrite run_call.
  unfold GetRecordingIncludingDeleted. rewrite Hrow.
  destruct (in_org org row) eqn:Ho; [|by intros [= <- <-]; split; [apply cleaned_same|]].
  rewrite (bool_decide_false (r_Status row = StatusDeleted)) by (by rewrite Hst).
  rewrite run_seq. assert (status_in [StatusRecording; StatusUploading] row = false) as ->.
  { unfold status_in. by rewrite Hst. }
  cbn [raise_if done_ run]. destruct storage as [st|]; [|by intros [= <- <-]; split; [apply cleaned_same|]].
  rewrite run_seq, run_wrap. destruct (run (Storage_Delete st row) [] s) as [x s1] eqn:Hd.
  pose proof (quiet_run _ _ _ _ (quiet_Storage_Delete st row) Hd) as Hs1.
  destruct x as [[]|e]; [|by intros [= <- <-]; split; [apply cleaned_same|]].
  rewrite run_seq, run_attempt. unfold Repo_Delete, mutate, exec. rewrite run_call.
  assert (recordings s1 !! id = Some row) as Hrow1 by (by rewrite (same_recordings _ _ Hs1)).
  assert (r_ID row = id) as Hid by (by apply Hk). rewrite Hid.
  assert (in_org (r_OrganizationID row) row = true) as Ho1 by (unfold in_org; by rewrite bool_decide_true).
  destruct (DeleteRecording (r_OrganizationID row) id s1) as [[row' s2]|e] eqn:Hdel.
  - rewrite rbind_inl. cbn [run]. intros [= <- <-].
    destruct (DeleteRecording_inv _ _ _ _ _ Hdel) as (Hr2 & Hs2 & Hp2 & Hn2 & r1 & Hr1 & Hid1).
    rewrite Hrow1 in Hr1. injection Hr1 as <-. rewrite Hid1, Hid in Hr2. split.
    + split; simpl; [|by rewrite Hp2, (same_policies _ _ Hs1)|by rewrite Hn2, (same_now _ _ Hs1)].
      intros k. rewrite Hr2. destruct (decide (k = id)) as [->|Hne].
      * rewrite lookup_insert_eq. right. exists row, row'. split_and!; congruence.
      * rewrite lookup_insert_ne by done. left. by rewrite (same_recordings _ _ Hs1).
    + intros _. exists row'. simpl. rewrite Hr2, lookup_insert_eq. done.
  - rewrite rbind_inr. cbn [run].
    rewrite (DeleteRecording_fails _ _ _ _ _ Hrow1 Ho1 ltac:(by rewrite Hst) Hdel). cbn [run].
    intros [= <- <-]. split; [|done]. by apply cleaned_same.
Qed.

(** ** Deleting a batch, and all batches *)
Definition deleted (id : UUID) (s : State) : Prop :=
  exists row, recordings s !! id = Some row /\ r_Status row = StatusDeleted.
Lemma cleaned_deleted E s s' id : cleaned E s s' -> deleted id s -> deleted id s'.
Proof.
  intros [R _ _] (row & Hrow & Hs). destruct (R id) as [H|(r & r' & _ & _ & Hr' & _ & Hs')].
  - exists row. split; [congruence|done].
  - by exists r'.
Qed.
Context (storage : option ObjectStorage).

Lemma delete_all_run E org ids s r s' :
  keyed s -> NoDup ids ->
  (forall id, id ∈ ids -> exists row, recordings s !! id = Some row /\ r_Status row = StatusCompleted /\ E row) ->
  run (for_each (delete_one storage org) ids) [] s = (r, s') ->
  cleaned E s s' /\ (r = inl tt -> forall id, id ∈ ids -> deleted id s').
Proof.
  revert s. induction ids as [|id ids IH]; intros s Hk Hnd Hids; cbn [for_each].
  { intros [= <- <-]. split; [by apply cleaned_same|]. by intros _ id Hid%elem_of_nil. }
  apply NoDup_cons in Hnd as [Hni Hnd]. destruct (Hids id) as (row & Hrow & Hst & HE); [left|].
  rewrite run_seq. unfold delete_one at 1. rewrite run_wrap.
  destruct (run (Delete storage org id) [] s) as [x s1] eqn:Hd.
  destruct (Delete_run _ _ _ _ _ _ _ Hk Hrow Hst Hd) as [Hc Hdel].
  assert (cleaned E s s1) as Hc1 by (eapply cleaned_mono; [|exact Hc]; by intros ? ->).
  destruct x as [[]|e]; [|by intros [= <- <-]]. intros Hr.
  assert (forall id', id' ∈ ids -> exists row, recordings s1 !! id' = Some row /\ r_Status row = StatusCompleted /\ E row)
    as Hids1.
  { intros id' Hin. destruct (Hids id') as (row' & Hrow' & Hst' & HE'); [by right|]. exists row'. split; [|done].
    destruct (cleaned_rows _ _ _ Hc id') as [->|(r0 & _ & Hr0 & -> & _)]; [done|].
    rewrite <- (Hk _ _ Hr0), (Hk _ _ Hrow) in Hin. done. }
  destruct (IH s1 (cleaned_keyed _ _ _ Hc Hk) Hnd Hids1 Hr) as [Hc2 Hall].
  split; [by eapply cleaned_trans|]. intros Hok id' [->|Hin]%elem_of_cons; [|by apply Hall].
  eapply cleaned_deleted; [exact Hc2|]. by apply Hdel.
Qed.

(** What a statement lists: rows that are due, each once, and all if they are
    fewer than a batch. *)
Lemma expired_ids org cutoff batch s :
  keyed s ->
  let ids := ListExpiredRecordingsForRetention org cutoff batch s in
  NoDup ids
  /\ (forall id, id ∈ ids -> exists row, recordings s !! id = Some row /\ expired org cutoff row = true)
  /\ (Z.of_nat (length ids) < batch -> forall id row, recordings s !! id = Some row ->
       expired org cutoff row = true -> id ∈ ids).
Proof.
  intros Hk ids. unfold ids, ListExpiredRecordingsForRetention.
  set (rows := merge_sort oldest _).
  assert (forall row, row ∈ rows <-> recordings s !! r_ID row = Some row /\ expired org cutoff row = true) as Hrows.
  { intros row. unfold rows. rewrite merge_sort_Permutation, list_elem_of_filter, rows_of_in. split.
    - intros [He [k Hr]]. by rewrite (Hk _ _ Hr).
    - intros [Hr He]. eauto. }
  assert (NoDup (r_ID <$> rows)) as Hnd.
  { unfold rows. rewrite merge_sort_Permutation. unfold rows_of.
    assert (forall l : list (UUID * Recording), NoDup l.*1 -> Forall (fun x => r_ID (snd x) = fst x) l ->
      NoDup (r_ID <$> filter (fun r => expired org cutoff r = true) l.*2)) as H.
    { intros l Hl HF. induction l as [|[k x] l IH]; [constructor|]. apply NoDup_cons in Hl as [Hni Hl].
      apply Forall_cons in HF as [Hx HF]. simpl in Hx. cbn [fmap list_fmap snd].
      destruct (decide (expired org cutoff x = true)).
      - rewrite filter_cons_True by done. constructor; [|by apply IH].
        intros (y & Hy & Hin)%list_elem_of_fmap. apply list_elem_of_filter in Hin as [_ Hin].
        apply list_elem_of_fmap in Hin as ([k' y'] & -> & Hin'). apply Hni.
        eapply Forall_forall in HF; [|exact Hin']. simpl in *. rewrite <- Hx, Hy, HF.
        apply list_elem_of_fmap. by exists (k', y').
      - rewrite filter_cons_False by done. by apply IH. }
    apply H; [apply NoDup_fst_map_to_list|]. apply Forall_forall. intros [k x] Hin%elem_of_map_to_list. by apply Hk. }
  split_and!.
  - rewrite <- (take_drop (Z.to_nat batch) (r_ID <$> rows)) in Hnd. by apply NoDup_app in Hnd as [? _].
  - intros id Hin. assert (id ∈ r_ID <$> rows) as Hin'.
    { rewrite <- (take_drop (Z.to_nat batch) (r_ID <$> rows)). apply elem_of_app. by left. }
    apply list_elem_of_fmap in Hin' as (row & -> & Hrow%Hrows). by exists row.
  - rewrite length_take. intros Hlt id row Hr He. rewrite take_ge by lia. apply list_elem_of_fmap. exists row.
    split; [by symmetry; apply Hk|]. apply Hrows. by rewrite (Hk _ _ Hr).
Qed.

(** The recordings that may still be deleted. *)
Definition open_ids (s : State) : gset UUID :=
  dom (filter (fun p : UUID * Recording => r_Status (snd p) = StatusCompleted) (recordings s)).
Lemma open_ids_in s id : id ∈ open_ids s <-> exists row, recordings s !! id = Some row /\ r_Status row = StatusCompleted.
Proof.
  unfold open_ids. rewrite elem_of_dom. split.
  - intros [row [? ?]%map_lookup_filter_Some]. by exists row.
  - intros (row & Hr & Hs). exists row. by apply map_lookup_filter_Some.
Qed.
Lemma cleaned_open E s s' : cleaned E s s' -> open_ids s' ⊆ open_ids s.
Proof.
  intros [R _ _] id (row & Hr & Hs)%open_ids_in. apply open_ids_in.
  destruct (R id) as [H|(r & r' & _ & _ & Hr' & _ & Hd)]; [exists row; by rewrite <- H|].
  rewrite Hr in Hr'. injection Hr' as <-. by rewrite Hs in Hd.
Qed.
Lemma expired_completed org cutoff row : expired org cutoff row = true -> r_Status row = StatusCompleted.
Proof. unfold expired. rewrite !andb_true_iff. by intros [[_ H%bool_decide_eq_true] _]. Qed.

Definition none_expired (org cutoff : Z) (s : State) : Prop :=
  forall id row, recordings s !! id = Some row -> expired org cutoff row = false.
Lemma rounds_run batch fuel org cutoff s r s' :
  keyed s -> 0 < batch -> (size (open_ids s) < fuel)%nat ->
  run (cleanup_rounds storage batch fuel org cutoff) [] s = (r, s') ->
  cleaned (fun x => expired org cutoff x = true) s s'
  /\ (forall b, r = inl b -> b = true /\ none_expired org cutoff s').
Proof.
  intros Hk Hb. revert s Hk. induction fuel as [|fuel IH]; intros s Hk Hf; [lia|].
  cbn [cleanup_rounds]. rewrite run_seq, run_wrap. unfold query. rewrite run_call.
  destruct (expired_ids org cutoff batch s Hk) as (Hnd & Hids & Hall). remember (ListExpiredRecordingsForRetention org cutoff batch s) as ids eqn:Hl. clear Hl.
  rewrite run_seq. destruct (run (for_each (delete_one storage org) ids) [] s) as [x s1] eqn:Hd.
  destruct (delete_all_run (fun x => expired org cutoff x = true) org ids s x s1 Hk Hnd) as [Hc Hdel]; [|exact Hd|].
  { intros id Hin. destruct (Hids id Hin) as (row & Hr & He). exists row. eauto using expired_completed. }
  destruct x as [[]|e]; [|by intros [= <- <-]; split]. specialize (Hdel eq_refl).
  destruct (Z.ltb_spec (Z.of_nat (length ids)) batch) as [Hlt|Hge].
  - intros [= <- <-]. split; [done|]. intros b [= <-]. split; [done|]. intros id row Hr.
    destruct (expired org cutoff row) eqn:He; [|done].
    destruct (cleaned_rows _ _ _ Hc id) as [H|(r0 & r' & _ & _ & Hr' & _ & Hs)].
    + destruct (Hdel id) as (row' & Hr' & Hs); [apply (Hall Hlt id row); congruence|].
      rewrite Hr in Hr'. injection Hr' as <-. apply expired_completed in He. by rewrite Hs in He.
    + rewrite Hr in Hr'. injection Hr' as <-. apply expired_completed in He. by rewrite Hs in He.
  - destruct ids as [|id ids]; [simpl in Hge; lia|]. intros Hr.
    destruct (IH s1) as [Hc' Hend]; [by eapply cleaned_keyed| |exact Hr|split; [by eapply cleaned_trans|done]].
    apply PeanoNat.Nat.lt_le_trans with (size (open_ids s)); [|lia]. apply subset_size. split; [by eapply cleaned_open|].
    intros Hsub. destruct (Hids id) as (row & Hrow & He); [left|]. destruct (Hdel id) as (row' & Hrow' & Hs'); [left|].
    assert (id ∈ open_ids s1) as (row1 & Hr1 & Hs1)%open_ids_in.
    { apply Hsub, open_ids_in. eauto using expired_completed. }
    rewrite Hrow' in Hr1. injection Hr1 as <-. by rewrite Hs' in Hs1.
Qed.

(** ** A pass *)
Definition covers (t : Z) (p : Policy) (row : Recording) : Prop :=
  po_Resource p = "recordings" /\ expired (po_OrganizationID p) (cutoff_of t p) row = true.
Lemma policies_run batch fuel ps s r s' :
  keyed s -> 0 < batch -> (size (open_ids s) < fuel)%nat ->
  run (cleanup_policies storage batch fuel ps) [] s = (r, s') ->
  cleaned (fun row => Exists (fun p => covers (now s) p row) ps) s s'
  /\ (forall b, r = inl b -> b = true /\
       forall id row, recordings s' !! id = Some row -> ~ Exists (fun p => covers (now s) p row) ps).
Proof.
  intros Hk Hb. revert s r s' Hk. induction ps as [|p ps IH]; intros s r s' Hk Hf; cbn [cleanup_policies].
  { intros [= <- <-]. split; [by apply cleaned_same|]. intros b [= <-]. split; [done|]. by intros id row _ ?%Exists_nil. }
  case_bool_decide as Hp.
  - rewrite run_seq. unfold local. cbn [run time_now]. rewrite run_seq.
    destruct (run (cleanup_rounds _ _ _ _ _) [] s) as [x s1] eqn:Hr1.
    destruct (rounds_run _ _ _ _ _ _ _ Hk Hb Hf Hr1) as [Hc1 He1].
    assert (cleaned (fun row => Exists (fun p => covers (now s) p row) (p :: ps)) s s1) as Hc1'.
    { eapply cleaned_mono; [|exact Hc1]. intros row He. by left. }
    destruct x as [b|e]; [|by intros [= <- <-]]. rewrite run_seq.
    destruct (run (cleanup_policies _ _ _ _) [] s1) as [y s2] eqn:Hr2.
    destruct (IH s1 y s2) as [Hc2 He2]; [by eapply cleaned_keyed| |exact Hr2|].
    { apply PeanoNat.Nat.le_lt_trans with (size (open_ids s)); [|done]. by eapply subseteq_size, cleaned_open. }
    rewrite (cleaned_now _ _ _ Hc1) in Hc2, He2.
    assert (cleaned (fun row => Exists (fun p => covers (now s) p row) (p :: ps)) s s2) as Hc.
    { eapply cleaned_trans; [exact Hc1'|]. eapply cleaned_mono; [|exact Hc2]. intros row ?. by right. }
    destruct y as [b'|e]; [|by intros [= <- <-]]. intros [= <- <-]. split; [done|]. intros b0 [= <-].
    destruct (He1 b eq_refl) as [-> Hno]. destruct (He2 b' eq_refl) as [-> Hno']. split; [done|].
    intros id row Hrow [[_ He]|Hex]%Exists_cons; [|by apply (Hno' id row)].
    destruct (cleaned_rows _ _ _ Hc2 id) as [H|(r0 & r' & _ & _ & Hr' & _ & Hs)].
    + rewrite (Hno id row) in He; [done|]. congruence.
    + rewrite Hrow in Hr'. injection Hr' as <-. apply expired_completed in He. by rewrite Hs in He.
  - intros Hr. destruct (IH s r s' Hk Hf Hr) as [Hc He]. split.
    + eapply cleaned_mono; [|exact Hc]. intros row ?. by right.
    + intros b Hrb. destruct (He b Hrb) as [-> Hno]. split; [done|].
      intros id row Hrow [[? _]|Hex]%Exists_cons; [done|]. by apply (Hno id row).
Qed.
End Runs.

(** An enabled policy for recordings says that the time of [row] is over. *)
Definition overdue (s : State) (row : Recording) : Prop :=
  exists k p, policies s !! k = Some p /\ po_Enabled p = true /\ covers (now s) p row.
Lemma overdue_Exists s row :
  overdue s row <-> Exists (fun p => covers (now s) p row) (ListEnabledRetentionPolicies s).
Proof.
  unfold ListEnabledRetentionPolicies. rewrite Exists_exists. setoid_rewrite merge_sort_Permutation.
  setoid_rewrite list_elem_of_filter. unfold all_policies. setoid_rewrite list_elem_of_fmap. split.
  - intros (k & p & Hp & He & Hc). exists p. split_and!; [done| |done]. exists (k, p).
    split; [done|]. by apply elem_of_map_to_list.
  - intros (p & [He ([k p'] & -> & Hin%elem_of_map_to_list)] & Hc). by exists k, p'.
Qed.


(** A policy of one day, four days after the recording of the run of
    [RecordingOutcomes.v] was completed. *)
Section Example_.
Import RecordingOutcomes.
#[local] Existing Instances decimal_uuid toy_aead ex_s3 ex_storage_lib ex_mime.
Definition ex_policy : Policy := {|
  po_OrganizationID := 1; po_Resource := "recordings"; po_RetentionDays := 1; po_Enabled := true;
  po_CreatedAt := 0; po_UpdatedAt := 0 |}.
Definition ex_old : State := {|
  organizations := {[1 := true]}; calls := calls ex_state; integrations := ∅; recordings := {[10 := ex_row]};
  policies := {[(1, "recordings"%string) := ex_policy]}; outbox := []; stores := {| objects := ∅; accesses := [] |};
  paths := ∅; files := ∅; resolve := ∅; file_log := []; now := 100 * Hour; next := 11 |}.
Definition ex_pass : result bool * State := run (runOnce (Some ex_st) 1 3) [] ex_old.
End Example_.
End RetentionRuns.
