(* ===== verification/Secrets.v ===== *)
(** * Passwords, tokens and one-time codes

    [security/password], [security/token], [security/otp] and the organization
    tokens of [tenancy/credentials/secret.go]. Argon2id, SHA-256 and the random
    source are parameters. *)

From S2P Require Import Prelude Encryption Programs Paths.
Local Open Scope Z_scope.

(** ** [encoding/hex] *)
Module Hex.
Definition digit (z : Z) : ascii := ascii_of_N (Z.to_N (if z <? 10 then 48 + z else 87 + z)).
Definition value (c : ascii) : option Z :=
  if byte_in 48 57 c then Some (byte_Z c - 48) else
  if byte_in 97 102 c then Some (byte_Z c - 87) else
  if byte_in 65 70 c then Some (byte_Z c - 55) else None.
Fixpoint EncodeToString (b : list ascii) : list ascii :=
  match b with
  | [] => []
  | c :: b' => digit (byte_Z c / 16) :: digit (byte_Z c mod 16) :: EncodeToString b'
  end.
(** An odd digit left over is an error. *)
Fixpoint DecodeString (s : list ascii) : option (list ascii) :=
  match s with
  | [] => Some []
  | h :: l :: s' =>
      match value h, value l with
      | Some x, Some y => (cons (Base64.byte_of (16 * x + y))) <$> DecodeString s'
      | _, _ => None
      end
  | [_] => None
  end.

Definition hex_digit (c : ascii) : bool := byte_in 48 57 c || byte_in 97 102 c.
Lemma digit_ok z : 0 <= z < 16 -> value (digit z) = Some z /\ hex_digit (digit z) = true.
Proof.
  intros H. assert (Hall : forallb (fun i => bool_decide (value (digit (Z.of_nat i)) = Some (Z.of_nat i))
      && hex_digit (digit (Z.of_nat i))) (List.seq 0 16) = true) by (vm_compute; reflexivity).
  rewrite forallb_forall in Hall. specialize (Hall (Z.to_nat z)).
  rewrite andb_true_iff, bool_decide_eq_true, Z2Nat.id in Hall by lia. apply Hall, in_seq. lia.
Qed.
Lemma byte_halves c : 0 <= byte_Z c / 16 < 16 /\ 0 <= byte_Z c mod 16 < 16 /\ 16 * (byte_Z c / 16) + byte_Z c mod 16 = byte_Z c.
Proof. pose proof (Base64.byte_Z_bounds c). Z.to_euclidean_division_equations; lia. Qed.
Lemma hex_decode_encode b : DecodeString (EncodeToString b) = Some b.
Proof.
  induction b as [|c b IH]; [done|]. destruct (byte_halves c) as (Hh & Hl & Hc). cbn [EncodeToString DecodeString].
  rewrite (proj1 (digit_ok _ Hh)), (proj1 (digit_ok _ Hl)), IH. simpl. by rewrite Hc, Base64.byte_of_Z.
Qed.
Lemma EncodeToString_digits b : Forall (fun c => hex_digit c = true) (EncodeToString b).
Proof.
  induction b as [|c b IH]; [constructor|]. destruct (byte_halves c) as (Hh & Hl & _).
  repeat (constructor; [by apply digit_ok|]). done.
Qed.
Lemma EncodeToString_length b : length (EncodeToString b) = (2 * length b)%nat.
Proof. induction b as [|c b IH]; [done|]. cbn [EncodeToString length]. lia. Qed.
End Hex.

Module Secrets.
Import Encryption Programs Paths.

(** [IDKey password salt time memory threads keyLen], a digest, the [n]th read of
    [len] random bytes, and the [n]th random number below a limit. *)
Class SecretLib := {
  IDKey : list ascii -> list ascii -> Z -> Z -> Z -> Z -> list ascii;
  Sum256 : list ascii -> list ascii;
  random_bytes : Z -> nat -> list ascii;
  random_int : Z -> Z -> Z;
}.
Class SecretLaws (X : SecretLib) : Prop := {
  IDKey_length : forall p s t m w n, 0 < n -> Z.of_nat (length (IDKey p s t m w n)) = n;
  Sum256_length : forall b, length (Sum256 b) = 32%nat;
  random_length : forall n len, length (random_bytes n len) = len;
  random_below : forall n limit, 0 < limit -> 0 <= random_int n limit < limit;
}.

(** ** Passwords (password.go) *)
Definition algorithm : string := "argon2id".
(** [argon2.Version]. *)
Definition argon2_Version : Z := 19.
Definition defaultMemory : Z := 64 * 1024.
Definition defaultIterations : Z := 3.
Definition defaultParallelism : Z := 4.
Definition defaultSaltLength : nat := 16.
Definition defaultKeyLength : Z := 32.
Definition maxMemory : Z := 256 * 1024.
Definition maxIterations : Z := 10.
Definition maxParallelism : Z := 16.
Definition maxSaltLength : Z := 64.
Definition maxKeyLength : Z := 128.
Record parameters := { memory : Z; iterations : Z; parallelism : Z; keyLength : Z }.

Definition dollar : ascii := "$"%char.
Definition comma : ascii := ","%char.
Definition hex (b : list ascii) : string := of_bytes (Hex.EncodeToString b).
(** [fmt.Sprintf("%s$v=%d$m=%d,t=%d,p=%d$%s$%s", ...)]. *)
Definition show_parameters (m t p : Z) : string :=
  Join ["m=" +:+ show_int m; "t=" +:+ show_int t; "p=" +:+ show_int p] ",".
Definition encoded (m t p : Z) (salt hash : list ascii) : string :=
  Join [algorithm; "v=" +:+ show_int argon2_Version; show_parameters m t p; hex salt; hex hash] "$".

(** [strings.CutPrefix]; [strconv.ParseUint] in base 10. *)
Definition CutPrefix (s prefix : string) : option string :=
  if HasPrefix s prefix then Some (TrimPrefix s prefix) else None.
Definition ParseUint (s : string) (bits : Z) : option Z :=
  match parse_unsigned (bytes s) with
  | Some n => if n <? 2 ^ bits then Some n else None
  | None => None
  end.
Definition parseUintParameter (value prefix : string) (bitSize : Z) : option Z :=
  match CutPrefix value prefix with Some v => ParseUint v bitSize | None => None end.
(** A value and [err != nil || value == 0]. *)
Definition positive_parameter (value prefix : string) (bitSize : Z) (message : string) : result Z :=
  match parseUintParameter value prefix bitSize with
  | Some n => if n =? 0 then inr (Errorf message []) else inl n
  | None => inr (Errorf message [])
  end.
Definition parseParameters (encoded : string) : result parameters :=
  match Split encoded comma with
  | [v1; v2; v3] =>
      let? m := positive_parameter v1 "m=" 32 "invalid password hash memory parameter" in
      let? t := positive_parameter v2 "t=" 32 "invalid password hash iterations parameter" in
      let? p := positive_parameter v3 "p=" 8 "invalid password hash parallelism parameter" in
      inl {| memory := m; iterations := t; parallelism := p; keyLength := 0 |}
  | _ => inr (Errorf "invalid password hash parameters" [])
  end.
Definition decode (encoded : string) : result (parameters * list ascii * list ascii) :=
  match Split encoded dollar with
  | [a; v; ps; salt; digest] =>
      let? _ := guard_err (negb (bool_decide (a = algorithm))) (Errorf "invalid password hash format" []) in
      let? version := match CutPrefix v "v=" with
        | Some x => inl x | None => inr (Errorf "invalid password hash version" []) end in
      let? _ := guard_err (negb (bool_decide (ParseUint version 8 = Some argon2_Version)))
        (Errorf "unsupported password hash version" []) in
      let? params := parseParameters ps in
      let? salt := match Hex.DecodeString (bytes salt) with
        | Some ((_ :: _) as b) => inl b | _ => inr (Errorf "invalid password hash salt" []) end in
      let? expected := match Hex.DecodeString (bytes digest) with
        | Some ((_ :: _) as b) =>
            if Z.of_nat (length b) <=? maxKeyLength then inl b else inr (Errorf "invalid password hash digest" [])
        | _ => inr (Errorf "invalid password hash digest" []) end in
      let params := {| memory := memory params; iterations := iterations params;
                       parallelism := parallelism params; keyLength := Z.of_nat (length expected) |} in
      let? _ := guard_err ((maxMemory <? memory params) || (maxIterations <? iterations params)
                           || (maxParallelism <? parallelism params) || (maxSaltLength <? Z.of_nat (length salt)))
        (Errorf "password hash parameters exceed verification limits" []) in
      inl (params, salt, expected)
  | _ => inr (Errorf "invalid password hash format" [])
  end.

Section Secrets.
Context {X : SecretLib}.

(** [Hash], for the salt it has drawn. *)
Definition hash_with (salt : list ascii) (value : string) : string :=
  encoded defaultMemory defaultIterations defaultParallelism salt
    (IDKey (bytes value) salt defaultIterations defaultMemory defaultParallelism defaultKeyLength).
Definition password_Verify (value encoded : string) : bool :=
  match decode encoded with
  | inl (params, salt, expected) =>
      bool_decide (IDKey (bytes value) salt (iterations params) (memory params) (parallelism params)
                     (keyLength params) = expected)
  | inr _ => false
  end.
Definition NeedsRehash (encoded : string) : bool :=
  match decode encoded with
  | inl (params, salt, _) =>
      negb (memory params =? defaultMemory) || negb (iterations params =? defaultIterations)
      || negb (parallelism params =? defaultParallelism) || negb (keyLength params =? defaultKeyLength)
      || negb (bool_decide (length salt = defaultSaltLength))
  | inr _ => true
  end.

(** ** Tokens (token.go) and codes (otp.go) *)
Definition sessionTokenBytes : nat := 32.
Definition token_with (value : list ascii) : string := hex value.
Definition token_Hash (value : string) : string := hex (Sum256 (bytes value)).
Definition token_Verify (value expectedHash : string) : bool := bool_decide (token_Hash value = expectedHash).

Definition maxNumericDigits : Z := 18.
(** [fmt.Sprintf("%0*d", digits, n)] for [0 <= n]. *)
Definition zero_padded (digits n : Z) : string :=
  of_bytes (replicate (Z.to_nat digits - length (format_uint n)) "0"%char ++ format_uint n).
Definition GenerateNumeric (n digits : Z) : result string :=
  let? _ := guard_err ((digits <=? 0) || (maxNumericDigits <? digits))
    (Errorf "OTP digits must be between 1 and %d" [show_int maxNumericDigits]) in
  inl (zero_padded digits (random_int n (10 ^ digits))).

(** ** Organization tokens (tenancy/credentials/secret.go) *)
Definition tokenPrefix : string := "lm_org_".
Definition secretBytes : nat := 32.
Definition HashToken (token : string) : string := of_bytes (Base64.EncodeToString (Sum256 (bytes token))).
Definition GenerateToken (secret : list ascii) : string * string * string :=
  let enc := Base64.EncodeToString secret in
  let prefix := tokenPrefix +:+ of_bytes (take 8 enc) in
  let token := prefix +:+ "_" +:+ of_bytes enc in
  (token, prefix, HashToken token).
Definition ErrInvalidToken : error := Sentinel "invalid organization token".
Definition ParseTokenPrefix (token : string) : result string :=
  let b := bytes token in
  let separator := (length (bytes tokenPrefix) + 8)%nat in
  if (Z.of_nat (length b) <? Z.of_nat separator + 1)
     || negb (bool_decide (take (length (bytes tokenPrefix)) b = bytes tokenPrefix))
  then inr ErrInvalidToken else
  if negb (bool_decide (b !! separator = Some "_"%char)) || bool_decide (length b = (separator + 1)%nat)
  then inr ErrInvalidToken else inl (of_bytes (take separator b)).
End Secrets.

(** ** Round trips *)
Lemma CutPrefix_app p s : CutPrefix (p +:+ s) p = Some s.
Proof.
  unfold CutPrefix, TrimPrefix. rewrite HasPrefix_app, bytes_app, drop_app_length. by rewrite of_bytes_bytes.
Qed.
Lemma show_int_bytes n : 0 <= n -> bytes (show_int n) = format_uint n.
Proof.
  intros Hn. unfold show_int, format_int. destruct (Z.ltb_spec n 0); [lia|].
  apply (bytes_of_bytes (format_uint n)).
Qed.
Lemma ParseUint_show n bits : 0 <= n < 2 ^ bits -> ParseUint (show_int n) bits = Some n.
Proof.
  intros [H0 H1]. unfold ParseUint. rewrite show_int_bytes, format_uint_parse by done.
  by rewrite (proj2 (Z.ltb_lt _ _) H1).
Qed.
Lemma positive_parameter_show prefix n bits message :
  0 < n < 2 ^ bits -> positive_parameter (prefix +:+ show_int n) prefix bits message = inl n.
Proof.
  intros Hn. unfold positive_parameter, parseUintParameter. rewrite CutPrefix_app, ParseUint_show by lia.
  by rewrite (proj2 (Z.eqb_neq n 0)) by lia.
Qed.
(** Text without a separator. *)
Lemma digits_without c n : 0 <= n -> is_digit c = false -> c ∉ bytes (show_int n).
Proof.
  intros Hn Hc Hin. rewrite show_int_bytes in Hin by done.
  pose proof (format_uint_digits n Hn) as HF. rewrite Forall_forall in HF. by rewrite (HF c Hin) in Hc.
Qed.
Lemma hex_without c b : Hex.hex_digit c = false -> c ∉ bytes (hex b).
Proof.
  intros Hc Hin. unfold hex in Hin. rewrite bytes_of_bytes in Hin.
  pose proof (Hex.EncodeToString_digits b) as HF. rewrite Forall_forall in HF. by rewrite (HF c Hin) in Hc.
Qed.
Lemma parameter_without c prefix n : 0 <= n -> is_digit c = false -> c ∉ bytes prefix -> c ∉ bytes (prefix +:+ show_int n).
Proof. intros Hn Hc Hp. rewrite bytes_app. apply not_elem_of_app. split; [done|by apply digits_without]. Qed.
Ltac not_in := repeat (apply not_elem_of_cons; split; [done|]); apply not_elem_of_nil.

Lemma parseParameters_show m t p :
  0 < m < 2 ^ 32 -> 0 < t < 2 ^ 32 -> 0 < p < 2 ^ 8 ->
  parseParameters (show_parameters m t p) = inl {| memory := m; iterations := t; parallelism := p; keyLength := 0 |}.
Proof.
  intros Hm Ht Hp. unfold parseParameters, show_parameters.
  rewrite (Split_Join [_; _; _] comma) by (try done; repeat constructor; apply parameter_without; try lia; try done; not_in).
  rewrite !positive_parameter_show by done. done.
Qed.
Lemma decode_encoded m t p salt hash :
  0 < m <= maxMemory -> 0 < t <= maxIterations -> 0 < p <= maxParallelism ->
  0 < Z.of_nat (length salt) <= maxSaltLength -> 0 < Z.of_nat (length hash) <= maxKeyLength ->
  decode (encoded m t p salt hash) =
    inl ({| memory := m; iterations := t; parallelism := p; keyLength := Z.of_nat (length hash) |}, salt, hash).
Proof.
  unfold maxMemory, maxIterations, maxParallelism, maxSaltLength, maxKeyLength.
  intros Hm Ht Hp Hs Hh. unfold decode, encoded.
  rewrite (Split_Join [_; _; _; _; _] dollar); [|done|].
  2:{ repeat constructor; try (by apply hex_without); [not_in|apply parameter_without; try lia; try done; not_in|].
      unfold show_parameters. cbn [Join]. rewrite !bytes_app. rewrite !not_elem_of_app.
      split_and!; try (apply digits_without; [lia|done]); not_in. }
  rewrite (bool_decide_true _ eq_refl). cbn [negb guard_err]. rewrite rbind_inl, CutPrefix_app, rbind_inl.
  rewrite ParseUint_show by (unfold argon2_Version; lia). rewrite bool_decide_true by done. cbn [negb guard_err].
  rewrite rbind_inl, parseParameters_show, rbind_inl by lia.
  unfold hex. rewrite !bytes_of_bytes, !Hex.hex_decode_encode.
  destruct salt as [|x salt]; [simpl in Hs; lia|]. destruct hash as [|y hash]; [simpl in Hh; lia|].
  rewrite rbind_inl. unfold maxKeyLength. rewrite (proj2 (Z.leb_le _ _)) by lia. rewrite rbind_inl. cbn [memory iterations parallelism].
  unfold maxMemory, maxIterations, maxParallelism, maxSaltLength.
  rewrite !(proj2 (Z.ltb_ge _ _)) by lia. done.
Qed.
Section RoundTrips.
Context {X : SecretLib} {XL : SecretLaws X}.

Lemma decode_hash salt value :
  0 < Z.of_nat (length salt) <= maxSaltLength ->
  decode (hash_with salt value) =
    inl ({| memory := defaultMemory; iterations := defaultIterations; parallelism := defaultParallelism;
            keyLength := defaultKeyLength |}, salt,
         IDKey (bytes value) salt defaultIterations defaultMemory defaultParallelism defaultKeyLength).
Proof.
  intros Hs. unfold hash_with. pose proof (IDKey_length (bytes value) salt defaultIterations defaultMemory
    defaultParallelism defaultKeyLength ltac:(done)) as Hk.
  rewrite decode_encoded; try (by vm_compute); try done; rewrite Hk; [done|by vm_compute].
Qed.

(** A stored password hash opens for the password it was made of, and for another
    password only when Argon2id gives both the same key; its parameters are the
    current ones, so it is not hashed again. *)
Theorem password_roundtrip salt value other :
  0 < Z.of_nat (length salt) <= maxSaltLength ->
  password_Verify value (hash_with salt value) = true
  /\ (password_Verify other (hash_with salt value) = true <->
      IDKey (bytes other) salt defaultIterations defaultMemory defaultParallelism defaultKeyLength
        = IDKey (bytes value) salt defaultIterations defaultMemory defaultParallelism defaultKeyLength)
  /\ (length salt = defaultSaltLength -> NeedsRehash (hash_with salt value) = false).
Proof.
  intros Hs. unfold password_Verify, NeedsRehash. rewrite decode_hash by done.
  cbn [memory iterations parallelism keyLength]. split_and!.
  - by apply bool_decide_true.
  - apply bool_decide_eq_true.
  - intros Hl. rewrite !Z.eqb_refl, (bool_decide_true _ Hl). done.
Qed.

(** The prefix that is stored is the one its token shows. *)
Lemma ParseTokenPrefix_GenerateToken secret :
  length secret = secretBytes ->
  ParseTokenPrefix (fst (fst (GenerateToken secret))) = inl (snd (fst (GenerateToken secret))).
Proof.
  intros Hl. unfold GenerateToken, ParseTokenPrefix. cbn [fst snd].
  rewrite !bytes_app, !bytes_of_bytes. set (enc := Base64.EncodeToString secret).
  assert (8 < length enc)%nat as Hn.
  { unfold enc. rewrite Base64.encode_digits, length_fmap. do 9 (destruct secret as [|? secret]; [done|]). cbn. lia. }
  assert (length (bytes tokenPrefix) = 7%nat) as Hp by done.
  assert (length (take 8 enc) = 8%nat) as H8 by (rewrite length_take; lia).
  rewrite !length_app, Hp, H8. rewrite (proj2 (Z.ltb_ge _ _)) by (simpl; lia).
  rewrite <- !app_assoc, take_app_length', (bool_decide_true _ eq_refl) by done. cbn [orb negb].
  rewrite lookup_app_r by lia. rewrite Hp. replace (7 + 8 - 7)%nat with (length (take 8 enc) + 0)%nat by lia.
  rewrite lookup_app_r by lia. rewrite Nat.add_0_r, Nat.sub_diag. cbn [lookup list_lookup app bytes String.list_ascii_of_string].
  rewrite bool_decide_true by done. rewrite bool_decide_false by (simpl; lia). cbn [orb negb].
  f_equal. apply bytes_inj. rewrite bytes_of_bytes, bytes_app, bytes_of_bytes, app_assoc.
  apply take_app_length'. rewrite length_app. lia.
Qed.
Lemma token_Verify_Hash value : token_Verify value (token_Hash value) = true.
Proof. by apply bool_decide_true. Qed.
End RoundTrips.

(** Keys and digests made of their arguments. *)
#[local] Instance toy_secrets : SecretLib := {|
  IDKey p s t m w n := take (Z.to_nat n) (p ++ s ++ replicate (Z.to_nat n) "k"%char);
  Sum256 b := take 32 (b ++ replicate 32 "s"%char);
  random_bytes n len := replicate len (Base64.byte_of (n mod 256));
  random_int n limit := n mod limit |}.
#[export] Instance toy_secret_laws : SecretLaws toy_secrets.
Proof.
  split; simpl.
  - intros p s t m w n Hn. rewrite length_take, !length_app, length_replicate. lia.
  - intros b. rewrite length_take, length_app. cbn [length]. lia.
  - intros n len. apply length_replicate.
  - intros n limit Hl. by apply Z.mod_pos_bound.
Qed.
Lemma password_roundtrip_witness :
  password_Verify "correct horse" (hash_with (random_bytes 7 16) "correct horse") = true
  /\ password_Verify "battery" (hash_with (random_bytes 7 16) "correct horse") = false.
Proof.
  split; [|vm_compute; reflexivity].
  refine (proj1 (password_roundtrip (random_bytes 7 16) "correct horse" "battery" _)). vm_compute. done.
Defined.
End Secrets.
