(* ===== verification/IdentityStore.v ===== *)
(** * Users, sessions and organizations: the state and its tables

    The rows of [migrations/002_create_users.sql], [003_create_authentication.sql],
    [004_create_sessions.sql], [005_create_organizations.sql],
    [006_create_organization_members.sql] and [008_create_organization_tokens.sql]
    with their constraints, and the statements of [database/queries/users.sql],
    [auth_transactions.sql], [auth_challenges.sql], [sessions.sql],
    [organizations.sql], [organization_members.sql] and [organization_tokens.sql]
    that code calls. *)

From stdpp Require Import sorting.
From S2P Require Import Prelude Programs.
Local Open Scope Z_scope.

Module IdentityStore.
Import Programs.

(** Outside the repository: the key under which [CITEXT] compares, the text of an
    address [netip.ParseAddr] reads, and the text of an error. *)
Class IdentityLib := {
  citext : string -> string;
  ParseAddr : string -> option string;
}.

(** ** Rows ([is_platform_admin], which the back office reads, is left out) *)
Record User := {
  u_ID : UUID; u_Email : string; u_EmailVerified : bool; u_Name : option string;
  u_PasswordHash : option string; u_DisabledAt : option Z; u_CreatedAt : Z; u_UpdatedAt : Z;
}.
Record AuthTransaction := {
  t_ID : UUID; t_Identifier : string; t_UserID : option UUID; t_State : string;
  t_SelectedMethod : option string; t_ExpiresAt : Z; t_CreatedAt : Z; t_UpdatedAt : Z;
}.
Record AuthChallenge := {
  ch_ID : UUID; ch_AuthTransactionID : option UUID; ch_Identifier : string; ch_SecretHash : string;
  ch_Purpose : string; ch_State : string; ch_Attempts : Z; ch_MaxAttempts : Z; ch_ExpiresAt : Z;
  ch_ConsumedAt : option Z; ch_CreatedAt : Z;
}.
Record Session := {
  s_ID : UUID; s_UserID : UUID; s_TokenHash : string; s_Assurance : string; s_IpAddress : option string;
  s_UserAgent : option string; s_ExpiresAt : Z; s_LastSeenAt : option Z; s_RevokedAt : option Z; s_CreatedAt : Z;
}.
Record Organization := {
  o_ID : UUID; o_Name : string; o_Status : string; o_CreatedAt : Z; o_UpdatedAt : Z; o_DeletedAt : option Z;
}.
Record OrganizationMember := {
  m_OrganizationID : UUID; m_UserID : UUID; m_Role : string; m_Status : string; m_CreatedAt : Z; m_UpdatedAt : Z;
}.
(** [scopes] is a JSON array of strings, which the code writes and reads with
    [encoding/json]. *)
Record OrganizationToken := {
  k_ID : UUID; k_OrganizationID : UUID; k_CreatedBy : option UUID; k_Name : string; k_Description : option string;
  k_TokenHash : string; k_TokenPrefix : string; k_Scopes : list string; k_LastUsedAt : option Z;
  k_LastUsedIp : option string; k_ExpiresAt : option Z; k_DisabledAt : option Z; k_CreatedAt : Z; k_UpdatedAt : Z;
}.

(** ** The state

    [past]: the password hashes users have had, which the theorems speak of; the
    tables keep only the present one. *)
Record State := {
  users : gmap UUID User;
  transactions : gmap UUID AuthTransaction;
  challenges : gmap UUID AuthChallenge;
  sessions : gmap UUID Session;
  organizations : gmap UUID Organization;
  members : gmap (UUID * UUID) OrganizationMember;
  tokens : gmap UUID OrganizationToken;
  past : list (UUID * string);
  now : Z;
  next : Z;
}.
Definition set_users (m : gmap UUID User) (s : State) : State :=
  {| users := m; transactions := transactions s; challenges := challenges s; sessions := sessions s;
     organizations := organizations s; members := members s; tokens := tokens s; past := past s;
     now := now s; next := next s |}.
Definition set_transactions (m : gmap UUID AuthTransaction) (s : State) : State :=
  {| users := users s; transactions := m; challenges := challenges s; sessions := sessions s;
     organizations := organizations s; members := members s; tokens := tokens s; past := past s;
     now := now s; next := next s |}.
Definition set_challenges (m : gmap UUID AuthChallenge) (s : State) : State :=
  {| users := users s; transactions := transactions s; challenges := m; sessions := sessions s;
     organizations := organizations s; members := members s; tokens := tokens s; past := past s;
     now := now s; next := next s |}.
Definition set_sessions (m : gmap UUID Session) (s : State) : State :=
  {| users := users s; transactions := transactions s; challenges := challenges s; sessions := m;
     organizations := organizations s; members := members s; tokens := tokens s; past := past s;
     now := now s; next := next s |}.
Definition set_organizations (m : gmap UUID Organization) (s : State) : State :=
  {| users := users s; transactions := transactions s; challenges := challenges s; sessions := sessions s;
     organizations := m; members := members s; tokens := tokens s; past := past s;
     now := now s; next := next s |}.
Definition set_members (m : gmap (UUID * UUID) OrganizationMember) (s : State) : State :=
  {| users := users s; transactions := transactions s; challenges := challenges s; sessions := sessions s;
     organizations := organizations s; members := m; tokens := tokens s; past := past s;
     now := now s; next := next s |}.
Definition set_tokens (m : gmap UUID OrganizationToken) (s : State) : State :=
  {| users := users s; transactions := transactions s; challenges := challenges s; sessions := sessions s;
     organizations := organizations s; members := members s; tokens := m; past := past s;
     now := now s; next := next s |}.
Definition log_password (u : UUID) (h : string) (s : State) : State :=
  {| users := users s; transactions := transactions s; challenges := challenges s; sessions := sessions s;
     organizations := organizations s; members := members s; tokens := tokens s; past := past s ++ [(u, h)];
     now := now s; next := next s |}.
(** Generated identifiers and reads of the random source are numbered. *)
Definition fresh (s : State) : Z * State :=
  (next s, {| users := users s; transactions := transactions s; challenges := challenges s; sessions := sessions s;
     organizations := organizations s; members := members s; tokens := tokens s; past := past s;
     now := now s; next := next s + 1 |}).
Definition time_now (s : State) : Z * State := (now s, s).
(** [rand.Read], which can fail. *)
Definition draw : prog State Z := call (fun s => let (n, s') := fresh s in (inl n, s')).

Definition rows_of {K} `{Countable K} {A} (m : gmap K A) : list A := snd <$> map_to_list m.
Definition some_row {A} (o : option A) : result A := match o with Some a => inl a | None => no_rows end.
Definition foreign_key (table : string) : error := PgError "23503" table.
Definition opt_in {A} (m : gmap UUID A) (o : option UUID) : bool :=
  match o with Some id => bool_decide (is_Some (m !! id)) | None => true end.

Section Store.
Context {I : IdentityLib}.

(** ** Users *)
Definition enabled (u : User) : bool := bool_decide (u_DisabledAt u = None).
Definition active_user (s : State) (id : UUID) : option User :=
  match users s !! id with Some u => if enabled u then Some u else None | None => None end.
Definition email_is (email : string) (u : User) : bool := bool_decide (citext (u_Email u) = citext email).
Definition put_user (u : User) (s : State) : result (User * State) :=
  if negb (is_text (u_Email u) && opt_text (u_Name u) && opt_text (u_PasswordHash u))
  then inr (PgError "22021" "users") else
  if existsb (fun u' => negb (bool_decide (u_ID u' = u_ID u)) && email_is (u_Email u) u') (rows_of (users s))
  then inr (unique_violation "users_email_key") else
  inl (u, set_users (<[u_ID u := u]> (users s)) s).
Definition update_user (id : UUID) (f : User -> User) (s : State) : result (User * State) :=
  match active_user s id with Some u => put_user (f u) s | None => no_rows end.

Definition CreateUser (id : UUID) (name : option string) (email : string) (hash : option string) (s : State)
    : result (User * State) :=
  put_user {| u_ID := id; u_Email := email; u_EmailVerified := false; u_Name := name; u_PasswordHash := hash;
              u_DisabledAt := None; u_CreatedAt := now s; u_UpdatedAt := now s |} s.
Definition GetUserByID (id : UUID) (s : State) : result User := some_row (active_user s id).
Definition GetUserByEmail (email : string) (s : State) : result User :=
  some_row (find (fun u => email_is email u && enabled u) (rows_of (users s))).
Definition with_account (t : Z) (verified : bool) (name hash : option string) (disabled : option Z) (u : User) : User :=
  {| u_ID := u_ID u; u_Email := u_Email u; u_EmailVerified := verified; u_Name := name; u_PasswordHash := hash;
     u_DisabledAt := disabled; u_CreatedAt := u_CreatedAt u; u_UpdatedAt := t |}.
Definition SetUserPassword (id : UUID) (hash : string) (s : State) : result (User * State) :=
  let? ' (u, s') := update_user id (fun u =>
    with_account (now s) (u_EmailVerified u) (u_Name u) (Some hash) (u_DisabledAt u) u) s in
  inl (u, log_password id hash s').
Definition MarkUserEmailVerified (id : UUID) (s : State) : result (User * State) :=
  update_user id (fun u => with_account (now s) true (u_Name u) (u_PasswordHash u) (u_DisabledAt u) u) s.
Definition UpdateUserProfile (id : UUID) (name : option string) (s : State) : result (User * State) :=
  update_user id (fun u =>
    with_account (now s) (u_EmailVerified u) (match name with Some n => Some n | None => u_Name u end)
      (u_PasswordHash u) (u_DisabledAt u) u) s.
(** [:exec]: no row is no error. *)
Definition DisableUser (id : UUID) (s : State) : result (unit * State) :=
  match active_user s id with
  | Some u => inl (tt, set_users (<[u_ID u :=
      with_account (now s) (u_EmailVerified u) (u_Name u) (u_PasswordHash u) (Some (now s)) u]> (users s)) s)
  | None => inl (tt, s)
  end.

(** ** Authentication transactions *)
Definition closed_states : list string := ["authenticated"; "expired"].
Definition CreateAuthTransaction (id : UUID) (identifier : string) (user : option UUID) (expires : Z) (s : State)
    : result (AuthTransaction * State) :=
  let t := {| t_ID := id; t_Identifier := identifier; t_UserID := user; t_State := "started"; t_SelectedMethod := None;
              t_ExpiresAt := expires; t_CreatedAt := now s; t_UpdatedAt := now s |} in
  if negb (is_text identifier) then inr (PgError "22021" "auth_transactions") else
  if negb (now s <? expires) then inr (check_violation "chk_auth_transactions_expiry") else
  if negb (opt_in (users s) user) then inr (foreign_key "auth_transactions") else
  inl (t, set_transactions (<[id := t]> (transactions s)) s).
Definition GetAuthTransactionByID (id : UUID) (s : State) : result AuthTransaction :=
  match transactions s !! id with
  | Some t => if (now s <? t_ExpiresAt t) && negb (bool_decide (t_State t ∈ closed_states)) then inl t else no_rows
  | None => no_rows
  end.
Definition with_state (t : Z) (state : string) (a : AuthTransaction) : AuthTransaction :=
  {| t_ID := t_ID a; t_Identifier := t_Identifier a; t_UserID := t_UserID a; t_State := state;
     t_SelectedMethod := t_SelectedMethod a; t_ExpiresAt := t_ExpiresAt a; t_CreatedAt := t_CreatedAt a;
     t_UpdatedAt := t |}.
Definition MarkAuthTransactionAuthenticated (id : UUID) (s : State) : result (AuthTransaction * State) :=
  match transactions s !! id with
  | Some t =>
      if (now s <? t_ExpiresAt t) && negb (bool_decide (t_State t = "expired")) then
        let t' := with_state (now s) "authenticated" t in
        inl (t', set_transactions (<[id := t']> (transactions s)) s)
      else no_rows
  | None => no_rows
  end.
Definition ExpireAuthTransaction (id : UUID) (s : State) : result (unit * State) :=
  match transactions s !! id with
  | Some t =>
      if bool_decide (t_State t ∈ closed_states) then inl (tt, s)
      else inl (tt, set_transactions (<[id := with_state (now s) "expired" t]> (transactions s)) s)
  | None => inl (tt, s)
  end.

(** ** Challenges *)
Definition purposes : list string := ["email_otp"; "email_verification"; "password_reset"; "magic_link"].
(** [state]: the bytes that are sent, [nil] being SQL's [NULL]. *)
Definition CreateAuthChallenge (id : UUID) (transaction : option UUID) (identifier hash purpose : string)
    (state : option string) (max_attempts expires : Z) (s : State) : result (AuthChallenge * State) :=
  match state with
  | None => inr (PgError "23502" "auth_challenges")
  | Some state =>
      let c := {| ch_ID := id; ch_AuthTransactionID := transaction; ch_Identifier := identifier; ch_SecretHash := hash;
                  ch_Purpose := purpose; ch_State := state; ch_Attempts := 0; ch_MaxAttempts := max_attempts;
                  ch_ExpiresAt := expires; ch_ConsumedAt := None; ch_CreatedAt := now s |} in
      if negb (bool_decide (purpose ∈ purposes)) then inr (check_violation "chk_auth_challenges_purpose") else
      if negb (0 <? max_attempts) then inr (check_violation "chk_auth_challenges_max_attempts") else
      if negb (now s <? expires) then inr (check_violation "chk_auth_challenges_expiry") else
      if negb (opt_in (transactions s) transaction) then inr (foreign_key "auth_challenges") else
      inl (c, set_challenges (<[id := c]> (challenges s)) s)
  end.
Definition open_challenge (s : State) (c : AuthChallenge) : bool :=
  bool_decide (ch_ConsumedAt c = None) && (now s <? ch_ExpiresAt c) && (ch_Attempts c <? ch_MaxAttempts c).
Definition newer (a b : AuthChallenge) : Prop := ch_CreatedAt b <= ch_CreatedAt a.
#[local] Instance newer_dec : RelDecision newer.
Proof. intros a b. unfold newer. apply _. Defined.
Definition GetActiveAuthChallenge (transaction : UUID) (purpose : string) (s : State) : result AuthChallenge :=
  some_row (head (merge_sort newer (filter (fun c =>
    bool_decide (ch_AuthTransactionID c = Some transaction) && bool_decide (ch_Purpose c = purpose)
    && open_challenge s c = true) (rows_of (challenges s))))).
Definition with_use (attempts : Z) (consumed : option Z) (c : AuthChallenge) : AuthChallenge :=
  {| ch_ID := ch_ID c; ch_AuthTransactionID := ch_AuthTransactionID c; ch_Identifier := ch_Identifier c;
     ch_SecretHash := ch_SecretHash c; ch_Purpose := ch_Purpose c; ch_State := ch_State c; ch_Attempts := attempts;
     ch_MaxAttempts := ch_MaxAttempts c; ch_ExpiresAt := ch_ExpiresAt c; ch_ConsumedAt := consumed;
     ch_CreatedAt := ch_CreatedAt c |}.
Definition update_challenge (id : UUID) (f : AuthChallenge -> AuthChallenge) (s : State) : result (AuthChallenge * State) :=
  match challenges s !! id with
  | Some c => if open_challenge s c then inl (f c, set_challenges (<[id := f c]> (challenges s)) s) else no_rows
  | None => no_rows
  end.
Definition IncrementAuthChallengeAttempts (id : UUID) (s : State) : result (AuthChallenge * State) :=
  update_challenge id (fun c => with_use (ch_Attempts c + 1) (ch_ConsumedAt c) c) s.
Definition ConsumeAuthChallenge (id : UUID) (s : State) : result (AuthChallenge * State) :=
  update_challenge id (fun c => with_use (ch_Attempts c) (Some (now s)) c) s.

(** ** Sessions *)
Definition assurances : list string := ["unknown"; "password"; "otp"; "mfa"].
Definition CreateSession (id user : UUID) (hash assurance : string) (ip agent : option string) (expires : Z) (s : State)
    : result (Session * State) :=
  match active_user s user with
  | None => no_rows
  | Some _ =>
      let x := {| s_ID := id; s_UserID := user; s_TokenHash := hash; s_Assurance := assurance; s_IpAddress := ip;
                  s_UserAgent := agent; s_ExpiresAt := expires; s_LastSeenAt := Some (now s); s_RevokedAt := None;
                  s_CreatedAt := now s |} in
      if negb (is_text hash && opt_text agent) then inr (PgError "22021" "sessions") else
      if negb (bool_decide (assurance ∈ assurances)) then inr (check_violation "chk_sessions_assurance") else
      if negb (now s <? expires) then inr (check_violation "chk_sessions_expiry") else
      if existsb (fun x' => bool_decide (s_TokenHash x' = hash)) (rows_of (sessions s))
      then inr (unique_violation "sessions_token_hash_key") else
      inl (x, set_sessions (<[id := x]> (sessions s)) s)
  end.
Definition live_session (s : State) (x : Session) : bool :=
  (now s <? s_ExpiresAt x) && bool_decide (s_RevokedAt x = None) && bool_decide (is_Some (active_user s (s_UserID x))).
Definition GetSessionByTokenHash (hash : string) (s : State) : result Session :=
  some_row (find (fun x => bool_decide (s_TokenHash x = hash) && live_session s x) (rows_of (sessions s))).
(** [NULLS LAST]; every session that is created has been seen. *)
Definition last_seen (a b : Session) : Prop :=
  match s_LastSeenAt a, s_LastSeenAt b with
  | Some x, Some y => y <= x
  | _, None => True
  | None, Some _ => False
  end.
#[local] Instance last_seen_dec : RelDecision last_seen.
Proof. intros a b. unfold last_seen. destruct (s_LastSeenAt a), (s_LastSeenAt b); apply _. Defined.
Definition ListSessionsByUserID (user : UUID) (s : State) : list Session :=
  merge_sort last_seen (filter (fun x => bool_decide (s_UserID x = user) && live_session s x = true) (rows_of (sessions s))).
Definition revoked (t : Z) (x : Session) : Session :=
  {| s_ID := s_ID x; s_UserID := s_UserID x; s_TokenHash := s_TokenHash x; s_Assurance := s_Assurance x;
     s_IpAddress := s_IpAddress x; s_UserAgent := s_UserAgent x; s_ExpiresAt := s_ExpiresAt x;
     s_LastSeenAt := s_LastSeenAt x; s_RevokedAt := match s_RevokedAt x with Some r => Some r | None => Some t end;
     s_CreatedAt := s_CreatedAt x |}.
Definition revoke_where (p : Session -> bool) (s : State) : State :=
  set_sessions ((fun x => if p x then revoked (now s) x else x) <$> sessions s) s.
Definition RevokeSession (id user : UUID) (s : State) : result (unit * State) :=
  inl (tt, revoke_where (fun x => bool_decide (s_ID x = id) && bool_decide (s_UserID x = user)) s).
Definition RevokeUserSessions (user : UUID) (s : State) : result (unit * State) :=
  inl (tt, revoke_where (fun x => bool_decide (s_UserID x = user)) s).

(** ** Organizations *)
Definition active_org (o : Organization) : bool :=
  bool_decide (o_Status o = "active") && bool_decide (o_DeletedAt o = None).
Definition open_org (s : State) (id : UUID) : option Organization :=
  match organizations s !! id with Some o => if active_org o then Some o else None | None => None end.
Definition new_member (t : Z) (org user : UUID) (role : string) : OrganizationMember :=
  {| m_OrganizationID := org; m_UserID := user; m_Role := role; m_Status := "active"; m_CreatedAt := t; m_UpdatedAt := t |}.
Definition CreateOrganizationWithOwner (id : UUID) (name : string) (user : UUID) (s : State)
    : result (Organization * State) :=
  match active_user s user with
  | None => no_rows
  | Some _ =>
      if negb (is_text name) then inr (PgError "22021" "organizations") else
      let o := {| o_ID := id; o_Name := name; o_Status := "active"; o_CreatedAt := now s; o_UpdatedAt := now s;
                  o_DeletedAt := None |} in
      inl (o, set_members (<[(id, user) := new_member (now s) id user "owner"]> (members s))
                (set_organizations (<[id := o]> (organizations s)) s))
  end.
Definition GetOrganizationByID (id : UUID) (s : State) : result Organization := some_row (open_org s id).
Definition with_org (t : Z) (name status : string) (deleted : option Z) (o : Organization) : Organization :=
  {| o_ID := o_ID o; o_Name := name; o_Status := status; o_CreatedAt := o_CreatedAt o; o_UpdatedAt := t;
     o_DeletedAt := deleted |}.
Definition UpdateOrganization (id : UUID) (name : option string) (s : State) : result (Organization * State) :=
  match open_org s id with
  | None => no_rows
  | Some o =>
      if negb (opt_text name) then inr (PgError "22021" "organizations") else
      let o' := with_org (now s) (default (o_Name o) name) (o_Status o) (o_DeletedAt o) o in
      inl (o', set_organizations (<[id := o']> (organizations s)) s)
  end.
Definition DeleteOrganization (id : UUID) (s : State) : result (unit * State) :=
  match organizations s !! id with
  | Some o =>
      if bool_decide (o_DeletedAt o = None)
      then inl (tt, set_organizations (<[id := with_org (now s) (o_Name o) "disabled" (Some (now s)) o]> (organizations s)) s)
      else inl (tt, s)
  | None => inl (tt, s)
  end.

(** ** Members *)
Definition roles : list string := ["owner"; "admin"; "member"].
(** The active memberships, whatever the user and the organization. *)
Definition active_member (s : State) (org user : UUID) : option OrganizationMember :=
  match members s !! (org, user) with
  | Some m => if bool_decide (m_Status m = "active") then Some m else None
  | None => None
  end.
(** [EXISTS (... actor ... status = 'active' AND role IN ('owner', 'admin'))]. *)
Definition is_admin (s : State) (org actor : UUID) : bool :=
  match active_member s org actor with
  | Some m => bool_decide (m_Role m ∈ ["owner"; "admin"]%string)
  | None => false
  end.
Definition AddOrganizationMember (org user : UUID) (role : string) (actor : UUID) (s : State)
    : result (OrganizationMember * State) :=
  match active_user s user with
  | None => no_rows
  | Some _ =>
      if negb (is_admin s org actor) then no_rows else
      if negb (bool_decide (role ∈ roles)) then inr (check_violation "chk_organization_members_role") else
      if bool_decide (is_Some (members s !! (org, user))) then inr (unique_violation "organization_members_pkey") else
      let m := new_member (now s) org user role in
      inl (m, set_members (<[(org, user) := m]> (members s)) s)
  end.
Definition GetOrganizationMember (org user : UUID) (s : State) : result OrganizationMember :=
  match active_member s org user with
  | Some m =>
      if bool_decide (is_Some (active_user s user)) && bool_decide (is_Some (open_org s org)) then inl m else no_rows
  | None => no_rows
  end.
Definition oldest_member (a b : OrganizationMember) : Prop := m_CreatedAt a <= m_CreatedAt b.
#[local] Instance oldest_member_dec : RelDecision oldest_member.
Proof. intros a b. unfold oldest_member. apply _. Defined.
Definition ListMembersByOrganizationID (org : UUID) (s : State) : list OrganizationMember :=
  merge_sort oldest_member (filter (fun m => bool_decide (m_OrganizationID m = org) && bool_decide (m_Status m = "active")
    && bool_decide (is_Some (active_user s (m_UserID m))) = true) (rows_of (members s))).
Definition with_member (t : Z) (role status : string) (m : OrganizationMember) : OrganizationMember :=
  {| m_OrganizationID := m_OrganizationID m; m_UserID := m_UserID m; m_Role := role; m_Status := status;
     m_CreatedAt := m_CreatedAt m; m_UpdatedAt := t |}.
(** [WHERE target... AND target.status = 'active' AND EXISTS (actor) AND target.role <> 'owner']. *)
Definition subordinate (s : State) (org user actor : UUID) : option OrganizationMember :=
  match active_member s org user with
  | Some m => if is_admin s org actor && negb (bool_decide (m_Role m = "owner")) then Some m else None
  | None => None
  end.
Definition UpdateMemberRole (role : string) (org user actor : UUID) (s : State) : result (OrganizationMember * State) :=
  match subordinate s org user actor with
  | None => no_rows
  | Some m =>
      if negb (bool_decide (role ∈ roles)) then inr (check_violation "chk_organization_members_role") else
      let m' := with_member (now s) role (m_Status m) m in
      inl (m', set_members (<[(org, user) := m']> (members s)) s)
  end.
Definition DisableOrganizationMember (org user actor : UUID) (s : State) : result (unit * State) :=
  match subordinate s org user actor with
  | None => inl (tt, s)
  | Some m => inl (tt, set_members (<[(org, user) := with_member (now s) (m_Role m) "disabled" m]> (members s)) s)
  end.
(** An organization of the user, with the role. *)
Definition newest_org (a b : Organization * string) : Prop := o_CreatedAt (fst b) <= o_CreatedAt (fst a).
#[local] Instance newest_org_dec : RelDecision newest_org.
Proof. intros a b. unfold newest_org. apply _. Defined.
Definition ListOrganizationsByUserID (user : UUID) (s : State) : list (Organization * string) :=
  merge_sort newest_org (omap (fun o =>
    match GetOrganizationMember (o_ID o) user s with inl m => Some (o, m_Role m) | inr _ => None end)
    (rows_of (organizations s))).

(** ** Organization tokens *)
(** [scopes::jsonb]: a nil slice is JSON's [null], which is no array. *)
Definition name_clash (k k' : OrganizationToken) : bool :=
  negb (bool_decide (k_ID k' = k_ID k)) && bool_decide (k_OrganizationID k' = k_OrganizationID k)
  && bool_decide (k_Name k' = k_Name k) && bool_decide (k_DisabledAt k' = None) && bool_decide (k_DisabledAt k = None).
Definition put_token (k : OrganizationToken) (s : State) : result (OrganizationToken * State) :=
  if negb (is_text (k_Name k) && opt_text (k_Description k) && is_text (k_TokenHash k) && is_text (k_TokenPrefix k))
  then inr (PgError "22021" "organization_tokens") else
  if negb (match k_ExpiresAt k with Some e => k_CreatedAt k <? e | None => true end)
  then inr (check_violation "chk_organization_tokens_expires_after_created") else
  if existsb (name_clash k) (rows_of (tokens s))
  then inr (unique_violation "idx_organization_tokens_organization_name_active") else
  if existsb (fun k' => negb (bool_decide (k_ID k' = k_ID k)) && bool_decide (k_TokenHash k' = k_TokenHash k)) (rows_of (tokens s))
  then inr (unique_violation "idx_organization_tokens_token_hash") else
  inl (k, set_tokens (<[k_ID k := k]> (tokens s)) s).
Definition CreateOrganizationToken (id org creator : UUID) (name : string) (description : option string)
    (hash prefix : string) (scopes : option (list string)) (expires : option Z) (s : State)
    : result (OrganizationToken * State) :=
  if negb (bool_decide (is_Some (open_org s org)) && bool_decide (is_Some (active_user s creator)) && is_admin s org creator)
  then no_rows else
  match scopes with
  | None => inr (check_violation "chk_organization_tokens_scopes_is_array")
  | Some scopes =>
      put_token {| k_ID := id; k_OrganizationID := org; k_CreatedBy := Some creator; k_Name := name;
                   k_Description := description; k_TokenHash := hash; k_TokenPrefix := prefix; k_Scopes := scopes;
                   k_LastUsedAt := None; k_LastUsedIp := None; k_ExpiresAt := expires; k_DisabledAt := None;
                   k_CreatedAt := now s; k_UpdatedAt := now s |} s
  end.
Definition usable_token (s : State) (k : OrganizationToken) : bool :=
  bool_decide (k_DisabledAt k = None) && match k_ExpiresAt k with Some e => now s <? e | None => true end
  && bool_decide (is_Some (open_org s (k_OrganizationID k))).
Definition GetOrganizationTokenByTokenHash (hash : string) (s : State) : result OrganizationToken :=
  some_row (find (fun k => bool_decide (k_TokenHash k = hash) && usable_token s k) (rows_of (tokens s))).
Definition own_token (s : State) (org id : UUID) : option OrganizationToken :=
  match tokens s !! id with
  | Some k => if bool_decide (k_OrganizationID k = org) && bool_decide (is_Some (open_org s org)) then Some k else None
  | None => None
  end.
Definition GetOrganizationTokenByID (org id : UUID) (s : State) : result OrganizationToken := some_row (own_token s org id).
Definition newest_token (a b : OrganizationToken) : Prop := k_CreatedAt b <= k_CreatedAt a.
#[local] Instance newest_token_dec : RelDecision newest_token.
Proof. intros a b. unfold newest_token. apply _. Defined.
Definition ListOrganizationTokensByOrganizationID (org : UUID) (s : State) : list OrganizationToken :=
  merge_sort newest_token (filter (fun k => bool_decide (k_OrganizationID k = org)
    && bool_decide (is_Some (open_org s org)) = true) (rows_of (tokens s))).
Definition with_token (t : Z) (name : string) (description : option string) (scopes : list string)
    (expires disabled : option Z) (k : OrganizationToken) : OrganizationToken :=
  {| k_ID := k_ID k; k_OrganizationID := k_OrganizationID k; k_CreatedBy := k_CreatedBy k; k_Name := name;
     k_Description := description; k_TokenHash := k_TokenHash k; k_TokenPrefix := k_TokenPrefix k; k_Scopes := scopes;
     k_LastUsedAt := k_LastUsedAt k; k_LastUsedIp := k_LastUsedIp k; k_ExpiresAt := expires; k_DisabledAt := disabled;
     k_CreatedAt := k_CreatedAt k; k_UpdatedAt := t |}.
Definition or_else {A} (a b : option A) : option A := match a with Some _ => a | None => b end.
Definition UpdateOrganizationToken (id org actor : UUID) (name description : option string)
    (scopes : option (list string)) (expires : option Z) (s : State) : result (OrganizationToken * State) :=
  match own_token s org id with
  | None => no_rows
  | Some k =>
      if negb (is_admin s org actor) then no_rows else
      put_token (with_token (now s) (default (k_Name k) name) (or_else description (k_Description k))
                   (default (k_Scopes k) scopes) (or_else expires (k_ExpiresAt k)) (k_DisabledAt k) k) s
  end.
Definition DisableOrganizationToken (id org actor : UUID) (s : State) : result (unit * State) :=
  match tokens s !! id with
  | Some k =>
      if bool_decide (k_OrganizationID k = org) && bool_decide (k_DisabledAt k = None) && is_admin s org actor
      then inl (tt, set_tokens (<[id := with_token (now s) (k_Name k) (k_Description k) (k_Scopes k) (k_ExpiresAt k)
                                          (Some (now s)) k]> (tokens s)) s)
      else inl (tt, s)
  | None => inl (tt, s)
  end.
End Store.
End IdentityStore.
