(* ===== verification/Identity.v ===== *)
(** * Authentication, sessions and users

    [identity/auth], [identity/session], [identity/users] and [security/authn]: the
    services, the handlers that log a user in, and the resolution of the credential
    of a request ([platform/middleware/authn.go]). *)

From S2P Require Import Prelude Encryption Programs Routing Paths Secrets IdentityStore.
Local Open Scope Z_scope.

Module Identity.
Import AppErr Programs Secrets IdentityStore.

(** An [INSERT] whose key the database generates. *)
Definition insert {A} (f : UUID -> State -> result (A * State)) : prog State A :=
  exec (fun s => let (id, s') := fresh s in f id s').

(** ** Assurance (security/authn/assurance.go) *)
Definition AssuranceUnknown : Z := 0.
Definition AssurancePassword : Z := 1.
Definition AssuranceOTP : Z := 2.
Definition AssuranceMFA : Z := 3.
Definition Assurance_String (a : Z) : string :=
  if a =? AssurancePassword then "password" else
  if a =? AssuranceOTP then "otp" else
  if a =? AssuranceMFA then "mfa" else "unknown".

Section Identity.
Context {I : IdentityLib} {X : SecretLib} {U : UuidLib}.

(** ** Authentication (identity/auth) *)
Definition normalizeEmail (email : string) : string := ToLower (TrimSpace email).
Definition validateStartRequest (email : string) : result string :=
  let email := normalizeEmail email in
  if bool_decide (email = "") then inr (NewBadRequest "email is required") else inl email.
Definition validateTransactionID (value : string) : result UUID :=
  let value := TrimSpace value in
  if bool_decide (value = "") then inr (NewBadRequest "transaction_id is required") else
  match uuid_Parse value with
  | Some id => inl id
  | None => inr (NewBadRequest "invalid transaction_id")
  end.
Definition validatePasswordLoginRequest (transaction password : string) : result UUID :=
  let? id := validateTransactionID transaction in
  if bool_decide (password = "") then inr (NewBadRequest "password is required") else inl id.
Definition validateVerifyOTPRequest (transaction code : string) : result (UUID * string) :=
  let? id := validateTransactionID transaction in
  let code := TrimSpace code in
  if bool_decide (code = "") then inr (NewBadRequest "code is required") else inl (id, code).
Definition validateSetPasswordRequest (password : string) : result unit :=
  guard_err (bool_decide (password = "")) (NewBadRequest "password is required").

Definition Start (email : string) : prog State AuthTransaction :=
  let email := normalizeEmail email in
  raise_if (bool_decide (email = "")) (NewBadRequest "email is required") ;*
  let* user := query (GetUserByEmail email) in
  let* t := local time_now in
  insert (fun id => CreateAuthTransaction id email (Some (u_ID user)) (t + 10 * Minute)).

(** [if err != nil { return ..., e }]: the error is replaced. *)
Definition failing {A} (e : error) (p : prog State A) : prog State A := wrap_ (fun _ => e) p.

Definition getValidTransaction (id : UUID) : prog State AuthTransaction :=
  raise_if (bool_decide (id = uuid_Nil)) (NewBadRequest "invalid transaction_id") ;*
  let* t := failing (NewUnauthorized "invalid authentication transaction") (query (GetAuthTransactionByID id)) in
  let* n := local time_now in
  if t_ExpiresAt t <? n then
    attempt_ (exec (ExpireAuthTransaction id)) ;*
    raise (NewUnauthorized "authentication transaction has expired")
  else done_ t.
Definition invalid_credentials : error := NewUnauthorized "invalid credentials".
Definition has_password (u : User) : bool :=
  match u_PasswordHash u with Some h => negb (bool_decide (h = "")) | None => false end.
Definition LoginWithPassword (id : UUID) (value : string) : prog State User :=
  let* t := getValidTransaction id in
  match t_UserID t with
  | None => raise invalid_credentials
  | Some uid =>
      let* user := failing invalid_credentials (query (GetUserByID uid)) in
      raise_if (negb (enabled user)) (NewUnauthorized "account is disabled") ;*
      raise_if (negb (has_password user)) (NewBadRequest "password is not enrolled") ;*
      raise_if (negb (password_Verify value (default "" (u_PasswordHash user)))) invalid_credentials ;*
      exec (MarkAuthTransactionAuthenticated id) ;*
      done_ user
  end.
Definition SetPassword (user : UUID) (value : string) : prog State User :=
  raise_if (bool_decide (user = uuid_Nil)) (NewUnauthorized "authentication required") ;*
  let* n := wrap_ (fun e => NewInternal "failed to hash password" (Wrapf "generate password salt: %w" [] e)) draw in
  exec (SetUserPassword user (hash_with (random_bytes n defaultSaltLength) value)).

Definition SendOTP (id : UUID) : prog State string :=
  let* t := getValidTransaction id in
  let* n := wrap_ (fun e => NewInternal "failed to generate authentication code" (Wrapf "generate OTP: %w" [] e)) draw in
  let* code := wrap_ (NewInternal "failed to generate authentication code") (lift_ (GenerateNumeric n 6)) in
  let* now_ := local time_now in
  insert (fun cid => CreateAuthChallenge cid (Some id) (t_Identifier t) (token_Hash code) "otp" None 5 (now_ + 10 * Minute)) ;*
  done_ code.
Definition getOrCreateOTPUser (t : AuthTransaction) : prog State User :=
  match t_UserID t with
  | Some uid => query (GetUserByID uid)
  | None =>
      let email := normalizeEmail (t_Identifier t) in
      raise_if (bool_decide (TrimSpace email = "")) (NewBadRequest "authentication identifier is missing") ;*
      insert (fun uid => CreateUser uid None email None)
  end.
Definition VerifyOTP (id : UUID) (code : string) : prog State User :=
  let* t := getValidTransaction id in
  let* c := failing (NewUnauthorized "invalid or expired authentication code")
    (query (GetActiveAuthChallenge id "otp")) in
  raise_if (bool_decide (is_Some (ch_ConsumedAt c))) (NewUnauthorized "authentication code has already been used") ;*
  let* n := local time_now in
  raise_if (ch_ExpiresAt c <? n) (NewUnauthorized "authentication code has expired") ;*
  raise_if (5 <=? ch_Attempts c) (NewUnauthorized "too many authentication attempts") ;*
  if negb (token_Verify code (ch_SecretHash c)) then
    attempt_ (exec (IncrementAuthChallengeAttempts (ch_ID c))) ;*
    raise (NewUnauthorized "invalid authentication code")
  else
  exec (ConsumeAuthChallenge (ch_ID c)) ;*
  let* user := getOrCreateOTPUser t in
  raise_if (negb (enabled user)) (NewUnauthorized "account is disabled") ;*
  exec (MarkUserEmailVerified (u_ID user)) ;*
  exec (MarkAuthTransactionAuthenticated id) ;*
  done_ user.

(** ** Sessions (identity/session) *)
Definition sessionTTL : Z := 30 * 24 * Hour.
Definition ErrInvalidSession : error := Sentinel "invalid session".
Definition validateUserID (id : UUID) : result unit :=
  guard_err (bool_decide (id = uuid_Nil)) (Sentinel "user id is required").
Definition validateSessionID (id : UUID) : result unit :=
  guard_err (bool_decide (id = uuid_Nil)) (Sentinel "session id is required").
Definition validateToken (token : string) : result unit :=
  guard_err (bool_decide (TrimSpace token = "")) ErrInvalidSession.
Definition parseIP (value : option string) : option string :=
  match value with
  | Some v => if bool_decide (v = "") then None else ParseAddr v
  | None => None
  end.
Definition validAssurance (a : Z) : bool :=
  bool_decide (a ∈ [AssuranceUnknown; AssurancePassword; AssuranceOTP; AssuranceMFA]).
Definition parseAssurance (value : string) : Z :=
  if bool_decide (value = Assurance_String AssurancePassword) then AssurancePassword else
  if bool_decide (value = Assurance_String AssuranceOTP) then AssuranceOTP else
  if bool_decide (value = Assurance_String AssuranceMFA) then AssuranceMFA else AssuranceUnknown.

Definition CreateWithAssurance (user : UUID) (ip agent : option string) (assurance : Z) : prog State (string * Session) :=
  lift_ (validateUserID user) ;*
  raise_if (negb (validAssurance assurance)) ErrInvalidSession ;*
  let* n := wrap_ (Wrapf "generate token: %w" []) draw in
  let value := token_with (random_bytes n sessionTokenBytes) in
  let* t := local time_now in
  let* session := insert (fun id =>
    CreateSession id user (token_Hash value) (Assurance_String assurance) (parseIP ip) agent (t + sessionTTL)) in
  done_ (value, session).
Definition Session_Create (user : UUID) (ip agent : option string) : prog State (string * Session) :=
  CreateWithAssurance user ip agent AssuranceUnknown.
Definition Session_Get (value : string) : prog State Session :=
  lift_ (validateToken value) ;*
  let* session := failing ErrInvalidSession (query (GetSessionByTokenHash (token_Hash value))) in
  let* n := local time_now in
  raise_if (negb (n <? s_ExpiresAt session)) ErrInvalidSession ;*
  done_ session.
Definition Session_List (user : UUID) : prog State (list Session) :=
  lift_ (validateUserID user) ;*
  query (fun s => inl (ListSessionsByUserID user s)).
Definition Revoke (session user : UUID) : prog State unit :=
  lift_ (validateSessionID session) ;*
  lift_ (validateUserID user) ;*
  exec (RevokeSession session user).
Definition RevokeAll (user : UUID) : prog State unit :=
  lift_ (validateUserID user) ;*
  exec (RevokeUserSessions user).

(** ** Users (identity/users) *)
Definition required_user (user : UUID) : prog State unit :=
  raise_if (bool_decide (user = uuid_Nil)) (NewUnauthorized "authentication required").
Definition user_not_found : error := NewNotFound "user not found".
Definition User_Get (user : UUID) : prog State User :=
  required_user user ;*
  failing user_not_found (query (GetUserByID user)).
Definition UpdateProfile (user : UUID) (name : option string) : prog State User :=
  required_user user ;*
  let name := TrimSpace <$> name in
  raise_if (bool_decide (name = Some "")) (NewBadRequest "name cannot be empty") ;*
  failing user_not_found (exec (UpdateUserProfile user name)).
Definition User_Delete (user : UUID) : prog State unit :=
  required_user user ;*
  failing user_not_found (exec (DisableUser user)).

(** ** Principals (security/authn) *)
Definition SubjectUser : string := "user".
Definition SubjectOrganizationToken : string := "organization_token".
Definition CredentialSession : string := "session".
Definition CredentialOrganizationToken : string := "organization_token".
Record Principal := {
  p_SubjectID : UUID; p_SubjectType : string; p_CredentialID : UUID; p_CredentialType : string;
  p_OrganizationID : UUID; p_Scopes : list string; p_Assurance : Z;
}.
Definition IsValid (p : Principal) : bool :=
  negb (bool_decide (p_SubjectID p = uuid_Nil)) && negb (bool_decide (p_SubjectType p = ""))
  && negb (bool_decide (p_CredentialType p = "")).
Definition Principal_UserID (p : Principal) : option UUID :=
  if bool_decide (p_SubjectType p = SubjectUser) && negb (bool_decide (p_SubjectID p = uuid_Nil))
  then Some (p_SubjectID p) else None.
Definition ErrInvalidCredential : error := Sentinel "invalid credential".

Definition ResolveSession (value : string) : prog State (UUID * UUID * Z) :=
  let* session := Session_Get value in
  done_ (s_ID session, s_UserID session, parseAssurance (s_Assurance session)).
Definition resolveSession (token : string) : prog State Principal :=
  let* ' (id, user, assurance) := failing ErrInvalidCredential (ResolveSession token) in
  done_ {| p_SubjectID := user; p_SubjectType := SubjectUser; p_CredentialID := id; p_CredentialType := CredentialSession;
           p_OrganizationID := uuid_Nil; p_Scopes := []; p_Assurance := assurance |}.

(** ** Handlers (identity/auth/handler.go), behind [RequireSession] where they are *)
(** [resolveSessionCookie]: no principal, whatever went wrong. *)
Definition resolveSessionCookie (cookie : option string) : prog State (option Principal) :=
  match cookie with
  | None => done_ None
  | Some value =>
      if bool_decide (value = "") then done_ None else
      let* r := attempt_ (resolveSession value) in
      done_ match r with inl p => Some p | inr _ => None end
  end.
Definition authentication_required : error := NewUnauthorized "authentication required".
Definition RequireSession (cookie : option string) : prog State Principal :=
  let* p := resolveSessionCookie cookie in
  match p with Some p => done_ p | None => raise authentication_required end.
(** [UserIDFromContext]. *)
Definition UserIDFromContext (p : Principal) : option UUID := if IsValid p then Principal_UserID p else None.
Definition session_user (cookie : option string) : prog State UUID :=
  let* p := RequireSession cookie in
  match UserIDFromContext p with Some u => done_ u | None => raise authentication_required end.

Definition handle_Start (email : string) : prog State AuthTransaction :=
  let* email := lift_ (validateStartRequest email) in Start email.
Definition handle_LoginWithPassword (transaction password : string) (ip agent : option string)
    : prog State (string * Session) :=
  let* id := lift_ (validatePasswordLoginRequest transaction password) in
  let* user := LoginWithPassword id password in
  CreateWithAssurance (u_ID user) ip agent AssurancePassword.
Definition handle_SendOTP (transaction : string) : prog State string :=
  let* id := lift_ (validateTransactionID transaction) in SendOTP id.
Definition handle_VerifyOTP (transaction code : string) (ip agent : option string) : prog State (string * Session) :=
  let* ' (id, code) := lift_ (validateVerifyOTPRequest transaction code) in
  let* user := VerifyOTP id code in
  CreateWithAssurance (u_ID user) ip agent AssuranceOTP.
Definition handle_SetPassword (cookie : option string) (password : string) : prog State User :=
  let* user := session_user cookie in
  lift_ (validateSetPasswordRequest password) ;*
  SetPassword user password.

Definition handle_Session_List (cookie : option string) : prog State (list Session) :=
  let* user := session_user cookie in Session_List user.
Definition handle_Revoke (cookie : option string) (session : UUID) : prog State unit :=
  let* user := session_user cookie in Revoke session user.
Definition handle_RevokeAll (cookie : option string) : prog State unit :=
  let* user := session_user cookie in RevokeAll user.
(** [validateUpdateProfileRequest] counts characters. *)
Definition rune_length (s : string) : Z :=
  Z.of_nat (length (filter (fun c => negb (is_cont c) = true) (bytes s))).
Definition validateUpdateProfileRequest (name : option string) : result unit :=
  match name with
  | None => inr (NewBadRequest "name is required")
  | Some n =>
      let? _ := guard_err (bool_decide (TrimSpace n = "")) (NewBadRequest "name cannot be empty") in
      guard_err (200 <? rune_length (TrimSpace n)) (NewBadRequest "name is too long")
  end.
Definition handle_GetMe (cookie : option string) : prog State User :=
  let* user := session_user cookie in User_Get user.
Definition handle_UpdateMe (cookie : option string) (name : option string) : prog State User :=
  let* user := session_user cookie in
  lift_ (validateUpdateProfileRequest name) ;*
  UpdateProfile user name.
Definition handle_DeleteMe (cookie : option string) : prog State unit :=
  let* user := session_user cookie in User_Delete user.
End Identity.
End Identity.
