(* ===== verification/Tenancy.v ===== *)
(** * Organizations: members, tokens and access

    [tenancy/organization], [tenancy/members], [tenancy/credentials],
    [security/authz], and the middleware that admits a request to the resources of
    an organization ([platform/middleware/authn.go], [organization.go], [authz.go]). *)

From S2P Require Import Prelude Encryption Programs Routing Paths Secrets IdentityStore Identity.
Local Open Scope Z_scope.

Module Tenancy.
Import AppErr Programs Secrets IdentityStore Identity.

(** ** Roles, permissions and scopes (security/authz) *)
Definition RoleOwner : string := "owner".
Definition RoleAdmin : string := "admin".
Definition RoleMember : string := "member".
Definition Role_IsValid (r : string) : bool := bool_decide (r ∈ [RoleOwner; RoleAdmin; RoleMember]).
Definition Permission_IsValid (p : string) : bool :=
  bool_decide (p ∈ ["organization:read"; "organization:update"; "organization:delete"; "members:read"; "members:add";
    "members:update"; "members:remove"; "credentials:read"; "credentials:create"; "credentials:revoke"]%string).
Definition Allows (role permission : string) : bool :=
  if bool_decide (role = RoleOwner) then Permission_IsValid permission else
  if bool_decide (role = RoleAdmin) then
    bool_decide (permission ∈ ["organization:read"; "organization:update"; "members:read"; "members:add";
      "members:update"; "members:remove"; "credentials:read"; "credentials:create"; "credentials:revoke"]%string) else
  if bool_decide (role = RoleMember) then bool_decide (permission ∈ ["organization:read"; "members:read"]%string)
  else false.
Definition resources_with_scopes : list string :=
  ["voice-agents"; "calls"; "recordings"; "storage"; "numbers"; "trunks"; "webhooks"; "audit"; "webrtc"; "networking";
   "scim"; "retention"; "members"].
(** Both a read and a write scope, but for the organization and its credentials. *)
Definition Scope_IsValid (s : string) : bool :=
  bool_decide (s ∈ ["organization:read"; "credentials:read"]%string)
  || existsb (fun r => bool_decide (s = r +:+ ":read") || bool_decide (s = r +:+ ":write")) resources_with_scopes.
Definition HasScope (scopes : list string) (required : string) : bool := bool_decide (required ∈ scopes).
(** [authz.Principal]; no scopes at all is a nil slice. *)
Record AccessPrincipal := { ap_Identity : Principal; ap_Role : string; ap_Scopes : option (list string) }.
Definition Access_Valid (p : AccessPrincipal) : bool :=
  negb (bool_decide (p_SubjectID (ap_Identity p) = uuid_Nil))
  && negb (bool_decide (p_SubjectType (ap_Identity p) = "")).
Definition Access_Allows (p : AccessPrincipal) (permission : string) : bool :=
  Access_Valid p && Allows (ap_Role p) permission.
Definition AllowsScoped (p : AccessPrincipal) (permission scope : string) : bool :=
  Access_Valid p && Allows (ap_Role p) permission
  && match ap_Scopes p with None => true | Some l => HasScope l scope end.

Section Tenancy.
Context {I : IdentityLib} {X : SecretLib} {U : UuidLib}.

(** ** Organizations (tenancy/organization) *)
Definition validateOrganizationID (id : UUID) : result unit :=
  guard_err (bool_decide (id = uuid_Nil)) (NewBadRequest "organization_id is required").
Definition normalizeRequiredString (value field : string) : result string :=
  let normalized := TrimSpace value in
  if bool_decide (normalized = "") then inr (NewBadRequest (field +:+ " is required")) else inl normalized.
Definition no_organization : error := NewNotFound "organization not found".
Definition requireRole (user org : UUID) (allowed : list string) : prog State OrganizationMember :=
  raise_if (bool_decide (user = uuid_Nil)) (NewUnauthorized "authentication required") ;*
  lift_ (validateOrganizationID org) ;*
  let* member := failing no_organization (query (GetOrganizationMember org user)) in
  raise_if (negb (bool_decide (m_Role member ∈ allowed))) (NewForbidden "organization role does not permit this action") ;*
  done_ member.
Definition Org_requireMember (user org : UUID) : prog State unit :=
  raise_if (bool_decide (user = uuid_Nil)) (NewUnauthorized "authentication required") ;*
  lift_ (validateOrganizationID org) ;*
  failing no_organization (query (GetOrganizationMember org user)) ;*
  done_ tt.
Definition Org_Create (user : UUID) (name : string) : prog State (Organization * string) :=
  raise_if (bool_decide (user = uuid_Nil)) (NewUnauthorized "authentication required") ;*
  let* name := lift_ (normalizeRequiredString name "name") in
  let* org := wrap_ (NewInternal "create organization") (insert (fun id => CreateOrganizationWithOwner id name user)) in
  done_ (org, RoleOwner).
Definition Org_Get (user org : UUID) : prog State (Organization * string) :=
  Org_requireMember user org ;*
  let* o := failing no_organization (query (GetOrganizationByID org)) in
  let* member := failing no_organization (query (GetOrganizationMember org user)) in
  done_ (o, m_Role member).
Definition Org_Update (user org : UUID) (name : option string) : prog State (Organization * string) :=
  let* member := requireRole user org [RoleOwner; RoleAdmin] in
  let* name := match name with
    | Some n => let* n := lift_ (normalizeRequiredString n "name") in done_ (Some n)
    | None => done_ None
    end in
  let* o := failing no_organization (exec (UpdateOrganization org name)) in
  done_ (o, m_Role member).
Definition Org_Delete (user org : UUID) : prog State unit :=
  requireRole user org [RoleOwner] ;*
  exec (DeleteOrganization org).
Definition Org_List (user : UUID) : prog State (list (Organization * string)) :=
  raise_if (bool_decide (user = uuid_Nil)) (NewUnauthorized "authentication required") ;*
  query (fun s => inl (ListOrganizationsByUserID user s)).

(** ** Members (tenancy/members) *)
Definition required_id (id : UUID) (field : string) : result unit :=
  guard_err (bool_decide (id = uuid_Nil)) (NewBadRequest (field +:+ " is required")).
Definition normalizeRole (role : string) : result string :=
  let normalized := ToLower (TrimSpace role) in
  let normalized := if bool_decide (normalized = "") then RoleMember else normalized in
  if negb (bool_decide (normalized = RoleOwner)) && negb (bool_decide (normalized = RoleAdmin))
     && negb (bool_decide (normalized = RoleMember))
  then inr (NewBadRequest "role must be owner, admin, or member") else inl normalized.
Definition no_member : error := NewNotFound "organization member not found".
Definition require_requester (requester org : UUID) : prog State unit :=
  failing (NewUnauthorized "authentication required") (lift_ (required_id requester "requester_id")) ;*
  lift_ (validateOrganizationID org).
Definition requireMember (requester org : UUID) : prog State unit :=
  require_requester requester org ;*
  failing no_organization (query (GetOrganizationMember org requester)) ;*
  done_ tt.
Definition requireAdmin (requester org : UUID) : prog State unit :=
  require_requester requester org ;*
  let* member := failing no_organization (query (GetOrganizationMember org requester)) in
  raise_if (negb (bool_decide (m_Role member = RoleOwner)) && negb (bool_decide (m_Role member = RoleAdmin)))
    (NewForbidden "organization owner or admin role required").
(** [normalizeRole], and nobody is made an owner. *)
Definition granted_role (role : string) : prog State string :=
  let* role := lift_ (normalizeRole role) in
  raise_if (bool_decide (role = RoleOwner)) (NewConflict "organization owner must be transferred explicitly") ;*
  done_ role.
Definition Member_Add (requester org user : UUID) (role : string) : prog State OrganizationMember :=
  requireAdmin requester org ;*
  lift_ (required_id user "user_id") ;*
  let* role := granted_role role in
  wrap_ (fun e => if bool_decide (errors_As_Pg e = Some "23505") then NewConflict "organization member already exists"
                  else NewNotFound "user not found")
    (exec (AddOrganizationMember org user role requester)).
Definition Member_Get (requester org user : UUID) : prog State OrganizationMember :=
  requireMember requester org ;*
  lift_ (required_id user "user_id") ;*
  failing no_member (query (GetOrganizationMember org user)).
Definition Member_List (requester org : UUID) : prog State (list OrganizationMember) :=
  requireMember requester org ;*
  query (fun s => inl (ListMembersByOrganizationID org s)).
Definition Member_Update (requester org user : UUID) (role : string) : prog State OrganizationMember :=
  requireAdmin requester org ;*
  lift_ (required_id user "user_id") ;*
  let* role := granted_role role in
  let* current := failing no_member (query (GetOrganizationMember org user)) in
  raise_if (bool_decide (m_Role current = RoleOwner)) (NewConflict "organization owner cannot be demoted") ;*
  failing no_member (exec (UpdateMemberRole role org user requester)).
Definition Member_Delete (requester org user : UUID) : prog State unit :=
  requireAdmin requester org ;*
  lift_ (required_id user "user_id") ;*
  let* member := failing no_member (query (GetOrganizationMember org user)) in
  raise_if (bool_decide (m_Role member = RoleOwner)) (NewConflict "organization owner cannot be removed") ;*
  exec (DisableOrganizationMember org user requester).

(** ** Tokens (tenancy/credentials) *)
Definition ErrInvalidInput : error := Sentinel "invalid credential input".
(** [fmt.Errorf("%w: %w", ErrInvalidInput, err)]. *)
Definition invalid_input (e : error) : error := JoinErr ErrInvalidInput e.
Definition maxNameLength : Z := 100.
Definition maxDescriptionLength : Z := 500.
Definition bytes_length (s : string) : Z := Z.of_nat (length (bytes s)).
Definition validateName (name : string) : result unit :=
  let name := TrimSpace name in
  let? _ := guard_err (bool_decide (name = "")) (Errorf "name is required" []) in
  guard_err (maxNameLength <? bytes_length name) (Errorf "name must be at most %d characters" [show_int maxNameLength]).
Definition validateDescription (description : option string) : result unit :=
  guard_err (match description with Some d => maxDescriptionLength <? bytes_length d | None => false end)
    (Errorf "description must be at most %d characters" [show_int maxDescriptionLength]).
(** The loop of [ValidateScopes]. *)
Fixpoint check_scopes (seen : list string) (scopes : list string) : result unit :=
  match scopes with
  | [] => inl tt
  | scope :: rest =>
      let scope := TrimSpace scope in
      let? _ := guard_err (negb (Scope_IsValid scope)) (Errorf "invalid credential scope %q" [scope]) in
      let? _ := guard_err (bool_decide (scope ∈ seen)) (Errorf "duplicate credential scope %q" [scope]) in
      check_scopes (scope :: seen) rest
  end.
Definition ValidateScopes (scopes : list string) : result unit := check_scopes [] scopes.
Record CreateInput := {
  ci_OrganizationID : UUID; ci_CreatedBy : UUID; ci_Name : string; ci_Description : option string;
  ci_Scopes : option (list string); ci_ExpiresAt : option Z;
}.
Record UpdateInput := {
  ui_ID : UUID; ui_OrganizationID : UUID; ui_Name : option string; ui_Description : option string;
  ui_Scopes : option (list string); ui_ExpiresAt : option Z;
}.
Definition ValidateCreate (input : CreateInput) : result unit :=
  let? _ := guard_err (bool_decide (ci_OrganizationID input = uuid_Nil)) (Errorf "organization id is required" []) in
  let? _ := guard_err (bool_decide (ci_CreatedBy input = uuid_Nil)) (Errorf "created by is required" []) in
  let? _ := validateName (ci_Name input) in
  let? _ := validateDescription (ci_Description input) in
  ValidateScopes (default [] (ci_Scopes input)).
Definition ValidateUpdate (input : UpdateInput) : result unit :=
  let? _ := guard_err (bool_decide (ui_ID input = uuid_Nil)) (Errorf "credential id is required" []) in
  let? _ := guard_err (bool_decide (ui_OrganizationID input = uuid_Nil)) (Errorf "organization id is required" []) in
  let? _ := match ui_Name input with Some n => validateName n | None => inl tt end in
  let? _ := validateDescription (ui_Description input) in
  match ui_Scopes input with Some l => ValidateScopes l | None => inl tt end.

(** What a client sees: no hash. *)
Record Credential := {
  cr_ID : UUID; cr_OrganizationID : UUID; cr_CreatedBy : option UUID; cr_Name : string;
  cr_Description : option string; cr_TokenPrefix : string; cr_Scopes : list string; cr_LastUsedAt : option Z;
  cr_ExpiresAt : option Z; cr_DisabledAt : option Z; cr_CreatedAt : Z; cr_UpdatedAt : Z;
}.
Definition organizationTokenToCredential (row : OrganizationToken) : result Credential :=
  match ValidateScopes (k_Scopes row) with
  | inr e => inr (Wrapf "invalid credential scopes: %w" [] e)
  | inl _ => inl {| cr_ID := k_ID row; cr_OrganizationID := k_OrganizationID row; cr_CreatedBy := k_CreatedBy row;
      cr_Name := k_Name row; cr_Description := k_Description row; cr_TokenPrefix := k_TokenPrefix row;
      cr_Scopes := k_Scopes row; cr_LastUsedAt := k_LastUsedAt row; cr_ExpiresAt := k_ExpiresAt row;
      cr_DisabledAt := k_DisabledAt row; cr_CreatedAt := k_CreatedAt row; cr_UpdatedAt := k_UpdatedAt row |}
  end.
Definition Token_Create (input : CreateInput) : prog State (Credential * string) :=
  wrap_ invalid_input (lift_ (ValidateCreate input)) ;*
  let* n := wrap_ (Wrapf "generate organization token: %w" []) draw in
  let '(token, prefix, hash) := GenerateToken (random_bytes n secretBytes) in
  let* row := insert (fun id => CreateOrganizationToken id (ci_OrganizationID input) (ci_CreatedBy input) (ci_Name input)
    (ci_Description input) hash prefix (ci_Scopes input) (ci_ExpiresAt input)) in
  let* credential := lift_ (organizationTokenToCredential row) in
  done_ (credential, token).
Definition Token_Get (org id : UUID) : prog State Credential :=
  raise_if (bool_decide (org = uuid_Nil) || bool_decide (id = uuid_Nil))
    (invalid_input (Errorf "organization and credential ids are required" [])) ;*
  let* row := query (GetOrganizationTokenByID org id) in
  lift_ (organizationTokenToCredential row).
Fixpoint convert_all (rows : list OrganizationToken) : result (list Credential) :=
  match rows with
  | [] => inl []
  | row :: rest =>
      let? c := organizationTokenToCredential row in
      let? l := convert_all rest in inl (c :: l)
  end.
Definition Token_List (org : UUID) : prog State (list Credential) :=
  raise_if (bool_decide (org = uuid_Nil)) (invalid_input (Errorf "organization id is required" [])) ;*
  let* rows := query (fun s => inl (ListOrganizationTokensByOrganizationID org s)) in
  lift_ (convert_all rows).
Definition Token_Update (input : UpdateInput) (actor : UUID) : prog State Credential :=
  wrap_ invalid_input (lift_ (ValidateUpdate input)) ;*
  raise_if (bool_decide (actor = uuid_Nil)) (invalid_input (Errorf "actor id is required" [])) ;*
  let* row := exec (UpdateOrganizationToken (ui_ID input) (ui_OrganizationID input) actor (ui_Name input)
    (ui_Description input) (ui_Scopes input) (ui_ExpiresAt input)) in
  lift_ (organizationTokenToCredential row).
Definition Token_Disable (org id actor : UUID) : prog State unit :=
  raise_if (bool_decide (org = uuid_Nil) || bool_decide (id = uuid_Nil) || bool_decide (actor = uuid_Nil))
    (invalid_input (Errorf "organization, credential, and actor ids are required" [])) ;*
  exec (DisableOrganizationToken id org actor).
Definition Authenticate (token : string) : prog State Credential :=
  raise_if (bool_decide (token = "")) ErrInvalidToken ;*
  failing ErrInvalidToken (lift_ (ParseTokenPrefix token)) ;*
  let* row := failing ErrInvalidToken (query (GetOrganizationTokenByTokenHash (HashToken token))) in
  failing ErrInvalidToken (lift_ (organizationTokenToCredential row)).

(** ** Access to an organization (platform/middleware) *)
(** What the middleware reads of a request; [PathID] is the URL parameter, empty
    where the route has none. *)
Record Request := {
  Method : string; Cookie : option string; Authorization : string; OrganizationHeader : string; PathID : string;
}.
Definition resolveOrganizationToken (token : string) : prog State Principal :=
  let* c := failing ErrInvalidCredential (Authenticate token) in
  done_ {| p_SubjectID := cr_ID c; p_SubjectType := SubjectOrganizationToken; p_CredentialID := cr_ID c;
           p_CredentialType := CredentialOrganizationToken; p_OrganizationID := cr_OrganizationID c;
           p_Scopes := cr_Scopes c; p_Assurance := AssuranceUnknown |}.
(** The principal, and whether a bearer token was presented. *)
Definition resolveBearerToken (r : Request) : prog State (option Principal * bool) :=
  let header := TrimSpace (Authorization r) in
  match Cut header " " with
  | Some (scheme, token) =>
      if EqualFold scheme "bearer" then
        let token := TrimSpace token in
        if bool_decide (token = "") then done_ (None, true) else
        let* p := attempt_ (resolveOrganizationToken token) in
        done_ (match p with inl p => Some p | inr _ => None end, true)
      else done_ (None, false)
  | None => done_ (None, false)
  end.
Definition RequireAuthenticated (r : Request) : prog State Principal :=
  let* ' (p, bearerAttempted) := resolveBearerToken r in
  match p with
  | Some p => done_ p
  | None => if bearerAttempted then raise authentication_required else RequireSession (Cookie r)
  end.
Definition RequireOrganizationToken (r : Request) : prog State Principal :=
  let* ' (p, _) := resolveBearerToken r in
  match p with Some p => done_ p | None => raise (NewUnauthorized "organization token required") end.

Record organizationContext := { oc_ID : UUID; oc_Role : string }.
Definition resolveOrganizationID (r : Request) (p : Principal) : option UUID :=
  if bool_decide (p_CredentialType p = CredentialOrganizationToken) then
    if bool_decide (p_OrganizationID p = uuid_Nil) then None else Some (p_OrganizationID p)
  else if bool_decide (OrganizationHeader r = "") then None else
  match uuid_Parse (OrganizationHeader r) with
  | None => None
  | Some id =>
      if bool_decide (PathID r = "") then Some id else
      if bool_decide (uuid_Parse (PathID r) = Some id) then Some id else None
  end.
Definition no_context : error := NewBadRequest "organization context required".
Definition resolveOrganization (r : Request) (p : Principal) : prog State organizationContext :=
  match resolveOrganizationID r p with
  | None => raise no_context
  | Some org =>
      if bool_decide (p_CredentialType p = CredentialOrganizationToken) then done_ {| oc_ID := org; oc_Role := "" |} else
      match Principal_UserID p with
      | None => raise authentication_required
      | Some user =>
          let* membership := wrap_ (fun e => if errors_Is e ErrNoRows then no_organization
                                             else NewInternal "resolve organization membership" e)
            (query (GetOrganizationMember org user)) in
          raise_if (negb (Role_IsValid (m_Role membership))) (NewForbidden "organization membership is invalid") ;*
          done_ {| oc_ID := org; oc_Role := m_Role membership |}
      end
  end.
Definition Require (r : Request) (p : Principal) : prog State organizationContext :=
  raise_if (negb (IsValid p)) authentication_required ;*
  let* organization := resolveOrganization r p in
  raise_if (bool_decide (oc_ID organization = uuid_Nil)) no_context ;*
  done_ organization.
Definition hasScope (scopes : list string) (required : string) : bool :=
  existsb (fun s => bool_decide (TrimSpace s = required)) scopes.
Definition access_of (method : string) : string :=
  if bool_decide (method = "GET") || bool_decide (method = "HEAD") then "read" else "write".
Definition RequireAccess (resource : string) (r : Request) (p : Principal) (o : organizationContext) : prog State unit :=
  raise_if (negb (IsValid p)) authentication_required ;*
  let access := access_of (Method r) in
  let required := resource +:+ ":" +:+ access in
  if bool_decide (p_CredentialType p = CredentialOrganizationToken) then
    raise_if (negb (hasScope (p_Scopes p) required)) (NewForbidden ("credential scope required: " +:+ required))
  else
    let ownerOnly := bool_decide (resource = "organization") && bool_decide (Method r = "DELETE") in
    raise_if (bool_decide (oc_ID o = uuid_Nil)
              || (bool_decide (access = "write") && bool_decide (oc_Role o = RoleMember))
              || (ownerOnly && negb (bool_decide (oc_Role o = RoleOwner))))
      (NewForbidden "organization permission required").

(** The routes of resources: by session or token ([organizationAccess]), by session
    only ([sessionOrganizationAccess]). The network policy and the rate limit in
    between only refuse more. *)
Definition organizationAccess (resource : string) (r : Request) : prog State (Principal * organizationContext) :=
  let* p := RequireAuthenticated r in
  let* o := Require r p in
  RequireAccess resource r p o ;*
  done_ (p, o).
Definition sessionOrganizationAccess (resource : string) (r : Request) : prog State (Principal * organizationContext) :=
  let* p := RequireSession (Cookie r) in
  let* o := Require r p in
  RequireAccess resource r p o ;*
  done_ (p, o).

(** ** Handlers (tenancy/*/handler.go)

    The user of the session, and the organization of the path. *)
Definition actor_of (resource : string) (r : Request) : prog State (UUID * UUID) :=
  let* ' (p, _) := sessionOrganizationAccess resource r in
  match UserIDFromContext p with
  | None => raise authentication_required
  | Some actor =>
      match uuid_Parse (PathID r) with
      | Some org => done_ (actor, org)
      | None => raise (NewBadRequest "invalid organization_id")
      end
  end.
Definition handle_Org_Create (cookie : option string) (name : string) : prog State (Organization * string) :=
  let* user := session_user cookie in Org_Create user name.
Definition handle_Org_List (cookie : option string) : prog State (list (Organization * string)) :=
  let* user := session_user cookie in Org_List user.
Definition handle_Org_Get (r : Request) : prog State (Organization * string) :=
  let* ' (user, org) := actor_of "organization" r in Org_Get user org.
Definition handle_Org_Update (r : Request) (name : option string) : prog State (Organization * string) :=
  let* ' (user, org) := actor_of "organization" r in Org_Update user org name.
Definition handle_Org_Delete (r : Request) : prog State unit :=
  let* ' (user, org) := actor_of "organization" r in Org_Delete user org.
Definition handle_Member_Add (r : Request) (user : UUID) (role : string) : prog State OrganizationMember :=
  let* ' (actor, org) := actor_of "members" r in Member_Add actor org user role.
Definition handle_Member_Get (r : Request) (user : UUID) : prog State OrganizationMember :=
  let* ' (actor, org) := actor_of "members" r in Member_Get actor org user.
Definition handle_Member_List (r : Request) : prog State (list OrganizationMember) :=
  let* ' (actor, org) := actor_of "members" r in Member_List actor org.
Definition handle_Member_Update (r : Request) (user : UUID) (role : string) : prog State OrganizationMember :=
  let* ' (actor, org) := actor_of "members" r in Member_Update actor org user role.
Definition handle_Member_Delete (r : Request) (user : UUID) : prog State unit :=
  let* ' (actor, org) := actor_of "members" r in Member_Delete actor org user.
Definition handle_Token_Create (r : Request) (name : string) (description : option string)
    (scopes : option (list string)) (expires : option Z) : prog State (Credential * string) :=
  let* ' (actor, org) := actor_of "credentials" r in
  Token_Create {| ci_OrganizationID := org; ci_CreatedBy := actor; ci_Name := name; ci_Description := description;
                  ci_Scopes := scopes; ci_ExpiresAt := expires |}.
Definition handle_Token_Get (r : Request) (id : UUID) : prog State Credential :=
  let* ' (_, org) := actor_of "credentials" r in Token_Get org id.
Definition handle_Token_List (r : Request) : prog State (list Credential) :=
  let* ' (_, org) := actor_of "credentials" r in Token_List org.
Definition handle_Token_Update (r : Request) (id : UUID) (name description : option string)
    (scopes : option (list string)) (expires : option Z) : prog State Credential :=
  let* ' (actor, org) := actor_of "credentials" r in
  Token_Update {| ui_ID := id; ui_OrganizationID := org; ui_Name := name; ui_Description := description;
                  ui_Scopes := scopes; ui_ExpiresAt := expires |} actor.
Definition handle_Token_Disable (r : Request) (id : UUID) : prog State unit :=
  let* ' (actor, org) := actor_of "credentials" r in Token_Disable org id actor.
End Tenancy.
End Tenancy.
