(* ===== verification/Access.v ===== *)
(** * What the middleware has checked of a request it lets through

    [organizationAccess] only reads, so its calls see one state when it runs alone:
    what they answered is collected. *)

From S2P Require Import Prelude Encryption Programs Routing Paths Secrets IdentityStore Identity Tenancy.
Local Open Scope Z_scope.

Module Access.
Import AppErr Programs Secrets IdentityStore Identity Tenancy.

(** A sequence with failures: its second part meets those that are left. *)
Lemma run_andthen_faults {S A B} (p : prog S A) (k : result A -> prog S B) fs s :
  exists fs', run (andthen p k) fs s = let (r, s') := run p fs s in run (k r) fs' s'.
Proof.
  revert fs s. induction p as [q|X f h IH|X f h IH]; simpl; intros fs s; [by exists fs| |].
  - destruct (answer f (default FOk (head fs)) s) as [x s1]. apply IH.
  - destruct (f s) as [x s1]. apply IH.
Qed.

Section Reads.
Context {S : Type} (s : S).
(** A program that leaves [s] alone and whose result is as [R] says. *)
Definition reads {A} (p : prog S A) (R : A -> Prop) : Prop :=
  forall fs r s', run p fs s = (r, s') -> s' = s /\ forall a, r = inl a -> R a.
Lemma reads_andthen {A B} (p : prog S A) (k : result A -> prog S B) (R : A -> Prop) (Q : B -> Prop) :
  reads p R -> (forall r, (forall a, r = inl a -> R a) -> reads (k r) Q) -> reads (andthen p k) Q.
Proof.
  intros Hp Hk fs r s' Hr. destruct (run_andthen_faults p k fs s) as [fs' He]. rewrite He in Hr.
  destruct (run p fs s) as [r1 s1] eqn:H1. destruct (Hp _ _ _ H1) as [-> HR]. by eapply Hk.
Qed.
Lemma reads_return {A} (r : result A) (R : A -> Prop) : (forall a, r = inl a -> R a) -> reads (Return r) R.
Proof. intros HR fs r' s' [= <- <-]. by split. Qed.
Lemma reads_done {A} (a : A) (R : A -> Prop) : R a -> reads (done_ a) R.
Proof. intros HR. apply reads_return. by intros ? [= <-]. Qed.
Lemma reads_raise {A} e (R : A -> Prop) : reads (raise e) R.
Proof. by apply reads_return. Qed.
Lemma reads_lift {A} (r : result A) : reads (lift_ r) (fun a => r = inl a).
Proof. by apply reads_return. Qed.
Lemma reads_raise_if c e : reads (raise_if c e) (fun _ => c = false).
Proof. destruct c; [apply reads_raise|by apply reads_done]. Qed.
Lemma reads_query {A} (f : S -> result A) : reads (query f) (fun a => f s = inl a).
Proof. intros fs r s'. simpl. destruct (default FOk (head fs)); simpl; intros [= <- <-]; by split. Qed.
Lemma reads_local {A} (f : S -> A * S) : snd (f s) = s -> reads (local f) (fun a => a = fst (f s)).
Proof. intros Hf fs r s'. simpl. destruct (f s) as [a s1]. simpl in Hf |- *. intros [= <- <-]. split; [done|]. by intros ? [= <-]. Qed.
Lemma reads_seq {A B} (p : prog S A) (k : A -> prog S B) (R : A -> Prop) (Q : B -> Prop) :
  reads p R -> (forall a, R a -> reads (k a) Q) -> reads (seq p k) Q.
Proof.
  intros Hp Hk. eapply reads_andthen; [exact Hp|]. intros [a|e] HR; [by apply Hk, HR|by apply reads_return].
Qed.
Lemma reads_wrap {A} f (p : prog S A) (R : A -> Prop) : reads p R -> reads (wrap_ f p) R.
Proof. intros Hp. eapply reads_andthen; [exact Hp|]. intros [a|e] HR; apply reads_return; [done|by intros]. Qed.
Lemma reads_attempt {A} (p : prog S A) (R : A -> Prop) :
  reads p R -> reads (attempt_ p) (fun r => forall a, r = inl a -> R a).
Proof. intros Hp. eapply reads_andthen; [exact Hp|]. intros r HR. apply reads_return. by intros ? [= <-]. Qed.
Lemma reads_post {A} (p : prog S A) (R R' : A -> Prop) : reads p R -> (forall a, R a -> R' a) -> reads p R'.
Proof. intros Hp HR fs r s' Hr. destruct (Hp _ _ _ Hr) as [-> Ha]. split; [done|]. auto. Qed.
End Reads.

Section Access.
Context {I : IdentityLib} {X : SecretLib} {U : UuidLib}.
Context (s : State).

(** ** What is checked *)
Definition scope_of (resource : string) (r : Request) : string := resource +:+ ":" +:+ access_of (Method r).
Definition token_principal (k : OrganizationToken) : Principal :=
  {| p_SubjectID := k_ID k; p_SubjectType := SubjectOrganizationToken; p_CredentialID := k_ID k;
     p_CredentialType := CredentialOrganizationToken; p_OrganizationID := k_OrganizationID k; p_Scopes := k_Scopes k;
     p_Assurance := AssuranceUnknown |}.
Definition session_principal (y : Session) : Principal :=
  {| p_SubjectID := s_UserID y; p_SubjectType := SubjectUser; p_CredentialID := s_ID y;
     p_CredentialType := CredentialSession; p_OrganizationID := uuid_Nil; p_Scopes := [];
     p_Assurance := parseAssurance (s_Assurance y) |}.
(** The token a request bears, if it does. *)
Definition bearer_token (r : Request) : option string :=
  match Cut (TrimSpace (Authorization r)) " " with
  | Some (scheme, token) => if EqualFold scheme "bearer" then Some (TrimSpace token) else None
  | None => None
  end.
(** A token that is not disabled, not over, of an active organization, and whose
    scopes name the resource. *)
Definition by_token (resource : string) (r : Request) (k : OrganizationToken) : Prop :=
  exists token, bearer_token r = Some token /\ (exists id, tokens s !! id = Some k)
    /\ k_TokenHash k = HashToken token /\ usable_token s k = true
    /\ hasScope (k_Scopes k) (scope_of resource r) = true.
(** A live session of an active member of an active organization, which the header
    and the path name, with the role that the method asks for. *)
Definition by_session (resource : string) (r : Request) (y : Session) (org : UUID) (m : OrganizationMember) : Prop :=
  (exists value, Cookie r = Some value /\ s_TokenHash y = token_Hash value)
  /\ (exists id, sessions s !! id = Some y) /\ live_session s y = true
  /\ uuid_Parse (OrganizationHeader r) = Some org /\ (PathID r = "" \/ uuid_Parse (PathID r) = Some org)
  /\ members s !! (org, s_UserID y) = Some m /\ m_Status m = "active"
  /\ (exists o, organizations s !! org = Some o /\ o_Status o = "active" /\ o_DeletedAt o = None)
  /\ (access_of (Method r) = "write" -> m_Role m <> RoleMember)
  /\ (resource = "organization" -> Method r = "DELETE" -> m_Role m = RoleOwner).
Definition granted (resource : string) (r : Request) (p : Principal) (o : organizationContext) : Prop :=
  (exists k, by_token resource r k /\ p = token_principal k /\ o = {| oc_ID := k_OrganizationID k; oc_Role := "" |})
  \/ (exists y org m, by_session resource r y org m /\ p = session_principal y
        /\ o = {| oc_ID := org; oc_Role := m_Role m |}).

(** ** Reading it off the code *)
Lemma in_rows_of {K} `{Countable K} {A} (m : gmap K A) a : In a (rows_of m) -> exists k, m !! k = Some a.
Proof.
  intros Hin%list_elem_of_In. apply list_elem_of_fmap in Hin as ([k x] & -> & Hk%elem_of_map_to_list). by exists k.
Qed.
Lemma reads_token token : reads s (resolveOrganizationToken token) (fun p => exists k, p = token_principal k
  /\ (exists id, tokens s !! id = Some k) /\ k_TokenHash k = HashToken token /\ usable_token s k = true).
Proof.
  apply (reads_seq _ _ _ (fun c => exists k, organizationTokenToCredential k = inl c
    /\ GetOrganizationTokenByTokenHash (HashToken token) s = inl k)).
  - apply reads_wrap. eapply reads_seq; [apply reads_raise_if|intros ? _].
    eapply reads_seq; [apply reads_wrap, reads_lift|intros ? _].
    eapply reads_seq; [apply reads_wrap, reads_query|intros k Hk]. apply reads_wrap.
    eapply reads_post; [apply reads_lift|]. intros c Hc. by exists k.
  - intros c (k & Hc & Hk). apply reads_done. exists k. unfold GetOrganizationTokenByTokenHash in Hk.
    destruct (find _ _) as [k'|] eqn:Hf; [|done]. injection Hk as ->.
    apply find_some in Hf as [Hin Hp]. apply andb_true_iff in Hp as [Hh%bool_decide_eq_true Hu].
    split_and!; [|by apply in_rows_of|done|done].
    unfold organizationTokenToCredential in Hc. destruct (ValidateScopes _); [|done]. by injection Hc as <-.
Qed.
Lemma reads_bearer r : reads s (resolveBearerToken r) (fun '(p, _) => forall q, p = Some q ->
  exists k token, q = token_principal k /\ bearer_token r = Some token /\ (exists id, tokens s !! id = Some k)
    /\ k_TokenHash k = HashToken token /\ usable_token s k = true).
Proof.
  unfold resolveBearerToken, bearer_token. destruct (Cut _ _) as [[scheme token]|]; [|by apply reads_done].
  destruct (EqualFold _ _); [|by apply reads_done]. destruct (bool_decide _); [by apply reads_done|].
  eapply reads_seq; [apply reads_attempt, reads_token|]. intros p Hp. apply reads_done. intros q Hq.
  destruct p as [p|e]; [|done]. injection Hq as ->. destruct (Hp _ eq_refl) as (k & ? & ? & ? & ?). by exists k, (TrimSpace token).
Qed.
Definition session_of (cookie : option string) (p : Principal) : Prop :=
  exists y value, p = session_principal y /\ cookie = Some value /\ s_TokenHash y = token_Hash value
    /\ (exists id, sessions s !! id = Some y) /\ live_session s y = true.
Lemma reads_session value : reads s (resolveSession value) (session_of (Some value)).
Proof.
  apply (reads_seq _ _ _ (fun '(id, user, a) => session_of (Some value)
    {| p_SubjectID := user; p_SubjectType := SubjectUser; p_CredentialID := id; p_CredentialType := CredentialSession;
       p_OrganizationID := uuid_Nil; p_Scopes := []; p_Assurance := a |}));
    [|intros [[id user] a] Hs; by apply reads_done].
  apply reads_wrap. apply (reads_seq _ _ _ (fun y => GetSessionByTokenHash (token_Hash value) s = inl y)).
  - eapply reads_seq; [apply reads_lift|intros ? _]. eapply reads_seq; [apply reads_wrap, reads_query|intros y Hy].
    eapply reads_seq; [by apply reads_local|intros n _]. eapply reads_seq; [apply reads_raise_if|intros ? _].
    by apply reads_done.
  - intros y Hy. apply reads_done. exists y, value. unfold GetSessionByTokenHash in Hy.
    destruct (find _ _) as [y'|] eqn:Hf; [|done]. injection Hy as ->.
    apply find_some in Hf as [Hin Hp]. apply andb_true_iff in Hp as [Hh%bool_decide_eq_true Hl].
    split_and!; try done. by apply in_rows_of.
Qed.
Lemma reads_RequireSession cookie : reads s (RequireSession cookie) (session_of cookie).
Proof.
  apply (reads_seq _ _ _ (fun p => forall q, p = Some q -> session_of cookie q)).
  - unfold resolveSessionCookie. destruct cookie as [value|]; [|by apply reads_done].
    destruct (bool_decide _); [by apply reads_done|].
    eapply reads_seq; [apply reads_attempt, reads_session|]. intros p Hp. apply reads_done. intros q Hq.
    destruct p as [p|e]; [|done]. injection Hq as ->. by apply Hp.
  - intros [p|] Hp; [|apply reads_raise]. by apply reads_done, Hp.
Qed.
(** The organization that is looked up for a principal. *)
Definition member_of (r : Request) (p : Principal) (o : organizationContext) : Prop :=
  exists org user m, resolveOrganizationID r p = Some org /\ Principal_UserID p = Some user
    /\ GetOrganizationMember org user s = inl m /\ o = {| oc_ID := org; oc_Role := m_Role m |}.
Lemma reads_Require r p : reads s (Require r p) (fun o =>
  if bool_decide (p_CredentialType p = CredentialOrganizationToken)
  then o = {| oc_ID := p_OrganizationID p; oc_Role := "" |} else member_of r p o).
Proof.
  eapply reads_seq; [apply reads_raise_if|intros ? _]. eapply reads_seq; [|intros o Ho;
    eapply reads_seq; [apply reads_raise_if|intros ? _]; apply reads_done; exact Ho].
  unfold resolveOrganization. destruct (resolveOrganizationID r p) as [org|] eqn:Horg; [|apply reads_raise].
  unfold resolveOrganizationID in Horg. case_bool_decide as Hc.
  - apply reads_done. destruct (bool_decide _); [done|]. by injection Horg as <-.
  - destruct (Principal_UserID p) as [user|] eqn:Hu; [|apply reads_raise].
    eapply reads_seq; [apply reads_wrap, reads_query|intros m Hm]. eapply reads_seq; [apply reads_raise_if|intros ? _].
    apply reads_done. exists org, user, m. split_and!; try done. unfold resolveOrganizationID.
    by rewrite bool_decide_false.
Qed.
Lemma granted_by_token resource r k token o :
  bearer_token r = Some token -> (exists id, tokens s !! id = Some k) -> k_TokenHash k = HashToken token ->
  usable_token s k = true -> o = {| oc_ID := k_OrganizationID k; oc_Role := "" |} ->
  reads s (RequireAccess resource r (token_principal k) o) (fun _ => granted resource r (token_principal k) o).
Proof.
  intros Hb Hk Hh Hu ->. eapply reads_seq; [apply reads_raise_if|intros ? _].
  rewrite bool_decide_true by done. eapply reads_post; [apply reads_raise_if|]. intros ? Hs%negb_false_iff.
  left. exists k. split; [|done]. by exists token.
Qed.
Lemma GetOrganizationMember_inv org user m : GetOrganizationMember org user s = inl m ->
  members s !! (org, user) = Some m /\ m_Status m = "active"
  /\ exists o, organizations s !! org = Some o /\ o_Status o = "active" /\ o_DeletedAt o = None.
Proof.
  unfold GetOrganizationMember, active_member, open_org. destruct (members s !! (org, user)) as [x|]; [|done].
  case_bool_decide; [|done]. destruct (_ && _) eqn:Hc; [|done]. intros [= ->].
  apply andb_true_iff in Hc as [_ [o Ho]%bool_decide_eq_true]. split_and!; [done|done|].
  destruct (organizations s !! org) as [o'|]; [|done]. destruct (active_org o') eqn:Ha; [|done]. injection Ho as <-.
  unfold active_org in Ha. apply andb_true_iff in Ha as [?%bool_decide_eq_true ?%bool_decide_eq_true]. by exists o'.
Qed.
Lemma granted_by_session resource r y value o :
  Cookie r = Some value -> s_TokenHash y = token_Hash value -> (exists id, sessions s !! id = Some y) ->
  live_session s y = true -> member_of r (session_principal y) o ->
  reads s (RequireAccess resource r (session_principal y) o) (fun _ => granted resource r (session_principal y) o).
Proof.
  intros Hc Hh Hy Hl (org & user & m & Horg & Hu & Hm & ->). eapply reads_seq; [apply reads_raise_if|intros ? _].
  rewrite bool_decide_false by done. eapply reads_post; [apply reads_raise_if|]. intros ? Hf.
  apply orb_false_iff in Hf as [[_ Hw]%orb_false_iff Hd]. cbn [oc_Role] in Hw, Hd.
  right. exists y, org, m. split; [|done].
  unfold Principal_UserID in Hu. destruct (_ && _); [|done]. injection Hu as <-.
  apply GetOrganizationMember_inv in Hm as (Hm & Hst & Ho).
  unfold resolveOrganizationID in Horg. rewrite bool_decide_false in Horg by done.
  destruct (bool_decide (OrganizationHeader r = "")); [done|]. destruct (uuid_Parse (OrganizationHeader r)) as [org'|] eqn:Hhead; [|done].
  assert (org' = org /\ (PathID r = "" \/ uuid_Parse (PathID r) = Some org)) as [-> Hpath].
  { destruct (decide (PathID r = "")) as [Hp|Hp]; [rewrite bool_decide_true in Horg by done|rewrite bool_decide_false in Horg by done].
    - injection Horg as ->. by split; [|left].
    - destruct (decide (uuid_Parse (PathID r) = Some org')) as [Hq|Hq];
        [rewrite bool_decide_true in Horg by done|by rewrite bool_decide_false in Horg].
      injection Horg as ->. by split; [|right]. }
  split_and!; try done; [by exists value| |].
  - intros Hwr Hmem. rewrite Hwr, Hmem in Hw. done.
  - intros -> Hdel. rewrite Hdel in Hd. simpl in Hd. by apply negb_false_iff, bool_decide_eq_true in Hd.
Qed.

(** C10: A request that reaches a resource of an organization, whatever fails on the
    way, has shown either a token of the organization that is not disabled or over
    and whose scopes name the resource and the access, or a live session of an
    active member whose role permits the method; the organization is active and is
    the one the handlers act on, and nothing has been written. *)
Theorem access_is_granted resource r fs p o s' :
  run (organizationAccess resource r) fs s = (inl (p, o), s') -> s' = s /\ granted resource r p o.
Proof.
  intros Hr. enough (reads s (organizationAccess resource r) (fun '(p, o) => granted resource r p o)) as H.
  { destruct (H _ _ _ Hr) as [-> Hg]. split; [done|]. by apply (Hg (p, o)). }
  clear Hr. apply (reads_seq _ _ _ (fun p =>
    (exists k token, p = token_principal k /\ bearer_token r = Some token /\ (exists id, tokens s !! id = Some k)
       /\ k_TokenHash k = HashToken token /\ usable_token s k = true) \/ session_of (Cookie r) p)).
  - eapply reads_seq; [apply reads_bearer|]. intros [[q|] attempted] Hq; [by apply reads_done; left; apply Hq|].
    destruct attempted; [apply reads_raise|]. eapply reads_post; [apply reads_RequireSession|]. by right.
  - intros q Hq. eapply reads_seq; [apply reads_Require|]. intros c Hc.
    eapply reads_seq; [|intros ? Hg; apply reads_done; exact Hg].
    destruct Hq as [(k & token & -> & Hb & Hk & Hh & Hu)|(y & value & -> & Hck & Hh & Hy & Hl)].
    + rewrite bool_decide_true in Hc by done. by eapply granted_by_token.
    + rewrite bool_decide_false in Hc by done. by eapply granted_by_session.
Qed.
End Access.

(** A token of organization 1 with one scope. *)
Section Example_.
#[local] Existing Instance toy_secrets.
#[local] Existing Instance decimal_uuid.
Definition ex_bearer : string * string * string := GenerateToken (random_bytes 3 secretBytes).
Definition ex_k : OrganizationToken := {|
  k_ID := 5; k_OrganizationID := 1; k_CreatedBy := None; k_Name := "ci"; k_Description := None;
  k_TokenHash := snd ex_bearer; k_TokenPrefix := snd (fst ex_bearer); k_Scopes := ["calls:read"%string];
  k_LastUsedAt := None; k_LastUsedIp := None; k_ExpiresAt := Some 50; k_DisabledAt := None; k_CreatedAt := 1; k_UpdatedAt := 1 |}.
Definition ex_world : State := {|
  users := ∅; transactions := ∅; challenges := ∅; sessions := ∅;
  organizations := {[1 := {| o_ID := 1; o_Name := "o"; o_Status := "active"; o_CreatedAt := 1; o_UpdatedAt := 1; o_DeletedAt := None |}]};
  members := ∅; tokens := {[5 := ex_k]}; past := []; now := 9; next := 10 |}.
Definition ex_request (method : string) : Request := {|
  Method := method; Cookie := None; Authorization := "Bearer " +:+ fst (fst ex_bearer); OrganizationHeader := ""; PathID := "" |}.
Lemma access_is_granted_witness :
  granted ex_world "calls" (ex_request "GET") (token_principal ex_k) {| oc_ID := 1; oc_Role := "" |}
  /\ run (organizationAccess "calls" (ex_request "POST")) [] ex_world =
       (inr (NewForbidden "credential scope required: calls:write"), ex_world).
Proof.
  split; [|vm_compute; reflexivity].
  refine (proj2 (access_is_granted ex_world "calls" (ex_request "GET") [] _ _ ex_world _)). vm_compute. reflexivity.
Defined.
End Example_.
End Access.
