(* ===== verification/IdentitySafety.v ===== *)
(** * Users, sessions and organizations: the invariant of any interleaving

    [inv] is what always holds of the tables, [guar] what a single call of any
    program may change; every statement keeps to both. *)

From S2P Require Import Prelude Encryption Programs Routing Paths Secrets IdentityStore Identity Tenancy.
Local Open Scope Z_scope.

Module IdentitySafety.
Import AppErr Programs Secrets IdentityStore Identity Tenancy.

Section Safety.
Context {I : IdentityLib} {X : SecretLib} {U : UuidLib}.
(** The users who have a password to begin with, and the passwords that are typed
    into log-in requests. *)
Context (enrolled : UUID -> Prop) (presented : string -> Prop).

(** ** The invariant *)
(** Somebody typed a password of [u] and finished a transaction of [u] with it. *)
Definition earned (u : UUID) (s : State) : Prop :=
  exists v h tx t, presented v /\ (u, h) ∈ past s /\ password_Verify v h = true
    /\ transactions s !! tx = Some t /\ t_UserID t = Some u /\ t_State t = "authenticated".
Record session_ok (s : State) (x : Session) : Prop := {
  session_earned : earned (s_UserID x) s;
  session_assurance : s_Assurance x = "password";
  session_expiry : s_ExpiresAt x <= s_CreatedAt x + sessionTTL;
  session_token : exists n, s_TokenHash x = token_Hash (token_with (random_bytes n sessionTokenBytes));
}.
Definition owner_of (s : State) (org u : UUID) : Prop :=
  exists m, members s !! (org, u) = Some m /\ m_Role m = RoleOwner /\ m_Status m = "active".

Definition user_row (s : State) (id : UUID) (u : User) : Prop :=
  u_ID u = id /\ id < next s /\ forall h, u_PasswordHash u = Some h -> (id, h) ∈ past s.
Definition transaction_row (s : State) (id : UUID) (t : AuthTransaction) : Prop := t_ID t = id /\ id < next s.
Definition session_row (s : State) (id : UUID) (x : Session) : Prop := s_ID x = id /\ id < next s /\ session_ok s x.
Definition org_row (s : State) (id : UUID) (o : Organization) : Prop :=
  o_ID o = id /\ id < next s /\ exists u, owner_of s id u.
Definition member_row (s : State) (k : UUID * UUID) (m : OrganizationMember) : Prop :=
  (m_OrganizationID m, m_UserID m) = k /\ is_Some (organizations s !! fst k) /\ m_Role m ∈ roles
  /\ (m_Role m = RoleOwner -> m_Status m = "active").
Definition token_row (s : State) (id : UUID) (k : OrganizationToken) : Prop :=
  k_ID k = id /\ id < next s /\ is_Some (organizations s !! k_OrganizationID k) /\ ValidateScopes (k_Scopes k) = inl tt.

Record inv (s : State) : Prop := {
  inv_next : 0 < next s;
  inv_users : forall id u, users s !! id = Some u -> user_row s id u;
  inv_past : forall u h, (u, h) ∈ past s -> enrolled u;
  inv_transactions : forall id t, transactions s !! id = Some t -> transaction_row s id t;
  inv_challenges : forall id c, challenges s !! id = Some c -> ch_Purpose c ∈ purposes;
  inv_sessions : forall id x, sessions s !! id = Some x -> session_row s id x;
  inv_hashes : forall id x id' x', sessions s !! id = Some x -> sessions s !! id' = Some x' ->
    s_TokenHash x = s_TokenHash x' -> id = id';
  inv_orgs : forall id o, organizations s !! id = Some o -> org_row s id o;
  inv_members : forall k m, members s !! k = Some m -> member_row s k m;
  inv_owners : forall org u u', owner_of s org u -> owner_of s org u' -> u = u';
  inv_tokens : forall id k, tokens s !! id = Some k -> token_row s id k;
}.

(** ** The guarantee *)
Definition some_admin (s : State) (org : UUID) : Prop := exists actor, is_admin s org actor = true.
Record guar (s s' : State) : Prop := {
  guar_next : next s <= next s';
  guar_now : now s <= now s';
  guar_past : forall x, x ∈ past s -> x ∈ past s';
  guar_users : forall id u, users s !! id = Some u -> exists u', users s' !! id = Some u'
    /\ u_Email u' = u_Email u /\ (u_DisabledAt u <> None -> u_DisabledAt u' = u_DisabledAt u);
  guar_transactions : forall id t, transactions s !! id = Some t -> exists t', transactions s' !! id = Some t'
    /\ t_UserID t' = t_UserID t /\ (t_State t = "authenticated" -> t_State t' = "authenticated");
  guar_sessions : forall id x, sessions s !! id = Some x -> exists x', sessions s' !! id = Some x'
    /\ s_UserID x' = s_UserID x /\ s_TokenHash x' = s_TokenHash x /\ s_ExpiresAt x' = s_ExpiresAt x
    /\ (s_RevokedAt x <> None -> s_RevokedAt x' = s_RevokedAt x);
  guar_orgs : forall id o, organizations s !! id = Some o -> exists o', organizations s' !! id = Some o'
    /\ (o_DeletedAt o <> None -> o_DeletedAt o' = o_DeletedAt o);
  guar_members : forall org u, members s' !! (org, u) = members s !! (org, u) \/ organizations s !! org = None
    \/ (some_admin s org /\ ~ owner_of s org u /\ ~ owner_of s' org u);
  guar_tokens : forall id k, tokens s !! id = Some k -> exists k', tokens s' !! id = Some k'
    /\ k_OrganizationID k' = k_OrganizationID k /\ k_TokenHash k' = k_TokenHash k
    /\ (k_DisabledAt k <> None -> k_DisabledAt k' = k_DisabledAt k)
    /\ (k' = k \/ some_admin s (k_OrganizationID k));
  guar_new_tokens : forall id k', tokens s' !! id = Some k' -> is_Some (tokens s !! id)
    \/ exists actor, k_CreatedBy k' = Some actor /\ is_admin s (k_OrganizationID k') actor = true;
}.
Lemma id_guar_refl s : guar s s.
Proof. split; eauto 10; lia. Qed.

(** ** What keeps *)
Lemma earned_guar s s' u : guar s s' -> earned u s -> earned u s'.
Proof.
  intros Hg (v & h & tx & t & Hv & Hp & Hver & Ht & Hu & Ha).
  destruct (guar_transactions _ _ Hg _ _ Ht) as (t' & Ht' & Hu' & Ha').
  exists v, h, tx, t'. split_and!; [done|by apply (guar_past _ _ Hg)|done|done|congruence|auto].
Qed.
Lemma session_ok_guar s s' x : guar s s' -> session_ok s x -> session_ok s' x.
Proof. intros Hg [He ? ? ?]. split; [by eapply earned_guar|done..]. Qed.
Lemma org_exists_guar s s' org : guar s s' -> is_Some (organizations s !! org) -> is_Some (organizations s' !! org).
Proof. intros Hg [o Ho]. destruct (guar_orgs _ _ Hg _ _ Ho) as (o' & -> & _). done. Qed.
Lemma owner_guar s s' org u : inv s -> guar s s' -> owner_of s org u -> owner_of s' org u.
Proof.
  intros Hi Hg Ho. pose proof Ho as (m & Hm & Hr & Hs).
  destruct (guar_members _ _ Hg org u) as [Heq|[Hn|(_ & Hno & _)]]; [|exfalso|done].
  - exists m. by rewrite Heq.
  - destruct (inv_members _ Hi _ _ Hm) as (_ & [o Hor] & _). simpl in Hor. congruence.
Qed.

Lemma id_allowed s s' :
  inv s -> guar s s' ->
  rows_ok (users s) (users s') (user_row s') ->
  (forall u h, (u, h) ∈ past s' -> (u, h) ∈ past s \/ enrolled u) ->
  rows_ok (transactions s) (transactions s') (transaction_row s') ->
  rows_ok (challenges s) (challenges s') (fun _ c => ch_Purpose c ∈ purposes) ->
  rows_ok (sessions s) (sessions s') (session_row s') ->
  (forall id x id' x', sessions s !! id = None -> sessions s' !! id = Some x -> sessions s' !! id' = Some x' ->
     s_TokenHash x = s_TokenHash x' -> id = id') ->
  rows_ok (organizations s) (organizations s') (org_row s') ->
  rows_ok (members s) (members s') (member_row s') ->
  (forall org u u', organizations s !! org = None -> owner_of s' org u -> owner_of s' org u' -> u = u') ->
  rows_ok (tokens s) (tokens s') (token_row s') ->
  allowed inv guar s s'.
Proof.
  intros Hi Hg Hu Hp Ht Hc Hs Hnew Ho Hm Hown Hk. split; [|done].
  pose proof (guar_next _ _ Hg) as Hn. split.
  - pose proof (inv_next _ Hi). lia.
  - intros id u [Hold|]%Hu; [|done]. destruct (inv_users _ Hi _ _ Hold) as (? & ? & Hh).
    split_and!; [done|lia|]. intros h Hh'. by apply (guar_past _ _ Hg), Hh.
  - intros u h [Hold|]%Hp; [by apply (inv_past _ Hi u h)|done].
  - intros id t [Hold|]%Ht; [|done]. destruct (inv_transactions _ Hi _ _ Hold). split; [done|lia].
  - intros id c [Hold|]%Hc; [by apply (inv_challenges _ Hi id)|done].
  - intros id x [Hold|]%Hs; [|done]. destruct (inv_sessions _ Hi _ _ Hold) as (? & ? & ?).
    split_and!; [done|lia|by eapply session_ok_guar].
  - intros id x id' x' Hx Hx' Heq. destruct (sessions s !! id) as [y|] eqn:Hy; [|by eapply Hnew].
    destruct (sessions s !! id') as [y'|] eqn:Hy'; [|symmetry; by eapply Hnew].
    destruct (guar_sessions _ _ Hg _ _ Hy) as (z & Hz & _ & Hhz & _).
    destruct (guar_sessions _ _ Hg _ _ Hy') as (z' & Hz' & _ & Hhz' & _).
    apply (inv_hashes _ Hi _ _ _ _ Hy Hy'). congruence.
  - intros id o [Hold|]%Ho; [|done]. destruct (inv_orgs _ Hi _ _ Hold) as (? & ? & w & Hw).
    split_and!; [done|lia|]. exists w. by eapply owner_guar.
  - intros k m [Hold|]%Hm; [|done]. destruct (inv_members _ Hi _ _ Hold) as (? & ? & ? & ?).
    split_and!; [done|by eapply org_exists_guar|done|done].
  - intros org u u' H1 H2. destruct (organizations s !! org) as [o|] eqn:Horg; [|by eapply Hown].
    assert (forall w, owner_of s' org w -> owner_of s org w) as Hback.
    { intros w Hw. destruct (guar_members _ _ Hg org w) as [Heq|[Hnone|(_ & _ & Hno)]]; [|congruence|done].
      destruct Hw as (m & Hm' & ?). exists m. by rewrite <- Heq. }
    apply (inv_owners _ Hi org); auto.
  - intros id k [Hold|]%Hk; [|done]. destruct (inv_tokens _ Hi _ _ Hold) as (? & ? & ? & ?).
    split_and!; [done|lia|by eapply org_exists_guar|done].
Qed.
Definition ok : State -> State -> Prop := allowed inv guar.
End Safety.
End IdentitySafety.
