(* ===== verification/IdentityStatements.v ===== *)
(** * Users, sessions and organizations: every statement keeps the invariant *)

From S2P Require Import Prelude Encryption Programs Routing Paths Secrets IdentityStore Identity Tenancy IdentitySafety.
Local Open Scope Z_scope.

Module IdentityStatements.
Import AppErr Programs Secrets IdentityStore Identity Tenancy IdentitySafety.

Section Statements.
Context {I : IdentityLib} {X : SecretLib} {U : UuidLib}.
Context (enrolled : UUID -> Prop) (presented : string -> Prop).
Abbreviation inv := (inv enrolled presented).
Abbreviation ok := (ok enrolled presented).
Abbreviation session_ok := (session_ok presented).
Abbreviation earned := (earned presented).

(** The fields of the guarantee that a change leaves alone. *)
Ltac untouched s :=
  first [ exact (guar_past _ _ (id_guar_refl s)) | exact (guar_users _ _ (id_guar_refl s))
        | exact (guar_transactions _ _ (id_guar_refl s)) | exact (guar_sessions _ _ (id_guar_refl s))
        | exact (guar_orgs _ _ (id_guar_refl s)) | exact (guar_members _ _ (id_guar_refl s))
        | exact (guar_tokens _ _ (id_guar_refl s)) | exact (guar_new_tokens _ _ (id_guar_refl s))
        | simpl; lia ].
(** The rows of a table that a change leaves alone; no change of owners. *)
Ltac unchanged := first [ exact (rows_same _ _) | by left
  | intros org u u' Hnone (m & Hm & _) _; exfalso ].

(** An organization that is not there has no members. *)
Lemma no_org_no_owner s org u : inv s -> organizations s !! org = None -> ~ owner_of s org u.
Proof.
  intros Hi Hn (m & Hm & _). destruct (inv_members _ _ _ Hi _ _ Hm) as (_ & [o Ho] & _). simpl in Ho. congruence.
Qed.
(** No new owners where the members are the same. *)
Lemma owners_same s s' : inv s -> members s' = members s ->
  forall org u u', organizations s !! org = None -> owner_of s' org u -> owner_of s' org u' -> u = u'.
Proof.
  intros Hi Hm org u u' Hn (m & Hu & Hr) _. exfalso. eapply (no_org_no_owner s org u); [done|done|].
  exists m. by rewrite <- Hm.
Qed.
(** No session is new. *)
Lemma sessions_same s s' : sessions s' = sessions s -> forall id x id' x', sessions s !! id = None ->
  sessions s' !! id = Some x -> sessions s' !! id' = Some x' -> s_TokenHash x = s_TokenHash x' -> id = id'.
Proof. intros -> id x id' x' Hn Hx. congruence. Qed.
Ltac same_sessions := by apply sessions_same.
Ltac alone s Hi := apply id_allowed; [exact Hi|split; try untouched s|..];
  try exact (rows_same _ _); try (by left); try same_sessions; try (by apply (owners_same s); [exact Hi|reflexivity]).

Lemma id_ok_refl s : inv s -> ok s s.
Proof. intros Hi. split; [done|apply id_guar_refl]. Qed.
Lemma fresh_ok s : inv s -> ok s (snd (fresh s)).
Proof. intros Hi. alone s Hi. Qed.

(** Inserting a row with a new key does not touch the others. *)
Lemma fresh_key {A} (m : gmap UUID A) (P : UUID -> A -> Prop) s k a :
  (forall id x, m !! id = Some x -> P id x /\ id < next s) -> m !! k = Some a -> k <> next s.
Proof. intros H Hk ->. apply H in Hk as [_ ?]. lia. Qed.

(** ** Users *)
Lemma ok_user s id u u' l :
  inv s -> users s !! id = Some u -> u_ID u' = id -> u_Email u' = u_Email u ->
  (u_DisabledAt u <> None -> u_DisabledAt u' = u_DisabledAt u) ->
  (forall h, u_PasswordHash u' = Some h -> (id, h) ∈ past s ++ l) ->
  (forall v h, (v, h) ∈ l -> enrolled v) ->
  forall s', users s' = <[id := u']> (users s) -> past s' = past s ++ l ->
  transactions s' = transactions s -> challenges s' = challenges s -> sessions s' = sessions s ->
  organizations s' = organizations s -> members s' = members s -> tokens s' = tokens s -> now s' = now s ->
  next s' = next s -> ok s s'.
Proof.
  intros Hi Hu Hid He Hd Hh Hl s' Eu Ep Et Ec Es Eo Em Ek En Ex.
  destruct (inv_users _ _ _ Hi _ _ Hu) as (_ & Hlt & _).
  apply id_allowed; [exact Hi|split|..]; rewrite ?Eu, ?Ep, ?Et, ?Ec, ?Es, ?Eo, ?Em, ?Ek, ?En, ?Ex; try untouched s;
    try exact (rows_same _ _).
  - intros x Hx. apply elem_of_app. by left.
  - intros k x Hx. destruct (decide (k = id)) as [->|Hne].
    + rewrite lookup_insert_eq. exists u'. rewrite Hx in Hu. by injection Hu as ->.
    + rewrite lookup_insert_ne by done. eauto.
  - by left.
  - apply rows_insert. split_and!; [done|by rewrite Ex|]. rewrite Ep. exact Hh.
  - intros v h [?|Hin]%elem_of_app; [by left|right]. by eapply Hl.
  - intros k x k' x' Hn Hx. congruence.
  - by apply (owners_same s).
Qed.
Lemma put_user_inv u s x s' : put_user u s = inl (x, s') -> x = u /\ s' = set_users (<[u_ID u := u]> (users s)) s.
Proof. unfold put_user. repeat (case_match; [done|]). by intros [= <- <-]. Qed.
Lemma active_user_inv s id u : active_user s id = Some u -> users s !! id = Some u /\ u_DisabledAt u = None.
Proof.
  unfold active_user. destruct (users s !! id) as [x|]; [|done]. destruct (enabled x) eqn:He; [|done].
  intros [= ->]. split; [done|]. by apply bool_decide_eq_true in He.
Qed.
Lemma update_user_inv s id f x s' :
  inv s -> update_user id f s = inl (x, s') ->
  exists u, users s !! id = Some u /\ u_DisabledAt u = None /\ u_ID u = id /\ x = f u
    /\ s' = set_users (<[u_ID (f u) := f u]> (users s)) s.
Proof.
  intros Hi. unfold update_user. destruct (active_user s id) as [u|] eqn:Hu; [|done].
  apply active_user_inv in Hu as [Hu Hd]. intros [-> ->]%put_user_inv.
  destruct (inv_users _ _ _ Hi _ _ Hu) as (Hid & _ & _). by exists u.
Qed.
Lemma id_account_ok s id x s' v n :
  inv s -> update_user id (fun u => with_account (now s) (v u) (n u) (u_PasswordHash u) (u_DisabledAt u) u) s = inl (x, s') ->
  ok s s'.
Proof.
  intros Hi (u & Hu & Hd & Hid & -> & ->)%update_user_inv; [|done].
  simpl. rewrite Hid.
  apply (ok_user s id u (with_account (now s) (v u) (n u) (u_PasswordHash u) (u_DisabledAt u) u) []);
    try done; simpl; rewrite ?app_nil_r; try done.
  - by apply (inv_users _ _ _ Hi _ _ Hu).
  - by intros v' h Hin%elem_of_nil.
Qed.
Lemma MarkUserEmailVerified_ok s id x s' : inv s -> MarkUserEmailVerified id s = inl (x, s') -> ok s s'.
Proof. intros Hi. by apply (id_account_ok _ _ _ _ (fun _ => true)). Qed.
Lemma UpdateUserProfile_ok s id name x s' : inv s -> UpdateUserProfile id name s = inl (x, s') -> ok s s'.
Proof.
  intros Hi. apply (id_account_ok _ _ _ _ u_EmailVerified (fun u => match name with Some n => Some n | None => u_Name u end)).
  done.
Qed.
Lemma DisableUser_ok s id x s' : inv s -> DisableUser id s = inl (x, s') -> ok s s'.
Proof.
  intros Hi. unfold DisableUser. destruct (active_user s id) as [u|] eqn:Hu; intros [= _ <-]; [|by apply id_ok_refl].
  apply active_user_inv in Hu as [Hu Hd]. destruct (inv_users _ _ _ Hi _ _ Hu) as (Hid & _ & Hh). rewrite Hid.
  apply (ok_user s id u (with_account (now s) (u_EmailVerified u) (u_Name u) (u_PasswordHash u) (Some (now s)) u) []);
    try done; simpl; rewrite ?app_nil_r; try done.
  by intros v' h Hin%elem_of_nil.
Qed.
Lemma SetUserPassword_ok s id hash x s' :
  inv s -> enrolled id -> SetUserPassword id hash s = inl (x, s') -> ok s s'.
Proof.
  intros Hi Hen. unfold SetUserPassword. intros ([u s1] & Hx & [= <- <-])%rbind_ok_inv.
  apply update_user_inv in Hx as (u0 & Hu & Hd & Hid & -> & ->); [|done].
  simpl. rewrite Hid.
  apply (ok_user s id u0 (with_account (now s) (u_EmailVerified u0) (u_Name u0) (Some hash) (u_DisabledAt u0) u0) [(id, hash)]);
    try done; simpl.
  - intros h [= <-]. apply elem_of_app. right. left.
  - intros v h Hin%list_elem_of_singleton. by injection Hin as -> ->.
Qed.

(** ** Authentication transactions *)
Lemma ok_transactions s m : inv s ->
  (forall id t, transactions s !! id = Some t -> exists t', m !! id = Some t'
    /\ t_UserID t' = t_UserID t /\ (t_State t = "authenticated" -> t_State t' = "authenticated")) ->
  rows_ok (transactions s) m (transaction_row s) -> ok s (set_transactions m s).
Proof. intros Hi Hold Hnew. alone s Hi; [exact Hold|exact Hnew]. Qed.
Lemma ok_transaction_update s id t t' : inv s -> transactions s !! id = Some t ->
  t_ID t' = t_ID t -> t_UserID t' = t_UserID t -> (t_State t = "authenticated" -> t_State t' = "authenticated") ->
  ok s (set_transactions (<[id := t']> (transactions s)) s).
Proof.
  intros Hi Ht Hid Hu Hs. destruct (inv_transactions _ _ _ Hi _ _ Ht) as [Hk Hlt].
  apply ok_transactions; [done| |apply rows_insert; split; [congruence|done]].
  intros k x Hx. destruct (decide (k = id)) as [->|Hne].
  - rewrite lookup_insert_eq. exists t'. rewrite Ht in Hx. by injection Hx as <-.
  - rewrite lookup_insert_ne by done. eauto.
Qed.
Lemma MarkAuthTransactionAuthenticated_ok s id x s' :
  inv s -> MarkAuthTransactionAuthenticated id s = inl (x, s') ->
  ok s s' /\ exists t, transactions s !! id = Some t /\ transactions s' !! id = Some x
    /\ t_UserID x = t_UserID t /\ t_State x = "authenticated".
Proof.
  intros Hi. unfold MarkAuthTransactionAuthenticated. destruct (transactions s !! id) as [t|] eqn:Ht; [|done].
  destruct (_ && _); [|done]. intros [= <- <-]. split.
  - by eapply ok_transaction_update.
  - exists t. simpl. by rewrite lookup_insert_eq.
Qed.
Lemma ExpireAuthTransaction_ok s id x s' : inv s -> ExpireAuthTransaction id s = inl (x, s') -> ok s s'.
Proof.
  intros Hi. unfold ExpireAuthTransaction. destruct (transactions s !! id) as [t|] eqn:Ht; [|by intros [= _ <-]; apply id_ok_refl].
  case_bool_decide as Hc; intros [= _ <-]; [by apply id_ok_refl|]. eapply ok_transaction_update; try done.
  intros Hs. destruct Hc. rewrite Hs. left.
Qed.
Lemma CreateAuthTransaction_ok s email u e x s' :
  inv s -> CreateAuthTransaction (next s) email u e (snd (fresh s)) = inl (x, s') -> ok s s'.
Proof.
  intros Hi. unfold CreateAuthTransaction. repeat (case_match; [done|]). intros [= _ <-]. clear -Hi.
  alone s Hi.
  - intros k t Hk. simpl. destruct (inv_transactions _ _ _ Hi _ _ Hk) as [_ Hlt].
    rewrite lookup_insert_ne by lia. eauto.
  - apply rows_insert. split; [done|]. simpl. lia.
Qed.

(** ** Challenges *)
Lemma CreateAuthChallenge_otp id t i h n e s : exists err, CreateAuthChallenge id t i h "otp" None n e s = inr err.
Proof. by eexists. Qed.
Lemma ok_challenges s m : inv s ->
  rows_ok (challenges s) m (fun _ c => ch_Purpose c ∈ purposes) -> ok s (set_challenges m s).
Proof. intros Hi Hnew. alone s Hi. exact Hnew. Qed.
Lemma no_otp_challenge s id : inv s -> exists err, GetActiveAuthChallenge id "otp" s = inr err.
Proof.
  intros Hi. unfold GetActiveAuthChallenge.
  match goal with |- context [head ?l] => destruct (head l) as [c|] eqn:Hc; [|by eexists] end.
  exfalso. apply head_Some_elem_of in Hc. rewrite sorting.merge_sort_Permutation in Hc.
  apply list_elem_of_filter in Hc as [Hp Hin]. rewrite !andb_true_iff in Hp. destruct Hp as [[_ Hp%bool_decide_eq_true] _].
  apply list_elem_of_fmap in Hin as ([k c'] & -> & Hk%elem_of_map_to_list). simpl in Hp.
  apply (inv_challenges _ _ _ Hi) in Hk. rewrite Hp in Hk. by apply (bool_decide_eq_true_2 ("otp"%string ∈ purposes)) in Hk.
Qed.

(** ** Sessions *)
Lemma CreateSession_ok s u n ip agent e x s' :
  inv s -> earned u s -> e <= now s + sessionTTL ->
  CreateSession (next s) u (token_Hash (token_with (random_bytes n sessionTokenBytes))) "password" ip agent e (snd (fresh s))
    = inl (x, s') -> ok s s'.
Proof.
  intros Hi He Hexp. unfold CreateSession. destruct (active_user _ u); [|done].
  match goal with |- context [existsb ?p ?l] => destruct (existsb p l) eqn:Huniq end; repeat (case_match; [done|]); [done|].
  intros [= _ <-]. assert (forall id' x', sessions s !! id' = Some x' ->
    s_TokenHash x' <> token_Hash (token_with (random_bytes n sessionTokenBytes))) as Hfresh.
  { intros id' x' Hx' Heq. assert (x' ∈ rows_of (sessions s)) as Hin%list_elem_of_In.
    { apply list_elem_of_fmap. exists (id', x'). split; [done|]. by apply elem_of_map_to_list. }
    apply not_true_iff_false in Huniq. apply Huniq, existsb_exists. exists x'. by rewrite bool_decide_eq_true. }
  clear -Hi He Hexp Hfresh. alone s Hi.
  - intros k y Hk. simpl. destruct (inv_sessions _ _ _ Hi _ _ Hk) as (_ & Hlt & _).
    rewrite lookup_insert_ne by lia. eauto 10.
  - apply rows_insert. split_and!; [done|simpl; lia|]. split; simpl; [exact He|done|done|by exists n].
  - intros id x id' x' Hn Hx Hx' Heq. simpl in Hx, Hx'. destruct (decide (id = next s)) as [->|Hne];
      [|rewrite lookup_insert_ne in Hx by done; congruence].
    rewrite lookup_insert_eq in Hx. injection Hx as <-. destruct (decide (id' = next s)) as [->|Hne]; [done|].
    rewrite lookup_insert_ne in Hx' by done. by destruct (Hfresh _ _ Hx').
Qed.
Lemma revoke_ok s p : inv s -> ok s (revoke_where p s).
Proof.
  intros Hi. alone s Hi.
  - intros k y Hk. simpl. rewrite lookup_fmap, Hk. simpl. eexists. split; [done|].
    destruct (p y); [|done]. split_and!; try done. simpl. by destruct (s_RevokedAt y).
  - intros k y Hy. simpl in Hy. rewrite lookup_fmap in Hy. destruct (sessions s !! k) as [x|] eqn:Hx; [|done].
    destruct (inv_sessions _ _ _ Hi _ _ Hx) as (Hid & Hlt & Hok). injection Hy as <-.
    destruct (p x); [right|by left]. split_and!; [done|done|]. by destruct Hok; split.
  - intros k y k' y' Hn Hy. simpl in Hy. by rewrite lookup_fmap, Hn in Hy.
Qed.

(** ** Organizations *)
Lemma CreateOrganization_ok s name u x s' :
  inv s -> CreateOrganizationWithOwner (next s) name u (snd (fresh s)) = inl (x, s') -> ok s s'.
Proof.
  intros Hi. unfold CreateOrganizationWithOwner. destruct (active_user _ u); [|done].
  case_match; [done|]. intros [= _ <-]. clear -Hi.
  assert (organizations s !! next s = None) as Hn.
  { destruct (organizations s !! next s) as [o|] eqn:Ho; [|done]. destruct (inv_orgs _ _ _ Hi _ _ Ho) as (_ & ? & _). lia. }
  set (m := new_member (now s) (next s) u "owner").
  assert (forall w, (<[(next s, u) := m]> (members s)) !! (next s, w) = if decide (w = u) then Some m else None) as Hlook.
  { intros w. destruct (decide (w = u)) as [->|Hne]; [by rewrite lookup_insert_eq|].
    rewrite lookup_insert_ne by congruence. destruct (members s !! (next s, w)) as [m'|] eqn:Hm; [|done].
    destruct (inv_members _ _ _ Hi _ _ Hm) as (_ & [o Ho] & _). simpl in Ho. congruence. }
  apply id_allowed; [exact Hi|split; try untouched s|..]; try exact (rows_same _ _); try (by left); try same_sessions.
  - intros id o Ho. simpl. rewrite lookup_insert_ne by congruence. eauto.
  - intros org w. simpl. destruct (decide (org = next s)) as [->|Hne]; [by right; left|left].
    by rewrite lookup_insert_ne by congruence.
  - apply rows_insert. split_and!; [done|simpl; lia|]. exists u, m. simpl. by rewrite lookup_insert_eq.
  - apply rows_insert. split_and!; [done|simpl; by rewrite lookup_insert_eq|left|done].
  - intros org w w' Hnone (m1 & Hm1 & Hr1 & _) (m2 & Hm2 & Hr2 & _). simpl in Hm1, Hm2.
    destruct (decide (org = next s)) as [->|Hne].
    + rewrite Hlook in Hm1, Hm2. destruct (decide (w = u)), (decide (w' = u)); congruence.
    + rewrite lookup_insert_ne in Hm1 by congruence. destruct (inv_members _ _ _ Hi _ _ Hm1) as (_ & [o Ho] & _).
      simpl in Ho. congruence.
Qed.
Lemma ok_org s id o o' : inv s -> organizations s !! id = Some o -> o_ID o' = o_ID o ->
  (o_DeletedAt o <> None -> o_DeletedAt o' = o_DeletedAt o) ->
  ok s (set_organizations (<[id := o']> (organizations s)) s).
Proof.
  intros Hi Ho Hid Hd. destruct (inv_orgs _ _ _ Hi _ _ Ho) as (Hk & Hlt & Hw).
  assert (forall k, is_Some (organizations s !! k) -> is_Some (<[id := o']> (organizations s) !! k)) as Hsome.
  { intros k Hs. destruct (decide (k = id)) as [->|Hne]; [by rewrite lookup_insert_eq|by rewrite lookup_insert_ne]. }
  alone s Hi.
  - intros k x Hx. simpl. destruct (decide (k = id)) as [->|Hne].
    + rewrite lookup_insert_eq. exists o'. rewrite Ho in Hx. by injection Hx as <-.
    + rewrite lookup_insert_ne by done. eauto.
  - apply rows_insert. split_and!; [congruence|done|exact Hw].
Qed.
Lemma UpdateOrganization_ok s id name x s' : inv s -> UpdateOrganization id name s = inl (x, s') -> ok s s'.
Proof.
  intros Hi. unfold UpdateOrganization, open_org. destruct (organizations s !! id) as [o|] eqn:Ho; [|done].
  destruct (active_org o); [|done]. case_match; [done|]. intros [= _ <-]. by eapply ok_org.
Qed.
Lemma DeleteOrganization_ok s id x s' : inv s -> DeleteOrganization id s = inl (x, s') -> ok s s'.
Proof.
  intros Hi. unfold DeleteOrganization. destruct (organizations s !! id) as [o|] eqn:Ho; [|by intros [= _ <-]; apply id_ok_refl].
  case_bool_decide as Hd; intros [= _ <-]; [|by apply id_ok_refl]. by eapply ok_org.
Qed.
(** ** Members *)
Lemma active_member_inv s org u m : active_member s org u = Some m -> members s !! (org, u) = Some m /\ m_Status m = "active".
Proof.
  unfold active_member. destruct (members s !! (org, u)) as [x|]; [|done]. case_bool_decide; [|done]. by intros [= ->].
Qed.
Lemma admin_org s org actor : inv s -> is_admin s org actor = true -> is_Some (organizations s !! org).
Proof.
  intros Hi. unfold is_admin. destruct (active_member s org actor) as [m|] eqn:Hm; [|done]. intros _.
  apply active_member_inv in Hm as [Hm _]. by destruct (inv_members _ _ _ Hi _ _ Hm) as (_ & ? & _).
Qed.
(** An administrator sets a membership that is and will be no owner's. *)
Lemma ok_member s org u m actor : inv s -> is_admin s org actor = true ->
  (forall x, members s !! (org, u) = Some x -> m_Role x <> RoleOwner) ->
  m_OrganizationID m = org -> m_UserID m = u -> m_Role m ∈ roles -> m_Role m <> RoleOwner ->
  ok s (set_members (<[(org, u) := m]> (members s)) s).
Proof.
  intros Hi Ha Hold Ho Hu Hr Hn. pose proof (admin_org _ _ _ Hi Ha) as Horg.
  apply id_allowed; [exact Hi|split; try untouched s|..]; try exact (rows_same _ _); try (by left); try same_sessions.
  - intros org' w. simpl. destruct (decide ((org', w) = (org, u))) as [[= -> ->]|Hne].
    + right. right. split; [by exists actor|]. split.
      * intros (x & Hx & Hxr & _). by apply (Hold x).
      * intros (x & Hx & Hxr & _). simpl in Hx. rewrite lookup_insert_eq in Hx. by injection Hx as <-.
    + left. by rewrite lookup_insert_ne by congruence.
  - apply rows_insert. split_and!; [by rewrite Ho, Hu|done|done|done].
  - intros org' w w' Hnone (x & Hx & _). simpl in Hx. exfalso.
    destruct (decide ((org', w) = (org, u))) as [[= -> ->]|Hne]; [by destruct Horg; congruence|].
    rewrite lookup_insert_ne in Hx by congruence. destruct (inv_members _ _ _ Hi _ _ Hx) as (_ & [o Hoo] & _).
    simpl in Hoo. congruence.
Qed.
Lemma AddOrganizationMember_ok s org u role actor x s' :
  inv s -> role <> RoleOwner -> AddOrganizationMember org u role actor s = inl (x, s') -> ok s s'.
Proof.
  intros Hi Hr. unfold AddOrganizationMember. destruct (active_user s u); [|done].
  destruct (is_admin s org actor) eqn:Ha; [|done]. simpl. case_bool_decide as Hin; [|done]. simpl.
  case_bool_decide as Hm; [done|]. intros [= _ <-]. eapply ok_member; try done.
  intros y Hy. by destruct Hm.
Qed.
Lemma subordinate_inv s org u actor m : subordinate s org u actor = Some m ->
  members s !! (org, u) = Some m /\ is_admin s org actor = true /\ m_Role m <> RoleOwner.
Proof.
  unfold subordinate. destruct (active_member s org u) as [x|] eqn:Hm; [|done].
  destruct (is_admin s org actor && _) eqn:Hc; [|done]. intros [= ->].
  apply andb_true_iff in Hc as [? Hr%negb_true_iff%bool_decide_eq_false]. by apply active_member_inv in Hm as [? _].
Qed.
Lemma UpdateMemberRole_ok s role org u actor x s' :
  inv s -> role <> RoleOwner -> UpdateMemberRole role org u actor s = inl (x, s') -> ok s s'.
Proof.
  intros Hi Hr. unfold UpdateMemberRole. destruct (subordinate s org u actor) as [m|] eqn:Hm; [|done].
  apply subordinate_inv in Hm as (Hm & Ha & Hn). case_bool_decide as Hin; [|done]. intros [= _ <-].
  destruct (inv_members _ _ _ Hi _ _ Hm) as ([= <- <-] & _). eapply ok_member; try done. congruence.
Qed.
Lemma DisableOrganizationMember_ok s org u actor x s' :
  inv s -> DisableOrganizationMember org u actor s = inl (x, s') -> ok s s'.
Proof.
  intros Hi. unfold DisableOrganizationMember.
  destruct (subordinate s org u actor) as [m|] eqn:Hm; intros [= _ <-]; [|by apply id_ok_refl].
  apply subordinate_inv in Hm as (Hm & Ha & Hn).
  destruct (inv_members _ _ _ Hi _ _ Hm) as ([= <- <-] & _ & Hr & _). eapply ok_member; try done. congruence.
Qed.

(** ** Organization tokens *)
Lemma ok_token s id k actor : inv s -> is_admin s (k_OrganizationID k) actor = true -> k_ID k = id -> id < next s ->
  ValidateScopes (k_Scopes k) = inl tt ->
  match tokens s !! id with
  | Some k0 => k_OrganizationID k = k_OrganizationID k0 /\ k_TokenHash k = k_TokenHash k0
      /\ (k_DisabledAt k0 <> None -> k_DisabledAt k = k_DisabledAt k0)
  | None => k_CreatedBy k = Some actor
  end -> ok s (set_tokens (<[id := k]> (tokens s)) s).
Proof.
  intros Hi Ha Hid Hlt Hsc Hold. pose proof (admin_org _ _ _ Hi Ha) as Horg. alone s Hi.
  - intros id' x Hx. simpl. destruct (decide (id' = id)) as [->|Hne].
    + rewrite lookup_insert_eq. rewrite Hx in Hold. destruct Hold as (Ho & ? & ?). exists k. split_and!; try done.
      right. exists actor. by rewrite <- Ho.
    + rewrite lookup_insert_ne by done. eauto 10.
  - intros id' x Hx. simpl in Hx. destruct (decide (id' = id)) as [->|Hne].
    + rewrite lookup_insert_eq in Hx. injection Hx as <-. destruct (tokens s !! id) as [k0|]; [by left|right; eauto].
    + rewrite lookup_insert_ne in Hx by done. by left.
  - by apply rows_insert.
Qed.
Lemma put_token_inv k s x s' : put_token k s = inl (x, s') -> x = k /\ s' = set_tokens (<[k_ID k := k]> (tokens s)) s.
Proof. unfold put_token. repeat (match goal with |- (if ?b then _ else _) = _ -> _ => destruct b; [done|] end). by intros [= <- <-]. Qed.
Lemma CreateOrganizationToken_ok s org creator name d hash prefix scopes e x s' :
  inv s -> ValidateScopes (default [] scopes) = inl tt ->
  CreateOrganizationToken (next s) org creator name d hash prefix scopes e (snd (fresh s)) = inl (x, s') ->
  ok s s' /\ ValidateScopes (k_Scopes x) = inl tt.
Proof.
  intros Hi Hsc. unfold CreateOrganizationToken.
  destruct (_ && is_admin _ org creator) eqn:Hc; [|done]. apply andb_true_iff in Hc as [_ Ha].
  destruct scopes as [scopes|]; [|done]. intros [-> ->]%put_token_inv. split; [|done].
  pose proof (fresh_ok s Hi) as [Hi' Hg]. cut (ok (snd (fresh s)) (set_tokens (<[next s := {|
    k_ID := next s; k_OrganizationID := org; k_CreatedBy := Some creator; k_Name := name; k_Description := d;
    k_TokenHash := hash; k_TokenPrefix := prefix; k_Scopes := scopes; k_LastUsedAt := None; k_LastUsedIp := None;
    k_ExpiresAt := e; k_DisabledAt := None; k_CreatedAt := now s; k_UpdatedAt := now s |}]> (tokens s)) (snd (fresh s)))).
  - intros [Hi2 Hg2]. split; [done|]. destruct Hg2 as [Hn]. split; try done. simpl in *. lia.
  - apply (ok_token (snd (fresh s)) (next s) _ creator); try done; simpl; [lia|].
    destruct (tokens s !! next s) as [k0|] eqn:Hk; [|done]. destruct (inv_tokens _ _ _ Hi _ _ Hk) as (_ & ? & _). lia.
Qed.
Lemma own_token_inv s org id k : inv s -> own_token s org id = Some k ->
  tokens s !! id = Some k /\ k_OrganizationID k = org /\ k_ID k = id /\ id < next s /\ ValidateScopes (k_Scopes k) = inl tt.
Proof.
  intros Hi. unfold own_token. destruct (tokens s !! id) as [x|] eqn:Hx; [|done].
  destruct (bool_decide _ && _) eqn:Hc; [|done]. intros [= ->]. apply andb_true_iff in Hc as [Ho%bool_decide_eq_true _].
  by destruct (inv_tokens _ _ _ Hi _ _ Hx) as (? & ? & _ & ?).
Qed.
Lemma UpdateOrganizationToken_ok s id org actor name d scopes e x s' :
  inv s -> match scopes with Some l => ValidateScopes l | None => inl tt end = inl tt ->
  UpdateOrganizationToken id org actor name d scopes e s = inl (x, s') ->
  ok s s' /\ ValidateScopes (k_Scopes x) = inl tt.
Proof.
  intros Hi Hsc. unfold UpdateOrganizationToken. destruct (own_token s org id) as [k|] eqn:Hk; [|done].
  apply own_token_inv in Hk as (Hk & <- & Hid & Hlt & Hv); [|done]. destruct (is_admin _ _ _) eqn:Ha; [|done].
  intros [-> ->]%put_token_inv. assert (ValidateScopes (default (k_Scopes k) scopes) = inl tt) by by destruct scopes.
  split; [|done]. eapply (ok_token _ _ _ actor); try done; simpl; rewrite ?Hid; try done. by rewrite Hk.
Qed.
Lemma DisableOrganizationToken_ok s id org actor x s' :
  inv s -> DisableOrganizationToken id org actor s = inl (x, s') -> ok s s'.
Proof.
  intros Hi. unfold DisableOrganizationToken. destruct (tokens s !! id) as [k|] eqn:Hk; [|by intros [= _ <-]; apply id_ok_refl].
  destruct (_ && is_admin s org actor) eqn:Hc; intros [= _ <-]; [|by apply id_ok_refl].
  rewrite !andb_true_iff in Hc. destruct Hc as [[<-%bool_decide_eq_true Hd%bool_decide_eq_true] Ha].
  destruct (inv_tokens _ _ _ Hi _ _ Hk) as (Hid & Hlt & _ & Hv). eapply (ok_token _ _ _ actor); try done. by rewrite Hk.
Qed.
End Statements.
End IdentityStatements.
