(* ===== verification/IdentityPrograms.v ===== *)
(** * Users, sessions and organizations: every program keeps the invariant

    The services and handlers of [Identity.v] and [Tenancy.v] as triples of the
    logic of [Programs.v]: what they know between their calls is stable under the
    steps of all the others. *)

From S2P Require Import Prelude Encryption Programs Routing Paths Secrets IdentityStore Identity Tenancy IdentitySafety IdentityStatements.
Local Open Scope Z_scope.

Create HintDb identity.
Module IdentityPrograms.
Import AppErr Programs Secrets IdentityStore Identity Tenancy IdentitySafety IdentityStatements.

Section Rules.
Context {I : IdentityLib} {X : SecretLib} {U : UuidLib}.
Context (enrolled : UUID -> Prop) (presented : string -> Prop).
Abbreviation inv := (inv enrolled presented).
Abbreviation ok := (ok enrolled presented).

(** ** What is stable, and the rules of the calls *)
Definition keeps : (State -> Prop) -> Prop := stable inv guar.
Definition tri {A} : (State -> Prop) -> prog State A -> (A -> State -> Prop) -> Prop := triple inv guar.
Definition fine {A} (P : State -> Prop) (p : prog State A) : Prop := tri P p (fun _ _ => True).

Lemma keeps_true : keeps (fun _ => True).
Proof. apply stable_True. Qed.
Lemma keeps_pure (P : Prop) : keeps (fun _ => P).
Proof. apply stable_pure. Qed.
Lemma keeps_and P Q : keeps P -> keeps Q -> keeps (fun s => P s /\ Q s).
Proof. apply stable_and. Qed.
Lemma keeps_earned u : keeps (earned presented u).
Proof. intros s s' _ _ Hg. by apply earned_guar. Qed.
(** A transaction of this user, and a hash the user has had. *)
Definition opened (id : UUID) (u : option UUID) (s : State) : Prop :=
  exists t, transactions s !! id = Some t /\ t_UserID t = u.
Lemma keeps_opened id u : keeps (opened id u).
Proof.
  intros s s' _ _ Hg (t & Ht & Hu). destruct (guar_transactions _ _ Hg _ _ Ht) as (t' & Ht' & Hu' & _).
  exists t'. split; [done|congruence].
Qed.
Lemma keeps_past x : keeps (fun s => x ∈ past s).
Proof. intros s s' _ _ Hg. by apply (guar_past _ _ Hg). Qed.
Lemma keeps_clock t : keeps (fun s => t <= now s).
Proof. intros s s' _ _ Hg Ht. pose proof (guar_now _ _ Hg). lia. Qed.
#[local] Hint Resolve keeps_true keeps_pure keeps_and keeps_earned keeps_opened keeps_past keeps_clock : identity.

Lemma id_call {A} P (f : State -> result A * State) (R : A -> State -> Prop) :
  keeps P -> (forall x, keeps (R x)) ->
  (forall s, inv s -> P s -> ok s (snd (f s)) /\ forall x, fst (f s) = inl x -> R x (snd (f s))) -> tri P (call f) R.
Proof. intros HP HR Hf. by apply triple_call. Qed.
Lemma id_exec {A} P (f : State -> result (A * State)) (R : A -> State -> Prop) :
  keeps P -> (forall x, keeps (R x)) ->
  (forall s x s', inv s -> P s -> f s = inl (x, s') -> ok s s' /\ R x s') -> tri P (exec f) R.
Proof. intros HP HR Hf. by apply triple_exec; [|apply id_guar_refl|..]. Qed.
Lemma id_query {A} P (f : State -> result A) (R : A -> State -> Prop) :
  keeps P -> (forall x, keeps (R x)) -> (forall s x, inv s -> P s -> f s = inl x -> R x s) -> tri P (query f) R.
Proof. intros HP HR Hf. by apply triple_query; [|apply id_guar_refl|..]. Qed.
Lemma id_insert {A} P (f : UUID -> State -> result (A * State)) (R : A -> State -> Prop) :
  keeps P -> (forall x, keeps (R x)) ->
  (forall s x s', inv s -> P s -> f (next s) (snd (fresh s)) = inl (x, s') -> ok s s' /\ R x s') -> tri P (insert f) R.
Proof. intros HP HR Hf. by apply id_exec. Qed.
Lemma id_fine_exec {A} P (f : State -> result (A * State)) :
  keeps P -> (forall s x s', inv s -> P s -> f s = inl (x, s') -> ok s s') -> fine P (exec f).
Proof. intros HP Hf. apply id_exec; [done|intros; apply keeps_true|]. eauto. Qed.
Lemma fine_insert {A} P (f : UUID -> State -> result (A * State)) :
  keeps P -> (forall s x s', inv s -> P s -> f (next s) (snd (fresh s)) = inl (x, s') -> ok s s') -> fine P (insert f).
Proof. intros HP Hf. apply id_insert; [done|intros; apply keeps_true|]. eauto. Qed.
Lemma id_fine_query {A} P (f : State -> result A) : keeps P -> fine P (query f).
Proof. intros HP. by apply id_query; [|intros; apply keeps_true|]. Qed.
Lemma fine_draw P : keeps P -> fine P draw.
Proof.
  intros HP. apply id_call; [done|intros; apply keeps_true|]. intros s Hi _. split; [by apply fresh_ok|done].
Qed.
Lemma id_now P : keeps P -> tri P (local time_now) (fun t s => t <= now s).
Proof.
  intros HP. apply triple_local; [done|intros; apply keeps_clock|]. intros s Hi _. split; [by apply id_ok_refl|simpl; lia].
Qed.
Lemma fine_done {A} P (a : A) : fine P (done_ a).
Proof. by apply triple_done. Qed.
Lemma fine_raise {A} P e : fine (A := A) P (raise e).
Proof. apply triple_raise. Qed.
Lemma fine_lift {A} P (r : result A) : fine P (lift_ r).
Proof. by apply triple_lift. Qed.
Lemma fine_raise_if P c e : fine P (raise_if c e).
Proof. by apply triple_raise_if. Qed.
Lemma fine_wrap {A} P f (p : prog State A) : fine P p -> fine P (wrap_ f p).
Proof. apply triple_wrap. Qed.
Lemma fine_attempt {A} P (p : prog State A) : fine P p -> fine P (attempt_ p).
Proof. intros Hp. eapply triple_post; [by apply triple_attempt|done]. Qed.
(** Nothing about the first result is needed. *)
Lemma fine_seq {A B} P (p : prog State A) (k : A -> prog State B) :
  keeps P -> fine P p -> (forall a, fine P (k a)) -> fine P (seq p k).
Proof.
  intros HP Hp Hk. eapply triple_seq; [exact Hp|]. intros a. eapply triple_pre; [exact (keeps_and _ _ HP keeps_true)| |apply Hk].
  by intros s _ [HPs _].
Qed.
Lemma fine_match {A B} P (r : result A) (f : A -> prog State B) (g : error -> prog State B) :
  (forall a, fine P (f a)) -> (forall e, fine P (g e)) -> fine P match r with inl a => f a | inr e => g e end.
Proof. intros Hf Hg. by destruct r. Qed.
Lemma fine_of {A} P (p : prog State A) (R : A -> State -> Prop) : tri P p R -> fine P p.
Proof. intros Hp. by eapply triple_post. Qed.
End Rules.
#[export] Hint Resolve keeps_true keeps_pure keeps_and keeps_earned keeps_opened keeps_past keeps_clock : identity.

Ltac keeps_tac := auto 60 with identity.
(** One step of a program that needs to know nothing. *)
Ltac plain := repeat (first
  [ apply fine_done | apply fine_raise | apply fine_lift | apply fine_raise_if | (apply id_fine_query; keeps_tac; fail)
  | (apply fine_draw; keeps_tac; fail) | apply fine_wrap | apply fine_attempt
  | (eapply fine_of; apply id_now; keeps_tac; fail)
  | (apply fine_seq; [keeps_tac; fail| |intros ?]) ]; try (progress cbn beta)).
Section Services.
Context {I : IdentityLib} {X : SecretLib} {U : UuidLib}.
Context (enrolled : UUID -> Prop) (presented : string -> Prop).
Abbreviation inv := (inv enrolled presented).
Abbreviation ok := (ok enrolled presented).
Abbreviation keeps := (keeps enrolled presented).
Abbreviation tri := (tri enrolled presented).
Abbreviation fine := (fine enrolled presented).
Abbreviation earned := (earned presented).

(** ** Logging in *)
Lemma tri_getValidTransaction P id : keeps P -> tri P (getValidTransaction id) (fun t => opened id (t_UserID t)).
Proof.
  intros HP. eapply triple_seq; [apply fine_raise_if|intros ?].
  eapply triple_seq.
  { apply triple_wrap, (id_query _ _ _ _ (fun t => opened id (t_UserID t))); [keeps_tac|intros; apply keeps_opened|].
    intros s t Hi _. unfold GetAuthTransactionByID. destruct (transactions s !! id) as [t'|] eqn:Ht; [|done].
    destruct (_ && _); [|done]. intros [= ->]. by exists t. }
  intros t. eapply triple_seq; [apply id_now; keeps_tac|intros n].
  destruct (t_ExpiresAt t <? n).
  - eapply triple_seq; [apply fine_attempt, id_fine_exec; [keeps_tac|]|intros ?; apply triple_raise].
    intros s x s' Hi _. by apply ExpireAuthTransaction_ok.
  - apply triple_done. by intros s Hi [[_ ?] _].
Qed.
(** What a read of a user tells. *)
Definition account (u : User) (s : State) : Prop := forall h, u_PasswordHash u = Some h -> (u_ID u, h) ∈ past s.
Lemma keeps_account u : keeps (account u).
Proof. intros s s' _ _ Hg Ha h Hh. by apply (guar_past _ _ Hg), Ha. Qed.
#[local] Hint Resolve keeps_account : identity.
Lemma GetUserByID_inv uid s u : inv s -> GetUserByID uid s = inl u -> u_ID u = uid /\ account u s.
Proof.
  intros Hi. unfold GetUserByID. destruct (active_user s uid) as [x|] eqn:Hu; [|done]. intros [= ->].
  apply active_user_inv in Hu as [Hu _]. destruct (inv_users _ _ _ Hi _ _ Hu) as (<- & _ & Hh). done.
Qed.
Lemma tri_LoginWithPassword P id value :
  keeps P -> presented value -> tri P (LoginWithPassword id value) (fun u => earned (u_ID u)).
Proof.
  intros HP Hv. eapply triple_seq; [by apply tri_getValidTransaction|intros t].
  destruct (t_UserID t) as [uid|] eqn:Htu; [|apply triple_raise].
  eapply triple_seq.
  { apply triple_wrap, (id_query _ _ _ _ (fun u s => u_ID u = uid /\ account u s)); [keeps_tac|intros; keeps_tac|].
    intros s u Hi _. by apply GetUserByID_inv. }
  intros u. eapply triple_seq; [apply fine_raise_if|intros ?].
  eapply triple_seq; [by apply (triple_raise_if _ _ _ _ _ (fun _ _ => has_password u = true)); intros ?%negb_false_iff|intros ?].
  eapply triple_seq;
    [by apply (triple_raise_if _ _ _ _ _ (fun _ _ => password_Verify value (default "" (u_PasswordHash u)) = true));
     intros ?%negb_false_iff|intros ?].
  eapply triple_seq.
  { apply (id_exec _ _ _ _ (fun _ s => earned (u_ID u) s)); [keeps_tac|intros; apply keeps_earned|].
    intros s x s' Hi Hpre Hx.
    destruct (MarkAuthTransactionAuthenticated_ok _ _ _ _ _ _ Hi Hx) as (Hok & t' & Ht & Ht' & Hu & Ha).
    destruct Hpre as [[[[[_ Hopen] [Hid Hacc]] _] Hhas] Hver]. split; [exact Hok|].
    destruct (u_PasswordHash u) as [h|] eqn:Hh; [|by unfold has_password in Hhas; rewrite Hh in Hhas]. simpl in Hver.
    destruct Hopen as (t0 & Ht0 & Hu0). rewrite Ht in Ht0. injection Ht0 as <-.
    exists value, h, id, x. split_and!; try done; [|congruence].
    apply (guar_past _ _ (proj2 Hok)). by apply Hacc. }
  intros t'. apply triple_done. by intros s Hi [_ ?].
Qed.
Lemma tri_CreatePasswordSession P user ip agent :
  keeps P -> (forall s, inv s -> P s -> earned user s) -> fine P (CreateWithAssurance user ip agent AssurancePassword).
Proof.
  intros HP Hu. unfold CreateWithAssurance. eapply triple_seq; [apply fine_lift|intros ?].
  eapply triple_seq; [apply fine_raise_if|intros ?]. eapply triple_seq; [apply fine_wrap, fine_draw; keeps_tac|intros n].
  eapply triple_seq; [apply id_now; keeps_tac|intros t].
  eapply triple_seq; [|intros x; apply fine_done]. apply fine_insert; [keeps_tac|].
  intros s x s' Hi [[[[HPs _] _] _] Ht] Hx. eapply CreateSession_ok; [exact Hi|by apply Hu| |exact Hx]. lia.
Qed.
Lemma fine_handle_Start P email : keeps P -> fine P (handle_Start email).
Proof.
  intros HP. unfold handle_Start, Start. plain. apply fine_insert; [done|].
  intros s x s' Hi _. by apply CreateAuthTransaction_ok.
Qed.
Lemma fine_handle_Login P tx password ip agent :
  keeps P -> presented password -> fine P (handle_LoginWithPassword tx password ip agent).
Proof.
  intros HP Hp. unfold handle_LoginWithPassword. apply fine_seq; [done|apply fine_lift|intros id].
  eapply triple_seq; [by apply tri_LoginWithPassword|]. intros u.
  apply tri_CreatePasswordSession; [keeps_tac|]. by intros s _ [_ ?].
Qed.
(** No code by mail: the row is refused. *)
Lemma fine_handle_SendOTP P tx : keeps P -> tri P (handle_SendOTP tx) (fun _ _ => False).
Proof.
  intros HP. eapply triple_seq; [apply fine_lift|intros id]. eapply triple_seq; [apply tri_getValidTransaction; keeps_tac|intros t].
  eapply triple_seq; [apply fine_wrap, fine_draw; keeps_tac|intros n].
  eapply triple_seq; [apply fine_wrap, fine_lift|intros code].
  eapply triple_seq; [apply id_now; keeps_tac|intros t'].
  eapply triple_seq; [apply (id_insert _ _ _ _ (fun _ _ => False)); [keeps_tac|intros; keeps_tac|]|intros c].
  - intros s x s' Hi _ Hx.
    destruct (CreateAuthChallenge_otp (next s) (Some id) (t_Identifier t) (token_Hash code) 5 (t' + 10 * Minute) (snd (fresh s)))
      as [e He]. congruence.
  - apply triple_done. by intros s Hi [_ ?].
Qed.
Lemma tri_impossible {A} P (p : prog State A) R : (forall s, inv s -> P s -> False) -> tri P p R.
Proof. intros HF. by apply (triple_fact _ _ _ False). Qed.
Lemma fine_handle_VerifyOTP P tx code ip agent : keeps P -> tri P (handle_VerifyOTP tx code ip agent) (fun _ _ => False).
Proof.
  intros HP. eapply triple_seq; [apply fine_lift|intros [id value]].
  eapply (triple_seq _ _ _ _ _ (fun _ _ => False)); [|intros u; apply tri_impossible; by intros s Hi [_ ?]].
  eapply triple_seq; [apply tri_getValidTransaction; keeps_tac|intros t].
  eapply (triple_seq _ _ _ _ _ (fun _ _ => False)); [apply triple_wrap, id_query; [keeps_tac|intros; keeps_tac|]|].
  - intros s c Hi _ Hc. destruct (no_otp_challenge _ _ s id Hi) as [e He]. congruence.
  - intros c. apply tri_impossible. by intros s Hi [_ ?].
Qed.

(** ** The user of a session *)
Lemma GetSession_inv hash s x : inv s -> GetSessionByTokenHash hash s = inl x -> earned (s_UserID x) s.
Proof.
  intros Hi. unfold GetSessionByTokenHash. destruct (find _ _) as [y|] eqn:Hy; [|done]. intros [= ->].
  apply find_some in Hy as [Hin _]. apply list_elem_of_In in Hin. unfold rows_of in Hin.
  apply list_elem_of_fmap in Hin as ([k x'] & -> & Hk%elem_of_map_to_list).
  destruct (inv_sessions _ _ _ Hi _ _ Hk) as (_ & _ & Hok). apply Hok.
Qed.
Lemma earned_enrolled u s : inv s -> earned u s -> enrolled u.
Proof. intros Hi (v & h & tx & t & _ & Hp & _). by eapply inv_past. Qed.
(** A principal that a session stands for is of a user who has a password. *)
Definition of_session (p : Principal) : Prop := p_SubjectType p = SubjectUser /\ enrolled (p_SubjectID p).
Lemma tri_resolveSession P token : keeps P -> tri P (resolveSession token) (fun p _ => of_session p).
Proof.
  intros HP. eapply (triple_seq _ _ _ _ _ (fun '(id, user, a) _ => enrolled user)).
  - apply triple_wrap. eapply (triple_seq _ _ _ _ _ (fun x _ => enrolled (s_UserID x))).
    + eapply triple_seq; [apply fine_lift|intros ?].
      eapply (triple_seq _ _ _ _ _ (fun x _ => enrolled (s_UserID x))).
      { apply triple_wrap, id_query; [keeps_tac|intros; keeps_tac|]. intros s x Hi _ Hx.
        eapply earned_enrolled; [exact Hi|]. by eapply GetSession_inv. }
      intros x. eapply triple_seq; [apply id_now; keeps_tac|intros n].
      eapply triple_seq; [apply fine_raise_if|intros ?]. apply triple_done. by intros s Hi [[[_ ?] _] _].
    + intros x. apply triple_done. by intros s Hi [_ ?].
  - intros [[id user] a]. apply triple_done. intros s Hi [_ ?]. by split.
Qed.
Lemma tri_resolveSessionCookie P cookie :
  keeps P -> tri P (resolveSessionCookie cookie) (fun p _ => match p with Some p => of_session p | None => True end).
Proof.
  intros HP. unfold resolveSessionCookie. destruct cookie as [value|]; [|by apply triple_done].
  destruct (bool_decide _); [by apply triple_done|].
  eapply triple_seq; [by apply triple_attempt, tri_resolveSession|]. intros r. apply triple_done.
  intros s Hi [_ H]. by destruct r.
Qed.
Lemma tri_RequireSession P cookie : keeps P -> tri P (RequireSession cookie) (fun p _ => of_session p).
Proof.
  intros HP. eapply triple_seq; [by apply tri_resolveSessionCookie|]. intros [p|]; [|apply triple_raise].
  apply triple_done. by intros s Hi [_ ?].
Qed.
Lemma tri_session_user P cookie : keeps P -> tri P (session_user cookie) (fun u _ => enrolled u).
Proof.
  intros HP. eapply triple_seq; [by apply tri_RequireSession|]. intros p.
  destruct (UserIDFromContext p) as [u|] eqn:Hu; [|apply triple_raise]. apply triple_done.
  intros s Hi [_ [_ He]]. unfold UserIDFromContext in Hu. destruct (IsValid p); [|done].
  unfold Principal_UserID in Hu. destruct (_ && _); [|done]. by injection Hu as <-.
Qed.
(** ** The account *)
Lemma fine_handle_SetPassword P cookie password : keeps P -> fine P (handle_SetPassword cookie password).
Proof.
  intros HP. eapply triple_seq; [by apply tri_session_user|]. intros u.
  eapply triple_seq; [apply fine_lift|intros ?]. eapply triple_seq; [apply fine_raise_if|intros ?].
  eapply triple_seq; [apply fine_wrap, fine_draw; keeps_tac|intros n]. apply id_fine_exec; [keeps_tac|].
  intros s x s' Hi [[[[_ Hu] _] _] _]. by apply SetUserPassword_ok.
Qed.
Lemma fine_session_user P cookie : keeps P -> fine P (session_user cookie).
Proof. intros HP. eapply fine_of, tri_session_user, HP. Qed.
Lemma fine_RequireSession P cookie : keeps P -> fine P (RequireSession cookie).
Proof. intros HP. eapply fine_of, tri_RequireSession, HP. Qed.
Lemma fine_handle_Session_List P cookie : keeps P -> fine P (handle_Session_List cookie).
Proof. intros HP. apply fine_seq; [done|by apply fine_session_user|intros u]. unfold Session_List. plain. Qed.
Lemma fine_handle_Revoke P cookie session : keeps P -> fine P (handle_Revoke cookie session).
Proof.
  intros HP. apply fine_seq; [done|by apply fine_session_user|intros u]. unfold Revoke. plain.
  apply id_fine_exec; [done|]. intros s x s' Hi _ [= _ <-]. by apply revoke_ok.
Qed.
Lemma fine_handle_RevokeAll P cookie : keeps P -> fine P (handle_RevokeAll cookie).
Proof.
  intros HP. apply fine_seq; [done|by apply fine_session_user|intros u]. unfold RevokeAll. plain.
  apply id_fine_exec; [done|]. intros s x s' Hi _ [= _ <-]. by apply revoke_ok.
Qed.
Lemma fine_handle_GetMe P cookie : keeps P -> fine P (handle_GetMe cookie).
Proof.
  intros HP. apply fine_seq; [done|by apply fine_session_user|intros u]. unfold User_Get, required_user, failing. plain.
Qed.
Lemma fine_handle_UpdateMe P cookie name : keeps P -> fine P (handle_UpdateMe cookie name).
Proof.
  intros HP. apply fine_seq; [done|by apply fine_session_user|intros u]. unfold UpdateProfile, required_user, failing. plain.
  apply id_fine_exec; [done|]. intros s x s' Hi _. by apply UpdateUserProfile_ok.
Qed.
Lemma fine_handle_DeleteMe P cookie : keeps P -> fine P (handle_DeleteMe cookie).
Proof.
  intros HP. apply fine_seq; [done|by apply fine_session_user|intros u]. unfold User_Delete, required_user, failing. plain.
  apply id_fine_exec; [done|]. intros s x s' Hi _. by apply DisableUser_ok.
Qed.

(** ** Organizations *)
Lemma fine_handle_Org_Create P cookie name : keeps P -> fine P (handle_Org_Create cookie name).
Proof.
  intros HP. apply fine_seq; [done|by apply fine_session_user|intros u]. unfold Org_Create. plain.
  apply fine_insert; [done|]. intros s x s' Hi _. by apply CreateOrganization_ok.
Qed.
Lemma fine_handle_Org_List P cookie : keeps P -> fine P (handle_Org_List cookie).
Proof. intros HP. apply fine_seq; [done|by apply fine_session_user|intros u]. unfold Org_List. plain. Qed.
Lemma fine_resolveOrganization P r p : keeps P -> fine P (resolveOrganization r p).
Proof.
  intros HP. unfold resolveOrganization. destruct (resolveOrganizationID r p); [|apply fine_raise].
  destruct (bool_decide _); [apply fine_done|]. destruct (Principal_UserID p); [plain|apply fine_raise].
Qed.
Lemma fine_sessionAccess P resource r : keeps P -> fine P (sessionOrganizationAccess resource r).
Proof.
  intros HP. apply fine_seq; [done|by apply fine_RequireSession|intros p].
  apply fine_seq; [done| |intros o].
  - unfold Require. apply fine_seq; [done|apply fine_raise_if|intros ?].
    apply fine_seq; [done|by apply fine_resolveOrganization|intros o]. plain.
  - apply fine_seq; [done| |intros ?; apply fine_done]. unfold RequireAccess.
    apply fine_seq; [done|apply fine_raise_if|intros ?]. destruct (bool_decide _); apply fine_raise_if.
Qed.
Lemma fine_actor_of P resource r : keeps P -> fine P (actor_of resource r).
Proof.
  intros HP. apply fine_seq; [done|by apply fine_sessionAccess|intros [p o]].
  destruct (UserIDFromContext p); [|apply fine_raise]. destruct (uuid_Parse _); [apply fine_done|apply fine_raise].
Qed.
Lemma fine_actor {A} P resource r (k : UUID -> UUID -> prog State A) :
  keeps P -> (forall u org, fine P (k u org)) -> fine P (let* ' (u, org) := actor_of resource r in k u org).
Proof. intros HP Hk. apply fine_seq; [done|by apply fine_actor_of|by intros []]. Qed.
Lemma fine_handle_Org_Get P r : keeps P -> fine P (handle_Org_Get r).
Proof. intros HP. apply fine_actor; [done|intros u org]. unfold Org_Get, Org_requireMember, failing. plain. Qed.
Lemma fine_handle_Org_Update P r name : keeps P -> fine P (handle_Org_Update r name).
Proof.
  intros HP. apply fine_actor; [done|intros u org]. unfold Org_Update, requireRole, failing.
  destruct name as [n|]; plain; (apply id_fine_exec; [done|]; intros s x s' Hi _; by apply UpdateOrganization_ok).
Qed.
Lemma fine_handle_Org_Delete P r : keeps P -> fine P (handle_Org_Delete r).
Proof.
  intros HP. apply fine_actor; [done|intros u org]. unfold Org_Delete, requireRole, failing. plain.
  apply id_fine_exec; [done|]. intros s x s' Hi _. by apply DeleteOrganization_ok.
Qed.

(** ** Members *)
Lemma tri_granted_role P role : tri P (granted_role role) (fun role _ => role <> RoleOwner).
Proof.
  eapply triple_seq; [apply fine_lift|intros role'].
  eapply (triple_seq _ _ _ _ _ (fun _ _ => role' <> RoleOwner)).
  - apply triple_raise_if. by intros ?%bool_decide_eq_false.
  - intros ?. apply triple_done. by intros s Hi [_ ?].
Qed.
Lemma fine_requireAdmin P u org : keeps P -> fine P (requireAdmin u org).
Proof. intros HP. unfold requireAdmin, require_requester, failing. plain. Qed.
Lemma fine_requireMember P u org : keeps P -> fine P (requireMember u org).
Proof. intros HP. unfold requireMember, require_requester, failing. plain. Qed.
Lemma fine_handle_Member_Add P r user role : keeps P -> fine P (handle_Member_Add r user role).
Proof.
  intros HP. apply fine_actor; [done|intros u org]. apply fine_seq; [done|by apply fine_requireAdmin|intros ?].
  apply fine_seq; [done|apply fine_lift|intros ?]. eapply triple_seq; [apply tri_granted_role|intros role'].
  apply triple_wrap, id_fine_exec; [keeps_tac|]. intros s x s' Hi [_ Hr]. by apply AddOrganizationMember_ok.
Qed.
Lemma fine_handle_Member_Get P r user : keeps P -> fine P (handle_Member_Get r user).
Proof.
  intros HP. apply fine_actor; [done|intros u org]. apply fine_seq; [done|by apply fine_requireMember|intros ?].
  unfold failing. plain.
Qed.
Lemma fine_handle_Member_List P r : keeps P -> fine P (handle_Member_List r).
Proof.
  intros HP. apply fine_actor; [done|intros u org]. apply fine_seq; [done|by apply fine_requireMember|intros ?]. plain.
Qed.
Lemma fine_handle_Member_Update P r user role : keeps P -> fine P (handle_Member_Update r user role).
Proof.
  intros HP. apply fine_actor; [done|intros u org]. apply fine_seq; [done|by apply fine_requireAdmin|intros ?].
  apply fine_seq; [done|apply fine_lift|intros ?]. eapply triple_seq; [apply tri_granted_role|intros role'].
  eapply triple_seq; [apply fine_wrap, id_fine_query; keeps_tac|intros m]. eapply triple_seq; [apply fine_raise_if|intros ?].
  apply triple_wrap, id_fine_exec; [keeps_tac|]. intros s x s' Hi [[[_ Hr] _] _]. by apply UpdateMemberRole_ok.
Qed.
Lemma fine_handle_Member_Delete P r user : keeps P -> fine P (handle_Member_Delete r user).
Proof.
  intros HP. apply fine_actor; [done|intros u org]. apply fine_seq; [done|by apply fine_requireAdmin|intros ?].
  unfold failing. plain. apply id_fine_exec; [done|]. intros s x s' Hi _. by apply DisableOrganizationMember_ok.
Qed.

(** ** Tokens *)
Lemma fine_handle_Token_Create P r name d scopes e : keeps P -> fine P (handle_Token_Create r name d scopes e).
Proof.
  intros HP. apply fine_actor; [done|intros u org]. unfold Token_Create.
  set (input := {| ci_OrganizationID := org; ci_CreatedBy := u; ci_Name := name; ci_Description := d;
                   ci_Scopes := scopes; ci_ExpiresAt := e |}).
  eapply (triple_seq _ _ _ _ _ (fun _ _ => ValidateScopes (default [] scopes) = inl tt)).
  { apply triple_wrap, triple_lift. intros [] Hv s _ _. unfold ValidateCreate in Hv.
    do 4 (apply rbind_ok_inv in Hv as (? & _ & Hv)). exact Hv. }
  intros ?. eapply triple_seq; [apply fine_wrap, fine_draw; keeps_tac|intros n].
  destruct (GenerateToken _) as [[token prefix] hash]. eapply triple_seq; [|intros row].
  - apply fine_insert; [keeps_tac|]. intros s x s' Hi [[_ Hv] _] Hx. by eapply CreateOrganizationToken_ok.
  - eapply triple_seq; [apply fine_lift|intros c]. apply fine_done.
Qed.
Lemma fine_handle_Token_Get P r id : keeps P -> fine P (handle_Token_Get r id).
Proof. intros HP. apply fine_actor; [done|intros u org]. unfold Token_Get. plain. Qed.
Lemma fine_handle_Token_List P r : keeps P -> fine P (handle_Token_List r).
Proof. intros HP. apply fine_actor; [done|intros u org]. unfold Token_List. plain. Qed.
Lemma fine_handle_Token_Update P r id name d scopes e : keeps P -> fine P (handle_Token_Update r id name d scopes e).
Proof.
  intros HP. apply fine_actor; [done|intros u org]. unfold Token_Update.
  eapply (triple_seq _ _ _ _ _ (fun _ _ => match scopes with Some l => ValidateScopes l | None => inl tt end = inl tt)).
  { apply triple_wrap, triple_lift. intros [] Hv s _ _. unfold ValidateUpdate in Hv.
    do 4 (apply rbind_ok_inv in Hv as (? & _ & Hv)). exact Hv. }
  intros ?. eapply triple_seq; [apply fine_raise_if|intros ?]. eapply triple_seq; [|intros row; apply fine_lift].
  apply id_fine_exec; [keeps_tac|]. intros s x s' Hi [[_ Hv] _] Hx. by eapply UpdateOrganizationToken_ok.
Qed.
Lemma fine_handle_Token_Disable P r id : keeps P -> fine P (handle_Token_Disable r id).
Proof.
  intros HP. apply fine_actor; [done|intros u org]. unfold Token_Disable. plain.
  apply id_fine_exec; [done|]. intros s x s' Hi _. by apply DisableOrganizationToken_ok.
Qed.
(** A request to a resource, by session or token. *)
Lemma fine_organizationAccess P resource r : keeps P -> fine P (organizationAccess resource r).
Proof.
  intros HP. assert (fine P (RequireAuthenticated r)) as Ha.
  { apply fine_seq; [done| |intros [[p|] []]; first [apply fine_done|apply fine_raise|by apply fine_RequireSession]].
    unfold resolveBearerToken. destruct (Cut _ _) as [[scheme token]|]; [|apply fine_done].
    destruct (EqualFold _ _); [|apply fine_done]. destruct (bool_decide _); [apply fine_done|].
    unfold resolveOrganizationToken, Authenticate, failing. plain. }
  apply fine_seq; [done|done|intros p]. apply fine_seq; [done| |intros o].
  - unfold Require. apply fine_seq; [done|apply fine_raise_if|intros ?].
    apply fine_seq; [done|by apply fine_resolveOrganization|intros o]. plain.
  - apply fine_seq; [done| |intros ?; apply fine_done]. unfold RequireAccess.
    apply fine_seq; [done|apply fine_raise_if|intros ?]. destruct (bool_decide _); apply fine_raise_if.
Qed.
End Services.
End IdentityPrograms.
