(* ===== verification/IdentitySystem.v ===== *)
(** * Users, sessions and organizations: the system of all requests

    [op], the requests a client may send, any number of times and in any order;
    the state before the first one; and that every reachable state keeps the
    invariant, every step the guarantee, of [IdentitySafety.v]. *)

From S2P Require Import Prelude Encryption Programs Routing Paths Secrets IdentityStore Identity Tenancy IdentitySafety IdentityStatements IdentityPrograms.
Local Open Scope Z_scope.

Create HintDb fine.
Module IdentitySystem.
Import AppErr Programs Secrets IdentityStore Identity Tenancy IdentitySafety IdentityStatements IdentityPrograms.

Section System.
Context {I : IdentityLib} {X : SecretLib} {U : UuidLib}.
(** The passwords that are typed into log-in requests. *)
Context (presented : string -> Prop).

Inductive op : prog State unit -> Prop :=
| op_start email : op (forget (handle_Start email))
| op_login tx password ip agent : presented password -> op (forget (handle_LoginWithPassword tx password ip agent))
| op_send_otp tx : op (forget (handle_SendOTP tx))
| op_verify_otp tx code ip agent : op (forget (handle_VerifyOTP tx code ip agent))
| op_set_password cookie password : op (forget (handle_SetPassword cookie password))
| op_sessions cookie : op (forget (handle_Session_List cookie))
| op_revoke cookie session : op (forget (handle_Revoke cookie session))
| op_revoke_all cookie : op (forget (handle_RevokeAll cookie))
| op_me cookie : op (forget (handle_GetMe cookie))
| op_update_me cookie name : op (forget (handle_UpdateMe cookie name))
| op_delete_me cookie : op (forget (handle_DeleteMe cookie))
| op_org_create cookie name : op (forget (handle_Org_Create cookie name))
| op_org_list cookie : op (forget (handle_Org_List cookie))
| op_org_get r : op (forget (handle_Org_Get r))
| op_org_update r name : op (forget (handle_Org_Update r name))
| op_org_delete r : op (forget (handle_Org_Delete r))
| op_member_add r user role : op (forget (handle_Member_Add r user role))
| op_member_get r user : op (forget (handle_Member_Get r user))
| op_member_list r : op (forget (handle_Member_List r))
| op_member_update r user role : op (forget (handle_Member_Update r user role))
| op_member_delete r user : op (forget (handle_Member_Delete r user))
| op_token_create r name d scopes e : op (forget (handle_Token_Create r name d scopes e))
| op_token_get r id : op (forget (handle_Token_Get r id))
| op_token_list r : op (forget (handle_Token_List r))
| op_token_update r id name d scopes e : op (forget (handle_Token_Update r id name d scopes e))
| op_token_disable r id : op (forget (handle_Token_Disable r id))
| op_access resource r : op (forget (organizationAccess resource r)).

(** Everything else leaves these tables alone; time passes. *)
Definition at_time (t : Z) (s : State) : State :=
  {| users := users s; transactions := transactions s; challenges := challenges s; sessions := sessions s;
     organizations := organizations s; members := members s; tokens := tokens s; past := past s;
     now := t; next := next s |}.
Inductive env : State -> State -> Prop :=
| env_time s t : now s <= t -> env s (at_time t s).

(** Where the system begins: nobody has logged in, there is no organization; some
    users may be there, with or without a password. *)
Record initial (s : State) : Prop := {
  initial_next : 0 < next s;
  initial_users : forall id u, users s !! id = Some u -> u_ID u = id /\ id < next s;
  initial_past : forall id h, (id, h) ∈ past s <-> exists u, users s !! id = Some u /\ u_PasswordHash u = Some h;
  initial_transactions : transactions s = ∅;
  initial_challenges : challenges s = ∅;
  initial_sessions : sessions s = ∅;
  initial_organizations : organizations s = ∅;
  initial_members : members s = ∅;
  initial_tokens : tokens s = ∅;
}.
(** The users who have a password at the beginning. *)
Definition enrolled (s0 : State) (id : UUID) : Prop :=
  exists u h, users s0 !! id = Some u /\ u_PasswordHash u = Some h.
Abbreviation inv_of s0 := (inv (enrolled s0) presented).

Lemma id_initial_inv s0 : initial s0 -> inv_of s0 s0.
Proof.
  intros [Hn Hu Hp Ht Hc Hs Ho Hm Hk].
  split; rewrite ?Ht, ?Hc, ?Hs, ?Ho, ?Hm, ?Hk; try (intros id x Hx; by rewrite lookup_empty in Hx); [done| | | |].
  - intros id u Hid. destruct (Hu _ _ Hid). split_and!; [done|done|]. intros h Hh. apply Hp. by exists u.
  - intros id h (u & ? & ?)%Hp. by exists u, h.
  - intros id x id' x' Hx. by rewrite lookup_empty in Hx.
  - intros org u u' (m & Hx & _). by rewrite Hm, lookup_empty in Hx.
Qed.
Lemma id_env_ok s0 s s' : inv_of s0 s -> env s s' -> ok (enrolled s0) presented s s'.
Proof.
  intros Hi He. destruct He as [s t Ht]. apply id_allowed; [done| |..]; try exact (rows_same _ _); try (by left).
  - destruct (id_guar_refl s). by split.
  - by apply sessions_same.
  - by apply (owners_same (enrolled s0) presented s).
Qed.
Lemma harmless_fine {A} s0 (p : prog State A) :
  fine (enrolled s0) presented (fun _ => True) p -> harmless (inv_of s0) guar (forget p).
Proof. intros Hp. apply harmless_andthen; [by eapply triple_harmless|]. by intros r. Qed.
#[local] Hint Resolve fine_handle_Start fine_handle_Login fine_handle_SetPassword fine_handle_Session_List
  fine_handle_Revoke fine_handle_RevokeAll fine_handle_GetMe fine_handle_UpdateMe fine_handle_DeleteMe
  fine_handle_Org_Create fine_handle_Org_List fine_handle_Org_Get fine_handle_Org_Update fine_handle_Org_Delete
  fine_handle_Member_Add fine_handle_Member_Get fine_handle_Member_List fine_handle_Member_Update
  fine_handle_Member_Delete fine_handle_Token_Create fine_handle_Token_Get fine_handle_Token_List
  fine_handle_Token_Update fine_handle_Token_Disable fine_organizationAccess : fine.
Lemma id_op_harmless s0 p : op p -> harmless (inv_of s0) guar p.
Proof.
  pose proof (keeps_true (enrolled s0) presented) as HT.
  destruct 1; apply harmless_fine; auto with fine; eapply fine_of; [by apply fine_handle_SendOTP|by apply fine_handle_VerifyOTP].
Qed.

Definition reached (s0 : State) : State * list (prog State unit) -> Prop := reachable op env s0.
Lemma id_reached_inv s0 x : initial s0 -> reached s0 x -> inv_of s0 (fst x).
Proof.
  intros Hi Hr. apply (reachable_ok (inv_of s0) guar id_guar_refl op env (id_op_harmless s0) (id_env_ok s0) s0 x); [|done].
  by apply id_initial_inv.
Qed.
Lemma id_reached_moves s0 x x' : initial s0 -> reached s0 x -> sys_step op env x x' -> guar (fst x) (fst x').
Proof.
  intros Hi Hr Hs. apply (reachable_moves (inv_of s0) guar id_guar_refl op env (id_op_harmless s0) (id_env_ok s0) s0); [|done..].
  by apply id_initial_inv.
Qed.
(** What every step keeps holds from then on. *)
Lemma reached_keeps s0 (P : State -> Prop) x y :
  keeps (enrolled s0) presented P -> initial s0 -> reached s0 x -> rtc (sys_step op env) x y -> P (fst x) -> P (fst y).
Proof.
  intros HP Hi Hr Hs. induction Hs as [x|x z y Hs _ IH]; intros Hx; [done|].
  assert (reached s0 z) as Hz by (by eapply rtc_r). apply IH; [done|].
  apply (HP (fst x) (fst z)); [by apply id_reached_inv..|by eapply id_reached_moves|done].
Qed.
End System.
End IdentitySystem.
