(* ===== verification/IdentityOutcomes.v ===== *)
(** * Users, sessions and organizations: what holds of any interleaving

    The theorems on the system of [IdentitySystem.v]: where sessions come from and
    how they end, who never gets in, who keeps an organization and who changes its
    members and tokens; and what the middleware has checked of a request it lets
    through. *)

From S2P Require Import Prelude Encryption Programs Routing Paths Secrets IdentityStore Identity Tenancy IdentitySafety IdentityStatements IdentityPrograms IdentitySystem.
Local Open Scope Z_scope.

Module IdentityOutcomes.
Import AppErr Programs Secrets IdentityStore Identity Tenancy IdentitySafety IdentityStatements IdentityPrograms IdentitySystem.

Section Theorems.
Context {I : IdentityLib} {X : SecretLib} {U : UuidLib}.
Context (presented : string -> Prop).
Abbreviation keeps_of s0 := (keeps (enrolled s0) presented).
Abbreviation later := (rtc (sys_step (op presented) env)).
Lemma later_reached s0 x y : reached presented s0 x -> later x y -> reached presented s0 y.
Proof. intros Hr Hs. unfold reached, reachable in *. by etrans. Qed.

(** C11: However requests interleave, fail and are repeated, every session there is at
    any time was opened with a password: somebody typed one that a password hash of
    the user accepts, and finished a transaction of this user with it; the user had
    a password from the beginning; the session counts as "password", its token is
    fresh and it ends after thirty days at most. *)
Theorem sessions_are_earned s0 x id y :
  initial s0 -> reached presented s0 x -> sessions (fst x) !! id = Some y ->
  enrolled s0 (s_UserID y)
  /\ (exists v h tx t, presented v /\ (s_UserID y, h) ∈ past (fst x) /\ password_Verify v h = true
        /\ transactions (fst x) !! tx = Some t /\ t_UserID t = Some (s_UserID y) /\ t_State t = "authenticated")
  /\ s_Assurance y = "password" /\ s_ExpiresAt y <= s_CreatedAt y + 30 * 24 * Hour
  /\ exists n, s_TokenHash y = token_Hash (token_with (random_bytes n sessionTokenBytes)).
Proof.
  intros Hi Hr Hy. pose proof (id_reached_inv _ _ _ Hi Hr) as Hx.
  destruct (inv_sessions _ _ _ Hx _ _ Hy) as (_ & _ & [He Ha Hex Ht]).
  split_and!; [by eapply earned_enrolled|exact He|exact Ha|exact Hex|exact Ht].
Qed.

(** C15: A user who has no password at the beginning never gets one, nor a session:
    a password is set only in a session, and a session is opened only with a
    password, since the codes sent by mail never work. *)
Theorem no_way_in_without_password s0 x id :
  initial s0 -> reached presented s0 x ->
  (forall u, users s0 !! id = Some u -> u_PasswordHash u = None) ->
  (forall u, users (fst x) !! id = Some u -> u_PasswordHash u = None)
  /\ (forall sid y, sessions (fst x) !! sid = Some y -> s_UserID y <> id).
Proof.
  intros Hi Hr Hnone. pose proof (id_reached_inv _ _ _ Hi Hr) as Hx.
  assert (~ enrolled s0 id) as Hne by (intros (u & h & Hu & Hh); rewrite (Hnone _ Hu) in Hh; done).
  split.
  - intros u Hu. destruct (inv_users _ _ _ Hx _ _ Hu) as (_ & _ & Hh).
    destruct (u_PasswordHash u) as [h|]; [|done]. destruct Hne. by eapply inv_past, Hh.
  - intros sid y Hy <-. destruct (inv_sessions _ _ _ Hx _ _ Hy) as (_ & _ & Hok).
    destruct Hne. eapply earned_enrolled; [exact Hx|apply Hok].
Qed.

(** A one-time code is never sent and never accepted: whatever the requests before
    it did, sending one and presenting one end in an error. *)
Theorem codes_never_work s0 x tx code ip agent fs :
  initial s0 -> reached presented s0 x ->
  (exists e, fst (run (handle_SendOTP tx) fs (fst x)) = inr e)
  /\ (exists e, fst (run (handle_VerifyOTP tx code ip agent) fs (fst x)) = inr e).
Proof.
  intros Hi Hr. pose proof (id_reached_inv _ _ _ Hi Hr) as Hx. pose proof (keeps_true (enrolled s0) presented) as HT.
  assert (forall A (p : prog State A), tri (enrolled s0) presented (fun _ => True) p (fun _ _ => False) ->
    exists e, fst (run p fs (fst x)) = inr e) as Hfail.
  { intros A p Hp. destruct (run p fs (fst x)) as [r s'] eqn:Hrun.
    destruct (run_post _ _ _ _ _ _ _ _ _ Hp Hx Logic.I Hrun) as [_ [_ Hq]]. destruct r as [a|e]; [done|by exists e]. }
  split; apply Hfail; [by apply fine_handle_SendOTP|by apply fine_handle_VerifyOTP].
Qed.

(** ** The end of a session *)
(** The session of the cookie is revoked or over, or its user disabled. *)
Definition dead (value : string) (s : State) : Prop :=
  exists id y, sessions s !! id = Some y /\ s_TokenHash y = token_Hash value
    /\ (s_RevokedAt y <> None \/ s_ExpiresAt y <= now s
        \/ exists u, users s !! s_UserID y = Some u /\ u_DisabledAt u <> None).
Lemma keeps_dead s0 value : keeps_of s0 (dead value).
Proof.
  intros s s' _ _ Hg (id & y & Hy & Hh & Hd). destruct (guar_sessions _ _ Hg _ _ Hy) as (y' & Hy' & Hu & Ht & He & Hr).
  exists id, y'. split_and!; [done|congruence|]. destruct Hd as [Hd|[Hd|(u & Hu' & Hd)]].
  - left. by rewrite Hr.
  - right; left. pose proof (guar_now _ _ Hg). lia.
  - right; right. destruct (guar_users _ _ Hg _ _ Hu') as (u' & Hu2 & _ & Hd'). exists u'. rewrite Hu, Hd'; done.
Qed.
Lemma dead_not_found s0 value s :
  inv (enrolled s0) presented s -> dead value s -> forall y, GetSessionByTokenHash (token_Hash value) s <> inl y.
Proof.
  intros Hi (id & y & Hy & Hh & Hd) y' Hget. unfold GetSessionByTokenHash in Hget.
  destruct (find _ _) as [z|] eqn:Hz; [|done]. injection Hget as ->.
  apply find_some in Hz as [Hin%list_elem_of_In Hp]. apply list_elem_of_fmap in Hin as ([k z] & -> & Hk%elem_of_map_to_list).
  simpl in Hp. rewrite !andb_true_iff in Hp. unfold live_session in Hp. rewrite !andb_true_iff in Hp.
  destruct Hp as [Hzh%bool_decide_eq_true [[Hlt%Z.ltb_lt Hrev%bool_decide_eq_true] [u Hact]%bool_decide_eq_true]].
  assert (k = id) as -> by (eapply (inv_hashes _ _ _ Hi); [exact Hk|exact Hy|congruence]).
  rewrite Hk in Hy. injection Hy as ->. apply active_user_inv in Hact as [Hu Hen].
  destruct Hd as [Hd|[Hd|(u' & Hu' & Hd)]]; [done|lia|congruence].
Qed.
Lemma tri_dead_session s0 value :
  tri (enrolled s0) presented (dead value) (session_user (Some value)) (fun _ _ => False).
Proof.
  pose proof (keeps_dead s0 value) as HP.
  assert (tri (enrolled s0) presented (dead value) (resolveSessionCookie (Some value)) (fun p _ => p = None)) as Hc.
  { unfold resolveSessionCookie. destruct (bool_decide _); [by apply triple_done|].
    eapply triple_seq.
    - apply (triple_attempt _ _ _ _ (fun _ _ => False)).
      eapply (triple_seq _ _ _ _ _ (fun _ _ => False)); [|intros [[? ?] ?]; apply tri_impossible; by intros s _ [_ ?]].
      apply triple_wrap. eapply (triple_seq _ _ _ _ _ (fun _ _ => False)); [|intros ?; apply tri_impossible; by intros s _ [_ ?]].
      eapply triple_seq; [apply fine_lift|intros ?].
      eapply (triple_seq _ _ _ _ _ (fun _ _ => False)); [|intros ?; apply tri_impossible; by intros s _ [_ ?]].
      apply triple_wrap, id_query; [auto with identity|intros; apply keeps_pure|].
      intros s y Hi [Hd _] Hy. by eapply dead_not_found.
    - intros [p|e]; [apply tri_impossible; by intros s _ [_ ?]|by apply triple_done]. }
  eapply (triple_seq _ _ _ _ _ (fun _ _ => False)); [|intros p; apply tri_impossible; by intros s _ [_ ?]].
  eapply triple_seq; [exact Hc|]. intros [p|]; [apply tri_impossible; by intros s _ [_ ?]|apply triple_raise].
Qed.

(** C12: Once a session has been revoked, is over, or its user is disabled, its cookie
    is worth nothing for ever: no later state accepts it. *)
Theorem dead_sessions_stay_dead s0 x y value fs :
  initial s0 -> reached presented s0 x -> later x y -> dead value (fst x) ->
  dead value (fst y) /\ exists e, fst (run (session_user (Some value)) fs (fst y)) = inr e.
Proof.
  intros Hi Hr Hs Hd. pose proof (reached_keeps _ _ _ _ _ (keeps_dead s0 value) Hi Hr Hs Hd) as Hd'.
  split; [done|]. pose proof (id_reached_inv _ _ _ Hi (later_reached _ _ _ Hr Hs)) as Hy.
  destruct (run (session_user (Some value)) fs (fst y)) as [r s'] eqn:Hrun.
  destruct (run_post _ _ _ _ _ _ _ _ _ (tri_dead_session s0 value) Hy Hd' Hrun) as [_ [_ Hq]].
  destruct r as [a|e]; [done|by exists e].
Qed.

(** ** Organizations *)
Lemma keeps_owner s0 org u m :
  keeps_of s0 (fun s => members s !! (org, u) = Some m /\ m_Role m = RoleOwner /\ m_Status m = "active").
Proof.
  intros s s' Hi _ Hg (Hm & Hr & Hs). assert (owner_of s org u) as Ho by (by exists m).
  destruct (guar_members _ _ Hg org u) as [Heq|[Hn|(_ & Hno & _)]]; [by rewrite Heq| |done].
  destruct (inv_members _ _ _ Hi _ _ Hm) as (_ & [o Hor] & _). simpl in Hor. congruence.
Qed.

(** C13: An organization has exactly one active owner, and it is the same member,
    unchanged, as long as the organization is there. *)
Theorem organization_keeps_owner s0 x y org o :
  initial s0 -> reached presented s0 x -> later x y -> organizations (fst x) !! org = Some o ->
  exists u m, members (fst x) !! (org, u) = Some m /\ m_Role m = RoleOwner /\ m_Status m = "active"
    /\ members (fst y) !! (org, u) = Some m
    /\ forall u' m', members (fst y) !! (org, u') = Some m' -> m_Role m' = RoleOwner -> u' = u.
Proof.
  intros Hi Hr Hs Ho. pose proof (id_reached_inv _ _ _ Hi Hr) as Hx.
  destruct (inv_orgs _ _ _ Hx _ _ Ho) as (_ & _ & u & m & Hm & Hro & Hst).
  destruct (reached_keeps _ _ _ _ _ (keeps_owner s0 org u m) Hi Hr Hs) as (Hm' & _); [done|].
  pose proof (id_reached_inv _ _ _ Hi (later_reached _ _ _ Hr Hs)) as Hy.
  exists u, m. split_and!; try done. intros u' m' Hu' Hr'. apply (inv_owners _ _ _ Hy org); [|by exists m].
  exists m'. split_and!; try done. by apply (inv_members _ _ _ Hy _ _ Hu').
Qed.

End Theorems.

(** ** A run: one user logs in, makes an organization and logs out everywhere; the
    other one has no password *)
Section Example_.
#[local] Existing Instance toy_secrets.
#[local] Existing Instance decimal_uuid.
#[local] Instance ex_library : IdentityLib := {| citext := ToLower; ParseAddr s := Some s |}.
Definition ex_password : string := "correct horse".
Definition ex_presented (p : string) : Prop := p = ex_password.
Definition ex_hash : string := hash_with (random_bytes 7 16) ex_password.
Definition ex_user (id : UUID) (email : string) (hash : option string) : User := {|
  u_ID := id; u_Email := email; u_EmailVerified := true; u_Name := None; u_PasswordHash := hash; u_DisabledAt := None;
  u_CreatedAt := 1; u_UpdatedAt := 1 |}.
Definition ex_state : State := {|
  users := <[1 := ex_user 1 "a@example.com" (Some ex_hash)]> {[2 := ex_user 2 "b@example.com" None]};
  transactions := ∅; challenges := ∅; sessions := ∅; organizations := ∅; members := ∅; tokens := ∅;
  past := [(1, ex_hash)]; now := 100; next := 10 |}.
Definition finish (p : prog State unit) (x : State * list (prog State unit)) : State * list (prog State unit) :=
  let (r, s') := run p [] (fst x) in (s', Return r :: snd x).
Definition ex_login : prog State unit := forget (handle_LoginWithPassword "10" ex_password None None).
Definition ex_logged := finish ex_login (finish (forget (handle_Start "A@example.com")) (ex_state, [])).
(** The cookie of the session. *)
Definition ex_cookie : string := token_with (random_bytes 11 sessionTokenBytes).
Definition ex_create : prog State unit := forget (handle_Org_Create (Some ex_cookie) "acme").
Definition ex_made := finish ex_create ex_logged.
Definition ex_out := finish (forget (handle_RevokeAll (Some ex_cookie))) ex_made.

Lemma ex_finish {I : IdentityLib} {X : SecretLib} {U : UuidLib} presented p x :
  op presented p -> rtc (sys_step (op presented) env) x (finish p x).
Proof.
  intros Hp. destruct x as [s ts]. unfold finish. destruct (run p [] (fst (s, ts))) as [r s'] eqn:Hr. simpl in *.
  eapply rtc_l; [by apply (sys_start _ _ p)|]. by eapply run_steps.
Qed.
Lemma id_ex_initial : initial ex_state.
Proof.
  split; try done.
  - intros id u. unfold ex_state, users. destruct (decide (id = 1)) as [->|Hn]; [rewrite lookup_insert_eq; by intros [= <-]|].
    rewrite lookup_insert_ne by done. by intros [<- <-]%lookup_singleton_Some.
  - intros id h. unfold ex_state, users, past. rewrite list_elem_of_singleton. split.
    + intros [= -> ->]. eexists. by rewrite lookup_insert_eq.
    + intros (u & Hu & Hh). destruct (decide (id = 1)) as [->|Hn].
      * rewrite lookup_insert_eq in Hu. injection Hu as <-. by injection Hh as <-.
      * rewrite lookup_insert_ne in Hu by done. apply lookup_singleton_Some in Hu as [<- <-]. done.
Qed.
Lemma ex_logs_in : reached ex_presented ex_state ex_logged.
Proof. unfold reached, reachable, ex_logged. etrans; [|apply ex_finish; by constructor]. apply ex_finish. constructor. Qed.
Lemma ex_makes : reached ex_presented ex_state ex_made.
Proof. unfold reached, reachable. etrans; [apply ex_logs_in|]. apply ex_finish. constructor. Qed.
Lemma ex_to_out : rtc (sys_step (op ex_presented) env) ex_made ex_out.
Proof. apply ex_finish. constructor. Qed.
Lemma ex_logs_out : reached ex_presented ex_state ex_out.
Proof. unfold reached, reachable. etrans; [apply ex_makes|apply ex_to_out]. Qed.

Definition ex_session : Session := {|
  s_ID := 12; s_UserID := 1; s_TokenHash := token_Hash ex_cookie; s_Assurance := "password"; s_IpAddress := None;
  s_UserAgent := None; s_ExpiresAt := 100 + sessionTTL; s_LastSeenAt := Some 100; s_RevokedAt := None; s_CreatedAt := 100 |}.
Lemma sessions_are_earned_witness :
  enrolled ex_state 1 /\ sessions (fst ex_logged) !! 12 = Some ex_session.
Proof.
  assert (sessions (fst ex_logged) !! 12 = Some ex_session) as H by (vm_compute; reflexivity). split; [|exact H].
  exact (proj1 (sessions_are_earned ex_presented ex_state ex_logged 12 ex_session id_ex_initial ex_logs_in H)).
Defined.
Lemma no_way_in_without_password_witness :
  (exists u, users (fst ex_logged) !! 2 = Some u)
  /\ forall sid y, sessions (fst ex_logged) !! sid = Some y -> s_UserID y <> 2.
Proof.
  split; [eexists; vm_compute; reflexivity|].
  refine (proj2 (no_way_in_without_password ex_presented ex_state ex_logged 2 id_ex_initial ex_logs_in _)).
  intros u Hu. assert (users ex_state !! 2 = Some (ex_user 2 "b@example.com" None)) as H by (vm_compute; reflexivity).
  rewrite H in Hu. by injection Hu as <-.
Defined.
Lemma codes_never_work_witness :
  exists e, fst (run (handle_SendOTP "10") [] (fst (finish (forget (handle_Start "A@example.com")) (ex_state, [])))) = inr e.
Proof.
  refine (proj1 (codes_never_work ex_presented ex_state _ "10" "123456" None None [] id_ex_initial _)).
  unfold reached, reachable. apply ex_finish. constructor.
Defined.
Lemma dead_sessions_stay_dead_witness :
  (exists e, fst (run (session_user (Some ex_cookie)) [] (fst ex_out)) = inr e)
  /\ fst (run (session_user (Some ex_cookie)) [] (fst ex_made)) = inl 1.
Proof.
  split; [|vm_compute; reflexivity].
  refine (proj2 (dead_sessions_stay_dead ex_presented ex_state ex_out ex_out ex_cookie [] id_ex_initial ex_logs_out
    (rtc_refl _ _) _)).
  exists 12, (revoked 100 ex_session). split; [vm_compute; reflexivity|]. split; [reflexivity|]. by left.
Defined.
Definition ex_org : Organization := {|
  o_ID := 13; o_Name := "acme"; o_Status := "active"; o_CreatedAt := 100; o_UpdatedAt := 100; o_DeletedAt := None |}.
Lemma ex_has_org : organizations (fst ex_made) !! 13 = Some ex_org.
Proof. vm_compute. reflexivity. Qed.
Lemma organization_keeps_owner_witness :
  exists u m, members (fst ex_made) !! (13, u) = Some m /\ m_Role m = RoleOwner /\ m_Status m = "active"
    /\ members (fst ex_out) !! (13, u) = Some m
    /\ forall u' m', members (fst ex_out) !! (13, u') = Some m' -> m_Role m' = RoleOwner -> u' = u.
Proof.
  exact (organization_keeps_owner ex_presented ex_state ex_made ex_out 13 ex_org id_ex_initial ex_makes ex_to_out ex_has_org).
Defined.
(** A thread after some of its calls; the one that adds a member is the fifth of its
    request. *)
Fixpoint advance {S A} (n : nat) (p : prog S A) (s : S) : prog S A * S :=
  match n, p with
  | Datatypes.S n, Call f k => let (x, s') := f s in advance n (k x) s'
  | Datatypes.S n, Local f k => let (x, s') := f s in advance n (k x) s'
  | _, _ => (p, s)
  end.
Lemma advance_steps {S} (ops : prog S unit -> Prop) env n (p : prog S unit) s ts :
  rtc (sys_step ops env) (s, p :: ts) (snd (advance n p s), fst (advance n p s) :: ts).
Proof.
  revert p s. induction n as [|n IH]; intros p s; [by destruct p|]. destruct p as [r|X f k|X f k]; simpl; [done| |];
    destruct (f s) as [x s'] eqn:Hf; (eapply rtc_l; [|apply IH]).
  - by apply (sys_run _ _ []), (step_call f k FOk).
  - by apply (sys_run _ _ []), step_local.
Qed.
Lemma advance_step {S} (ops : prog S unit -> Prop) env (p : prog S unit) s ts : (forall r, p <> Return r) ->
  sys_step ops env (s, p :: ts) (snd (advance 1 p s), fst (advance 1 p s) :: ts).
Proof.
  intros Hp. destruct p as [r|X f k|X f k]; [by destruct (Hp r)| |]; simpl; destruct (f s) as [x s'] eqn:Hf.
  - replace (advance 0 (k x) s') with (k x, s') by (by destruct (k x)).
    by apply (sys_run _ _ [] (Call f k) ts s (k x) s'), (step_call f k FOk).
  - replace (advance 0 (k x) s') with (k x, s') by (by destruct (k x)).
    by apply (sys_run _ _ [] (Local f k) ts s (k x) s'), step_local.
Qed.
Definition ex_request : Request := {|
  Method := "POST"; Cookie := Some ex_cookie; Authorization := ""; OrganizationHeader := "13"; PathID := "13" |}.
Definition ex_add : prog State unit := forget (handle_Member_Add ex_request 2 "Member").
Definition ex_at (n : nat) := advance n ex_add (fst ex_made).
Definition ex_before : State * list (prog State unit) := (snd (ex_at 4), fst (ex_at 4) :: snd ex_made).
Definition ex_added : prog State unit * State := advance 1 (fst (ex_at 4)) (snd (ex_at 4)).
Definition ex_after : State * list (prog State unit) := (snd ex_added, fst ex_added :: snd ex_made).
Lemma start_then_advance {I : IdentityLib} {X : SecretLib} {U : UuidLib} presented n p x :
  op presented p ->
  rtc (sys_step (op presented) env) x (snd (advance n p (fst x)), fst (advance n p (fst x)) :: snd x).
Proof. intros Hp. destruct x as [s ts]. eapply rtc_l; [by apply (sys_start _ _ p)|]. apply advance_steps. Qed.
Lemma ex_adds : reached ex_presented ex_state ex_before.
Proof. unfold reached, reachable. etrans; [apply ex_makes|]. apply start_then_advance. constructor. Qed.
Lemma ex_one_more : sys_step (op ex_presented) env ex_before ex_after.
Proof.
  assert (forall r, fst (ex_at 4) <> Return r) as H by (intros r; vm_compute; discriminate).
  exact (advance_step (op ex_presented) env (fst (ex_at 4)) (snd (ex_at 4)) (snd ex_made) H).
Qed.
Lemma ex_still_has_org : organizations (fst ex_before) !! 13 = Some ex_org.
Proof. vm_compute. reflexivity. Qed.
End Example_.
End IdentityOutcomes.
