(* ===== verification/Providers.v ===== *)
(** * The registry of speech and language providers

    [providers/model.go] and [providers/registry.go]: what an adapter says of itself
    and the tables of the adapters a process has. The adapters themselves are
    clients of other services; of one, the registry reads its descriptor and which
    interfaces it implements. *)

From stdpp Require Import sorting.
From S2P Require Import Prelude MediaSession.

Module Providers.
Import MediaSession.

(** ** model.go *)
Definition KindSTT : string := "stt".
Definition KindLLM : string := "llm".
Definition KindTTS : string := "tts".
Definition KindRealtime : string := "realtime".
Definition kinds : list string := [KindSTT; KindLLM; KindTTS; KindRealtime].
Record Descriptor := { d_ID : string; d_Kind : string; d_Capabilities : list string }.
Fixpoint check_capabilities (seen : list string) (l : list string) : result unit :=
  match l with
  | [] => inl tt
  | c :: l' =>
      let? _ := guard_err (bool_decide (c = "")) (Errorf "provider capability is required" []) in
      let? _ := guard_err (bool_decide (c ∈ seen)) (Errorf "duplicate provider capability %q" [c]) in
      check_capabilities (c :: seen) l'
  end.
Definition Descriptor_Validate (d : Descriptor) : result unit :=
  let? _ := guard_err (bool_decide (TrimSpace (d_ID d) = "")) (Errorf "provider id is required" []) in
  let? _ := guard_err (negb (bool_decide (d_Kind d ∈ kinds))) (Errorf "unsupported provider kind %q" [d_Kind d]) in
  check_capabilities [] (d_Capabilities d).

(** A message of the history of a conversation. *)
Record ToolCall := { tc_ID : string; tc_Name : string; tc_Arguments : list ascii }.
Record Message := { Role : string; Content : string; ToolCalls : list ToolCall; ToolCallID : string }.
Record Runtime := { APIKey : string; RuntimeConfig : list ascii }.
Definition STTEventSpeechStarted : string := "speech.started".
Definition STTEventSpeechStopped : string := "speech.stopped".
Definition STTEventError : string := "error".
Record STTEvent := { st_Type : string; st_Text : string; st_Err : option error }.
Record LLMEvent := {
  TextDelta : string; le_ToolCallID : string; ToolIndex : Z; ToolName : string; ToolArguments : list ascii;
  InputTokens : Z; OutputTokens : Z; TotalTokens : Z; le_Done : bool; le_Err : option error;
}.
Record TTSEvent := { te_Audio : AudioFrame; te_Done : bool; te_Err : option error }.

(** ** registry.go *)
(** An adapter: its descriptor, and the kinds whose interface it implements. *)
Record Provider_ := { Desc : Descriptor; implements : string -> bool }.
Record Registry := { descriptors : gmap string Descriptor; adapters : gmap (string * string) Provider_ }.
Definition registryKey (kind id : string) : string := kind +:+ ":" +:+ TrimSpace id.
Definition Register (p : Provider_) (r : Registry) : result Registry :=
  let d := Desc p in
  let? _ := Descriptor_Validate d in
  let key := registryKey (d_Kind d) (d_ID d) in
  let? _ := guard_err (bool_decide (is_Some (descriptors r !! key)))
              (Errorf "provider %q already registered for %q" [d_ID d; d_Kind d]) in
  let id := TrimSpace (d_ID d) in
  let? _ := guard_err (negb (implements p (d_Kind d))) (Errorf "provider %q does not implement %s" [id; d_Kind d]) in
  inl {| descriptors := <[key := {| d_ID := id; d_Kind := d_Kind d; d_Capabilities := d_Capabilities d |}]> (descriptors r);
         adapters := <[(d_Kind d, id) := p]> (adapters r) |}.
Fixpoint register_all (ps : list Provider_) (r : Registry) : result Registry :=
  match ps with
  | [] => inl r
  | p :: ps' => let? r' := Register p r in register_all ps' r'
  end.
Definition NewRegistry (ps : list Provider_) : result Registry := register_all ps {| descriptors := ∅; adapters := ∅ |}.
Definition Get (r : Registry) (kind id : string) : option Descriptor := descriptors r !! registryKey kind id.
(** [Registry.STT], [LLM], [TTS] and [Realtime]. *)
Definition adapter (r : Registry) (kind id : string) : option Provider_ := adapters r !! (kind, TrimSpace id).
Definition by_id (a b : Descriptor) : Prop := String.le (d_ID a) (d_ID b).
#[local] Instance by_id_dec : RelDecision by_id.
Proof. intros a b. unfold by_id. apply _. Defined.
Definition List_ (r : Registry) (kind : string) : list Descriptor :=
  merge_sort by_id (filter (fun d => d_Kind d = kind) (snd <$> map_to_list (descriptors r))).

(** ** What a registry holds *)
Definition trimmed (d : Descriptor) : Descriptor :=
  {| d_ID := TrimSpace (d_ID d); d_Kind := d_Kind d; d_Capabilities := d_Capabilities d |}.
Definition key_of (p : Provider_) : string * string := (d_Kind (Desc p), TrimSpace (d_ID (Desc p))).
Lemma registryKey_inj k k' i i' : k ∈ kinds -> k' ∈ kinds -> registryKey k i = registryKey k' i' ->
  k = k' /\ TrimSpace i = TrimSpace i'.
Proof.
  unfold kinds. rewrite !elem_of_cons. intros [->|[->|[->|[->|[]%not_elem_of_nil]]]] [->|[->|[->|[->|[]%not_elem_of_nil]]]] H;
    unfold registryKey in H; simpl in H; by simplify_eq.
Qed.
Record holds (r : Registry) (ps : list Provider_) : Prop := {
  ho_adapters : forall kind id p, adapters r !! (kind, id) = Some p <-> p ∈ ps /\ key_of p = (kind, id);
  ho_descriptors : forall key d, descriptors r !! key = Some d <->
    exists p, p ∈ ps /\ key = registryKey (d_Kind (Desc p)) (d_ID (Desc p)) /\ d = trimmed (Desc p);
  ho_valid : Forall (fun p => d_Kind (Desc p) ∈ kinds /\ implements p (d_Kind (Desc p)) = true) ps;
}.
Lemma Validate_kind d : Descriptor_Validate d = inl tt -> d_Kind d ∈ kinds.
Proof. unfold Descriptor_Validate, guard_err. repeat case_bool_decide; simpl; done. Qed.
Lemma Register_holds p r r' ps : holds r ps -> Register p r = inl r' ->
  holds r' (p :: ps) /\ forall q, q ∈ ps -> key_of q <> key_of p.
Proof.
  intros [Had Hde Hv] H. unfold Register in H.
  destruct (Descriptor_Validate (Desc p)) as [[]|] eqn:Hval; [|done]. apply Validate_kind in Hval.
  unfold guard_err in H. simpl in H. case_bool_decide as Hnew; [done|].
  destruct (implements p (d_Kind (Desc p))) eqn:Himp; [|done]. simpl in H. simplify_eq.
  assert (forall q, q ∈ ps -> key_of q <> key_of p) as Hfresh.
  { intros q Hq [= Hk Hi]. apply Hnew. exists (trimmed (Desc q)). apply Hde. exists q. split; [done|]. split; [|done].
    unfold registryKey. by rewrite Hk, Hi. }
  split; [|done]. split; simpl.
  - intros kind id q. rewrite lookup_insert_Some, Had, elem_of_cons. unfold key_of in *. split.
    + intros [[[= <- <-] <-]|[Hne [Hq Hk]]]; auto.
    + intros [[->|Hq] Hk]; [by left|]. right. split; [|done]. intros He. apply (Hfresh q Hq). congruence.
  - intros key d. rewrite lookup_insert_Some, Hde. split.
    + intros [[<- <-]|[Hne (q & Hq & -> & ->)]]; [exists p|exists q]; rewrite elem_of_cons; auto.
    + intros (q & [->|Hq]%elem_of_cons & -> & ->); [by left|]. right. split; [|by eauto].
      intros He. rewrite Forall_forall in Hv. destruct (Hv q Hq) as [Hkq _]. apply registryKey_inj in He as [Hk Hi]; [|done..].
      apply (Hfresh q Hq). unfold key_of. congruence.
  - by constructor.
Qed.
Lemma register_all_holds todo r r' ps : holds r ps -> NoDup (key_of <$> ps) -> register_all todo r = inl r' ->
  holds r' (rev todo ++ ps) /\ NoDup (key_of <$> (rev todo ++ ps)).
Proof.
  revert r ps. induction todo as [|p todo IH]; intros r ps Hr Hnd H; simpl in *; [by simplify_eq|].
  destruct (Register p r) as [r1|] eqn:Hp; [|done]. destruct (Register_holds _ _ _ _ Hr Hp) as [Hr1 Hfresh].
  rewrite <-app_assoc. simpl. apply (IH r1 (p :: ps)); [done| |done]. rewrite fmap_cons. constructor; [|done].
  intros (q & Hk & Hq)%list_elem_of_fmap. by apply (Hfresh q Hq).
Qed.
(** A registry holds what was registered. The registry made of a list of
    adapters finds, for a kind and a name with any blanks around it, an adapter
    exactly if the list has it under that kind and name; it is the only one, it
    implements its kind, and its descriptor is found under the same kind and name. *)
Theorem registry_holds_adapters ps r : NewRegistry ps = inl r ->
  (forall kind id p, adapter r kind id = Some p <-> p ∈ ps /\ d_Kind (Desc p) = kind /\ TrimSpace (d_ID (Desc p)) = TrimSpace id)
  /\ NoDup ((fun p => (d_Kind (Desc p), TrimSpace (d_ID (Desc p)))) <$> ps)
  /\ (forall kind id p, adapter r kind id = Some p -> kind ∈ kinds /\ implements p kind = true
        /\ Get r kind id = Some {| d_ID := TrimSpace id; d_Kind := kind; d_Capabilities := d_Capabilities (Desc p) |}).
Proof.
  intros H. assert (holds {| descriptors := ∅; adapters := ∅ |} []) as H0.
  { split; simpl; [intros kind id p; rewrite lookup_empty; set_solver| |constructor].
    intros key d. rewrite lookup_empty. split; [done|]. by intros (p & ?%not_elem_of_nil & _). }
  destruct (register_all_holds ps _ _ [] H0 (NoDup_nil_2) H) as [[Had Hde Hv] Hnd]. rewrite app_nil_r in *.
  assert (forall p, p ∈ rev ps <-> p ∈ ps) as Hrev by (intros p; rewrite !list_elem_of_In; symmetry; apply in_rev).
  assert (forall kind id p, adapter r kind id = Some p <-> p ∈ ps /\ d_Kind (Desc p) = kind /\ TrimSpace (d_ID (Desc p)) = TrimSpace id) as Ha.
  { intros kind id p. unfold adapter. rewrite Had, Hrev. unfold key_of. split; [intros [? [=]]|intros (? & ? & ?)]; [done|].
    split; [done|]. congruence. }
  split_and!; [done| |].
  - change (NoDup (key_of <$> ps)). by rewrite (Permutation_rev ps).
  - intros kind id p Hp. apply Ha in Hp as (Hin & <- & Hid). rewrite Forall_forall in Hv.
    destruct (Hv p) as [Hk Hi]; [by apply Hrev|]. split_and!; [done..|]. unfold Get. apply Hde. exists p.
    rewrite Hrev. unfold registryKey, trimmed. rewrite Hid. done.
Qed.
Lemma registry_holds_adapters_witness :
  let p := {| Desc := {| d_ID := " groq "; d_Kind := KindLLM; d_Capabilities := ["tools"] |}; implements := fun k => bool_decide (k = KindLLM) |} in
  match NewRegistry [p] with
  | inl r => (exists d, Get r KindLLM "groq " = Some d) /\ (forall kind id q, adapter r kind id = Some q <->
      q ∈ [p] /\ d_Kind (Desc q) = kind /\ TrimSpace (d_ID (Desc q)) = TrimSpace id)
  | inr _ => False
  end.
Proof.
  intros p. destruct (NewRegistry [p]) as [r|e] eqn:H; [|vm_compute in H; discriminate H].
  split; [|exact (proj1 (registry_holds_adapters [p] r H))].
  vm_compute in H. injection H as <-. eexists. vm_compute. reflexivity.
Defined.
End Providers.
