(* ===== verification/Composable.v ===== *)
(** * The composable engine: speech to text, a language model, text to speech

    [media/engine/composable/composable.go]: one stream runs the turns of a
    conversation. Its goroutines are the loop over the transcriber's events, one
    [generate] for each response, and the callers of [Interrupt],
    [SubmitToolResult] and [Close]; they share the history and the current response
    under a mutex, and send on two channels. A step is a critical section, one
    channel operation or one call of an adapter, whose answer is an input. *)

From S2P Require Import Prelude Json MediaSession Providers.
Local Open Scope Z_scope.

Module Composable.
Import Json MediaSession Providers.

Definition EventResponseDelta : string := "response.delta".
Definition EventToolCall : string := "tool.call".
Definition EventUsage : string := "usage".
Definition EventTranscriptFinal : string := "transcript.final".
(** Events with one payload; [OccurredAt] is set when the event is built. *)
Definition failure_event (source code message : string) (terminal : bool) (t : Z) : Event := {|
  ev_Type := EventError; ev_Transcript := None; ev_Response := None; ev_ToolCall := None; ev_Usage := None;
  ev_Failure := Some {| fe_Source := source; fe_Code := code; fe_Message := message; fe_Terminal := terminal |};
  ev_OccurredAt := t |}.
Definition transcript_event (text : string) (t : Z) : Event := {|
  ev_Type := EventTranscriptFinal; ev_Transcript := Some text; ev_Response := None; ev_ToolCall := None; ev_Usage := None;
  ev_Failure := None; ev_OccurredAt := t |}.
Definition delta_event (text : string) (t : Z) : Event := {|
  ev_Type := EventResponseDelta; ev_Transcript := None; ev_Response := Some text; ev_ToolCall := None; ev_Usage := None;
  ev_Failure := None; ev_OccurredAt := t |}.
Definition tool_event (c : ToolCall) (t : Z) : Event := {|
  ev_Type := EventToolCall; ev_Transcript := None; ev_Response := None;
  ev_ToolCall := Some (tc_ID c, tc_Name c, tc_Arguments c); ev_Usage := None; ev_Failure := None; ev_OccurredAt := t |}.
Definition usage_event (e : LLMEvent) (t : Z) : Event := {|
  ev_Type := EventUsage; ev_Transcript := None; ev_Response := None; ev_ToolCall := None;
  ev_Usage := Some {| us_Input := InputTokens e; us_Output := OutputTokens e; us_Total := TotalTokens e |};
  ev_Failure := None; ev_OccurredAt := t |}.

(** ** What the mutex guards

    [responseCancel] is the response whose context it cancels; [generation] counts
    responses and cancellations (64 bits, which no session exhausts). *)
Record core := {
  messages : list Message; generation : Z; responseCancel : option Z; responseActive : bool;
  pendingToolCalls : gmap string string;
}.
Definition current (g : Z) (c : core) : bool := (g =? generation c) && responseActive c.
Definition user_message (text : string) : Message :=
  {| Role := "user"; Content := text; ToolCalls := []; ToolCallID := "" |}.
Definition assistant_message (text : string) : Message :=
  {| Role := "assistant"; Content := text; ToolCalls := []; ToolCallID := "" |}.
Definition tool_message (r : ToolResult) : Message :=
  {| Role := "tool"; Content := tr_Content r; ToolCalls := []; ToolCallID := tr_ToolCallID r |}.
Definition calls_message (calls : list ToolCall) : Message :=
  {| Role := "assistant"; Content := ""; ToolCalls := calls; ToolCallID := "" |}.

(** The critical sections. *)
Definition begin_response (ms : list Message) (pending : gmap string string) (c : core) : core :=
  {| messages := ms; generation := generation c + 1; responseCancel := Some (generation c + 1); responseActive := true;
     pendingToolCalls := pending |}.
Definition start_section (text : string) (c : core) : core :=
  begin_response (messages c ++ [user_message text]) (pendingToolCalls c) c.
Definition cancel_section (c : core) : core :=
  {| messages := messages c; generation := generation c + 1; responseCancel := None; responseActive := false;
     pendingToolCalls := pendingToolCalls c |}.
Definition end_response (ms : list Message) (pending : gmap string string) (c : core) : core :=
  {| messages := ms; generation := generation c; responseCancel := None; responseActive := false;
     pendingToolCalls := pending |}.
Definition stop_section (text : string) (c : core) : core :=
  end_response (if bool_decide (text = "") then messages c else messages c ++ [assistant_message text])
    (pendingToolCalls c) c.
Definition add_pending (calls : list ToolCall) (m : gmap string string) : gmap string string :=
  foldl (fun m call => <[tc_ID call := tc_Name call]> m) m calls.
Definition await_section (calls : list ToolCall) (c : core) : core :=
  end_response (messages c ++ [calls_message calls]) (add_pending calls (pendingToolCalls c)) c.
(** [SubmitToolResult]: whether all results are there, or an error. *)
Definition submit_section (r : ToolResult) (c : core) : result (bool * core) :=
  match pendingToolCalls c !! tr_ToolCallID r with
  | None => inr (Errorf "unknown pending tool call %q" [tr_ToolCallID r])
  | Some name =>
      if negb (bool_decide (tr_Name r = "")) && negb (bool_decide (tr_Name r = name))
      then inr (Errorf "tool result name does not match pending call" []) else
      let pending := delete (tr_ToolCallID r) (pendingToolCalls c) in
      let ms := messages c ++ [tool_message r] in
      if bool_decide (pending = ∅) then inl (true, begin_response ms pending c)
      else inl (false, {| messages := ms; generation := generation c; responseCancel := responseCancel c;
                          responseActive := responseActive c; pendingToolCalls := pending |})
  end.

(** ** Speech chunks and tool calls of one response *)
Definition last_byte (s : string) : option ascii := last (bytes s).
Definition bytes_len (s : string) : Z := Z.of_nat (length (bytes s)).
Definition shouldFlushSpeechChunk (text : string) : bool :=
  let trimmed := TrimSpace text in
  match last_byte trimmed with
  | None => false
  | Some c =>
      bool_decide (c ∈ ["."; "!"; "?"; ";"; ":"]%char) || bool_decide (c = LF)
      || ((120 <=? bytes_len trimmed) && match last_byte text with
          | Some d => bool_decide (d = " "%char) || bool_decide (d = LF)
          | None => false end)
  end.
(** What a goroutine of a response does next: emit if it is current, send text to
    the voice, wait for tools, or stop. *)
Inductive act :=
| AEmit (e : Z -> Event)
| ASay (text : string) (more : bool)
| AAwait (calls : list ToolCall)
| AStop (text : string).
Record locals := {
  l_text : string; l_pending : string; l_held : string; l_calls : gmap Z ToolCall; l_order : list Z; l_open : bool;
}.
Definition no_locals : locals := {|
  l_text := ""; l_pending := ""; l_held := ""; l_calls := ∅; l_order := []; l_open := true |}.
Definition say_if (held : string) (more : bool) : list act := if bool_decide (held = "") then [] else [ASay held more].
Definition on_delta (delta : string) (l : locals) : list act * locals :=
  if bool_decide (delta = "") then ([], l) else
  let pending := l_pending l +:+ delta in
  let flush := shouldFlushSpeechChunk pending in
  (AEmit (delta_event delta) :: (if flush then say_if (l_held l) true else []),
   {| l_text := l_text l +:+ delta; l_pending := if flush then "" else pending;
      l_held := if flush then TrimSpace pending else l_held l; l_calls := l_calls l; l_order := l_order l;
      l_open := l_open l |}).
Definition on_tool (e : LLMEvent) (l : locals) : locals :=
  if bool_decide (le_ToolCallID e = "") && bool_decide (ToolName e = "") && bool_decide (ToolArguments e = []) then l else
  let call := default {| tc_ID := ""; tc_Name := ""; tc_Arguments := [] |} (l_calls l !! ToolIndex e) in
  let call := {| tc_ID := if bool_decide (le_ToolCallID e = "") then tc_ID call else le_ToolCallID e;
                 tc_Name := if bool_decide (ToolName e = "") then tc_Name call else ToolName e;
                 tc_Arguments := tc_Arguments call ++ ToolArguments e |} in
  {| l_text := l_text l; l_pending := l_pending l; l_held := l_held l; l_calls := <[ToolIndex e := call]> (l_calls l);
     l_order := if bool_decide (is_Some (l_calls l !! ToolIndex e)) then l_order l else l_order l ++ [ToolIndex e];
     l_open := l_open l |}.
Definition on_usage (e : LLMEvent) : list act :=
  if (InputTokens e =? 0) && (OutputTokens e =? 0) && (TotalTokens e =? 0) then [] else [AEmit (usage_event e)].
(** An event of the model that is no error and no end. *)
Definition on_event (e : LLMEvent) (l : locals) : list act * locals :=
  let (says, l') := on_delta (TextDelta e) l in (on_usage e ++ says, on_tool e l').
Definition complete_call (c : ToolCall) : bool :=
  negb (bool_decide (tc_ID c = "")) && negb (bool_decide (tc_Name c = "")) && Valid (tc_Arguments c).
Definition ordered_calls (l : locals) : list (option ToolCall) := (fun i => l_calls l !! i) <$> l_order l.
Definition complete_calls (l : locals) : list ToolCall :=
  omap (fun c => match c with Some c => if complete_call c then Some c else None | None => None end) (ordered_calls l).
Definition announce_call (llm : string) (c : option ToolCall) : act :=
  match c with
  | Some c => if complete_call c then AEmit (tool_event c) else
      AEmit (failure_event llm "invalid_tool_call" "LLM provider returned an incomplete tool call" false)
  | None => AEmit (failure_event llm "invalid_tool_call" "LLM provider returned an incomplete tool call" false)
  end.
(** The end of the model's events. *)
Definition final_words (l : locals) : list act :=
  let final := TrimSpace (l_pending l) in
  if bool_decide (final = "")
  then if bool_decide (l_held l = "") then [AStop ""] else [ASay (l_held l) false]
  else say_if (l_held l) true ++ [ASay final false].
Definition on_end (llm : string) (l : locals) : list act * locals :=
  let calls := complete_calls l in
  ((announce_call llm <$> ordered_calls l)
     ++ (if bool_decide (calls = []) then final_words l else [AAwait calls]),
   {| l_text := l_text l; l_pending := ""; l_held := ""; l_calls := l_calls l; l_order := l_order l; l_open := false |}).
(** ** The goroutines *)
(** What the loop and the callers do next: parts of [handleTurn], [startResponse],
    [cancelResponse], [SubmitToolResult], [Close] and the end of [run]. *)
Inductive action :=
| XEmit (e : Z -> Event)
| XSend (e : Event)
| XCancel
| XCancelContext (g : Z)
| XStart (text : string)
| XSubmit (r : ToolResult)
| XSpawn (g : Z) (ms : list Message)
| XWait
| XCloseEvents | XCloseAudio | XCloseDone
| XCancelStream | XCloseTranscriber | XAwaitDone.
(** A [generate] goroutine. *)
Inductive responder :=
| RGenerate (ms : list Message)
| RVoice
| RSelect (l : locals)
| RDo (acts : list act) (l : locals)
| RSend (e : Event) (acts : list act) (l : locals)
| RAudio (f : AudioFrame) (l : locals)
| RPlay (f : AudioFrame) (l : locals)
| RFail (e : error)
| RFailSend (e : Event)
| RStop (text : string)
| RStopped
| RStoppedSend (e : Event)
| RReturn
| RGone.
(** The loop of [run]: at its [select], or on its way, after which it ends or not. *)
Inductive runner := LoopWait | LoopDo (todo : list action) (last : bool) | LoopDone.

(** What leaves the stream on behalf of a response. *)
Inductive output := OEvent (e : Event) | OAudio (f : AudioFrame).
Inductive sender := ByLoop | ByCaller | ByResponse (g : Z).
(** [contexts]: the responses whose context has been cancelled; [responses]: the
    wait group; [heard], [said], [asked]: what has been sent for each response to
    the listener, the voice and the model; [panicked]: who sent on a closed channel. *)
Record stream := {
  st_core : core; st_done : bool; contexts : gset Z; responses : Z;
  buffer : list Event; events_closed : bool; audio_closed : bool; done_closed : bool;
  loop : runner; callers : list (list action); generating : gmap Z responder;
  clock : Z; panicked : option sender;
  heard : list (Z * output); said : list (Z * string * bool); asked : list (Z * list Message);
}.
Definition with_core (c : core) (s : stream) : stream := {|
  st_core := c; st_done := st_done s; contexts := contexts s; responses := responses s; buffer := buffer s;
  events_closed := events_closed s; audio_closed := audio_closed s; done_closed := done_closed s; loop := loop s;
  callers := callers s; generating := generating s; clock := clock s; panicked := panicked s; heard := heard s;
  said := said s; asked := asked s |}.
Definition with_contexts (d : bool) (cs : gset Z) (n : Z) (s : stream) : stream := {|
  st_core := st_core s; st_done := d; contexts := cs; responses := n; buffer := buffer s;
  events_closed := events_closed s; audio_closed := audio_closed s; done_closed := done_closed s; loop := loop s;
  callers := callers s; generating := generating s; clock := clock s; panicked := panicked s; heard := heard s;
  said := said s; asked := asked s |}.
Definition with_channels (b : list Event) (ec ac dc : bool) (p : option sender) (s : stream) : stream := {|
  st_core := st_core s; st_done := st_done s; contexts := contexts s; responses := responses s; buffer := b;
  events_closed := ec; audio_closed := ac; done_closed := dc; loop := loop s;
  callers := callers s; generating := generating s; clock := clock s; panicked := p; heard := heard s;
  said := said s; asked := asked s |}.
Definition with_threads (r : runner) (cs : list (list action)) (s : stream) : stream := {|
  st_core := st_core s; st_done := st_done s; contexts := contexts s; responses := responses s; buffer := buffer s;
  events_closed := events_closed s; audio_closed := audio_closed s; done_closed := done_closed s; loop := r;
  callers := cs; generating := generating s; clock := clock s; panicked := panicked s; heard := heard s;
  said := said s; asked := asked s |}.
Definition with_clock (t : Z) (s : stream) : stream := {|
  st_core := st_core s; st_done := st_done s; contexts := contexts s; responses := responses s; buffer := buffer s;
  events_closed := events_closed s; audio_closed := audio_closed s; done_closed := done_closed s; loop := loop s;
  callers := callers s; generating := generating s; clock := t; panicked := panicked s; heard := heard s;
  said := said s; asked := asked s |}.
Definition at_response (g : Z) (r : responder) (s : stream) : stream := {|
  st_core := st_core s; st_done := st_done s; contexts := contexts s; responses := responses s; buffer := buffer s;
  events_closed := events_closed s; audio_closed := audio_closed s; done_closed := done_closed s; loop := loop s;
  callers := callers s; generating := <[g := r]> (generating s); clock := clock s; panicked := panicked s;
  heard := heard s; said := said s; asked := asked s |}.
Definition log (h : list (Z * output)) (w : list (Z * string * bool)) (a : list (Z * list Message)) (s : stream) : stream := {|
  st_core := st_core s; st_done := st_done s; contexts := contexts s; responses := responses s; buffer := buffer s;
  events_closed := events_closed s; audio_closed := audio_closed s; done_closed := done_closed s; loop := loop s;
  callers := callers s; generating := generating s; clock := clock s; panicked := panicked s; heard := heard s ++ h;
  said := said s ++ w; asked := asked s ++ a |}.

(** The answers of adapters and the branch a [select] takes. *)
Inductive input :=
| IGo | IContext
| IResult (r : result unit)
| ISpeech (e : option STTEvent)
| IModel (e : option LLMEvent)
| IVoice (e : option TTSEvent).

Definition event_capacity : nat := 32.
(** A send on [events]: into the buffer if there is room, a panic once closed. *)
Definition send_event (who : sender) (e : Event) (s : stream) : option stream :=
  if events_closed s then Some (with_channels (buffer s) true (audio_closed s) (done_closed s) (Some who) s) else
  if bool_decide (length (buffer s) < event_capacity)%nat
  then Some (with_channels (buffer s ++ [e]) false (audio_closed s) (done_closed s) (panicked s) s) else None.
(** [<-ctx.Done()] of the stream, and of a response. *)
Definition response_done (g : Z) (s : stream) : bool := st_done s || bool_decide (g ∈ contexts s).

Section Stream.
(** The text of an error ([error.Error]). *)
Context (error_text : error -> string) (sttID llmID : string).

Definition stopped_event : Z -> Event := plain_event EventResponseStopped.
Definition started_event : Z -> Event := plain_event EventResponseStarted.
Definition is_current (g : Z) (s : stream) : bool := current g (st_core s).
(** [startResponse] and [SubmitToolResult] once they have begun response [g]. *)
Definition launch (c : core) (s : stream) : list action * stream :=
  ([XEmit started_event; XSpawn (generation c) (messages c)],
   with_core c (with_contexts (st_done s) (contexts s) (responses s + 1) s)).
Definition cancel_old (s : stream) : stream :=
  match responseCancel (st_core s) with
  | Some g => with_contexts (st_done s) ({[g]} ∪ contexts s) (responses s) s
  | None => s
  end.
(** One action; [None] where it blocks. *)
Definition run_action (who : sender) (a : action) (inp : input) (s : stream) : option (list action * stream) :=
  match a, inp with
  | XEmit e, IGo => Some ([XSend (e (clock s))], s)
  | XSend e, IGo => match send_event who e s with Some s' => Some ([], s') | None => None end
  | XSend e, IContext => if st_done s then Some ([], s) else None
  | XCancel, IGo =>
      let c := st_core s in
      Some (match responseCancel c with Some g => [XCancelContext g] | None => [] end
            ++ (if responseActive c then [XEmit stopped_event] else []), with_core (cancel_section c) s)
  | XCancelContext g, IGo => Some ([], with_contexts (st_done s) ({[g]} ∪ contexts s) (responses s) s)
  | XStart text, IGo => Some (launch (start_section text (st_core s)) (cancel_old s))
  | XSubmit r, IGo =>
      match submit_section r (st_core s) with
      | inr _ => Some ([], s)
      | inl (true, c) => Some (launch c s)
      | inl (false, c) => Some ([], with_core c s)
      end
  | XSpawn g ms, IGo => Some ([], at_response g (RGenerate ms) s)
  | XWait, IGo => if responses s =? 0 then Some ([], s) else None
  | XCloseEvents, IGo => Some ([], with_channels (buffer s) true (audio_closed s) (done_closed s) (panicked s) s)
  | XCloseAudio, IGo => Some ([], with_channels (buffer s) (events_closed s) true (done_closed s) (panicked s) s)
  | XCloseDone, IGo => Some ([], with_channels (buffer s) (events_closed s) (audio_closed s) true (panicked s) s)
  | XCancelStream, IGo => Some ([], with_contexts true (contexts s) (responses s) s)
  | XCloseTranscriber, IResult (inl _) => Some ([XAwaitDone], s)
  | XCloseTranscriber, IResult (inr _) => Some ([], s)
  | XCloseTranscriber, IContext => Some ([XAwaitDone], s)
  | XAwaitDone, IGo => if done_closed s then Some ([], s) else None
  | XAwaitDone, IContext => Some ([], s)
  | _, _ => None
  end.

(** ** [run] *)
Definition the_end : list action := [XCancel; XWait; XCloseEvents; XCloseAudio; XCloseDone].
Definition speech_failure (e : STTEvent) : Z -> Event :=
  failure_event sttID "" (match st_Err e with Some err => error_text err | None => "speech-to-text provider failed" end) true.
Definition handleTurn (e : STTEvent) : list action :=
  if bool_decide (st_Type e = STTEventSpeechStarted) then [XEmit (plain_event EventSpeechStarted); XCancel] else
  if bool_decide (st_Type e = STTEventSpeechStopped) then
    let text := TrimSpace (st_Text e) in
    XEmit (plain_event EventSpeechStopped)
      :: (if bool_decide (text = "") then [] else [XEmit (transcript_event text); XStart text])
  else [].
Definition run_loop (inp : input) (s : stream) : option stream :=
  match loop s with
  | LoopWait =>
      match inp with
      | ISpeech None => Some (with_threads (LoopDo the_end true) (callers s) s)
      | ISpeech (Some e) =>
          if bool_decide (is_Some (st_Err e)) || bool_decide (st_Type e = STTEventError)
          then Some (with_threads (LoopDo (XEmit (speech_failure e) :: the_end) true) (callers s) s)
          else Some (with_threads (LoopDo (handleTurn e) false) (callers s) s)
      | IContext => if st_done s then Some (with_threads (LoopDo the_end true) (callers s) s) else None
      | _ => None
      end
  | LoopDo [] last => Some (with_threads (if last then LoopDone else LoopWait) (callers s) s)
  | LoopDo (a :: rest) last =>
      match run_action ByLoop a inp s with
      | Some (todo, s') => Some (with_threads (LoopDo (todo ++ rest) last) (callers s') s')
      | None => None
      end
  | LoopDone => None
  end.
(** ** The callers *)
Definition Interrupt : list action := [XCancel].
Definition SubmitToolResult (r : ToolResult) : list action := [XSubmit r].
(** An error of the transcriber is returned unless the caller's context is over. *)
Definition Close : list action := [XCancelStream; XCloseTranscriber].
Definition run_caller (i : nat) (inp : input) (s : stream) : option stream :=
  match callers s !! i with
  | Some (a :: rest) =>
      match run_action ByCaller a inp s with
      | Some (todo, s') => Some (with_threads (loop s') (<[i := todo ++ rest]> (callers s')) s')
      | None => None
      end
  | _ => None
  end.
(** ** [generate] *)
Definition open_model (l : locals) : bool := l_open l.
(** An event of the model. *)
Definition on_model (e : option LLMEvent) (l : locals) : responder :=
  match e with
  | None => let (acts, l') := on_end llmID l in RDo acts l'
  | Some e =>
      if le_Done e then let (acts, l') := on_end llmID l in RDo acts l' else
      match le_Err e with
      | Some err => RFail err
      | None => let (acts, l') := on_event e l in RDo acts l'
      end
  end.
(** An event of the voice. *)
Definition on_voice (e : option TTSEvent) (l : locals) : responder :=
  match e with
  | None => RStop (TrimSpace (l_text l))
  | Some e =>
      if te_Done e then RStop (TrimSpace (l_text l)) else
      match te_Err e with
      | Some err => RFail err
      | None => if bool_decide (fr_Data (te_Audio e) = []) then RSelect l else RAudio (te_Audio e) l
      end
  end.
(** The end of a response, if it is still the current one. *)
Definition finish_response (g : Z) (f : core -> core) (s : stream) : stream :=
  if is_current g s then at_response g RStopped (with_core (f (st_core s)) s) else at_response g RReturn s.
Definition run_response (g : Z) (inp : input) (s : stream) : option stream :=
  match generating s !! g with
  | None => None
  | Some r =>
  match r, inp with
  | RGenerate ms, IResult (inl _) => Some (at_response g RVoice (log [] [] [(g, ms)] s))
  | RGenerate ms, IResult (inr e) => Some (at_response g (RFail e) (log [] [] [(g, ms)] s))
  | RVoice, IResult (inl _) => Some (at_response g (RSelect no_locals) s)
  | RVoice, IResult (inr e) => Some (at_response g (RFail e) s)
  | RSelect l, IModel e => if open_model l then Some (at_response g (on_model e l) s) else None
  | RSelect l, IVoice e => Some (at_response g (on_voice e l) s)
  | RSelect l, IContext => if response_done g s then Some (at_response g RReturn s) else None
  | RAudio f l, IGo => Some (at_response g (if is_current g s then RPlay f l else RSelect l) s)
  | RPlay f l, IGo => if audio_closed s
      then Some (at_response g (RSelect l) (with_channels (buffer s) (events_closed s) true (done_closed s) (Some (ByResponse g)) s))
      else Some (at_response g (RSelect l) (log [(g, OAudio f)] [] [] s))
  | RPlay f l, IContext => if response_done g s then Some (at_response g RReturn s) else None
  | RDo [] l, IGo => Some (at_response g (RSelect l) s)
  | RDo (AEmit e :: acts) l, IGo =>
      Some (at_response g (if is_current g s then RSend (e (clock s)) acts l else RDo acts l) s)
  | RDo (ASay text more :: acts) l, IResult (inl _) => Some (at_response g (RDo acts l) (log [] [(g, text, more)] [] s))
  | RDo (ASay text more :: acts) l, IResult (inr e) => Some (at_response g (RFail e) (log [] [(g, text, more)] [] s))
  | RDo (AAwait calls :: acts) l, IGo => Some (finish_response g (await_section calls) s)
  | RDo (AStop text :: acts) l, IGo => Some (at_response g (RStop text) s)
  | RSend e acts l, IGo =>
      match send_event (ByResponse g) e s with
      | Some s' => Some (at_response g (RDo acts l) (log [(g, OEvent e)] [] [] s'))
      | None => None
      end
  | RSend e acts l, IContext => if response_done g s then Some (at_response g (RDo acts l) s) else None
  | RFail e, IGo =>
      Some (at_response g (if response_done g s || negb (is_current g s) then RReturn else
        RFailSend (failure_event "composable" "" (error_text e) false (clock s))) s)
  | RFailSend e, IGo =>
      match send_event (ByResponse g) e s with
      | Some s' => Some (at_response g (RStop "") (log [(g, OEvent e)] [] [] s'))
      | None => None
      end
  | RFailSend e, IContext => if st_done s then Some (at_response g (RStop "") s) else None
  | RStop text, IGo => Some (finish_response g (stop_section text) s)
  | RStopped, IGo => Some (at_response g (RStoppedSend (stopped_event (clock s))) s)
  | RStoppedSend e, IGo =>
      match send_event (ByResponse g) e s with
      | Some s' => Some (at_response g RReturn s')
      | None => None
      end
  | RStoppedSend e, IContext => if st_done s then Some (at_response g RReturn s) else None
  | RReturn, IGo => Some (at_response g RGone (with_contexts (st_done s) (contexts s) (responses s - 1) s))
  | _, _ => None
  end
  end.

(** ** The stream *)
Inductive step : stream -> stream -> Prop :=
| step_loop inp s s' : run_loop inp s = Some s' -> step s s'
| step_caller i inp s s' : run_caller i inp s = Some s' -> step s s'
| step_response g inp s s' : run_response g inp s = Some s' -> step s s'
| step_call todo s : todo = Interrupt \/ todo = Close \/ (exists r, todo = SubmitToolResult r) ->
    step s (with_threads (loop s) (callers s ++ [todo]) s)
| step_listen e rest s : buffer s = e :: rest ->
    step s (with_channels rest (events_closed s) (audio_closed s) (done_closed s) (panicked s) s)
| step_clock t s : clock s <= t -> step s (with_clock t s)
| step_parent s : step s (with_contexts true (contexts s) (responses s) s).
(** [Engine.Start]: the history begins with the instructions, if there are any. *)
Definition start_stream (instructions : string) (now : Z) : stream := {|
  st_core := {| messages := if bool_decide (TrimSpace instructions = "") then [] else
                  [{| Role := "system"; Content := TrimSpace instructions; ToolCalls := []; ToolCallID := "" |}];
                generation := 0; responseCancel := None; responseActive := false; pendingToolCalls := ∅ |};
  st_done := false; contexts := ∅; responses := 0; buffer := []; events_closed := false; audio_closed := false;
  done_closed := false; loop := LoopWait; callers := []; generating := ∅; clock := now; panicked := None;
  heard := []; said := []; asked := [] |}.
End Stream.

(** ** [Engine] *)
Record Engine := {
  eng_Registry : option Registry; DefaultSTTProvider : string; DefaultLLMProvider : string; DefaultTTSProvider : string;
}.
Definition providerRuntime (cfg : Config) (role configuredDefault fallback : string) : string * Runtime :=
  let providerID := TrimSpace configuredDefault in
  let providerID := if bool_decide (providerID = "") then fallback else providerID in
  match Provider cfg role with
  | Some configured => (TrimSpace (pr_Provider configured), {| APIKey := pr_APIKey configured; RuntimeConfig := pr_Config configured |})
  | None => (providerID, {| APIKey := ""; RuntimeConfig := [] |})
  end.
Definition registered (r : Registry) (kind id format : string) : result Provider_ :=
  match adapter r kind id with Some p => inl p | None => inr (Errorf format [id]) end.
(** [startSTT]: what the adapter answers when it is asked to open a transcription. *)
Definition Start (e : Engine) (cfg : Config) (startSTT : Provider_ -> Runtime -> result unit) (now : Z) : result stream :=
  if negb (bool_decide (cfg_Engine cfg = EngineComposable))
  then inr (Errorf "composable engine cannot start session engine %q" [cfg_Engine cfg]) else
  match eng_Registry e with
  | None => inr (Errorf "provider registry is required" [])
  | Some registry =>
      let (sttID, sttRuntime) := providerRuntime cfg "stt" (DefaultSTTProvider e) "deepgram" in
      let (llmID, _) := providerRuntime cfg "llm" (DefaultLLMProvider e) "groq" in
      let (ttsID, _) := providerRuntime cfg "tts" (DefaultTTSProvider e) "cartesia" in
      let? stt := registered registry KindSTT sttID "STT provider %q is not registered" in
      let? _ := registered registry KindLLM llmID "LLM provider %q is not registered" in
      let? _ := registered registry KindTTS ttsID "TTS provider %q is not registered" in
      match startSTT stt sttRuntime with
      | inr err => inr (Wrapf "start transcription: %w" [] err)
      | inl _ => inl (start_stream (cfg_Instructions cfg) now)
      end
  end.
End Composable.
