(* ===== verification/ComposableSafety.v ===== *)
(** * The composable engine: what holds of any interleaving

    The history of a conversation, the life of the current response, and what
    still leaves the stream once a response has been cancelled; and what the voice
    is given of the text of a response. *)

From S2P Require Import Prelude Json MediaSession Providers Composable.
Local Open Scope Z_scope.

Module ComposableSafety.
Import Json MediaSession Providers Composable.

(** ** Critical sections *)
Inductive core_step : core -> core -> Prop :=
| cs_same c : core_step c c
| cs_cancel c : core_step c (cancel_section c)
| cs_start text c : core_step c (start_section text c)
| cs_submit r b c c' : submit_section r c = inl (b, c') -> core_step c c'
| cs_await g calls c : current g c = true -> core_step c (await_section calls c)
| cs_stop g text c : current g c = true -> core_step c (stop_section text c).

(** ** What an action does to the shared state *)
Definition spawns (a : action) : bool := match a with XSpawn _ _ => true | _ => false end.
Definition is_plain (a : action) : Prop := match a with XSpawn _ _ | XCancelContext _ => False | _ => True end.
Inductive effect (c : core) (ctx : gset Z) (gen : gmap Z responder) :
  action -> list action -> core -> gset Z -> gmap Z responder -> Prop :=
| ef_plain a todo : spawns a = false -> Forall is_plain todo -> effect c ctx gen a todo c ctx gen
| ef_cancel todo : Forall (fun b => match b with XSpawn _ _ => False | XCancelContext g => responseCancel c = Some g | _ => True end) todo ->
    effect c ctx gen XCancel todo (cancel_section c) ctx gen
| ef_context g : effect c ctx gen (XCancelContext g) [] c ({[g]} ∪ ctx) gen
| ef_start text ctx' : (forall g, g ∈ ctx' -> g ∈ ctx \/ responseCancel c = Some g) ->
    effect c ctx gen (XStart text) [XEmit started_event; XSpawn (generation c + 1) (messages (start_section text c))]
      (start_section text c) ctx' gen
| ef_resume r c' : submit_section r c = inl (true, c') ->
    effect c ctx gen (XSubmit r) [XEmit started_event; XSpawn (generation c') (messages c')] c' ctx gen
| ef_result r c' : submit_section r c = inl (false, c') -> effect c ctx gen (XSubmit r) [] c' ctx gen
| ef_spawn g ms : effect c ctx gen (XSpawn g ms) [] c ctx (<[g := RGenerate ms]> gen).

Lemma submit_messages r b c c' : submit_section r c = inl (b, c') -> messages c' = messages c ++ [tool_message r]
  /\ (exists name, pendingToolCalls c !! tr_ToolCallID r = Some name)
  /\ pendingToolCalls c' = delete (tr_ToolCallID r) (pendingToolCalls c).
Proof. unfold submit_section. repeat case_match; intros; simplify_eq; eauto. Qed.
Lemma submit_response r b c c' : submit_section r c = inl (b, c') ->
  if b then generation c' = generation c + 1 /\ responseCancel c' = Some (generation c + 1) /\ responseActive c' = true
  else generation c' = generation c /\ responseCancel c' = responseCancel c /\ responseActive c' = responseActive c.
Proof. unfold submit_section. repeat case_match; intros; simplify_eq; done. Qed.
Lemma core_step_grows c c' : core_step c c' -> generation c <= generation c' /\ messages c `prefix_of` messages c'.
Proof.
  destruct 1 as [c|c|text c|r b c c' Hr|g calls c Hc|g text c Hc]; simpl; try (split; [lia|]); try done.
  - by eexists.
  - destruct (submit_messages _ _ _ _ Hr) as (-> & _). apply submit_response in Hr.
    split; [destruct b; lia|by eexists].
  - by eexists.
  - case_match; [done|by eexists].
Qed.

(** A response that has not come to its end, and one that is past its last check
    and has something on its way out. *)
Definition working (r : responder) : bool :=
  match r with RStopped | RStoppedSend _ | RReturn | RGone => false | _ => true end.
Definition past_check (r : responder) : bool :=
  match r with RSend _ _ _ | RFailSend _ | RPlay _ _ => true | _ => false end.
Definition generates (r : responder) : option (list Message) := match r with RGenerate ms => Some ms | _ => None end.
(** The actions of the loop and of the callers that are still to be done. *)
Definition loop_todo (r : runner) : list action := match r with LoopDo todo _ => todo | _ => [] end.
Definition waiting (s : stream) : list action := loop_todo (loop s) ++ concat (callers s).

(** ** The invariant *)
Definition action_ok (c : core) (a : action) : Prop :=
  match a with
  | XCancelContext g => g < generation c
  | XSpawn g ms => g <= generation c /\ ms `prefix_of` messages c
  | _ => True
  end.
Definition call_ids (m : Message) : list string := tc_ID <$> ToolCalls m.
Definition tool_calls (id : string) (ms : list Message) : nat :=
  length (filter (eq id) (ms ≫= call_ids)).
Definition is_result (id : string) (m : Message) : Prop := Role m = "tool" /\ ToolCallID m = id.
#[export] Instance is_result_dec id m : Decision (is_result id m) := _.
Definition tool_results (id : string) (ms : list Message) : nat := length (filter (is_result id) ms).
(** Every result answers one call; a pending call has none yet. *)
Definition answered (c : core) : Prop := forall id,
  (tool_results id (messages c) + (if bool_decide (is_Some (pendingToolCalls c !! id)) then 1 else 0)
   <= tool_calls id (messages c))%nat.
Definition alive (s : stream) : Prop := st_done s = true
  \/ (exists ms, XSpawn (generation (st_core s)) ms ∈ waiting s)
  \/ (exists r, generating s !! generation (st_core s) = Some r /\ working r = true).
Record sound (s : stream) : Prop := {
  so_cancel : responseCancel (st_core s) = if responseActive (st_core s) then Some (generation (st_core s)) else None;
  so_contexts : forall g, g ∈ contexts s -> g < generation (st_core s);
  so_waiting : Forall (action_ok (st_core s)) (waiting s);
  so_keys : forall g r, generating s !! g = Some r -> g <= generation (st_core s)
    /\ forall ms, generates r = Some ms -> ms `prefix_of` messages (st_core s);
  so_asked : Forall (fun q => snd q `prefix_of` messages (st_core s)) (asked s);
  so_answered : answered (st_core s);
  so_alive : responseActive (st_core s) = true -> alive s;
}.
Lemma action_ok_grows c c' a : generation c <= generation c' -> messages c `prefix_of` messages c' -> action_ok c a -> action_ok c' a.
Proof. intros Hg Hm. destruct a; simpl; try done; [lia|]. intros [Hle Hp]. split; [lia|by etrans]. Qed.
Lemma tool_results_app id ms ms' : tool_results id (ms ++ ms') = (tool_results id ms + tool_results id ms')%nat.
Proof. unfold tool_results. by rewrite filter_app, length_app. Qed.
Lemma tool_results_other id m : Role m <> "tool" -> tool_results id [m] = 0%nat.
Proof. intros H. unfold tool_results. rewrite filter_cons_False; [done|]. by intros [? _]. Qed.
Lemma tool_results_one r id : tool_results id [tool_message r] = if decide (tr_ToolCallID r = id) then 1%nat else 0%nat.
Proof.
  unfold tool_results. case_decide as Hd.
  - by rewrite filter_cons_True.
  - rewrite filter_cons_False; [done|]. by intros [_ ?].
Qed.
Lemma tool_calls_app id ms ms' : tool_calls id (ms ++ ms') = (tool_calls id ms + tool_calls id ms')%nat.
Proof. unfold tool_calls. by rewrite bind_app, filter_app, length_app. Qed.
Lemma add_pending_Some calls id (m : gmap string string) : is_Some (add_pending calls m !! id) -> is_Some (m !! id) \/ id ∈ tc_ID <$> calls.
Proof.
  revert m. induction calls as [|c calls IH]; intros m; simpl; [auto|]. intros H. apply IH in H as [H|H]; [|set_solver].
  destruct (decide (tc_ID c = id)) as [<-|Hn]; [set_solver|]. rewrite lookup_insert_ne in H by done. auto.
Qed.
Lemma answered_step c c' : core_step c c' -> answered c -> answered c'.
Proof.
  assert (forall text c, answered c -> answered (start_section text c)) as Hplain.
  { intros text c0 H id. specialize (H id). simpl. rewrite tool_results_app, tool_calls_app, tool_results_other by done. lia. }
  destruct 1 as [c|c|text c|r b c c' Hr|g calls c Hc|g text c Hc]; intros H; try done; try by apply Hplain.
  - intros id. specialize (H id). destruct (submit_messages _ _ _ _ Hr) as (-> & [name Hn] & ->).
    rewrite tool_results_app, tool_calls_app, tool_results_one.
    destruct (decide (tr_ToolCallID r = id)) as [<-|Hne].
    + rewrite lookup_delete_eq. rewrite Hn in H. simpl in *.
      lia.
    + rewrite lookup_delete_ne by done. simpl. lia.
  - intros id. specialize (H id). simpl. rewrite tool_results_app, tool_calls_app, tool_results_other by done.
    unfold tool_calls at 2. simpl. rewrite app_nil_r.
    destruct (decide (id ∈ tc_ID <$> calls)) as [Hin|Hnin].
    + assert (0 < length (filter (eq id) (call_ids (calls_message calls))))%nat as Hpos.
      { destruct (filter (eq id) _) eqn:Hf; [|simpl; lia]. exfalso.
        apply (not_elem_of_nil id). rewrite <-Hf. by apply list_elem_of_filter. }
      do 2 case_match; lia.
    + rewrite (bool_decide_ext _ (is_Some (pendingToolCalls c !! id))); [lia|]. split.
      * intros Hs. by apply add_pending_Some in Hs as [].
      * intros Hs. clear -Hs. revert Hs. generalize (pendingToolCalls c) as m. induction calls as [|x calls IH]; intros m Hs; [done|].
        simpl. apply IH. rewrite lookup_insert_is_Some'. auto.
  - intros id. specialize (H id). simpl. destruct (bool_decide (text = "")); [lia|].
    rewrite tool_results_app, tool_calls_app, tool_results_other by done. lia.
Qed.

Section Safety.
Context (error_text : error -> string) (sttID llmID : string).
Abbreviation step := (step error_text sttID llmID).

Lemma send_event_core who e s s' : send_event who e s = Some s' -> st_core s' = st_core s /\ generating s' = generating s
  /\ contexts s' = contexts s /\ st_done s' = st_done s /\ loop s' = loop s /\ callers s' = callers s /\ heard s' = heard s
  /\ asked s' = asked s /\ said s' = said s.
Proof. unfold send_event. repeat case_match; intros; simplify_eq; done. Qed.
Lemma run_action_core who a inp s todo s' : run_action who a inp s = Some (todo, s') -> core_step (st_core s) (st_core s').
Proof.
  unfold run_action. destruct a, inp; try done; simpl; intros H.
  - by simplify_eq; constructor.
  - destruct (send_event _ _ _) as [s1|] eqn:Hs; [|done]. apply send_event_core in Hs as [Hc _]. simplify_eq.
    rewrite Hc. constructor.
  - destruct (st_done s); simplify_eq; constructor.
  - simplify_eq. constructor.
  - simplify_eq. constructor.
  - unfold launch in H. simplify_eq. constructor.
  - destruct (submit_section r (st_core s)) as [[[] c]|e] eqn:Hr; unfold launch in H; simplify_eq; simpl;
      first [by eapply cs_submit|constructor].
  - simplify_eq. constructor.
  - destruct (_ =? _); simplify_eq; constructor.
  - simplify_eq. constructor.
  - simplify_eq. constructor.
  - simplify_eq. constructor.
  - simplify_eq. constructor.
  - simplify_eq. constructor.
  - destruct r; simplify_eq; constructor.
  - destruct (done_closed s); simplify_eq; constructor.
  - simplify_eq. constructor.
Qed.
Lemma finish_core g f s : st_core (finish_response g f s) = st_core s
  \/ (is_current g s = true /\ st_core (finish_response g f s) = f (st_core s)).
Proof. unfold finish_response. destruct (is_current g s) eqn:Hg; [by right|by left]. Qed.
Lemma run_response_core g inp s s' : run_response error_text llmID g inp s = Some s' -> core_step (st_core s) (st_core s').
Proof.
  unfold run_response. destruct (generating s !! g) as [r|]; [|done].
  assert (forall f, (forall c, current g c = true -> core_step c (f c)) -> core_step (st_core s) (st_core (finish_response g f s)))
    as Hf by (intros f Hf; destruct (finish_core g f s) as [->|[Hc ->]]; [constructor|by apply Hf]).
  destruct r as [ms| |l|acts l|e acts l|f l|f l|e|e|text| |e| |], inp as [| |[]| | |]; try done; intros H;
    repeat (match goal with
    | H : (let (_, _) := ?x in _) = Some _ |- _ => destruct x
    | H : match send_event ?w ?e ?s with _ => _ end = Some _ |- _ =>
        let Hs := fresh "Hs" in destruct (send_event w e s) as [?|] eqn:Hs; [apply send_event_core in Hs as [Hs _]|done]
    | H : match ?acts with [] => _ | _ => _ end = Some _ |- _ => destruct acts as [|[]]
    | H : (if ?b then _ else _) = Some _ |- _ => destruct b
    end); simplify_eq; simpl; try constructor; try (rewrite Hs; constructor).
  - apply Hf. intros c Hc. by eapply cs_await.
  - apply Hf. intros c Hc. by eapply cs_stop.
Qed.
(** A response that is over stays over. *)
Lemma core_step_over c c' g : core_step c c' -> g <= generation c -> current g c = false -> current g c' = false.
Proof.
  unfold current. destruct 1 as [c|c|text c|r b c c' Hr|h calls c Hc|h text c Hc]; intros Hle H; simpl;
    rewrite ?andb_false_r; try done.
  - by replace (g =? generation c + 1) with false by (symmetry; apply Z.eqb_neq; lia).
  - apply submit_response in Hr. destruct b, Hr as (-> & _ & ->); [|done].
    by replace (g =? generation c + 1) with false by (symmetry; apply Z.eqb_neq; lia).
Qed.
(** ** Steps *)
Record keeps_logs (s s' : stream) : Prop := {
  kl_heard : heard s' = heard s; kl_said : said s' = said s; kl_asked : asked s' = asked s;
  kl_done : st_done s = true -> st_done s' = true;
}.
Lemma run_action_effect who a inp s todo s' : run_action who a inp s = Some (todo, s') ->
  effect (st_core s) (contexts s) (generating s) a todo (st_core s') (contexts s') (generating s')
  /\ keeps_logs s s' /\ loop s' = loop s /\ callers s' = callers s.
Proof.
  unfold run_action. destruct a, inp; try done; intros H;
    try (match type of H with
    | match send_event ?w ?e ?s with _ => _ end = _ => destruct (send_event w e s) as [s1|] eqn:Hs; [|done];
        apply send_event_core in Hs as (Hc & Hg & Hx & Hd & Hl & Hcs & Hh & Ha & Hsd)
    | match submit_section ?r ?c with _ => _ end = _ => destruct (submit_section r c) as [[[] c']|e] eqn:Hr
    | match ?r with inl _ => _ | inr _ => _ end = _ => destruct r
    | (if ?b then _ else _) = _ => destruct b
    end);
    unfold launch in H; simplify_eq; simpl;
    try (rewrite Hc, Hg, Hx, Hl, Hcs);
    (split; [|unfold cancel_old; repeat case_match; split_and!; try done; split; simpl; congruence]);
    try (by constructor); try (by constructor; repeat constructor);
    try (by constructor; simpl; rewrite ?app_nil_r; repeat (constructor; simpl; try done)).
  - constructor. destruct (responseCancel (st_core s)) eqn:Hc, (responseActive (st_core s)); simpl; repeat constructor; done.
  - unfold cancel_old. destruct (responseCancel (st_core s)) eqn:Hc; simpl; constructor; set_solver.
Qed.
Record response_effect (g : Z) (s s' : stream) (r r' : responder) (l : list output) : Prop := {
  re_before : generating s !! g = Some r;
  re_after : generating s' = <[g := r']> (generating s);
  re_contexts : contexts s' = contexts s;
  re_done : st_done s' = st_done s;
  re_core : st_core s' = st_core s \/ responseActive (st_core s') = false;
  re_threads : loop s' = loop s /\ callers s' = callers s;
  re_asked : asked s' = asked s ++ match generates r with Some ms => [(g, ms)] | None => [] end;
  re_generates : generates r' = None;
  re_heard : heard s' = heard s ++ (pair g <$> l);
  re_out : l = [] \/ (past_check r = true /\ past_check r' = false /\ exists o, l = [o]);
  re_check : past_check r' = true -> is_current g s = true;
  re_works : working r = true -> working r' = true \/ response_done g s = true \/ current g (st_core s') = false;
}.
Lemma on_end_acts l : exists acts l', on_end llmID l = (acts, l').
Proof. unfold on_end. eauto. Qed.
Lemma on_event_acts e l : exists acts l', on_event e l = (acts, l').
Proof. unfold on_event. destruct (on_delta _ _). eauto. Qed.
Lemma on_model_works e l : working (on_model llmID e l) = true /\ past_check (on_model llmID e l) = false
  /\ generates (on_model llmID e l) = None.
Proof.
  unfold on_model. destruct (on_end_acts l) as (acts & l' & ->). destruct e as [e|]; [|done].
  destruct (le_Done e); [done|]. destruct (le_Err e); [done|].
  by destruct (on_event_acts e l) as (? & ? & ->).
Qed.
Lemma on_voice_works e l : working (on_voice e l) = true /\ past_check (on_voice e l) = false
  /\ generates (on_voice e l) = None.
Proof. unfold on_voice. repeat case_match; done. Qed.
Lemma stop_not_current g (f : core -> core) s : (forall c, responseActive (f c) = false) ->
  current g (st_core (finish_response g f s)) = false.
Proof.
  intros Hf. unfold finish_response. destruct (is_current g s) eqn:Hg; [|done]. unfold current. simpl.
  rewrite Hf. by destruct (_ =? _).
Qed.
Record same_threads (s s1 : stream) : Prop := {
  sm_generating : generating s1 = generating s; sm_contexts : contexts s1 = contexts s; sm_done : st_done s1 = st_done s;
  sm_loop : loop s1 = loop s; sm_callers : callers s1 = callers s;
}.
Lemma at_response_effect g s s1 r r' l : generating s !! g = Some r -> same_threads s s1 ->
  st_core s1 = st_core s \/ responseActive (st_core s1) = false -> heard s1 = heard s ++ (pair g <$> l) ->
  asked s1 = asked s ++ match generates r with Some ms => [(g, ms)] | None => [] end ->
  generates r' = None -> (l = [] \/ (past_check r = true /\ past_check r' = false /\ exists o, l = [o])) ->
  (past_check r' = true -> is_current g s = true) ->
  (working r = true -> working r' = true \/ response_done g s = true \/ current g (st_core s1) = false) ->
  exists r0 r1 l0, response_effect g s (at_response g r' s1) r0 r1 l0.
Proof.
  intros Hr [Hg Hc Hd Hl Hcs] Hk Hh Ha Hn Hout Hcheck Hw. exists r, r', l.
  split; simpl; auto; by rewrite Hg.
Qed.
Lemma send_same_threads who e s s1 : send_event who e s = Some s1 -> same_threads s s1
  /\ st_core s1 = st_core s /\ heard s1 = heard s /\ asked s1 = asked s.
Proof. intros H%send_event_core. destruct H as (?&?&?&?&?&?&?&?&?). split_and!; try done. Qed.
Lemma run_response_effect g inp s s' : run_response error_text llmID g inp s = Some s' ->
  exists r r' l, response_effect g s s' r r' l.
Proof.
  unfold run_response. destruct (generating s !! g) as [r|] eqn:Hr; [|done]. intros H.
  destruct r as [ms| |l|acts l|e acts l|f l|f l|e|e|text| |e| |], inp as [| |[]| | |]; try done;
    repeat (match goal with
    | H : (let (_, _) := ?x in _) = Some _ |- _ => destruct x
    | H : match send_event ?w ?e ?s with _ => _ end = Some _ |- _ =>
        let Hs := fresh "Hs" in destruct (send_event w e s) as [?|] eqn:Hs;
          [apply send_same_threads in Hs as (Hs & Hcore & Hheard & Hasked)|done]
    | H : match ?acts with [] => _ | _ => _ end = Some _ |- _ => destruct acts as [|[]]
    | H : (if ?b then _ else _) = Some _ |- _ => destruct b eqn:?
    end); simplify_eq.
  all: try (match goal with |- context [finish_response ?g ?f ?s] => pose proof (stop_not_current g f s) as Hstop;
      unfold finish_response in *; destruct (is_current g s) eqn:Hcur end).
  all: match goal with
    | |- context [log [(_, ?o)] _ _ _] => eapply (at_response_effect g _ _ _ _ [o])
    | |- _ => eapply (at_response_effect g _ _ _ _ []) end;
    [done|split; simpl; by first [done|apply Hs]|simpl; by auto|simpl; rewrite ?app_nil_r; by first [done|rewrite Hheard]|
     simpl; rewrite ?app_nil_r; by first [done|rewrite Hasked]|..]; simpl; try done; eauto.
  all: try (destruct (on_model_works e l) as (Hm1 & Hm2 & Hm3); rewrite ?Hm1, ?Hm2, ?Hm3; by auto).
  all: try (destruct (on_voice_works e l) as (Hm1 & Hm2 & Hm3); rewrite ?Hm1, ?Hm2, ?Hm3; by auto).
  all: destruct (is_current g s) eqn:Hcur, (response_done g s) eqn:Hd; simpl; auto.
Qed.
(** Any step: an action of the loop or of a caller, a step of a response, or one
    that only brings new actions. *)
Inductive step_shape (s s' : stream) : Prop :=
| sh_action a todo rest : effect (st_core s) (contexts s) (generating s) a todo (st_core s') (contexts s') (generating s') ->
    waiting s ≡ₚ a :: rest -> waiting s' ≡ₚ todo ++ rest -> keeps_logs s s' -> step_shape s s'
| sh_response g r r' l : response_effect g s s' r r' l -> core_step (st_core s) (st_core s') -> step_shape s s'
| sh_quiet new : Forall is_plain new -> waiting s' ≡ₚ new ++ waiting s -> st_core s' = st_core s ->
    contexts s' = contexts s -> generating s' = generating s -> keeps_logs s s' -> step_shape s s'.
Lemma concat_insert (l : list (list action)) i x y : l !! i = Some x ->
  exists rest, concat l ≡ₚ x ++ rest /\ concat (<[i := y]> l) ≡ₚ y ++ rest.
Proof.
  intros Hi. pose proof (lookup_lt_Some _ _ _ Hi) as Hlt.
  exists (concat (take i l) ++ concat (drop (S i) l)). rewrite <-(take_drop_middle l i x Hi) at 1.
  rewrite insert_take_drop by done. rewrite !concat_app. simpl. split; solve_Permutation.
Qed.
Lemma handleTurn_plain e : Forall is_plain (handleTurn e).
Proof. unfold handleTurn. repeat case_match; repeat constructor. Qed.
Lemma step_shape_of s s' : step s s' -> step_shape s s'.
Proof.
  destruct 1 as [inp s s' H|i inp s s' H|g inp s s' H|todo s Htodo|e rest s He|t s Ht|s].
  - unfold run_loop in H. destruct (loop s) as [|[|a rest] last|] eqn:Hl; try done.
    + assert (exists todo l, s' = with_threads (LoopDo todo l) (callers s) s /\ Forall is_plain todo) as (todo & l & -> & Hp).
      { repeat case_match; simplify_eq; eexists _, _; (split; [done|]); try apply handleTurn_plain; repeat constructor. }
      eapply (sh_quiet _ _ todo); [done|unfold waiting; simpl; by rewrite Hl|done..].
    + simplify_eq. eapply (sh_quiet _ _ []); unfold waiting; simpl; rewrite ?Hl; try done. by destruct last.
    + destruct (run_action _ _ _ _) as [[todo s1]|] eqn:Ha; [|done]. simplify_eq.
      apply run_action_effect in Ha as (Hef & Hlogs & Hl1 & Hc1).
      eapply (sh_action _ _ a todo (rest ++ concat (callers s))); [done|unfold waiting..|].
      * by rewrite Hl.
      * simpl. by rewrite Hc1, app_assoc.
      * by destruct Hlogs; split.
  - unfold run_caller in H. destruct (callers s !! i) as [[|a rest]|] eqn:Hi; try done.
    destruct (run_action _ _ _ _) as [[todo s1]|] eqn:Ha; [|done]. simplify_eq.
    apply run_action_effect in Ha as (Hef & Hlogs & Hl1 & Hc1).
    destruct (concat_insert _ _ _ (todo ++ rest) Hi) as (others & Ho1 & Ho2).
    eapply (sh_action _ _ a todo (rest ++ loop_todo (loop s) ++ others)); [done|unfold waiting; simpl..|].
    + rewrite Ho1. solve_Permutation.
    + rewrite Hc1, Hl1, Ho2. solve_Permutation.
    + by destruct Hlogs; split.
  - pose proof (run_response_core _ _ _ _ H). apply run_response_effect in H as (r & r' & l & H). by eapply sh_response.
  - eapply (sh_quiet _ _ todo); try done.
    + destruct Htodo as [->|[->|[r ->]]]; repeat constructor.
    + unfold waiting. simpl. rewrite concat_app. simpl. rewrite app_nil_r. solve_Permutation.
  - by eapply (sh_quiet _ _ []).
  - by eapply (sh_quiet _ _ []).
  - by eapply (sh_quiet _ _ []).
Qed.
(** ** The invariant holds *)
Lemma effect_core c ctx gen a todo c' ctx' gen' : effect c ctx gen a todo c' ctx' gen' -> core_step c c'.
Proof. destruct 1; try constructor; by eapply cs_submit. Qed.
Lemma core_step_cancel c c' : core_step c c' ->
  responseCancel c = (if responseActive c then Some (generation c) else None) ->
  responseCancel c' = if responseActive c' then Some (generation c') else None.
Proof.
  destruct 1 as [c|c|text c|r b c c' Hr|g calls c Hc|g text c Hc]; intros H; try done.
  apply submit_response in Hr. destruct b, Hr as (Hg & Hcl & Ha).
  - by rewrite Ha, Hg, Hcl.
  - by rewrite Ha, Hg, Hcl.
Qed.
Lemma effect_contexts c ctx gen a todo c' ctx' gen' g : effect c ctx gen a todo c' ctx' gen' -> g ∈ ctx' ->
  g ∈ ctx \/ a = XCancelContext g \/ (responseCancel c = Some g /\ generation c' = generation c + 1).
Proof.
  destruct 1 as [| |g'|text ctx' Hctx|r c' Hr|r c' Hr|g' ms]; intros Hin; auto.
  - apply elem_of_union in Hin as [->%elem_of_singleton|Hin]; auto.
  - apply Hctx in Hin as [Hin|Hin]; auto.
Qed.
Lemma effect_todo c ctx gen a todo c' ctx' gen' : effect c ctx gen a todo c' ctx' gen' ->
  responseCancel c = (if responseActive c then Some (generation c) else None) -> Forall (action_ok c') todo.
Proof.
  destruct 1 as [a todo Ha Hp|todo Htodo|g'|text ctx' Hctx|r c' Hr|r c' Hr|g' ms]; intros Hc; try by constructor.
  - eapply Forall_impl; [done|]. by intros [].
  - eapply Forall_impl; [done|]. intros [] H; try done. simpl. rewrite Hc in H. destruct (responseActive c); simplify_eq. lia.
  - repeat constructor. simpl. lia. done.
  - repeat constructor. simpl. lia. done.
Qed.
Lemma effect_keys c ctx gen a todo c' ctx' gen' g r : effect c ctx gen a todo c' ctx' gen' -> gen' !! g = Some r ->
  gen !! g = Some r \/ exists ms, a = XSpawn g ms /\ r = RGenerate ms.
Proof.
  destruct 1 as [| | | | | |g' ms]; auto. intros [[-> <-]|[_ H]]%lookup_insert_Some; eauto.
Qed.
(** A response that is current afterwards was already, or is about to be started. *)
Lemma effect_alive c ctx gen a todo c' ctx' gen' : effect c ctx gen a todo c' ctx' gen' -> responseActive c' = true ->
  (exists ms, XSpawn (generation c') ms ∈ todo)
  \/ (responseActive c = true /\ generation c' = generation c
      /\ ((spawns a = false /\ gen' = gen) \/ exists g ms, a = XSpawn g ms /\ gen' = <[g := RGenerate ms]> gen)).
Proof.
  destruct 1 as [a todo Ha Hp|todo Htodo|g'|text ctx' Hctx|r c' Hr|r c' Hr|g' ms]; intros H; try done; eauto 8.
  - left. exists (messages (start_section text c)). simpl. set_solver.
  - left. exists (messages c'). set_solver.
  - apply submit_response in Hr as (Hg & _ & Ha). right. rewrite <-Ha. eauto.
Qed.
Lemma sound_action s s' a todo rest : effect (st_core s) (contexts s) (generating s) a todo (st_core s') (contexts s') (generating s') ->
  waiting s ≡ₚ a :: rest -> waiting s' ≡ₚ todo ++ rest -> keeps_logs s s' -> sound s -> sound s'.
Proof.
  intros Hef Hw Hw' [Hh Hs Ha Hd] [Hcancel Hctx Hwait Hkeys Hasked Hans Halive].
  pose proof (effect_core _ _ _ _ _ _ _ _ Hef) as Hcore. destruct (core_step_grows _ _ Hcore) as [Hgen Hmsg].
  rewrite Hw in Hwait. apply Forall_cons in Hwait as [Hok Hrest]. split.
  - by eapply core_step_cancel.
  - intros g Hg. destruct (effect_contexts _ _ _ _ _ _ _ _ g Hef Hg) as [Hin|[->|[Hc Hn]]].
    + apply Hctx in Hin. lia.
    + simpl in Hok. lia.
    + rewrite Hcancel in Hc. destruct (responseActive (st_core s)); simplify_eq. lia.
  - rewrite Hw'. apply Forall_app. split; [by eapply effect_todo|].
    eapply Forall_impl; [done|]. intros b. by apply action_ok_grows.
  - intros g r Hr. destruct (effect_keys _ _ _ _ _ _ _ _ _ _ Hef Hr) as [Hin|(ms & -> & ->)].
    + destruct (Hkeys _ _ Hin) as [Hle Hp]. split; [lia|]. intros ms Hms. etrans; [by apply Hp|done].
    + destruct Hok as [Hle Hp]. split; [lia|]. intros ms' [= <-]. by etrans.
  - rewrite Ha. eapply Forall_impl; [exact Hasked|]. simpl. intros q Hq. by etrans.
  - by eapply answered_step.
  - intros Hact. unfold alive. destruct (effect_alive _ _ _ _ _ _ _ _ Hef Hact) as [[ms Hin]|(Hold & Hg & Hcase)].
    { right. left. exists ms. rewrite Hw'. set_solver. }
    rewrite Hg. destruct (Halive Hold) as [Hdone|[[ms Hin]|(r & Hr & Hwork)]]; [by auto|..].
    + rewrite Hw in Hin. apply elem_of_cons in Hin as [<-|Hin].
      * destruct Hcase as [[Hsp _]|(g & ms' & [= -> ->] & ->)]; [done|]. right; right. eexists.
        by rewrite lookup_insert_eq.
      * right; left. exists ms. rewrite Hw'. set_solver.
    + right; right. destruct Hcase as [[_ ->]|(g & ms' & -> & ->)]; [by eauto|].
      destruct (decide (g = generation (st_core s))) as [->|Hne].
      * eexists. by rewrite lookup_insert_eq.
      * exists r. by rewrite lookup_insert_ne by done.
Qed.
Lemma sound_response g s s' r r' l : response_effect g s s' r r' l -> core_step (st_core s) (st_core s') -> sound s -> sound s'.
Proof.
  intros [Hr Hgen Hctx' Hdone Hk [Hl Hc] Hask Hnone Hheard _ _ Hworks] Hcore [Hcancel Hctx Hwait Hkeys Hasked Hans Halive].
  destruct (core_step_grows _ _ Hcore) as [Hle Hmsg]. assert (waiting s' = waiting s) as Hw by (unfold waiting; by rewrite Hl, Hc).
  split.
  - by eapply core_step_cancel.
  - intros h. rewrite Hctx'. intros Hh%Hctx. lia.
  - rewrite Hw. eapply Forall_impl; [done|]. intros b. by apply action_ok_grows.
  - intros h q. rewrite Hgen. intros [[-> <-]|[_ Hq]]%lookup_insert_Some.
    + destruct (Hkeys _ _ Hr) as [Hg _]. split; [lia|]. intros ms. by rewrite Hnone.
    + destruct (Hkeys _ _ Hq) as [Hg Hp]. split; [lia|]. intros ms Hms. etrans; [by apply Hp|done].
  - rewrite Hask. apply Forall_app. split; [eapply Forall_impl; [exact Hasked|]; simpl; intros q Hq; by etrans|].
    destruct (generates r) as [ms|] eqn:Hms; repeat constructor. etrans; [by apply (Hkeys _ _ Hr)|done].
  - by eapply answered_step.
  - intros Hact. destruct Hk as [Hsame|Hoff]; [|congruence]. rewrite Hsame in Hact.
    unfold alive. rewrite Hdone, Hw, Hgen, Hsame.
    destruct (Halive Hact) as [Hd|[Hsp|(q & Hq & Hwork)]]; [by auto..|].
    destruct (decide (g = generation (st_core s))) as [->|Hne]; [|right; right; exists q; by rewrite lookup_insert_ne].
    rewrite Hr in Hq. simplify_eq. destruct (Hworks Hwork) as [Hw'|[Hrd|Hcur]].
    + right; right. exists r'. by rewrite lookup_insert_eq.
    + unfold response_done in Hrd. apply orb_true_iff in Hrd as [Hrd|Hrd%bool_decide_eq_true]; [by auto|].
      apply Hctx in Hrd. lia.
    + unfold current in Hcur. rewrite Hsame, Hact, Z.eqb_refl in Hcur. done.
Qed.
Lemma sound_step s s' : step s s' -> sound s -> sound s'.
Proof.
  intros Hs%step_shape_of. destruct Hs as [a todo rest Hef Hw Hw' Hk|g r r' l Hef Hcore|new Hp Hw Hcore Hctx Hgen Hk].
  - by eapply sound_action.
  - by eapply sound_response.
  - destruct Hk as [Hh Hsd Ha Hd]. intros [Hcancel Hctxs Hwait Hkeys Hasked Hans Halive].
    split; rewrite ?Hcore, ?Hctx, ?Hgen, ?Ha; try done.
    + rewrite Hw. apply Forall_app. split; [|done]. eapply Forall_impl; [done|]. by intros [].
    + intros Hact. unfold alive. rewrite Hcore, Hgen. destruct (Halive Hact) as [Hdone|[[ms Hin]|Hr]]; [by auto| |by auto].
      right; left. exists ms. rewrite Hw. set_solver.
Qed.
Definition reachable (instructions : string) (now : Z) : stream -> Prop := rtc step (start_stream instructions now).
Lemma sound_reachable instructions now s : reachable instructions now s -> sound s.
Proof.
  apply rtc_ind_r; [|intros s1 s2 _; apply sound_step].
  unfold start_stream. split; simpl; try done; try set_solver.
  - intros id. destruct (bool_decide (TrimSpace instructions = "")); cbn [messages pendingToolCalls];
      rewrite ?tool_results_other by done; apply Nat.le_0_l.
Qed.
(** ** What still leaves the stream for a response that is over *)
Definition outputs_of (g : Z) (l : list (Z * output)) : nat := length (filter (fun o => fst o = g) l).
Definition on_its_way (g : Z) (s : stream) : nat :=
  match generating s !! g with Some r => if past_check r then 1%nat else 0%nat | None => 0%nat end.
Lemma outputs_of_app g l l' : outputs_of g (l ++ l') = (outputs_of g l + outputs_of g l')%nat.
Proof. unfold outputs_of. by rewrite filter_app, length_app. Qed.
Lemma outputs_of_other g h (l : list output) : h <> g -> outputs_of g (pair h <$> l) = 0%nat.
Proof. intros Hn. induction l as [|o l IH]; [done|]. unfold outputs_of in *. simpl. by rewrite filter_cons_False. Qed.
Lemma step_core s s' : step s s' -> core_step (st_core s) (st_core s').
Proof.
  intros Hs%step_shape_of. destruct Hs as [a todo rest Hef _ _ _|g r r' l _ Hcore|new _ _ Hcore _ _ _]; [|done|].
  - by eapply effect_core.
  - rewrite Hcore. constructor.
Qed.
Lemma over_step g s s' : step s s' -> current g (st_core s) = false ->
  exists l, heard s' = heard s ++ l /\ (outputs_of g l + on_its_way g s' <= on_its_way g s)%nat.
Proof.
  intros Hs%step_shape_of Hcur. destruct Hs as [a todo rest Hef _ _ [Hh _ _ _]|h r r' l Hef _|new _ _ _ _ Hgen [Hh _ _ _]].
  - exists []. rewrite app_nil_r. split; [done|]. unfold on_its_way. simpl.
    destruct Hef as [| | | | | |h ms]; try done.
    destruct (decide (h = g)) as [->|Hn]; [by rewrite lookup_insert_eq; apply Nat.le_0_l|by rewrite lookup_insert_ne].
  - destruct Hef as [Hr Hgen _ _ _ _ _ _ Hheard Hout Hcheck _]. eexists. split; [exact Hheard|].
    unfold on_its_way. rewrite Hgen. destruct (decide (h = g)) as [->|Hn].
    + rewrite lookup_insert_eq, Hr. destruct (past_check r') eqn:Hp; [unfold is_current in Hcheck; rewrite Hcheck in Hcur by done; done|].
      destruct Hout as [->|(-> & _ & o & ->)]; [simpl; destruct (past_check r); apply Nat.le_0_l|].
      unfold outputs_of. simpl. rewrite filter_cons_True; done.
    + rewrite lookup_insert_ne, outputs_of_other by done. done.
  - exists []. rewrite app_nil_r. split; [done|]. unfold on_its_way. by rewrite Hgen.
Qed.
Lemma over_steps g s s' : rtc step s s' -> g <= generation (st_core s) -> current g (st_core s) = false ->
  exists l, heard s' = heard s ++ l /\ (outputs_of g l + on_its_way g s' <= on_its_way g s)%nat.
Proof.
  induction 1 as [s|s s1 s2 Hs _ IH]; intros Hle Hcur; [exists []; by rewrite app_nil_r|].
  pose proof (step_core _ _ Hs) as Hcore. destruct (over_step g _ _ Hs Hcur) as (l & Hl & Hn).
  destruct IH as (l' & Hl' & Hn').
  - by apply core_step_grows in Hcore as [? _]; lia.
  - by eapply core_step_over.
  - exists (l ++ l'). rewrite Hl', Hl, app_assoc, outputs_of_app. split; [done|lia].
Qed.
Lemma steps_grow s s' : rtc step s s' -> messages (st_core s) `prefix_of` messages (st_core s').
Proof. induction 1 as [|s s1 s2 Hs _ IH]; [done|]. apply step_core, core_step_grows in Hs as [_ ?]. by etrans. Qed.
(** C23: Conversation history. In any interleaving of the transcriber's turns, the
    responses and the callers of a stream, its history only grows; every request
    made to the model was a part of it from its beginning; and for each tool call
    id there are no more results than calls, and one fewer while a result is
    awaited: a result is recorded only for a call the model made, and once. *)
Theorem conversation_history instructions now s s' : reachable instructions now s -> rtc step s s' ->
  messages (st_core s) `prefix_of` messages (st_core s')
  /\ (forall g ms, (g, ms) ∈ asked s' -> ms `prefix_of` messages (st_core s'))
  /\ forall id, (tool_results id (messages (st_core s'))
       + (if bool_decide (is_Some (pendingToolCalls (st_core s') !! id)) then 1 else 0)
       <= tool_calls id (messages (st_core s')))%nat.
Proof.
  intros Hr Hs. assert (sound s') as [_ _ _ _ Hasked Hans _] by (apply (sound_reachable instructions now); unfold reachable in *; by etrans).
  split_and!; [by apply steps_grow| |done].
  intros g ms Hin. rewrite Forall_forall in Hasked. by apply (Hasked (g, ms)).
Qed.
(** C22: The current response is alive. Whenever a stream takes a response to be
    active, its context is over, or the goroutine of that very response is about to
    be started, or it is running and has not come to its end: no interleaving leaves
    a response active that nobody will finish. *)
Theorem active_response_is_alive instructions now s : reachable instructions now s ->
  responseActive (st_core s) = true -> st_done s = false ->
  (exists ms, XSpawn (generation (st_core s)) ms ∈ waiting s /\ ms `prefix_of` messages (st_core s))
  \/ exists r, generating s !! generation (st_core s) = Some r /\ working r = true.
Proof.
  intros [_ _ Hwait _ _ _ Halive]%sound_reachable Hact Hdone.
  destruct (Halive Hact) as [?|[[ms Hin]|Hr]]; [congruence| |by right].
  left. exists ms. split; [done|]. rewrite Forall_forall in Hwait. by apply (Hwait (XSpawn (generation (st_core s)) ms)).
Qed.
(** C21: Barge-in fences a response. Once response [g] is over (interrupted by the
    speaker or a caller, replaced, ended), whatever happens next the listener gets
    at most one more event or audio frame of it, and none unless its goroutine was
    already past the check that the response is current. *)
Theorem late_output_at_most_one s s' g : rtc step s s' -> g <= generation (st_core s) -> current g (st_core s) = false ->
  exists l, heard s' = heard s ++ l
    /\ (outputs_of g l <= match generating s !! g with Some r => if past_check r then 1 else 0 | None => 0 end)%nat.
Proof.
  intros Hs Hle Hcur. destruct (over_steps g _ _ Hs Hle Hcur) as (l & Hl & Hn). exists l. split; [done|].
  unfold on_its_way at 2 in Hn. lia.
Qed.
(** ** Running a stream *)
Inductive move :=
| MLoop (i : input) | MCaller (n : nat) (i : input) | MResponse (g : Z) (i : input) | MCall (todo : list action) | MListen.
Definition do_move (m : move) (s : stream) : option stream :=
  match m with
  | MLoop i => run_loop error_text sttID i s
  | MCaller n i => run_caller n i s
  | MResponse g i => run_response error_text llmID g i s
  | MCall [XCancel] => Some (with_threads (loop s) (callers s ++ [Interrupt]) s)
  | MCall [XSubmit r] => Some (with_threads (loop s) (callers s ++ [SubmitToolResult r]) s)
  | MCall _ => None
  | MListen => match buffer s with
      | [] => None
      | _ :: rest => Some (with_channels rest (events_closed s) (audio_closed s) (done_closed s) (panicked s) s)
      end
  end.
Fixpoint do_moves (l : list move) (s : stream) : option stream :=
  match l with [] => Some s | m :: l' => match do_move m s with Some s' => do_moves l' s' | None => None end end.
Lemma do_moves_steps l s s' : do_moves l s = Some s' -> rtc step s s'.
Proof.
  revert s. induction l as [|m l IH]; intros s; simpl; [by intros [= ->]|].
  destruct (do_move m s) as [s1|] eqn:Hm; [|done]. intros H%IH. eapply rtc_l; [|done].
  unfold do_move in Hm. destruct m as [i|n i|g i|todo|].
  - by eapply step_loop.
  - by eapply step_caller.
  - by eapply step_response.
  - destruct todo as [|[] []]; try done; simplify_eq; apply step_call; eauto.
  - destruct (buffer s) as [|e rest] eqn:Hb; simplify_eq. by eapply step_listen.
Qed.
End Safety.

(** ** A conversation *)
Module Talk.
Definition say (e : error) : string := "failed".
Definition heard_words : input := ISpeech (Some {| st_Type := STTEventSpeechStopped; st_Text := "what time is it"; st_Err := None |}).
Definition barge_in : input := ISpeech (Some {| st_Type := STTEventSpeechStarted; st_Text := ""; st_Err := None |}).
Definition model_event (text id name : string) (args : list ascii) : input :=
  IModel (Some {| TextDelta := text; le_ToolCallID := id; ToolIndex := 0; ToolName := name; ToolArguments := args;
    InputTokens := 0; OutputTokens := 0; TotalTokens := 0; le_Done := false; le_Err := None |}).
Definition ok : input := IResult (inl tt).
(** The caller asks; the first response is opened. *)
Definition question : list move :=
  [MLoop heard_words] ++ repeat (MLoop IGo) 8 ++ [MLoop IGo; MResponse 1 ok; MResponse 1 ok].
(** The model calls a tool. *)
Definition looks_up : list move :=
  [MResponse 1 (model_event "" "call-1" "clock" (bytes "{}")); MResponse 1 IGo; MResponse 1 (IModel None)]
  ++ repeat (MResponse 1 IGo) 5.
(** Its result comes, and the second response speaks. *)
Definition answers : list move :=
  [MCall [XSubmit {| tr_ToolCallID := "call-1"; tr_Name := "clock"; tr_Content := "noon"; tr_IsError := false |}]]
  ++ repeat (MCaller 0 IGo) 4 ++ [MResponse 2 ok; MResponse 2 ok; MResponse 2 (model_event "It is noon." "" "" [])].
Definition started : stream := start_stream "Be brief." 0.
Definition after (l : list move) : option stream := do_moves say "stt" "llm" l started.
Definition at_ (l : list move) : stream := default started (after l).
(** A delta is past its check when the caller barges in. *)
Definition interrupted : list move :=
  question ++ [MResponse 1 (model_event "It" "" "" []); MResponse 1 IGo; MLoop barge_in] ++ repeat (MLoop IGo) 3.
Definition too_late : list move := repeat (MResponse 1 IGo) 2.
Lemma talk_steps l l' s s' : after l = Some s -> after (l ++ l') = Some s' -> rtc (step say "stt" "llm") s s'.
Proof.
  unfold after. intros Hs. assert (forall l x, do_moves say "stt" "llm" (l ++ l') x
    = match do_moves say "stt" "llm" l x with Some y => do_moves say "stt" "llm" l' y | None => None end) as Happ.
  { clear. induction l as [|m l IH]; intros x; [done|]. simpl. by destruct (do_move say "stt" "llm" m x). }
  rewrite Happ, Hs. apply do_moves_steps.
Qed.
Definition runs (l : list move) : bool := match after l with Some _ => true | None => false end.
Lemma talk_at l l' : runs l = true -> runs (l ++ l') = true -> rtc (step say "stt" "llm") (at_ l) (at_ (l ++ l')).
Proof.
  unfold runs, at_. destruct (after l) as [s|] eqn:Hs; [|done]. destruct (after (l ++ l')) as [s'|] eqn:Hs'; [|done].
  intros _ _. by eapply talk_steps.
Qed.
Lemma talk_reaches l : runs l = true -> reachable say "stt" "llm" "Be brief." 0 (at_ l).
Proof. intros H. exact (talk_at [] l eq_refl H). Qed.
End Talk.

Lemma conversation_history_witness :
  let s := Talk.at_ Talk.question in let s' := Talk.at_ (Talk.question ++ Talk.looks_up ++ Talk.answers) in
  length (messages (st_core s)) = 2%nat /\ length (messages (st_core s')) = 4%nat
  /\ messages (st_core s) `prefix_of` messages (st_core s').
Proof.
  intros s s'. split_and!; [vm_compute; reflexivity..|].
  apply (conversation_history Talk.say "stt" "llm" "Be brief." 0 s s').
  - exact (Talk.talk_reaches Talk.question ltac:(vm_compute; reflexivity)).
  - exact (Talk.talk_at Talk.question (Talk.looks_up ++ Talk.answers) ltac:(vm_compute; reflexivity) ltac:(vm_compute; reflexivity)).
Defined.
Lemma active_response_is_alive_witness : let s := Talk.at_ Talk.question in
  responseActive (st_core s) = true /\ st_done s = false
  /\ ((exists ms, XSpawn (generation (st_core s)) ms ∈ waiting s /\ ms `prefix_of` messages (st_core s))
      \/ exists r, generating s !! generation (st_core s) = Some r /\ working r = true).
Proof.
  intros s. split_and!; [vm_compute; reflexivity..|].
  apply (active_response_is_alive Talk.say "stt" "llm" "Be brief." 0 s); [|vm_compute; reflexivity..].
  exact (Talk.talk_reaches Talk.question ltac:(vm_compute; reflexivity)).
Defined.
Lemma late_output_at_most_one_witness :
  let s := Talk.at_ Talk.interrupted in let s' := Talk.at_ (Talk.interrupted ++ Talk.too_late) in
  current 1 (st_core s) = false /\ length (heard s) = 0%nat /\ length (heard s') = 1%nat
  /\ exists l, heard s' = heard s ++ l
      /\ (outputs_of 1%Z l <= match generating s !! 1%Z with Some r => if past_check r then 1 else 0 | None => 0 end)%nat.
Proof.
  intros s s'. split_and!; [vm_compute; reflexivity..|].
  apply (late_output_at_most_one Talk.say "stt" "llm" s s' 1).
  - exact (Talk.talk_at Talk.interrupted Talk.too_late ltac:(vm_compute; reflexivity) ltac:(vm_compute; reflexivity)).
  - by vm_compute.
  - vm_compute. reflexivity.
Defined.
End ComposableSafety.
