(* ===== verification/ComposableSpeech.v ===== *)
(** * The composable engine: what is spoken

    The voice of a response is given the text of the model in chunks, each at the
    end of a sentence or after enough words; the chunks are the text, in order. *)

From S2P Require Import Prelude Json MediaSession Providers Composable.
Local Open Scope Z_scope.

Module ComposableSpeech.
Import Json MediaSession Providers Composable.

Definition joined (l : list string) : string := foldr String.append "" l.
Definition spoken (acts : list act) : list (string * bool) :=
  omap (fun a => match a with ASay text more => Some (text, more) | _ => None end) acts.
(** The events of the model, one after the other. *)
Fixpoint on_events (es : list LLMEvent) (l : locals) : list act * locals :=
  match es with
  | [] => ([], l)
  | e :: es' => let (acts, l1) := on_event e l in let (acts', l2) := on_events es' l1 in (acts ++ acts', l2)
  end.

Lemma String_append_assoc a b c : (a +:+ b) +:+ c = a +:+ (b +:+ c).
Proof. induction a as [|x a IH]; [done|]. exact (f_equal (String x) IH). Qed.
Lemma String_append_empty_r a : a +:+ "" = a.
Proof. induction a as [|x a IH]; [done|]. exact (f_equal (String x) IH). Qed.
Lemma joined_app a b : joined (a ++ b) = joined a +:+ joined b.
Proof. induction a as [|x a IH]; simpl; [done|]. by rewrite IH, String_append_assoc. Qed.
Lemma joined_snoc a x : joined (a ++ [x]) = joined a +:+ x.
Proof. rewrite joined_app. apply (f_equal (String.append (joined a))), String_append_empty_r. Qed.
Lemma flushed_has_words text : shouldFlushSpeechChunk text = true -> TrimSpace text <> "".
Proof. intros H He. unfold shouldFlushSpeechChunk in H. by rewrite He in H. Qed.
Lemma spoken_app a b : spoken (a ++ b) = spoken a ++ spoken b.
Proof. apply omap_app. Qed.
Lemma spoken_say_if held more : spoken (say_if held more) = if bool_decide (held = "") then [] else [(held, more)].
Proof. unfold say_if. by case_bool_decide. Qed.
Lemma spoken_usage e : spoken (on_usage e) = [].
Proof. unfold on_usage. by case_match. Qed.
Lemma on_tool_words e l : l_text (on_tool e l) = l_text l /\ l_pending (on_tool e l) = l_pending l /\ l_held (on_tool e l) = l_held l.
Proof. unfold on_tool. by case_match. Qed.

(** After some events: [segs] are the chunks cut so far, all but the last spoken. *)
Record chunks (l : locals) (text : string) (said : list (string * bool)) (segs : list string) : Prop := {
  ch_text : l_text l = text;
  ch_cut : joined segs +:+ l_pending l = text;
  ch_flushed : Forall (fun s => shouldFlushSpeechChunk s = true) segs;
  ch_held : l_held l = match last segs with Some s => TrimSpace s | None => "" end;
  ch_said : said ++ (if bool_decide (l_held l = "") then [] else [(l_held l, true)]) = (fun s => (TrimSpace s, true)) <$> segs;
}.
Lemma chunks_event e l text said segs : chunks l text said segs -> exists segs',
  chunks (on_event e l).2 (text +:+ TextDelta e) (said ++ spoken (on_event e l).1) segs'.
Proof.
  intros [Ht Hcut Hfl Hheld Hsaid]. unfold on_event. destruct (on_delta (TextDelta e) l) as [acts l'] eqn:Hd. simpl.
  destruct (on_tool_words e l') as (Ht' & Hp' & Hh').
  rewrite spoken_app, spoken_usage. simpl.
  unfold on_delta in Hd. case_bool_decide as He; simplify_eq.
  - rewrite He, String_append_empty_r. exists segs. rewrite app_nil_r. by split; rewrite ?Ht', ?Hp', ?Hh'.
  - destruct (shouldFlushSpeechChunk (l_pending l +:+ TextDelta e)) eqn:Hf.
    + exists (segs ++ [l_pending l +:+ TextDelta e]). split; rewrite ?Ht', ?Hp', ?Hh'; simpl.
      * done.
      * by rewrite String_append_empty_r, joined_snoc, <-String_append_assoc, Hcut.
      * apply Forall_app. by repeat constructor.
      * by rewrite last_snoc.
      * rewrite spoken_say_if, fmap_app, <-Hsaid, (bool_decide_false _ (flushed_has_words _ Hf)). done.
    + exists segs. rewrite app_nil_r. split; rewrite ?Ht', ?Hp', ?Hh'; simpl; try done.
      by rewrite <-String_append_assoc, Hcut.
Qed.
Lemma chunks_events es l text said segs : chunks l text said segs -> exists segs',
  chunks (on_events es l).2 (text +:+ joined (TextDelta <$> es)) (said ++ spoken (on_events es l).1) segs'.
Proof.
  revert l text said segs. induction es as [|e es IH]; intros l text said segs H; simpl.
  - exists segs. by rewrite String_append_empty_r, app_nil_r.
  - destruct (chunks_event e _ _ _ _ H) as [segs1 H1]. destruct (on_event e l) as [acts l1]. simpl in *.
    destruct (IH _ _ _ _ H1) as [segs2 H2]. destruct (on_events es l1) as [acts' l2]. simpl in *.
    exists segs2. by rewrite <-String_append_assoc, spoken_app, app_assoc.
Qed.
Definition all_but_last {A} (l : list A) : list (A * bool) :=
  match last l with None => [] | Some x => ((fun a => (a, true)) <$> removelast l) ++ [(x, false)] end.
Lemma all_but_last_snoc {A} (l : list A) x : all_but_last (l ++ [x]) = ((fun a => (a, true)) <$> l) ++ [(x, false)].
Proof. unfold all_but_last. by rewrite last_snoc, removelast_last. Qed.
Lemma words_only es l : Forall (fun e => le_ToolCallID e = "" /\ ToolName e = "" /\ ToolArguments e = []) es -> l_order l = [] ->
  l_order (on_events es l).2 = [].
Proof.
  intros Hes. revert l. induction Hes as [|e es (H1 & H2 & H3) _ IH]; intros l Hl; [done|]. simpl.
  destruct (on_event e l) as [acts l1] eqn:He. assert (l_order l1 = []) as H.
  { unfold on_event, on_delta in He. unfold on_tool in He. rewrite H1, H2, H3 in He. repeat case_match; by simplify_eq. }
  specialize (IH _ H). by destruct (on_events es l1).
Qed.

(** The last words, after the chunks already spoken. *)
Lemma final_words_spoken l said segs : Forall (fun s => shouldFlushSpeechChunk s = true) segs ->
  l_held l = match last segs with Some s => TrimSpace s | None => "" end ->
  said ++ (if bool_decide (l_held l = "") then [] else [(l_held l, true)]) = (fun s => (TrimSpace s, true)) <$> segs ->
  said ++ spoken (final_words l)
    = all_but_last ((TrimSpace <$> segs) ++ filter (fun s => s <> "") [TrimSpace (l_pending l)])
  /\ (AStop "" ∈ final_words l <-> said ++ spoken (final_words l) = []).
Proof.
  intros Hfl Hheld Hsaid. unfold final_words.
  destruct (decide (TrimSpace (l_pending l) = "")) as [Hrest|Hrest];
    [rewrite (bool_decide_true _ Hrest)|rewrite (bool_decide_false _ Hrest)].
  - rewrite filter_cons_False, app_nil_r by by rewrite Hrest; intros [].
    destruct segs as [|s segs _] using rev_ind.
    + rewrite Hheld in Hsaid |- *. simpl in *. rewrite app_nil_r in Hsaid. subst said. simpl. split; [done|]. set_solver.
    + apply Forall_app in Hfl as [_ [Hs _]%Forall_cons]. rewrite last_snoc in Hheld. apply flushed_has_words in Hs.
      rewrite Hheld in Hsaid |- *. rewrite (bool_decide_false _ Hs) in Hsaid |- *. rewrite !fmap_app in *. simpl in *.
      apply app_inj_tail in Hsaid as [-> _]. rewrite all_but_last_snoc, <-list_fmap_compose. split; [done|].
      split; [by intros ?%list_elem_of_singleton|]. by intros [_ ?]%app_eq_nil.
  - rewrite filter_cons_True, filter_nil by done. rewrite all_but_last_snoc, spoken_app, app_assoc, spoken_say_if.
    rewrite Hsaid, <-list_fmap_compose. split; [done|]. split.
    + intros [Hin|Hin]%elem_of_app; [|by apply list_elem_of_singleton in Hin].
      unfold say_if in Hin. case_bool_decide; [by apply not_elem_of_nil in Hin|by apply list_elem_of_singleton in Hin].
    + by intros [_ ?]%app_eq_nil.
Qed.

(** ** [Engine.Start]: a stream starts only with an adapter for each of its roles *)
Lemma registered_adapter r kind id format p : registered r kind id format = inl p -> adapter r kind id = Some p.
Proof. unfold registered. destruct (adapter r kind id); [by intros [= ->]|done]. Qed.
Lemma Start_has_adapters e cfg startSTT now s : Start e cfg startSTT now = inl s ->
  cfg_Engine cfg = EngineComposable
  /\ s = start_stream (cfg_Instructions cfg) now
  /\ exists r stt llm tts, eng_Registry e = Some r
    /\ adapter r KindSTT (providerRuntime cfg "stt" (DefaultSTTProvider e) "deepgram").1 = Some stt
    /\ adapter r KindLLM (providerRuntime cfg "llm" (DefaultLLMProvider e) "groq").1 = Some llm
    /\ adapter r KindTTS (providerRuntime cfg "tts" (DefaultTTSProvider e) "cartesia").1 = Some tts
    /\ startSTT stt (providerRuntime cfg "stt" (DefaultSTTProvider e) "deepgram").2 = inl tt.
Proof.
  unfold Start. case_bool_decide as Hengine; [|done]. simpl. destruct (eng_Registry e) as [r|]; [|done].
  do 3 destruct (providerRuntime _ _ _ _). intros H.
  destruct (registered r KindSTT _ _) as [stt|] eqn:Hs; [|done]. destruct (registered r KindLLM _ _) as [llm|] eqn:Hl; [|done].
  destruct (registered r KindTTS _ _) as [tts|] eqn:Ht; [|done]. apply registered_adapter in Hs, Hl, Ht. simpl in H.
  destruct (startSTT stt _) as [[]|] eqn:Hstart; [|done]. simplify_eq. split_and!; [done..|]. by exists r, stt, llm, tts.
Qed.
End ComposableSpeech.
