(* ===== verification/MediaTokens.v ===== *)
(** * Media tokens: the ticket of a media connection

    [media/transport/token.go]: a token names a session, a call, a channel and an
    organization, is signed with HMAC-SHA256, expires, and is accepted once by a
    process, which remembers the nonces it has accepted. Verifications run
    concurrently: each reads the clock, then consumes the nonce under a mutex.
    HMAC-SHA256 and the JSON decoder are parameters. *)

From S2P Require Import Prelude Encryption Secrets TrunkProbes.
Local Open Scope Z_scope.

Module MediaTokens.
Import Encryption.

Section Tokens.
Context `{U : UuidLib}.
(** [time.Time.Unix], of a clock in nanoseconds. *)
Definition Unix (t : Z) : Z := t / Second.
Definition minimumTokenSecretBytes : Z := 32.
Record TokenClaims := {
  SessionID : UUID; tc_CallID : UUID; tc_ChannelID : UUID; tc_OrganizationID : UUID; ExpiresAt : Z; Nonce : string;
}.
Record TokenService := { secret : list ascii; used : gmap string Z }.

(** [json.Marshal] of the claims: every field is plain ASCII text. *)
Definition quoted (s : string) : list ascii := dquote :: bytes s ++ [dquote].
Definition field (name : string) (value : list ascii) : list ascii := quoted name ++ bytes ":" ++ value.
Definition Marshal (c : TokenClaims) : list ascii :=
  bytes "{" ++ field "sid" (quoted (uuid_String (SessionID c))) ++ bytes ","
    ++ field "cid" (quoted (uuid_String (tc_CallID c))) ++ bytes ","
    ++ field "chid" (quoted (uuid_String (tc_ChannelID c))) ++ bytes ","
    ++ field "oid" (quoted (uuid_String (tc_OrganizationID c))) ++ bytes ","
    ++ field "exp" (format_int (ExpiresAt c)) ++ bytes ","
    ++ field "nonce" (quoted (Nonce c)) ++ bytes "}".

(** [hmac.New(sha256.New, secret)], and [json.Unmarshal] into the claims. *)
Context (HMAC : list ascii -> list ascii -> list ascii) (Unmarshal : list ascii -> result TokenClaims).

Definition NewTokenService (text : string) : result TokenService :=
  let text := TrimSpace text in
  if Z.of_nat (length (bytes text)) <? minimumTokenSecretBytes
  then inr (Errorf "media token secret must contain at least %d bytes" [show_int minimumTokenSecretBytes])
  else inl {| secret := bytes text; used := ∅ |}.
Definition validateTokenIdentity (c : TokenClaims) : result unit :=
  let? _ := guard_err (bool_decide (SessionID c = uuid_Nil)) (Errorf "media token session id is required" []) in
  let? _ := guard_err (bool_decide (tc_CallID c = uuid_Nil)) (Errorf "media token call id is required" []) in
  let? _ := guard_err (bool_decide (tc_ChannelID c = uuid_Nil)) (Errorf "media token channel id is required" []) in
  guard_err (bool_decide (tc_OrganizationID c = uuid_Nil)) (Errorf "media token organization id is required" []).
Definition signature (s : TokenService) (payload : list ascii) : list ascii :=
  Base64.EncodeToString (HMAC (secret s) payload).
(** [now] and [ttl] in nanoseconds; [random]: what the source of random bytes gives. *)
Definition issued (c : TokenClaims) (now ttl : Z) (nonce : list ascii) : TokenClaims := {|
  SessionID := SessionID c; tc_CallID := tc_CallID c; tc_ChannelID := tc_ChannelID c;
  tc_OrganizationID := tc_OrganizationID c; ExpiresAt := Unix (now + ttl); Nonce := of_bytes (Hex.EncodeToString nonce) |}.
Definition Issue (s : TokenService) (c : TokenClaims) (now ttl : Z) (random : result (list ascii)) : result string :=
  let? _ := validateTokenIdentity c in
  let? _ := guard_err (ttl <=? 0) (Errorf "media token TTL must be positive" []) in
  match random with
  | inr e => inr (Wrapf "generate media token nonce: %w" [] e)
  | inl nonce =>
      let encoded := Base64.EncodeToString (Marshal (issued c now ttl nonce)) in
      inl (of_bytes (encoded ++ bytes "." ++ signature s encoded))
  end.

(** [VerifyAndConsume] up to the clock it reads, and under its mutex. *)
Definition verify (s : TokenService) (token : string) (now : Z) : result TokenClaims :=
  let malformed := inr (Errorf "invalid media token format" []) in
  match Cut (TrimSpace token) "." with
  | None => malformed
  | Some (encoded, sig) =>
      if bool_decide (encoded = "") || bool_decide (sig = "") then malformed else
      let? _ := guard_err (negb (bool_decide (bytes sig = signature s (bytes encoded))))
                  (Errorf "invalid media token signature" []) in
      match Base64.DecodeString (bytes encoded) with
      | None => inr (Errorf "decode media token: %w" [])
      | Some payload =>
          match Unmarshal payload with
          | inr e => inr (Wrapf "unmarshal media token: %w" [] e)
          | inl c =>
              let? _ := validateTokenIdentity c in
              let? _ := guard_err (bool_decide (Nonce c = "")) (Errorf "media token nonce is required" []) in
              let? _ := guard_err (ExpiresAt c <=? Unix now) (Errorf "media token expired" []) in
              inl c
          end
      end
  end.
Definition live (now : Z) (m : gmap string Z) : gmap string Z := filter (fun x => Unix now < snd x) m.
Definition consume (c : TokenClaims) (now : Z) (s : TokenService) : result unit * TokenService :=
  let kept := live now (used s) in
  match kept !! Nonce c with
  | Some _ => (inr (Errorf "media token already used" []), {| secret := secret s; used := kept |})
  | None => (inl tt, {| secret := secret s; used := <[Nonce c := ExpiresAt c]> kept |})
  end.
Definition VerifyAndConsume (token : string) (now : Z) (s : TokenService) : result TokenClaims * TokenService :=
  match verify s token now with
  | inr e => (inr e, s)
  | inl c => match consume c now s with (inl _, s') => (inl c, s') | (inr e, s') => (inr e, s') end
  end.

(** ** The verifications of a process *)
Record process := {
  service : TokenService; clock : Z; checked : list (TokenClaims * Z); accepted : list (TokenClaims * Z);
}.
Inductive step : process -> process -> Prop :=
| step_clock t p : clock p <= t ->
    step p {| service := service p; clock := t; checked := checked p; accepted := accepted p |}
| step_verify token c p : verify (service p) token (clock p) = inl c ->
    step p {| service := service p; clock := clock p; checked := (c, clock p) :: checked p; accepted := accepted p |}
| step_consume c read before after r s p : checked p = before ++ (c, read) :: after -> consume c read (service p) = (r, s) ->
    step p {| service := s; clock := clock p; checked := before ++ after;
              accepted := match r with inl _ => (c, clock p) :: accepted p | inr _ => accepted p end |}.
Definition fresh_process (s : TokenService) (now : Z) : process :=
  {| service := s; clock := now; checked := []; accepted := [] |}.

(** ** A token is accepted once *)
Lemma verify_live s token now c : verify s token now = inl c -> Unix now < ExpiresAt c.
Proof.
  unfold verify, guard_err. destruct (Cut _ _) as [[e sig]|]; [|done]. destruct (_ || _); [done|].
  destruct (negb _); [done|]. simpl. destruct (Base64.DecodeString _); [|done]. destruct (Unmarshal _) as [c'|]; [|done].
  destruct (validateTokenIdentity c'); [|done]. simpl. destruct (bool_decide (Nonce c' = "")); [done|]. simpl.
  destruct (Z.leb_spec (ExpiresAt c') (Unix now)); [done|]. simpl. by intros [= <-].
Qed.
Lemma verify_secret s s' token now : secret s = secret s' -> verify s token now = verify s' token now.
Proof. unfold verify, signature. by intros ->. Qed.
Lemma consume_secret c now s r s' : consume c now s = (r, s') -> secret s' = secret s.
Proof. unfold consume. destruct (_ !! _); intros; by simplify_eq. Qed.
Lemma Unix_mono a b : a <= b -> Unix a <= Unix b.
Proof. intros H. by apply Z.div_le_mono. Qed.
Lemma live_lookup now m n e : live now m !! n = Some e <-> m !! n = Some e /\ Unix now < e.
Proof. unfold live. by rewrite map_lookup_filter_Some. Qed.

Definition shown (s : TokenService) (bound : Z) (c : TokenClaims) : Prop :=
  exists token read, read <= bound /\ verify s token read = inl c.
Definition key_of (x : TokenClaims * Z) : string * Z := (Nonce (fst x), ExpiresAt (fst x)).
Definition in_time (x : TokenClaims * Z) : Prop := Unix (snd x) < ExpiresAt (fst x).
#[export] Instance in_time_dec x : Decision (in_time x) := _.
Record fresh (p : process) : Prop := {
  fr_checked : Forall (fun x => snd x <= clock p /\ shown (service p) (snd x) (fst x)) (checked p);
  fr_accepted : Forall (fun x => snd x <= clock p /\ shown (service p) (snd x) (fst x)) (accepted p);
  fr_used : forall c t, (c, t) ∈ accepted p -> Unix (clock p) < ExpiresAt c -> used (service p) !! Nonce c = Some (ExpiresAt c);
  fr_once : NoDup (key_of <$> filter in_time (accepted p));
}.
Lemma shown_later s s' b b' c : secret s = secret s' -> b <= b' -> shown s b c -> shown s' b' c.
Proof. intros Hs Hb (token & read & Hr & Hv). exists token, read. split; [lia|]. by rewrite <-(verify_secret _ _ _ _ Hs). Qed.
Lemma fresh_clock p t : clock p <= t -> fresh p ->
  fresh {| service := service p; clock := t; checked := checked p; accepted := accepted p |}.
Proof.
  intros Ht [Hch Hac Hus Hon]. split; simpl; [| | |done].
  - eapply Forall_impl; [exact Hch|]. simpl. intros x [Hx Hv]. split; [lia|done].
  - eapply Forall_impl; [exact Hac|]. simpl. intros x [Hx Hv]. split; [lia|done].
  - intros c t0 Hin Hlive. apply (Hus c t0 Hin). pose proof (Unix_mono _ _ Ht). lia.
Qed.
Lemma fresh_consume p c read before after r s : checked p = before ++ (c, read) :: after -> consume c read (service p) = (r, s) ->
  fresh p -> fresh {| service := s; clock := clock p; checked := before ++ after;
    accepted := match r with inl _ => (c, clock p) :: accepted p | inr _ => accepted p end |}.
Proof.
  intros Hb Hc [Hch Hac Hus Hon]. pose proof (consume_secret _ _ _ _ _ Hc) as Hsec.
  rewrite Hb in Hch. apply Forall_app in Hch as [H1 [[Hread Hshown] H2]%Forall_cons]. simpl in Hread, Hshown.
  pose proof (Unix_mono _ _ Hread) as Hu.
  assert (forall c' t', (c', t') ∈ accepted p -> Unix (clock p) < ExpiresAt c' ->
    live read (used (service p)) !! Nonce c' = Some (ExpiresAt c')) as Hkept.
  { intros c' t' Hin Hl. apply live_lookup. split; [by eapply Hus|lia]. }
  assert (Forall (fun x => snd x <= clock p /\ shown s (snd x) (fst x)) (before ++ after)) as Hch'.
  { apply Forall_app. split; (eapply Forall_impl; [eassumption|]); simpl; intros x [Hx Hs]; (split; [done|]);
      by eapply shown_later. }
  assert (Forall (fun x => snd x <= clock p /\ shown s (snd x) (fst x)) (accepted p)) as Hac'.
  { eapply Forall_impl; [exact Hac|]. simpl. intros x [Hx Hs]. split; [done|]. by eapply shown_later. }
  unfold consume in Hc. destruct (live read (used (service p)) !! Nonce c) as [e|] eqn:He; simplify_eq.
  - split; [exact Hch'|exact Hac'| |exact Hon]. intros c' t' Hin Hl. by eapply Hkept.
  - split; [exact Hch'| | |].
    + constructor; [|exact Hac']. split; [done|]. by eapply shown_later.
    + simpl. intros c' t' [[= -> ->]|Hin]%elem_of_cons Hl; [by rewrite lookup_insert_eq|].
      rewrite lookup_insert_ne; [by eapply Hkept|]. intros Heq. rewrite Heq, (Hkept _ _ Hin Hl) in He. done.
    + cbn [accepted]. destruct (decide (in_time (c, clock p))) as [Hin|Hnot]; [|by rewrite filter_cons_False].
      rewrite filter_cons_True, fmap_cons by done. constructor; [|exact Hon].
      intros ([c' t'] & Hk & [_ Hacc]%list_elem_of_filter)%list_elem_of_fmap. injection Hk as Hn Hx.
      rewrite Hn, (Hkept c' t' Hacc) in He; [done|]. unfold in_time in Hin. simpl in *. lia.
Qed.
Lemma fresh_step p p' : step p p' -> fresh p -> fresh p'.
Proof.
  intros Hs Hf. destruct Hs as [t p Ht|token c p Hv|c read before after r s p Hb Hc].
  - by apply fresh_clock.
  - destruct Hf as [Hch Hac Hus Hon]. split; simpl; try done. constructor; [|done]. simpl. split; [done|]. by exists token, (clock p).
  - by eapply fresh_consume.
Qed.
(** C25: A media token is accepted once. However the verifications of a process
    interleave, no nonce is accepted twice with the same expiry before it has
    expired; every accepted token was presented at an earlier time, before its
    expiry, with the signature of this process. *)
Theorem token_accepted_once s now p : rtc step (fresh_process s now) p ->
  NoDup ((fun x => (Nonce (fst x), ExpiresAt (fst x))) <$> filter (fun x => Unix (snd x) < ExpiresAt (fst x)) (accepted p))
  /\ forall c t, (c, t) ∈ accepted p -> exists token read, read <= t /\ Unix read < ExpiresAt c /\ verify (service p) token read = inl c.
Proof.
  intros Hr. assert (fresh p) as [_ Hac _ Hon].
  { revert p Hr. apply rtc_ind_r; [|intros p1 p2 _; apply fresh_step].
    split; simpl; try by constructor. by intros c t ?%not_elem_of_nil. }
  split; [done|]. intros c t Hin. rewrite Forall_forall in Hac. destruct (Hac _ Hin) as [_ (token & read & Hread & Hv)].
  exists token, read. split_and!; [done|by eapply verify_live|done].
Qed.

(** ** An issued token is accepted *)
Lemma bytes_Cut_at b c s : c ∉ b -> bytes_Cut (b ++ c :: s) [c] = Some (b, s).
Proof.
  induction b as [|x b IH]; intros Hc; cbn [bytes_Cut app length take drop]; rewrite take_0.
  - by rewrite decide_True, drop_0.
  - apply not_elem_of_cons in Hc as [Hx Hc]. rewrite decide_False by (intros [= ->]; done). by rewrite IH.
Qed.
Lemma TrimSpace_text x p c : TrunkProbes.ascii_text x = true -> TrunkProbes.ascii_text c = true ->
  bytes_TrimSpace ((x :: p) ++ [c]) = (x :: p) ++ [c].
Proof.
  intros Hx Hc. destruct (TrunkProbes.TrimSpace_keep x p c [] Hx Hc) as (s' & t & -> & Hs).
  symmetry in Hs. by apply app_eq_nil in Hs as [-> _].
Qed.
Lemma joint_token b sig : b <> [] -> sig <> [] -> (forall c, c ∈ b ++ sig -> TrunkProbes.ascii_text c = true) -> "."%char ∉ b ->
  Cut (TrimSpace (of_bytes (b ++ bytes "." ++ sig))) "." = Some (of_bytes b, of_bytes sig).
Proof.
  intros Hb Hs Htext Hdot. destruct b as [|x b']; [done|].
  destruct sig as [|c sig' _] using rev_ind; [done|]. unfold Cut, TrimSpace. rewrite !bytes_of_bytes.
  replace ((x :: b') ++ bytes "." ++ sig' ++ [c]) with ((x :: b' ++ bytes "." ++ sig') ++ [c])
    by (simpl; by rewrite <-app_assoc).
  rewrite TrimSpace_text by (apply Htext; set_solver).
  replace ((x :: b' ++ bytes "." ++ sig') ++ [c]) with ((x :: b') ++ "."%char :: sig' ++ [c])
    by (simpl; by rewrite <-app_assoc).
  change (bytes ".") with ["."%char]. by rewrite bytes_Cut_at.
Qed.
Lemma digit_text z : 0 <= z < 64 -> TrunkProbes.ascii_text (Base64.digit z) = true.
Proof.
  intros H. assert (Hall : forallb (fun i => TrunkProbes.ascii_text (Base64.digit (Z.of_nat i))) (seq 0 64) = true)
    by (vm_compute; reflexivity).
  rewrite forallb_forall in Hall. specialize (Hall (Z.to_nat z)). rewrite Z2Nat.id in Hall by lia.
  apply Hall, in_seq. lia.
Qed.
Lemma encoded_text b c : c ∈ Base64.EncodeToString b -> TrunkProbes.ascii_text c = true.
Proof.
  rewrite Base64.encode_digits. intros (z & -> & Hin)%list_elem_of_fmap. apply digit_text.
  pose proof (Base64.digits_range b) as Hd. rewrite Forall_forall in Hd. by apply Hd.
Qed.
Lemma encoded_nonempty b : b <> [] -> Base64.EncodeToString b <> [].
Proof. destruct b as [|? [|? [|? ?]]]; done. Qed.
Lemma hex_nonempty b : b <> [] -> of_bytes (Hex.EncodeToString b) <> "".
Proof. by destruct b. Qed.

Lemma Marshal_nonempty c : Marshal c <> [].
Proof. done. Qed.
(** A signed text is read back. *)
Lemma verify_signed s payload c t : payload <> [] -> Unmarshal payload = inl c -> validateTokenIdentity c = inl tt ->
  Nonce c <> "" -> (forall k m, HMAC k m <> []) ->
  verify s (of_bytes (Base64.EncodeToString payload ++ bytes "." ++ signature s (Base64.EncodeToString payload))) t
  = if Unix t <? ExpiresAt c then inl c else inr (Errorf "media token expired" []).
Proof.
  intros Hp Hjson Hval Hnonce Hmac. apply encoded_nonempty in Hp. unfold verify. rewrite joint_token.
  - assert (forall b, b <> [] -> bool_decide (of_bytes b = "") = false) as Hne.
    { intros b Hb. apply bool_decide_false. intros He. apply Hb. by rewrite <-(bytes_of_bytes b), He. }
    rewrite !Hne by (done || by apply encoded_nonempty, Hmac). rewrite !bytes_of_bytes, bool_decide_true by done.
    cbn [orb negb guard_err]. rewrite rbind_inl, Base64.DecodeString_EncodeToString, Hjson, Hval, rbind_inl.
    rewrite bool_decide_false by done. cbn [guard_err]. rewrite rbind_inl, Z.leb_antisym. by destruct (Unix t <? _).
  - done.
  - apply encoded_nonempty, Hmac.
  - intros x [Hx|Hx]%elem_of_app; by eapply encoded_text.
  - apply encoded_no_dot.
Qed.

(** C26: An issued token is accepted, once. What [Issue] makes for claims is accepted
    by the same process at any time before it expires, unless its nonce has been used,
    and gives the same claims with the nonce and the expiry; from then on, until it
    expires, it is refused as used, and afterwards as expired. *)
Theorem issued_token_is_accepted s s' c now ttl nonce token later : secret s' = secret s ->
  Unmarshal (Marshal (issued c now ttl nonce)) = inl (issued c now ttl nonce) -> (forall k m, HMAC k m <> []) -> nonce <> [] ->
  Issue s c now ttl (inl nonce) = inl token ->
  Unix later < Unix (now + ttl) -> used s' !! of_bytes (Hex.EncodeToString nonce) = None ->
  exists s1, VerifyAndConsume token later s' = (inl (issued c now ttl nonce), s1)
    /\ forall after, later <= after -> fst (VerifyAndConsume token after s1)
         = inr (if Unix after <? Unix (now + ttl) then Errorf "media token already used" []
                else Errorf "media token expired" []).
Proof.
  intros Hsec Hjson Hmac Hnonce H Hlive Hunused. unfold Issue in H.
  destruct (validateTokenIdentity c) as [[]|] eqn:Hval; [|done]. rewrite rbind_inl in H.
  destruct (ttl <=? 0); [done|]. cbn [guard_err] in H. rewrite rbind_inl in H. apply (inj inl) in H. subst token.
  assert (forall s0 t, secret s0 = secret s -> verify s0 (of_bytes (Base64.EncodeToString (Marshal (issued c now ttl nonce))
      ++ bytes "." ++ signature s (Base64.EncodeToString (Marshal (issued c now ttl nonce))))) t
    = if Unix t <? Unix (now + ttl) then inl (issued c now ttl nonce) else inr (Errorf "media token expired" [])) as Hv.
  { intros s0 t Hs0. rewrite (verify_secret s0 s) by done.
    exact (verify_signed s _ (issued c now ttl nonce) t (Marshal_nonempty _) Hjson Hval (hex_nonempty nonce Hnonce) Hmac). }
  revert Hv Hjson. generalize (Marshal (issued c now ttl nonce)) as payload. intros payload Hv _.
  assert (live later (used s') !! of_bytes (Hex.EncodeToString nonce) = None) as Hnone.
  { destruct (live _ _ !! _) eqn:He; [|done]. apply live_lookup in He as [He _]. by rewrite Hunused in He. }
  eexists. split.
  - unfold VerifyAndConsume. rewrite (Hv s' later Hsec), (proj2 (Z.ltb_lt _ _) Hlive). unfold consume. cbn [Nonce issued]. by rewrite Hnone.
  - intros after Hafter. unfold VerifyAndConsume. rewrite Hv by done.
    destruct (Z.ltb_spec (Unix after) (Unix (now + ttl))) as [Hl|Hl]; [|done]. unfold consume. cbn [Nonce ExpiresAt issued used secret].
    destruct (live after _ !! _) eqn:He; [done|]. exfalso. revert He. apply not_eq_None_Some. eexists.
    apply live_lookup. split; [apply lookup_insert_eq|done].
Qed.
End Tokens.

(** A decoder of one text, and a keyed function. *)
Module Sample.
#[local] Existing Instance decimal_uuid.
Definition claims : TokenClaims :=
  {| SessionID := 1; tc_CallID := 2; tc_ChannelID := 3; tc_OrganizationID := 4; ExpiresAt := 0; Nonce := "" |}.
Definition mac (k m : list ascii) : list ascii := take 32 (k ++ m) ++ ["."%char].
Definition sample : TokenClaims := issued claims (5 * Second) (10 * Second) (bytes "0123456789abcdef").
Definition decode (b : list ascii) : result TokenClaims :=
  if bool_decide (b = Marshal sample) then inl sample else inr (Errorf "invalid" []).
Definition server : TokenService := {| secret := bytes "a secret of at least thirty-two bytes"; used := ∅ |}.
Definition ticket : string := match Issue mac server claims (5 * Second) (10 * Second) (inl (bytes "0123456789abcdef")) with
  | inl t => t | inr _ => "" end.
Definition checked_once : process := {| service := server; clock := 6 * Second; checked := [(sample, 6 * Second)]; accepted := [] |}.
Definition done_once : process := {| service := (consume sample (6 * Second) server).2; clock := 6 * Second; checked := [];
  accepted := [(sample, 6 * Second)] |}.
Lemma done_once_reachable : rtc (step mac decode) (fresh_process server (6 * Second)) done_once.
Proof.
  eapply rtc_l; [by apply (step_verify mac decode ticket sample); vm_compute|].
  eapply rtc_l; [by apply (step_consume mac decode sample (6 * Second) [] [] (inl tt) (consume sample (6 * Second) server).2 checked_once)|].
  apply rtc_refl.
Qed.
End Sample.
Lemma token_accepted_once_witness :
  accepted Sample.done_once <> []
  /\ NoDup ((fun x => (Nonce (fst x), ExpiresAt (fst x)))
      <$> filter (fun x => Unix (snd x) < ExpiresAt (fst x)) (accepted Sample.done_once)).
Proof.
  split; [done|]. exact (proj1 (token_accepted_once Sample.mac Sample.decode Sample.server (6 * Second) Sample.done_once
    Sample.done_once_reachable)).
Defined.
Lemma issued_token_is_accepted_witness : exists s1,
  VerifyAndConsume Sample.mac Sample.decode Sample.ticket (14 * Second) Sample.server = (inl Sample.sample, s1)
  /\ forall after, 14 * Second <= after -> fst (VerifyAndConsume Sample.mac Sample.decode Sample.ticket after s1)
       = inr (if Unix after <? Unix (5 * Second + 10 * Second) then Errorf "media token already used" []
              else Errorf "media token expired" []).
Proof.
  apply (@issued_token_is_accepted decimal_uuid Sample.mac Sample.decode Sample.server Sample.server Sample.claims
    (5 * Second) (10 * Second) (bytes "0123456789abcdef") Sample.ticket (14 * Second)); [done|..].
  - vm_compute. reflexivity.
  - intros k m H. unfold Sample.mac in H. by apply app_eq_nil in H as [_ ?].
  - done.
  - vm_compute. reflexivity.
  - vm_compute. reflexivity.
  - vm_compute. reflexivity.
Defined.
End MediaTokens.
