(* ===== verification/JsonValues.v ===== *)
(** * Values in JSON text

    What [encoding/json] finds in an object: its members with their texts, strings
    without their quotes, and whether every number fits a [float64], as decoding
    into [any] needs. *)

From S2P Require Import Prelude Json.
Local Open Scope Z_scope.

Module JsonValues.
Import Json.

Definition json_trim (b : list ascii) : list ascii :=
  reverse (drop_while isSpace (reverse (drop_while isSpace b))).

(** The members of an object in order, their keys still quoted; [k] and [v]: what
    has been read of the current key and value, backwards. *)
Fixpoint members (b : list ascii) (sc : scanner) (k v : list ascii) : list (list ascii * list ascii) :=
  match b with
  | [] => []
  | c :: b' =>
      match scan c sc with
      | None => []
      | Some sc' =>
          match stack sc, stack sc' with
          | [], _ => members b' sc' [] []
          | [ObjectKey], [ObjectValue] => members b' sc' k []
          | [ObjectKey], [ObjectKey] => members b' sc' (c :: k) []
          | [ObjectKey], _ => []
          | _, [ObjectKey] => (json_trim (reverse k), json_trim (reverse v)) :: members b' sc' [] []
          | _, [] => [(json_trim (reverse k), json_trim (reverse v))]
          | _, _ => members b' sc' k (c :: v)
          end
      end
  end.

(** *** Strings *)
Definition hex_digit (c : ascii) : Z :=
  if byte_in 48 57 c then byte_Z c - 48 else if byte_in 97 102 c then byte_Z c - 87 else byte_Z c - 55.
Definition hex4 (b : list ascii) : Z := foldl (fun n c => n * 16 + hex_digit c) 0 b.
Definition byte (z : Z) : ascii := ascii_of_N (Z.to_N z).
Definition encode_rune (r : Z) : list ascii :=
  if r <? 128 then [byte r] else
  if r <? 2048 then [byte (192 + r / 64); byte (128 + r mod 64)] else
  if r <? 65536 then [byte (224 + r / 4096); byte (128 + r / 64 mod 64); byte (128 + r mod 64)] else
  [byte (240 + r / 262144); byte (128 + r / 4096 mod 64); byte (128 + r / 64 mod 64); byte (128 + r mod 64)].
Definition replacement : Z := 65533.
Definition is_surrogate (r : Z) : bool := (55296 <=? r) && (r <? 57344).
(** [utf16.DecodeRune]. *)
Definition pair_rune (r1 r2 : Z) : option Z :=
  if (55296 <=? r1) && (r1 <? 56320) && (56320 <=? r2) && (r2 <? 57344)
  then Some ((r1 - 55296) * 1024 + (r2 - 56320) + 65536) else None.
Definition escaped (c : ascii) : ascii :=
  if is_char "b" c then byte 8 else if is_char "f" c then byte 12 else if is_char "n" c then byte 10
  else if is_char "r" c then byte 13 else if is_char "t" c then byte 9 else c.
(** The text between the quotes, which is valid; what comes in is valid UTF-8. *)
Fixpoint unescape (b : list ascii) : list ascii :=
  match b with
  | "\"%char :: "u"%char :: a1 :: a2 :: a3 :: a4 :: rest =>
      let r := hex4 [a1; a2; a3; a4] in
      if is_surrogate r then
        match rest with
        | "\"%char :: "u"%char :: b1 :: b2 :: b3 :: b4 :: rest' =>
            match pair_rune r (hex4 [b1; b2; b3; b4]) with
            | Some p => encode_rune p ++ unescape rest'
            | None => encode_rune replacement ++ unescape rest
            end
        | _ => encode_rune replacement ++ unescape rest
        end
      else encode_rune r ++ unescape rest
  | "\"%char :: c :: rest => escaped c :: unescape rest
  | c :: rest => c :: unescape rest
  | [] => []
  end.
Definition unquote (b : list ascii) : list ascii := unescape (removelast (tail b)).
Definition is_string_text (b : list ascii) : bool := match b with c :: _ => is_char dquote c | [] => false end.
Definition is_null_text (b : list ascii) : bool := match b with c :: _ => is_char "n" c | [] => false end.
Definition is_number_text (b : list ascii) : bool := match b with c :: _ => is_char "-" c || is_digit c | [] => false end.

(** *** Numbers *)
(** The digits of a literal, without the point, and the exponent of the last one;
    [ParseFloat] stops adding digits to an exponent past 10000. *)
Definition exponent (b : list ascii) : Z :=
  let magnitude ds := foldl (fun e c => if e <? 10000 then e * 10 + (byte_Z c - 48) else e) 0 ds in
  match b with
  | c :: ds => if is_char "-" c then - magnitude ds else if is_char "+" c then magnitude ds else magnitude b
  | [] => 0
  end.
Fixpoint split_at (p : ascii -> bool) (b : list ascii) : list ascii * list ascii :=
  match b with
  | [] => ([], [])
  | c :: b' => if p c then ([], b') else let (x, y) := split_at p b' in (c :: x, y)
  end.
Definition decimal (b : list ascii) : list ascii * Z :=
  let (mantissa, e) := split_at is_exp (drop_while (is_char "-") b) in
  let (whole, fraction) := split_at (is_char ".") mantissa in
  (whole ++ fraction, exponent e - Z.of_nat (length fraction)).
(** The least magnitude that rounds to infinity. *)
Definition float64_bound : Z := 2 ^ 1024 - 2 ^ 970.
Definition float64_ok (b : list ascii) : bool :=
  let (ds, e) := decimal b in
  let ds := drop_while (is_char "0") ds in
  let n := Z.of_nat (length ds) in
  let m := foldl (fun n c => n * 10 + (byte_Z c - 48)) 0 ds in
  if (n =? 0) || (n + e <=? 308) then true else
  if 310 <? n + e then false else
  if 0 <=? e then m * 10 ^ e <? float64_bound else m <? float64_bound * 10 ^ (- e).
Definition in_number (s : state) : bool :=
  match s with Neg | Int1 | Int0 | Dot | Dot0 | Exp | ExpSign | Exp0 => true | _ => false end.
(** [acc]: the literal being read, backwards. *)
Fixpoint numbers (b : list ascii) (sc : scanner) (acc : list ascii) : list (list ascii) :=
  match b with
  | [] => match acc with [] => [] | _ => [reverse acc] end
  | c :: b' =>
      match scan c sc with
      | None => []
      | Some sc' =>
          if in_number (step sc') then numbers b' sc' (c :: acc)
          else match acc with [] => numbers b' sc' [] | _ => reverse acc :: numbers b' sc' [] end
      end
  end.

(** [json.Unmarshal] into a [map[string]any]. *)
Definition Unmarshal_any_map (b : list ascii) : unmarshalled :=
  match Unmarshal_map b with
  | IsError => IsError
  | r => if forallb float64_ok (numbers b reset []) then r else IsError
  end.
(** The members of a valid object, by key: of equal keys the last one counts. *)
Definition object_members (b : list ascii) : list (string * list ascii) :=
  (fun m => (of_bytes (unquote (fst m)), snd m)) <$> members b reset [] [].
Definition member_map (b : list ascii) : gmap string (list ascii) :=
  foldl (fun m kv => <[fst kv := snd kv]> m) ∅ (object_members b).

(** *** Examples *)
Definition q (s : string) : string := String.string_of_list_ascii [dquote] +:+ s +:+ String.string_of_list_ascii [dquote].
Example members_example :
  object_members (bytes ("{ " +:+ q "a\u0062" +:+ " : [1, {" +:+ q "x" +:+ ":2}], " +:+ q "c" +:+ ":1.5e3 }"))
  = [("ab", bytes ("[1, {" +:+ q "x" +:+ ":2}]")); ("c", bytes "1.5e3")]%string.
Proof. vm_compute. reflexivity. Qed.
Example ranges_example :
  (float64_ok <$> [bytes "1.7976931348623157e308"; bytes "1.7976931348623159e308"; bytes "1e309"; bytes "-0.0e999";
     bytes "1e-999"; bytes "100000e304"]) = [true; false; false; true; true; false].
Proof. vm_compute. reflexivity. Qed.
Example numbers_example :
  numbers (bytes ("[1, -2.5e3,{" +:+ q "1" +:+ ":0}]")) reset [] = [bytes "1"; bytes "-2.5e3"; bytes "0"].
Proof. vm_compute. reflexivity. Qed.
End JsonValues.
