(* ===== verification/ConversationState.v ===== *)
(** * What the worker remembers of a conversation

    [runtime/agent/conversation.go] and the requests of [ai/conversations/model.go]:
    from the events of a media session, the turns that are written and the summary
    of the session. Times are nanoseconds, the zero time is 0. *)

From S2P Require Import Prelude Json MediaSession.
Local Open Scope Z_scope.

Module ConversationState.
Import MediaSession.

(** [CreateTurnRequest]. *)
Record TurnColumns := {
  tc_Sequence : Z; tc_Role : string; tc_Content : string; tc_ProviderID : option string; tc_ToolName : option string;
  tc_ToolCallID : option string; tc_Metadata : list ascii; tc_SpeechStartedAt : option Z; tc_SpeechEndedAt : option Z;
  tc_SttLatencyMs : option Z; tc_LlmTtftMs : option Z; tc_TtsTtfbMs : option Z; tc_TurnLatencyMs : option Z;
}.
Record SessionSummary := {
  su_TurnCount : Z; su_InterruptionCount : Z; su_FirstResponseLatencyMs : option Z; su_AvgTurnLatencyMs : option Z;
}.
Record conversationState := {
  nextSequence : Z; speechStartedAt : Z; speechStoppedAt : Z; responseStartedAt : Z; responseActive : bool;
  assistantText : string; turnCount : Z; interruptionCount : Z; firstResponseLatency : option Z;
  totalTurnLatency : Z; turnLatencyCount : Z;
}.
Definition newConversationState : conversationState := {|
  nextSequence := 1; speechStartedAt := 0; speechStoppedAt := 0; responseStartedAt := 0; responseActive := false;
  assistantText := ""; turnCount := 0; interruptionCount := 0; firstResponseLatency := None; totalTurnLatency := 0;
  turnLatencyCount := 0 |}.

Definition EventTranscriptFinal : string := "transcript.final".
Definition EventResponseDelta : string := "response.delta".
Definition EventToolCall : string := "tool.call".
Definition IsZero (t : Z) : bool := t =? 0.
(** [Time.Sub], which stops at the ends of [int64]. *)
Definition Sub (a b : Z) : Z := Z.max min_int64 (Z.min max_int64 (a - b)).
Definition set_time (t : Z) : option Z := if IsZero t then None else Some t.
Definition durationMilliseconds (d : Z) : Z :=
  if d <? 0 then 0 else Z.min max_int32 (go_div d Millisecond).

(** ** Events ([observe]) *)
Definition on_speech_started (at_ : Z) (s : conversationState) : conversationState := {|
  nextSequence := nextSequence s; speechStartedAt := at_; speechStoppedAt := speechStoppedAt s;
  responseStartedAt := responseStartedAt s; responseActive := responseActive s; assistantText := assistantText s;
  turnCount := turnCount s;
  interruptionCount := if responseActive s then int32 (interruptionCount s + 1) else interruptionCount s;
  firstResponseLatency := firstResponseLatency s; totalTurnLatency := totalTurnLatency s;
  turnLatencyCount := turnLatencyCount s |}.
Definition on_speech_stopped (at_ : Z) (s : conversationState) : conversationState := {|
  nextSequence := nextSequence s; speechStartedAt := speechStartedAt s; speechStoppedAt := at_;
  responseStartedAt := responseStartedAt s; responseActive := responseActive s; assistantText := assistantText s;
  turnCount := turnCount s; interruptionCount := interruptionCount s; firstResponseLatency := firstResponseLatency s;
  totalTurnLatency := totalTurnLatency s; turnLatencyCount := turnLatencyCount s |}.
Definition first_latency (at_ : Z) (s : conversationState) : option Z :=
  let latency := Sub at_ (speechStoppedAt s) in
  if negb (IsZero (speechStoppedAt s)) && (0 <=? latency) && bool_decide (firstResponseLatency s = None)
  then Some latency else firstResponseLatency s.
Definition on_response_started (at_ : Z) (s : conversationState) : conversationState := {|
  nextSequence := nextSequence s; speechStartedAt := speechStartedAt s; speechStoppedAt := speechStoppedAt s;
  responseStartedAt := at_; responseActive := true; assistantText := ""; turnCount := turnCount s;
  interruptionCount := interruptionCount s; firstResponseLatency := first_latency at_ s;
  totalTurnLatency := totalTurnLatency s; turnLatencyCount := turnLatencyCount s |}.
Definition with_text (text : string) (active : bool) (s : conversationState) : conversationState := {|
  nextSequence := nextSequence s; speechStartedAt := speechStartedAt s; speechStoppedAt := speechStoppedAt s;
  responseStartedAt := responseStartedAt s; responseActive := active; assistantText := text; turnCount := turnCount s;
  interruptionCount := interruptionCount s; firstResponseLatency := firstResponseLatency s;
  totalTurnLatency := totalTurnLatency s; turnLatencyCount := turnLatencyCount s |}.
Definition observe (e : Event) (now : Z) (s : conversationState) : conversationState :=
  let at_ := if IsZero (ev_OccurredAt e) then now else ev_OccurredAt e in
  if bool_decide (ev_Type e = EventSpeechStarted) then on_speech_started at_ s else
  if bool_decide (ev_Type e = EventSpeechStopped) then on_speech_stopped at_ s else
  if bool_decide (ev_Type e = EventResponseStarted) then on_response_started at_ s else
  if bool_decide (ev_Type e = EventResponseDelta) then
    match ev_Response e with Some text => with_text (assistantText s +:+ text) (responseActive s) s | None => s end else
  if bool_decide (ev_Type e = EventResponseStopped) then with_text (assistantText s) false s
  else s.

(** ** Turns; [provider]: the event's [ProviderID] *)
Definition advance (s : conversationState) : conversationState := {|
  nextSequence := int32 (nextSequence s + 1); speechStartedAt := speechStartedAt s; speechStoppedAt := speechStoppedAt s;
  responseStartedAt := responseStartedAt s; responseActive := responseActive s; assistantText := assistantText s;
  turnCount := turnCount s; interruptionCount := interruptionCount s; firstResponseLatency := firstResponseLatency s;
  totalTurnLatency := totalTurnLatency s; turnLatencyCount := turnLatencyCount s |}.
Definition provider_of (provider : string) : option string := if bool_decide (provider = "") then None else Some provider.
(** The milliseconds since the user stopped speaking, when both times are known. *)
Definition since_speech (t : Z) (s : conversationState) : option Z :=
  if IsZero (speechStoppedAt s) || IsZero t then None else Some (durationMilliseconds (Sub t (speechStoppedAt s))).
Definition userTurn (e : Event) (provider : string) (s : conversationState) : option TurnColumns * conversationState :=
  match ev_Transcript e with
  | None => (None, s)
  | Some text =>
      let text := TrimSpace text in
      if bool_decide (text = "") then (None, s) else
      (Some {| tc_Sequence := nextSequence s; tc_Role := "user"; tc_Content := text; tc_ProviderID := provider_of provider;
               tc_ToolName := None; tc_ToolCallID := None; tc_Metadata := []; tc_SpeechStartedAt := set_time (speechStartedAt s);
               tc_SpeechEndedAt := set_time (speechStoppedAt s); tc_SttLatencyMs := since_speech (ev_OccurredAt e) s;
               tc_LlmTtftMs := None; tc_TtsTtfbMs := None; tc_TurnLatencyMs := None |}, advance s)
  end.
Definition count_turn (at_ : Z) (s : conversationState) : conversationState :=
  let latency := Sub at_ (speechStoppedAt s) in
  let counted := negb (IsZero (speechStoppedAt s)) && negb (IsZero at_) && (0 <=? latency) in {|
  nextSequence := int32 (nextSequence s + 1); speechStartedAt := speechStartedAt s; speechStoppedAt := speechStoppedAt s;
  responseStartedAt := responseStartedAt s; responseActive := responseActive s; assistantText := "";
  turnCount := int32 (turnCount s + 1); interruptionCount := interruptionCount s;
  firstResponseLatency := firstResponseLatency s;
  totalTurnLatency := if counted then int64 (totalTurnLatency s + latency) else totalTurnLatency s;
  turnLatencyCount := if counted then int32 (turnLatencyCount s + 1) else turnLatencyCount s |}.
Definition assistantTurn (e : Event) (provider : string) (s : conversationState) : option TurnColumns * conversationState :=
  let text := TrimSpace (assistantText s) in
  if bool_decide (text = "") then (None, with_text "" (responseActive s) s) else
  (Some {| tc_Sequence := nextSequence s; tc_Role := "assistant"; tc_Content := text; tc_ProviderID := provider_of provider;
           tc_ToolName := None; tc_ToolCallID := None; tc_Metadata := []; tc_SpeechStartedAt := None;
           tc_SpeechEndedAt := None; tc_SttLatencyMs := None; tc_LlmTtftMs := since_speech (responseStartedAt s) s;
           tc_TtsTtfbMs := None; tc_TurnLatencyMs := since_speech (ev_OccurredAt e) s |}, count_turn (ev_OccurredAt e) s).
Definition is_error_text (b : bool) : list ascii :=
  let key := [dquote] ++ bytes "is_error" ++ [dquote] in
  bytes "{" ++ key ++ bytes (if b then ":true}" else ":false}").
Definition toolTurn (name callID content : string) (isError : bool) (s : conversationState) : TurnColumns * conversationState :=
  ({| tc_Sequence := nextSequence s; tc_Role := "tool"; tc_Content := content; tc_ProviderID := None;
      tc_ToolName := Some name; tc_ToolCallID := Some callID; tc_Metadata := is_error_text isError;
      tc_SpeechStartedAt := None; tc_SpeechEndedAt := None; tc_SttLatencyMs := None; tc_LlmTtftMs := None;
      tc_TtsTtfbMs := None; tc_TurnLatencyMs := None |}, advance s).
Definition summary (s : conversationState) : SessionSummary := {|
  su_TurnCount := turnCount s; su_InterruptionCount := interruptionCount s;
  su_FirstResponseLatencyMs := durationMilliseconds <$> firstResponseLatency s;
  su_AvgTurnLatencyMs := if 0 <? turnLatencyCount s
    then Some (int32 (go_div (go_div (totalTurnLatency s) Millisecond) (turnLatencyCount s))) else None |}.
Definition no_summary : SessionSummary := {|
  su_TurnCount := 0; su_InterruptionCount := 0; su_FirstResponseLatencyMs := None; su_AvgTurnLatencyMs := None |}.

(** ** A conversation

    The calls of the goroutines of a session, each under the mutex. *)
Inductive operation :=
| Observe (e : Event) (now : Z)
| UserTurn (e : Event) (provider : string)
| AssistantTurn (e : Event) (provider : string)
| ToolTurn (name callID content : string) (isError : bool).
Definition apply (o : operation) (s : conversationState) : option TurnColumns * conversationState :=
  match o with
  | Observe e now => (None, observe e now s)
  | UserTurn e provider => userTurn e provider s
  | AssistantTurn e provider => assistantTurn e provider s
  | ToolTurn name callID content isError => let (t, s') := toolTurn name callID content isError s in (Some t, s')
  end.
Fixpoint converse (l : list operation) (s : conversationState) : list TurnColumns * conversationState :=
  match l with
  | [] => ([], s)
  | o :: l' =>
      let (t, s1) := apply o s in
      let (ts, s2) := converse l' s1 in
      (match t with Some t => t :: ts | None => ts end, s2)
  end.

(** ** What a conversation writes *)
Definition is_assistant (t : TurnColumns) : bool := bool_decide (tc_Role t = "assistant").
Definition spoken (t : TurnColumns) : Prop := tc_Role t = "tool" \/ tc_Content t <> "" /\ TrimSpace (tc_Content t) = tc_Content t.
Definition natural32 (z : option Z) : Prop := forall v, z = Some v -> 0 <= v <= max_int32.
Definition latencies (t : TurnColumns) : list (option Z) := [tc_SttLatencyMs t; tc_LlmTtftMs t; tc_TtsTtfbMs t; tc_TurnLatencyMs t].
Definition turn_ok (t : TurnColumns) : Prop := spoken t /\ Forall natural32 (latencies t).
Definition summary_ok (u : SessionSummary) : Prop :=
  0 <= su_TurnCount u /\ 0 <= su_InterruptionCount u /\ natural32 (su_FirstResponseLatencyMs u)
  /\ natural32 (su_AvgTurnLatencyMs u).
(** Every time the operation brings is the zero time or within [d] of [lo]. *)
Definition within (lo d t : Z) : Prop := t = 0 \/ lo <= t <= lo + d.
Definition op_within (lo d : Z) (o : operation) : Prop :=
  match o with
  | Observe e now => within lo d (ev_OccurredAt e) /\ within lo d now
  | UserTurn e _ | AssistantTurn e _ => within lo d (ev_OccurredAt e)
  | ToolTurn _ _ _ _ => True
  end.

Section Numbered.
Context (lo d : Z).

(** After [n] operations that made [k] turns, [a] of them the assistant's. *)
Record after (n k a : Z) (s : conversationState) : Prop := {
  after_next : nextSequence s = 1 + k;
  after_turns : 0 <= k <= n;
  after_assistant : turnCount s = a /\ 0 <= a <= k;
  after_interruptions : 0 <= interruptionCount s <= n;
  after_counted : 0 <= turnLatencyCount s <= a;
  after_first : natural32 (durationMilliseconds <$> firstResponseLatency s);
  after_stopped : within lo d (speechStoppedAt s);
  after_total : 0 <= totalTurnLatency s <= d * turnLatencyCount s;
}.
Definition turn_count (t : option TurnColumns) : Z := match t with Some _ => 1 | None => 0 end.
Definition assistant_count (t : option TurnColumns) : Z :=
  match t with Some t => if is_assistant t then 1 else 0 | None => 0 end.

Lemma milliseconds_range z : 0 <= durationMilliseconds z <= max_int32.
Proof.
  unfold durationMilliseconds, max_int32, go_div, Millisecond. case_match eqn:Hz; [lia|]. apply Z.ltb_ge in Hz.
  pose proof (Z.quot_pos z 1000000). lia.
Qed.
Lemma natural32_ms o : natural32 (durationMilliseconds <$> o).
Proof. intros v Hv. destruct o as [z|]; [|done]. injection Hv as <-. apply milliseconds_range. Qed.
Lemma natural32_since t s : natural32 (since_speech t s).
Proof. unfold since_speech. intros v. case_match; [done|]. intros [= <-]. apply milliseconds_range. Qed.
Lemma natural32_none : natural32 None.
Proof. by intros v. Qed.
#[local] Hint Resolve natural32_ms natural32_since natural32_none : core.
Lemma int32_small z : 0 <= z <= max_int32 -> int32 z = z.
Proof. unfold int32, wrap_signed, max_int32. intros Hz. rewrite Z.mod_small by lia. lia. Qed.

Context (d_ok : 0 <= d <= max_int32 * Millisecond).
Lemma Sub_counted at_ s : within lo d (speechStoppedAt s) -> within lo d at_ ->
  negb (IsZero (speechStoppedAt s)) && negb (IsZero at_) && (0 <=? Sub at_ (speechStoppedAt s)) = true ->
  0 <= Sub at_ (speechStoppedAt s) <= d.
Proof.
  unfold within, IsZero, Sub, min_int64, max_int64. rewrite !andb_true_iff, !negb_true_iff, !Z.eqb_neq, Z.leb_le.
  unfold max_int32, Millisecond in d_ok. lia.
Qed.

Lemma after_apply o n k a s t s' :
  n + 1 < max_int32 -> d * (n + 1) <= max_int64 -> op_within lo d o -> after n k a s -> apply o s = (t, s') ->
  after (n + 1) (k + turn_count t) (a + assistant_count t) s'
  /\ (forall c, t = Some c -> tc_Sequence c = 1 + k /\ turn_ok c).
Proof.
  intros Hn Hd Ho [Hnx Hk [Ha Hak] Hi Hc Hf Hs Ht] He.
  destruct o as [e now|e p|e p|name cid content err]; simpl in He, Ho.
  - injection He as <- <-. split; [|done]. simpl turn_count. simpl assistant_count. rewrite !Z.add_0_r.
    set (at_ := if IsZero (ev_OccurredAt e) then now else ev_OccurredAt e).
    assert (within lo d at_) by (unfold at_; case_match; tauto).
    assert (int32 (interruptionCount s + 1) = interruptionCount s + 1) as Hi' by (apply int32_small; lia).
    unfold observe. fold at_. repeat case_match; split; simpl; rewrite ?Hi'; auto; try lia; destruct (responseActive s); lia.
  - unfold userTurn in He. destruct (ev_Transcript e) as [text|]; [|injection He as <- <-; split; [|done];
      simpl; rewrite !Z.add_0_r; split; auto; lia].
    cbv zeta in He. case_bool_decide as Htext; injection He as <- <-.
    + split; [|done]. simpl. rewrite !Z.add_0_r. split; auto; lia.
    + split; [split; simpl; auto; try lia|].
      * rewrite Hnx. rewrite int32_small; lia.
      * intros c [= <-]. simpl. split; [done|]. split; [|repeat apply Forall_cons_2; simpl; auto]. right. simpl.
        split; [done|apply TrimSpace_idem].
  - unfold assistantTurn in He. cbv zeta in He. case_bool_decide as Htext; injection He as <- <-.
    + split; [|done]. simpl. rewrite !Z.add_0_r. split; simpl; auto; lia.
    + split; [|intros c [= <-]; simpl; split; [done|]; split; [|repeat apply Forall_cons_2; simpl; auto]; right; simpl;
        split; [done|apply TrimSpace_idem]].
      simpl turn_count. change (assistant_count _) with 1.
      assert (int32 (nextSequence s + 1) = nextSequence s + 1) as H1 by (apply int32_small; lia).
      assert (int32 (turnCount s + 1) = turnCount s + 1) as H2 by (apply int32_small; lia).
      assert (int32 (turnLatencyCount s + 1) = turnLatencyCount s + 1) as H3 by (apply int32_small; lia).
      unfold count_turn. cbv zeta.
      destruct (negb (IsZero (speechStoppedAt s)) && negb (IsZero (ev_OccurredAt e)) && (0 <=? Sub (ev_OccurredAt e) (speechStoppedAt s)))
        eqn:Hcounted; split; simpl; rewrite ?H1, ?H2, ?H3; auto; try lia.
      pose proof (Sub_counted _ s Hs Ho Hcounted) as Hlat.
      assert (int64 (totalTurnLatency s + Sub (ev_OccurredAt e) (speechStoppedAt s))
              = totalTurnLatency s + Sub (ev_OccurredAt e) (speechStoppedAt s)) as ->; [|nia].
      apply int64_id. unfold min_int64. unfold max_int64 in *. nia.
  - injection He as <- <-. simpl. split; [split; simpl; auto; try lia|].
    + rewrite Hnx. rewrite int32_small; lia.
    + intros c [= <-]. simpl. split; [done|]. split; [by left|]. repeat apply Forall_cons_2; simpl; auto.
Qed.
Definition assistants (ts : list TurnColumns) : Z := Z.of_nat (length (filter (fun t => is_assistant t = true) ts)).
Lemma assistants_cons t ts : assistants (t :: ts) = (if is_assistant t then 1 else 0) + assistants ts.
Proof. unfold assistants. rewrite filter_cons. case_decide as H; destruct (is_assistant t); simpl; try done; lia. Qed.

Lemma converse_after l n k a s ts s' :
  n + Z.of_nat (length l) < max_int32 -> d * (n + Z.of_nat (length l)) <= max_int64 -> Forall (op_within lo d) l ->
  after n k a s -> converse l s = (ts, s') ->
  after (n + Z.of_nat (length l)) (k + Z.of_nat (length ts)) (a + assistants ts) s'
  /\ tc_Sequence <$> ts = seqZ (1 + k) (Z.of_nat (length ts)) /\ Forall turn_ok ts.
Proof.
  revert n k a s ts. induction l as [|o l IH]; intros n k a s ts Hn Hd Hl Hs He; simpl in He.
  - injection He as <- <-. unfold assistants. simpl. rewrite !Z.add_0_r. done.
  - destruct (apply o s) as [t s1] eqn:Ho. destruct (converse l s1) as [ts1 s2] eqn:Hc.
    apply Forall_cons in Hl as [Hol Hl]. cbn [length] in Hn, Hd |- *. rewrite Nat2Z.inj_succ, <- Z.add_1_l, Z.add_assoc in Hn, Hd |- *.
    destruct (after_apply o n k a s t s1) as [Hs1 Ht]; [lia|nia|done..|].
    assert (s2 = s') as -> by (by injection He).
    destruct (IH (n + 1) (k + turn_count t) (a + assistant_count t) s1 ts1) as (Hs2 & Hseq & Hok); [lia|nia|done..|].
    assert (ts = match t with Some t => t :: ts1 | None => ts1 end) as -> by (by injection He).
    destruct t as [c|]; simpl turn_count in *; simpl assistant_count in *.
    + destruct (Ht c eq_refl) as [Hq Hcok]. split_and!.
      * cbn [length]. by rewrite Nat2Z.inj_succ, assistants_cons, <- Z.add_1_l, !Z.add_assoc.
      * cbn [length]. rewrite fmap_cons, Hq, seqZ_cons, Hseq by lia. f_equal. f_equal; lia.
      * by constructor.
    + rewrite !Z.add_0_r in *. done.
Qed.
Lemma after_summary n k a s : n < max_int32 -> after n k a s -> summary_ok (summary s).
Proof.
  intros Hn [_ Hk [Ha Hak] Hi Hc _ _ Ht]. unfold summary_ok, summary. simpl. split_and!; [lia|lia|done|].
  intros v. case_match eqn:Hz; [|done]. apply Z.ltb_lt in Hz. intros [= <-].
  unfold go_div. set (m := totalTurnLatency s ÷ Millisecond ÷ turnLatencyCount s).
  assert (0 <= m <= max_int32) as Hm; [|by rewrite int32_small].
  unfold m. rewrite Z.quot_quot by (unfold Millisecond; lia). split; [apply Z.quot_pos; unfold Millisecond; lia|].
  apply Z.quot_le_upper_bound; [unfold Millisecond; lia|].
  unfold Millisecond, max_int32 in *. nia.
Qed.
End Numbered.


(** A question, its answer and a tool, in milliseconds since one second. *)
Definition sample_event (type : string) (text : option string) (ms : Z) : Event := {|
  ev_Type := type; ev_Transcript := if bool_decide (type = EventTranscriptFinal) then text else None;
  ev_Response := if bool_decide (type = EventResponseDelta) then text else None; ev_ToolCall := None; ev_Usage := None;
  ev_Failure := None; ev_OccurredAt := Second + ms * Millisecond |}.
Definition sample_conversation : list operation :=
  [Observe (sample_event EventSpeechStarted None 0) 0; Observe (sample_event EventSpeechStopped None 900) 0;
   UserTurn (sample_event EventTranscriptFinal (Some " where is my order ") 1000) "stt";
   ToolTurn "lookup_order" "call-1" "{}" false; Observe (sample_event EventResponseStarted None 1400) 0;
   Observe (sample_event EventResponseDelta (Some "It is on its way.") 1500) 0;
   Observe (sample_event EventResponseStopped None 2900) 0;
   AssistantTurn (sample_event EventResponseStopped None 2900) "llm"]%string.
End ConversationState.
