(* ===== verification/AgentStore.v ===== *)
(** * Voice Agents: the state and its tables

    The rows of [migrations/017_create_voice_agents.sql],
    [025_create_voice_agent_tools.sql] to [029_create_ai_provider_credentials.sql],
    [035_promote_ai_provider_integrations.sql] and [036_add_voice_agent_activation.sql]
    with their constraints and triggers, and the statements of
    [database/queries/voice_agents.sql], [voice_agent_bindings.sql],
    [voice_agent_tools.sql], [voice_agent_tool_security.sql],
    [voice_agent_sessions.sql], [voice_agent_turns.sql] and
    [ai_provider_credentials.sql] that code calls. JSON columns hold the text they
    were given, the two arrays an activation builds are lists of records, and [ORDER
    BY] of a text column compares bytes. *)

From stdpp Require Import sorting.
From S2P Require Import Prelude Json MediaSession Programs RecordingStore ConversationState.
Local Open Scope Z_scope.

Module AgentStore.
Import Json Programs ConversationState.

(** Outside the repository: whether [jsonb] takes a text that is JSON, and what
    [encoding/json] writes for a text it has read. *)
Class AgentLib := {
  jsonb_accepts : list ascii -> bool;
  canonical : list ascii -> option (list ascii);
}.

(** ** Rows *)
Record BindingSnapshot := { bs_Role : string; bs_Provider : string; bs_CredentialID : UUID; bs_Config : list ascii }.
Record ToolSnapshot := { ts_ID : UUID; ts_Name : string; ts_Description : string; ts_Parameters : list ascii }.
(** The [active_] columns of an agent, which are set together, and the columns of a
    session that are copied from them. *)
Record Activation := {
  ac_Revision : Z; ac_Engine : string; ac_Instructions : string; ac_Voice : option string; ac_Language : option string;
  ac_EngineConfig : list ascii; ac_Interruption : string; ac_Recording : string;
  ac_Bindings : list BindingSnapshot; ac_Tools : list ToolSnapshot;
}.
Record VoiceAgent := {
  va_ID : UUID; va_OrganizationID : UUID; va_Name : string; va_Engine : string; va_Instructions : string;
  va_Voice : option string; va_Language : option string; va_Status : string; va_EngineConfig : list ascii;
  va_Preset : option string; va_PresetVersion : option Z; va_InterruptionPolicy : string; va_RecordingPolicy : string;
  va_ConfigurationRevision : Z; va_Active : option Activation; va_CreatedAt : Z; va_UpdatedAt : Z;
}.
Record VoiceAgentBinding := {
  bi_ID : UUID; bi_OrganizationID : UUID; bi_VoiceAgentID : UUID; bi_PhoneNumberID : UUID; bi_CreatedAt : Z;
}.
Record AiProviderCredential := {
  cr_ID : UUID; cr_OrganizationID : UUID; cr_Provider : string; cr_Name : string; cr_SecretCiphertext : string;
  cr_ConnectionState : string; cr_VerifiedAt : option Z; cr_FailureCode : option string; cr_CreatedAt : Z;
  cr_RotatedAt : Z; cr_UpdatedAt : Z;
}.
Record VoiceAgentProviderBinding := {
  pb_ID : UUID; pb_OrganizationID : UUID; pb_VoiceAgentID : UUID; pb_Role : string; pb_Provider : string;
  pb_CredentialID : UUID; pb_Config : list ascii; pb_CreatedAt : Z; pb_UpdatedAt : Z;
}.
Record VoiceAgentTool := {
  to_ID : UUID; to_OrganizationID : UUID; to_VoiceAgentID : UUID; to_Type : string; to_Name : string;
  to_Description : string; to_Parameters : list ascii; to_EndpointUrl : option string; to_TimeoutMs : Z;
  to_Enabled : bool; to_CreatedAt : Z; to_UpdatedAt : Z;
}.
Record VoiceAgentSession := {
  vs_ID : UUID; vs_OrganizationID : UUID; vs_CallID : UUID; vs_VoiceAgentID : UUID; vs_Config : Activation;
  vs_State : string; vs_TurnCount : Z; vs_InterruptionCount : Z; vs_FirstResponseLatencyMs : option Z;
  vs_AvgTurnLatencyMs : option Z; vs_StartedAt : Z; vs_EndedAt : option Z; vs_UpdatedAt : Z;
}.
Record VoiceAgentTurn := {
  vt_OrganizationID : UUID; vt_SessionID : UUID; vt_Sequence : Z; vt_Role : string; vt_Content : string;
  vt_ProviderID : option string; vt_ToolName : option string; vt_ToolCallID : option string; vt_Metadata : list ascii;
  vt_SpeechStartedAt : option Z; vt_SpeechEndedAt : option Z; vt_SttLatencyMs : option Z; vt_LlmTtftMs : option Z;
  vt_TtsTtfbMs : option Z; vt_TurnLatencyMs : option Z; vt_CreatedAt : Z;
}.
Record VoiceAgentToolExecution := {
  ex_ID : UUID; ex_OrganizationID : UUID; ex_SessionID : UUID; ex_VoiceAgentID : UUID; ex_ToolID : UUID;
  ex_CallID : UUID; ex_ToolCallID : string; ex_State : string; ex_Arguments : list ascii;
  ex_ResponseStatus : option Z; ex_ResponseContentType : option string; ex_ResponseBody : option (list ascii);
  ex_ErrorMessage : option string; ex_StartedAt : Z; ex_CompletedAt : option Z;
}.
(** The columns of a call that are read here. *)
Record CallRow := { c_OrganizationID : UUID; c_VoiceAgentID : option UUID; c_State : string; c_EndedAt : option Z }.
(** An action of a tool in the world: a request to its endpoint or a control of the
    call, made for a tool call of a session. *)
Record ToolAction := {
  ta_OrganizationID : UUID; ta_SessionID : UUID; ta_CallID : UUID; ta_ToolID : UUID; ta_ToolCallID : string;
  ta_What : string;
}.

(** ** The state

    [organizations]: whether one is active; [phones]: the organization of a phone
    number; [controls], [memory] and [callSessions]: the maps of the worker that
    handles the calls ([runtime/agent/runtime.go]): the control connection of a
    session, the pointer to what is remembered of it, and the session of a call;
    [heap]: what the pointers point to;
    [placed]: the configurations media nodes were sent, and [performed]: the actions
    of tools, which the theorems speak of. *)
Record State := {
  organizations : gmap UUID bool;
  calls : gmap UUID CallRow;
  phones : gmap UUID UUID;
  agents : gmap UUID VoiceAgent;
  bindings : gmap UUID VoiceAgentBinding;
  credentials : gmap UUID AiProviderCredential;
  provider_bindings : gmap (UUID * UUID * string) VoiceAgentProviderBinding;
  tools : gmap UUID VoiceAgentTool;
  tool_secrets : gmap UUID string;
  sessions : gmap UUID VoiceAgentSession;
  turns : gmap (UUID * Z) VoiceAgentTurn;
  executions : gmap UUID VoiceAgentToolExecution;
  controls : gmap UUID Z;
  memory : gmap UUID Z;
  heap : gmap Z conversationState;
  callSessions : gmap UUID UUID;
  placed : list MediaSession.Config;
  performed : list ToolAction;
  now : Z;
  next : Z;
}.
Definition set_agents (m : gmap UUID VoiceAgent) (s : State) : State :=
  {| organizations := organizations s; calls := calls s; phones := phones s; agents := m; bindings := bindings s;
     credentials := credentials s; provider_bindings := provider_bindings s; tools := tools s;
     tool_secrets := tool_secrets s; sessions := sessions s; turns := turns s; executions := executions s;
     controls := controls s; memory := memory s; heap := heap s; callSessions := callSessions s;
     placed := placed s; performed := performed s; now := now s; next := next s |}.
Definition set_bindings (m : gmap UUID VoiceAgentBinding) (s : State) : State :=
  {| organizations := organizations s; calls := calls s; phones := phones s; agents := agents s; bindings := m;
     credentials := credentials s; provider_bindings := provider_bindings s; tools := tools s;
     tool_secrets := tool_secrets s; sessions := sessions s; turns := turns s; executions := executions s;
     controls := controls s; memory := memory s; heap := heap s; callSessions := callSessions s;
     placed := placed s; performed := performed s; now := now s; next := next s |}.
Definition set_credentials (m : gmap UUID AiProviderCredential) (s : State) : State :=
  {| organizations := organizations s; calls := calls s; phones := phones s; agents := agents s; bindings := bindings s;
     credentials := m; provider_bindings := provider_bindings s; tools := tools s;
     tool_secrets := tool_secrets s; sessions := sessions s; turns := turns s; executions := executions s;
     controls := controls s; memory := memory s; heap := heap s; callSessions := callSessions s;
     placed := placed s; performed := performed s; now := now s; next := next s |}.
Definition set_provider_bindings (m : gmap (UUID * UUID * string) VoiceAgentProviderBinding) (s : State) : State :=
  {| organizations := organizations s; calls := calls s; phones := phones s; agents := agents s; bindings := bindings s;
     credentials := credentials s; provider_bindings := m; tools := tools s;
     tool_secrets := tool_secrets s; sessions := sessions s; turns := turns s; executions := executions s;
     controls := controls s; memory := memory s; heap := heap s; callSessions := callSessions s;
     placed := placed s; performed := performed s; now := now s; next := next s |}.
Definition set_tools (m : gmap UUID VoiceAgentTool) (s : State) : State :=
  {| organizations := organizations s; calls := calls s; phones := phones s; agents := agents s; bindings := bindings s;
     credentials := credentials s; provider_bindings := provider_bindings s; tools := m;
     tool_secrets := tool_secrets s; sessions := sessions s; turns := turns s; executions := executions s;
     controls := controls s; memory := memory s; heap := heap s; callSessions := callSessions s;
     placed := placed s; performed := performed s; now := now s; next := next s |}.
Definition set_tool_secrets (m : gmap UUID string) (s : State) : State :=
  {| organizations := organizations s; calls := calls s; phones := phones s; agents := agents s; bindings := bindings s;
     credentials := credentials s; provider_bindings := provider_bindings s; tools := tools s;
     tool_secrets := m; sessions := sessions s; turns := turns s; executions := executions s;
     controls := controls s; memory := memory s; heap := heap s; callSessions := callSessions s;
     placed := placed s; performed := performed s; now := now s; next := next s |}.
Definition set_sessions (m : gmap UUID VoiceAgentSession) (s : State) : State :=
  {| organizations := organizations s; calls := calls s; phones := phones s; agents := agents s; bindings := bindings s;
     credentials := credentials s; provider_bindings := provider_bindings s; tools := tools s;
     tool_secrets := tool_secrets s; sessions := m; turns := turns s; executions := executions s;
     controls := controls s; memory := memory s; heap := heap s; callSessions := callSessions s;
     placed := placed s; performed := performed s; now := now s; next := next s |}.
Definition set_turns (m : gmap (UUID * Z) VoiceAgentTurn) (s : State) : State :=
  {| organizations := organizations s; calls := calls s; phones := phones s; agents := agents s; bindings := bindings s;
     credentials := credentials s; provider_bindings := provider_bindings s; tools := tools s;
     tool_secrets := tool_secrets s; sessions := sessions s; turns := m; executions := executions s;
     controls := controls s; memory := memory s; heap := heap s; callSessions := callSessions s;
     placed := placed s; performed := performed s; now := now s; next := next s |}.
Definition set_executions (m : gmap UUID VoiceAgentToolExecution) (s : State) : State :=
  {| organizations := organizations s; calls := calls s; phones := phones s; agents := agents s; bindings := bindings s;
     credentials := credentials s; provider_bindings := provider_bindings s; tools := tools s;
     tool_secrets := tool_secrets s; sessions := sessions s; turns := turns s; executions := m;
     controls := controls s; memory := memory s; heap := heap s; callSessions := callSessions s;
     placed := placed s; performed := performed s; now := now s; next := next s |}.
Definition log_action (a : ToolAction) (s : State) : State :=
  {| organizations := organizations s; calls := calls s; phones := phones s; agents := agents s; bindings := bindings s;
     credentials := credentials s; provider_bindings := provider_bindings s; tools := tools s;
     tool_secrets := tool_secrets s; sessions := sessions s; turns := turns s; executions := executions s;
     controls := controls s; memory := memory s; heap := heap s; callSessions := callSessions s;
     placed := placed s; performed := performed s ++ [a]; now := now s; next := next s |}.
Definition set_worker (c : gmap UUID Z) (m : gmap UUID Z) (h : gmap Z conversationState) (cs : gmap UUID UUID) (s : State)
    : State :=
  {| organizations := organizations s; calls := calls s; phones := phones s; agents := agents s; bindings := bindings s;
     credentials := credentials s; provider_bindings := provider_bindings s; tools := tools s;
     tool_secrets := tool_secrets s; sessions := sessions s; turns := turns s; executions := executions s;
     controls := c; memory := m; heap := h; callSessions := cs;
     placed := placed s; performed := performed s; now := now s; next := next s |}.
Definition log_media (c : MediaSession.Config) (s : State) : State :=
  {| organizations := organizations s; calls := calls s; phones := phones s; agents := agents s; bindings := bindings s;
     credentials := credentials s; provider_bindings := provider_bindings s; tools := tools s;
     tool_secrets := tool_secrets s; sessions := sessions s; turns := turns s; executions := executions s;
     controls := controls s; memory := memory s; heap := heap s; callSessions := callSessions s;
     placed := placed s ++ [c]; performed := performed s; now := now s; next := next s |}.
(** Generated identifiers and reads of the random source are numbered. *)
Definition fresh (s : State) : Z * State :=
  (next s,
   {| organizations := organizations s; calls := calls s; phones := phones s; agents := agents s; bindings := bindings s;
      credentials := credentials s; provider_bindings := provider_bindings s; tools := tools s;
      tool_secrets := tool_secrets s; sessions := sessions s; turns := turns s; executions := executions s;
      controls := controls s; memory := memory s; heap := heap s; callSessions := callSessions s; placed := placed s;
      performed := performed s; now := now s; next := next s + 1 |}).
Definition time_now (s : State) : Z * State := (now s, s).
(** [rand.Read], which can fail. *)
Definition draw : prog State Z := call (fun s => let (n, s') := fresh s in (inl n, s')).

Definition rows_of {K} `{Countable K} {A} (m : gmap K A) : list A := snd <$> map_to_list m.
Definition some_row {A} (o : option A) : result A := match o with Some a => inl a | None => no_rows end.
Definition foreign_key (table : string) : error := PgError "23503" table.
Definition out_of_range : error := PgError "22003" "integer".
Definition length_between (lo hi : Z) (v : string) : bool :=
  RecordingStore.between lo hi (RecordingStore.btrim_length v) && is_text v.
Definition opt_between (lo hi : Z) (v : option string) : bool :=
  match v with Some v => length_between lo hi v | None => true end.
Definition opt_natural (z : option Z) : bool := match z with Some z => 0 <=? z | None => true end.
(** [o.status = 'active' AND o.deleted_at IS NULL]. *)
Definition org_active (s : State) (org : UUID) : bool := default false (organizations s !! org).
Definition or_else {A} (a b : option A) : option A := match a with Some _ => a | None => b end.

Section Store.
Context {L : AgentLib}.
(** [jsonb_typeof(v) = 'object']. *)
Definition json_text (v : list ascii) : bool := is_object v && jsonb_accepts v.

(** ** Voice Agents (voice_agents.sql) *)
Definition agent_engines : list string := ["composable"; "integrated"].
Definition agent_presets : list string := ["balanced"; "fast"; "high_intelligence"; "realtime"].
(** The constraints of a row; one that is [NULL] is not violated. *)
Definition preset_ok (preset : option string) (version : option Z) : bool :=
  match preset, version with
  | None, None => true
  | None, Some _ => false
  | Some p, Some v => bool_decide (p ∈ agent_presets) && (0 <? v)
  | Some p, None => bool_decide (p ∈ agent_presets)
  end.
Definition agent_row_ok (a : VoiceAgent) : bool :=
  length_between 1 255 (va_Name a) && bool_decide (va_Engine a ∈ agent_engines)
  && length_between 1 20000 (va_Instructions a) && opt_between 1 255 (va_Voice a)
  && opt_between 1 64 (va_Language a) && json_text (va_EngineConfig a)
  && preset_ok (va_Preset a) (va_PresetVersion a)
  && bool_decide (va_InterruptionPolicy a ∈ ["allow"; "disabled"]%string)
  && bool_decide (va_RecordingPolicy a ∈ ["none"; "all"]%string).
Definition agent_clash (a a' : VoiceAgent) : bool :=
  negb (bool_decide (va_ID a = va_ID a')) && bool_decide (va_OrganizationID a = va_OrganizationID a')
  && bool_decide (va_Name a = va_Name a').
Definition put_agent (a : VoiceAgent) (s : State) : result (VoiceAgent * State) :=
  if negb (agent_row_ok a) then inr (check_violation "voice_agents") else
  if negb (is_integer (va_ConfigurationRevision a)) then inr out_of_range else
  if existsb (agent_clash a) (rows_of (agents s)) then inr (unique_violation "uq_voice_agents_organization_name") else
  inl (a, set_agents (<[va_ID a := a]> (agents s)) s).
Definition own_agent (s : State) (org id : UUID) : option VoiceAgent :=
  match agents s !! id with
  | Some a => if bool_decide (va_OrganizationID a = org) then Some a else None
  | None => None
  end.
Definition live_agent (s : State) (org id : UUID) : option VoiceAgent :=
  match own_agent s org id with
  | Some a => if bool_decide (va_Status a = "active") then Some a else None
  | None => None
  end.
Definition open_agent (s : State) (org id : UUID) : option VoiceAgent :=
  if org_active s org then live_agent s org id else None.
(** The columns a client sets. *)
Record AgentColumns := {
  ag_Name : string; ag_Engine : string; ag_Instructions : string; ag_Voice : option string; ag_Language : option string;
  ag_EngineConfig : list ascii; ag_Preset : option string; ag_PresetVersion : option Z; ag_Interruption : string;
  ag_Recording : string;
}.
Definition with_columns (c : AgentColumns) (status : string) (revision : Z) (active : option Activation) (t : Z)
    (a : VoiceAgent) : VoiceAgent :=
  {| va_ID := va_ID a; va_OrganizationID := va_OrganizationID a; va_Name := ag_Name c; va_Engine := ag_Engine c;
     va_Instructions := ag_Instructions c; va_Voice := ag_Voice c; va_Language := ag_Language c; va_Status := status;
     va_EngineConfig := ag_EngineConfig c; va_Preset := ag_Preset c; va_PresetVersion := ag_PresetVersion c;
     va_InterruptionPolicy := ag_Interruption c; va_RecordingPolicy := ag_Recording c;
     va_ConfigurationRevision := revision; va_Active := active; va_CreatedAt := va_CreatedAt a; va_UpdatedAt := t |}.
Definition columns (a : VoiceAgent) : AgentColumns :=
  {| ag_Name := va_Name a; ag_Engine := va_Engine a; ag_Instructions := va_Instructions a; ag_Voice := va_Voice a;
     ag_Language := va_Language a; ag_EngineConfig := va_EngineConfig a; ag_Preset := va_Preset a;
     ag_PresetVersion := va_PresetVersion a; ag_Interruption := va_InterruptionPolicy a;
     ag_Recording := va_RecordingPolicy a |}.
Definition CreateVoiceAgent (org : UUID) (c : AgentColumns) (s : State) : result (VoiceAgent * State) :=
  if negb (org_active s org) then no_rows else
  let (id, s') := fresh s in
  put_agent {| va_ID := id; va_OrganizationID := org; va_Name := ag_Name c; va_Engine := ag_Engine c;
     va_Instructions := ag_Instructions c; va_Voice := ag_Voice c; va_Language := ag_Language c; va_Status := "active";
     va_EngineConfig := ag_EngineConfig c; va_Preset := ag_Preset c; va_PresetVersion := ag_PresetVersion c;
     va_InterruptionPolicy := ag_Interruption c; va_RecordingPolicy := ag_Recording c;
     va_ConfigurationRevision := 1; va_Active := None; va_CreatedAt := now s; va_UpdatedAt := now s |} s'.
Definition GetVoiceAgentByID (org id : UUID) (s : State) : result VoiceAgent := some_row (open_agent s org id).
Definition newest_agent (a b : VoiceAgent) : Prop := va_CreatedAt b <= va_CreatedAt a.
#[local] Instance newest_agent_dec : RelDecision newest_agent.
Proof. intros a b. unfold newest_agent. apply _. Defined.
Definition ListVoiceAgentsByOrganizationID (org : UUID) (s : State) : result (list VoiceAgent) :=
  inl (merge_sort newest_agent (filter (fun a => bool_decide (is_Some (open_agent s org (va_ID a))) = true)
    (rows_of (agents s)))).
(** [COALESCE(sqlc.narg(x), va.x)] for every column, and the preset under its flag. *)
Record AgentPatch := {
  pt_Name : option string; pt_Engine : option string; pt_Instructions : option string; pt_Voice : option string;
  pt_Language : option string; pt_EngineConfig : option (list ascii); pt_UpdatePreset : bool;
  pt_Preset : option string; pt_PresetVersion : option Z; pt_Interruption : option string; pt_Recording : option string;
}.
Definition patched (p : AgentPatch) (a : VoiceAgent) : AgentColumns :=
  {| ag_Name := default (va_Name a) (pt_Name p); ag_Engine := default (va_Engine a) (pt_Engine p);
     ag_Instructions := default (va_Instructions a) (pt_Instructions p); ag_Voice := or_else (pt_Voice p) (va_Voice a);
     ag_Language := or_else (pt_Language p) (va_Language a);
     ag_EngineConfig := default (va_EngineConfig a) (pt_EngineConfig p);
     ag_Preset := if pt_UpdatePreset p then pt_Preset p else va_Preset a;
     ag_PresetVersion := if pt_UpdatePreset p then pt_PresetVersion p else va_PresetVersion a;
     ag_Interruption := default (va_InterruptionPolicy a) (pt_Interruption p);
     ag_Recording := default (va_RecordingPolicy a) (pt_Recording p) |}.
Definition UpdateVoiceAgent (org id : UUID) (p : AgentPatch) (s : State) : result (VoiceAgent * State) :=
  match open_agent s org id with
  | Some a => put_agent (with_columns (patched p a) (va_Status a) (va_ConfigurationRevision a + 1) (va_Active a) (now s) a) s
  | None => no_rows
  end.
Definition DisableVoiceAgent (org id : UUID) (s : State) : result (unit * State) :=
  match open_agent s org id with
  | Some a => inl (tt, set_agents (<[id := with_columns (columns a) "disabled" (va_ConfigurationRevision a) (va_Active a)
                                            (now s) a]> (agents s)) s)
  | None => inl (tt, s)
  end.
(** The triggers [bump_voice_agent_revision_on_provider_binding] and [..._on_tool]. *)
Definition bump_voice_agent_configuration_revision (org id : UUID) (s : State) : result State :=
  match own_agent s org id with
  | Some a =>
      if negb (is_integer (va_ConfigurationRevision a + 1)) then inr out_of_range else
      inl (set_agents (<[id := with_columns (columns a) (va_Status a) (va_ConfigurationRevision a + 1) (va_Active a)
                                 (now s) a]> (agents s)) s)
  | None => inl s
  end.

(** *** Phone numbers of agents (voice_agent_bindings.sql) *)
Definition CreateVoiceAgentBinding (org agent phone : UUID) (s : State) : result (VoiceAgentBinding * State) :=
  match open_agent s org agent with
  | None => no_rows
  | Some _ =>
      if negb (bool_decide (phones s !! phone = Some org)) then inr (foreign_key "voice_agent_bindings") else
      if existsb (fun b => bool_decide (bi_PhoneNumberID b = phone)) (rows_of (bindings s))
      then inr (unique_violation "uq_voice_agent_bindings_phone_number") else
      let (id, s') := fresh s in
      let b := {| bi_ID := id; bi_OrganizationID := org; bi_VoiceAgentID := agent; bi_PhoneNumberID := phone;
                  bi_CreatedAt := now s |} in
      inl (b, set_bindings (<[id := b]> (bindings s)) s')
  end.
Definition newest_binding (a b : VoiceAgentBinding) : Prop := bi_CreatedAt b <= bi_CreatedAt a.
#[local] Instance newest_binding_dec : RelDecision newest_binding.
Proof. intros a b. unfold newest_binding. apply _. Defined.
Definition ListVoiceAgentBindingsByAgentID (org agent : UUID) (s : State) : result (list VoiceAgentBinding) :=
  match live_agent s org agent with
  | Some _ => inl (merge_sort newest_binding (filter (fun b =>
      bool_decide (bi_OrganizationID b = org) && bool_decide (bi_VoiceAgentID b = agent) = true) (rows_of (bindings s))))
  | None => inl []
  end.
Definition DeleteVoiceAgentBinding (org agent id : UUID) (s : State) : result (unit * State) :=
  match bindings s !! id with
  | Some b =>
      if bool_decide (bi_OrganizationID b = org) && bool_decide (bi_VoiceAgentID b = agent)
      then inl (tt, set_bindings (delete id (bindings s)) s) else inl (tt, s)
  | None => inl (tt, s)
  end.

(** ** Providers (ai_provider_credentials.sql) *)
Definition ai_providers : list string := ["openai"; "deepgram"; "groq"; "cartesia"].
Definition agent_roles : list string := ["realtime"; "stt"; "llm"; "tts"].
Definition connection_states : list string := ["unchecked"; "ready"; "invalid"; "unavailable"].
Definition credential_clash (c c' : AiProviderCredential) : bool :=
  bool_decide (cr_OrganizationID c = cr_OrganizationID c') && bool_decide (cr_Provider c = cr_Provider c')
  && bool_decide (cr_Name c = cr_Name c').
Definition CreateAIProviderCredential (id org : UUID) (provider name ciphertext : string) (s : State)
    : result (AiProviderCredential * State) :=
  let c := {| cr_ID := id; cr_OrganizationID := org; cr_Provider := provider; cr_Name := name;
              cr_SecretCiphertext := ciphertext; cr_ConnectionState := "unchecked"; cr_VerifiedAt := None;
              cr_FailureCode := None; cr_CreatedAt := now s; cr_RotatedAt := now s; cr_UpdatedAt := now s |} in
  if negb (bool_decide (provider ∈ ai_providers) && length_between 1 128 name
           && (1 <=? RecordingStore.btrim_length ciphertext) && is_text ciphertext)
  then inr (check_violation "ai_provider_credentials") else
  if bool_decide (is_Some (credentials s !! id)) then inr (unique_violation "ai_provider_credentials_pkey") else
  if existsb (credential_clash c) (rows_of (credentials s)) then inr (unique_violation "uq_ai_provider_credentials_name") else
  if negb (bool_decide (is_Some (organizations s !! org))) then inr (foreign_key "ai_provider_credentials") else
  inl (c, set_credentials (<[id := c]> (credentials s)) s).
Definition by_provider (a b : AiProviderCredential) : Prop :=
  cr_Provider a <> cr_Provider b /\ String.le (cr_Provider a) (cr_Provider b) \/
  cr_Provider a = cr_Provider b /\ (cr_Name a <> cr_Name b /\ String.le (cr_Name a) (cr_Name b) \/
                                    cr_Name a = cr_Name b /\ cr_CreatedAt a <= cr_CreatedAt b).
#[local] Instance by_provider_dec : RelDecision by_provider.
Proof. intros a b. unfold by_provider. apply _. Defined.
Definition ListAIProviderCredentials (org : UUID) (s : State) : result (list AiProviderCredential) :=
  inl (merge_sort by_provider (filter (fun c => cr_OrganizationID c = org) (rows_of (credentials s)))).
Definition own_credential (s : State) (org id : UUID) : option AiProviderCredential :=
  match credentials s !! id with
  | Some c => if bool_decide (cr_OrganizationID c = org) then Some c else None
  | None => None
  end.
Definition GetAIProviderCredential (org id : UUID) (s : State) : result AiProviderCredential :=
  some_row (own_credential s org id).
Definition with_connection (ciphertext state : string) (verified : option Z) (failure : option string) (rotated t : Z)
    (c : AiProviderCredential) : AiProviderCredential :=
  {| cr_ID := cr_ID c; cr_OrganizationID := cr_OrganizationID c; cr_Provider := cr_Provider c; cr_Name := cr_Name c;
     cr_SecretCiphertext := ciphertext; cr_ConnectionState := state; cr_VerifiedAt := verified;
     cr_FailureCode := failure; cr_CreatedAt := cr_CreatedAt c; cr_RotatedAt := rotated; cr_UpdatedAt := t |}.
Definition RotateAIProviderCredential (org id : UUID) (ciphertext : string) (s : State)
    : result (AiProviderCredential * State) :=
  match own_credential s org id with
  | None => no_rows
  | Some c =>
      if negb ((1 <=? RecordingStore.btrim_length ciphertext) && is_text ciphertext)
      then inr (check_violation "chk_ai_provider_credentials_secret") else
      let c' := with_connection ciphertext "unchecked" None None (now s) (now s) c in
      inl (c', set_credentials (<[id := c']> (credentials s)) s)
  end.
Definition UpdateAIProviderCredentialVerification (org id : UUID) (state : string) (failure : option string) (s : State)
    : result (AiProviderCredential * State) :=
  match own_credential s org id with
  | None => no_rows
  | Some c =>
      if negb (bool_decide (state ∈ connection_states) && opt_between 1 64 failure)
      then inr (check_violation "chk_ai_provider_credentials_connection_state") else
      let c' := with_connection (cr_SecretCiphertext c) state (Some (now s)) failure (cr_RotatedAt c) (now s) c in
      inl (c', set_credentials (<[id := c']> (credentials s)) s)
  end.
Definition uses_credential (org id : UUID) (b : VoiceAgentProviderBinding) : bool :=
  bool_decide (pb_OrganizationID b = org) && bool_decide (pb_CredentialID b = id).
Definition ListVoiceAgentIDsByAIProviderCredential (org id : UUID) (s : State) : result (list UUID) :=
  inl (merge_sort Z.le (pb_VoiceAgentID <$> filter (fun b => uses_credential org id b = true) (rows_of (provider_bindings s)))).
(** [ON DELETE RESTRICT] of the bindings. *)
Definition DeleteAIProviderCredential (org id : UUID) (s : State) : result (unit * State) :=
  match own_credential s org id with
  | None => inl (tt, s)
  | Some _ =>
      if existsb (uses_credential org id) (rows_of (provider_bindings s))
      then inr (foreign_key "fk_voice_agent_provider_bindings_credential_scope")
      else inl (tt, set_credentials (delete id (credentials s)) s)
  end.
Definition UpsertVoiceAgentProviderBinding (org agent : UUID) (role provider : string) (credential : UUID)
    (config : list ascii) (s : State) : result (VoiceAgentProviderBinding * State) :=
  if negb (bool_decide (role ∈ agent_roles) && bool_decide (provider ∈ ai_providers) && json_text config)
  then inr (check_violation "voice_agent_provider_bindings") else
  if negb (bool_decide (is_Some (own_agent s org agent)) && bool_decide (is_Some (own_credential s org credential)))
  then inr (foreign_key "voice_agent_provider_bindings") else
  let (id, s') := match provider_bindings s !! (org, agent, role) with
                  | Some b => (pb_ID b, s) | None => fresh s end in
  let created := match provider_bindings s !! (org, agent, role) with Some b => pb_CreatedAt b | None => now s end in
  let b := {| pb_ID := id; pb_OrganizationID := org; pb_VoiceAgentID := agent; pb_Role := role; pb_Provider := provider;
              pb_CredentialID := credential; pb_Config := config; pb_CreatedAt := created; pb_UpdatedAt := now s |} in
  let? s'' := bump_voice_agent_configuration_revision org agent
                (set_provider_bindings (<[(org, agent, role) := b]> (provider_bindings s)) s') in
  inl (b, s'').
Definition by_role (a b : VoiceAgentProviderBinding) : Prop := String.le (pb_Role a) (pb_Role b).
#[local] Instance by_role_dec : RelDecision by_role.
Proof. intros a b. unfold by_role. apply _. Defined.
Definition of_agent (org agent : UUID) (b : VoiceAgentProviderBinding) : bool :=
  bool_decide (pb_OrganizationID b = org) && bool_decide (pb_VoiceAgentID b = agent).
Definition bindings_of (s : State) (org agent : UUID) : list VoiceAgentProviderBinding :=
  merge_sort by_role (filter (fun b => of_agent org agent b = true) (rows_of (provider_bindings s))).
Definition ListVoiceAgentProviderBindings (org agent : UUID) (s : State) : result (list VoiceAgentProviderBinding) :=
  inl (bindings_of s org agent).
Definition DeleteVoiceAgentProviderBinding (org agent : UUID) (role : string) (s : State) : result (unit * State) :=
  match provider_bindings s !! (org, agent, role) with
  | None => inl (tt, s)
  | Some _ =>
      let? s' := bump_voice_agent_configuration_revision org agent
                   (set_provider_bindings (delete (org, agent, role) (provider_bindings s)) s) in
      inl (tt, s')
  end.
Definition ResolveVoiceAgentProviderBindings (org agent : UUID) (s : State)
    : result (list (VoiceAgentProviderBinding * string)) :=
  inl (omap (fun b => match own_credential s org (pb_CredentialID b) with
                      | Some c => Some (b, cr_SecretCiphertext c) | None => None end) (bindings_of s org agent)).

(** *** Activation *)
Definition by_tool_name (a b : VoiceAgentTool) : Prop := String.le (to_Name a) (to_Name b).
#[local] Instance by_tool_name_dec : RelDecision by_tool_name.
Proof. intros a b. unfold by_tool_name. apply _. Defined.
Definition tool_of_agent (org agent : UUID) (t : VoiceAgentTool) : bool :=
  bool_decide (to_OrganizationID t = org) && bool_decide (to_VoiceAgentID t = agent).
Definition binding_snapshot (b : VoiceAgentProviderBinding) : BindingSnapshot :=
  {| bs_Role := pb_Role b; bs_Provider := pb_Provider b; bs_CredentialID := pb_CredentialID b; bs_Config := pb_Config b |}.
Definition tool_snapshot (t : VoiceAgentTool) : ToolSnapshot :=
  {| ts_ID := to_ID t; ts_Name := to_Name t; ts_Description := to_Description t; ts_Parameters := to_Parameters t |}.
Definition activation (s : State) (a : VoiceAgent) : Activation :=
  {| ac_Revision := va_ConfigurationRevision a; ac_Engine := va_Engine a; ac_Instructions := va_Instructions a;
     ac_Voice := va_Voice a; ac_Language := va_Language a; ac_EngineConfig := va_EngineConfig a;
     ac_Interruption := va_InterruptionPolicy a; ac_Recording := va_RecordingPolicy a;
     ac_Bindings := binding_snapshot <$> bindings_of s (va_OrganizationID a) (va_ID a);
     ac_Tools := tool_snapshot <$> merge_sort by_tool_name (filter (fun t =>
       tool_of_agent (va_OrganizationID a) (va_ID a) t && to_Enabled t = true) (rows_of (tools s))) |}.
Definition integrated_pair (b : VoiceAgentProviderBinding) : bool :=
  bool_decide ((pb_Role b, pb_Provider b) = ("realtime", "openai")%string).
Definition composable_pair (b : VoiceAgentProviderBinding) : bool :=
  bool_decide ((pb_Role b, pb_Provider b) ∈ [("stt", "deepgram"); ("llm", "groq"); ("tts", "cartesia")]%string).
Definition count (p : VoiceAgentProviderBinding -> bool) (l : list VoiceAgentProviderBinding) : nat :=
  length (filter (fun b => p b = true) l).
(** The [WHERE] clause over the bindings: their integrations are ready, and they are
    those of the engine. *)
Definition activatable (s : State) (a : VoiceAgent) : bool :=
  let l := bindings_of s (va_OrganizationID a) (va_ID a) in
  negb (existsb (fun b => match own_credential s (pb_OrganizationID b) (pb_CredentialID b) with
                          | Some c => negb (bool_decide (cr_ConnectionState c = "ready")) | None => false end) l)
  && (bool_decide (va_Engine a = "integrated") && bool_decide (count integrated_pair l = 1%nat)
      && bool_decide (length l = 1%nat)
      || bool_decide (va_Engine a = "composable") && bool_decide (count composable_pair l = 3%nat)
      && bool_decide (length l = 3%nat)).
Definition ActivateVoiceAgent (org id : UUID) (s : State) : result (VoiceAgent * State) :=
  match live_agent s org id with
  | None => no_rows
  | Some a =>
      if negb (activatable s a) then no_rows else
      let a' := with_columns (columns a) (va_Status a) (va_ConfigurationRevision a) (Some (activation s a)) (now s) a in
      inl (a', set_agents (<[id := a']> (agents s)) s)
  end.

(** ** Tools (voice_agent_tools.sql, voice_agent_tool_security.sql) *)
Definition endpoint_ok (type : string) (url : option string) : bool :=
  match url with
  | None => true
  | Some u => bool_decide (type = "webhook") && (HasPrefix u "http://" || HasPrefix u "https://") && is_text u
  end.
Definition tool_row_ok (t : VoiceAgentTool) : bool :=
  bool_decide (to_Type t ∈ ["builtin"; "webhook"]%string) && length_between 1 128 (to_Name t)
  && length_between 1 2000 (to_Description t) && json_text (to_Parameters t)
  && endpoint_ok (to_Type t) (to_EndpointUrl t) && RecordingStore.between 100 30000 (to_TimeoutMs t).
Definition tool_clash (t t' : VoiceAgentTool) : bool :=
  negb (bool_decide (to_ID t = to_ID t')) && bool_decide (to_VoiceAgentID t = to_VoiceAgentID t')
  && bool_decide (to_Name t = to_Name t').
(** The row and its constraints, then the trigger. *)
Definition put_tool (t : VoiceAgentTool) (s : State) : result State :=
  if negb (tool_row_ok t) then inr (check_violation "voice_agent_tools") else
  if existsb (tool_clash t) (rows_of (tools s)) then inr (unique_violation "uq_voice_agent_tools_agent_name") else
  bump_voice_agent_configuration_revision (to_OrganizationID t) (to_VoiceAgentID t)
    (set_tools (<[to_ID t := t]> (tools s)) s).
Record ToolColumns := {
  tl_Name : string; tl_Description : string; tl_Parameters : list ascii; tl_EndpointUrl : option string;
  tl_TimeoutMs : Z; tl_Enabled : bool;
}.
Definition tool_row (id org agent : UUID) (type : string) (c : ToolColumns) (created t : Z) : VoiceAgentTool :=
  {| to_ID := id; to_OrganizationID := org; to_VoiceAgentID := agent; to_Type := type; to_Name := tl_Name c;
     to_Description := tl_Description c; to_Parameters := tl_Parameters c; to_EndpointUrl := tl_EndpointUrl c;
     to_TimeoutMs := tl_TimeoutMs c; to_Enabled := tl_Enabled c; to_CreatedAt := created; to_UpdatedAt := t |}.
Definition CreateVoiceAgentTool (org agent : UUID) (type : string) (c : ToolColumns) (s : State)
    : result (VoiceAgentTool * State) :=
  match open_agent s org agent with
  | None => no_rows
  | Some _ =>
      let (id, s') := fresh s in
      let t := tool_row id org agent type c (now s) (now s) in
      let? s'' := put_tool t s' in inl (t, s'')
  end.
Definition put_secret (id : UUID) (ciphertext : string) (s : State) : result State :=
  if negb ((1 <=? RecordingStore.btrim_length ciphertext) && is_text ciphertext)
  then inr (check_violation "chk_voice_agent_tool_secrets_ciphertext")
  else inl (set_tool_secrets (<[id := ciphertext]> (tool_secrets s)) s).
Definition CreateVoiceAgentWebhookTool (id org agent : UUID) (c : ToolColumns) (ciphertext : string) (s : State)
    : result (UUID * State) :=
  match open_agent s org agent with
  | None => no_rows
  | Some _ =>
      if bool_decide (is_Some (tools s !! id)) then inr (unique_violation "voice_agent_tools_pkey") else
      let? s' := put_tool (tool_row id org agent "webhook" c (now s) (now s)) s in
      let? s'' := put_secret id ciphertext s' in inl (id, s'')
  end.
(** A tool of an active agent of an active organization. *)
Definition open_tool (s : State) (org agent id : UUID) : option VoiceAgentTool :=
  match tools s !! id, open_agent s org agent with
  | Some t, Some _ => if tool_of_agent org agent t then Some t else None
  | _, _ => None
  end.
Definition GetVoiceAgentToolByID (org agent id : UUID) (s : State) : result VoiceAgentTool :=
  some_row (open_tool s org agent id).
Definition oldest_tool (a b : VoiceAgentTool) : Prop := to_CreatedAt a <= to_CreatedAt b.
#[local] Instance oldest_tool_dec : RelDecision oldest_tool.
Proof. intros a b. unfold oldest_tool. apply _. Defined.
Definition ListVoiceAgentToolsByAgentID (org agent : UUID) (s : State) : result (list VoiceAgentTool) :=
  inl (merge_sort oldest_tool (filter (fun t => bool_decide (is_Some (open_tool s org agent (to_ID t))) = true)
    (rows_of (tools s)))).
Record ToolPatch := {
  tp_Name : option string; tp_Description : option string; tp_Parameters : option (list ascii);
  tp_EndpointUrl : option string; tp_TimeoutMs : option Z; tp_Enabled : option bool;
}.
Definition tool_patched (p : ToolPatch) (t : VoiceAgentTool) : ToolColumns :=
  {| tl_Name := default (to_Name t) (tp_Name p); tl_Description := default (to_Description t) (tp_Description p);
     tl_Parameters := default (to_Parameters t) (tp_Parameters p);
     tl_EndpointUrl := or_else (tp_EndpointUrl p) (to_EndpointUrl t);
     tl_TimeoutMs := default (to_TimeoutMs t) (tp_TimeoutMs p); tl_Enabled := default (to_Enabled t) (tp_Enabled p) |}.
Definition UpdateVoiceAgentTool (org agent id : UUID) (p : ToolPatch) (s : State) : result (VoiceAgentTool * State) :=
  match open_tool s org agent id with
  | None => no_rows
  | Some t =>
      let t' := tool_row (to_ID t) org agent (to_Type t) (tool_patched p t) (to_CreatedAt t) (now s) in
      let? s' := put_tool t' s in inl (t', s')
  end.
(** [ON DELETE CASCADE]: its secret and its executions go with it. *)
Definition DeleteVoiceAgentTool (org agent id : UUID) (s : State) : result (unit * State) :=
  match open_tool s org agent id with
  | None => inl (tt, s)
  | Some _ =>
      let? s' := bump_voice_agent_configuration_revision org agent
        (set_tools (delete id (tools s)) (set_tool_secrets (delete id (tool_secrets s))
          (set_executions (filter (fun x => ex_ToolID (snd x) <> id) (executions s)) s))) in
      inl (tt, s')
  end.
Definition GetVoiceAgentToolSigningSecret (org agent id : UUID) (s : State) : result string :=
  match open_tool s org agent id with
  | Some t => if bool_decide (to_Type t = "webhook") && to_Enabled t then some_row (tool_secrets s !! id) else no_rows
  | None => no_rows
  end.
(** [:execrows]. *)
Definition RotateVoiceAgentToolSigningSecret (org agent id : UUID) (ciphertext : string) (s : State)
    : result (Z * State) :=
  match open_tool s org agent id with
  | Some t => if bool_decide (to_Type t = "webhook")
              then let? s' := put_secret id ciphertext s in inl (1, s') else inl (0, s)
  | None => inl (0, s)
  end.

(** ** Sessions (voice_agent_sessions.sql) *)
Definition is_active (x : VoiceAgentSession) : bool := bool_decide (vs_State x = "active").
Definition active_on (call : UUID) (x : VoiceAgentSession) : bool := bool_decide (vs_CallID x = call) && is_active x.
(** The constraints on the columns copied from the agent are the agent's own. *)
Definition CreateVoiceAgentSession (org call agent : UUID) (s : State) : result (VoiceAgentSession * State) :=
  match calls s !! call, open_agent s org agent with
  | Some c, Some a =>
      if negb (bool_decide (c_OrganizationID c = org) && bool_decide (c_VoiceAgentID c = Some agent)
               && bool_decide (c_State c ∈ ["answered"; "active"]%string) && bool_decide (c_EndedAt c = None))
      then no_rows else
      match va_Active a with
      | None => no_rows
      | Some cfg =>
          if existsb (active_on call) (rows_of (sessions s)) then inr (unique_violation "uq_voice_agent_sessions_active_call") else
          let (id, s') := fresh s in
          let x := {| vs_ID := id; vs_OrganizationID := org; vs_CallID := call; vs_VoiceAgentID := agent; vs_Config := cfg;
                      vs_State := "active"; vs_TurnCount := 0; vs_InterruptionCount := 0;
                      vs_FirstResponseLatencyMs := None; vs_AvgTurnLatencyMs := None; vs_StartedAt := now s;
                      vs_EndedAt := None; vs_UpdatedAt := now s |} in
          inl (x, set_sessions (<[id := x]> (sessions s)) s')
      end
  | _, _ => no_rows
  end.
Definition GetActiveVoiceAgentSessionByCallID (org call : UUID) (s : State) : result VoiceAgentSession :=
  if org_active s org
  then some_row (find (fun x => bool_decide (vs_OrganizationID x = org) && active_on call x) (rows_of (sessions s)))
  else no_rows.
Definition own_session (s : State) (org id : UUID) : option VoiceAgentSession :=
  match sessions s !! id with
  | Some x => if bool_decide (vs_OrganizationID x = org) && is_active x then Some x else None
  | None => None
  end.
Definition CompleteVoiceAgentSession (org id : UUID) (state : string) (u : SessionSummary) (ended : Z) (s : State)
    : result (VoiceAgentSession * State) :=
  match own_session s org id with
  | None => no_rows
  | Some x =>
      if negb (bool_decide (state ∈ ["completed"; "failed"; "cancelled"]%string) && (0 <=? su_TurnCount u)
               && (0 <=? su_InterruptionCount u) && opt_natural (su_FirstResponseLatencyMs u)
               && opt_natural (su_AvgTurnLatencyMs u) && (vs_StartedAt x <=? ended))
      then inr (check_violation "voice_agent_sessions") else
      let x' := {| vs_ID := vs_ID x; vs_OrganizationID := vs_OrganizationID x; vs_CallID := vs_CallID x;
                   vs_VoiceAgentID := vs_VoiceAgentID x; vs_Config := vs_Config x; vs_State := state;
                   vs_TurnCount := su_TurnCount u; vs_InterruptionCount := su_InterruptionCount u;
                   vs_FirstResponseLatencyMs := su_FirstResponseLatencyMs u; vs_AvgTurnLatencyMs := su_AvgTurnLatencyMs u;
                   vs_StartedAt := vs_StartedAt x; vs_EndedAt := Some ended; vs_UpdatedAt := now s |} in
      inl (x', set_sessions (<[id := x']> (sessions s)) s)
  end.

(** *** Turns (voice_agent_turns.sql) *)
Definition turn_row_ok (c : TurnColumns) : bool :=
  (0 <? tc_Sequence c) && bool_decide (tc_Role c ∈ ["user"; "assistant"; "tool"; "system"]%string)
  && ((0 <? RecordingStore.btrim_length (tc_Content c)) || bool_decide (is_Some (tc_ToolCallID c)))
  && (negb (bool_decide (tc_Role c = "tool")) || bool_decide (is_Some (tc_ToolCallID c)))
  && json_text (tc_Metadata c)
  && match tc_SpeechStartedAt c, tc_SpeechEndedAt c with Some a, Some b => a <=? b | _, _ => true end
  && opt_natural (tc_SttLatencyMs c) && opt_natural (tc_LlmTtftMs c) && opt_natural (tc_TtsTtfbMs c)
  && opt_natural (tc_TurnLatencyMs c)
  && is_text (tc_Content c) && opt_text (tc_ProviderID c) && opt_text (tc_ToolName c) && opt_text (tc_ToolCallID c).
Definition CreateVoiceAgentTurn (org session : UUID) (c : TurnColumns) (s : State) : result (VoiceAgentTurn * State) :=
  if negb (org_active s org && bool_decide (is_Some (own_session s org session))) then no_rows else
  if negb (turn_row_ok c) then inr (check_violation "voice_agent_turns") else
  if bool_decide (is_Some (turns s !! (session, tc_Sequence c)))
  then inr (unique_violation "uq_voice_agent_turns_session_sequence") else
  let t := {| vt_OrganizationID := org; vt_SessionID := session; vt_Sequence := tc_Sequence c; vt_Role := tc_Role c;
              vt_Content := tc_Content c; vt_ProviderID := tc_ProviderID c; vt_ToolName := tc_ToolName c;
              vt_ToolCallID := tc_ToolCallID c; vt_Metadata := tc_Metadata c; vt_SpeechStartedAt := tc_SpeechStartedAt c;
              vt_SpeechEndedAt := tc_SpeechEndedAt c; vt_SttLatencyMs := tc_SttLatencyMs c;
              vt_LlmTtftMs := tc_LlmTtftMs c; vt_TtsTtfbMs := tc_TtsTtfbMs c; vt_TurnLatencyMs := tc_TurnLatencyMs c;
              vt_CreatedAt := now s |} in
  inl (t, set_turns (<[(session, tc_Sequence c) := t]> (turns s)) s).
Definition by_sequence (a b : VoiceAgentTurn) : Prop := vt_Sequence a <= vt_Sequence b.
#[local] Instance by_sequence_dec : RelDecision by_sequence.
Proof. intros a b. unfold by_sequence. apply _. Defined.
Definition ListVoiceAgentTurnsBySessionID (org session : UUID) (s : State) : result (list VoiceAgentTurn) :=
  inl (merge_sort by_sequence (filter (fun t => bool_decide (vt_OrganizationID t = org)
    && bool_decide (vt_SessionID t = session) = true) (rows_of (turns s)))).

(** *** Executions of tools (voice_agent_tool_security.sql) *)
Definition same_call (org session : UUID) (toolCallID : string) (e : VoiceAgentToolExecution) : bool :=
  bool_decide (ex_OrganizationID e = org) && bool_decide (ex_SessionID e = session)
  && bool_decide (ex_ToolCallID e = toolCallID).
(** A row that is there already is left alone, and none is returned. *)
Definition ClaimVoiceAgentToolExecution (org session agent tool call : UUID) (toolCallID : string)
    (arguments : list ascii) (s : State) : result (UUID * State) :=
  match own_session s org session, tools s !! tool with
  | Some x, Some t =>
      if negb (bool_decide (vs_VoiceAgentID x = agent) && bool_decide (vs_CallID x = call)
               && tool_of_agent org agent t && to_Enabled t && org_active s org) then no_rows else
      if negb (negb (bool_decide (call = uuid_Nil)) && length_between 1 255 toolCallID && json_text arguments)
      then inr (check_violation "voice_agent_tool_executions") else
      if existsb (same_call org session toolCallID) (rows_of (executions s)) then no_rows else
      let (id, s') := fresh s in
      let e := {| ex_ID := id; ex_OrganizationID := org; ex_SessionID := session; ex_VoiceAgentID := agent;
                  ex_ToolID := tool; ex_CallID := call; ex_ToolCallID := toolCallID; ex_State := "processing";
                  ex_Arguments := arguments; ex_ResponseStatus := None; ex_ResponseContentType := None;
                  ex_ResponseBody := None; ex_ErrorMessage := None; ex_StartedAt := now s; ex_CompletedAt := None |} in
      inl (id, set_executions (<[id := e]> (executions s)) s')
  | _, _ => no_rows
  end.
Definition GetVoiceAgentToolExecution (org session : UUID) (toolCallID : string) (s : State)
    : result VoiceAgentToolExecution :=
  some_row (find (same_call org session toolCallID) (rows_of (executions s))).
Definition with_answer (state : string) (status : option Z) (contentType : option string) (body : option (list ascii))
    (message : option string) (t : Z) (e : VoiceAgentToolExecution) : VoiceAgentToolExecution :=
  {| ex_ID := ex_ID e; ex_OrganizationID := ex_OrganizationID e; ex_SessionID := ex_SessionID e;
     ex_VoiceAgentID := ex_VoiceAgentID e; ex_ToolID := ex_ToolID e; ex_CallID := ex_CallID e;
     ex_ToolCallID := ex_ToolCallID e; ex_State := state; ex_Arguments := ex_Arguments e; ex_ResponseStatus := status;
     ex_ResponseContentType := contentType; ex_ResponseBody := body; ex_ErrorMessage := message;
     ex_StartedAt := ex_StartedAt e; ex_CompletedAt := Some t |}.
Definition processing (s : State) (org id : UUID) : option VoiceAgentToolExecution :=
  match executions s !! id with
  | Some e => if bool_decide (ex_OrganizationID e = org) && bool_decide (ex_State e = "processing") then Some e else None
  | None => None
  end.
Definition MarkVoiceAgentToolExecutionSucceeded (org id : UUID) (status : Z) (contentType : string) (body : list ascii)
    (s : State) : result (Z * State) :=
  match processing s org id with
  | None => inl (0, s)
  | Some e =>
      if negb (RecordingStore.between 100 599 status && is_text contentType)
      then inr (check_violation "chk_voice_agent_tool_executions_response_status") else
      inl (1, set_executions (<[id := with_answer "succeeded" (Some status) (Some contentType) (Some body) None (now s) e]>
                (executions s)) s)
  end.
Definition MarkVoiceAgentToolExecutionFailed (org id : UUID) (message : string) (s : State) : result (Z * State) :=
  match processing s org id with
  | None => inl (0, s)
  | Some e =>
      if negb (is_text message) then inr (PgError "22021" "voice_agent_tool_executions") else
      inl (1, set_executions (<[id := with_answer "failed" (ex_ResponseStatus e) (ex_ResponseContentType e)
                                        (ex_ResponseBody e) (Some message) (now s) e]> (executions s)) s)
  end.
End Store.
End AgentStore.
