(* ===== verification/AgentProviders.v ===== *)
(** * AI providers of Voice Agents

    [ai/providers]: the secrets tenants store for speech and language services, the
    check of a secret with its service, the services an agent is bound to, and the
    secrets handed to a conversation. *)

From S2P Require Import Prelude Json JsonValues Encryption Programs Routing Secrets AgentStore.
Local Open Scope Z_scope.

Module AgentProviders.
Import AppErr Json JsonValues Encryption Programs Secrets AgentStore.

Definition NewInternal0 (message : string) : error := AppError "INTERNAL_ERROR" message 500 None.
Definition NewUnavailable0 (message : string) : error := AppError "SERVICE_UNAVAILABLE" message 503 None.
(** [dbError], and [conflict] with the error it becomes. *)
Definition dbError (message : string) (e : error) : error :=
  if errors_Is e ErrNoRows then NewNotFound message else NewInternal message e.
Definition conflict (e : error) : bool := bool_decide (errors_As_Pg e = Some "23505"%string).
Definition conflict_or (conflicting message : string) (e : error) : error :=
  if conflict e then NewConflict conflicting else dbError message e.
Definition is_nil (id : UUID) : bool := bool_decide (id = uuid_Nil).
Definition len (s : string) : Z := Z.of_nat (String.length s).

(** ** Requests and results (model.go) *)
Definition ConnectionReady : string := "ready".
Definition ConnectionInvalid : string := "invalid".
Definition ConnectionUnavailable : string := "unavailable".
Record BindingStatus := {
  st_Role : string; st_Provider : string; st_IntegrationID : UUID; st_ConnectionState : string;
  st_FailureCode : option string; st_Config : list ascii;
}.
Record ResolvedBinding := { rb_Role : string; rb_Provider : string; rb_APIKey : string; rb_Config : list ascii }.

(** ** Validation (service.go) *)
Definition validProvider (p : string) : bool := bool_decide (p ∈ ai_providers).
Definition validRole (r : string) : bool := bool_decide (r ∈ agent_roles).
Definition roleProviderCompatible (role provider : string) : bool :=
  bool_decide ((role, provider) ∈ [("realtime", "openai"); ("stt", "deepgram"); ("llm", "groq"); ("tts", "cartesia")]%string).
(** The fields of a configuration, and whether each is a string. *)
Definition allowed_fields (provider : string) : option (list (string * bool)) :=
  if bool_decide (provider = "deepgram") then Some [("model", true); ("language", true)]%string else
  if bool_decide (provider = "groq") then Some [("model", true); ("temperature", false)]%string else
  if bool_decide (provider = "cartesia") then Some [("model", true); ("voice_id", true); ("language", true)]%string else
  if bool_decide (provider = "openai") then Some [("model", true); ("voice", true)]%string else None.
Definition field_kind (allowed : list (string * bool)) (key : string) : option bool :=
  snd <$> find (fun kv => bool_decide (fst kv = key)) allowed.
(** [json.Unmarshal] of a member into a string or a [float64]. *)
Definition decodes (is_string : bool) (raw : list ascii) : bool :=
  is_null_text raw || (if is_string then is_string_text raw else is_number_text raw && float64_ok raw).
Fixpoint check_fields (allowed : list (string * bool)) (fields : list (string * list ascii)) : result unit :=
  match fields with
  | [] => inl tt
  | (key, raw) :: rest =>
      match field_kind allowed key with
      | None => inr (NewBadRequest ("unsupported provider config field: " +:+ key))
      | Some is_string =>
          if decodes is_string raw then check_fields allowed rest
          else inr (NewBadRequest ("invalid provider config field: " +:+ key))
      end
  end.
Definition validateProviderConfig (provider : string) (value : list ascii) : result unit :=
  if negb (is_object value) then inr (NewBadRequest "provider config must be a JSON object") else
  match allowed_fields provider with
  | None => inr (NewBadRequest "unsupported AI provider")
  | Some allowed => check_fields allowed (map_to_list (member_map value))
  end.

Section Service.
Context {L : AgentLib} {U : UuidLib} {A : AEAD} {X : SecretLib}.
(** Whether the server has an encryption key. *)
Context (cipher : bool).

Definition credentialScope (org id : UUID) : string :=
  "ai-provider:" +:+ uuid_String org +:+ ":" +:+ uuid_String id.
Definition encryption_unavailable : error := NewUnavailable0 "AI provider credential encryption is unavailable".
(** [EncryptForScope]: the nonce is read from the random source. *)
Definition encrypt (message scope secret : string) : prog State string :=
  wrap_ (NewInternal message) (let* n := draw in lift_ (EncryptForScope (random_bytes n NonceSize) scope secret)).
Definition uuid_New : prog State UUID := local fresh.

(** ** Credentials *)
Definition CreateCredential (org : UUID) (provider name secret : string) : prog State AiProviderCredential :=
  raise_if (is_nil org) (NewBadRequest "organization_id is required") ;*
  let provider := TrimSpace provider in
  let name := TrimSpace name in
  let secret := TrimSpace secret in
  raise_if (negb (validProvider provider)) (NewBadRequest "unsupported AI provider") ;*
  raise_if (bool_decide (name = "") || (128 <? len name))
    (NewBadRequest "credential name must be between 1 and 128 characters") ;*
  raise_if (bool_decide (secret = "")) (NewBadRequest "provider secret is required") ;*
  raise_if (negb cipher) encryption_unavailable ;*
  let* id := uuid_New in
  let* ciphertext := encrypt "encrypt AI provider credential" (credentialScope org id) secret in
  wrap_ (conflict_or "AI provider credential already exists" "create AI provider credential")
    (exec (CreateAIProviderCredential id org provider name ciphertext)).
Definition ListCredentials (org : UUID) : prog State (list AiProviderCredential) :=
  raise_if (is_nil org) (NewBadRequest "organization_id is required") ;*
  wrap_ (NewInternal "list AI provider credentials") (query (ListAIProviderCredentials org)).
Fixpoint with_usage (org : UUID) (l : list AiProviderCredential) : prog State (list (AiProviderCredential * list UUID)) :=
  match l with
  | [] => done_ []
  | c :: l' =>
      let* agents := wrap_ (NewInternal "list AI integration usage")
                       (query (ListVoiceAgentIDsByAIProviderCredential org (cr_ID c))) in
      let* rest := with_usage org l' in
      done_ ((c, agents) :: rest)
  end.
Definition ListIntegrations (org : UUID) : prog State (list (AiProviderCredential * list UUID)) :=
  let* credentials := ListCredentials org in with_usage org credentials.
Definition ids_required (what : string) (org id : UUID) : prog State unit :=
  raise_if (is_nil org || is_nil id) (NewBadRequest ("organization and " +:+ what +:+ " ids are required")).
Definition RotateCredential (org id : UUID) (secret : string) : prog State AiProviderCredential :=
  ids_required "credential" org id ;*
  let secret := TrimSpace secret in
  raise_if (bool_decide (secret = "")) (NewBadRequest "provider secret is required") ;*
  raise_if (negb cipher) encryption_unavailable ;*
  wrap_ (dbError "AI provider credential not found") (query (GetAIProviderCredential org id)) ;*
  let* ciphertext := encrypt "encrypt AI provider credential" (credentialScope org id) secret in
  wrap_ (dbError "AI provider credential not found") (exec (RotateAIProviderCredential org id ciphertext)).
Definition DeleteCredential (org id : UUID) : prog State unit :=
  ids_required "credential" org id ;*
  wrap_ (dbError "delete AI provider credential") (exec (DeleteAIProviderCredential org id)).

(** *** Verification (verifier.go)

    [verify]: the status the service answers a request with the secret, or the
    transport's error; a context that is over shows as [ErrCanceled]. *)
Context (verify : string -> string -> State -> result Z).
Record verificationResult := { vr_State : string; vr_FailureCode : string }.
Definition classify (status : Z) : verificationResult :=
  if (200 <=? status) && (status <? 300) then {| vr_State := ConnectionReady; vr_FailureCode := "" |} else
  if (status =? 401) || (status =? 403)
  then {| vr_State := ConnectionInvalid; vr_FailureCode := "authentication_failed" |} else
  if status =? 429 then {| vr_State := ConnectionUnavailable; vr_FailureCode := "provider_rate_limited" |}
  else {| vr_State := ConnectionUnavailable; vr_FailureCode := "provider_unavailable" |}.
Definition Verify (provider secret : string) : prog State verificationResult :=
  raise_if (negb (validProvider provider)) (Errorf "unsupported AI provider %q" [provider]) ;*
  let* answer := attempt_ (query (verify provider secret)) in
  match answer with
  | inl status => done_ (classify status)
  | inr e => if errors_Is e ErrCanceled then raise e
             else done_ {| vr_State := ConnectionUnavailable; vr_FailureCode := "provider_unavailable" |}
  end.
Definition open_secret (message : string) (org id : UUID) (ciphertext : string) : prog State string :=
  wrap_ (NewInternal message) (lift_ (DecryptForScope (credentialScope org id) ciphertext)).
Definition VerifyIntegration (org id : UUID) : prog State AiProviderCredential :=
  ids_required "integration" org id ;*
  let* c := wrap_ (dbError "AI integration not found") (query (GetAIProviderCredential org id)) in
  raise_if (negb cipher) encryption_unavailable ;*
  let* secret := open_secret "decrypt AI provider credential" org id (cr_SecretCiphertext c) in
  let* r := wrap_ (NewInternal "verify AI integration") (Verify (cr_Provider c) secret) in
  let failure := if bool_decide (vr_FailureCode r = "") then None else Some (vr_FailureCode r) in
  wrap_ (dbError "update AI integration verification")
    (exec (UpdateAIProviderCredentialVerification org id (vr_State r) failure)).

(** ** Bindings *)
Definition UpsertBinding (org agent : UUID) (role provider : string) (credential : UUID) (config : list ascii)
    : prog State VoiceAgentProviderBinding :=
  let role := TrimSpace role in
  let provider := TrimSpace provider in
  raise_if (is_nil org || is_nil agent) (NewBadRequest "organization and voice agent ids are required") ;*
  raise_if (negb (validRole role) || negb (roleProviderCompatible role provider))
    (NewBadRequest "provider is not compatible with Voice Agent role") ;*
  raise_if (is_nil credential) (NewBadRequest "credential_id is required") ;*
  let config := match config with [] => bytes "{}" | _ => config end in
  lift_ (validateProviderConfig provider config) ;*
  let* c := wrap_ (dbError "AI provider credential not found") (query (GetAIProviderCredential org credential)) in
  raise_if (negb (bool_decide (cr_Provider c = provider)))
    (NewBadRequest "credential provider does not match binding provider") ;*
  wrap_ (dbError "bind AI provider") (exec (UpsertVoiceAgentProviderBinding org agent role provider credential config)).
Definition ListBindings (org agent : UUID) : prog State (list VoiceAgentProviderBinding) :=
  wrap_ (NewInternal "list Voice Agent provider bindings") (query (ListVoiceAgentProviderBindings org agent)).
Definition DeleteBinding (org agent : UUID) (role : string) : prog State unit :=
  raise_if (negb (validRole role)) (NewBadRequest "invalid provider role") ;*
  wrap_ (dbError "delete Voice Agent provider binding") (exec (DeleteVoiceAgentProviderBinding org agent role)).
Definition status_of (b : VoiceAgentProviderBinding) (c : AiProviderCredential) : BindingStatus :=
  {| st_Role := pb_Role b; st_Provider := pb_Provider b; st_IntegrationID := pb_CredentialID b;
     st_ConnectionState := cr_ConnectionState c; st_FailureCode := cr_FailureCode c; st_Config := pb_Config b |}.
Fixpoint statuses (org : UUID) (l : list VoiceAgentProviderBinding) : prog State (list BindingStatus) :=
  match l with
  | [] => done_ []
  | b :: l' =>
      let* c := wrap_ (dbError "AI integration not found") (query (GetAIProviderCredential org (pb_CredentialID b))) in
      let* rest := statuses org l' in
      done_ (status_of b c :: rest)
  end.
Definition BindingStatuses (org agent : UUID) : prog State (list BindingStatus) :=
  let* l := ListBindings org agent in statuses org l.

(** ** The secrets of a conversation *)
Fixpoint resolve_rows (org : UUID) (l : list (VoiceAgentProviderBinding * string)) : prog State (list ResolvedBinding) :=
  match l with
  | [] => done_ []
  | (b, ciphertext) :: l' =>
      let* secret := open_secret "decrypt AI provider credential" org (pb_CredentialID b) ciphertext in
      let* rest := resolve_rows org l' in
      done_ ({| rb_Role := pb_Role b; rb_Provider := pb_Provider b; rb_APIKey := secret; rb_Config := pb_Config b |} :: rest)
  end.
Definition Resolve (org agent : UUID) : prog State (list ResolvedBinding) :=
  let* rows := wrap_ (NewInternal "resolve Voice Agent provider bindings")
                 (query (ResolveVoiceAgentProviderBindings org agent)) in
  match rows with
  | [] => done_ []
  | _ => raise_if (negb cipher) encryption_unavailable ;* resolve_rows org rows
  end.
Fixpoint resolve_snapshots (org : UUID) (l : list BindingSnapshot) : prog State (list ResolvedBinding) :=
  match l with
  | [] => done_ []
  | b :: l' =>
      let* c := wrap_ (dbError "snapshotted AI integration not found")
                  (query (GetAIProviderCredential org (bs_CredentialID b))) in
      raise_if (negb (bool_decide (cr_Provider c = bs_Provider b)))
        (NewInternal0 "snapshotted AI integration provider mismatch") ;*
      let* secret := open_secret "decrypt snapshotted AI integration" org (bs_CredentialID b) (cr_SecretCiphertext c) in
      let* rest := resolve_snapshots org l' in
      done_ ({| rb_Role := bs_Role b; rb_Provider := bs_Provider b; rb_APIKey := secret; rb_Config := bs_Config b |} :: rest)
  end.
(** The snapshot is decoded from the JSON the activation built. *)
Definition ResolveSnapshot (org : UUID) (snapshot : list BindingSnapshot) : prog State (list ResolvedBinding) :=
  match snapshot with
  | [] => done_ []
  | _ => raise_if (negb cipher) encryption_unavailable ;* resolve_snapshots org snapshot
  end.
End Service.
End AgentProviders.
