(* ===== verification/Agents.v ===== *)
(** * Voice Agents: their configuration

    [ai/agents]: what a tenant configures, the presets, the services an agent is
    bound to, and its activation. *)

From S2P Require Import Prelude Json JsonValues Encryption Programs Routing Secrets AgentStore AgentProviders.
Local Open Scope Z_scope.

Module Agents.
Import AppErr Json JsonValues Encryption Programs Secrets AgentStore AgentProviders.

(** ** Requests (model.go) *)
Definition EngineComposable : string := "composable".
Definition EngineIntegrated : string := "integrated".
Definition InterruptionAllow : string := "allow".
Definition RecordingNone : string := "none".
Record ProviderBindingRequest := {
  br_Role : string; br_Provider : string; br_IntegrationID : UUID; br_Config : list ascii;
}.
Record CreateRequest := {
  cr_Name : string; cr_Engine : string; cr_Instructions : string; cr_Voice : option string; cr_Language : option string;
  cr_EngineConfig : list ascii; cr_Preset : option string; cr_Bindings : list ProviderBindingRequest;
  cr_Interruption : string; cr_Recording : string;
}.
Record UpdateRequest := {
  up_Name : option string; up_Engine : option string; up_Instructions : option string; up_Voice : option string;
  up_Language : option string; up_EngineConfig : option (list ascii); up_Preset : option string;
  up_Bindings : option (list ProviderBindingRequest); up_Interruption : option string; up_Recording : option string;
}.

(** ** Presets (presets.go) *)
Definition presetVersion : Z := 1.
Record Preset := { ps_ID : string; ps_Engine : string; ps_EngineConfig : list ascii; ps_ProviderConfig : list (string * list ascii) }.
(** JSON with a backquote for each double quote. *)
Definition json (s : string) : list ascii := (fun c => if bool_decide (c = "`"%char) then dquote else c) <$> bytes s.
Definition composable_preset (id llm : string) : Preset := {|
  ps_ID := id; ps_Engine := EngineComposable; ps_EngineConfig := json ("{`response_mode`:`" +:+ id +:+ "`}");
  ps_ProviderConfig := [("stt", json "{`model`:`flux-general-en`}"); ("llm", json llm);
                        ("tts", json "{`model`:`sonic-3`,`language`:`en`}")]%string |}.
Definition Presets : list Preset := [
  composable_preset "balanced" "{`model`:`llama-3.3-70b-versatile`,`temperature`:0.4}";
  composable_preset "fast" "{`model`:`llama-3.1-8b-instant`,`temperature`:0.2}";
  composable_preset "high_intelligence" "{`model`:`llama-3.3-70b-versatile`,`temperature`:0.3}";
  {| ps_ID := "realtime"; ps_Engine := EngineIntegrated; ps_EngineConfig := json "{`response_mode`:`realtime`}";
     ps_ProviderConfig := [("realtime", json "{`model`:`gpt-realtime`}")]%string |}].
Definition presetByID (id : string) : option Preset := find (fun p => bool_decide (ps_ID p = id)) Presets.
Definition binding_config (p : Preset) (role : string) : option (list ascii) :=
  snd <$> find (fun kv => bool_decide (fst kv = role)) (ps_ProviderConfig p).
Definition applyPresetBindingConfig (bindings : list ProviderBindingRequest) (p : Preset) : list ProviderBindingRequest :=
  (fun b => match binding_config p (br_Role b), br_Config b with
            | Some config, [] => {| br_Role := br_Role b; br_Provider := br_Provider b;
                                    br_IntegrationID := br_IntegrationID b; br_Config := config |}
            | _, _ => b
            end) <$> bindings.

(** ** Validation (validation.go) *)
Definition normalizeRequired (value field : string) (max : Z) : result string :=
  let value := TrimSpace value in
  if bool_decide (value = "") || (max <? len value)
  then inr (NewBadRequest (field +:+ " must be between 1 and " +:+ show_int max +:+ " characters")) else inl value.
Definition normalizeOptional (value : option string) (field : string) (max : Z) : result (option string) :=
  match value with None => inl None | Some v => let? v := normalizeRequired v field max in inl (Some v) end.
Definition normalizeEngine (value : string) : result string :=
  let value := TrimSpace value in
  if bool_decide (value ∈ [EngineComposable; EngineIntegrated]) then inl value
  else inr (NewBadRequest "engine must be composable or integrated").
(** [null] is decoded without an error. *)
Definition validateEngineConfig (value : list ascii) : result unit :=
  if negb (Valid value) then inr (NewBadRequest "engine_config must be valid JSON") else
  match Unmarshal_any_map value with
  | IsError => inr (NewBadRequest "engine_config must be a JSON object")
  | _ => inl tt
  end.
Definition validatePolicies (interruption recording : string) : result unit :=
  if negb (bool_decide (interruption ∈ ["allow"; "disabled"]%string))
  then inr (NewBadRequest "interruption_policy must be allow or disabled") else
  guard_err (negb (bool_decide (recording ∈ ["none"; "all"]%string))) (NewBadRequest "recording_policy must be none or all").
Definition or_default (v d : string) : string := if bool_decide (v = "") then d else v.
Definition normalizeCreate (r : CreateRequest) : result (AgentColumns * list ProviderBindingRequest) :=
  let? name := normalizeRequired (cr_Name r) "name" 255 in
  let? ' (preset, engine, config, bindings) :=
    match cr_Preset r with
    | None => inl (None, cr_Engine r, cr_EngineConfig r, cr_Bindings r)
    | Some id =>
        match presetByID (TrimSpace id) with
        | None => inr (NewBadRequest "unknown Voice Agent preset")
        | Some p => inl (Some (TrimSpace id), ps_Engine p, ps_EngineConfig p, applyPresetBindingConfig (cr_Bindings r) p)
        end
    end in
  let? engine := normalizeEngine engine in
  let? instructions := normalizeRequired (cr_Instructions r) "instructions" 20000 in
  let? voice := normalizeOptional (cr_Voice r) "voice" 255 in
  let? language := normalizeOptional (cr_Language r) "language" 64 in
  let config := match config with [] => bytes "{}" | _ => config end in
  let? _ := validateEngineConfig config in
  let interruption := or_default (cr_Interruption r) InterruptionAllow in
  let recording := or_default (cr_Recording r) RecordingNone in
  let? _ := validatePolicies interruption recording in
  inl ({| ag_Name := name; ag_Engine := engine; ag_Instructions := instructions; ag_Voice := voice; ag_Language := language;
          ag_EngineConfig := config; ag_Preset := preset;
          ag_PresetVersion := match preset with Some _ => Some presetVersion | None => None end;
          ag_Interruption := interruption; ag_Recording := recording |}, bindings).
Definition is_none {A} (o : option A) : bool := match o with None => true | Some _ => false end.
Definition empty_update (r : UpdateRequest) : bool :=
  is_none (up_Name r) && is_none (up_Engine r) && is_none (up_Instructions r) && is_none (up_Voice r)
  && is_none (up_Language r) && is_none (up_EngineConfig r) && is_none (up_Preset r) && is_none (up_Bindings r)
  && is_none (up_Interruption r) && is_none (up_Recording r).
(** A preset replaces the engine, its configuration and the list of bindings, which
    is empty when the request has none. *)
Definition normalizeUpdate (r : UpdateRequest) : result (AgentPatch * option (list ProviderBindingRequest)) :=
  if empty_update r then inr (NewBadRequest "at least one field is required") else
  let? name := normalizeOptional (up_Name r) "name" 255 in
  let? engine := match up_Engine r with None => inl None | Some e => let? e := normalizeEngine e in inl (Some e) end in
  let? ' (update, preset, engine, config, bindings) :=
    match up_Preset r with
    | Some id =>
        match presetByID (TrimSpace id) with
        | None => inr (NewBadRequest "unknown Voice Agent preset")
        | Some p => inl (true, Some (TrimSpace id), Some (ps_Engine p), Some (ps_EngineConfig p),
                         Some (applyPresetBindingConfig (default [] (up_Bindings r)) p))
        end
    | None => inl (negb (is_none engine && is_none (up_EngineConfig r)), None, engine, up_EngineConfig r, up_Bindings r)
    end in
  let? instructions := normalizeOptional (up_Instructions r) "instructions" 20000 in
  let? voice := normalizeOptional (up_Voice r) "voice" 255 in
  let? language := normalizeOptional (up_Language r) "language" 64 in
  let? _ := match config with Some c => validateEngineConfig c | None => inl tt end in
  let interruption := TrimSpace <$> up_Interruption r in
  let recording := TrimSpace <$> up_Recording r in
  let? _ := if is_none interruption && is_none recording then inl tt
            else validatePolicies (default InterruptionAllow interruption) (default RecordingNone recording) in
  inl ({| pt_Name := name; pt_Engine := engine; pt_Instructions := instructions; pt_Voice := voice; pt_Language := language;
          pt_EngineConfig := config; pt_UpdatePreset := update; pt_Preset := preset;
          pt_PresetVersion := match preset with Some _ => Some presetVersion | None => None end;
          pt_Interruption := interruption; pt_Recording := recording |}, bindings).
Definition validateIDs (org agent : UUID) : result unit :=
  if is_nil org then inr (NewBadRequest "organization_id is required") else
  guard_err (is_nil agent) (NewBadRequest "voice agent id is required").

(** ** The service (service.go, bindings.go) *)
Section Service.
Context {L : AgentLib} {U : UuidLib} {A : AEAD} {X : SecretLib}.
(** Whether the service has the one of AI providers; all servers do. *)
Context (providers : bool).

Definition writeError (message : string) (e : error) : error :=
  if errors_Is e ErrNoRows then NewNotFound message else
  if conflict e then NewConflict "voice agent already exists" else NewInternal message e.
Definition Get (org id : UUID) : prog State VoiceAgent :=
  lift_ (validateIDs org id) ;*
  wrap_ (dbError "voice agent not found") (query (GetVoiceAgentByID org id)).
Definition List_ (org : UUID) : prog State (list VoiceAgent) :=
  raise_if (is_nil org) (NewBadRequest "organization_id is required") ;*
  wrap_ (NewInternal "list voice agents") (query (ListVoiceAgentsByOrganizationID org)).
Definition provider_service_unavailable : error := NewUnavailable0 "AI provider service is unavailable".
Definition drop_unrequested (org agent : UUID) (requested : list string) (b : VoiceAgentProviderBinding) : prog State unit :=
  if bool_decide (pb_Role b ∈ requested) then done_ tt else DeleteBinding org agent (pb_Role b).
Definition bind_one (org agent : UUID) (b : ProviderBindingRequest) : prog State unit :=
  UpsertBinding org agent (br_Role b) (br_Provider b) (br_IntegrationID b) (br_Config b) ;* done_ tt.
Definition applyBindings (org agent : UUID) (bindings : list ProviderBindingRequest) (replace : bool) : prog State unit :=
  if negb replace && match bindings with [] => true | _ => false end then done_ tt else
  raise_if (negb providers) provider_service_unavailable ;*
  (if replace
   then let* existing := ListBindings org agent in
        for_each (drop_unrequested org agent (br_Role <$> bindings)) existing
   else done_ tt) ;*
  for_each (bind_one org agent) bindings.
Definition Create (org : UUID) (r : CreateRequest) : prog State VoiceAgent :=
  raise_if (is_nil org) (NewBadRequest "organization_id is required") ;*
  let* ' (c, bindings) := lift_ (normalizeCreate r) in
  let* agent := wrap_ (writeError "create voice agent") (exec (CreateVoiceAgent org c)) in
  applyBindings org (va_ID agent) bindings false ;*
  match bindings with [] => done_ agent | _ => Get org (va_ID agent) end.
Definition Update (org id : UUID) (r : UpdateRequest) : prog State VoiceAgent :=
  lift_ (validateIDs org id) ;*
  let* ' (patch, bindings) := lift_ (normalizeUpdate r) in
  let* agent := wrap_ (writeError "update voice agent") (exec (UpdateVoiceAgent org id patch)) in
  match bindings with
  | Some l => applyBindings org id l true ;* Get org id
  | None => done_ agent
  end.
Definition Disable (org id : UUID) : prog State unit :=
  Get org id ;* wrap_ (writeError "disable voice agent") (exec (DisableVoiceAgent org id)).

(** *** Phone numbers *)
Definition CreateBinding (org agent : UUID) (phone : option UUID) : prog State VoiceAgentBinding :=
  lift_ (validateIDs org agent) ;*
  match phone with
  | None => raise (NewBadRequest "phone_number_id is required")
  | Some phone =>
      raise_if (is_nil phone) (NewBadRequest "phone_number_id is required") ;*
      wrap_ (fun e => if errors_Is e ErrNoRows then NewNotFound "voice agent or phone number not found" else
                      if conflict e then NewConflict "phone number already has a voice agent"
                      else NewInternal "create voice agent binding" e)
        (exec (CreateVoiceAgentBinding org agent phone))
  end.
Definition ListPhoneBindings (org agent : UUID) : prog State (list VoiceAgentBinding) :=
  lift_ (validateIDs org agent) ;*
  Get org agent ;*
  wrap_ (NewInternal "list voice agent bindings") (query (ListVoiceAgentBindingsByAgentID org agent)).
Definition DeletePhoneBinding (org agent id : UUID) : prog State unit :=
  lift_ (validateIDs org agent) ;*
  raise_if (is_nil id) (NewBadRequest "binding id is required") ;*
  wrap_ (writeError "delete voice agent binding") (exec (DeleteVoiceAgentBinding org agent id)).

(** ** Readiness and activation (readiness.go) *)
Record ReadinessIssue := { is_Code : string; is_Field : string; is_Message : string; is_Remediation : string }.
Record ReadinessReport := {
  rp_Ready : bool; rp_ConfigurationRevision : Z; rp_ActiveRevision : option Z; rp_Engine : string;
  rp_Preset : option string; rp_PresetVersion : option Z; rp_Bindings : list BindingStatus; rp_Issues : list ReadinessIssue;
}.
Definition readinessIssue (code field message remediation : string) : ReadinessIssue :=
  {| is_Code := code; is_Field := field; is_Message := message; is_Remediation := remediation |}.
Definition expectedProviders (engine : string) : list (string * string) :=
  if bool_decide (engine = EngineIntegrated) then [("realtime", "openai")]%string
  else [("stt", "deepgram"); ("llm", "groq"); ("tts", "cartesia")]%string.
Definition lookup_role {B} (l : list (string * B)) (role : string) : option B :=
  snd <$> find (fun kv => bool_decide (fst kv = role)) l.
(** [byRole]: of two statuses with a role, the later one. *)
Definition by_role (statuses : list BindingStatus) (role : string) : option BindingStatus :=
  lookup_role (reverse ((fun st => (st_Role st, st)) <$> statuses)) role.
Definition unexpected_issue (engine : string) (st : BindingStatus) : list ReadinessIssue :=
  match lookup_role (expectedProviders engine) (st_Role st) with
  | Some _ => []
  | None => [readinessIssue "unexpected_provider_binding" ("bindings." +:+ st_Role st)
               ("The " +:+ st_Role st +:+ " role is not valid for the selected engine.")
               "Remove the binding or select the matching engine mode."]
  end.
Definition missing_issue (role provider : string) : ReadinessIssue :=
  readinessIssue "missing_provider_binding" ("bindings." +:+ role)
    ("The " +:+ role +:+ " role requires a " +:+ provider +:+ " integration.")
    ("Connect a ready " +:+ provider +:+ " integration to the " +:+ role +:+ " role.").
Definition role_issue (engine : string) (statuses : list BindingStatus) (role : string) : list ReadinessIssue :=
  match lookup_role (expectedProviders engine) role with
  | None => []
  | Some provider =>
      match by_role statuses role with
      | None => [missing_issue role provider]
      | Some st =>
          if negb (bool_decide (st_Provider st = provider)) then [missing_issue role provider] else
          if bool_decide (st_ConnectionState st = ConnectionReady) then [] else
          [readinessIssue "integration_not_ready" ("bindings." +:+ role +:+ ".integration_id")
             ("The " +:+ provider +:+ " integration is not ready.")
             "Verify or rotate the integration, then run readiness again."]
      end
  end.
Definition issues (engine : string) (statuses : list BindingStatus) : list ReadinessIssue :=
  (statuses ≫= unexpected_issue engine) ++ (agent_roles ≫= role_issue engine statuses).
Definition report (a : VoiceAgent) (statuses : list BindingStatus) (l : list ReadinessIssue) : ReadinessReport :=
  {| rp_Ready := match l with [] => true | _ => false end; rp_ConfigurationRevision := va_ConfigurationRevision a;
     rp_ActiveRevision := ac_Revision <$> va_Active a; rp_Engine := va_Engine a; rp_Preset := va_Preset a;
     rp_PresetVersion := va_PresetVersion a; rp_Bindings := statuses; rp_Issues := l |}.
Definition unavailable_issue : ReadinessIssue :=
  readinessIssue "provider_service_unavailable" "bindings" "AI provider readiness is unavailable."
    "Restore the AI provider service before activating the agent.".
Definition Readiness (org agent : UUID) : prog State ReadinessReport :=
  let* a := Get org agent in
  if negb providers then done_ (report a [] [unavailable_issue]) else
  let* statuses := BindingStatuses org agent in
  done_ (report a statuses (issues (va_Engine a) statuses)).
Definition with_active (revision : option Z) (r : ReadinessReport) : ReadinessReport :=
  {| rp_Ready := rp_Ready r; rp_ConfigurationRevision := rp_ConfigurationRevision r; rp_ActiveRevision := revision;
     rp_Engine := rp_Engine r; rp_Preset := rp_Preset r; rp_PresetVersion := rp_PresetVersion r;
     rp_Bindings := rp_Bindings r; rp_Issues := rp_Issues r |}.
Definition Activate (org agent : UUID) : prog State (VoiceAgent * ReadinessReport) :=
  let* r := Readiness org agent in
  raise_if (negb (rp_Ready r)) (NewConflict "Voice Agent is not ready for activation") ;*
  let* a := wrap_ (writeError "Voice Agent readiness changed during activation") (exec (ActivateVoiceAgent org agent)) in
  done_ (a, with_active (ac_Revision <$> va_Active a) r).
End Service.
End Agents.
