(* ===== verification/AgentTools.v ===== *)
(** * Tools of Voice Agents

    [ai/tools]: the tools a tenant gives an agent, and their execution for a call:
    an execution is claimed in the database, its request sent or its control
    applied, and its result kept, so that a tool call that comes again is answered
    from the table. *)

From S2P Require Import Prelude Json JsonValues Encryption Programs Routing ObjectStore Secrets AgentStore AgentProviders Agents.
Local Open Scope Z_scope.

Module AgentTools.
Import AppErr Json JsonValues Encryption Programs ObjectStore Secrets AgentStore AgentProviders.

(** Outside the package: [net/url], [netip.ParseAddr], HMAC-SHA-256 in hexadecimal,
    [json.Marshal] of a request, the error of [http.NewRequest], and the text of an
    error. *)
Class ToolLib := {
  ParseRequestURI : string -> option URL;
  Parse : string -> option URL;
  netip_ParseAddr : string -> option Addr;
  hmac_hex : string -> list ascii -> string;
  marshal_request : ToolAction -> string -> list ascii -> list ascii;
  new_request_error : string -> option error;
  tool_error_text : error -> string;
}.

(** ** Requests (model.go) *)
Definition TypeBuiltin : string := "builtin".
Definition TypeWebhook : string := "webhook".
Record CreateRequest := {
  tr_Type : string; tr_Name : string; tr_Description : string; tr_Parameters : list ascii; tr_EndpointURL : option string;
  tr_TimeoutMS : option Z; tr_Enabled : option bool;
}.
Definition builtins : list string := ["hangup_call"; "transfer_call"; "hold_call"; "resume_call"; "send_dtmf"].

(** ** Validation (validation.go) *)
Section Validation.
Context {T : ToolLib}.
Definition required (value field : string) (max : Z) : result string :=
  let value := TrimSpace value in
  if bool_decide (value = "") || (max <? len value)
  then inr (NewBadRequest (field +:+ " must be between 1 and " +:+ show_int max +:+ " characters")) else inl value.
Definition validateParameters (value : list ascii) : result unit :=
  if negb (Valid value) then inr (NewBadRequest "parameters must be valid JSON") else
  match Unmarshal_any_map value with
  | IsError => inr (NewBadRequest "parameters must be a JSON object")
  | _ => inl tt
  end.
Definition validateEndpoint (type : string) (endpoint : option string) : result (option string) :=
  if bool_decide (type = TypeBuiltin) then
    match endpoint with
    | Some _ => inr (NewBadRequest "builtin tools cannot define endpoint_url")
    | None => inl None
    end
  else match endpoint with
  | None => inr (NewBadRequest "webhook tools require endpoint_url")
  | Some e =>
      let value := TrimSpace e in
      match ParseRequestURI value with
      | Some u => if bool_decide (Scheme u = "https") && negb (bool_decide (Host u = "")) then inl (Some value)
                  else inr (NewBadRequest "endpoint_url must be a valid HTTPS URL")
      | None => inr (NewBadRequest "endpoint_url must be a valid HTTPS URL")
      end
  end.
Definition check_timeout (t : option Z) : result unit :=
  guard_err (match t with Some t => (t <? 100) || (30000 <? t) | None => false end)
    (NewBadRequest "timeout_ms must be between 100 and 30000").
Definition check_builtin (name : string) : result unit :=
  guard_err (negb (bool_decide (name ∈ builtins))) (NewBadRequest "unsupported builtin tool name").
Definition normalizeCreate (r : CreateRequest) : result (string * ToolColumns) :=
  let type := TrimSpace (if bool_decide (tr_Type r = "") then TypeWebhook else tr_Type r) in
  let? _ := guard_err (negb (bool_decide (type ∈ [TypeBuiltin; TypeWebhook]))) (NewBadRequest "tool type must be builtin or webhook") in
  let? name := required (tr_Name r) "name" 128 in
  let? description := required (tr_Description r) "description" 2000 in
  let parameters := match tr_Parameters r with [] => bytes "{}" | p => p end in
  let? _ := validateParameters parameters in
  let? _ := check_timeout (tr_TimeoutMS r) in
  let? endpoint := validateEndpoint type (tr_EndpointURL r) in
  let? _ := if bool_decide (type = TypeBuiltin) then check_builtin name else inl tt in
  inl (type, {| tl_Name := name; tl_Description := description; tl_Parameters := parameters; tl_EndpointUrl := endpoint;
                tl_TimeoutMs := default 3000 (tr_TimeoutMS r); tl_Enabled := default true (tr_Enabled r) |}).
Definition opt_required (value : option string) (field : string) (max : Z) : result (option string) :=
  match value with None => inl None | Some v => let? v := required v field max in inl (Some v) end.
Definition normalizeUpdate (p : ToolPatch) : result ToolPatch :=
  if Agents.is_none (tp_Name p) && Agents.is_none (tp_Description p) && Agents.is_none (tp_Parameters p)
     && Agents.is_none (tp_EndpointUrl p) && Agents.is_none (tp_TimeoutMs p) && Agents.is_none (tp_Enabled p)
  then inr (NewBadRequest "at least one field is required") else
  let? name := opt_required (tp_Name p) "name" 128 in
  let? description := opt_required (tp_Description p) "description" 2000 in
  let? _ := match tp_Parameters p with Some v => validateParameters v | None => inl tt end in
  let? _ := check_timeout (tp_TimeoutMs p) in
  inl {| tp_Name := name; tp_Description := description; tp_Parameters := tp_Parameters p;
         tp_EndpointUrl := tp_EndpointUrl p; tp_TimeoutMs := tp_TimeoutMs p; tp_Enabled := tp_Enabled p |}.

(** *** Execution (executor.go) *)
Definition maxToolArgumentsBytes : Z := 65536.
Definition maxToolResponseBytes : Z := 65536.
Definition size (b : list ascii) : Z := Z.of_nat (length b).
Definition validateToolArguments (arguments : list ascii) : result unit :=
  if size arguments =? 0 then inr (NewBadRequest "tool arguments are required") else
  if maxToolArgumentsBytes <? size arguments then inr (NewPayloadTooLarge "tool arguments exceed 64 KiB") else
  if negb (Valid arguments) then inr (NewBadRequest "tool arguments must be valid JSON") else
  match Unmarshal_any_map arguments with
  | IsObject => inl tt
  | _ => inr (NewBadRequest "tool arguments must be a JSON object")
  end.
Definition validateExecutionEndpoint (raw : string) : result URL :=
  match Parse (TrimSpace raw) with
  | None => inr (NewBadRequest "webhook tool execution requires an absolute HTTPS endpoint")
  | Some u =>
      if negb (bool_decide (Scheme u = "https")) || bool_decide (Hostname u = "")
      then inr (NewBadRequest "webhook tool execution requires an absolute HTTPS endpoint") else
      if has_User u then inr (NewBadRequest "webhook tool endpoint cannot contain userinfo") else
      if negb (bool_decide (Fragment u = "")) then inr (NewBadRequest "webhook tool endpoint cannot contain a fragment")
      else inl u
  end.
Definition isCarrierGradeNAT (a : Addr) : bool := contains (P4 (ip4 100 64 0 0) 10) a.
Definition validateToolAddress (a : Addr) : result unit :=
  let a := Unmap a in
  guard_err (negb (IsGlobalUnicast a) || IsPrivate a || IsLoopback a || IsLinkLocalUnicast a || IsLinkLocalMulticast a
             || IsMulticast a || IsUnspecified a || isCarrierGradeNAT a)
    (Errorf "tool endpoint resolves to a non-public address" []).
Fixpoint check_addresses (l : list Addr) : result unit :=
  match l with [] => inl tt | a :: l' => let? _ := validateToolAddress a in check_addresses l' end.
End Validation.

(** The arguments of a built-in tool: a structure with one string field. Of a field
    that comes twice the last counts, and [null] leaves it. What comes in has been
    through [jsonb], so it is UTF-8. *)
Fixpoint string_field (name : string) (fields : list (string * list ascii)) (value : string) : result string :=
  match fields with
  | [] => inl value
  | (key, raw) :: rest =>
      if negb (bool_decide (key = name) || EqualFold key name)
      then inr (Errorf "invalid built-in tool arguments: json: unknown field" [key]) else
      if is_null_text raw then string_field name rest value else
      if is_string_text raw then string_field name rest (of_bytes (unquote raw))
      else inr (Errorf "invalid built-in tool arguments: json: cannot unmarshal" [key])
  end.
Definition decodeBuiltinArguments (name : string) (arguments : list ascii) : result string :=
  string_field name (object_members arguments) "".
Definition requireNoBuiltinArguments (arguments : list ascii) : result unit :=
  guard_err (match object_members arguments with [] => false | _ => true end)
    (Errorf "built-in tool does not accept arguments" []).

(** ** The service (service.go, repository.go, security.go) *)
Section Service.
Context {L : AgentLib} {T : ToolLib} {U : UuidLib} {A : AEAD} {X : SecretLib}.
Context (cipher : bool).

(** [base64.RawURLEncoding]. *)
Definition raw_url (b : list ascii) : string :=
  of_bytes ((fun c => if bool_decide (c = "+"%char) then "-"%char else if bool_decide (c = "/"%char) then "_"%char else c)
            <$> filter (fun c => c <> "="%char) (Base64.EncodeToString b)).
Definition newSigningSecret : prog State string := let* n := draw in done_ (raw_url (random_bytes n 32)).
Definition signingScope (org agent tool : UUID) : string :=
  "voice-agent-tool-signing:" +:+ uuid_String org +:+ ":" +:+ uuid_String agent +:+ ":" +:+ uuid_String tool.
Definition signToolRequest (secret : string) (body : list ascii) (timestamp : Z) : string :=
  "v1=" +:+ hmac_hex secret (bytes (show_int (timestamp / Second)) ++ bytes "." ++ body).
Definition signing_unavailable : error := NewUnavailable0 "voice agent tool signing is unavailable".
Definition validateIDs (org agent : UUID) : result unit :=
  if is_nil org then inr (NewBadRequest "organization_id is required") else
  guard_err (is_nil agent) (NewBadRequest "voice agent id is required").
Definition tool_id_required (id : UUID) : prog State unit := raise_if (is_nil id) (NewBadRequest "tool id is required").

Definition Get (org agent id : UUID) : prog State VoiceAgentTool :=
  lift_ (validateIDs org agent) ;*
  tool_id_required id ;*
  wrap_ (dbError "voice agent tool not found") (query (GetVoiceAgentToolByID org agent id)).
Definition List_ (org agent : UUID) : prog State (list VoiceAgentTool) :=
  lift_ (validateIDs org agent) ;*
  wrap_ (NewInternal "list voice agent tools") (query (ListVoiceAgentToolsByAgentID org agent)).
Definition already_exists : error -> error := conflict_or "voice agent tool already exists" "create voice agent tool".
(** A new secret for a tool, and its ciphertext. *)
Definition new_secret (org agent tool : UUID) : prog State (string * string) :=
  let* secret := wrap_ (NewInternal "generate voice agent tool signing secret") newSigningSecret in
  let* ciphertext := encrypt "encrypt voice agent tool signing secret" (signingScope org agent tool) secret in
  done_ (secret, ciphertext).
Definition Create (org agent : UUID) (r : CreateRequest) : prog State (VoiceAgentTool * string) :=
  lift_ (validateIDs org agent) ;*
  let* ' (type, c) := lift_ (normalizeCreate r) in
  if bool_decide (type = TypeBuiltin) then
    let* t := wrap_ already_exists (exec (CreateVoiceAgentTool org agent type c)) in done_ (t, "")
  else
    raise_if (negb cipher) signing_unavailable ;*
    let* id := uuid_New in
    let* ' (secret, ciphertext) := new_secret org agent id in
    let* t := wrap_ already_exists
      (exec (CreateVoiceAgentWebhookTool id org agent c ciphertext) ;* query (GetVoiceAgentToolByID org agent id)) in
    done_ (t, secret).
Definition SigningSecret (org agent tool : UUID) : prog State string :=
  raise_if (negb cipher) signing_unavailable ;*
  let* ciphertext := wrap_ (dbError "voice agent tool signing secret not found")
                       (query (GetVoiceAgentToolSigningSecret org agent tool)) in
  wrap_ (NewInternal "decrypt voice agent tool signing secret")
    (lift_ (DecryptForScope (signingScope org agent tool) ciphertext)).
Definition RotateSigningSecret (org agent tool : UUID) : prog State string :=
  lift_ (validateIDs org agent) ;*
  tool_id_required tool ;*
  raise_if (negb cipher) signing_unavailable ;*
  let* ' (secret, ciphertext) := new_secret org agent tool in
  let* rows := wrap_ (NewInternal "rotate voice agent tool signing secret")
                 (exec (RotateVoiceAgentToolSigningSecret org agent tool ciphertext)) in
  raise_if (negb (rows =? 1)) (NewNotFound "webhook voice agent tool not found") ;*
  done_ secret.
(** The checks of an update that need the row. *)
Definition check_current (p : ToolPatch) (current : VoiceAgentTool) : result ToolPatch :=
  let? _ := match tp_Name p with
            | Some name => if bool_decide (to_Type current = TypeBuiltin) then check_builtin name else inl tt
            | None => inl tt
            end in
  match tp_EndpointUrl p with
  | None => inl p
  | Some _ =>
      let? endpoint := validateEndpoint (to_Type current) (tp_EndpointUrl p) in
      inl {| tp_Name := tp_Name p; tp_Description := tp_Description p; tp_Parameters := tp_Parameters p;
             tp_EndpointUrl := endpoint; tp_TimeoutMs := tp_TimeoutMs p; tp_Enabled := tp_Enabled p |}
  end.
Definition Update (org agent id : UUID) (r : ToolPatch) : prog State VoiceAgentTool :=
  lift_ (validateIDs org agent) ;*
  tool_id_required id ;*
  let* p := lift_ (normalizeUpdate r) in
  let* p := if Agents.is_none (tp_Name p) && Agents.is_none (tp_EndpointUrl p) then done_ p
            else let* current := Get org agent id in lift_ (check_current p current) in
  wrap_ (conflict_or "voice agent tool already exists" "voice agent tool not found")
    (exec (UpdateVoiceAgentTool org agent id p)).
Definition Delete (org agent id : UUID) : prog State unit :=
  lift_ (validateIDs org agent) ;*
  tool_id_required id ;*
  wrap_ (dbError "delete voice agent tool") (exec (DeleteVoiceAgentTool org agent id)).

(** ** The executor (executor.go, builtin.go) *)
Record ExecuteRequest := {
  rq_OrganizationID : UUID; rq_VoiceAgentID : UUID; rq_SessionID : UUID; rq_CallID : UUID; rq_ToolID : UUID;
  rq_ToolCallID : string; rq_Arguments : list ascii;
}.
Record ExecuteResult := {
  er_ToolID : UUID; er_ToolCallID : string; er_Name : string; er_StatusCode : Z; er_ContentType : string;
  er_Body : list ascii; er_StartedAt : Z; er_CompletedAt : Z; er_Replayed : bool;
}.
(** What the endpoint answers; the body may fail while it is read. *)
Record HttpResponse := { hr_StatusCode : Z; hr_ContentType : string; hr_Body : list ascii; hr_ReadError : option error }.
(** The controls of [CallService.v] that built-in tools use. *)
Inductive CallControl := CallHangup | CallTransfer (destination : string) | CallHold | CallResume | CallDTMF (digits : string).

(** Outside the program: name resolution, connections, the endpoints, and what the
    call service answers; and whether the executor has a call service. *)
Context (lookup : string -> State -> result (list Addr)) (dial : Addr -> State -> result unit)
  (post : ToolAction -> State -> result HttpResponse) (control : UUID -> UUID -> CallControl -> State -> result unit)
  (call_service : bool).

Definition ResolveByName (org agent : UUID) (name : string) : prog State VoiceAgentTool :=
  let* items := List_ org agent in
  match find (fun t => to_Enabled t && bool_decide (to_Name t = TrimSpace name)) items with
  | Some t => done_ t
  | None => raise (NewNotFound "enabled voice agent tool not found")
  end.

Definition action (r : ExecuteRequest) (tool : UUID) (what : string) : ToolAction :=
  {| ta_OrganizationID := rq_OrganizationID r; ta_SessionID := rq_SessionID r; ta_CallID := rq_CallID r;
     ta_ToolID := tool; ta_ToolCallID := rq_ToolCallID r; ta_What := what |}.
(** An action in the world; its answer depends on the world. *)
Definition perform {A} (a : ToolAction) (answer : State -> result A) : prog State A :=
  Call (fun s => (answer s, log_action a s)) Return.

(** *** Webhooks *)
Definition resolveToolHost (host : string) : prog State (list Addr) :=
  match netip_ParseAddr host with
  | Some a => lift_ (validateToolAddress a) ;* done_ [a]
  | None =>
      let* addresses := wrap_ (fun e => Wrapf "resolve tool endpoint: %w" [] e) (query (lookup host)) in
      raise_if (bool_decide (addresses = [])) (Errorf "tool endpoint resolved to no addresses" []) ;*
      lift_ (check_addresses addresses) ;*
      done_ addresses
  end.
Fixpoint dial_first (addresses : list Addr) (lastErr : error) : prog State Addr :=
  match addresses with
  | [] => raise (Wrapf "dial tool endpoint: %w" [] lastErr)
  | a :: rest =>
      let* r := attempt_ (query (dial a)) in
      match r with inl _ => done_ a | inr e => dial_first rest e end
  end.
Definition DialContext (host : string) : prog State Addr :=
  let* addresses := resolveToolHost host in
  dial_first addresses (Errorf "tool endpoint resolved to no dialable addresses" []).
(** [readBoundedToolResponse]. *)
Definition readBoundedToolResponse (h : HttpResponse) : result (list ascii) :=
  match hr_ReadError h with
  | Some e => inr (NewServiceUnavailable "read voice agent tool response" e)
  | None => if maxToolResponseBytes <? size (hr_Body h)
            then inr (NewPayloadTooLarge "voice agent tool response exceeds 64 KiB") else inl (hr_Body h)
  end.
Definition do_error (e : error) : error :=
  if errors_Is e ErrDeadlineExceeded then NewServiceUnavailable "voice agent tool timed out" e
  else NewServiceUnavailable "execute voice agent tool" e.
Definition tool_result (t : VoiceAgentTool) (r : ExecuteRequest) (status : Z) (contentType : string) (body : list ascii)
    : ExecuteResult :=
  {| er_ToolID := to_ID t; er_ToolCallID := rq_ToolCallID r; er_Name := to_Name t; er_StatusCode := status;
     er_ContentType := contentType; er_Body := body; er_StartedAt := 0; er_CompletedAt := 0; er_Replayed := false |}.
(** The parts of [executeWebhook] before the request is sent: the host, and the
    request with the signature of its body. *)
Definition prepare_webhook (t : VoiceAgentTool) (r : ExecuteRequest) : prog State (string * ToolAction) :=
  match to_EndpointUrl t with
  | None => raise (NewInternal0 "webhook tool is missing endpoint_url")
  | Some raw =>
      let* endpoint := lift_ (validateExecutionEndpoint raw) in
      let* secret := SigningSecret (rq_OrganizationID r) (rq_VoiceAgentID r) (to_ID t) in
      raise_if ((to_TimeoutMs t <? 100) || (30000 <? to_TimeoutMs t)) (NewInternal0 "tool timeout is invalid") ;*
      lift_ (match new_request_error raw with
             | Some e => inr (NewInternal "create tool request" e) | None => inl tt end) ;*
      let* now := local time_now in
      let body := marshal_request (action r (to_ID t) "") (to_Name t) (rq_Arguments r) in
      done_ (Hostname endpoint, action r (to_ID t) (Join ["POST"; raw; signToolRequest secret body now] " "))
  end.
Definition executeWebhook (t : VoiceAgentTool) (r : ExecuteRequest) : prog State ExecuteResult :=
  let* ' (host, request) := prepare_webhook t r in
  let* h := wrap_ do_error (DialContext host ;* perform request (post request)) in
  let* payload := lift_ (readBoundedToolResponse h) in
  raise_if ((hr_StatusCode h <? 200) || (300 <=? hr_StatusCode h))
    (NewUnavailable0 ("voice agent tool returned HTTP " +:+ show_int (hr_StatusCode h))) ;*
  done_ (tool_result t r (hr_StatusCode h) (TrimSpace (hr_ContentType h)) payload).

(** *** Built-in tools *)
Definition builtin_control (name : string) (arguments : list ascii) : result CallControl :=
  if bool_decide (name = "hangup_call") then let? _ := requireNoBuiltinArguments arguments in inl CallHangup else
  if bool_decide (name = "transfer_call")
  then let? d := decodeBuiltinArguments "destination" arguments in inl (CallTransfer d) else
  if bool_decide (name = "hold_call") then let? _ := requireNoBuiltinArguments arguments in inl CallHold else
  if bool_decide (name = "resume_call") then let? _ := requireNoBuiltinArguments arguments in inl CallResume else
  if bool_decide (name = "send_dtmf") then let? d := decodeBuiltinArguments "digits" arguments in inl (CallDTMF d)
  else inr (Errorf "unsupported Voice Agent built-in tool %q" [name]).
Definition executeBuiltin (t : VoiceAgentTool) (r : ExecuteRequest) : prog State ExecuteResult :=
  raise_if (negb call_service) (Errorf "voice agent built-in call controls are unavailable" []) ;*
  let* c := lift_ (builtin_control (to_Name t) (rq_Arguments r)) in
  perform (action r (to_ID t) (to_Name t)) (control (rq_OrganizationID r) (rq_CallID r) c) ;*
  done_ (tool_result t r 200 "application/json" (Agents.json "{`ok`:true}")).

(** *** Results *)
Definition sameJSON (a b : list ascii) : bool :=
  match canonical a, canonical b with Some x, Some y => bool_decide (x = y) | _, _ => false end.
Definition replay_result (t : VoiceAgentTool) (r : ExecuteRequest) (e : VoiceAgentToolExecution) : result ExecuteResult :=
  if negb (bool_decide (ex_ToolID e = rq_ToolID r)) || negb (bool_decide (ex_VoiceAgentID e = rq_VoiceAgentID r))
     || negb (bool_decide (ex_CallID e = rq_CallID r)) || negb (sameJSON (ex_Arguments e) (rq_Arguments r))
  then inr (NewConflict "tool_call_id was already used for a different execution") else
  if bool_decide (ex_State e = "succeeded") then
    inl {| er_ToolID := to_ID t; er_ToolCallID := rq_ToolCallID r; er_Name := to_Name t;
           er_StatusCode := default 0 (ex_ResponseStatus e); er_ContentType := default ""%string (ex_ResponseContentType e);
           er_Body := default [] (ex_ResponseBody e); er_StartedAt := ex_StartedAt e;
           er_CompletedAt := default 0 (ex_CompletedAt e); er_Replayed := true |} else
  if bool_decide (ex_State e = "failed") then
    inr (NewUnavailable0 match ex_ErrorMessage e with
                         | Some m => if bool_decide (TrimSpace m = "") then "voice agent tool execution failed" else m
                         | None => "voice agent tool execution failed" end) else
  if bool_decide (ex_State e = "processing")
  then inr (NewConflict "voice agent tool execution is still processing or has an uncertain outcome")
  else inr (NewInternal0 "voice agent tool execution has invalid state").
Definition replay (t : VoiceAgentTool) (r : ExecuteRequest) : prog State ExecuteResult :=
  let* e := wrap_ (fun e => if errors_Is e ErrNoRows then NewNotFound "active voice agent session or enabled tool not found"
                            else NewInternal "read voice agent tool execution" e)
              (query (GetVoiceAgentToolExecution (rq_OrganizationID r) (rq_SessionID r) (rq_ToolCallID r))) in
  lift_ (replay_result t r e).
Definition markFailed (org id : UUID) (cause : error) : prog State unit :=
  let* rows := wrap_ (NewInternal "persist voice agent tool failure")
                 (exec (MarkVoiceAgentToolExecutionFailed org id (tool_error_text cause))) in
  raise_if (negb (rows =? 1)) (NewInternal0 "voice agent tool failure was not persisted").
Definition with_times (started completed : Z) (r : ExecuteResult) : ExecuteResult :=
  {| er_ToolID := er_ToolID r; er_ToolCallID := er_ToolCallID r; er_Name := er_Name r; er_StatusCode := er_StatusCode r;
     er_ContentType := er_ContentType r; er_Body := er_Body r; er_StartedAt := started; er_CompletedAt := completed;
     er_Replayed := er_Replayed r |}.
Definition run_tool (t : VoiceAgentTool) (r : ExecuteRequest) : prog State ExecuteResult :=
  if bool_decide (to_Type t = TypeWebhook) then executeWebhook t r else
  if bool_decide (to_Type t = TypeBuiltin) then executeBuiltin t r
  else raise (Errorf "unsupported Voice Agent tool type %q" [to_Type t]).
(** What follows the claim of execution [id]. *)
Definition execute_claimed (t : VoiceAgentTool) (r : ExecuteRequest) (id : UUID) : prog State ExecuteResult :=
  let* started := local time_now in
  let* outcome := attempt_ (run_tool t r) in
  match outcome with
  | inr e =>
      let* marked := attempt_ (markFailed (rq_OrganizationID r) id e) in
      raise (match marked with inr m => JoinErr e m | inl _ => e end)
  | inl result =>
      let* completed := local time_now in
      let* rows := wrap_ (NewInternal "persist voice agent tool execution result")
        (exec (MarkVoiceAgentToolExecutionSucceeded (rq_OrganizationID r) id (er_StatusCode result)
                 (er_ContentType result) (er_Body result))) in
      raise_if (negb (rows =? 1)) (NewInternal0 "voice agent tool execution result was not persisted") ;*
      done_ (with_times started completed result)
  end.
Definition with_call_id (id : string) (r : ExecuteRequest) : ExecuteRequest :=
  {| rq_OrganizationID := rq_OrganizationID r; rq_VoiceAgentID := rq_VoiceAgentID r; rq_SessionID := rq_SessionID r;
     rq_CallID := rq_CallID r; rq_ToolID := rq_ToolID r; rq_ToolCallID := id; rq_Arguments := rq_Arguments r |}.
Definition check_request (r : ExecuteRequest) : result unit :=
  if is_nil (rq_OrganizationID r) || is_nil (rq_VoiceAgentID r) || is_nil (rq_SessionID r) || is_nil (rq_CallID r)
  then inr (NewBadRequest "organization_id, voice_agent_id, session_id, and call_id are required") else
  if is_nil (rq_ToolID r) then inr (NewBadRequest "tool id is required") else
  if bool_decide (rq_ToolCallID r = "") || (255 <? len (rq_ToolCallID r))
  then inr (NewBadRequest "tool_call_id must be between 1 and 255 characters")
  else validateToolArguments (rq_Arguments r).
Definition claim (r : ExecuteRequest) : prog State UUID :=
  exec (ClaimVoiceAgentToolExecution (rq_OrganizationID r) (rq_SessionID r) (rq_VoiceAgentID r) (rq_ToolID r)
          (rq_CallID r) (rq_ToolCallID r) (rq_Arguments r)).
Definition Execute (r : ExecuteRequest) : prog State ExecuteResult :=
  let r := with_call_id (TrimSpace (rq_ToolCallID r)) r in
  lift_ (check_request r) ;*
  let* t := Get (rq_OrganizationID r) (rq_VoiceAgentID r) (rq_ToolID r) in
  raise_if (negb (to_Enabled t)) (NewForbidden "voice agent tool is disabled") ;*
  let* claimed := attempt_ (claim r) in
  match claimed with
  | inl id => execute_claimed t r id
  | inr e => if errors_Is e ErrNoRows then replay t r
             else raise (NewInternal "claim voice agent tool execution" e)
  end.
End Service.
End AgentTools.
