(* ===== verification/AgentRuntime.v ===== *)
(** * Conversations of Voice Agents

    [ai/conversations], [ai/orchestration] and [runtime/agent]: an answered call gets
    a session, a snapshot of its agent's activation, and a media session configured
    from it; what the media session reports becomes turns; the session is completed
    when the call ends. The media node and FreeSWITCH answer as they like. *)

From S2P Require Import Prelude Json JsonValues MediaSession Encryption Programs Routing ObjectStore Secrets ConversationState AgentStore AgentProviders Agents AgentTools.
Local Open Scope Z_scope.

Module AgentRuntime.
Import AppErr Json JsonValues MediaSession Encryption Programs Secrets ConversationState AgentStore AgentProviders.

Section Runtime.
Context {L : AgentLib} {T : AgentTools.ToolLib} {U : UuidLib} {A : AEAD} {X : SecretLib}.
Context (cipher : bool).

(** ** Sessions and turns (ai/conversations/service.go) *)
Definition org_required (org : UUID) : result unit := guard_err (is_nil org) (NewBadRequest "organization_id is required").
Definition id_required (what : string) (id : UUID) : result unit := guard_err (is_nil id) (NewBadRequest (what +:+ " is required")).
Definition CreateSession (org call agent : UUID) : prog State VoiceAgentSession :=
  lift_ (org_required org) ;* lift_ (id_required "call id" call) ;* lift_ (id_required "voice agent id" agent) ;*
  wrap_ (conflict_or "call already has an active voice agent session" "create voice agent session")
    (exec (CreateVoiceAgentSession org call agent)).
Definition GetActiveByCall (org call : UUID) : prog State VoiceAgentSession :=
  lift_ (org_required org) ;* lift_ (id_required "call id" call) ;*
  wrap_ (dbError "active voice agent session not found") (query (GetActiveVoiceAgentSessionByCallID org call)).
Definition when_ended (ended : Z) : prog State Z := if IsZero ended then local time_now else done_ ended.
Definition Complete (org id : UUID) (state : string) (u : SessionSummary) (ended : Z) : prog State VoiceAgentSession :=
  lift_ (org_required org) ;* lift_ (id_required "session id" id) ;*
  raise_if (negb (bool_decide (state ∈ ["completed"; "failed"; "cancelled"]%string)))
    (NewBadRequest "session state must be completed, failed, or cancelled") ;*
  raise_if ((su_TurnCount u <? 0) || (su_InterruptionCount u <? 0)) (NewBadRequest "session counters cannot be negative") ;*
  let* ended := when_ended ended in
  wrap_ (dbError "active voice agent session not found") (exec (CompleteVoiceAgentSession org id state u ended)).
Definition turn_roles : list string := ["user"; "assistant"; "tool"; "system"].
Definition check_turn (c : TurnColumns) : result TurnColumns :=
  if tc_Sequence c <=? 0 then inr (NewBadRequest "turn sequence must be positive") else
  if negb (bool_decide (tc_Role c ∈ turn_roles)) then inr (NewBadRequest "turn role is invalid") else
  let content := TrimSpace (tc_Content c) in
  if bool_decide (content = "") then inr (NewBadRequest "turn content is required") else
  let metadata := match tc_Metadata c with [] => bytes "{}" | m => m end in
  match Valid metadata, Unmarshal_any_map metadata with
  | false, _ | _, IsError => inr (NewBadRequest "turn metadata must be a JSON object")
  | _, _ => inl {|
      tc_Sequence := tc_Sequence c; tc_Role := tc_Role c; tc_Content := content; tc_ProviderID := tc_ProviderID c;
      tc_ToolName := tc_ToolName c; tc_ToolCallID := tc_ToolCallID c; tc_Metadata := metadata;
      tc_SpeechStartedAt := tc_SpeechStartedAt c; tc_SpeechEndedAt := tc_SpeechEndedAt c;
      tc_SttLatencyMs := tc_SttLatencyMs c; tc_LlmTtftMs := tc_LlmTtftMs c; tc_TtsTtfbMs := tc_TtsTtfbMs c;
      tc_TurnLatencyMs := tc_TurnLatencyMs c |}
  end.
Definition CreateTurn (org session : UUID) (c : TurnColumns) : prog State VoiceAgentTurn :=
  lift_ (org_required org) ;* lift_ (id_required "session id" session) ;*
  let* c := lift_ (check_turn c) in
  wrap_ (conflict_or "turn sequence already exists" "create voice agent turn") (exec (CreateVoiceAgentTurn org session c)).
Definition ListTurns (org session : UUID) : prog State (list VoiceAgentTurn) :=
  lift_ (org_required org) ;* lift_ (id_required "session id" session) ;*
  wrap_ (NewInternal "list voice agent turns") (query (ListVoiceAgentTurnsBySessionID org session)).

(** ** Orchestration (ai/orchestration) *)
Definition appErrorCode (e : error) (code : string) : bool :=
  match e with AppError c _ _ _ => bool_decide (c = code) | _ => false end.
(** The second attempt reads the session another attachment made in between. *)
Definition AttachCall (org call agent : UUID) : prog State (option VoiceAgentSession) :=
  raise_if (is_nil org || is_nil call) (NewBadRequest "organization_id and call_id are required") ;*
  if is_nil agent then done_ None else
  let* active := attempt_ (GetActiveByCall org call) in
  match active with
  | inl x => done_ (Some x)
  | inr e =>
      if negb (appErrorCode e "NOT_FOUND") then raise e else
      let* found := attempt_ (Agents.Get org agent) in
      match found with
      | inr e => if appErrorCode e "NOT_FOUND" then done_ None else raise e
      | inl a =>
          let* created := attempt_ (CreateSession org call (va_ID a)) in
          match created with
          | inl x => done_ (Some x)
          | inr e => if negb (appErrorCode e "CONFLICT") then raise e
                     else let* x := GetActiveByCall org call in done_ (Some x)
          end
      end
  end.
Definition CompleteCallWithSummary (org call : UUID) (state : string) (ended : Z) (u : SessionSummary)
    : prog State (option VoiceAgentSession) :=
  let* active := attempt_ (GetActiveByCall org call) in
  match active with
  | inr e => if appErrorCode e "NOT_FOUND" then done_ None else raise e
  | inl x =>
      let* ended := when_ended ended in
      let* completed := attempt_ (Complete org (vs_ID x) state u ended) in
      match completed with
      | inl x => done_ (Some x)
      | inr e => if appErrorCode e "NOT_FOUND" then done_ None else raise e
      end
  end.
Definition runtime_of (b : ResolvedBinding) : ProviderRuntime :=
  {| pr_Role := rb_Role b; pr_Provider := rb_Provider b; pr_APIKey := rb_APIKey b; pr_Config := rb_Config b |}.
Definition ProviderRuntimesFromSnapshot (org : UUID) (snapshot : list BindingSnapshot) : prog State (list ProviderRuntime) :=
  let* l := ResolveSnapshot cipher org snapshot in done_ (runtime_of <$> l).
(** [roles]: of two runtimes with a role, the later one. *)
Definition provider_for (values : list ProviderRuntime) (role : string) : string :=
  default ""%string (Agents.lookup_role (reverse ((fun v => (pr_Role v, pr_Provider v)) <$> values)) role).
Definition validateProviderTopology (values : list ProviderRuntime) (engine : string) : result unit :=
  if bool_decide (engine = EngineIntegrated) then
    guard_err (negb (bool_decide (provider_for values "realtime" = "openai")))
      (NewBadRequest "Voice Agent requires an OpenAI realtime provider binding")
  else if bool_decide (engine = EngineComposable) then
    let? _ := guard_err (negb (bool_decide (provider_for values "stt" = "deepgram")))
                (NewBadRequest "Voice Agent requires a Deepgram STT provider binding") in
    let? _ := guard_err (negb (bool_decide (provider_for values "llm" = "groq")))
                (NewBadRequest "Voice Agent requires a Groq LLM provider binding") in
    guard_err (negb (bool_decide (provider_for values "tts" = "cartesia")))
      (NewBadRequest "Voice Agent requires a Cartesia TTS provider binding")
  else inl tt.
Definition definition_of (t : ToolSnapshot) : ToolDefinition :=
  {| td_ID := ts_ID t; td_Name := ts_Name t; td_Description := ts_Description t; td_Parameters := ts_Parameters t |}.
(** [MediaConfigFromSession] with the tools and providers of [attach]. *)
Definition media_config (x : VoiceAgentSession) (org call channel : UUID) (profile : EngineProfile)
    (providers : list ProviderRuntime) : Config :=
  let a := vs_Config x in {|
  cfg_ID := vs_ID x; cfg_OrganizationID := org; cfg_CallID := call; cfg_ChannelID := channel; cfg_Engine := ac_Engine a;
  cfg_InputFormat := prf_Input profile; cfg_OutputFormat := prf_Output profile;
  cfg_Language := default ""%string (ac_Language a); cfg_Instructions := ac_Instructions a;
  cfg_Voice := default ""%string (ac_Voice a); cfg_EngineConfig := ac_EngineConfig a;
  cfg_Tools := definition_of <$> ac_Tools a; cfg_Providers := providers |}.

(** ** The runtime of a worker (runtime/agent)

    A call is what the event handler has read of it. Outside: the media node
    (placement included), the control connection, and FreeSWITCH. *)
Record Call_ := { cl_ID : UUID; cl_OrganizationID : UUID; cl_VoiceAgentID : option UUID }.
Record Peers := {
  get_variable : string -> State -> result string;
  set_variable : string -> string -> State -> result unit;
  start_fork : string -> string -> Z -> State -> result unit;
  stop_fork : string -> State -> result unit;
  start_clock : string -> State -> result unit;
  break_clock : string -> State -> result unit;
  create_media : Config -> State -> result (string * string);
  stop_media : UUID -> State -> result unit;
  open_control : string -> State -> result unit;
  send_stop : Z -> State -> result unit;
  send_result : Z -> ToolResult -> State -> result unit;
}.
Context (P : Peers).

(** *** The maps *)
Definition conversationSummary (call : UUID) (s : State) : (SessionSummary * option UUID) * State :=
  let session := callSessions s !! call in
  let pointer := match session with Some id => memory s !! id | None => None end in
  let state := match pointer with Some p => heap s !! p | None => None end in
  ((match state with Some c => summary c | None => no_summary end, session), s).
Definition releaseConversation (call : UUID) (session : option UUID) (s : State) : unit * State :=
  (tt, set_worker (controls s) (match session with Some id => delete id (memory s) | None => memory s end) (heap s)
         (delete call (callSessions s)) s).
(** The section of [registerControl]; the connection is new. *)
Definition register (call session : UUID) (s : State) : option Z * State :=
  match controls s !! session with
  | Some _ => (None, s)
  | None =>
      let (c, s1) := fresh s in
      let (p, s2) := fresh s1 in
      let known := bool_decide (is_Some (memory s !! session)) in
      (Some c, set_worker (<[session := c]> (controls s)) (if known then memory s else <[session := p]> (memory s))
                 (if known then heap s else <[p := newConversationState]> (heap s))
                 (<[call := session]> (callSessions s)) s2)
  end.
Definition drop_control (session : UUID) (s : State) : option Z * State :=
  (controls s !! session, set_worker (delete session (controls s)) (memory s) (heap s) (callSessions s) s).
(** The deferred section of [observeControl]. *)
Definition forget_control (session : UUID) (c : Z) (s : State) : unit * State :=
  (tt, if bool_decide (controls s !! session = Some c)
       then set_worker (delete session (controls s)) (memory s) (heap s) (callSessions s) s else s).
(** A method of the conversation at [p], under its mutex. *)
Definition at_conversation {B} (p : Z) (f : conversationState -> option B * conversationState) (s : State) : option B * State :=
  match heap s !! p with
  | Some c => let (b, c') := f c in (b, set_worker (controls s) (memory s) (<[p := c']> (heap s)) (callSessions s) s)
  | None => (None, s)
  end.
Definition state_of (session : UUID) (s : State) : option Z * State := (memory s !! session, s).

(** *** lifecycle.go *)
Definition failSession (c : Call_) (ended : Z) : prog State unit :=
  let* ' (u, session) := local (conversationSummary (cl_ID c)) in
  CompleteCallWithSummary (cl_OrganizationID c) (cl_ID c) "failed" ended u ;*
  local (releaseConversation (cl_ID c) session).
Definition fail_now (c : Call_) : prog State unit := let* now := local time_now in failSession c now.
(** The error of a stop is that of closing when the stop could be sent. *)
Definition stopMediaSession (session : UUID) : prog State unit :=
  let* control := local (drop_control session) in
  match control with
  | Some c =>
      let* sent := attempt_ (query (send_stop P c)) in
      match sent with inl _ => done_ tt | inr _ => query (stop_media P session) end
  | None => query (stop_media P session)
  end.
Definition finish (c : Call_) (state : string) (ended : Z) : prog State unit :=
  let* ' (u, session) := local (conversationSummary (cl_ID c)) in
  let* completed := wrap_ (fun e => Wrapf "complete durable Voice Agent session: %w" [] e)
                      (CompleteCallWithSummary (cl_OrganizationID c) (cl_ID c) state ended u) in
  match completed with
  | None => done_ tt
  | Some x =>
      local (releaseConversation (cl_ID c) session) ;*
      wrap_ (fun e => Wrapf "stop Voice Agent media session: %w" [] e) (stopMediaSession (vs_ID x))
  end.
(** [errors.Join] of an error and the results of the clean-up. *)
Fixpoint join (e : error) (l : list (result unit)) : error :=
  match l with [] => e | inl _ :: l' => join e l' | inr x :: l' => join (JoinErr e x) l' end.
Fixpoint all_of (l : list (prog State unit)) : prog State (list (result unit)) :=
  match l with [] => done_ [] | p :: l' => let* r := attempt_ p in let* rs := all_of l' in done_ (r :: rs) end.
Definition fail_with {B} (e : error) (cleanup : list (prog State unit)) : prog State B :=
  let* rs := all_of cleanup in raise (join e rs).
Definition voiceAgentSessionVariable : string := "leamout_voice_agent_session_id".
Definition registerControl (call session : UUID) (url : string) : prog State Z :=
  query (open_control P url) ;*
  let* c := local (register call session) in
  match c with
  | Some c => done_ c
  | None => raise (Errorf "media control already registered for session %s" [uuid_String session])
  end.
(** What comes before the media session: its configuration. *)
Definition prepare (c : Call_) (x : VoiceAgentSession) (channel : UUID) : prog State (EngineProfile * Config) :=
  let failed {B} (f : error -> error) (r : prog State B) : prog State B :=
    let* v := attempt_ r in
    match v with inl b => done_ b | inr e => attempt_ (fail_now c) ;* raise (f e) end in
  let* profile := failed (fun e => e) (lift_ (ProfileForEngine (ac_Engine (vs_Config x)))) in
  let* providers := failed (fun e => Wrapf "resolve Voice Agent providers: %w" [] e)
                      (ProviderRuntimesFromSnapshot (cl_OrganizationID c) (ac_Bindings (vs_Config x))) in
  failed (fun e => Wrapf "validate Voice Agent provider topology: %w" [] e)
    (lift_ (validateProviderTopology providers (ac_Engine (vs_Config x)))) ;*
  done_ (profile, media_config x (cl_OrganizationID c) (cl_ID c) channel profile providers).
Definition connect (c : Call_) (x : VoiceAgentSession) (channelID : string) (profile : EngineProfile) (cfg : Config)
    : prog State unit :=
  let id := vs_ID x in
  let* created := attempt_ (call (fun s => (create_media P cfg s, log_media cfg s))) in
  match created with
  | inr e => attempt_ (fail_now c) ;* raise (Wrapf "create Voice Agent media session: %w" [] e)
  | inl (audio, control) =>
      let* registered := attempt_ (registerControl (cl_ID c) id control) in
      match registered with
      | inr e => fail_with (Wrapf "attach Voice Agent media control: %w" [] e) [stopMediaSession id; fail_now c]
      | inl _ =>
          let* forked := attempt_ (query (start_fork P channelID audio (SampleRateHz (prf_Input profile)))) in
          match forked with
          | inr e => fail_with (Wrapf "start Voice Agent audio fork: %w" [] e) [stopMediaSession id; fail_now c]
          | inl _ =>
              let* clocked := attempt_ (query (start_clock P channelID)) in
              match clocked with
              | inr e => fail_with (Wrapf "start Voice Agent audio clock: %w" [] e)
                           [query (stop_fork P channelID); query (break_clock P channelID); stopMediaSession id; fail_now c]
              | inl _ =>
                  let* marked := attempt_ (query (set_variable P channelID (uuid_String id))) in
                  match marked with
                  | inr e => fail_with (Wrapf "persist Voice Agent channel attachment: %w" [] e)
                               [query (stop_fork P channelID); stopMediaSession id; fail_now c]
                  | inl _ => done_ tt
                  end
              end
          end
      end
  end.
Definition attach (c : Call_) (channelID : string) : prog State unit :=
  match cl_VoiceAgentID c with
  | None => done_ tt
  | Some agent =>
      let* channel := lift_ (match uuid_Parse (TrimSpace channelID) with
                             | Some u => inl u | None => inr (Errorf "voice AI channel id is invalid: %w" []) end) in
      let* attached := wrap_ (fun e => Wrapf "attach durable Voice Agent session: %w" [] e)
                         (AttachCall (cl_OrganizationID c) (cl_ID c) agent) in
      match attached with
      | None => done_ tt
      | Some x =>
          let* existing := wrap_ (fun e => Wrapf "read Voice Agent channel attachment: %w" [] e)
                             (query (get_variable P channelID)) in
          let existing := TrimSpace existing in
          if negb (bool_decide (existing = "")) && negb (bool_decide (existing = "_undef_")) then
            if bool_decide (existing = uuid_String (vs_ID x)) then done_ tt
            else raise (Errorf "FreeSWITCH channel is already attached to Voice Agent session %s" [existing])
          else
            let* ' (profile, cfg) := prepare c x channel in
            connect c x channelID profile cfg
      end
  end.
Inductive Lifecycle := Answered (channelID : string) | Ended (state : string) (at_ : Z) | OtherEvent.
Definition HandleLifecycle (c : Call_) (e : Lifecycle) : prog State unit :=
  match e with
  | Answered channelID => attach c channelID
  | Ended state at_ => finish c state at_
  | OtherEvent => done_ tt
  end.

(** *** control.go *)
(** An error is only logged. *)
Definition persistTurn (org session : UUID) (t : TurnColumns) : prog State unit :=
  attempt_ (CreateTurn org session t) ;* done_ tt.
Definition persist_made (org session : UUID) (t : option TurnColumns) : prog State unit :=
  match t with Some t => persistTurn org session t | None => done_ tt end.
(** One event of a control connection; whether to go on. A tool call is executed
    beside ([executeRealtimeTool]). *)
Definition observe_event (c : Call_) (session : UUID) (e : Event) (provider : string) : prog State bool :=
  let* state := local (state_of session) in
  match state with
  | Some p => let* now := local time_now in local (at_conversation (B := unit) p (fun v => (None, observe e now v))) ;* done_ tt
  | None => done_ tt
  end ;*
  match state with
  | Some p =>
      if bool_decide (ev_Type e = EventTranscriptFinal) then
        let* t := local (at_conversation p (userTurn e provider)) in persist_made (cl_OrganizationID c) session t
      else if bool_decide (ev_Type e = EventResponseStopped) then
        let* t := local (at_conversation p (assistantTurn e provider)) in persist_made (cl_OrganizationID c) session t
      else done_ tt
  | None => done_ tt
  end ;*
  if bool_decide (ev_Type e = EventError) && match ev_Failure e with Some f => fe_Terminal f | None => false end then
    let* ended := when_ended (ev_OccurredAt e) in
    attempt_ (failSession c ended) ;*
    done_ false
  else done_ true.
(** The events until the connection ends or a failure is terminal. *)
Fixpoint observe_events (c : Call_) (session : UUID) (events : list (Event * string)) : prog State unit :=
  match events with
  | [] => done_ tt
  | (e, provider) :: rest =>
      let* go_on := observe_event c session e provider in
      if go_on then observe_events c session rest else done_ tt
  end.
Definition observeControl (c : Call_) (session : UUID) (control : Z) (events : list (Event * string)) : prog State unit :=
  observe_events c session events ;*
  local (forget_control session control).

(** The tool is looked up by name in the present tools of the agent. *)
Context (lookup : string -> State -> result (list ObjectStore.Addr)) (dial : ObjectStore.Addr -> State -> result unit)
  (post : ToolAction -> State -> result AgentTools.HttpResponse)
  (control : UUID -> UUID -> AgentTools.CallControl -> State -> result unit) (call_service : bool).
Abbreviation Execute := (AgentTools.Execute cipher lookup dial post control call_service).
Definition call_tool (c : Call_) (agent session : UUID) (id name : string) (arguments : list ascii)
    : prog State AgentTools.ExecuteResult :=
  let* t := AgentTools.ResolveByName (cl_OrganizationID c) agent name in
  Execute {| AgentTools.rq_OrganizationID := cl_OrganizationID c; AgentTools.rq_VoiceAgentID := agent;
             AgentTools.rq_SessionID := session; AgentTools.rq_CallID := cl_ID c; AgentTools.rq_ToolID := to_ID t;
             AgentTools.rq_ToolCallID := id; AgentTools.rq_Arguments := arguments |}.
Definition result_for (id name : string) (r : result AgentTools.ExecuteResult) : ToolResult :=
  let '(name, content, failed) := match r with
    | inl x => (AgentTools.er_Name x, of_bytes (AgentTools.er_Body x), false)
    | inr e => (name, AgentTools.tool_error_text e, true) end in
  {| tr_ToolCallID := id; tr_Name := name; tr_Content := if bool_decide (content = "") then "{}"%string else content;
     tr_IsError := failed |}.
Definition executeRealtimeTool (c : Call_) (session : UUID) (connection : Z) (id name : string) (arguments : list ascii)
    : prog State unit :=
  match cl_VoiceAgentID c with
  | None => done_ tt
  | Some agent =>
      let* outcome := attempt_ (call_tool c agent session id name arguments) in
      let r := result_for id name outcome in
      let* state := local (state_of session) in
      match state with
      | Some p =>
          let* t := local (at_conversation p (fun v => let (t, v') :=
            toolTurn (tr_Name r) (tr_ToolCallID r) (tr_Content r) (tr_IsError r) v in (Some t, v'))) in
          persist_made (cl_OrganizationID c) session t
      | None => done_ tt
      end ;*
      attempt_ (query (send_result P connection r)) ;* done_ tt
  end.
End Runtime.
End AgentRuntime.
