(* ===== verification/AgentSafety.v ===== *)
(** * Voice Agents: the invariant of any interleaving

    [inv] is what always holds of the tables and of what media nodes are sent,
    [guar] what a single call of any program may change. *)

From S2P Require Import Prelude Json MediaSession Encryption Programs Routing Secrets ConversationState AgentStore AgentProviders Agents AgentTools AgentRuntime.
Local Open Scope Z_scope.

Module AgentSafety.
Import Json MediaSession Encryption Programs Secrets ConversationState AgentStore AgentProviders AgentRuntime.

Section Safety.
Context {L : AgentLib} {U : UuidLib} {A : AEAD} {X : SecretLib}.
(** The secrets each organization has entered. *)
Context (entered : UUID -> string -> Prop).

(** ** The invariant *)
Definition needed (engine : string) : list (string * string) :=
  if bool_decide (engine = EngineIntegrated) then [("realtime", "openai")]%string
  else [("stt", "deepgram"); ("llm", "groq"); ("tts", "cartesia")]%string.
(** A media session can be run from this activation. *)
Record runnable (a : Activation) : Prop := {
  run_engine : ac_Engine a ∈ [EngineIntegrated; EngineComposable];
  run_roles : (fun b => (bs_Role b, bs_Provider b)) <$> ac_Bindings a ≡ₚ needed (ac_Engine a);
  run_config : is_object (ac_EngineConfig a) = true;
  run_configs : Forall (fun b => is_object (bs_Config b) = true) (ac_Bindings a);
  run_tools : Forall (fun t => ts_ID t <> uuid_Nil /\ ts_Name t <> ""%string /\ is_object (ts_Parameters t) = true) (ac_Tools a);
  run_names : NoDup (ts_Name <$> ac_Tools a);
}.
(** The ciphertext of a secret the organization entered, for this credential. *)
Definition seals (org id : UUID) (ciphertext : string) : Prop :=
  exists nonce secret, entered org secret /\ secret <> ""%string /\ length nonce = NonceSize
    /\ EncryptForScope nonce (credentialScope org id) secret = inl ciphertext.

Definition agent_row (s : State) (id : UUID) (a : VoiceAgent) : Prop :=
  va_ID a = id /\ id < next s /\ (is_object (va_EngineConfig a) = true /\ va_Engine a ∈ agent_engines)
  /\ forall c, va_Active a = Some c -> runnable c.
Definition binding_row (k : UUID * UUID * string) (b : VoiceAgentProviderBinding) : Prop :=
  (pb_OrganizationID b, pb_VoiceAgentID b, pb_Role b) = k /\ is_object (pb_Config b) = true.
Definition credential_row (s : State) (id : UUID) (c : AiProviderCredential) : Prop :=
  cr_ID c = id /\ id < next s /\ seals (cr_OrganizationID c) id (cr_SecretCiphertext c).
Definition tool_row_inv (s : State) (id : UUID) (t : VoiceAgentTool) : Prop :=
  to_ID t = id /\ 0 < id < next s /\ to_Name t <> ""%string /\ is_object (to_Parameters t) = true.
Definition session_row (s : State) (id : UUID) (x : VoiceAgentSession) : Prop :=
  vs_ID x = id /\ 0 < id < next s /\ runnable (vs_Config x).
(** A configuration a media node was sent: of a session, valid, and with secrets of
    its organization. *)
Record from_session (s : State) (c : Config) : Prop := {
  from_valid : Config_Validate c = inl tt;
  from_snapshot : exists x channel profile providers, sessions s !! cfg_ID c = Some x
    /\ c = media_config x (vs_OrganizationID x) (vs_CallID x) channel profile providers
    /\ (fun p => (pr_Role p, pr_Provider p, pr_Config p)) <$> providers
       = (fun b => (bs_Role b, bs_Provider b, bs_Config b)) <$> ac_Bindings (vs_Config x)
    /\ Forall (fun p => entered (vs_OrganizationID x) (pr_APIKey p)) providers;
}.
Definition same_name (t t' : VoiceAgentTool) : Prop := to_VoiceAgentID t = to_VoiceAgentID t' /\ to_Name t = to_Name t'.
Definition same_call_active (x x' : VoiceAgentSession) : Prop :=
  vs_CallID x = vs_CallID x' /\ vs_State x = "active"%string /\ vs_State x' = "active"%string.
(** No two rows of a table clash. *)
Definition apart {R} (m : gmap UUID R) (clash : R -> R -> Prop) : Prop :=
  forall i x j y, m !! i = Some x -> m !! j = Some y -> clash x y -> i = j.

Record inv (s : State) : Prop := {
  inv_next : 0 < next s;
  inv_agents : forall id a, agents s !! id = Some a -> agent_row s id a;
  inv_bindings : forall k b, provider_bindings s !! k = Some b -> binding_row k b;
  inv_credentials : forall id c, credentials s !! id = Some c -> credential_row s id c;
  inv_tools : forall id t, tools s !! id = Some t -> tool_row_inv s id t;
  inv_names : apart (tools s) same_name;
  inv_sessions : forall id x, sessions s !! id = Some x -> session_row s id x;
  inv_one : apart (sessions s) same_call_active;
  inv_placed : Forall (from_session s) (placed s);
}.

(** ** The guarantee *)
Definition same_session (x x' : VoiceAgentSession) : Prop :=
  vs_ID x' = vs_ID x /\ vs_OrganizationID x' = vs_OrganizationID x /\ vs_CallID x' = vs_CallID x
  /\ vs_VoiceAgentID x' = vs_VoiceAgentID x /\ vs_Config x' = vs_Config x /\ vs_StartedAt x' = vs_StartedAt x
  /\ (vs_State x <> "active"%string -> x' = x).
Record guar (s s' : State) : Prop := {
  guar_next : next s <= next s';
  guar_now : now s <= now s';
  guar_agents : forall id a, agents s !! id = Some a -> exists a', agents s' !! id = Some a'
    /\ va_OrganizationID a' = va_OrganizationID a
    /\ (va_Active a' = va_Active a \/ va_Active a' = Some (activation s a) /\ activatable s a = true);
  guar_sessions : forall id x, sessions s !! id = Some x -> exists x', sessions s' !! id = Some x' /\ same_session x x';
  guar_new_sessions : forall id x, sessions s' !! id = Some x -> sessions s !! id = None ->
    vs_State x = "active"%string /\ exists a, agents s !! vs_VoiceAgentID x = Some a
    /\ va_OrganizationID a = vs_OrganizationID x /\ va_Active a = Some (vs_Config x);
  guar_placed : exists l, placed s' = placed s ++ l;
}.
Lemma same_session_refl x : same_session x x.
Proof. by split_and!. Qed.
Lemma ag_guar_refl s : guar s s.
Proof.
  split; [lia|lia|..].
  - intros id a Ha. exists a. auto.
  - intros id x Hx. exists x. by split; [|apply same_session_refl].
  - congruence.
  - exists []. by rewrite app_nil_r.
Qed.

(** ** What keeps *)
Lemma from_session_guar s s' c : guar s s' -> from_session s c -> from_session s' c.
Proof.
  intros Hg [Hv (x & channel & profile & providers & Hx & Hc & Hb & He)]. split; [done|].
  destruct (guar_sessions _ _ Hg _ _ Hx) as (x' & Hx' & Hi & Ho & Hcall & _ & Hcfg & _).
  exists x', channel, profile, providers. rewrite Ho, Hcall, Hcfg. split_and!; [done| |done|done].
  rewrite Hc. unfold media_config. by rewrite Hi, Hcfg.
Qed.
Definition ok : State -> State -> Prop := allowed inv guar.
(** The invariant of what is new is left to show. *)
Lemma ag_allowed s s' :
  inv s -> guar s s' ->
  rows_ok (agents s) (agents s') (agent_row s') ->
  rows_ok (provider_bindings s) (provider_bindings s') binding_row ->
  rows_ok (credentials s) (credentials s') (credential_row s') ->
  rows_ok (tools s) (tools s') (tool_row_inv s') -> apart (tools s') same_name ->
  rows_ok (sessions s) (sessions s') (session_row s') -> apart (sessions s') same_call_active ->
  (forall c, c ∈ placed s' -> c ∈ placed s \/ from_session s' c) -> ok s s'.
Proof.
  intros Hi Hg Ha Hb Hc Ht Htn Hs Hso Hp. split; [|done]. pose proof (guar_next _ _ Hg) as Hn. split; try done.
  - pose proof (inv_next _ Hi). lia.
  - intros id a [Hold|]%Ha; [|done]. destruct (inv_agents _ Hi _ _ Hold) as (? & ? & [? ?] & ?). split_and!; [done|lia|done|done|done].
  - intros k b [Hold|]%Hb; [|done]. by apply (inv_bindings _ Hi).
  - intros id c [Hold|]%Hc; [|done]. destruct (inv_credentials _ Hi _ _ Hold) as (? & ? & ?). split_and!; [done|lia|done].
  - intros id t [Hold|]%Ht; [|done]. destruct (inv_tools _ Hi _ _ Hold) as (? & ? & ? & ?). split_and!; [done|lia|lia|done|done].
  - intros id x [Hold|]%Hs; [|done]. destruct (inv_sessions _ Hi _ _ Hold) as (? & ? & ?). split_and!; [done|lia|lia|done].
  - apply Forall_forall. intros c [Hold|]%Hp; [|done]. eapply from_session_guar; [done|].
    pose proof (inv_placed _ Hi) as Hall. rewrite Forall_forall in Hall. by apply Hall.
Qed.
(** A row whose clashes with the others have been ruled out. *)
Lemma apart_insert {R} (m : gmap UUID R) (clash : R -> R -> Prop) k r :
  apart m clash -> (forall x y, clash x y -> clash y x) ->
  (forall j y, m !! j = Some y -> j <> k -> ~ clash r y) -> apart (<[k := r]> m) clash.
Proof.
  intros Hm Hsym Hr i x j y. destruct (decide (i = k)) as [->|Hi]; destruct (decide (j = k)) as [->|Hj];
    rewrite ?lookup_insert_eq, ?lookup_insert_ne by done; try done.
  - intros [= <-] Hy Hc. by destruct (Hr _ _ Hy Hj).
  - intros Hx [= <-] Hc. destruct (Hr _ _ Hx Hi). by apply Hsym.
  - eauto.
Qed.
Lemma apart_delete {R} (m : gmap UUID R) (clash : R -> R -> Prop) k : apart m clash -> apart (delete k m) clash.
Proof. intros Hm i x j y [_ Hx]%lookup_delete_Some [_ Hy]%lookup_delete_Some. eauto. Qed.
Lemma rows_delete {K} `{Countable K} {R} (m : gmap K R) k (P : K -> R -> Prop) : rows_ok m (delete k m) P.
Proof. intros j x [_ Hx]%lookup_delete_Some. by left. Qed.
Lemma rows_of_elem {K} `{Countable K} {R} (m : gmap K R) x : x ∈ rows_of m <-> exists k, m !! k = Some x.
Proof.
  unfold rows_of. rewrite list_elem_of_fmap. split.
  - intros ([k y] & -> & Hin). exists k. by apply elem_of_map_to_list.
  - intros [k Hk]. exists (k, x). by split; [|apply elem_of_map_to_list].
Qed.
Lemma no_row {K} `{Countable K} {R} (m : gmap K R) (p : R -> bool) :
  existsb p (rows_of m) = false -> forall k x, m !! k = Some x -> p x = false.
Proof.
  intros Hp k x Hx. destruct (p x) eqn:Hpx; [|done]. assert (existsb p (rows_of m) = true); [|congruence].
  apply existsb_exists. exists x. split; [|done]. apply list_elem_of_In, rows_of_elem. by exists k.
Qed.
End Safety.
End AgentSafety.
