(* ===== verification/AgentStatements.v ===== *)
(** * Voice Agents: every statement keeps the invariant *)

From stdpp Require Import sorting.
From S2P Require Import Prelude Json MediaSession Encryption Programs Routing RecordingStore Secrets ConversationState AgentStore AgentProviders Agents AgentTools AgentRuntime AgentSafety.
Local Open Scope Z_scope.

Module AgentStatements.
Import AppErr Json MediaSession Encryption Programs Secrets ConversationState AgentStore AgentProviders AgentRuntime AgentSafety.

Section Statements.
Context {L : AgentLib} {U : UuidLib} {A : AEAD} {X : SecretLib}.
Context (entered : UUID -> string -> Prop).
Abbreviation inv := (inv entered).
Abbreviation ok := (ok entered).
Abbreviation seals := (seals entered).

(** What a change leaves alone. *)
Ltac unchanged s Hi := first
  [ exact (guar_agents _ _ (ag_guar_refl s)) | exact (guar_sessions _ _ (ag_guar_refl s))
  | exact (guar_new_sessions _ _ (ag_guar_refl s)) | exact (guar_placed _ _ (ag_guar_refl s))
  | exact (rows_same _ _) | exact (inv_names _ _ Hi) | exact (inv_one _ _ Hi) | by left | (simpl; lia) ].
Ltac alone s Hi := apply ag_allowed; [exact Hi|split|..]; try unchanged s Hi.

Lemma ag_ok_refl s : inv s -> ok s s.
Proof. intros Hi. split; [done|apply ag_guar_refl]. Qed.
Lemma ag_fresh_ok s : inv s -> ok s (snd (fresh s)).
Proof. intros Hi. alone s Hi. Qed.
Lemma worker_ok s c m h cs : inv s -> ok s (set_worker c m h cs s).
Proof. intros Hi. alone s Hi. Qed.
Lemma worker_fresh_ok s c m h cs : inv s -> ok s (set_worker c m h cs (snd (fresh (snd (fresh s))))).
Proof. intros Hi. alone s Hi. Qed.
Lemma log_action_ok s a : inv s -> ok s (log_action a s).
Proof. intros Hi. alone s Hi. Qed.
Lemma log_media_ok s c : inv s -> from_session entered s c -> ok s (log_media c s).
Proof.
  intros Hi Hc. alone s Hi.
  - exists [c]. done.
  - intros c' [?| ->%list_elem_of_singleton]%elem_of_app; [by left|right]. by destruct Hc.
Qed.

(** ** Agents *)
Lemma json_text_object v : json_text v = true -> is_object v = true.
Proof. by intros [? _]%andb_true_iff. Qed.
Lemma own_agent_inv s org id a : own_agent s org id = Some a -> agents s !! id = Some a /\ va_OrganizationID a = org.
Proof. unfold own_agent. destruct (agents s !! id); [|done]. case_bool_decide; [|done]. by intros [= ->]. Qed.
Lemma live_agent_inv s org id a : live_agent s org id = Some a -> own_agent s org id = Some a.
Proof. unfold live_agent. destruct (own_agent s org id); [|done]. case_bool_decide; [|done]. by intros [= ->]. Qed.
Lemma open_agent_inv s org id a :
  open_agent s org id = Some a -> agents s !! id = Some a /\ va_OrganizationID a = org.
Proof. unfold open_agent. destruct (org_active s org); [|done]. by intros ?%live_agent_inv%own_agent_inv. Qed.

(** An agent changes, its activation does not. *)
Record edited (a a' : VoiceAgent) : Prop := {
  edited_id : va_ID a' = va_ID a;
  edited_org : va_OrganizationID a' = va_OrganizationID a;
  edited_active : va_Active a' = va_Active a;
  edited_config : is_object (va_EngineConfig a) = true /\ va_Engine a ∈ agent_engines ->
    is_object (va_EngineConfig a') = true /\ va_Engine a' ∈ agent_engines;
}.
Lemma edited_guar s (m : gmap UUID VoiceAgent) id a a' :
  agents s !! id = Some a -> m = <[id := a']> (agents s) -> edited a a' ->
  forall k x, agents s !! k = Some x -> exists x', m !! k = Some x' /\ va_OrganizationID x' = va_OrganizationID x
    /\ (va_Active x' = va_Active x \/ va_Active x' = Some (activation s x) /\ activatable s x = true).
Proof.
  intros Ha -> [_ Ho Hc _] k x Hx. destruct (decide (k = id)) as [->|Hne].
  - rewrite lookup_insert_eq. assert (x = a) as -> by congruence. exists a'. auto.
  - rewrite lookup_insert_ne by done. eauto.
Qed.
Lemma edited_row s s' id a a' :
  inv s -> agents s !! id = Some a -> edited a a' -> next s <= next s' ->
  rows_ok (agents s) (<[id := a']> (agents s)) (agent_row s').
Proof.
  intros Hi Ha [Hid _ Hc Hcfg] Hn. apply rows_insert. destruct (inv_agents _ _ Hi _ _ Ha) as (? & ? & ? & ?).
  split; [congruence|]. split; [lia|]. split; [auto|by rewrite Hc].
Qed.
Lemma edited_ok s id a a' : inv s -> agents s !! id = Some a -> edited a a' -> ok s (set_agents (<[id := a']> (agents s)) s).
Proof.
  intros Hi Ha He. alone s Hi; [by eapply edited_guar|by eapply edited_row; [..|simpl; lia]].
Qed.
Lemma put_agent_inv a s x s' : put_agent a s = inl (x, s') ->
  (is_object (va_EngineConfig a) = true /\ va_Engine a ∈ agent_engines) /\ x = a /\ s' = set_agents (<[va_ID a := a]> (agents s)) s.
Proof.
  unfold put_agent. destruct (agent_row_ok a) eqn:Hrow; [|done]. simpl. repeat (case_match; [done|]). intros [= <- <-].
  split; [|done]. unfold agent_row_ok in Hrow. rewrite !andb_true_iff in Hrow.
  destruct Hrow as [[[[[[[[_ He%bool_decide_eq_true] _] _] _] Hj] _] _] _]. split; [by apply json_text_object|exact He].
Qed.
Lemma CreateVoiceAgent_ok s org c x s' : inv s -> CreateVoiceAgent org c s = inl (x, s') -> ok s s'.
Proof.
  intros Hi. unfold CreateVoiceAgent. destruct (org_active s org); [|done]. cbn [fresh negb].
  intros (Hcfg & -> & ->)%put_agent_inv. alone s Hi.
  - intros id a Ha. exists a. split; [|auto]. simpl. rewrite lookup_insert_ne; [done|].
    destruct (inv_agents _ _ Hi _ _ Ha) as (_ & ? & _). lia.
  - apply rows_insert. split; [done|]. split; [simpl; lia|]. by split.
Qed.
Lemma UpdateVoiceAgent_ok s org id p x s' : inv s -> UpdateVoiceAgent org id p s = inl (x, s') -> ok s s'.
Proof.
  intros Hi. unfold UpdateVoiceAgent. destruct (open_agent s org id) as [a|] eqn:Ha; [|done].
  apply open_agent_inv in Ha as [Ha _]. intros (Hcfg & _ & ->)%put_agent_inv.
  destruct (inv_agents _ _ Hi _ _ Ha) as (Hid & _). cbn [va_ID with_columns]. rewrite Hid.
  by eapply edited_ok; [| |split].
Qed.
Lemma DisableVoiceAgent_ok s org id x s' : inv s -> DisableVoiceAgent org id s = inl (x, s') -> ok s s'.
Proof.
  intros Hi. unfold DisableVoiceAgent. destruct (open_agent s org id) as [a|] eqn:Ha; intros [= _ <-]; [|by apply ag_ok_refl].
  apply open_agent_inv in Ha as [Ha _]. by eapply edited_ok; [| |split].
Qed.
(** The triggers: the revision of the agent, and nothing else. *)
Lemma bump_inv s org id s' : bump_voice_agent_configuration_revision org id s = inl s' ->
  s' = s \/ exists a a', agents s !! id = Some a /\ edited a a' /\ s' = set_agents (<[id := a']> (agents s)) s.
Proof.
  unfold bump_voice_agent_configuration_revision. destruct (own_agent s org id) as [a|] eqn:Ha; [|intros [= <-]; by left].
  case_match; [done|]. intros [= <-]. apply own_agent_inv in Ha as [Ha _]. right. eexists a, _.
  split; [done|]. split; [|reflexivity]. by split.
Qed.

(** ** Activation *)
Lemma rows_nodup {K} `{Countable K} {R} (m : gmap K R) (key : R -> K) :
  (forall k x, m !! k = Some x -> key x = k) -> NoDup (rows_of m).
Proof.
  intros Hk. unfold rows_of. apply NoDup_fmap_2_strong; [|apply NoDup_map_to_list].
  intros [i x] [j y] Hx%elem_of_map_to_list Hy%elem_of_map_to_list; simpl; intros ->.
  apply Hk in Hx, Hy. congruence.
Qed.
(** The roles of an agent's bindings differ: they are part of the key. *)
Lemma elem_bindings_of s org agent b :
  inv s -> b ∈ bindings_of s org agent -> provider_bindings s !! (org, agent, pb_Role b) = Some b.
Proof.
  intros Hi. unfold bindings_of. rewrite merge_sort_Permutation, list_elem_of_filter.
  intros [Hof [k Hk]%rows_of_elem]. destruct (inv_bindings _ _ Hi _ _ Hk) as [<- _].
  unfold of_agent in Hof. rewrite andb_true_iff, !bool_decide_eq_true in Hof. destruct Hof as [<- <-]. exact Hk.
Qed.
Lemma roles_nodup s org agent : inv s -> NoDup (pb_Role <$> bindings_of s org agent).
Proof.
  intros Hi. apply NoDup_fmap_2_strong.
  - intros x y Hx%(elem_bindings_of s _ _ _ Hi) Hy%(elem_bindings_of s _ _ _ Hi) Hr. congruence.
  - unfold bindings_of. rewrite merge_sort_Permutation. apply NoDup_filter.
    eapply rows_nodup. intros k x Hx. apply (inv_bindings _ _ Hi _ _ Hx).
Qed.
Lemma count_all (p : VoiceAgentProviderBinding -> bool) l b : count p l = length l -> b ∈ l -> p b = true.
Proof.
  unfold count. induction l as [|x l IH]; intros Hc Hb; [by apply elem_of_nil in Hb|]. rewrite filter_cons in Hc.
  pose proof (length_filter (fun b => p b = true) l). simpl in Hc.
  destruct (decide (p x = true)) as [Hx|]; simpl in Hc; [|lia].
  apply elem_of_cons in Hb as [->|Hb]; [done|]. apply IH; [lia|done].
Qed.
(** As many pairs as an engine needs, with different roles, are the ones it needs. *)
Lemma pairs_needed (l : list VoiceAgentProviderBinding) (pairs : list (string * string)) :
  NoDup (pb_Role <$> l) -> length l = length pairs ->
  (forall b, b ∈ l -> (pb_Role b, pb_Provider b) ∈ pairs) -> (fun b => (pb_Role b, pb_Provider b)) <$> l ≡ₚ pairs.
Proof.
  intros Hnd Hlen Hin. apply submseteq_length_Permutation; [|rewrite length_fmap; lia].
  apply NoDup_submseteq.
  - apply (NoDup_fmap_1 fst). rewrite <- list_fmap_compose. exact Hnd.
  - intros x (b & -> & Hb)%list_elem_of_fmap. by apply Hin.
Qed.
Lemma activatable_roles s a : inv s -> activatable s a = true ->
  va_Engine a ∈ [EngineIntegrated; EngineComposable]
  /\ (fun b => (bs_Role b, bs_Provider b)) <$> ac_Bindings (activation s a) ≡ₚ needed (va_Engine a).
Proof.
  intros Hi [_ Hc]%andb_true_iff. cbn [ac_Bindings activation]. rewrite <- list_fmap_compose.
  set (l := bindings_of s (va_OrganizationID a) (va_ID a)) in *.
  pose proof (roles_nodup s (va_OrganizationID a) (va_ID a) Hi) as Hnd. fold l in Hnd.
  assert (forall p (pairs : list (string * string)), count p l = length pairs -> length l = length pairs ->
    (forall b, p b = true -> (pb_Role b, pb_Provider b) ∈ pairs) ->
    (fun b => (pb_Role b, pb_Provider b)) <$> l ≡ₚ pairs) as Hpairs.
  { intros p pairs Hn Hl Hp. apply pairs_needed; [done|done|]. intros b Hb. apply Hp, (count_all p l); [congruence|done]. }
  apply orb_true_iff in Hc as [Hc|Hc]; rewrite !andb_true_iff, !bool_decide_eq_true in Hc;
    destruct Hc as [[Heng Hn] Hl]; rewrite Heng; (split; [repeat (first [by left|right])|]).
  - apply (Hpairs integrated_pair); [done|done|]. intros b ->%bool_decide_eq_true. by left.
  - apply (Hpairs composable_pair); [done|done|]. by intros b Hb%bool_decide_eq_true.
Qed.
Lemma elem_agent_tools s org agent t :
  inv s -> t ∈ merge_sort by_tool_name (filter (fun t => tool_of_agent org agent t && to_Enabled t = true) (rows_of (tools s))) ->
  tools s !! to_ID t = Some t /\ to_VoiceAgentID t = agent.
Proof.
  intros Hi. rewrite merge_sort_Permutation, list_elem_of_filter.
  intros [Hof [k Hk]%rows_of_elem]. destruct (inv_tools _ _ Hi _ _ Hk) as [-> _].
  unfold tool_of_agent in Hof. rewrite !andb_true_iff, !bool_decide_eq_true in Hof. tauto.
Qed.
Lemma activation_runnable s id a : inv s -> agents s !! id = Some a -> activatable s a = true -> runnable (activation s a).
Proof.
  intros Hi Ha Hok. destruct (activatable_roles s a Hi Hok) as [He Hr].
  destruct (inv_agents _ _ Hi _ _ Ha) as (_ & _ & [Hcfg _] & _). split; [done|done|done|..].
  - apply Forall_forall. intros b (x & -> & Hx%(elem_bindings_of s _ _ _ Hi))%list_elem_of_fmap.
    apply (inv_bindings _ _ Hi _ _ Hx).
  - apply Forall_forall. intros t (x & -> & Hx)%list_elem_of_fmap. destruct (elem_agent_tools _ _ _ _ Hi Hx) as [Hx' _].
    destruct (inv_tools _ _ Hi _ _ Hx') as (_ & ? & ? & ?). split_and!; [|done|done].
    simpl. change uuid_Nil with 0. lia.
  - cbn [ac_Tools activation]. rewrite <- list_fmap_compose. apply NoDup_fmap_2_strong.
    + intros x y [Hx Hxa]%(elem_agent_tools _ _ _ _ Hi) [Hy Hya]%(elem_agent_tools _ _ _ _ Hi) Hn.
      assert (to_ID x = to_ID y) as Hid; [|congruence]. eapply (inv_names _ _ Hi); [exact Hx|exact Hy|].
      split; [congruence|exact Hn].
    + rewrite merge_sort_Permutation. apply NoDup_filter. eapply rows_nodup.
      intros k x Hx. apply (inv_tools _ _ Hi _ _ Hx).
Qed.
Lemma ActivateVoiceAgent_ok s org id x s' : inv s -> ActivateVoiceAgent org id s = inl (x, s') -> ok s s'.
Proof.
  intros Hi. unfold ActivateVoiceAgent. destruct (live_agent s org id) as [a|] eqn:Ha; [|done].
  apply live_agent_inv, own_agent_inv in Ha as [Ha _]. destruct (activatable s a) eqn:Hok; [|done]. intros [= _ <-].
  alone s Hi.
  - intros k y Hy. destruct (decide (k = id)) as [->|Hne].
    + simpl. rewrite lookup_insert_eq. eexists. split; [done|]. assert (y = a) as -> by congruence. auto.
    + simpl. rewrite lookup_insert_ne by done. eauto.
  - apply rows_insert. destruct (inv_agents _ _ Hi _ _ Ha) as (? & ? & ? & _). split; [done|]. split; [simpl; lia|].
    split; [done|]. intros c [= <-]. by eapply activation_runnable.
Qed.

(** ** Credentials and the services of an agent *)
Lemma own_credential_inv s org id c :
  own_credential s org id = Some c -> credentials s !! id = Some c /\ cr_OrganizationID c = org.
Proof. unfold own_credential. destruct (credentials s !! id); [|done]. case_bool_decide; [|done]. by intros [= ->]. Qed.
Lemma CreateAIProviderCredential_ok s id org provider name ciphertext x s' :
  inv s -> id < next s -> seals org id ciphertext ->
  CreateAIProviderCredential id org provider name ciphertext s = inl (x, s') -> ok s s'.
Proof.
  intros Hi Hid Hs. unfold CreateAIProviderCredential. repeat (case_match; [done|]). intros [= _ <-]. alone s Hi.
  apply rows_insert. by split_and!.
Qed.
Lemma credential_put s id c c' :
  inv s -> credentials s !! id = Some c -> cr_ID c' = cr_ID c -> cr_OrganizationID c' = cr_OrganizationID c ->
  seals (cr_OrganizationID c) id (cr_SecretCiphertext c') -> ok s (set_credentials (<[id := c']> (credentials s)) s).
Proof.
  intros Hi Hc Hid Ho Hs. alone s Hi. apply rows_insert. destruct (inv_credentials _ _ Hi _ _ Hc) as (? & ? & _).
  split_and!; [congruence|simpl; lia|by rewrite Ho].
Qed.
Lemma RotateAIProviderCredential_ok s org id ciphertext x s' :
  inv s -> seals org id ciphertext -> RotateAIProviderCredential org id ciphertext s = inl (x, s') -> ok s s'.
Proof.
  intros Hi Hs. unfold RotateAIProviderCredential. destruct (own_credential s org id) as [c|] eqn:Hc; [|done].
  apply own_credential_inv in Hc as [Hc <-]. case_match; [done|]. intros [= _ <-]. by eapply credential_put.
Qed.
Lemma UpdateAIProviderCredentialVerification_ok s org id state failure x s' :
  inv s -> UpdateAIProviderCredentialVerification org id state failure s = inl (x, s') -> ok s s'.
Proof.
  intros Hi. unfold UpdateAIProviderCredentialVerification. destruct (own_credential s org id) as [c|] eqn:Hc; [|done].
  apply own_credential_inv in Hc as [Hc _]. case_match; [done|]. intros [= _ <-]. eapply credential_put; try done.
  apply (inv_credentials _ _ Hi _ _ Hc).
Qed.
Lemma DeleteAIProviderCredential_ok s org id x s' :
  inv s -> DeleteAIProviderCredential org id s = inl (x, s') -> ok s s'.
Proof.
  intros Hi. unfold DeleteAIProviderCredential. repeat case_match; intros [= _ <-]; try by apply ag_ok_refl.
  alone s Hi. apply rows_delete.
Qed.
(** A change of the bindings and the trigger. *)
Lemma bindings_bump_ok s s1 org id s' :
  inv s -> ok s s1 -> agents s1 = agents s -> bump_voice_agent_configuration_revision org id s1 = inl s' -> ok s s'.
Proof.
  intros Hi [Hi1 Hg] Ha [->|(a & a' & Hid & He & ->)]%bump_inv; [by split|].
  destruct (edited_ok s1 id a a' Hi1 Hid He) as [Hi' _]. rewrite Ha in Hid.
  split; [exact Hi'|]. destruct Hg. split; try done.
  by eapply edited_guar; [done| |done]; simpl; rewrite Ha.
Qed.
Lemma UpsertVoiceAgentProviderBinding_ok s org agent role provider credential config x s' :
  inv s -> UpsertVoiceAgentProviderBinding org agent role provider credential config s = inl (x, s') -> ok s s'.
Proof.
  intros Hi. unfold UpsertVoiceAgentProviderBinding. destruct (_ && json_text config) eqn:Hcfg; [|done].
  apply andb_true_iff in Hcfg as [_ Hcfg%json_text_object]. cbn [negb].
  destruct (negb (_ && bool_decide (is_Some (own_credential _ _ _)))); [done|].
  destruct (provider_bindings s !! (org, agent, role)) as [b|] eqn:Hb; cbn [fresh].
  all: intros (s1 & Hs1 & [= _ <-])%rbind_ok_inv; eapply (bindings_bump_ok _ _ _ _ _ Hi); [| |exact Hs1]; [|done];
    alone s Hi; apply rows_insert; by split.
Qed.
Lemma DeleteVoiceAgentProviderBinding_ok s org agent role x s' :
  inv s -> DeleteVoiceAgentProviderBinding org agent role s = inl (x, s') -> ok s s'.
Proof.
  intros Hi. unfold DeleteVoiceAgentProviderBinding. case_match; [|intros [= _ <-]; by apply ag_ok_refl].
  intros (s1 & Hs1 & [= _ <-])%rbind_ok_inv. eapply (bindings_bump_ok _ _ _ _ _ Hi); [| |exact Hs1]; [|done]. alone s Hi. apply rows_delete.
Qed.

(** ** Tools *)
Lemma tool_row_ok_inv t : tool_row_ok t = true -> to_Name t <> ""%string /\ is_object (to_Parameters t) = true.
Proof.
  unfold tool_row_ok. rewrite !andb_true_iff. intros [[[[[_ Hn] _] Hp] _] _]. split; [|by apply json_text_object].
  intros He. rewrite He in Hn. by vm_compute in Hn.
Qed.
Lemma put_tool_ok s s1 t s' :
  inv s -> s1 = s \/ s1 = snd (fresh s) -> 0 < to_ID t < next s1 -> put_tool t s1 = inl s' -> ok s s'.
Proof.
  intros Hi Hs1 Hid. unfold put_tool. destruct (tool_row_ok t) eqn:Hrow; [|done]. cbn [negb].
  destruct (existsb _ _) eqn:Hex; [done|]. apply tool_row_ok_inv in Hrow as [Hn Hp].
  assert (agents s1 = agents s /\ tools s1 = tools s /\ now s1 = now s /\ next s <= next s1) as (Ea & Et & _ & En).
  { destruct Hs1 as [->| ->]; split_and!; simpl; done || lia. }
  apply bindings_bump_ok; [done| |exact Ea]. rewrite Et in Hex |- *.
  assert (forall k x, tools s !! k = Some x -> k <> to_ID t -> ~ same_name t x) as Hapart.
  { intros k x Hx Hk [Hag Hna]. apply (no_row _ _ Hex) in Hx as Hcl.
    destruct (inv_tools _ _ Hi _ _ Hx) as [Hkx _]. unfold tool_clash in Hcl.
    rewrite Hkx, Hag, Hna, (bool_decide_eq_false_2 (to_ID t = k)) in Hcl by congruence.
    by rewrite !bool_decide_eq_true_2 in Hcl. }
  assert (apart (<[to_ID t := t]> (tools s)) same_name).
  { apply apart_insert; [apply (inv_names _ _ Hi)|by intros x y [? ?]|exact Hapart]. }
  destruct Hs1 as [->| ->]; (alone s Hi; [apply rows_insert; split; [done|]; simpl in *; split_and!; (done || lia)|done]).
Qed.
Lemma CreateVoiceAgentTool_ok s org agent type c x s' :
  inv s -> CreateVoiceAgentTool org agent type c s = inl (x, s') -> ok s s'.
Proof.
  intros Hi. unfold CreateVoiceAgentTool. destruct (open_agent s org agent); [|done]. cbn [fresh].
  intros (s1 & Hs1 & [= _ <-])%rbind_ok_inv. eapply put_tool_ok; [done|by right| |exact Hs1].
  pose proof (inv_next _ _ Hi). simpl. lia.
Qed.
Lemma put_secret_ok s s1 id ciphertext s' : ok s s1 -> put_secret id ciphertext s1 = inl s' -> ok s s'.
Proof.
  intros [Hi Hg]. unfold put_secret. destruct (negb _); [done|]. intros [= <-].
  assert (ok s1 (set_tool_secrets (<[id := ciphertext]> (tool_secrets s1)) s1)) as [Hi' _] by (alone s1 Hi).
  split; [exact Hi'|]. destruct Hg. by split.
Qed.
Lemma CreateVoiceAgentWebhookTool_ok s id org agent c ciphertext x s' :
  inv s -> 0 < id < next s -> CreateVoiceAgentWebhookTool id org agent c ciphertext s = inl (x, s') -> ok s s'.
Proof.
  intros Hi Hid. unfold CreateVoiceAgentWebhookTool. destruct (open_agent s org agent); [|done].
  destruct (bool_decide _); [done|]. intros (s1 & Hs1 & (s2 & Hs2 & [= _ <-])%rbind_ok_inv)%rbind_ok_inv.
  eapply put_secret_ok; [|exact Hs2]. eapply put_tool_ok; [exact Hi|by left| |exact Hs1]. exact Hid.
Qed.
Lemma open_tool_inv s org agent id t : open_tool s org agent id = Some t -> tools s !! id = Some t.
Proof.
  unfold open_tool. destruct (tools s !! id) as [x|]; [|done]. destruct (open_agent _ _ _); [|done].
  destruct (tool_of_agent _ _ _); [|done]. by intros [= ->].
Qed.
Lemma UpdateVoiceAgentTool_ok s org agent id p x s' :
  inv s -> UpdateVoiceAgentTool org agent id p s = inl (x, s') -> ok s s'.
Proof.
  intros Hi. unfold UpdateVoiceAgentTool. destruct (open_tool s org agent id) as [t|] eqn:Ht; [|done].
  intros (s1 & Hs1 & [= _ <-])%rbind_ok_inv. eapply put_tool_ok; [done|by left| |exact Hs1].
  destruct (inv_tools _ _ Hi _ _ (open_tool_inv _ _ _ _ _ Ht)) as (Hid & ? & _). simpl. by rewrite Hid.
Qed.
Lemma DeleteVoiceAgentTool_ok s org agent id x s' : inv s -> DeleteVoiceAgentTool org agent id s = inl (x, s') -> ok s s'.
Proof.
  intros Hi. unfold DeleteVoiceAgentTool. case_match; [|intros [= _ <-]; by apply ag_ok_refl].
  intros (s1 & Hs1 & [= _ <-])%rbind_ok_inv. eapply (bindings_bump_ok _ _ _ _ _ Hi); [| |exact Hs1]; [|done]. alone s Hi.
  - apply rows_delete.
  - apply apart_delete, (inv_names _ _ Hi).
Qed.
Lemma RotateVoiceAgentToolSigningSecret_ok s org agent id ciphertext x s' :
  inv s -> RotateVoiceAgentToolSigningSecret org agent id ciphertext s = inl (x, s') -> ok s s'.
Proof.
  intros Hi. unfold RotateVoiceAgentToolSigningSecret. destruct (open_tool _ _ _ _) as [t|]; [|intros [= _ <-]; by apply ag_ok_refl].
  destruct (bool_decide _); [|intros [= _ <-]; by apply ag_ok_refl].
  intros (s1 & Hs1 & [= _ <-])%rbind_ok_inv. eapply put_secret_ok; [by apply ag_ok_refl|exact Hs1].
Qed.

(** ** Sessions, turns and executions *)
Lemma own_session_inv s org id x :
  own_session s org id = Some x -> sessions s !! id = Some x /\ vs_OrganizationID x = org /\ vs_State x = "active"%string.
Proof.
  unfold own_session. destruct (sessions s !! id) as [y|]; [|done]. destruct (_ && _) eqn:Hc; [|done]. intros [= ->].
  unfold is_active in Hc. rewrite andb_true_iff, !bool_decide_eq_true in Hc. tauto.
Qed.
Lemma CreateVoiceAgentSession_ok s org call agent x s' :
  inv s -> CreateVoiceAgentSession org call agent s = inl (x, s') -> ok s s'
    /\ sessions s' !! vs_ID x = Some x /\ vs_OrganizationID x = org /\ vs_CallID x = call.
Proof.
  intros Hi. unfold CreateVoiceAgentSession. destruct (calls s !! call) as [c|]; [|done].
  destruct (open_agent s org agent) as [a|] eqn:Ha; [|done]. apply open_agent_inv in Ha as [Ha Ho].
  destruct (negb _); [done|]. destruct (va_Active a) as [cfg|] eqn:Hcfg; [|done]. destruct (existsb _ _) eqn:Hex; [done|].
  cbn [fresh]. intros [= <- <-]. pose proof (inv_next _ _ Hi). split; [|split_and!; [apply lookup_insert_eq|done|done]].
  alone s Hi.
  - intros id y Hy. exists y. split; [|apply same_session_refl]. simpl. rewrite lookup_insert_ne; [done|].
    destruct (inv_sessions _ _ Hi _ _ Hy) as (_ & ? & _). lia.
  - intros id y. simpl. destruct (decide (id = next s)) as [->|Hne]; [rewrite lookup_insert_eq|rewrite lookup_insert_ne by done; congruence].
    intros [= <-] _. split; [done|]. by exists a.
  - apply rows_insert. split_and!; [done|simpl; lia|simpl; lia|]. destruct (inv_agents _ _ Hi _ _ Ha) as (_ & _ & _ & Hr). by apply Hr.
  - apply apart_insert; [apply (inv_one _ _ Hi)|by intros y z (? & ? & ?)|].
    intros j y Hy _ (Hc & _ & Hact). apply (no_row _ _ Hex) in Hy. unfold active_on, is_active in Hy. simpl in Hc.
    by rewrite Hc, Hact, !bool_decide_eq_true_2 in Hy.
Qed.
Lemma CompleteVoiceAgentSession_ok s org id state u ended x s' :
  inv s -> CompleteVoiceAgentSession org id state u ended s = inl (x, s') -> ok s s'.
Proof.
  intros Hi. unfold CompleteVoiceAgentSession. destruct (own_session s org id) as [y|] eqn:Hy; [|done].
  apply own_session_inv in Hy as (Hy & Ho & Hact). destruct (negb _) eqn:Hst; [done|]. intros [= _ <-].
  assert (state <> "active"%string) as Hne.
  { intros ->. by vm_compute in Hst. }
  alone s Hi.
  - intros k z Hz. simpl. destruct (decide (k = id)) as [->|Hk].
    + rewrite lookup_insert_eq. eexists. split; [done|]. assert (z = y) as -> by congruence. by split_and!.
    + rewrite lookup_insert_ne by done. exists z. split; [done|apply same_session_refl].
  - intros k z. simpl. destruct (decide (k = id)) as [->|Hk]; [congruence|rewrite lookup_insert_ne by done; congruence].
  - apply rows_insert. destruct (inv_sessions _ _ Hi _ _ Hy) as (? & [? ?] & ?). by split_and!.
  - apply apart_insert; [apply (inv_one _ _ Hi)|by intros ? ? (? & ? & ?)|]. intros j z _ _ (_ & ? & _). done.
Qed.
Lemma CreateVoiceAgentTurn_ok s org session c x s' : inv s -> CreateVoiceAgentTurn org session c s = inl (x, s') -> ok s s'.
Proof. intros Hi. unfold CreateVoiceAgentTurn. destruct (negb _); [done|]. destruct (negb _); [done|].
  destruct (bool_decide _); [done|]. intros [= _ <-]. alone s Hi. Qed.
Lemma ClaimVoiceAgentToolExecution_ok s org session agent tool call id arguments x s' :
  inv s -> ClaimVoiceAgentToolExecution org session agent tool call id arguments s = inl (x, s') -> ok s s'.
Proof.
  intros Hi. unfold ClaimVoiceAgentToolExecution. destruct (own_session s org session); [|done]. destruct (tools s !! tool); [|done].
  destruct (negb _); [done|]. destruct (negb _); [done|]. destruct (existsb _ _); [done|]. intros [= _ <-]. alone s Hi.
Qed.
Lemma set_executions_ok s m : inv s -> ok s (set_executions m s).
Proof. intros Hi. alone s Hi. Qed.
Lemma MarkVoiceAgentToolExecutionSucceeded_ok s org id status contentType body x s' :
  inv s -> MarkVoiceAgentToolExecutionSucceeded org id status contentType body s = inl (x, s') -> ok s s'.
Proof.
  intros Hi. unfold MarkVoiceAgentToolExecutionSucceeded. destruct (processing s org id); [|intros [= _ <-]; by apply ag_ok_refl].
  destruct (negb _); [done|]. intros [= _ <-]. by apply set_executions_ok.
Qed.
Lemma MarkVoiceAgentToolExecutionFailed_ok s org id message x s' :
  inv s -> MarkVoiceAgentToolExecutionFailed org id message s = inl (x, s') -> ok s s'.
Proof.
  intros Hi. unfold MarkVoiceAgentToolExecutionFailed. destruct (processing s org id); [|intros [= _ <-]; by apply ag_ok_refl].
  destruct (negb _); [done|]. intros [= _ <-]. by apply set_executions_ok.
Qed.
Lemma CreateVoiceAgentBinding_ok s org agent phone x s' :
  inv s -> CreateVoiceAgentBinding org agent phone s = inl (x, s') -> ok s s'.
Proof.
  intros Hi. unfold CreateVoiceAgentBinding. destruct (open_agent s org agent); [|done].
  destruct (negb _); [done|]. destruct (existsb _ _); [done|]. intros [= _ <-]. alone s Hi.
Qed.
Lemma DeleteVoiceAgentBinding_ok s org agent id x s' :
  inv s -> DeleteVoiceAgentBinding org agent id s = inl (x, s') -> ok s s'.
Proof.
  intros Hi. unfold DeleteVoiceAgentBinding. repeat case_match; intros [= _ <-]; try by apply ag_ok_refl. alone s Hi.
Qed.
End Statements.
End AgentStatements.
