(* ===== verification/AgentPrograms.v ===== *)
(** * Voice Agents: every program keeps the invariant

    The services of [AgentProviders.v] to [AgentRuntime.v] as triples of the logic of
    [Programs.v]. What they know between their calls: that an identifier has been
    handed out, that a session is one of this call, and that what is sent to a media
    node is of a session. *)

From S2P Require Import Prelude Json MediaSession Encryption Programs Routing ObjectStore RecordingStore Secrets ConversationState AgentStore AgentProviders Agents AgentTools AgentRuntime AgentSafety AgentStatements.
Local Open Scope Z_scope.

Create HintDb voice.
Create HintDb voice_programs.
Module AgentPrograms.
Import AppErr Json MediaSession Encryption Programs Secrets ConversationState AgentStore AgentProviders AgentRuntime AgentSafety AgentStatements.
#[export] Hint Resolve CreateVoiceAgent_ok UpdateVoiceAgent_ok DisableVoiceAgent_ok ActivateVoiceAgent_ok
  UpdateAIProviderCredentialVerification_ok DeleteAIProviderCredential_ok UpsertVoiceAgentProviderBinding_ok
  DeleteVoiceAgentProviderBinding_ok CreateVoiceAgentTool_ok UpdateVoiceAgentTool_ok DeleteVoiceAgentTool_ok
  RotateVoiceAgentToolSigningSecret_ok CompleteVoiceAgentSession_ok CreateVoiceAgentTurn_ok
  ClaimVoiceAgentToolExecution_ok MarkVoiceAgentToolExecutionSucceeded_ok MarkVoiceAgentToolExecutionFailed_ok
  CreateVoiceAgentBinding_ok DeleteVoiceAgentBinding_ok ag_fresh_ok worker_ok log_action_ok ag_ok_refl : voice.

Section Rules.
Context {L : AgentLib} {U : UuidLib} {A : AEAD} {X : SecretLib}.
Context (entered : UUID -> string -> Prop).
Abbreviation inv := (inv entered).
Abbreviation ok := (ok entered).

(** ** What is stable, and the rules of the calls *)
Definition keeps : (State -> Prop) -> Prop := stable inv guar.
Definition tri {B} : (State -> Prop) -> prog State B -> (B -> State -> Prop) -> Prop := triple inv guar.
Definition fine {B} (P : State -> Prop) (p : prog State B) : Prop := tri P p (fun _ _ => True).

Lemma ag_keeps_true : keeps (fun _ => True).
Proof. apply stable_True. Qed.
Lemma ag_keeps_pure (P : Prop) : keeps (fun _ => P).
Proof. apply stable_pure. Qed.
Lemma ag_keeps_and P Q : keeps P -> keeps Q -> keeps (fun s => P s /\ Q s).
Proof. apply stable_and. Qed.
(** An identifier that was handed out. *)
Definition handed (id : UUID) (s : State) : Prop := 0 < id < next s.
Lemma keeps_handed id : keeps (handed id).
Proof. intros s s' _ _ Hg [? ?]. pose proof (guar_next _ _ Hg). unfold handed. lia. Qed.
(** A session of this call, as it was or later. *)
Definition known (org call : UUID) (x : VoiceAgentSession) (s : State) : Prop :=
  vs_OrganizationID x = org /\ vs_CallID x = call /\ exists x', sessions s !! vs_ID x = Some x' /\ same_session x x'.
Lemma same_session_trans x y z : same_session x y -> same_session y z -> same_session x z.
Proof.
  intros (? & ? & ? & ? & ? & ? & Hxy) (? & ? & ? & ? & ? & ? & Hyz). split_and!; try congruence.
  intros Hx. specialize (Hxy Hx). subst y. auto.
Qed.
Lemma keeps_known org call x : keeps (known org call x).
Proof.
  intros s s' _ _ Hg (Ho & Hc & x' & Hx & Hs). split; [done|]. split; [done|].
  destruct (guar_sessions _ _ Hg _ _ Hx) as (x'' & Hx'' & Hs'). exists x''. split; [done|]. by eapply same_session_trans.
Qed.
Lemma keeps_known_some org call o : keeps (fun s => forall x, o = Some x -> known org call x s).
Proof. intros s s' Hi Hi' Hg H x Hx. exact (keeps_known org call x s s' Hi Hi' Hg (H x Hx)). Qed.
Lemma keeps_from_session c : keeps (fun s => from_session entered s c).
Proof. intros s s' _ _ Hg. by apply from_session_guar. Qed.
#[local] Hint Resolve ag_keeps_true ag_keeps_pure ag_keeps_and keeps_handed keeps_known keeps_known_some keeps_from_session : voice.

Lemma ag_exec {B} P (f : State -> result (B * State)) (R : B -> State -> Prop) :
  keeps P -> (forall x, keeps (R x)) ->
  (forall s x s', inv s -> P s -> f s = inl (x, s') -> ok s s' /\ R x s') -> tri P (exec f) R.
Proof. intros HP HR Hf. by apply triple_exec; [|apply ag_guar_refl|..]. Qed.
Lemma ag_query {B} P (f : State -> result B) (R : B -> State -> Prop) :
  keeps P -> (forall x, keeps (R x)) -> (forall s x, inv s -> P s -> f s = inl x -> R x s) -> tri P (query f) R.
Proof. intros HP HR Hf. by apply triple_query; [|apply ag_guar_refl|..]. Qed.
Lemma ag_fine_exec {B} P (f : State -> result (B * State)) :
  keeps P -> (forall s x s', inv s -> P s -> f s = inl (x, s') -> ok s s') -> fine P (exec f).
Proof. intros HP Hf. apply ag_exec; [done|intros; apply ag_keeps_true|]. eauto. Qed.
Lemma ag_fine_query {B} P (f : State -> result B) : keeps P -> fine P (query f).
Proof. intros HP. by apply ag_query; [|intros; apply ag_keeps_true|]. Qed.
Lemma ag_fine_call {B} P (f : State -> result B * State) :
  keeps P -> (forall s, inv s -> P s -> ok s (snd (f s))) -> fine P (call f).
Proof. intros HP Hf. apply triple_call; [done|intros; apply ag_keeps_true|]. intros s Hi Hs. split; [by apply Hf|done]. Qed.
Lemma ag_fine_local {B} P (f : State -> B * State) :
  keeps P -> (forall s, inv s -> ok s (snd (f s))) -> fine P (local f).
Proof. intros HP Hf. apply triple_local; [done|intros; apply ag_keeps_true|]. intros s Hi _. split; [by apply Hf|done]. Qed.
Lemma ag_fine_draw P : keeps P -> fine P draw.
Proof. intros HP. apply ag_fine_call; [done|]. intros s Hi _. by apply ag_fresh_ok. Qed.
Lemma ag_fine_now P : keeps P -> fine P (local time_now).
Proof. intros HP. apply ag_fine_local; [done|]. intros s Hi. by apply ag_ok_refl. Qed.
Lemma ag_uuid P : keeps P -> tri P uuid_New handed.
Proof.
  intros HP. apply triple_local; [done|apply keeps_handed|]. intros s Hi _. split; [by apply ag_fresh_ok|].
  pose proof (inv_next _ _ Hi). unfold handed. simpl. lia.
Qed.
Lemma ag_fine_done {B} P (b : B) : fine P (done_ b).
Proof. by apply triple_done. Qed.
Lemma ag_fine_raise {B} P e : fine (B := B) P (raise e).
Proof. apply triple_raise. Qed.
Lemma ag_fine_lift {B} P (r : result B) : fine P (lift_ r).
Proof. by apply triple_lift. Qed.
Lemma ag_fine_raise_if P c e : fine P (raise_if c e).
Proof. by apply triple_raise_if. Qed.
Lemma ag_fine_wrap {B} P f (p : prog State B) : fine P p -> fine P (wrap_ f p).
Proof. apply triple_wrap. Qed.
Lemma ag_fine_attempt {B} P (p : prog State B) : fine P p -> fine P (attempt_ p).
Proof. intros Hp. eapply triple_post; [by apply triple_attempt|done]. Qed.
Lemma ag_pre {B} P Q (p : prog State B) (R : B -> State -> Prop) :
  keeps P -> (forall s, inv s -> P s -> Q s) -> tri Q p R -> tri P p R.
Proof. intros HP. by apply triple_pre. Qed.
Lemma ag_weaken {B} P Q (p : prog State B) : keeps P -> keeps Q -> fine P p -> fine (fun s => P s /\ Q s) p.
Proof. intros HP HQ Hp. eapply triple_pre; [by apply ag_keeps_and| |exact Hp]. by intros s _ [? _]. Qed.
Lemma ag_fine_seq {B C} P (p : prog State B) (k : B -> prog State C) :
  keeps P -> fine P p -> (forall b, fine P (k b)) -> fine P (seq p k).
Proof. intros HP Hp Hk. eapply triple_seq; [exact Hp|]. intros b. apply ag_weaken; [done|apply ag_keeps_true|apply Hk]. Qed.
Lemma ag_fine_each {B} P (f : B -> prog State unit) l : keeps P -> (forall b, fine P (f b)) -> fine P (for_each f l).
Proof. intros HP Hf. apply triple_for_each. intros b _. apply Hf. Qed.
Lemma ag_fine_of {B} P (p : prog State B) (R : B -> State -> Prop) : tri P p R -> fine P p.
Proof. intros Hp. by eapply triple_post. Qed.
End Rules.
#[export] Hint Resolve ag_keeps_true ag_keeps_pure ag_keeps_and keeps_handed keeps_known keeps_known_some keeps_from_session : voice.

(** Programs that need to know nothing: by the rules, and the lemmas about the
    programs they call. *)
Ltac kept := cbn beta; solve [auto 60 with voice].
Ltac program_step := first
  [ solve [auto 4 with voice_programs nocore]
  | apply ag_fine_done | apply ag_fine_raise | apply ag_fine_lift | apply ag_fine_raise_if | apply ag_fine_wrap
  | apply ag_fine_attempt | (apply ag_fine_query; kept) | (apply ag_fine_now; kept) | (apply ag_fine_draw; kept)
  | (apply ag_fine_exec; [kept|intros; solve [eauto with voice]])
  | (apply ag_fine_each; [kept|intros ?])
  | (apply ag_fine_seq; [kept| |intros ?])
  | match goal with
    | |- fine _ _ (if ?c then _ else _) => destruct c
    | |- fine _ _ (match ?c with _ => _ end) => destruct c
    end ].
Ltac programs := repeat (program_step; cbn beta iota zeta).

Section Services.
Context {L : AgentLib} {U : UuidLib} {A : AEAD} {X : SecretLib}.
Context (entered : UUID -> string -> Prop) (cipher providers : bool).
Abbreviation inv := (inv entered).
Abbreviation ok := (ok entered).
Abbreviation keeps := (keeps entered).
Abbreviation tri := (tri entered).
Abbreviation fine := (fine entered).

#[local] Hint Resolve ag_keeps_true : voice_programs.
(** ** Agents and their services *)
Lemma fine_UpsertBinding P org agent role provider credential config :
  keeps P -> fine P (UpsertBinding org agent role provider credential config).
Proof. intros HP. unfold UpsertBinding. programs. Qed.
Lemma fine_DeleteBinding P org agent role : keeps P -> fine P (DeleteBinding org agent role).
Proof. intros HP. unfold DeleteBinding. programs. Qed.
Lemma fine_ListBindings P org agent : keeps P -> fine P (ListBindings org agent).
Proof. intros HP. unfold ListBindings. programs. Qed.
#[local] Hint Resolve fine_UpsertBinding fine_DeleteBinding fine_ListBindings : voice_programs.
Lemma fine_applyBindings P org agent l replace : keeps P -> fine P (Agents.applyBindings providers org agent l replace).
Proof. intros HP. unfold Agents.applyBindings, Agents.drop_unrequested, Agents.bind_one. programs. Qed.
Lemma fine_Agent_Get P org id : keeps P -> fine P (Agents.Get org id).
Proof. intros HP. unfold Agents.Get. programs. Qed.
#[local] Hint Resolve fine_applyBindings fine_Agent_Get : voice_programs.
Lemma fine_Agent_List P org : keeps P -> fine P (Agents.List_ org).
Proof. intros HP. unfold Agents.List_. programs. Qed.
Lemma fine_Agent_Create P org r : keeps P -> fine P (Agents.Create providers org r).
Proof. intros HP. unfold Agents.Create. programs. Qed.
Lemma fine_Agent_Update P org id r : keeps P -> fine P (Agents.Update providers org id r).
Proof. intros HP. unfold Agents.Update. programs. Qed.
Lemma fine_Agent_Disable P org id : keeps P -> fine P (Agents.Disable org id).
Proof. intros HP. unfold Agents.Disable. programs. Qed.
Lemma fine_CreateBinding P org agent phone : keeps P -> fine P (Agents.CreateBinding org agent phone).
Proof. intros HP. unfold Agents.CreateBinding. programs. Qed.
Lemma fine_ListPhoneBindings P org agent : keeps P -> fine P (Agents.ListPhoneBindings org agent).
Proof. intros HP. unfold Agents.ListPhoneBindings. programs. Qed.
Lemma fine_DeletePhoneBinding P org agent id : keeps P -> fine P (Agents.DeletePhoneBinding org agent id).
Proof. intros HP. unfold Agents.DeletePhoneBinding. programs. Qed.
Lemma fine_statuses P org l : keeps P -> fine P (statuses org l).
Proof. intros HP. induction l; simpl; programs; assumption. Qed.
#[local] Hint Resolve fine_statuses : voice_programs.
Lemma fine_Readiness P org agent : keeps P -> fine P (Agents.Readiness providers org agent).
Proof. intros HP. unfold Agents.Readiness, BindingStatuses. programs. Qed.
#[local] Hint Resolve fine_Readiness : voice_programs.
Lemma fine_Activate P org agent : keeps P -> fine P (Agents.Activate providers org agent).
Proof. intros HP. unfold Agents.Activate. programs. Qed.

(** ** Credentials *)
Lemma fine_ListIntegrations P org : keeps P -> fine P (ListIntegrations org).
Proof.
  intros HP. unfold ListIntegrations, ListCredentials. apply ag_fine_seq; [kept|programs|intros l].
  induction l; simpl; programs; assumption.
Qed.
Lemma fine_ids_required P what org id : fine P (ids_required what org id).
Proof. apply ag_fine_raise_if. Qed.
Lemma fine_DeleteCredential P org id : keeps P -> fine P (DeleteCredential org id).
Proof. intros HP. unfold DeleteCredential, ids_required. programs. Qed.
Lemma fine_VerifyIntegration P verify org id : keeps P -> fine P (VerifyIntegration cipher verify org id).
Proof. intros HP. unfold VerifyIntegration, ids_required, open_secret, Verify. programs. Qed.
(** The ciphertext is of what was entered. *)
Lemma tri_seal `{!SecretLaws X} P message org id secret :
  keeps P -> entered org secret -> secret <> ""%string ->
  tri P (encrypt message (credentialScope org id) secret) (fun c _ => seals entered org id c).
Proof.
  intros HP He Hne. unfold encrypt. apply triple_wrap. eapply triple_seq; [by apply ag_fine_draw|].
  intros n. apply triple_lift. intros c Hc s _ _. exists (random_bytes n NonceSize), secret.
  split_and!; [done|done|apply random_length|done].
Qed.
Lemma fine_CreateCredential `{!SecretLaws X} P org provider name secret :
  keeps P -> entered org (TrimSpace secret) -> fine P (CreateCredential cipher org provider name secret).
Proof.
  intros HP He. unfold CreateCredential. do 3 (apply ag_fine_seq; [kept|programs|intros _]); cbv zeta.
  eapply triple_seq; [apply (triple_raise_if _ _ _ _ _ (fun _ _ => TrimSpace secret <> ""%string)); intros Hs s _ _;
    by apply bool_decide_eq_false in Hs|intros []].
  apply (triple_fact _ _ _ (TrimSpace secret <> ""%string)); [tauto|intros Hne].
  apply ag_fine_seq; [kept|programs|intros _]. eapply triple_seq; [apply ag_uuid; kept|intros id].
  eapply triple_seq; [apply tri_seal; [kept|done|done]|intros c]. apply triple_wrap, ag_fine_exec; [kept|].
  intros s x s' Hi [[_ [_ Hid]] Hseals]. by apply CreateAIProviderCredential_ok.
Qed.
Lemma fine_RotateCredential `{!SecretLaws X} P org id secret :
  keeps P -> entered org (TrimSpace secret) -> fine P (RotateCredential cipher org id secret).
Proof.
  intros HP He. unfold RotateCredential, ids_required. apply ag_fine_seq; [kept|programs|intros _]. cbv zeta.
  eapply triple_seq; [apply (triple_raise_if _ _ _ _ _ (fun _ _ => TrimSpace secret <> ""%string)); intros Hs s _ _;
    by apply bool_decide_eq_false in Hs|intros []].
  apply (triple_fact _ _ _ (TrimSpace secret <> ""%string)); [tauto|intros Hne].
  do 2 (apply ag_fine_seq; [kept|programs|intros _]).
  eapply triple_seq; [apply tri_seal; [kept|done|done]|intros c]. apply triple_wrap, ag_fine_exec; [kept|].
  intros s x s' Hi [_ Hseals]. by apply RotateAIProviderCredential_ok.
Qed.

(** *** The secrets of a conversation *)
Definition resolved (org : UUID) (l : list BindingSnapshot) (r : list ResolvedBinding) : Prop :=
  (fun b => (rb_Role b, rb_Provider b, rb_Config b)) <$> r = (fun b => (bs_Role b, bs_Provider b, bs_Config b)) <$> l
  /\ Forall (fun b => entered org (rb_APIKey b) /\ rb_APIKey b <> ""%string) r.
Lemma tri_resolve_snapshots `{!AEADLaws A} P org l :
  keeps P -> tri P (resolve_snapshots org l) (fun r _ => resolved org l r).
Proof.
  intros HP. induction l as [|b l IH]; simpl; [by apply triple_done|].
  eapply triple_seq.
  { apply triple_wrap, (ag_query _ _ _ (fun c _ => seals entered org (bs_CredentialID b) (cr_SecretCiphertext c)));
      [done|intros; apply ag_keeps_pure|]. intros s c Hi _. unfold GetAIProviderCredential.
    destruct (own_credential s org _) as [c'|] eqn:Hc; [|done]. intros [= ->]. apply own_credential_inv in Hc as [Hc <-].
    apply (inv_credentials _ _ Hi _ _ Hc). }
  intros c. apply triple_seq with (R := fun _ _ => True); [by apply triple_raise_if|intros []].
  eapply triple_seq.
  { apply triple_wrap, (triple_lift _ _ _ _ (fun k _ => entered org k /\ k <> ""%string)).
    intros k Hk s _ [[_ (nonce & secret & He & Hne & Hlen & Henc)] _].
    assert (DecryptForScope (credentialScope org (bs_CredentialID b)) (cr_SecretCiphertext c) = inl secret) as Hd
      by (by eapply scoped_roundtrip).
    rewrite Hd in Hk. by injection Hk as <-. }
  intros k. eapply triple_seq.
  { eapply ag_pre; [| |exact IH]; [kept|]. tauto. }
  intros r. apply triple_done. intros s _ [[[[_ _] _] Hk] [Hr Hf]]. split; [|by constructor].
  rewrite !fmap_cons. f_equal. exact Hr.
Qed.

(** ** Tools *)
Lemma fine_Tool_Get P org agent id : keeps P -> fine P (AgentTools.Get org agent id).
Proof. intros HP. unfold AgentTools.Get, AgentTools.tool_id_required. programs. Qed.
Lemma fine_Tool_List P org agent : keeps P -> fine P (AgentTools.List_ org agent).
Proof. intros HP. unfold AgentTools.List_. programs. Qed.
Lemma fine_new_secret P org agent tool : keeps P -> fine P (AgentTools.new_secret org agent tool).
Proof. intros HP. unfold AgentTools.new_secret, AgentTools.newSigningSecret, encrypt. programs. Qed.
#[local] Hint Resolve fine_Tool_Get fine_Tool_List fine_new_secret : voice_programs.
Lemma fine_Tool_Create `{!AgentTools.ToolLib} P org agent r : keeps P -> fine P (AgentTools.Create cipher org agent r).
Proof.
  intros HP. unfold AgentTools.Create. apply ag_fine_seq; [kept|programs|intros _]. apply ag_fine_seq; [kept|programs|intros [type c]].
  destruct (bool_decide _); [programs|]. apply ag_fine_seq; [kept|programs|intros _].
  eapply triple_seq; [by apply ag_uuid|intros id]. apply ag_fine_seq; [kept|programs|intros [secret ciphertext]].
  apply ag_fine_seq; [kept| |intros; programs]. apply ag_fine_wrap, ag_fine_seq; [kept| |intros; programs].
  apply ag_fine_exec; [kept|]. intros s x s' Hi [_ Hid]. by apply CreateVoiceAgentWebhookTool_ok.
Qed.
Lemma fine_SigningSecret P org agent tool : keeps P -> fine P (AgentTools.SigningSecret cipher org agent tool).
Proof. intros HP. unfold AgentTools.SigningSecret. programs. Qed.
Lemma fine_RotateSigningSecret P org agent tool : keeps P -> fine P (AgentTools.RotateSigningSecret cipher org agent tool).
Proof. intros HP. unfold AgentTools.RotateSigningSecret, AgentTools.tool_id_required. programs. Qed.
Lemma fine_Tool_Update `{!AgentTools.ToolLib} P org agent id p : keeps P -> fine P (AgentTools.Update org agent id p).
Proof. intros HP. unfold AgentTools.Update, AgentTools.tool_id_required. programs. Qed.
Lemma fine_Tool_Delete P org agent id : keeps P -> fine P (AgentTools.Delete org agent id).
Proof. intros HP. unfold AgentTools.Delete, AgentTools.tool_id_required. programs. Qed.
Lemma fine_ResolveByName P org agent name : keeps P -> fine P (AgentTools.ResolveByName org agent name).
Proof. intros HP. unfold AgentTools.ResolveByName. programs. Qed.
#[local] Hint Resolve fine_SigningSecret fine_ResolveByName : voice_programs.
Section Executor.
Context {T : AgentTools.ToolLib}.
Context (lookup : string -> State -> result (list ObjectStore.Addr)) (dial : ObjectStore.Addr -> State -> result unit)
  (post : ToolAction -> State -> result AgentTools.HttpResponse)
  (control : UUID -> UUID -> AgentTools.CallControl -> State -> result unit) (call_service : bool).
Lemma fine_perform {B} P a (answer : State -> result B) : keeps P -> fine P (AgentTools.perform a answer).
Proof. intros HP. apply ag_fine_call; [done|]. intros s Hi _. by apply log_action_ok. Qed.
#[local] Hint Resolve @fine_perform : voice_programs.
Lemma fine_dial_first P l e : keeps P -> fine P (AgentTools.dial_first dial l e).
Proof. intros HP. revert e. induction l; intros e; simpl; programs; auto. Qed.
#[local] Hint Resolve fine_dial_first : voice_programs.
Lemma fine_DialContext P host : keeps P -> fine P (AgentTools.DialContext lookup dial host).
Proof. intros HP. unfold AgentTools.DialContext, AgentTools.resolveToolHost. programs. Qed.
#[local] Hint Resolve fine_DialContext : voice_programs.
Lemma fine_run_tool P t r : keeps P -> fine P (AgentTools.run_tool cipher lookup dial post control call_service t r).
Proof.
  intros HP. unfold AgentTools.run_tool, AgentTools.executeWebhook, AgentTools.prepare_webhook, AgentTools.executeBuiltin.
  programs.
Qed.
#[local] Hint Resolve fine_run_tool : voice_programs.
Lemma fine_Execute P r : keeps P -> fine P (AgentTools.Execute cipher lookup dial post control call_service r).
Proof.
  intros HP. unfold AgentTools.Execute, AgentTools.claim, AgentTools.execute_claimed, AgentTools.markFailed, AgentTools.replay.
  programs.
Qed.
End Executor.

(** ** Sessions and turns *)
Lemma find_row {K} `{Countable K} {R} (m : gmap K R) p x :
  find p (rows_of m) = Some x -> exists k, m !! k = Some x /\ p x = true.
Proof.
  intros [Hin Hp]%find_some. apply list_elem_of_In, rows_of_elem in Hin as [k Hk]. by exists k.
Qed.
Lemma tri_GetActiveByCall P org call : keeps P -> tri P (GetActiveByCall org call) (known org call).
Proof.
  intros HP. unfold GetActiveByCall. do 2 (apply triple_seq with (R := fun _ _ => True); [by apply triple_lift|intros []]).
  apply triple_wrap, ag_query; [kept|intros; kept|]. intros s x Hi _. unfold GetActiveVoiceAgentSessionByCallID.
  destruct (org_active s org); [|done]. unfold some_row. destruct (find _ _) as [y|] eqn:Hf; [|done]. intros [= ->].
  apply find_row in Hf as (k & Hk & Hp). unfold active_on in Hp. rewrite !andb_true_iff, !bool_decide_eq_true in Hp.
  destruct Hp as (Ho & Hc & _). destruct (inv_sessions _ _ Hi _ _ Hk) as [Hid _]. split; [done|]. split; [done|].
  exists x. rewrite Hid. split; [done|apply same_session_refl].
Qed.
Lemma tri_CreateSession P org call agent : keeps P -> tri P (CreateSession org call agent) (known org call).
Proof.
  intros HP. unfold CreateSession. do 3 (apply triple_seq with (R := fun _ _ => True); [by apply triple_lift|intros []]).
  apply triple_wrap, ag_exec; [kept|intros; kept|]. intros s x s' Hi _ Hx.
  destruct (CreateVoiceAgentSession_ok _ _ _ _ _ _ _ Hi Hx) as (Hok & Hs & Ho & Hc). split; [exact Hok|].
  split; [done|]. split; [done|]. exists x. split; [done|apply same_session_refl].
Qed.
(** What a call is attached to: a session of it. *)
Definition attached (org call : UUID) (o : option VoiceAgentSession) (s : State) : Prop :=
  (org <> uuid_Nil /\ call <> uuid_Nil) /\ forall x, o = Some x -> known org call x s.
Lemma keeps_attached org call o : keeps (attached org call o).
Proof. apply ag_keeps_and; [apply ag_keeps_pure|apply keeps_known_some]. Qed.
#[local] Hint Resolve keeps_attached : voice.
Lemma tri_attempted {B C} P (p : prog State B) (k : result B -> prog State C) (R : B -> State -> Prop) (Q : C -> State -> Prop) :
  keeps P -> (forall b, keeps (R b)) -> tri P p R ->
  (forall b, tri (fun s => P s /\ R b s) (k (inl b)) Q) -> (forall e, tri P (k (inr e)) Q) -> tri P (seq (attempt_ p) k) Q.
Proof.
  intros HP HR Hp Hl Hr. eapply triple_seq; [apply triple_attempt, Hp|]. intros [b|e]; [apply Hl|].
  eapply ag_pre; [kept| |apply Hr]. by intros s _ [? _].
Qed.
Lemma tri_AttachCall P org call agent : keeps P -> tri P (AttachCall org call agent) (attached org call).
Proof.
  intros HP. unfold AttachCall. destruct (is_nil org || is_nil call) eqn:Hnil; [apply triple_raise|].
  assert (org <> uuid_Nil /\ call <> uuid_Nil) as Hids.
  { apply orb_false_iff in Hnil as [?%bool_decide_eq_false ?%bool_decide_eq_false]. done. }
  change (tri P (done_ tt ;* ?p) ?R) with (tri P p R).
  destruct (is_nil agent); [by apply triple_done|].
  apply tri_attempted with (R := known org call); [kept|intros; kept|apply tri_GetActiveByCall; kept| |].
  { intros x. apply triple_done. intros s _ [_ Hk]. split; [done|]. intros y [= <-]. exact Hk. }
  intros e. destruct (negb _); [apply triple_raise|].
  apply tri_attempted with (R := fun _ _ => True); [kept|intros; kept|apply fine_Agent_Get; kept| |].
  2: { intros e'. destruct (appErrorCode _ _); [by apply triple_done|apply triple_raise]. }
  intros a. apply tri_attempted with (R := known org call); [kept|intros; kept|apply tri_CreateSession; kept| |].
  { intros x. apply triple_done. intros s _ [_ Hk]. split; [done|]. intros y [= <-]. exact Hk. }
  intros e'. destruct (negb _); [apply triple_raise|].
  apply triple_seq with (R := known org call); [apply tri_GetActiveByCall; kept|intros x]. apply triple_done.
  intros s _ [_ Hk]. split; [done|]. intros y [= <-]. exact Hk.
Qed.
Lemma fine_when_ended P ended : keeps P -> fine P (when_ended ended).
Proof. intros HP. unfold when_ended. programs. Qed.
#[local] Hint Resolve fine_when_ended : voice_programs.
Lemma fine_GetActiveByCall P org call : keeps P -> fine P (GetActiveByCall org call).
Proof. intros HP. by eapply ag_fine_of, tri_GetActiveByCall. Qed.
Lemma fine_Complete P org id state u ended : keeps P -> fine P (Complete org id state u ended).
Proof. intros HP. unfold Complete. programs. Qed.
Lemma fine_CreateTurn P org session c : keeps P -> fine P (CreateTurn org session c).
Proof. intros HP. unfold CreateTurn. programs. Qed.
Lemma fine_ListTurns P org session : keeps P -> fine P (ListTurns org session).
Proof. intros HP. unfold ListTurns. programs. Qed.
#[local] Hint Resolve fine_GetActiveByCall fine_Complete fine_CreateTurn : voice_programs.
Lemma fine_CompleteCall P org call state ended u : keeps P -> fine P (CompleteCallWithSummary org call state ended u).
Proof. intros HP. unfold CompleteCallWithSummary. programs. Qed.
#[local] Hint Resolve fine_CompleteCall : voice_programs.

(** ** The runtime *)
Section Runtime.
Context {T : AgentTools.ToolLib} (P : Peers).
Lemma fine_worker {B} K (f : State -> B * State) :
  keeps K -> (forall s, exists c m h cs, snd (f s) = set_worker c m h cs s) -> fine K (local f).
Proof.
  intros HK Hf. apply ag_fine_local; [done|]. intros s Hi. destruct (Hf s) as (c & m & h & cs & ->). by apply worker_ok.
Qed.
Lemma fine_summary K call : keeps K -> fine K (local (conversationSummary call)).
Proof. intros HK. apply ag_fine_local; [done|]. intros s Hi. by apply ag_ok_refl. Qed.
Lemma fine_state_of K session : keeps K -> fine K (local (state_of session)).
Proof. intros HK. apply ag_fine_local; [done|]. intros s Hi. by apply ag_ok_refl. Qed.
Lemma fine_release K call session : keeps K -> fine K (local (releaseConversation call session)).
Proof. intros HK. apply fine_worker; [done|]. intros s. eauto. Qed.
Lemma fine_drop K session : keeps K -> fine K (local (drop_control session)).
Proof. intros HK. apply fine_worker; [done|]. intros s. eauto. Qed.
Lemma fine_forget K session c : keeps K -> fine K (local (forget_control session c)).
Proof.
  intros HK. apply ag_fine_local; [done|]. intros s Hi. unfold forget_control. simpl.
  destruct (bool_decide _); [by apply worker_ok|by apply ag_ok_refl].
Qed.
Lemma fine_at {B} K p (f : conversationState -> option B * conversationState) :
  keeps K -> fine K (local (at_conversation p f)).
Proof.
  intros HK. apply ag_fine_local; [done|]. intros s Hi. unfold at_conversation. destruct (heap s !! p) as [v|]; [|by apply ag_ok_refl].
  destruct (f v). by apply worker_ok.
Qed.
Lemma fine_register K call session : keeps K -> fine K (local (register call session)).
Proof.
  intros HK. apply ag_fine_local; [done|]. intros s Hi. unfold register. destruct (controls s !! session); [by apply ag_ok_refl|].
  by apply worker_fresh_ok.
Qed.
#[local] Hint Resolve fine_summary fine_state_of fine_release fine_drop fine_forget @fine_at fine_register : voice_programs.
Lemma fine_fail_now K c : keeps K -> fine K (fail_now c).
Proof. intros HK. unfold fail_now, failSession. programs. Qed.
Lemma fine_failSession K c ended : keeps K -> fine K (failSession c ended).
Proof. intros HK. unfold failSession. programs. Qed.
Lemma fine_stopMediaSession K session : keeps K -> fine K (stopMediaSession P session).
Proof. intros HK. unfold stopMediaSession. programs. Qed.
#[local] Hint Resolve fine_fail_now fine_failSession fine_stopMediaSession : voice_programs.
Lemma fine_finish K c state ended : keeps K -> fine K (finish P c state ended).
Proof. intros HK. unfold finish. programs. Qed.
Lemma fine_registerControl K call session url : keeps K -> fine K (registerControl P call session url).
Proof. intros HK. unfold registerControl. programs. Qed.
#[local] Hint Resolve fine_registerControl : voice_programs.
Lemma fine_fail_with {B} K e l : keeps K -> Forall (fine K) l -> fine K (fail_with (B := B) e l).
Proof.
  intros HK Hl. unfold fail_with. apply ag_fine_seq; [kept| |intros; programs].
  induction Hl; simpl; programs; assumption.
Qed.
Lemma fine_connect K c x channelID profile cfg :
  keeps K -> (forall s, inv s -> K s -> from_session entered s cfg) -> fine K (connect P c x channelID profile cfg).
Proof.
  intros HK Hcfg. unfold connect. apply ag_fine_seq; [kept| |].
  { apply ag_fine_attempt, ag_fine_call; [kept|]. intros s Hi Hs. apply log_media_ok; [done|by apply Hcfg]. }
  assert (forall e l, Forall (fine K) l -> fine K (fail_with (B := unit) e l)) as Hw by (intros; by apply fine_fail_with).
  intros [[audio url]|e]; programs; apply Hw; repeat (apply Forall_cons; split); try apply Forall_nil; try done; programs.
Qed.

(** What a media node is sent. *)
Lemma needed_nodup engine : NoDup (needed engine).*1 /\ Forall (fun p => fst p <> "" /\ snd p <> "")%string (needed engine).
Proof.
  unfold needed. destruct (bool_decide _); (split; [by apply (bool_decide_unpack _)|]); repeat constructor; done.
Qed.
Lemma resolved_fields org (a : Activation) r (g : ResolvedBinding -> ProviderRuntime) :
  resolved org (ac_Bindings a) r -> runnable a -> g = runtime_of ->
  NoDup (pr_Role <$> (g <$> r))
  /\ Forall (fun p => pr_Role p <> "" /\ pr_Provider p <> "" /\ pr_APIKey p <> ""
             /\ (pr_Config p = [] \/ is_object (pr_Config p) = true))%string (g <$> r).
Proof.
  intros [Hr Hk] [_ Hroles _ Hcfg _ _] ->. destruct (needed_nodup (ac_Engine a)) as [Hnd Hne].
  assert ((fun b => (rb_Role b, rb_Provider b)) <$> r = (fun b => (bs_Role b, bs_Provider b)) <$> ac_Bindings a) as Hpairs.
  { apply (f_equal (fmap fst)) in Hr. rewrite <- !list_fmap_compose in Hr. exact Hr. }
  rewrite <- Hpairs in Hroles. split.
  - rewrite <- list_fmap_compose. rewrite <- Hroles, <- list_fmap_compose in Hnd. exact Hnd.
  - apply Forall_fmap, Forall_forall. intros b Hb. simpl. rewrite Forall_forall in Hk. destruct (Hk b Hb) as [_ Hkey].
    rewrite <- Hroles, Forall_fmap, Forall_forall in Hne. destruct (Hne b Hb) as [? ?]. split_and!; [done..|right].
    assert (rb_Config b ∈ bs_Config <$> ac_Bindings a) as (x & -> & Hx)%list_elem_of_fmap.
    { assert (rb_Config <$> r = bs_Config <$> ac_Bindings a) as <-; [|by apply list_elem_of_fmap_2].
      apply (f_equal (fmap snd)) in Hr. rewrite <- !list_fmap_compose in Hr. exact Hr. }
    rewrite Forall_forall in Hcfg. by apply Hcfg.
Qed.
Lemma media_config_from s org call x channel profile r :
  inv s -> known org call x s -> org <> uuid_Nil -> call <> uuid_Nil -> channel <> uuid_Nil ->
  ProfileForEngine (ac_Engine (vs_Config x)) = inl profile -> resolved org (ac_Bindings (vs_Config x)) r ->
  from_session entered s (media_config x org call channel profile (runtime_of <$> r)).
Proof.
  intros Hi (Ho & Hc & x' & Hx' & Hid & Ho' & Hc' & _ & Hcfg & _) Horg Hcall Hch Hp Hr.
  destruct (inv_sessions _ _ Hi _ _ Hx') as (_ & Hpos & Hrun). rewrite Hcfg in Hrun.
  destruct (resolved_fields org (vs_Config x) r runtime_of Hr Hrun eq_refl) as [Hnd Hall]. split.
  - apply Config_Validate_iff. split; simpl.
    + change uuid_Nil with 0 in *. split_and!; [lia|done..].
    + by exists profile.
    + right. apply Hrun.
    + exact Hall.
    + exact Hnd.
    + apply Forall_fmap. exact (run_tools _ Hrun).
    + rewrite <- list_fmap_compose. exact (run_names _ Hrun).
  - exists x', channel, profile, (runtime_of <$> r). simpl. rewrite Ho', Hc', Ho, Hc, Hcfg. split_and!; [done| | |].
    + unfold media_config. by rewrite Hid, Hcfg.
    + rewrite <- list_fmap_compose. exact (proj1 Hr).
    + apply Forall_fmap. eapply Forall_impl; [exact (proj2 Hr)|]. by intros b [? _].
Qed.
Lemma tri_failed {B} K c (f : error -> error) (r : prog State B) (R : B -> State -> Prop) :
  keeps K -> (forall b, keeps (R b)) -> tri K r R ->
  tri K (seq (attempt_ r) (fun v => match v with inl b => done_ b | inr e => attempt_ (fail_now c) ;* raise (f e) end)) R.
Proof.
  intros HK HR Hr. apply tri_attempted with (R := R); [done|done|done| |].
  - intros b. apply triple_done. by intros s _ [_ ?].
  - intros e. apply triple_seq with (R := fun _ _ => True); [apply ag_fine_attempt, fine_fail_now; done|].
    intros b. apply triple_raise.
Qed.
Lemma tri_prepare `{!AEADLaws A} K c x channel :
  keeps K -> (forall s, inv s -> K s -> known (cl_OrganizationID c) (cl_ID c) x s) ->
  cl_OrganizationID c <> uuid_Nil -> cl_ID c <> uuid_Nil -> channel <> uuid_Nil ->
  tri K (prepare cipher c x channel) (fun v s => from_session entered s (snd v)).
Proof.
  intros HK Hkn Horg Hcall Hch. unfold prepare. cbv zeta.
  apply triple_seq with (R := fun p _ => ProfileForEngine (ac_Engine (vs_Config x)) = inl p).
  { apply tri_failed; [done|intros; apply ag_keeps_pure|]. by apply triple_lift. }
  intros profile. eapply triple_seq with (R := fun l _ => exists r, l = runtime_of <$> r
    /\ resolved (cl_OrganizationID c) (ac_Bindings (vs_Config x)) r).
  { apply tri_failed; [kept|intros; apply ag_keeps_pure|]. unfold ProviderRuntimesFromSnapshot.
    apply triple_seq with (R := fun r _ => resolved (cl_OrganizationID c) (ac_Bindings (vs_Config x)) r).
    - unfold ResolveSnapshot. destruct (ac_Bindings (vs_Config x)) as [|b l] eqn:Hl.
      + apply triple_done. intros s _ _. by split.
      + apply triple_seq with (R := fun _ _ => True); [by apply triple_raise_if|intros []].
        apply tri_resolve_snapshots. kept.
    - intros r. apply triple_done. intros s _ [_ Hr]. by exists r. }
  intros providers'. apply triple_seq with (R := fun _ _ => True).
  { apply tri_failed; [kept|intros; apply ag_keeps_true|]. by apply triple_lift. }
  intros []. apply triple_done. intros s Hi [[[HKs Hp] (r & -> & Hr)] _]. simpl. apply media_config_from; auto.
Qed.
(** FreeSWITCH's channels have identifiers. *)
Definition real_channel (channelID : string) : Prop := uuid_Parse (TrimSpace channelID) <> Some uuid_Nil.
Lemma fine_attach `{!AEADLaws A} K c channelID : keeps K -> real_channel channelID -> fine K (attach cipher P c channelID).
Proof.
  intros HK Hch. unfold attach. destruct (cl_VoiceAgentID c) as [agent|]; [|programs].
  unfold real_channel in Hch. destruct (uuid_Parse (TrimSpace channelID)) as [u|]; [|apply triple_raise].
  apply triple_seq with (R := fun v _ => v = u); [apply triple_lift; by intros v [= ->]|intros channel].
  apply (triple_fact _ _ _ (channel = u)); [by intros s _ [_ ?]|intros ->].
  apply triple_seq with (R := attached (cl_OrganizationID c) (cl_ID c)).
  { apply triple_wrap, tri_AttachCall. kept. }
  intros [x|]; [|by apply triple_done].
  set (K' := fun s => _). assert (keeps K') as HK' by (unfold K'; kept).
  assert (forall s, inv s -> K' s -> (cl_OrganizationID c <> uuid_Nil /\ cl_ID c <> uuid_Nil)
            /\ known (cl_OrganizationID c) (cl_ID c) x s) as Hat.
  { intros s _ [_ [Hids Hk]]. split; [exact Hids|]. by apply Hk. }
  apply (triple_fact _ _ _ (cl_OrganizationID c <> uuid_Nil /\ cl_ID c <> uuid_Nil)); [intros s Hi Hs; exact (proj1 (Hat s Hi Hs))|intros [Horg Hcall]].
  apply ag_fine_seq; [done|programs|intros existing]. cbv zeta. destruct (_ && _); [programs|].
  eapply triple_seq.
  { apply tri_prepare; [done|intros s Hi Hs; exact (proj2 (Hat s Hi Hs))|done|done|]. congruence. }
  intros [profile cfg]. apply fine_connect; [kept|]. by intros s Hi [_ ?].
Qed.
#[local] Hint Resolve fine_finish : voice_programs.
Definition real_lifecycle (e : Lifecycle) : Prop := match e with Answered channelID => real_channel channelID | _ => True end.
Lemma fine_HandleLifecycle `{!AEADLaws A} K c e : keeps K -> real_lifecycle e -> fine K (HandleLifecycle cipher P c e).
Proof. intros HK He. destruct e; simpl; [by apply fine_attach|programs|programs]. Qed.
Lemma fine_persist_made K org session t : keeps K -> fine K (persist_made org session t).
Proof. intros HK. unfold persist_made, persistTurn. programs. Qed.
#[local] Hint Resolve fine_persist_made : voice_programs.
Lemma fine_observe_event K c session e provider : keeps K -> fine K (observe_event c session e provider).
Proof. intros HK. unfold observe_event. programs. Qed.
Lemma fine_observeControl K c session connection l : keeps K -> fine K (observeControl c session connection l).
Proof.
  intros HK. unfold observeControl. apply ag_fine_seq; [done| |intros; programs].
  induction l as [|[e provider] l IH]; simpl; [programs|].
  apply ag_fine_seq; [done|by apply fine_observe_event|]. intros []; [exact IH|programs].
Qed.
Context (lookup : string -> State -> result (list ObjectStore.Addr)) (dial : ObjectStore.Addr -> State -> result unit)
  (post : ToolAction -> State -> result AgentTools.HttpResponse)
  (control : UUID -> UUID -> AgentTools.CallControl -> State -> result unit) (call_service : bool).
#[local] Hint Resolve fine_Execute : voice_programs.
Lemma fine_executeRealtimeTool K c session connection id name arguments : keeps K ->
  fine K (executeRealtimeTool cipher P lookup dial post control call_service c session connection id name arguments).
Proof. intros HK. unfold executeRealtimeTool, call_tool. programs. Qed.
End Runtime.
End Services.
End AgentPrograms.
