(* ===== verification/AgentSystem.v ===== *)
(** * Voice Agents: the system of all requests

    [op], what clients, the events of calls and the connections of media sessions
    start, any number of times and in any order; [env], what else happens; and that
    every reachable state keeps the invariant, every step the guarantee, of
    [AgentSafety.v]. *)

From S2P Require Import Prelude Json MediaSession Encryption Programs Routing ObjectStore RecordingStore Secrets ConversationState AgentStore AgentProviders Agents AgentTools AgentRuntime AgentSafety AgentStatements AgentPrograms.
Local Open Scope Z_scope.

Create HintDb voice_system.
Module AgentSystem.
Import AppErr Encryption Programs Secrets AgentStore AgentProviders AgentRuntime AgentSafety AgentStatements AgentPrograms.

(** Everything outside the program that answers it. *)
Record World := {
  wo_cipher : bool;
  wo_verify : string -> string -> State -> result Z;
  wo_peers : Peers;
  wo_lookup : string -> State -> result (list ObjectStore.Addr);
  wo_dial : ObjectStore.Addr -> State -> result unit;
  wo_post : ToolAction -> State -> result AgentTools.HttpResponse;
  wo_control : UUID -> UUID -> AgentTools.CallControl -> State -> result unit;
  wo_call_service : bool;
}.

Section System.
Context {L : AgentLib} {T : AgentTools.ToolLib} {U : UuidLib} {A : AEAD} {X : SecretLib}.
Context (entered : UUID -> string -> Prop) (providers : bool) (w : World).
Abbreviation cipher := (wo_cipher w).
Abbreviation Execute :=
  (AgentTools.Execute cipher (wo_lookup w) (wo_dial w) (wo_post w) (wo_control w) (wo_call_service w)).
Abbreviation executeRealtimeTool :=
  (executeRealtimeTool cipher (wo_peers w) (wo_lookup w) (wo_dial w) (wo_post w) (wo_control w) (wo_call_service w)).

Inductive op : prog State unit -> Prop :=
| op_agent_list org : op (forget (Agents.List_ org))
| op_agent_get org id : op (forget (Agents.Get org id))
| op_agent_create org r : op (forget (Agents.Create providers org r))
| op_agent_update org id r : op (forget (Agents.Update providers org id r))
| op_agent_disable org id : op (forget (Agents.Disable org id))
| op_readiness org id : op (forget (Agents.Readiness providers org id))
| op_activate org id : op (forget (Agents.Activate providers org id))
| op_phone_create org agent phone : op (forget (Agents.CreateBinding org agent phone))
| op_phone_list org agent : op (forget (Agents.ListPhoneBindings org agent))
| op_phone_delete org agent id : op (forget (Agents.DeletePhoneBinding org agent id))
| op_credential_create org provider name secret :
    entered org (TrimSpace secret) -> op (forget (CreateCredential cipher org provider name secret))
| op_credential_list org : op (forget (ListIntegrations org))
| op_credential_rotate org id secret :
    entered org (TrimSpace secret) -> op (forget (RotateCredential cipher org id secret))
| op_credential_verify org id : op (forget (VerifyIntegration cipher (wo_verify w) org id))
| op_credential_delete org id : op (forget (DeleteCredential org id))
| op_provider_bind org agent role provider credential config :
    op (forget (UpsertBinding org agent role provider credential config))
| op_provider_list org agent : op (forget (ListBindings org agent))
| op_provider_unbind org agent role : op (forget (DeleteBinding org agent role))
| op_tool_create org agent r : op (forget (AgentTools.Create cipher org agent r))
| op_tool_get org agent id : op (forget (AgentTools.Get org agent id))
| op_tool_list org agent : op (forget (AgentTools.List_ org agent))
| op_tool_update org agent id p : op (forget (AgentTools.Update org agent id p))
| op_tool_delete org agent id : op (forget (AgentTools.Delete org agent id))
| op_tool_rotate org agent id : op (forget (AgentTools.RotateSigningSecret cipher org agent id))
| op_tool_execute r : op (forget (Execute r))
| op_lifecycle c e : real_lifecycle e -> op (forget (HandleLifecycle cipher (wo_peers w) c e))
| op_events c session connection l : op (forget (observeControl c session connection l))
| op_realtime_tool c session connection id name arguments :
    op (forget (executeRealtimeTool c session connection id name arguments))
| op_turns org session : op (forget (ListTurns org session)).

(** Time passes, organizations, calls and phone numbers are changed by other parts
    of the program, and a worker starts again. *)
Definition elsewhere (orgs : gmap UUID bool) (cs : gmap UUID CallRow) (ps : gmap UUID UUID) (t : Z) (s : State) : State :=
  {| organizations := orgs; calls := cs; phones := ps; agents := agents s; bindings := bindings s;
     credentials := credentials s; provider_bindings := provider_bindings s; tools := tools s;
     tool_secrets := tool_secrets s; sessions := sessions s; turns := turns s; executions := executions s;
     controls := controls s; memory := memory s; heap := heap s; callSessions := callSessions s;
     placed := placed s; performed := performed s; now := t; next := next s |}.
Inductive env : State -> State -> Prop :=
| env_elsewhere s orgs cs ps t : now s <= t -> env s (elsewhere orgs cs ps t s)
| env_restart s : env s (set_worker ∅ ∅ ∅ ∅ s).

(** Where the system begins. *)
Record initial (s : State) : Prop := {
  initial_next : 0 < next s;
  initial_agents : agents s = ∅;
  initial_credentials : credentials s = ∅;
  initial_provider_bindings : provider_bindings s = ∅;
  initial_tools : tools s = ∅;
  initial_sessions : sessions s = ∅;
  initial_executions : executions s = ∅;
  initial_placed : placed s = [];
  initial_performed : performed s = [];
}.
Lemma ag_initial_inv s : initial s -> inv entered s.
Proof.
  intros [Hn Ha Hc Hb Ht Hs He Hp _].
  split; rewrite ?Ha, ?Hc, ?Hb, ?Ht, ?Hs, ?Hp; try (intros k x Hx; by rewrite lookup_empty in Hx); done.
Qed.
Lemma ag_env_ok s s' : inv entered s -> env s s' -> ok entered s s'.
Proof.
  intros Hi He. destruct He as [s orgs cs ps t Ht|s]; [|by apply worker_ok]. destruct (ag_guar_refl s).
  apply ag_allowed; [done|by split|..]; try exact (rows_same _ _); try (by left).
  - exact (inv_names _ _ Hi).
  - exact (inv_one _ _ Hi).
Qed.
#[local] Hint Resolve fine_Agent_List fine_Agent_Get fine_Agent_Create fine_Agent_Update fine_Agent_Disable
  fine_Readiness fine_Activate fine_CreateBinding fine_ListPhoneBindings fine_DeletePhoneBinding fine_CreateCredential
  fine_ListIntegrations fine_RotateCredential fine_VerifyIntegration fine_DeleteCredential fine_UpsertBinding
  fine_ListBindings fine_DeleteBinding fine_Tool_Create fine_Tool_Get fine_Tool_List fine_Tool_Update fine_Tool_Delete
  fine_RotateSigningSecret fine_Execute fine_HandleLifecycle fine_observeControl fine_executeRealtimeTool fine_ListTurns
  : voice_system.
Section Reached.
Context `{!SecretLaws X} `{!AEADLaws A}.
Lemma ag_harmless {B} (p : prog State B) : fine entered (fun _ => True) p -> harmless (inv entered) guar (forget p).
Proof. intros Hp. apply harmless_andthen; [by eapply triple_harmless|]. by intros r. Qed.
Lemma ag_op_harmless p : op p -> harmless (inv entered) guar p.
Proof.
  pose proof (ag_keeps_true entered) as HT. destruct 1; apply ag_harmless; auto with voice_system.
Qed.
Definition reached (s0 : State) : State * list (prog State unit) -> Prop := reachable op env s0.
Lemma ag_reached_inv s0 x : initial s0 -> reached s0 x -> inv entered (fst x).
Proof.
  intros Hi Hr. apply (reachable_ok (inv entered) guar ag_guar_refl op env ag_op_harmless ag_env_ok s0 x); [|done].
  by apply ag_initial_inv.
Qed.
Lemma ag_reached_moves s0 x x' : initial s0 -> reached s0 x -> sys_step op env x x' -> guar (fst x) (fst x').
Proof.
  intros Hi Hr Hs. apply (reachable_moves (inv entered) guar ag_guar_refl op env ag_op_harmless ag_env_ok s0); [|done..].
  by apply ag_initial_inv.
Qed.
End Reached.
End System.
End AgentSystem.
