(* ===== verification/AgentOutcomes.v ===== *)
(** * Voice Agents: what is guaranteed

    The properties of the system of [AgentSystem.v]: what media nodes are sent, and
    what sessions are made of and become, with a run that has one of each. *)

From S2P Require Import Prelude Json MediaSession Encryption Programs Routing ObjectStore RecordingStore Secrets ConversationState AgentStore AgentProviders Agents AgentTools AgentRuntime AgentSafety AgentStatements AgentPrograms AgentSystem IdentityOutcomes.
Local Open Scope Z_scope.

Module AgentOutcomes.
Import AppErr Json MediaSession Encryption Programs Secrets AgentStore AgentProviders AgentRuntime AgentSafety AgentSystem.

Section Theorems.
Context {L : AgentLib} {T : AgentTools.ToolLib} {U : UuidLib} {A : AEAD} {X : SecretLib}.
Context `{!SecretLaws X} `{!AEADLaws A}.
Context (entered : UUID -> string -> Prop) (providers : bool) (w : World).

(** C16: Whatever clients, calls, other media sessions and failures do meanwhile, each
    configuration a media node is sent is valid ([Config.Validate] of the media
    package) and is that of a session: its organization, call, instructions, engine
    and tools are those of the activation the session was started from, its services
    are the services of that activation with the same roles and configurations, and
    each key is a secret that this organization has entered. *)
Theorem media_gets_the_snapshot s0 c cfg :
  initial s0 -> reached entered providers w s0 c -> cfg ∈ placed (fst c) ->
  Config_Validate cfg = inl tt /\ exists x channel profile providers', sessions (fst c) !! cfg_ID cfg = Some x
    /\ cfg = media_config x (vs_OrganizationID x) (vs_CallID x) channel profile providers'
    /\ (fun p => (pr_Role p, pr_Provider p, pr_Config p)) <$> providers'
       = (fun b => (bs_Role b, bs_Provider b, bs_Config b)) <$> ac_Bindings (vs_Config x)
    /\ Forall (fun p => entered (vs_OrganizationID x) (pr_APIKey p)) providers'.
Proof.
  intros Hi Hr Hin. pose proof (inv_placed _ _ (ag_reached_inv entered providers w s0 c Hi Hr)) as Hp.
  rewrite Forall_forall in Hp. destruct (Hp _ Hin). by split.
Qed.

(** C18: In every step a session keeps its organization, call, agent and
    configuration, and one that has ended stays as it is; a new session is active
    and has the activation of its agent; a call never has two active sessions; and
    the activation of an agent changes only to what [activation] makes of its
    present settings, when its services are those of its engine and ready. *)
Theorem sessions_follow_activation s0 c c' :
  initial s0 -> reached entered providers w s0 c -> sys_step (op entered providers w) env c c' ->
  (forall id x, sessions (fst c) !! id = Some x -> exists x', sessions (fst c') !! id = Some x'
     /\ vs_OrganizationID x' = vs_OrganizationID x /\ vs_CallID x' = vs_CallID x
     /\ vs_VoiceAgentID x' = vs_VoiceAgentID x /\ vs_Config x' = vs_Config x
     /\ (vs_State x <> "active"%string -> x' = x))
  /\ (forall id x, sessions (fst c') !! id = Some x -> sessions (fst c) !! id = None ->
     vs_State x = "active"%string /\ exists a, agents (fst c) !! vs_VoiceAgentID x = Some a
       /\ va_OrganizationID a = vs_OrganizationID x /\ va_Active a = Some (vs_Config x))
  /\ (forall i x j y, sessions (fst c') !! i = Some x -> sessions (fst c') !! j = Some y ->
     vs_CallID x = vs_CallID y -> vs_State x = "active"%string -> vs_State y = "active"%string -> i = j)
  /\ (forall id a, agents (fst c) !! id = Some a -> exists a', agents (fst c') !! id = Some a'
     /\ va_OrganizationID a' = va_OrganizationID a
     /\ (va_Active a' = va_Active a
         \/ va_Active a' = Some (activation (fst c) a) /\ activatable (fst c) a = true)).
Proof.
  intros Hi Hr Hs. pose proof (ag_reached_moves entered providers w s0 c c' Hi Hr Hs) as Hg.
  assert (reached entered providers w s0 c') as Hr' by (by eapply rtc_r).
  pose proof (ag_reached_inv entered providers w s0 c' Hi Hr') as Hi'. split_and!.
  - intros id x Hx. destruct (guar_sessions _ _ Hg _ _ Hx) as (x' & Hx' & ? & ? & ? & ? & ? & ? & ?). by exists x'.
  - exact (guar_new_sessions _ _ Hg).
  - intros i x j y Hx Hy Hc Hax Hay. apply (inv_one _ _ Hi' i x j y Hx Hy). by split.
  - exact (guar_agents _ _ Hg).
Qed.
End Theorems.

(** ** A run

    An organization enters a key, makes an agent of it, verifies and activates it,
    and a call is answered. *)
Section Example_.
#[local] Existing Instance toy_secrets.
#[local] Existing Instance decimal_uuid.
#[local] Existing Instance toy_aead.
#[local] Instance ex_library : AgentLib := {| jsonb_accepts _ := true; canonical b := Some b |}.
#[local] Instance ex_tools : AgentTools.ToolLib := {|
  AgentTools.ParseRequestURI _ := None; AgentTools.Parse _ := None; AgentTools.netip_ParseAddr _ := None;
  AgentTools.hmac_hex _ b := of_bytes b; AgentTools.marshal_request _ _ b := b;
  AgentTools.new_request_error _ := None; AgentTools.tool_error_text _ := "error"%string |}.
Definition ex_peers : Peers := {|
  get_variable _ _ := inl ""%string; set_variable _ _ _ := inl tt; start_fork _ _ _ _ := inl tt;
  stop_fork _ _ := inl tt; start_clock _ _ := inl tt; break_clock _ _ := inl tt;
  create_media _ _ := inl ("ws://media/audio", "ws://media/control")%string; stop_media _ _ := inl tt;
  open_control _ _ := inl tt; send_stop _ _ := inl tt; send_result _ _ _ := inl tt |}.
Definition ex_world : World := {|
  wo_cipher := true; wo_verify _ _ _ := inl 200; wo_peers := ex_peers; wo_lookup _ _ := inl []; wo_dial _ _ := inl tt;
  wo_post _ _ := inr (Errorf "no webhook" []); wo_control _ _ _ _ := inl tt; wo_call_service := true |}.
Definition ex_entered (org : UUID) (secret : string) : Prop := org = 1 /\ secret = "sk-key"%string.
Definition ex_call : CallRow :=
  {| c_OrganizationID := 1; c_VoiceAgentID := Some 12; c_State := "answered"; c_EndedAt := None |}.
Definition ex_state : State := {|
  organizations := {[1 := true]}; calls := {[2 := ex_call]}; phones := ∅; agents := ∅; bindings := ∅; credentials := ∅;
  provider_bindings := ∅; tools := ∅; tool_secrets := ∅; sessions := ∅; turns := ∅; executions := ∅; controls := ∅;
  memory := ∅; heap := ∅; callSessions := ∅; placed := []; performed := []; now := 100; next := 10 |}.
Definition ex_binding : Agents.ProviderBindingRequest := {|
  Agents.br_Role := "realtime"; Agents.br_Provider := "openai"; Agents.br_IntegrationID := 10; Agents.br_Config := [] |}.
Definition ex_agent : Agents.CreateRequest := {|
  Agents.cr_Name := "Reception"; Agents.cr_Engine := ""; Agents.cr_Instructions := "Be kind."; Agents.cr_Voice := None;
  Agents.cr_Language := None; Agents.cr_EngineConfig := []; Agents.cr_Preset := Some "realtime"%string;
  Agents.cr_Bindings := [ex_binding]; Agents.cr_Interruption := ""; Agents.cr_Recording := "" |}.
Definition ex_tool : AgentTools.CreateRequest := {|
  AgentTools.tr_Type := "builtin"; AgentTools.tr_Name := "hangup_call"; AgentTools.tr_Description := "Ends the call.";
  AgentTools.tr_Parameters := []; AgentTools.tr_EndpointURL := None; AgentTools.tr_TimeoutMS := None;
  AgentTools.tr_Enabled := None |}.
Definition ex_called : Call_ := {| cl_ID := 2; cl_OrganizationID := 1; cl_VoiceAgentID := Some 12 |}.
Definition ag_finish (p : prog State unit) (x : State * list (prog State unit)) : State * list (prog State unit) :=
  let (r, s') := run p [] (fst x) in (s', Return r :: snd x).
(** The requests before the call, in order. *)
Definition ex_requests : list (prog State unit) := [
  forget (CreateCredential true 1 "openai" "main" "sk-key");
  forget (Agents.Create true 1 ex_agent);
  forget (AgentTools.Create true 1 12 ex_tool);
  forget (VerifyIntegration true (wo_verify ex_world) 1 10);
  forget (Agents.Activate true 1 12)]%string.
Definition ex_ready := fold_left (fun x p => ag_finish p x) ex_requests (ex_state, []).
Definition ex_answer : prog State unit := forget (HandleLifecycle true ex_peers ex_called (Answered "77")).
Definition ex_attached := ag_finish ex_answer ex_ready.

Abbreviation ex_op := (op ex_entered true ex_world).
Abbreviation ex_reached := (reached ex_entered true ex_world ex_state).
Lemma ag_finish_steps p x : ex_op p -> rtc (sys_step ex_op env) x (ag_finish p x).
Proof.
  intros Hp. destruct x as [s ts]. unfold ag_finish. destruct (run p [] (fst (s, ts))) as [r s'] eqn:Hr. simpl in *.
  eapply rtc_l; [by apply (sys_start _ _ p)|]. by eapply run_steps.
Qed.
Lemma ag_ex_initial : initial ex_state.
Proof. by split. Qed.
Lemma ag_finish_all l x : Forall ex_op l -> rtc (sys_step ex_op env) x (fold_left (fun x p => ag_finish p x) l x).
Proof.
  intros Hl. revert x. induction Hl as [|p l Hp _ IH]; intros x; simpl; [done|].
  etrans; [by apply ag_finish_steps|]. apply IH.
Qed.
Lemma ex_gets_ready : ex_reached ex_ready.
Proof.
  apply ag_finish_all. unfold ex_requests. repeat (apply Forall_cons; split); [..|apply Forall_nil; exact I].
  - apply (op_credential_create ex_entered true ex_world). vm_compute. by split.
  - apply (op_agent_create ex_entered true ex_world).
  - apply (op_tool_create ex_entered true ex_world).
  - apply (op_credential_verify ex_entered true ex_world).
  - apply (op_activate ex_entered true ex_world).
Qed.
Lemma ex_answer_op : ex_op ex_answer.
Proof. apply (op_lifecycle ex_entered true ex_world). intros H. by vm_compute in H. Qed.
Lemma ex_attaches : ex_reached ex_attached.
Proof. unfold reached, reachable. etrans; [apply ex_gets_ready|]. apply ag_finish_steps, ex_answer_op. Qed.

Lemma media_gets_the_snapshot_witness :
  exists cfg, cfg ∈ placed (fst ex_attached) /\ pr_APIKey <$> cfg_Providers cfg = ["sk-key"]%string
    /\ Config_Validate cfg = inl tt.
Proof.
  destruct (placed (fst ex_attached)) as [|cfg l] eqn:Hp; [by vm_compute in Hp|]. exists cfg.
  assert (cfg ∈ placed (fst ex_attached)) as Hin by (rewrite Hp; left).
  destruct (media_gets_the_snapshot ex_entered true ex_world ex_state ex_attached cfg ag_ex_initial ex_attaches Hin) as [Hv _].
  split; [left|]. split; [|exact Hv]. vm_compute in Hp. by injection Hp as <- _.
Defined.

(** The step that makes the session. *)
Definition ex_at : prog State unit * State := IdentityOutcomes.advance 2 ex_answer (fst ex_ready).
Definition ex_before : State * list (prog State unit) := (snd ex_at, fst ex_at :: snd ex_ready).
Definition ex_made : prog State unit * State := IdentityOutcomes.advance 1 (fst ex_at) (snd ex_at).
Definition ex_after : State * list (prog State unit) := (snd ex_made, fst ex_made :: snd ex_ready).
Lemma ex_comes_before : ex_reached ex_before.
Proof.
  unfold reached, reachable. etrans; [apply ex_gets_ready|]. unfold ex_before, ex_at. destruct ex_ready as [s ts].
  eapply rtc_l; [by apply (sys_start _ _ ex_answer), ex_answer_op|]. apply IdentityOutcomes.advance_steps.
Qed.
Lemma ex_makes_session : sys_step ex_op env ex_before ex_after.
Proof.
  unfold ex_before, ex_after, ex_made.
  apply (IdentityOutcomes.advance_step ex_op env (fst ex_at) (snd ex_at) (snd ex_ready)). intros r Hr.
  assert (match fst ex_at with Return _ => true | _ => false end = false) as Hn by (vm_compute; reflexivity).
  by rewrite Hr in Hn.
Qed.
Lemma sessions_follow_activation_witness :
  exists x a, sessions (fst ex_after) !! 15 = Some x /\ agents (fst ex_before) !! vs_VoiceAgentID x = Some a
    /\ va_Active a = Some (vs_Config x).
Proof.
  destruct (sessions (fst ex_after) !! 15) as [x|] eqn:Hx; [|by vm_compute in Hx].
  assert (sessions (fst ex_before) !! 15 = None) as Hn by (vm_compute; reflexivity).
  destruct (sessions_follow_activation ex_entered true ex_world ex_state ex_before ex_after ag_ex_initial
              ex_comes_before ex_makes_session) as (_ & Hnew & _).
  destruct (Hnew _ _ Hx Hn) as (_ & a & Ha & _ & Hact). exists x, a.
  split; [reflexivity|]. split; [exact Ha|exact Hact].
Defined.
End Example_.
End AgentOutcomes.
