(* ===== verification/AgentReadiness.v ===== *)
(** * Voice Agents: the readiness report and the activation

    [Readiness] judges an agent in Go, [ActivateVoiceAgent] in its [WHERE] clause:
    they agree. *)

From stdpp Require Import sorting.
From S2P Require Import Prelude Json Encryption Programs Routing RecordingStore Secrets AgentStore AgentProviders Agents AgentTools AgentRuntime AgentSafety AgentStatements AgentPrograms AgentSystem AgentOutcomes.
Local Open Scope Z_scope.

Module AgentReadiness.
Import AppErr Programs Encryption Secrets AgentStore AgentProviders Agents AgentSafety AgentStatements AgentSystem AgentOutcomes.

Section Readiness.
Context {L : AgentLib} {U : UuidLib} {A : AEAD} {X : SecretLib}.
Context (entered : UUID -> string -> Prop).
Abbreviation inv := (inv entered).

(** ** The statuses of the bindings *)
Definition states (s : State) (org : UUID) (b : VoiceAgentProviderBinding) (st : BindingStatus) : Prop :=
  exists c, own_credential s org (pb_CredentialID b) = Some c /\ st = status_of b c.
Lemma run_query {B} (f : State -> result B) s : run (query f) [] s = (f s, s).
Proof. reflexivity. Qed.
Lemma run_statuses org l s r s' :
  run (statuses org l) [] s = (inl r, s') -> s' = s /\ Forall2 (states s org) l r.
Proof.
  revert r s'. induction l as [|b l IH]; cbn [statuses]; intros r s'; [by intros [= <- <-]|].
  rewrite run_seq, run_wrap, run_query. unfold GetAIProviderCredential, some_row.
  destruct (own_credential s org (pb_CredentialID b)) as [c|] eqn:Hc; [|done]. rewrite run_seq.
  destruct (run (statuses org l) [] s) as [[sts|e] s1]; [|done]. destruct (IH _ _ eq_refl) as [-> Hall].
  intros [= <- <-]. split; [done|]. constructor; [by exists c|done].
Qed.
Lemma same_key {B K} (f : B -> K) l x y : NoDup (f <$> l) -> x ∈ l -> y ∈ l -> f x = f y -> x = y.
Proof.
  intros Hnd [i Hi]%list_elem_of_lookup [j Hj]%list_elem_of_lookup Hf.
  assert (i = j) as ->; [|congruence]. apply (NoDup_lookup _ _ _ (f x) Hnd); rewrite list_lookup_fmap; [by rewrite Hi|by rewrite Hj, Hf].
Qed.
Lemma lookup_role_some {B} (l : list (string * B)) role v :
  NoDup l.*1 -> lookup_role l role = Some v <-> (role, v) ∈ l.
Proof.
  intros Hnd. unfold lookup_role. destruct (find _ l) as [[r v']|] eqn:Hf; simpl.
  - apply find_some in Hf as [Hin Hr]. simpl in Hr. apply bool_decide_eq_true in Hr as ->. apply list_elem_of_In in Hin.
    split; [by intros [= <-]|]. intros Hin'. f_equal.
    assert ((role, v') = (role, v)) as [= ->]; [|done]. by apply (same_key fst l).
  - split; [done|]. intros Hin. apply list_elem_of_In in Hin. eapply find_none in Hf; [|exact Hin].
    simpl in Hf. by rewrite bool_decide_eq_true_2 in Hf.
Qed.
Lemma expected_nodup engine : NoDup (expectedProviders engine).*1.
Proof. unfold expectedProviders. destruct (bool_decide _); by apply (bool_decide_unpack _). Qed.
Lemma by_role_some sts role st : NoDup (st_Role <$> sts) -> by_role sts role = Some st <-> st ∈ sts /\ st_Role st = role.
Proof.
  intros Hnd. unfold by_role. rewrite lookup_role_some.
  - rewrite elem_of_reverse, list_elem_of_fmap. split; [|intros [Hst <-]; by exists st].
    intros (x & [= -> ->] & Hx). done.
  - rewrite fmap_reverse, <- list_fmap_compose. rewrite reverse_Permutation. exact Hnd.
Qed.

Lemma bind_nil {B C} (f : B -> list C) l : l ≫= f = [] <-> forall x, x ∈ l -> f x = [].
Proof.
  induction l as [|y l IH]; [split; [intros _ x Hx; by apply elem_of_nil in Hx|done]|].
  rewrite bind_cons. split.
  - intros [Hy Hl]%app_nil x [->|Hx]%elem_of_cons; [done|]. by apply IH.
  - intros Hall. rewrite (Hall y) by left. apply IH. intros x Hx. apply Hall. by right.
Qed.
Lemma expected_role engine role : lookup_role (expectedProviders engine) role = None <-> role ∉ (expectedProviders engine).*1.
Proof.
  destruct (lookup_role (expectedProviders engine) role) as [p|] eqn:Hl.
  - apply lookup_role_some in Hl; [|apply expected_nodup]. split; [done|]. intros Hn. by apply (list_elem_of_fmap_2 fst) in Hl.
  - split; [|done]. intros _ ([r p] & -> & Hin)%list_elem_of_fmap. apply lookup_role_some in Hin; [|apply expected_nodup]. simpl in Hl. congruence.
Qed.
Lemma no_unexpected engine st : unexpected_issue engine st = [] <-> st_Role st ∈ (expectedProviders engine).*1.
Proof.
  unfold unexpected_issue. pose proof (expected_role engine (st_Role st)) as He.
  destruct (lookup_role _ _) as [p|]; [|split; [done|]; intros Hin; by destruct (proj1 He eq_refl)].
  split; [|done]. intros _. destruct (decide (st_Role st ∈ (expectedProviders engine).*1)) as [|Hn]; [done|].
  by apply He in Hn.
Qed.
Definition served (engine : string) (sts : list BindingStatus) (role : string) : Prop :=
  forall p, (role, p) ∈ expectedProviders engine ->
  exists st, st ∈ sts /\ st_Role st = role /\ st_Provider st = p /\ st_ConnectionState st = ConnectionReady.
Lemma no_role_issue engine sts role : NoDup (st_Role <$> sts) -> role_issue engine sts role = [] <-> served engine sts role.
Proof.
  intros Hnd. unfold role_issue, served.
  assert (forall p, lookup_role (expectedProviders engine) role = Some p <-> (role, p) ∈ expectedProviders engine) as Hp
    by (intros p; apply lookup_role_some, expected_nodup).
  destruct (lookup_role _ _) as [provider|].
  2: { split; [|done]. by intros _ p Hin%Hp. }
  assert (forall p, (role, p) ∈ expectedProviders engine <-> p = provider) as Hpr by (intros p; rewrite <- Hp; naive_solver).
  destruct (by_role sts role) as [st|] eqn:Hb.
  - apply (by_role_some sts role st Hnd) in Hb as [Hst Hr].
    assert (served engine sts role <-> st_Provider st = provider /\ st_ConnectionState st = ConnectionReady) as Hs.
    { unfold served. split.
      - intros H. destruct (H provider) as (x & Hx & Hxr & ? & ?); [by apply Hpr|].
        assert (x = st) as ->; [|done]. by apply (same_key st_Role sts); [| | |congruence].
      - intros [? ?] p ->%Hpr. by exists st. }
    fold (served engine sts role). rewrite Hs. repeat case_bool_decide; simpl; split; try done; by intros [].
  - split; [done|]. intros H. destruct (H provider) as (x & Hx & Hxr & _); [by apply Hpr|].
    assert (by_role sts role = Some x) by (by apply by_role_some). congruence.
Qed.
(** No issue is left when every binding has a role of the engine, and every role a
    binding to a ready integration of its service. *)
Lemma no_issues engine sts : NoDup (st_Role <$> sts) ->
  issues engine sts = [] <->
  (forall st, st ∈ sts -> st_Role st ∈ (expectedProviders engine).*1) /\ (forall role, served engine sts role).
Proof.
  intros Hnd. unfold issues.
  assert (forall a b : list ReadinessIssue, a ++ b = [] <-> a = [] /\ b = []) as -> by (intros; split; [apply app_nil|by intros [-> ->]]).
  rewrite !bind_nil. f_equiv.
  - split; intros H st Hst; apply no_unexpected, H, Hst.
  - split.
    + intros H role. destruct (decide (role ∈ agent_roles)) as [Hr|Hr]; [by apply no_role_issue, H|].
      intros p Hin. destruct Hr. clear -Hin. unfold expectedProviders in Hin.
      by destruct (bool_decide _); repeat (apply elem_of_cons in Hin as [[= -> _]|Hin]; [repeat constructor|]); apply elem_of_nil in Hin.
    + intros H role _. by apply no_role_issue.
Qed.

(** ** The two judgements *)
Lemma count_full (p : VoiceAgentProviderBinding -> bool) l : (forall b, b ∈ l -> p b = true) -> count p l = length l.
Proof.
  intros Hp. unfold count. f_equal.
  induction l as [|b l IH]; [done|]. rewrite filter_cons_True by (apply Hp; left). f_equal. apply IH.
  intros x Hx. apply Hp. by right.
Qed.
Lemma existsb_false {B} (p : B -> bool) l : existsb p l = false <-> forall b, b ∈ l -> p b = false.
Proof.
  induction l as [|x l IH]; simpl; [split; [intros _ b Hb; by apply elem_of_nil in Hb|done]|].
  rewrite orb_false_iff, IH. split.
  - intros [Hx Hl] b [->|Hb]%elem_of_cons; auto.
  - intros H. split; [apply H; left|intros b Hb; apply H; by right].
Qed.
Lemma states_roles s org l sts : Forall2 (states s org) l sts -> st_Role <$> sts = pb_Role <$> l.
Proof. induction 1 as [|b st bs ss (c & _ & ->) _ IH]; [done|]. rewrite !fmap_cons. by rewrite IH. Qed.
Section Judged.
Context (s : State) (a : VoiceAgent) (sts : list BindingStatus).
Abbreviation l := (bindings_of s (va_OrganizationID a) (va_ID a)).
Context (Hi : inv s) (Ha : agents s !! va_ID a = Some a) (Hsts : Forall2 (states s (va_OrganizationID a)) l sts).
Lemma status_roles : st_Role <$> sts = pb_Role <$> l.
Proof. by eapply states_roles. Qed.
Lemma status_roles_nodup : NoDup (st_Role <$> sts).
Proof. rewrite status_roles. by eapply roles_nodup. Qed.
Lemma binding_status b : b ∈ l -> exists c, own_credential s (va_OrganizationID a) (pb_CredentialID b) = Some c
  /\ status_of b c ∈ sts.
Proof.
  intros [i Hb]%list_elem_of_lookup. destruct (Forall2_lookup_l _ _ _ _ _ Hsts Hb) as (st & Hst & c & Hc & ->).
  exists c. split; [done|]. by eapply list_elem_of_lookup_2.
Qed.
Lemma status_binding st : st ∈ sts -> exists b c, b ∈ l
  /\ own_credential s (va_OrganizationID a) (pb_CredentialID b) = Some c /\ st = status_of b c.
Proof.
  intros [i Hst]%list_elem_of_lookup. destruct (Forall2_lookup_r _ _ _ _ _ Hsts Hst) as (b & Hb & c & Hc & ->).
  exists b, c. split; [by eapply list_elem_of_lookup_2|done].
Qed.
Lemma binding_org b : b ∈ l -> pb_OrganizationID b = va_OrganizationID a.
Proof. intros Hb%(elem_bindings_of entered _ _ _ _ Hi). destruct (inv_bindings _ _ Hi _ _ Hb) as [Hk _]. congruence. Qed.
(** The integrations are ready. *)
Definition all_ready : Prop := forall st, st ∈ sts -> st_ConnectionState st = ConnectionReady.
Lemma all_ready_iff :
  existsb (fun b => match own_credential s (pb_OrganizationID b) (pb_CredentialID b) with
                    | Some c => negb (bool_decide (cr_ConnectionState c = "ready"%string)) | None => false end) l = false
  <-> all_ready.
Proof.
  rewrite existsb_false. split.
  - intros H st (b & c & Hb & Hc & ->)%status_binding. specialize (H b Hb).
    rewrite (binding_org b Hb), Hc in H. by apply negb_false_iff, bool_decide_eq_true in H.
  - intros H b Hb. rewrite (binding_org b Hb). destruct (binding_status b Hb) as (c & -> & Hst).
    apply negb_false_iff, bool_decide_eq_true. exact (H _ Hst).
Qed.
Abbreviation pairs := ((fun b => (pb_Role b, pb_Provider b)) <$> l).
Lemma report_iff : issues (va_Engine a) sts = [] <-> all_ready /\ pairs ≡ₚ expectedProviders (va_Engine a).
Proof.
  rewrite (no_issues _ _ status_roles_nodup). split.
  - intros [Hroles Hserved].
    assert (forall st, st ∈ sts -> (st_Role st, st_Provider st) ∈ expectedProviders (va_Engine a)
              /\ st_ConnectionState st = ConnectionReady) as Hall.
    { intros st Hst. apply Hroles in Hst as Hr. apply list_elem_of_fmap in Hr as ([r p] & Hr & Hin). simpl in Hr. subst r.
      destruct (Hserved _ _ Hin) as (x & Hx & Hxr & Hxp & Hxs).
      assert (x = st) as -> by (by apply (same_key st_Role sts); [apply status_roles_nodup|..]). by rewrite Hxp. }
    split; [intros st Hst; by apply Hall|]. apply pairs_needed.
    + rewrite <- status_roles. apply status_roles_nodup.
    + transitivity (length (pb_Role <$> l)); [by rewrite length_fmap|].
      transitivity (length (expectedProviders (va_Engine a)).*1); [|by rewrite length_fmap]. apply Permutation_length, NoDup_Permutation.
      * rewrite <- status_roles. apply status_roles_nodup.
      * apply expected_nodup.
      * intros role. rewrite <- status_roles. split.
        -- intros (st & -> & Hst)%list_elem_of_fmap. by apply Hroles.
        -- intros ([r p] & -> & Hin)%list_elem_of_fmap. destruct (Hserved _ _ Hin) as (x & Hx & Hxr & _).
           simpl. rewrite <- Hxr. by apply list_elem_of_fmap_2.
    + intros b Hb. destruct (binding_status b Hb) as (c & _ & Hst). exact (proj1 (Hall _ Hst)).
  - intros [Hready Hp]. split.
    + intros st (b & c & Hb & _ & ->)%status_binding. rewrite <- Hp. simpl.
      apply list_elem_of_fmap. exists (pb_Role b, pb_Provider b). split; [done|]. by apply (list_elem_of_fmap_2 (fun b => (pb_Role b, pb_Provider b))).
    + intros role p Hin. rewrite <- Hp in Hin. apply list_elem_of_fmap in Hin as (b & [= -> ->] & Hb).
      destruct (binding_status b Hb) as (c & _ & Hst). exists (status_of b c). by split_and!; [..|apply Hready].
Qed.
Lemma count_pairs_iff (p : VoiceAgentProviderBinding -> bool) :
  (forall b, p b = true <-> (pb_Role b, pb_Provider b) ∈ expectedProviders (va_Engine a)) ->
  count p l = length (expectedProviders (va_Engine a)) /\ length l = length (expectedProviders (va_Engine a))
  <-> pairs ≡ₚ expectedProviders (va_Engine a).
Proof.
  intros Hp. split.
  - intros [Hc Hl]. apply pairs_needed; [by eapply roles_nodup|done|].
    intros b Hb. apply Hp, (count_all p l); [congruence|done].
  - intros Hperm. assert (length l = length (expectedProviders (va_Engine a))) as Hl.
    { rewrite <- (Permutation_length Hperm). by rewrite length_fmap. }
    split; [|done]. rewrite <- Hl. apply count_full. intros b Hb. apply Hp. rewrite <- Hperm.
    by apply (list_elem_of_fmap_2 (fun b => (pb_Role b, pb_Provider b))).
Qed.
Lemma activatable_iff : activatable s a = true <-> all_ready /\ pairs ≡ₚ expectedProviders (va_Engine a).
Proof.
  unfold activatable. rewrite andb_true_iff, negb_true_iff, all_ready_iff. f_equiv.
  destruct (inv_agents _ _ Hi _ _ Ha) as (_ & _ & [_ He] & _).
  apply elem_of_cons in He as [He|He%list_elem_of_singleton].
  - rewrite <- (count_pairs_iff composable_pair), He; [|intros b; rewrite He; apply bool_decide_eq_true].
    rewrite orb_true_iff, !andb_true_iff, !bool_decide_eq_true. simpl. clear. intuition done.
  - rewrite <- (count_pairs_iff integrated_pair), He.
    + rewrite orb_true_iff, !andb_true_iff, !bool_decide_eq_true. simpl. clear. intuition done.
    + intros b. rewrite He. unfold integrated_pair. rewrite bool_decide_eq_true.
      change (expectedProviders "integrated") with [("realtime", "openai")]%string. by rewrite list_elem_of_singleton.
Qed.
End Judged.

(** *** The programs *)
Lemma run_lift {B} (r : result B) (s : State) : run (lift_ r) [] s = (r, s).
Proof. reflexivity. Qed.
Lemma run_Get org id s r s' : run (Agents.Get org id) [] s = (inl r, s') -> s' = s /\ open_agent s org id = Some r.
Proof.
  unfold Agents.Get. rewrite run_seq, run_lift. destruct (validateIDs org id); [|done].
  rewrite run_wrap, run_query. unfold GetVoiceAgentByID, some_row. destruct (open_agent s org id) as [a|]; [|done].
  by intros [= <- <-].
Qed.
Lemma open_agent_live s org id a : open_agent s org id = Some a -> live_agent s org id = Some a.
Proof. unfold open_agent. by destruct (org_active s org). Qed.
Lemma run_Readiness providers org id s r s' : inv s ->
  run (Readiness providers org id) [] s = (inl r, s') -> s' = s /\ exists a, open_agent s org id = Some a
  /\ (rp_Ready r = true <-> providers = true /\ activatable s a = true).
Proof.
  intros Hi. unfold Readiness. rewrite run_seq. destruct (run (Agents.Get org id) [] s) as [[a|e] s1] eqn:Hget; [|done].
  apply run_Get in Hget as [-> Ha]. destruct providers; cbn [negb].
  - rewrite run_seq. unfold BindingStatuses, ListBindings. rewrite run_seq, run_wrap, run_query.
    unfold ListVoiceAgentProviderBindings. destruct (run (statuses org _) [] s) as [[sts|e] s2] eqn:Hst; [|done]. apply run_statuses in Hst as [-> Hst].
    intros [= <- <-]. split; [done|]. exists a. split; [done|].
    destruct (open_agent_inv _ _ _ _ Ha) as [Hid <-]. destruct (inv_agents _ _ Hi _ _ Hid) as [Hai _]. subst id.
    simpl in Hst. simpl. pose proof (report_iff s a sts Hi Hst) as Hrep. rewrite (activatable_iff s a sts Hi Hid Hst), <- Hrep.
    destruct (issues (va_Engine a) sts); clear; intuition done.
  - intros [= <- <-]. split; [done|]. exists a. split; [done|]. simpl. clear. intuition done.
Qed.
Lemma run_Activate providers org id s r s' a :
  run (Readiness providers org id) [] s = (inl r, s') -> s' = s -> open_agent s org id = Some a ->
  run (Activate providers org id) [] s =
    if rp_Ready r then
      match ActivateVoiceAgent org id s with
      | inl (a', s1) => (inl (a', with_active (ac_Revision <$> va_Active a') r), s1)
      | inr e => (inr (writeError "Voice Agent readiness changed during activation" e), s)
      end
    else (inr (NewConflict "Voice Agent is not ready for activation"), s).
Proof.
  intros Hr -> Ha. unfold Activate. rewrite run_seq, Hr. destruct (rp_Ready r); [|done].
  rewrite run_seq. change (run (raise_if (negb true) _) [] s) with (inl (B := error) tt, s). cbv beta iota.
  rewrite run_seq, run_wrap. unfold exec. rewrite run_call. by destruct (ActivateVoiceAgent org id s) as [[a' s1]|e].
Qed.
End Readiness.

(** C19: [Readiness] is right. In any reachable state, when nothing else happens in
    between and no call fails, a report leaves everything as it is, and it says that
    the agent is ready exactly when [Activate] then succeeds: what the report judges
    in Go and the [WHERE] clause of the activation agree. An activation succeeds with
    the present settings of the agent, its services and its enabled tools; one that
    is refused answers with a conflict and changes nothing. *)
Theorem readiness_predicts_activation {L : AgentLib} {T : AgentTools.ToolLib} {U : UuidLib} {A : AEAD} {X : SecretLib}
    `{!SecretLaws X} `{!AEADLaws A} (entered : UUID -> string -> Prop) (providers : bool) (w : World)
    (s0 : State) (c : State * list (prog State unit)) (org id : UUID) (r : ReadinessReport) (s' : State) :
  initial s0 -> reached entered providers w s0 c -> run (Readiness providers org id) [] (fst c) = (inl r, s') ->
  s' = fst c
  /\ (rp_Ready r = true <-> exists a r' s1, run (Activate providers org id) [] (fst c) = (inl (a, r'), s1))
  /\ (rp_Ready r = true -> exists a a' r' s1, agents (fst c) !! id = Some a
      /\ run (Activate providers org id) [] (fst c) = (inl (a', r'), s1)
      /\ agents s1 !! id = Some a' /\ va_Active a' = Some (activation (fst c) a))
  /\ (rp_Ready r = false -> run (Activate providers org id) [] (fst c)
      = (inr (NewConflict "Voice Agent is not ready for activation"), fst c)).
Proof.
  intros Hi Hr Hrun. pose proof (ag_reached_inv entered providers w s0 c Hi Hr) as Hinv.
  destruct (run_Readiness entered _ _ _ _ _ _ Hinv Hrun) as (Hs & a & Ha & Hready).
  pose proof (run_Activate _ _ _ _ _ _ _ Hrun Hs Ha) as Hact. split; [exact Hs|].
  assert (rp_Ready r = true -> exists a' s1, ActivateVoiceAgent org id (fst c) = inl (a', s1)
            /\ agents s1 !! id = Some a' /\ va_Active a' = Some (activation (fst c) a)) as Hgo.
  { intros [_ Hok]%Hready. unfold ActivateVoiceAgent. rewrite (open_agent_live _ _ _ _ Ha), Hok. cbn [negb].
    eexists _, _. split; [done|]. simpl. by rewrite lookup_insert_eq. }
  rewrite Hact. destruct (rp_Ready r).
  - destruct (Hgo eq_refl) as (a' & s1 & -> & Ha' & Hc). split_and!; [|intros _|done].
    + split; [|done]. intros _. by eexists _, _, _.
    + exists a, a'. eexists _, s1. split; [exact (proj1 (open_agent_inv _ _ _ _ Ha))|]. by split.
  - split_and!; [|done|done]. split; [done|]. by intros (? & ? & ? & ?).
Qed.
(** In the run of [AgentOutcomes.v], before and after the agent is made ready. *)
Section Witness.
#[local] Existing Instance toy_secrets.
#[local] Existing Instance decimal_uuid.
#[local] Existing Instance toy_aead.
#[local] Existing Instance ex_library.
#[local] Existing Instance ex_tools.
Lemma readiness_predicts_activation_witness :
  exists a r' s1, run (Activate true 1 12) [] (fst ex_ready) = (inl (a, r'), s1).
Proof.
  destruct (run (Readiness true 1 12) [] (fst ex_ready)) as [[r|e] s'] eqn:Hr; [|by vm_compute in Hr].
  destruct (readiness_predicts_activation ex_entered true ex_world ex_state ex_ready 1 12 r s' ag_ex_initial ex_gets_ready Hr)
    as (_ & [Hok _] & _).
  apply Hok. vm_compute in Hr. injection Hr as <- _. reflexivity.
Defined.
End Witness.
End AgentReadiness.
