(* ===== verification/AgentTickets.v ===== *)
(** * Voice Agents: a tool call acts once

    What a claim of an execution is worth: the right to act once. [lin] follows the
    rights a program holds from call to call; rights that programs hold at the same
    time are different, so that no action is ever repeated. *)

From S2P Require Import Prelude Json MediaSession Encryption Programs Routing ObjectStore RecordingStore Secrets ConversationState AgentStore AgentProviders Agents AgentTools AgentRuntime AgentSafety AgentStatements AgentPrograms AgentSystem AgentOutcomes IdentityOutcomes.
Local Open Scope Z_scope.

Create HintDb rights_kept.
Create HintDb calm_statements.
Module AgentTickets.
Import AppErr Json MediaSession Encryption Programs Secrets ConversationState AgentStore AgentProviders AgentRuntime AgentSafety AgentStatements AgentPrograms AgentSystem.

Section Tickets.
Context {L : AgentLib} {T : AgentTools.ToolLib} {U : UuidLib} {A : AEAD} {X : SecretLib}.
Context (entered : UUID -> string -> Prop).
Abbreviation inv := (inv entered).

(** ** Rights

    To act for a claimed tool call; and to make the tool of an identifier. *)
Record right := { ri_org : UUID; ri_session : UUID; ri_call : UUID; ri_tool : UUID; ri_id : string }.
Definition key : Type := UUID * UUID * UUID * string.
Definition right_of (a : ToolAction) : right := {|
  ri_org := ta_OrganizationID a; ri_session := ta_SessionID a; ri_call := ta_CallID a; ri_tool := ta_ToolID a;
  ri_id := ta_ToolCallID a |}.
Definition key_of (r : right) : key := (ri_org r, ri_session r, ri_tool r, ri_id r).
Inductive ticket := ToAct (r : right) | ToMake (id : UUID).
Definition tag (t : ticket) : key + UUID := match t with ToAct r => inl (key_of r) | ToMake id => inr id end.

(** The call of the tool is accounted for: there is its execution, or the tool is
    gone for ever. *)
Definition recorded (s : State) (r : right) : Prop :=
  (exists id e, executions s !! id = Some e /\ ex_OrganizationID e = ri_org r /\ ex_SessionID e = ri_session r
     /\ ex_ToolCallID e = ri_id r /\ ex_ToolID e = ri_tool r)
  \/ tools s !! ri_tool r = None.
Definition of_session (s : State) (r : right) : Prop :=
  exists x, sessions s !! ri_session r = Some x /\ vs_OrganizationID x = ri_org r /\ vs_CallID x = ri_call r.
Definition good (s : State) (r : right) : Prop := recorded s r /\ of_session s r /\ ri_tool r < next s.
(** What is between the state and the rights held. *)
Record valid (s : State) (held : list ticket) : Prop := {
  valid_once : NoDup (key_of <$> (right_of <$> performed s));
  valid_apart : NoDup (tag <$> held);
  valid_unused : forall r, ToAct r ∈ held -> key_of r ∉ key_of <$> (right_of <$> performed s);
  valid_performed : forall a, a ∈ performed s -> good s (right_of a);
  valid_held : forall r, ToAct r ∈ held -> good s r;
  valid_unmade : forall id, ToMake id ∈ held -> id < next s /\ tools s !! id = None
    /\ (forall a, a ∈ performed s -> ta_ToolID a <> id) /\ (forall r, ToAct r ∈ held -> ri_tool r <> id);
  valid_rows : forall id e, executions s !! id = Some e -> id < next s;
}.
Lemma valid_less s t held : valid s (t :: held) -> valid s held.
Proof.
  intros [H1 H2 H3 H4 H5 H6 H7]. split; try done.
  - rewrite fmap_cons in H2. by apply NoDup_cons in H2 as [_ ?].
  - intros r Hr. apply H3. by right.
  - intros r Hr. apply H5. by right.
  - intros id Hid. destruct (H6 id) as (? & ? & ? & Hn); [by right|]. split_and!; try done. intros r Hr. apply Hn. by right.
Qed.

(** *** Changes that leave the rights alone *)
Record calm (s s' : State) : Prop := {
  calm_performed : performed s' = performed s;
  calm_executions : forall id e, executions s !! id = Some e ->
    tools s' !! ex_ToolID e = None \/ exists e', executions s' !! id = Some e'
    /\ ex_OrganizationID e' = ex_OrganizationID e /\ ex_SessionID e' = ex_SessionID e
    /\ ex_ToolCallID e' = ex_ToolCallID e /\ ex_ToolID e' = ex_ToolID e;
  calm_rows : forall id e, executions s' !! id = Some e -> is_Some (executions s !! id) \/ id < next s';
  calm_tools : forall id, id < next s -> tools s !! id = None -> tools s' !! id = None;
}.
Lemma calm_same s s' :
  performed s' = performed s -> executions s' = executions s -> tools s' = tools s -> calm s s'.
Proof.
  intros Hp He Ht. split; [done|..]; rewrite ?He, ?Ht; [|by left; eexists|done]. intros id e Hid. right. by exists e.
Qed.
Lemma calm_refl s : calm s s.
Proof. by apply calm_same. Qed.
Definition moves (s s' : State) : Prop := inv s /\ inv s' /\ guar s s'.
Lemma good_moves s s' r : moves s s' -> calm s s' -> good s r -> good s' r.
Proof.
  intros (_ & _ & Hg) Hc ([(id & e & He & Ho & Hs & Hi & Ht)|Hn] & (x & Hx & Hxo & Hxc) & Hlt).
  all: pose proof (guar_next _ _ Hg); split_and!; [|..|lia].
  2, 4: destruct (guar_sessions _ _ Hg _ _ Hx) as (x' & Hx' & _ & Ho' & Hc' & _); exists x'; split_and!; [done|congruence..].
  - destruct (calm_executions _ _ Hc _ _ He) as [Hn|(e' & He' & ? & ? & ? & ?)]; [right; congruence|left].
    exists id, e'. split_and!; [done|congruence..].
  - right. by apply (calm_tools _ _ Hc).
Qed.
Lemma calm_valid s s' held : moves s s' -> calm s s' -> valid s held -> valid s' held.
Proof.
  intros Hm Hc Hv. pose proof (calm_performed _ _ Hc) as Hp. destruct Hv as [H1 H2 H3 H4 H5 H6 H7].
  split; rewrite ?Hp; try done.
  - intros a Ha. eapply good_moves; [done..|]. by apply H4.
  - intros r Hr. eapply good_moves; [done..|]. by apply H5.
  - intros id Hid. destruct (H6 id Hid) as (? & ? & ? & ?). destruct Hm as (_ & _ & Hg). pose proof (guar_next _ _ Hg).
    split_and!; [lia|by apply (calm_tools _ _ Hc)|done|done].
  - intros id e He. destruct (calm_rows _ _ Hc _ _ He) as [[e0 He0]|]; [|done]. apply H7 in He0.
    destruct Hm as (_ & _ & Hg). pose proof (guar_next _ _ Hg). lia.
Qed.

(** ** Programs and the rights they hold *)
Fixpoint lin {B} (h : list ticket) (p : prog State B) (Q : list ticket -> result B -> Prop) : Prop :=
  match p with
  | Return r => Q h r
  | Call f k => forall c s rest x s', moves s s' -> valid s (h ++ rest) -> answer f c s = (x, s') ->
      exists h', valid s' (h' ++ rest) /\ lin h' (k x) Q
  | Local f k => forall s rest x s', moves s s' -> valid s (h ++ rest) -> f s = (x, s') ->
      exists h', valid s' (h' ++ rest) /\ lin h' (k x) Q
  end.
Lemma lin_conseq {B} h (p : prog State B) (Q Q' : list ticket -> result B -> Prop) :
  lin h p Q -> (forall h r, Q h r -> Q' h r) -> lin h p Q'.
Proof.
  revert h. induction p as [r|Y f k IH|Y f k IH]; simpl; intros h Hp HQ; [auto|..].
  - intros c s rest x s' Hm Hv Ha. destruct (Hp c s rest x s' Hm Hv Ha) as (h' & Hv' & Hk). exists h'. auto.
  - intros s rest x s' Hm Hv Ha. destruct (Hp s rest x s' Hm Hv Ha) as (h' & Hv' & Hk). exists h'. auto.
Qed.
Lemma lin_andthen {B C} h (p : prog State B) (k : result B -> prog State C) R Q :
  lin h p R -> (forall h' r, R h' r -> lin h' (k r) Q) -> lin h (andthen p k) Q.
Proof.
  revert h. induction p as [r|Y f g IH|Y f g IH]; simpl; intros h Hp HQ; [auto|..].
  - intros c s rest x s' Hm Hv Ha. destruct (Hp c s rest x s' Hm Hv Ha) as (h' & Hv' & Hk). exists h'. auto.
  - intros s rest x s' Hm Hv Ha. destruct (Hp s rest x s' Hm Hv Ha) as (h' & Hv' & Hk). exists h'. auto.
Qed.
(** A right that is not used. *)
Lemma lin_less {B} t (p : prog State B) Q h : lin h p Q -> (forall r h', Q h' r -> Q (t :: h') r) -> lin (t :: h) p Q.
Proof.
  revert h. induction p as [r|Y f k IH|Y f k IH]; simpl; intros h Hp HQ; [auto|..].
  - intros c s rest x s' Hm Hv%valid_less Ha. destruct (Hp c s rest x s' Hm Hv Ha) as (h' & Hv' & Hk). by exists h'.
  - intros s rest x s' Hm Hv%valid_less Ha. destruct (Hp s rest x s' Hm Hv Ha) as (h' & Hv' & Hk). by exists h'.
Qed.
(** A program that needs no rights, and keeps those there are. *)
Definition quiet {B} (p : prog State B) : Prop := forall h, lin h p (fun h' _ => h' = h).
Lemma quietly_return {B} (r : result B) : quiet (Return r).
Proof. done. Qed.
Lemma quiet_andthen {B C} (p : prog State B) (k : result B -> prog State C) :
  quiet p -> (forall r, quiet (k r)) -> quiet (andthen p k).
Proof. intros Hp Hk h. eapply lin_andthen; [apply Hp|]. intros h' r ->. apply Hk. Qed.
Lemma quietly_seq {B C} (p : prog State B) (k : B -> prog State C) : quiet p -> (forall b, quiet (k b)) -> quiet (seq p k).
Proof. intros Hp Hk. apply quiet_andthen; [done|]. by intros [b|e]. Qed.
Lemma quietly_attempt {B} (p : prog State B) : quiet p -> quiet (attempt_ p).
Proof. intros Hp. apply quiet_andthen; [done|]. by intros r. Qed.
Lemma quietly_wrap {B} f (p : prog State B) : quiet p -> quiet (wrap_ f p).
Proof. intros Hp. apply quiet_andthen; [done|]. by intros r. Qed.
Lemma quietly_raise_if c e : quiet (raise_if (S := State) c e).
Proof. by destruct c. Qed.
Lemma quiet_call {B} (f : State -> result B * State) : (forall s, inv s -> calm s (snd (f s))) -> quiet (call f).
Proof.
  intros Hf h c s rest x s' Hm Hv Ha. exists h. split; [|done]. eapply calm_valid; [done| |done].
  destruct Hm as [Hi _]. destruct c; simpl in Ha; [| |]; simplify_eq; [|apply calm_refl|by apply Hf].
  specialize (Hf s Hi). by rewrite Ha in Hf.
Qed.
Lemma quietly_query {B} (f : State -> result B) : quiet (query f).
Proof. apply quiet_call. intros s _. apply calm_refl. Qed.
Lemma quiet_exec {B} (f : State -> result (B * State)) :
  (forall s x s', inv s -> f s = inl (x, s') -> calm s s') -> quiet (exec f).
Proof.
  intros Hf. apply quiet_call. intros s Hi. destruct (f s) as [[x s']|e] eqn:Hfs; [by eapply Hf|apply calm_refl].
Qed.
Lemma quiet_local {B} (f : State -> B * State) : (forall s, inv s -> calm s (snd (f s))) -> quiet (local f).
Proof.
  intros Hf h s rest x s' Hm Hv Ha. exists h. split; [|done]. eapply calm_valid; [done| |done].
  destruct Hm as [Hi _]. specialize (Hf s Hi). by rewrite Ha in Hf.
Qed.
Lemma quiet_each {B} (f : B -> prog State unit) l : (forall b, quiet (f b)) -> quiet (for_each f l).
Proof. intros Hf. induction l as [|b l IH]; [done|]. by apply quietly_seq. Qed.
Lemma quiet_draw : quiet draw.
Proof. apply quiet_call. intros s _. by apply calm_same. Qed.

(** *** The statements *)
Lemma bump_same org id s s' : bump_voice_agent_configuration_revision org id s = inl s' ->
  performed s' = performed s /\ executions s' = executions s /\ tools s' = tools s.
Proof. by intros [->|(a & a' & _ & _ & ->)]%bump_inv. Qed.
Lemma put_agent_calm a s x s' : put_agent a s = inl (x, s') -> calm s s'.
Proof. intros (_ & _ & ->)%put_agent_inv. by apply calm_same. Qed.
Lemma CreateVoiceAgent_calm s org c x s' : CreateVoiceAgent org c s = inl (x, s') -> calm s s'.
Proof.
  unfold CreateVoiceAgent. destruct (org_active s org); [|done]. cbn [fresh negb].
  intros (_ & _ & ->)%put_agent_inv. by apply calm_same.
Qed.
Lemma UpdateVoiceAgent_calm s org id p x s' : UpdateVoiceAgent org id p s = inl (x, s') -> calm s s'.
Proof. unfold UpdateVoiceAgent. destruct (open_agent s org id); [|done]. apply put_agent_calm. Qed.
Lemma DisableVoiceAgent_calm s org id x s' : DisableVoiceAgent org id s = inl (x, s') -> calm s s'.
Proof. unfold DisableVoiceAgent. destruct (open_agent s org id); intros [= _ <-]; by apply calm_same. Qed.
Lemma ActivateVoiceAgent_calm s org id x s' : ActivateVoiceAgent org id s = inl (x, s') -> calm s s'.
Proof.
  unfold ActivateVoiceAgent. destruct (live_agent s org id) as [a|]; [|done]. destruct (activatable s a); [|done].
  intros [= _ <-]. by apply calm_same.
Qed.
Lemma CreateVoiceAgentBinding_calm s org agent phone x s' : CreateVoiceAgentBinding org agent phone s = inl (x, s') -> calm s s'.
Proof.
  unfold CreateVoiceAgentBinding. destruct (open_agent s org agent); [|done].
  destruct (negb _); [done|]. destruct (existsb _ _); [done|]. intros [= _ <-]. by apply calm_same.
Qed.
Lemma DeleteVoiceAgentBinding_calm s org agent id x s' : DeleteVoiceAgentBinding org agent id s = inl (x, s') -> calm s s'.
Proof. unfold DeleteVoiceAgentBinding. repeat case_match; intros [= _ <-]; by apply calm_same. Qed.
Lemma CreateAIProviderCredential_calm s id org provider name ciphertext x s' :
  CreateAIProviderCredential id org provider name ciphertext s = inl (x, s') -> calm s s'.
Proof. unfold CreateAIProviderCredential. repeat (case_match; [done|]). intros [= _ <-]. by apply calm_same. Qed.
Lemma RotateAIProviderCredential_calm s org id ciphertext x s' :
  RotateAIProviderCredential org id ciphertext s = inl (x, s') -> calm s s'.
Proof.
  unfold RotateAIProviderCredential. destruct (own_credential s org id); [|done]. destruct (negb _); [done|].
  intros [= _ <-]. by apply calm_same.
Qed.
Lemma UpdateAIProviderCredentialVerification_calm s org id state failure x s' :
  UpdateAIProviderCredentialVerification org id state failure s = inl (x, s') -> calm s s'.
Proof.
  unfold UpdateAIProviderCredentialVerification. destruct (own_credential s org id); [|done]. destruct (negb _); [done|].
  intros [= _ <-]. by apply calm_same.
Qed.
Lemma DeleteAIProviderCredential_calm s org id x s' : DeleteAIProviderCredential org id s = inl (x, s') -> calm s s'.
Proof. unfold DeleteAIProviderCredential. repeat case_match; intros [= _ <-]; by apply calm_same. Qed.
Lemma UpsertVoiceAgentProviderBinding_calm s org agent role provider credential config x s' :
  UpsertVoiceAgentProviderBinding org agent role provider credential config s = inl (x, s') -> calm s s'.
Proof.
  unfold UpsertVoiceAgentProviderBinding. destruct (negb (_ && json_text config)); [done|].
  destruct (negb (_ && bool_decide (is_Some (own_credential _ _ _)))); [done|].
  destruct (provider_bindings s !! (org, agent, role)); cbn [fresh];
    intros (s1 & (Hp & He & Ht)%bump_same & [= _ <-])%rbind_ok_inv; by apply calm_same.
Qed.
Lemma DeleteVoiceAgentProviderBinding_calm s org agent role x s' :
  DeleteVoiceAgentProviderBinding org agent role s = inl (x, s') -> calm s s'.
Proof.
  unfold DeleteVoiceAgentProviderBinding. case_match; [|intros [= _ <-]; apply calm_refl].
  intros (s1 & (Hp & He & Ht)%bump_same & [= _ <-])%rbind_ok_inv. by apply calm_same.
Qed.
(** A tool that is there already, or is new. *)
Lemma put_tool_same t s s' : put_tool t s = inl s' ->
  performed s' = performed s /\ executions s' = executions s /\ tools s' = <[to_ID t := t]> (tools s).
Proof. unfold put_tool. destruct (negb _); [done|]. destruct (existsb _ _); [done|]. by intros (-> & -> & ->)%bump_same. Qed.
Lemma tool_calm s s1 t s' :
  executions s1 = executions s -> performed s1 = performed s -> tools s1 = tools s ->
  (forall id, id < next s -> tools s !! id = None -> id <> to_ID t) -> put_tool t s1 = inl s' -> calm s s'.
Proof.
  intros He Hp Ht Hid (Hp' & He' & Ht')%put_tool_same. rewrite Hp in Hp'. rewrite He in He'. rewrite Ht in Ht'.
  split; [done|..]; rewrite ?He', ?Ht'.
  - intros id e Hx. right. by exists e.
  - intros id e Hx. left. by eexists.
  - intros id Hlt Hn. rewrite lookup_insert_ne; [done|]. by apply not_eq_sym, Hid.
Qed.
Lemma CreateVoiceAgentTool_calm s org agent type c x s' : CreateVoiceAgentTool org agent type c s = inl (x, s') -> calm s s'.
Proof.
  unfold CreateVoiceAgentTool. destruct (open_agent s org agent); [|done]. cbn [fresh].
  intros (s1 & Hs1 & [= _ <-])%rbind_ok_inv. eapply tool_calm; [| | | |exact Hs1]; try done. simpl. intros id ? _. lia.
Qed.
Lemma UpdateVoiceAgentTool_calm s org agent id p x s' :
  inv s -> UpdateVoiceAgentTool org agent id p s = inl (x, s') -> calm s s'.
Proof.
  intros Hi. unfold UpdateVoiceAgentTool. destruct (open_tool s org agent id) as [t|] eqn:Ht; [|done].
  apply open_tool_inv in Ht. destruct (inv_tools _ _ Hi _ _ Ht) as [Hid _].
  intros (s1 & Hs1 & [= _ <-])%rbind_ok_inv. eapply tool_calm; [| | | |exact Hs1]; try done. simpl. congruence.
Qed.
Lemma DeleteVoiceAgentTool_calm s org agent id x s' : DeleteVoiceAgentTool org agent id s = inl (x, s') -> calm s s'.
Proof.
  unfold DeleteVoiceAgentTool. case_match; [|intros [= _ <-]; apply calm_refl].
  intros (s1 & (Hp & He & Ht)%bump_same & [= _ <-])%rbind_ok_inv. simpl in *. split; [done|..]; rewrite ?He, ?Ht.
  - intros k e Hx. destruct (decide (ex_ToolID e = id)) as [->|Hne]; [left; apply lookup_delete_eq|right].
    exists e. split; [|done]. by apply map_lookup_filter_Some.
  - intros k e [Hx _]%map_lookup_filter_Some. left. by eexists.
  - intros k _ Hn. by rewrite lookup_delete_None, Hn; right.
Qed.
Lemma put_secret_calm id ciphertext s s' : put_secret id ciphertext s = inl s' ->
  performed s' = performed s /\ executions s' = executions s /\ tools s' = tools s.
Proof. unfold put_secret. destruct (negb _); [done|]. by intros [= <-]. Qed.
Lemma RotateVoiceAgentToolSigningSecret_calm s org agent id ciphertext x s' :
  RotateVoiceAgentToolSigningSecret org agent id ciphertext s = inl (x, s') -> calm s s'.
Proof.
  unfold RotateVoiceAgentToolSigningSecret. destruct (open_tool _ _ _ _) as [t|]; [|intros [= _ <-]; apply calm_refl].
  destruct (bool_decide _); [|intros [= _ <-]; apply calm_refl].
  intros (s1 & (? & ? & ?)%put_secret_calm & [= _ <-])%rbind_ok_inv. by apply calm_same.
Qed.
Lemma CreateVoiceAgentSession_calm s org call agent x s' :
  CreateVoiceAgentSession org call agent s = inl (x, s') -> calm s s'.
Proof.
  unfold CreateVoiceAgentSession. destruct (calls s !! call); [|done]. destruct (open_agent s org agent); [|done].
  destruct (negb _); [done|]. destruct (va_Active _); [|done]. destruct (existsb _ _); [done|].
  intros [= _ <-]. by apply calm_same.
Qed.
Lemma CompleteVoiceAgentSession_calm s org id state u ended x s' :
  CompleteVoiceAgentSession org id state u ended s = inl (x, s') -> calm s s'.
Proof.
  unfold CompleteVoiceAgentSession. destruct (own_session s org id); [|done]. destruct (negb _); [done|].
  intros [= _ <-]. by apply calm_same.
Qed.
Lemma CreateVoiceAgentTurn_calm s org session c x s' : CreateVoiceAgentTurn org session c s = inl (x, s') -> calm s s'.
Proof.
  unfold CreateVoiceAgentTurn. destruct (negb _); [done|]. destruct (negb _); [done|]. destruct (bool_decide _); [done|].
  intros [= _ <-]. by apply calm_same.
Qed.
(** An execution that gets its result. *)
Lemma answered_calm s id e e' :
  executions s !! id = Some e -> ex_OrganizationID e' = ex_OrganizationID e -> ex_SessionID e' = ex_SessionID e ->
  ex_ToolCallID e' = ex_ToolCallID e -> ex_ToolID e' = ex_ToolID e ->
  calm s (set_executions (<[id := e']> (executions s)) s).
Proof.
  intros He ? ? ? ?. split; simpl; [done|..|done].
  - intros k x Hx. right. destruct (decide (k = id)) as [->|Hne].
    + rewrite lookup_insert_eq. exists e'. assert (x = e) as -> by congruence. by split_and!.
    + rewrite lookup_insert_ne by done. by exists x.
  - intros k x. destruct (decide (k = id)) as [->|Hne]; [by left; eexists|]. rewrite lookup_insert_ne by done.
    intros Hx. left. by eexists.
Qed.
Lemma processing_inv s org id e : processing s org id = Some e -> executions s !! id = Some e.
Proof. unfold processing. destruct (executions s !! id); [|done]. destruct (_ && _); [|done]. by intros [= ->]. Qed.
Lemma MarkVoiceAgentToolExecutionSucceeded_calm s org id status contentType body x s' :
  MarkVoiceAgentToolExecutionSucceeded org id status contentType body s = inl (x, s') -> calm s s'.
Proof.
  unfold MarkVoiceAgentToolExecutionSucceeded. destruct (processing s org id) as [e|] eqn:He; [|intros [= _ <-]; apply calm_refl].
  destruct (negb _); [done|]. intros [= _ <-]. by eapply answered_calm; [by apply processing_inv in He|..].
Qed.
Lemma MarkVoiceAgentToolExecutionFailed_calm s org id message x s' :
  MarkVoiceAgentToolExecutionFailed org id message s = inl (x, s') -> calm s s'.
Proof.
  unfold MarkVoiceAgentToolExecutionFailed. destruct (processing s org id) as [e|] eqn:He; [|intros [= _ <-]; apply calm_refl].
  destruct (negb _); [done|]. intros [= _ <-]. by eapply answered_calm; [by apply processing_inv in He|..].
Qed.
End Tickets.
#[export] Hint Resolve CreateVoiceAgent_calm UpdateVoiceAgent_calm DisableVoiceAgent_calm ActivateVoiceAgent_calm
  CreateVoiceAgentBinding_calm DeleteVoiceAgentBinding_calm CreateAIProviderCredential_calm
  RotateAIProviderCredential_calm UpdateAIProviderCredentialVerification_calm DeleteAIProviderCredential_calm
  UpsertVoiceAgentProviderBinding_calm DeleteVoiceAgentProviderBinding_calm CreateVoiceAgentTool_calm
  UpdateVoiceAgentTool_calm DeleteVoiceAgentTool_calm RotateVoiceAgentToolSigningSecret_calm
  CreateVoiceAgentSession_calm CompleteVoiceAgentSession_calm CreateVoiceAgentTurn_calm
  MarkVoiceAgentToolExecutionSucceeded_calm MarkVoiceAgentToolExecutionFailed_calm : calm_statements.

(** *** Programs that do not act *)
Ltac quiet_step := first
  [ solve [auto 4 with rights_kept nocore]
  | apply quietly_return | apply quietly_raise_if | apply quietly_wrap | apply quietly_attempt | apply quietly_query | apply quiet_draw
  | (apply quiet_exec; intros; solve [eauto with calm_statements])
  | (apply quiet_local; intros; apply calm_same; reflexivity)
  | (apply quiet_each; intros ?)
  | (apply quietly_seq; [|intros ?])
  | match goal with
    | |- quiet _ (if ?c then _ else _) => destruct c
    | |- quiet _ (match ?c with _ => _ end) => destruct c
    end ].
Ltac quiets := repeat (quiet_step; cbn beta iota zeta).

Section Quiet.
Context {L : AgentLib} {T : AgentTools.ToolLib} {U : UuidLib} {A : AEAD} {X : SecretLib}.
Context (entered : UUID -> string -> Prop) (cipher providers : bool).
Abbreviation inv := (inv entered).
Abbreviation quiet := (quiet entered).

Lemma quiet_Agent_Get org id : quiet (Agents.Get org id).
Proof. unfold Agents.Get. quiets. Qed.
Lemma quiet_UpsertBinding org agent role provider credential config :
  quiet (UpsertBinding org agent role provider credential config).
Proof. unfold UpsertBinding. quiets. Qed.
Lemma quiet_DeleteBinding org agent role : quiet (DeleteBinding org agent role).
Proof. unfold DeleteBinding. quiets. Qed.
Lemma quiet_applyBindings org agent l replace : quiet (Agents.applyBindings providers org agent l replace).
Proof.
  unfold Agents.applyBindings, Agents.drop_unrequested, Agents.bind_one, ListBindings. quiets;
    first [apply quiet_DeleteBinding|apply quiet_UpsertBinding].
Qed.
Lemma quiet_statuses org l : quiet (statuses org l).
Proof. induction l; simpl; quiets; assumption. Qed.
Lemma quiet_Readiness org id : quiet (Agents.Readiness providers org id).
Proof. unfold Agents.Readiness, Agents.Get, BindingStatuses, ListBindings. quiets. apply quiet_statuses. Qed.
#[local] Hint Resolve quiet_Agent_Get quiet_UpsertBinding quiet_DeleteBinding quiet_applyBindings quiet_statuses quiet_Readiness : rights_kept.
Lemma quiet_Agent_List org : quiet (Agents.List_ org).
Proof. unfold Agents.List_. quiets. Qed.
Lemma quiet_Agent_Create org r : quiet (Agents.Create providers org r).
Proof. unfold Agents.Create. quiets. Qed.
Lemma quiet_Agent_Update org id r : quiet (Agents.Update providers org id r).
Proof. unfold Agents.Update. quiets. Qed.
Lemma quiet_Agent_Disable org id : quiet (Agents.Disable org id).
Proof. unfold Agents.Disable. quiets. Qed.
Lemma quiet_Activate org id : quiet (Agents.Activate providers org id).
Proof. unfold Agents.Activate. quiets. Qed.
Lemma quiet_CreateBinding org agent phone : quiet (Agents.CreateBinding org agent phone).
Proof. unfold Agents.CreateBinding. quiets. Qed.
Lemma quiet_ListPhoneBindings org agent : quiet (Agents.ListPhoneBindings org agent).
Proof. unfold Agents.ListPhoneBindings. quiets. Qed.
Lemma quiet_DeletePhoneBinding org agent id : quiet (Agents.DeletePhoneBinding org agent id).
Proof. unfold Agents.DeletePhoneBinding. quiets. Qed.
Lemma quiet_with_usage org l : quiet (with_usage org l).
Proof. induction l; simpl; quiets; assumption. Qed.
#[local] Hint Resolve quiet_with_usage : rights_kept.
Lemma quiet_CreateCredential org provider name secret : quiet (CreateCredential cipher org provider name secret).
Proof. unfold CreateCredential, uuid_New, encrypt. quiets. Qed.
Lemma quiet_ListIntegrations org : quiet (ListIntegrations org).
Proof. unfold ListIntegrations, ListCredentials. quiets. Qed.
Lemma quiet_RotateCredential org id secret : quiet (RotateCredential cipher org id secret).
Proof. unfold RotateCredential, ids_required, encrypt. quiets. Qed.
Lemma quiet_VerifyIntegration verify org id : quiet (VerifyIntegration cipher verify org id).
Proof. unfold VerifyIntegration, ids_required, open_secret, Verify. quiets. Qed.
Lemma quiet_DeleteCredential org id : quiet (DeleteCredential org id).
Proof. unfold DeleteCredential, ids_required. quiets. Qed.
Lemma quiet_ListBindings org agent : quiet (ListBindings org agent).
Proof. unfold ListBindings. quiets. Qed.
Lemma quiet_resolve_snapshots org l : quiet (resolve_snapshots org l).
Proof. induction l; simpl; unfold open_secret; quiets; assumption. Qed.

(** Tools, but for the making of a webhook. *)
Lemma quiet_Tool_Get org agent id : quiet (AgentTools.Get org agent id).
Proof. unfold AgentTools.Get, AgentTools.tool_id_required. quiets. Qed.
Lemma quiet_new_secret org agent id : quiet (AgentTools.new_secret org agent id).
Proof. unfold AgentTools.new_secret, AgentTools.newSigningSecret, encrypt. quiets. Qed.
#[local] Hint Resolve quiet_Tool_Get quiet_new_secret : rights_kept.
Lemma quiet_SigningSecret org agent id : quiet (AgentTools.SigningSecret cipher org agent id).
Proof. unfold AgentTools.SigningSecret. quiets. Qed.
Lemma quiet_Tool_List org agent : quiet (AgentTools.List_ org agent).
Proof. unfold AgentTools.List_. quiets. Qed.
Lemma quiet_Tool_Update org agent id p : quiet (AgentTools.Update org agent id p).
Proof. unfold AgentTools.Update, AgentTools.tool_id_required. quiets. Qed.
Lemma quiet_Tool_Delete org agent id : quiet (AgentTools.Delete org agent id).
Proof. unfold AgentTools.Delete, AgentTools.tool_id_required. quiets. Qed.
Lemma quiet_RotateSigningSecret org agent id : quiet (AgentTools.RotateSigningSecret cipher org agent id).
Proof. unfold AgentTools.RotateSigningSecret, AgentTools.tool_id_required. quiets. Qed.

(** Conversations. *)
Lemma quiet_GetActiveByCall org call : quiet (GetActiveByCall org call).
Proof. unfold GetActiveByCall. quiets. Qed.
Lemma quiet_when_ended t : quiet (when_ended t).
Proof. unfold when_ended. quiets. Qed.
Lemma quiet_Complete org id state u ended : quiet (Complete org id state u ended).
Proof. unfold Complete, when_ended. quiets. Qed.
Lemma quiet_CreateTurn org session c : quiet (CreateTurn org session c).
Proof. unfold CreateTurn. quiets. Qed.
#[local] Hint Resolve quiet_GetActiveByCall quiet_when_ended quiet_Complete quiet_CreateTurn quiet_resolve_snapshots : rights_kept.
Lemma quiet_AttachCall org call agent : quiet (AttachCall org call agent).
Proof. unfold AttachCall, CreateSession. quiets. Qed.
Lemma quiet_CompleteCall org call state ended u : quiet (CompleteCallWithSummary org call state ended u).
Proof. unfold CompleteCallWithSummary. quiets. Qed.
Lemma quiet_fail_now c : quiet (fail_now c).
Proof. unfold fail_now, failSession, CompleteCallWithSummary. quiets. Qed.
#[local] Hint Resolve quiet_AttachCall quiet_CompleteCall quiet_fail_now : rights_kept.
Lemma quiet_ListTurns org session : quiet (ListTurns org session).
Proof. unfold ListTurns. quiets. Qed.
Lemma quiet_at {B} p (f : conversationState -> option B * conversationState) : quiet (local (at_conversation p f)).
Proof.
  apply quiet_local. intros s _. unfold at_conversation. destruct (heap s !! p) as [v|]; [|apply calm_refl].
  destruct (f v). by apply calm_same.
Qed.
Lemma quiet_persist_made org session t : quiet (persist_made org session t).
Proof. unfold persist_made, persistTurn. quiets. Qed.
#[local] Hint Resolve @quiet_at quiet_persist_made : rights_kept.
Section Runtime.
Context (P : Peers).
Lemma quiet_stopMediaSession session : quiet (stopMediaSession P session).
Proof. unfold stopMediaSession. quiets. Qed.
Lemma quiet_registerControl call session url : quiet (registerControl P call session url).
Proof.
  unfold registerControl. quiets. apply quiet_local. intros s _. unfold register.
  destruct (controls s !! session); by apply calm_same.
Qed.
Lemma quiet_fail_with {B} e l : Forall quiet l -> quiet (fail_with (B := B) e l).
Proof. intros Hl. unfold fail_with. quiets. induction Hl; simpl; quiets; assumption. Qed.
#[local] Hint Resolve quiet_stopMediaSession quiet_registerControl : rights_kept.
Lemma quiet_connect c x channelID profile cfg : quiet (connect P c x channelID profile cfg).
Proof.
  unfold connect. apply quietly_seq; [apply quietly_attempt, quiet_call; intros s _; by apply calm_same|].
  intros [[audio url]|e]; quiets; apply quiet_fail_with; repeat (apply Forall_cons; split); try apply Forall_nil; try done; quiets.
Qed.
Lemma quiet_prepare c x channel : quiet (prepare cipher c x channel).
Proof. unfold prepare, ProviderRuntimesFromSnapshot, ResolveSnapshot. quiets. Qed.
#[local] Hint Resolve quiet_connect quiet_prepare : rights_kept.
Lemma quiet_HandleLifecycle c e : quiet (HandleLifecycle cipher P c e).
Proof. destruct e; simpl; [unfold attach|unfold finish|]; quiets. Qed.
Lemma quiet_observeControl c session connection l : quiet (observeControl c session connection l).
Proof.
  unfold observeControl. apply quietly_seq.
  - induction l as [|[e provider] l IH]; simpl; [quiets|]. unfold observe_event, failSession. quiets.
  - intros []. apply quiet_local. intros s _. unfold forget_control. simpl. destruct (bool_decide _); by apply calm_same.
Qed.
End Runtime.

End Quiet.
#[export] Hint Resolve quiet_Agent_Get quiet_UpsertBinding quiet_DeleteBinding quiet_Readiness quiet_Agent_List
  quiet_Agent_Create quiet_Agent_Update quiet_Agent_Disable quiet_Activate quiet_CreateBinding quiet_ListPhoneBindings
  quiet_DeletePhoneBinding quiet_CreateCredential quiet_ListIntegrations quiet_RotateCredential quiet_VerifyIntegration
  quiet_DeleteCredential quiet_ListBindings quiet_Tool_Get quiet_new_secret quiet_Tool_List quiet_Tool_Update
  quiet_Tool_Delete quiet_SigningSecret quiet_RotateSigningSecret quiet_HandleLifecycle quiet_observeControl quiet_ListTurns
  quiet_persist_made @quiet_at : rights_kept.

(** ** Programs that act *)
Section Acting.
Context {L : AgentLib} {T : AgentTools.ToolLib} {U : UuidLib} {A : AEAD} {X : SecretLib}.
Context (entered : UUID -> string -> Prop) (providers : bool).
Abbreviation inv := (inv entered).
Abbreviation quiet := (quiet entered).
Lemma lin_seq {B C} h (p : prog State B) (k : B -> prog State C) (Q : list ticket -> result C -> Prop) :
  quiet p -> (forall b, lin entered h (k b) Q) -> (forall e, Q h (inr e)) -> lin entered h (seq p k) Q.
Proof. intros Hp Hk He. eapply lin_andthen; [apply Hp|]. intros h' [b|e] ->; [apply Hk|apply He]. Qed.
Definition anything {B} (h : list ticket) (r : result B) : Prop := True.
Lemma lin_attempted {B C} h (p : prog State B) (k : result B -> prog State C) R Q :
  lin entered h p R -> (forall h' r, R h' r -> lin entered h' (k r) Q) -> lin entered h (seq (attempt_ p) k) Q.
Proof.
  intros Hp Hk. eapply lin_andthen with (R := fun h' x => exists r, x = inl r /\ R h' r).
  - eapply lin_andthen; [exact Hp|]. intros h' r Hr. by exists r.
  - intros h' x (r & -> & Hr). by apply Hk.
Qed.
Lemma lin_quiet {B} h (p : prog State B) : quiet p -> lin entered h p anything.
Proof. intros Hp. by eapply lin_conseq; [apply Hp|]. Qed.

(** A claim gives a right that nobody has. *)
Definition request_right (r : AgentTools.ExecuteRequest) : right := {|
  ri_org := AgentTools.rq_OrganizationID r; ri_session := AgentTools.rq_SessionID r; ri_call := AgentTools.rq_CallID r;
  ri_tool := AgentTools.rq_ToolID r; ri_id := AgentTools.rq_ToolCallID r |}.
Lemma valid_more s r held : valid s held -> good s r ->
  (forall r', ToAct r' ∈ held -> key_of r' <> key_of r) -> (forall a, a ∈ performed s -> key_of (right_of a) <> key_of r) ->
  is_Some (tools s !! ri_tool r) -> valid s (ToAct r :: held).
Proof.
  intros [H1 H2 H3 H4 H5 H6 H7] Hr Hh Hp [t Ht]. split; try done.
  - rewrite fmap_cons, NoDup_cons. split; [|done]. intros ([r'|id] & He & Hin)%list_elem_of_fmap; [|done].
    apply (inj inl) in He. by apply (Hh r' Hin).
  - intros r' [[= ->]|Hr']%elem_of_cons; [|by apply H3]. intros (x & He & (a & -> & Ha)%list_elem_of_fmap)%list_elem_of_fmap.
    by apply (Hp a Ha).
  - intros r' [[= ->]|Hr']%elem_of_cons; [done|]. by apply H5.
  - intros id [?|Hid]%elem_of_cons; [done|]. destruct (H6 id Hid) as (? & Hn & ? & Ho). split_and!; [done..|].
    intros r' [[= ->]|Hr']%elem_of_cons; [congruence|]. by apply Ho.
Qed.
Lemma claim_valid s r id s' held : moves entered s s' -> valid s held ->
  ClaimVoiceAgentToolExecution (AgentTools.rq_OrganizationID r) (AgentTools.rq_SessionID r) (AgentTools.rq_VoiceAgentID r)
    (AgentTools.rq_ToolID r) (AgentTools.rq_CallID r) (AgentTools.rq_ToolCallID r) (AgentTools.rq_Arguments r) s = inl (id, s') ->
  valid s' (ToAct (request_right r) :: held).
Proof.
  intros Hm Hv. pose proof Hm as (Hi & _ & _). unfold ClaimVoiceAgentToolExecution.
  destruct (own_session s _ _) as [x|] eqn:Hx; [|done]. destruct (tools s !! _) as [t|] eqn:Ht; [|done].
  destruct (negb _) eqn:Hc; [done|]. apply negb_false_iff in Hc. rewrite !andb_true_iff, !bool_decide_eq_true in Hc.
  destruct (negb _); [done|]. destruct (existsb _ _) eqn:Hex; [done|]. cbn [fresh]. intros [= <- Hs].
  assert (calm s s') as Hcalm.
  { rewrite <- Hs. split; simpl; [done|..|done].
    - intros k e Hk. right. exists e. rewrite lookup_insert_ne; [done|]. apply (valid_rows _ _ Hv) in Hk. lia.
    - intros k e. destruct (decide (k = next s)) as [->|Hne]; [right; lia|]. rewrite lookup_insert_ne by done. left. by eexists. }
  assert (forall r', good s r' -> key_of r' <> key_of (request_right r)) as Hnew.
  { intros r' [[(k & e & Hk & Ho & Hses & Hid & _)|Hn] _] [= E1 E2 E3 E4]; [|congruence].
    apply (no_row _ _ Hex) in Hk. unfold same_call in Hk. by rewrite !bool_decide_eq_true_2 in Hk by congruence. }
  apply valid_more; [by eapply (calm_valid entered)| | | |rewrite <- Hs; by exists t].
  - apply (own_session_inv entered) in Hx as (Hx & Ho & _). destruct (inv_tools entered _ Hi _ _ Ht) as (_ & ? & _). rewrite <- Hs. split_and!.
    + left. eexists (next s), _. simpl. by rewrite lookup_insert_eq.
    + exists x. simpl. tauto.
    + simpl. lia.
  - intros r' Hin%(valid_held _ _ Hv). by apply Hnew.
  - rewrite (calm_performed _ _ Hcalm). intros a Ha%(valid_performed _ _ Hv). by apply Hnew.
Qed.
Lemma valid_drop s h held : valid s (h ++ held) -> valid s held.
Proof. induction h as [|t h IH]; [done|]. intros Hv%valid_less. by apply IH. Qed.
(** A statement that trades rights; a failure gives them up. *)
Lemma lin_exec {B} h h' (f : State -> result (B * State)) :
  (forall s x s' held, moves entered s s' -> valid s (h ++ held) -> f s = inl (x, s') -> valid s' (h' ++ held)) ->
  lin entered h (exec f) (fun k x => match x with inl _ => k = h' | inr _ => k = [] end).
Proof.
  intros Hf c s held x s' Hm Hv Ha. destruct (f s) as [[b s1]|e] eqn:Hfs.
  - destruct c as [|e|e]; simpl in Ha; rewrite ?Hfs in Ha; injection Ha as <- <-.
    + exists h'. split; [by eapply Hf|done].
    + exists []. split; [by eapply valid_drop|done].
    + exists []. split; [by eapply valid_drop, Hf|done].
  - exists []. destruct c as [|e'|e']; simpl in Ha; rewrite ?Hfs in Ha; injection Ha as <- <-;
      (split; [by eapply valid_drop|done]).
Qed.
Lemma lin_claim r : lin entered [] (AgentTools.claim r)
  (fun h x => match x with inl _ => h = [ToAct (request_right r)] | inr _ => h = [] end).
Proof. apply lin_exec. intros s x s' held. apply claim_valid. Qed.
(** An action uses the right up. *)
Lemma log_valid s a held : valid s (ToAct (right_of a) :: held) -> valid (log_action a s) held.
Proof.
  intros Hv. pose proof (valid_less _ _ _ Hv) as [H1 H2 H3 H4 H5 H6 H7]. split; try done; simpl.
  - rewrite !fmap_app. apply NoDup_app. split; [done|]. split; [|by apply NoDup_singleton].
    intros k Hk ->%list_elem_of_singleton. exact (valid_unused _ _ Hv _ (list_elem_of_here _ _) Hk).
  - intros r Hr. rewrite !fmap_app, elem_of_app. intros [Hin|Hin%list_elem_of_singleton]; [by apply (H3 r)|].
    pose proof (valid_apart _ _ Hv) as Hnd. rewrite fmap_cons, NoDup_cons in Hnd. destruct Hnd as [Hn _]. apply Hn.
    apply list_elem_of_fmap. exists (ToAct r). split; [simpl; by rewrite Hin|done].
  - intros a' [Ha'| ->%list_elem_of_singleton]%elem_of_app; [by apply H4|]. apply (valid_held _ _ Hv). left.
  - intros id Hid. destruct (H6 id Hid) as (? & ? & Hp & ?). split_and!; try done.
    intros a' [Ha'| ->%list_elem_of_singleton]%elem_of_app; [by apply Hp|].
    destruct (valid_unmade _ _ Hv id) as (_ & _ & _ & Hh); [by right|]. apply (Hh (right_of a)). left.
Qed.
Lemma lin_perform {B} a (answer : State -> result B) : lin entered [ToAct (right_of a)] (AgentTools.perform a answer) anything.
Proof.
  intros c s rest x s' Hm Hv Ha. exists []. split; [|done]. simpl in *. destruct c; simpl in Ha; injection Ha as _ <-.
  - by apply log_valid.
  - by eapply valid_less.
  - by apply log_valid.
Qed.

Section Executor.
Context (w : World).
Abbreviation run_tool :=
  (AgentTools.run_tool (wo_cipher w) (wo_lookup w) (wo_dial w) (wo_post w) (wo_control w) (wo_call_service w)).
Lemma quiet_dial_first l e : quiet (AgentTools.dial_first (wo_dial w) l e).
Proof. revert e. induction l; intros e; simpl; quiets; auto. Qed.
Lemma quiet_DialContext host : quiet (AgentTools.DialContext (wo_lookup w) (wo_dial w) host).
Proof. unfold AgentTools.DialContext, AgentTools.resolveToolHost. quiets; apply quiet_dial_first. Qed.
(** The request is one for this tool and tool call. *)
Lemma lin_prepare_webhook h t r : lin entered h (AgentTools.prepare_webhook (wo_cipher w) t r)
  (fun h' x => h' = h /\ forall v, x = inl v -> exists what, snd v = AgentTools.action r (to_ID t) what).
Proof.
  unfold AgentTools.prepare_webhook. destruct (to_EndpointUrl t) as [raw|]; [|by split].
  do 5 (apply lin_seq; [quiets|intros ?|by split]). split; [done|]. intros v [= <-]. by eexists.
Qed.
Lemma lin_run_tool t r : to_ID t = AgentTools.rq_ToolID r -> lin entered [ToAct (request_right r)] (run_tool t r) anything.
Proof.
  intros Ht. assert (forall what, right_of (AgentTools.action r (to_ID t) what) = request_right r) as Hr by (by intros; rewrite Ht).
  unfold AgentTools.run_tool. destruct (bool_decide _); [|destruct (bool_decide _); [|done]].
  - unfold AgentTools.executeWebhook. eapply lin_andthen; [apply lin_prepare_webhook|].
    intros h' [[host request]|e] [-> Hreq]; [|done]. destruct (Hreq _ eq_refl) as [what Hwhat]. simpl in Hwhat. subst request.
    eapply lin_andthen with (R := anything); [|intros h' [x|e] _; [apply lin_quiet; quiets|done]].
    eapply lin_andthen with (R := anything); [|by intros h' r' _].
    apply lin_seq; [apply quiet_DialContext|intros a|done]. rewrite <- (Hr what). apply lin_perform.
  - unfold AgentTools.executeBuiltin. apply lin_seq; [quiets|intros _|done]. apply lin_seq; [quiets|intros c|done].
    eapply lin_andthen with (R := anything); [rewrite <- (Hr (to_Name t)); apply lin_perform|].
    intros h' [u|e] _; [apply lin_quiet; quiets|done].
Qed.
Abbreviation Execute :=
  (AgentTools.Execute (wo_cipher w) (wo_lookup w) (wo_dial w) (wo_post w) (wo_control w) (wo_call_service w)).
Lemma lin_Tool_Get org agent id : lin entered [] (AgentTools.Get org agent id)
  (fun h x => h = [] /\ forall t, x = inl t -> to_ID t = id).
Proof.
  unfold AgentTools.Get, AgentTools.tool_id_required. do 2 (apply lin_seq; [quiets|intros _|by split]).
  intros c s rest x s' (Hi & _ & _) Hv Ha. exists [].
  assert (s' = s) as -> by (destruct c; by injection Ha as _ <-). split; [exact Hv|]. split; [done|].
  intros t Hx. destruct c; injection Ha as <-; try done.
  unfold GetVoiceAgentToolByID, some_row in Hx. destruct (open_tool s org agent id) as [t'|] eqn:Ht; [|done].
  injection Hx as ->. apply open_tool_inv in Ht. by destruct (inv_tools _ _ Hi _ _ Ht).
Qed.
Lemma quiet_markFailed org id e : quiet (AgentTools.markFailed org id e).
Proof. unfold AgentTools.markFailed. quiets. Qed.
Lemma lin_Execute r : lin entered [] (Execute r) anything.
Proof.
  unfold AgentTools.Execute. cbv zeta. set (r' := AgentTools.with_call_id _ r). apply lin_seq; [quiets|intros _|done].
  eapply lin_andthen; [apply lin_Tool_Get|]. intros h [t|e] [-> Ht]; [|done]. apply lin_seq; [quiets|intros _|done].
  apply lin_attempted with (1 := lin_claim r'). intros h [id|e] ->.
  - unfold AgentTools.execute_claimed. apply lin_seq; [quiets|intros started|done].
    eapply lin_andthen with (R := anything); [eapply lin_andthen with (R := anything); [|by intros h' x _]|].
    + apply lin_run_tool. by apply Ht.
    + intros h' [[x|e]|e] _; [| |done]; apply lin_quiet; quiets; apply quiet_markFailed.
  - apply lin_quiet. unfold AgentTools.replay. quiets.
Qed.
(** The making of a webhook: its identifier is used once. *)
Lemma made_valid s s' id held : moves entered s s' -> valid s (ToMake id :: held) ->
  performed s' = performed s -> executions s' = executions s -> (forall k, k <> id -> tools s !! k = None -> tools s' !! k = None) ->
  valid s' held.
Proof.
  intros (_ & _ & Hg) Hv Hp He Ht. pose proof (guar_next _ _ Hg) as Hn.
  destruct (valid_unmade _ _ Hv id (list_elem_of_here _ _)) as (_ & _ & Hap & Hah).
  assert (forall r, good s r -> ri_tool r <> id -> good s' r) as Hgood.
  { intros r (Hrec & (x & Hx & Hxo & Hxc) & Hlt) Hne. split_and!; [|..|lia].
    - destruct Hrec as [Hrow|Hgone]; [left; by rewrite He|right; by apply Ht].
    - destruct (guar_sessions _ _ Hg _ _ Hx) as (x' & Hx' & _ & Ho' & Hc' & _). exists x'. split_and!; [done|congruence..]. }
  pose proof (valid_less _ _ _ Hv) as [H1 H2 H3 H4 H5 H6 H7]. split; rewrite ?Hp, ?He; try done.
  - intros a Ha. apply Hgood; [by apply H4|by apply Hap].
  - intros r Hr. apply Hgood; [by apply H5|]. apply Hah. by right.
  - intros k Hk. destruct (H6 k Hk) as (? & ? & ? & ?). split_and!; [lia| |done|done]. apply Ht; [|done]. intros ->.
    pose proof (valid_apart _ _ Hv) as Hnd. rewrite fmap_cons, NoDup_cons in Hnd. destruct Hnd as [Hnot _]. apply Hnot.
    by apply (list_elem_of_fmap_2 tag) in Hk.
  - intros k e Hk%H7. lia.
Qed.
Lemma lin_uuid : lin entered [] uuid_New (fun h x => forall id, x = inl id -> h = [ToMake id]).
Proof.
  intros s held id s' Hm Hv Ha. injection Ha as <- Hs. exists [ToMake (next s)]. split; [|by intros id [= <-]].
  simpl in Hv. assert (calm s s') as Hc by (rewrite <- Hs; by apply calm_same).
  destruct (calm_valid _ _ _ _ Hm Hc Hv) as [H1 H2 H3 H4 H5 H6 H7]. destruct Hm as (Hi & _ & _). split; try done.
  - simpl. apply NoDup_cons. split; [|done]. intros ([r|id] & [= He] & Hin)%list_elem_of_fmap.
    destruct (valid_unmade _ _ Hv id Hin) as [? _]. lia.
  - intros r [?|Hr]%elem_of_cons; [done|]. by apply H3.
  - intros r [?|Hr]%elem_of_cons; [done|]. by apply H5.
  - intros id [[= ->]|Hid]%elem_of_cons.
    + split_and!.
      * rewrite <- Hs. simpl. lia.
      * rewrite <- Hs. simpl. destruct (tools s !! next s) as [t|] eqn:Ht; [|done].
        destruct (inv_tools _ _ Hi _ _ Ht) as (_ & ? & _). lia.
      * rewrite (calm_performed _ _ Hc). intros a Ha He. destruct (valid_performed _ _ Hv a Ha) as (_ & _ & Hlt).
        simpl in Hlt. lia.
      * intros r [?|Hr]%elem_of_cons; [done|]. destruct (valid_held _ _ Hv r Hr) as (_ & _ & Hlt). lia.
    + destruct (H6 id Hid) as (? & ? & ? & Hh). split_and!; [done..|]. intros r [?|Hr]%elem_of_cons; [done|]. by apply Hh.
Qed.
Lemma lin_Tool_Create org agent r : lin entered [] (AgentTools.Create (wo_cipher w) org agent r) anything.
Proof.
  unfold AgentTools.Create. apply lin_seq; [quiets|intros _|done]. apply lin_seq; [quiets|intros [type c]|done].
  destruct (bool_decide _); [apply lin_quiet; quiets|]. apply lin_seq; [quiets|intros _|done].
  eapply lin_andthen; [apply lin_uuid|]. intros h [id|e] Hh; [|done]. rewrite (Hh _ eq_refl).
  apply lin_seq; [apply quiet_new_secret|intros [secret ciphertext]|done].
  eapply lin_andthen with (R := anything); [|intros h' [t|e] _; [apply lin_quiet; quiets|done]].
  eapply lin_andthen with (R := anything); [|by intros h' x _].
  eapply lin_andthen; [apply (lin_exec [ToMake id] [])|intros h' [u|e] _; [apply lin_quiet; quiets|done]].
  intros s x s' held Hm Hv. unfold CreateVoiceAgentWebhookTool. destruct (open_agent s org agent); [|done].
  destruct (bool_decide _); [done|].
  intros (s1 & (Hp & He & Ht)%put_tool_same & (s2 & (Hp' & He' & Ht')%put_secret_calm & [= _ <-])%rbind_ok_inv)%rbind_ok_inv.
  eapply made_valid; [exact Hm|exact Hv|congruence|congruence|]. intros k Hk Hn. rewrite Ht', Ht. simpl.
  by rewrite lookup_insert_ne.
Qed.
Lemma lin_executeRealtimeTool c session connection id name arguments :
  lin entered [] (executeRealtimeTool (wo_cipher w) (wo_peers w) (wo_lookup w) (wo_dial w) (wo_post w) (wo_control w)
    (wo_call_service w) c session connection id name arguments) anything.
Proof.
  unfold executeRealtimeTool. destruct (cl_VoiceAgentID c) as [agent|]; [|done].
  apply lin_attempted with (R := anything); [|intros h r _; apply lin_quiet; quiets].
  unfold call_tool. apply lin_seq; [|intros t; apply lin_Execute|done].
  unfold AgentTools.ResolveByName, AgentTools.List_. quiets.
Qed.

(** ** The system *)
Lemma lin_forget {B} (p : prog State B) : lin entered [] p anything -> lin entered [] (forget p) anything.
Proof. intros Hp. by eapply lin_andthen. Qed.
Lemma quiet_forget {B} (p : prog State B) : quiet p -> lin entered [] (forget p) anything.
Proof. intros Hp. by apply lin_forget, lin_quiet. Qed.
Lemma op_lin p : op entered providers w p -> lin entered [] p anything.
Proof.
  destruct 1; first [apply lin_forget, lin_Execute|apply lin_forget, lin_executeRealtimeTool|apply lin_forget, lin_Tool_Create
    |apply quiet_forget; auto 2 with rights_kept nocore].
Qed.

(** The rights of all threads together. *)
Definition held_ok (x : State * list (prog State unit)) : Prop :=
  exists hs, Forall2 (fun h (p : prog State unit) => lin entered h p anything) hs (snd x) /\ valid (fst x) (mjoin hs).
Lemma valid_permutation s h h' : h ≡ₚ h' -> valid s h -> valid s h'.
Proof.
  intros Hp [H1 H2 H3 H4 H5 H6 H7]. split; try done.
  - by rewrite <- Hp.
  - intros r. rewrite <- Hp. apply H3.
  - intros r. rewrite <- Hp. apply H5.
  - intros id. rewrite <- Hp. intros Hid. destruct (H6 id Hid) as (? & ? & ? & Hh). split_and!; [done..|].
    intros r. rewrite <- Hp. apply Hh.
Qed.
Lemma join_middle (hs1 hs2 : list (list ticket)) h : mjoin (hs1 ++ h :: hs2) ≡ₚ h ++ mjoin (hs1 ++ hs2).
Proof. rewrite !join_app. simpl. solve_Permutation || by rewrite (Permutation_app_swap_app h). Qed.
Lemma tstep_lin (p : prog State unit) s p' s' h held :
  tstep p s p' s' -> moves entered s s' -> lin entered h p anything -> valid s (h ++ held) ->
  exists h', lin entered h' p' anything /\ valid s' (h' ++ held).
Proof.
  intros Hs Hm Hl Hv. destruct Hs as [Y f k c s x s' Hx|Y f k s x s' Hx]; simpl in Hl.
  - destruct (Hl _ _ _ _ _ Hm Hv Hx) as (h' & ? & ?). by exists h'.
  - destruct (Hl _ _ _ _ Hm Hv Hx) as (h' & ? & ?). by exists h'.
Qed.
Lemma sys_step_held x x' : moves entered (fst x) (fst x') -> held_ok x -> sys_step (op entered providers w) env x x' -> held_ok x'.
Proof.
  intros Hm (hs & Hall & Hv) Hs. destruct Hs as [p s ts Hp|s s' ts He|ts1 p ts2 s p' s' Hs]; simpl in *.
  - exists ([] :: hs). split; [|exact Hv]. constructor; [by apply op_lin|done].
  - exists hs. split; [done|]. eapply calm_valid; [exact Hm| |exact Hv]. destruct He; by apply calm_same.
  - apply Forall2_app_inv_r in Hall as (hs1 & hs' & H1 & H2 & ->). apply Forall2_cons_inv_r in H2 as (h & hs2 & Hp & H2 & ->).
    destruct (tstep_lin _ _ _ _ _ (mjoin (hs1 ++ hs2)) Hs Hm Hp) as (h' & Hp' & Hv').
    { by eapply valid_permutation; [apply join_middle|]. }
    exists (hs1 ++ h' :: hs2). split; [by apply Forall2_app; [|constructor]|].
    by eapply valid_permutation; [symmetry; apply join_middle|].
Qed.
Lemma initial_held s0 : initial s0 -> held_ok (s0, []).
Proof.
  intros Hi. exists []. split; [constructor|]. simpl. destruct Hi as [_ _ _ _ _ _ He _ Hp].
  split; rewrite ?He, ?Hp; try apply NoDup_nil_2; try (intros x Hx; by apply elem_of_nil in Hx).
  intros id e Hid. by rewrite lookup_empty in Hid.
Qed.
Lemma reached_held `{!SecretLaws X} `{!AEADLaws A} s0 x :
  initial s0 -> reached entered providers w s0 x -> held_ok x.
Proof.
  intros Hi Hr. revert x Hr. apply (rtc_ind_r held_ok); [by apply initial_held|]. intros y z Hy Hz IH.
  assert (reached entered providers w s0 y) as Hyr by exact Hy.
  assert (reached entered providers w s0 z) as Hzr by (by eapply rtc_r).
  eapply sys_step_held; [|exact IH|exact Hz]. split; [by apply (ag_reached_inv entered providers w s0)|].
  split; [by apply (ag_reached_inv entered providers w s0)|by apply (ag_reached_moves entered providers w s0 y z Hi Hyr Hz)].
Qed.
End Executor.
End Acting.

(** In the run of [AgentOutcomes.v] the model asks twice to end the call. *)
Section Witness.
Import AgentOutcomes.
#[local] Existing Instance toy_secrets.
#[local] Existing Instance decimal_uuid.
#[local] Existing Instance toy_aead.
#[local] Existing Instance ex_library.
#[local] Existing Instance ex_tools.
Definition ex_hangup : prog State unit :=
  forget (executeRealtimeTool true ex_peers (wo_lookup ex_world) (wo_dial ex_world) (wo_post ex_world) (wo_control ex_world)
    true ex_called 15 16 "call-1" "hangup_call" (bytes "{}")).
Definition ex_twice := ag_finish ex_hangup (ag_finish ex_hangup ex_attached).
Lemma ex_asks_twice : reached ex_entered true ex_world ex_state ex_twice.
Proof.
  unfold reached, reachable. etrans; [apply ex_attaches|]. unfold ex_twice.
  etrans; apply ag_finish_steps; apply (op_realtime_tool ex_entered true ex_world).
Qed.
End Witness.
End AgentTickets.
